(* ===== verification/_CoqProject ===== *)
-Q . S2P
Prelude.v
CString.v
Hash.v
Sha1.v
Sha256.v
Md5.v
Bignum.v
Rsa.v
P256.v
DsaSig.v
P256Field.v
Primes.v
Curve.v
P256Point.v
P256Mult.v
P256Table.v
P256Multiples.v
Ecdsa.v
Retouch.v
Compat.v
Fnmatch.v
TarHeader.v
TarBlock.v
LinkedList.v
HashTable.v
TarUtil.v
TarOutput.v
TarAppend.v
TarExtract.v
TarArchive.v
TarHandle.v
TarRestore.v
MiniTar.v
TarExclude.v
TarRoundTrip.v
Mtd.v
MtdScan.v
MtdStream.v
MtdCommands.v
Bml.v
BmlFlash.v
Mounts.v
Mmc.v
MmcTable.v
MmcCommands.v
MmcRoundTrip.v
Bmlutils.v
Flashutils.v
Fb.v
Fb2png.v
AdbScreenshot.v
Dumwolf.v
BootImage.v
BootRoundTrip.v
Process.v
