(* ===== verification/Prelude.v ===== *)
(** * Verification of the C core of the recovery

    The repository is an Android recovery: a small system that verifies and installs
    update packages, backs up and restores partitions, and repairs binaries.  Its own
    C code is a set of libraries the C++ programs call.  This development models the
    ones that decide something, and proves that they decide it correctly.

    ** Parts and files

    - This file: words of 8, 32 and 64 bits as [Z] with their wrap-around, little
      endian values of digit lists, the [outcome] monad ([Fault] is an access outside
      a buffer), the monad [M] of loops with fuel, hints and shared lemmas.
    - [Hash], [Sha1], [Sha256] (src/libmincrypt/sha.c, sha256.c) and [Md5]
      (src/digest/md5.c): the streaming contexts.  The abstract contract is [Hash.MD]:
      pad, cut into blocks, fold.  The class [Hash.HashAlg] is the table of functions
      of hash-internal.h; the instances for SHA-1 and SHA-256 discharge its laws.
    - [Bignum]: the multi-word loops that rsa.c and p256.c share.
    - [Rsa] (src/libmincrypt/rsa.c): Montgomery multiplication, exponentiation,
      PKCS #1 v1.5 verification; it uses the hashes of [Sha1] and [Sha256].
    - [P256] (p256.c), [DsaSig] (dsa_sig.c), [P256Field] and [P256Point]
      (p256_ec.c), [Ecdsa] (p256_ecdsa.c): ECDSA over P-256.  [Primes] (Pocklington
      certificates for the modulus and the order), [Curve] (the affine group law) are the
      specification; [P256Mult] relates the loops to it, [P256Table] checks the
      precomputed table, [P256Multiples] concludes that multiples are computed.
    - [Retouch] (src/minelf/Retouch.c): decoding of relocation entries and masking of
      prelinked binaries.
    - [CString]: strings of C, and the library's own strlcpy, basename and dirname
      (src/libtar/compat).
    - [TarHeader] (src/libtar/lib/libtar.h, encode.c, decode.c, util.c) and [TarBlock]
      (block.c): headers of tar archives and their reading and writing with the GNU
      and SELinux extensions.
    - [LinkedList] and [HashTable] (src/libtar/listhash): doubly linked lists over a
      store of nodes with addresses, and hash tables of such lists.  [LinkedList.rep] and
      [HashTable.hash_rep] say which sequence of elements a structure holds.
    - [TarUtil] (util.c: paths, hash functions, mkdirhier), [TarOutput] (output.c,
      compat/strmode.c), [TarAppend] (append.c and the tree of wrapper.c), [TarExtract]
      (extract.c, wrapper.c), [TarHandle] (handle.c): whole archives.  The handle keeps a
      table in a hash table: the cache of devices and inodes when writing
      ([TarAppend.cache_rep]), the files extracted so far when reading
      ([TarExtract.links_rep]).
    - [MiniTar] (src/libtar/minitar/minitar.c): the tar command, which calls all of the
      above.
    - [TarArchive] (what an archive of plain files is, and that appending writes it),
      [TarRestore] (extraction from it), [TarRoundTrip] (the command as a whole).
    - [Fnmatch] (src/libtar/compat/fnmatch.c) and [Compat] (strlcat, strrstr, strdup,
      inet_aton): the copies of library functions; [TarExclude] connects the matching of
      names with the exclusions of the tar command.
    - [Mtd] (src/mtdutils/mtdutils.c, blocks of raw flash and the read and write
      contexts), [MtdScan] (the table of partitions from /proc/mtd), [MtdStream]
      (streams over the good blocks), [MtdCommands] (the commands, which compose the
      three).  The class [Mtd.Device] is the character device, [Mtd.Flash] what a device
      with good and bad blocks promises.
    - [Bml], [BmlFlash] (src/mtdutils/bml_over_mtd.c): partitions whose bad blocks are
      replaced by blocks of a reservoir, by a table at its end.
    - [Mounts] (src/mtdutils/mounts.c): the table of mounted volumes.
    - [Mmc] (src/mmcutils/mmcutils.c, boot records and the table of partitions),
      [MmcTable] (what a scan finds), [MmcCommands] (copying, formatting, mounting and
      the commands), [MmcRoundTrip].
    - [Bmlutils] (src/bmlutils/bmlutils.c): partitions of the block management layer.
    - [Flashutils] (src/flashutils): the front end.  The three kinds of flash implement
      the record [Flashutils.Backend] over one [Flashutils.machine] (their global
      variables, the flash device, the files they share); flash_image, dump_image and
      erase_image are programs on it.
    - [Fb] (src/fb2png/img_process.c, fb.c), [Fb2png] (fb2png.c, fb2png_main.c) and
      [AdbScreenshot] (adb_screenshoot.c): screenshots.
    - [Dumwolf] (src/libcrecovery/dumwolf.c, dumwolf.h), [BootImage], [BootRoundTrip]: boot
      images, taken apart into the files of a directory and built from them; the file
      system is a finite map, and [Dumwolf.env] says which system calls fail.
    - [Process] (src/libcrecovery/popen.c, system.c): running commands, with the table of
      descriptors, the list of open streams and the signals.

    One C function is one definition of the same name.  A loop body or a branch that is
    a definition of its own is named after what it does and mapped to its lines.
    Arrays are lists, in-place updates are state passing, and every store to a word
    type is reduced to its width.  Classes stand for what the code takes as
    parameters: the functions of the tar handle ([TarBlock.TarType],
    [TarHandle.TarFiles]), the allocators ([TarBlock.Heap], [LinkedList.Allocator]), the
    widths and signedness of the C types of a target ([TarHeader.Target]), the user and
    group databases ([TarHeader.Libc]), the system calls over a state of the file system
    ([TarUtil.FileSystem]; [TarRestore.Disk] adds the laws a restoring run relies on),
    descriptors and zlib ([MiniTar.Descriptors]), the flash device and the files of the
    flash commands ([Mtd.Device], [MtdCommands.Files], [MmcCommands.CardSystem],
    [Bmlutils.BmlSystem], [Flashutils.Board]), the frame buffer ([Fb2png.Screen]) and
    libpng (a function from an image to the pieces of a file); the theorems hold for all instances,
    the witnesses give concrete ones.  What a theorem needs of the system is a class of laws
    ([Mtd.Flash], [MmcRoundTrip.CardLaws], [Bmlutils.BmlLaws], [Fb.StreamLaws],
    [BootImage.Obliging] and others); the sizes of devices are part of them, so that a write
    is promised to succeed only where there is room.

    ** What is proved

    - Hashing: any sequence of updates refines the standard's function of the whole
      message, with the constants of the tables computed from the standard's definition.
    - RSA: exponentiation is exact; verification accepts genuine signatures, and
      accepts just the signatures whose recovered block is the padded hash or, with the
      hash taken out, a second preimage of the padding.
    - P-256: integer and field arithmetic is exact within stated bounds on the limbs;
      doubling and addition implement the group law; the scalar multiplications give
      multiples; ECDSA verification decides the equation of the standard.  The
      additions of the code are incomplete, so the multiplications have a decidable
      hypothesis ([mult_regular], [base_regular]) that no step adds equal points.
    - DER: exactly the encodings of two positive integers below 2^256 are accepted, and
      exactly those with a second integer of zero are read beyond their end.
    - Retouch: memory safety and termination on every input, application, inference
      and reversal of the offset, the decoder inverts the encoder.
    - tar: what the encoding functions write, the decoding functions read, and each of
      them changes its own members only; the checksum passes its test; [th_read] inverts
      [th_write].
    - Lists and tables: every operation refines the operation on the sequence of
      elements; freeing frees every node once.
    - Archives: the cache of inodes is a map from device and inode to the first name;
      hard links go to where their target went; closing a handle leaves nothing allocated.
    - The tar command: [TarRoundTrip.minitar_roundtrip] composes all of it.  A run that
      creates an archive of plain files and a run that extracts it restore the bytes,
      permissions, owners and times of all files that are not excluded.  Listings are
      complete, command lines are checked, the copies of library functions agree.
    - Matching of names: without FNM_PERIOD the function returns on every pattern and
      decides the declarative meaning of the pattern ([Fnmatch.matches]).
    - Flash: what is written to a partition in chunks of any size is read back with bad
      blocks stepped over, and writing succeeds just if the good blocks have room;
      partitions with a reservoir are dumped as they were flashed, and an accepted table
      maps bad blocks only, to good blocks before the table; a scan of a card's boot
      records ends on every card and finds the partitions of one whose records lie below
      2 GiB, whatever its boot code; the
      table of mounts refines a list; restoring to the block management layer writes the
      devices that the name stands for and no other, when the file fits.  At the top, the kind of flash is
      decided once, and flash_image followed by dump_image gives the image back on raw
      flash and on cards, when it fits the partition.
    - Screenshots: the file decodes to the colours that the device describes, for every
      line, or every line but the last when lines are padded (an error of the code).
    - Boot images: an image that is taken apart and built again is the same, up to a
      ramdisk that was put beside the old one and the changes the code makes for empty
      texts and unrecognised digests; whatever fails, only the image is written, and the
      result 0 means that it is the image of the files in the directory.
    - Running commands: in every sequence of calls descriptors are accounted for, with
      those that a failing fdopen leaks ([Process.call] is the step relation), a stream's status is that of its own process,
      and signals are restored.

    ** Fuel

    Loops without a structural bound take fuel, and a theorem states how much is enough:
    1022 steps for [P256.p256_modinv_vartime], 2 for [P256Field.felem_is_zero_vartime],
    64 for the padding loop [Hash.pad_loop], the length of the object for
    [Retouch.retouch_mask_data], a unit per block for [TarBlock.th_read_internal].  In
    the tar library one number bounds the blocks of a file, the nodes of a list and the
    characters of a path ([fuel]), two more the files of an archive ([files]) and the
    nesting of directories ([depth]); the round trip needs [fuel] above 4096, twice the
    number of files and the blocks of each file.
    The flash commands need more than the bytes and blocks they move, a scan of a card 60
    steps, a scan of mounts one more than the lines; [Fnmatch.fnmatch] takes one step per
    character of the pattern and computes its own fuel; for a screenshot some amount is
    enough, which depends on the pieces libpng writes.
    [None] is a loop that has not ended, and is never confused with a result.

    ** Not modelled

    The C++ programs (installation, updater, edify, applypatch, user interface), the
    vendored libraries (libaroma with freetype, harfbuzz, libpng, libjpeg and zlib;
    ntfs-3g), and the build tool mkfont.c.  Messages and debug output are left out, and [errno] except where a caller or a return
    depends on it; where a file says so, memory is taken to be there.  Of the tar library
    glob.c, snprintf.c and the functions for host names are left out, which the Android
    build takes from its C library.  The flash tools are modelled in the build without
    the layout of one vendor (BOARD_USE_MTK_LAYOUT). *)
From Stdlib Require Import ZArith List Lia Bool Setoid Morphisms Btauto.
Import ListNotations.
#[global] Open Scope Z_scope.

(** * Machine words

    A [w]-bit unsigned integer is a [Z] in [[0, 2^w)]; every C operation that
    can leave that range is followed by the conversion the C type performs. *)

Definition u8 (z : Z) : Z := z mod 2 ^ 8.
Definition u32 (z : Z) : Z := z mod 2 ^ 32.
Definition u64 (z : Z) : Z := z mod 2 ^ 64.

(** Two's complement reading of the low 32 (64) bits. *)
Definition i32 (z : Z) : Z := (z + 2 ^ 31) mod 2 ^ 32 - 2 ^ 31.
Definition i64 (z : Z) : Z := (z + 2 ^ 63) mod 2 ^ 64 - 2 ^ 63.

Declare Scope word_scope.
Delimit Scope word_scope with word.
Infix ".&" := Z.land (at level 44, left associativity) : word_scope.
Infix ".^" := Z.lxor (at level 46, left associativity) : word_scope.
Infix ".|" := Z.lor (at level 48, left associativity) : word_scope.
Infix ">>" := Z.shiftr (at level 42, left associativity) : word_scope.
Infix "<<" := Z.shiftl (at level 42, left associativity) : word_scope.
(** Wrapping 32-bit arithmetic: [a [+] b] is C's [a + b] on [uint32_t]. *)
Notation "a [+] b" := (u32 (a + b)) (at level 50, left associativity) : word_scope.
Notation "a [-] b" := (u32 (a - b)) (at level 50, left associativity) : word_scope.
Notation "a [*] b" := (u32 (a * b)) (at level 40, left associativity) : word_scope.
Notation "a [<<] n" := (u32 (Z.shiftl a n)) (at level 42, left associativity) : word_scope.
#[global] Open Scope word_scope.

Definition word (w z : Z) : Prop := 0 <= z < 2 ^ w.
Definition words (w : Z) (l : list Z) : Prop := Forall (word w) l.
Definition bytes (l : list Z) : Prop := words 8 l.

Create HintDb words discriminated.

Lemma u8_range z : word 8 (u8 z).
Proof. apply Z.mod_pos_bound; lia. Qed.

Lemma u32_range z : word 32 (u32 z).
Proof. apply Z.mod_pos_bound; lia. Qed.

Lemma u64_range z : word 64 (u64 z).
Proof. apply Z.mod_pos_bound; lia. Qed.

Lemma u8_small z : 0 <= z < 2 ^ 8 -> u8 z = z.
Proof. apply Z.mod_small. Qed.

Lemma u32_small z : 0 <= z < 2 ^ 32 -> u32 z = z.
Proof. apply Z.mod_small. Qed.

Lemma u64_small z : 0 <= z < 2 ^ 64 -> u64 z = z.
Proof. apply Z.mod_small. Qed.

Lemma i32_small z : - 2 ^ 31 <= z < 2 ^ 31 -> i32 z = z.
Proof. intros H. unfold i32. rewrite Z.mod_small; lia. Qed.

Lemma i64_small z : - 2 ^ 63 <= z < 2 ^ 63 -> i64 z = z.
Proof. intros H. unfold i64. rewrite Z.mod_small; lia. Qed.

Lemma word_mono w w' z : word w z -> 0 <= w <= w' -> word w' z.
Proof.
  unfold word. intros H Hw. pose proof (Z.pow_le_mono_r 2 w w'). lia.
Qed.

#[export] Hint Resolve u8_range u32_range u64_range : words.

(** ** Shifts and masks as division and remainder *)

Lemma shr_div z n : 0 <= n -> z >> n = z / 2 ^ n.
Proof. apply Z.shiftr_div_pow2. Qed.

Lemma shl_mul z n : 0 <= n -> z << n = z * 2 ^ n.
Proof. apply Z.shiftl_mul_pow2. Qed.

Lemma land_ones_mod z n : 0 <= n -> z .& Z.ones n = z mod 2 ^ n.
Proof. apply Z.land_ones. Qed.

Lemma word_testbit_high w z i : word w z -> 0 <= w <= i -> Z.testbit z i = false.
Proof.
  intros [H0 H1] Hi. destruct (Z.eq_dec z 0) as [->|Hz]; [apply Z.testbit_0_l|].
  apply Z.bits_above_log2; [lia|].
  apply Z.log2_lt_pow2; [lia|]. pose proof (Z.pow_le_mono_r 2 w i). lia.
Qed.

Lemma word_of_bits w z :
  0 <= w -> 0 <= z -> (forall i, w <= i -> Z.testbit z i = false) -> word w z.
Proof.
  intros Hw Hz Hb. split; [lia|].
  destruct (Z.lt_ge_cases z (2 ^ w)) as [|Hge]; [assumption|].
  assert (Hlog : w <= Z.log2 z) by (apply Z.log2_le_pow2; [pose proof (Z.pow_pos_nonneg 2 w)|]; lia).
  specialize (Hb _ Hlog). rewrite Z.bit_log2 in Hb; [discriminate|].
  pose proof (Z.pow_pos_nonneg 2 w). lia.
Qed.

Lemma land_word w a b : 0 <= w -> word w a -> 0 <= b -> word w (a .& b).
Proof.
  intros Hw Ha Hb. apply word_of_bits; [lia|apply Z.land_nonneg; left; apply Ha|].
  intros i Hi. rewrite Z.land_spec, (word_testbit_high w a i) by (auto; lia). reflexivity.
Qed.

Lemma lor_word w a b : 0 <= w -> word w a -> word w b -> word w (a .| b).
Proof.
  intros Hw Ha Hb. apply word_of_bits; [lia|apply Z.lor_nonneg; split; [apply Ha|apply Hb]|].
  intros i Hi. rewrite Z.lor_spec, !(word_testbit_high w _ i) by (auto; lia). reflexivity.
Qed.

Lemma lxor_word w a b : 0 <= w -> word w a -> word w b -> word w (a .^ b).
Proof.
  intros Hw Ha Hb. apply word_of_bits; [lia|apply Z.lxor_nonneg; split; intros _; [apply Hb|apply Ha]|].
  intros i Hi. rewrite Z.lxor_spec, !(word_testbit_high w _ i) by (auto; lia). reflexivity.
Qed.

Lemma shr_word w a n : 0 <= n -> 0 <= w -> word w a -> word w (a >> n).
Proof.
  intros Hn Hw [Ha0 Ha1]. rewrite shr_div by lia.
  assert (0 < 2 ^ n) by (apply Z.pow_pos_nonneg; lia).
  split; [apply Z.div_pos; lia|].
  apply Z.le_lt_trans with a; [apply Z.div_le_upper_bound; nia|lia].
Qed.

(** Or-ing a value below [2^n] into a multiple of [2^n] is addition. *)
Lemma lor_shl_add a b n :
  0 <= n -> 0 <= b < 2 ^ n -> (a << n) .| b = a * 2 ^ n + b.
Proof.
  intros Hn Hb. rewrite <- shl_mul by lia.
  assert (Hland : (a << n) .& b = 0).
  { apply Z.bits_inj'. intros i Hi. rewrite Z.land_spec, Z.bits_0, Z.shiftl_spec by lia.
    destruct (Z.lt_ge_cases i n) as [Hin|Hin].
    - rewrite (Z.testbit_neg_r a) by lia. reflexivity.
    - rewrite (word_testbit_high n b) by (unfold word; lia). apply andb_false_r. }
  rewrite Z.add_nocarry_lxor by exact Hland.
  apply Z.bits_inj'. intros i Hi. apply (f_equal (fun z => Z.testbit z i)) in Hland.
  rewrite Z.land_spec, Z.bits_0 in Hland. rewrite Z.lor_spec, Z.lxor_spec.
  destruct (Z.testbit (a << n) i), (Z.testbit b i); auto; discriminate.
Qed.

(** Bitwise equalities: reduce to a boolean identity per bit. *)
Ltac bitwise_eq :=
  apply Z.bits_inj'; let i := fresh "i" in intros i ?;
  repeat rewrite ?Z.land_spec, ?Z.lor_spec, ?Z.lxor_spec, ?Z.ldiff_spec;
  try btauto.

(** * Arrays

    C arrays are lists; [get] and [set] are the accesses.  The models only use
    them at indices the array has. *)

Definition get (l : list Z) (i : nat) : Z := nth i l 0.

Fixpoint set (l : list Z) (i : nat) (v : Z) : list Z :=
  match l, i with
  | [], _ => []
  | _ :: t, O => v :: t
  | h :: t, S j => h :: set t j v
  end.

(** [memcpy(dst + off, src, length src)]. *)
Definition blit (dst : list Z) (off : nat) (src : list Z) : list Z :=
  firstn off dst ++ src ++ skipn (off + length src) dst.

Lemma blit_length dst off src :
  (off + length src <= length dst)%nat -> length (blit dst off src) = length dst.
Proof. intros H. unfold blit. rewrite !length_app, length_firstn, length_skipn. lia. Qed.

(** What the target holds up to the end of the copied bytes. *)
Lemma blit_firstn dst off src :
  (off + length src <= length dst)%nat ->
  firstn (off + length src) (blit dst off src) = firstn off dst ++ src.
Proof.
  intros H. unfold blit. rewrite app_assoc, firstn_app.
  rewrite firstn_all2 by (rewrite length_app, length_firstn; lia).
  replace (off + length src - length (firstn off dst ++ src))%nat with O
    by (rewrite length_app, length_firstn; lia).
  rewrite firstn_O. apply app_nil_r.
Qed.

Lemma skipn_blit_after d o s k :
  (o + length s <= k)%nat -> (o + length s <= length d)%nat -> skipn k (blit d o s) = skipn k d.
Proof.
  intros Hk Hd. unfold blit. rewrite !skipn_app, length_firstn.
  rewrite (skipn_all2 (firstn o d)) by (rewrite length_firstn; lia).
  rewrite (skipn_all2 s) by lia. rewrite skipn_skipn. cbn [app]. f_equal. lia.
Qed.

Lemma blit_blit_same d o s s' :
  length s = length s' -> (o + length s <= length d)%nat -> blit (blit d o s) o s' = blit d o s'.
Proof.
  intros Hl Hd. unfold blit at 1. rewrite <- Hl, skipn_blit_after by lia. unfold blit. rewrite firstn_app, firstn_firstn.
  rewrite Nat.min_id, length_firstn. replace (o - min o (length d))%nat with O by lia.
  rewrite firstn_O, app_nil_r, Hl. reflexivity.
Qed.

Lemma set_length l i v : length (set l i v) = length l.
Proof. revert i. induction l as [|h t IH]; intros [|i]; simpl; congruence. Qed.

Lemma set_app_exact a b v x :
  set (a ++ x :: b) (length a) v = a ++ v :: b.
Proof. induction a as [|h t IH]; simpl; congruence. Qed.

Lemma get_set_eq l i v : (i < length l)%nat -> get (set l i v) i = v.
Proof.
  revert i. induction l as [|h t IH]; intros [|i] Hi; simpl in *; try lia; auto.
  apply IH. lia.
Qed.

Lemma get_set_neq l i j v : i <> j -> get (set l i v) j = get l j.
Proof.
  revert i j. induction l as [|h t IH]; intros [|i] [|j] Hij; simpl; auto; try lia.
  apply IH. lia.
Qed.

Lemma set_words w l i v : words w l -> word w v -> words w (set l i v).
Proof.
  intros Hl Hv. revert i. induction Hl; intros [|i]; simpl; constructor; auto.
  apply IHHl.
Qed.

Lemma get_word w l i : 0 <= w -> words w l -> word w (get l i).
Proof.
  intros Hw Hl. unfold get. destruct (Nat.lt_ge_cases i (length l)) as [Hi|Hi].
  - eapply Forall_forall; [exact Hl|]. apply nth_In. exact Hi.
  - rewrite nth_overflow by lia. split; [lia|apply Z.pow_pos_nonneg; lia].
Qed.

Lemma words_app w a b : words w a -> words w b -> words w (a ++ b).
Proof. unfold words. rewrite Forall_app. auto. Qed.

Lemma words_firstn w n l : words w l -> words w (firstn n l).
Proof.
  intros H. unfold words in *. rewrite <- (firstn_skipn n l), Forall_app in H. tauto.
Qed.

Lemma words_skipn w n l : words w l -> words w (skipn n l).
Proof.
  intros H. unfold words in *. rewrite <- (firstn_skipn n l), Forall_app in H. tauto.
Qed.

#[export] Hint Resolve set_words words_app words_firstn words_skipn : words.

(** * Numbers in positional notation

    [eval w l] is the value of the little endian digit list [l] in base [2^w]. *)

Fixpoint eval (w : Z) (l : list Z) : Z :=
  match l with
  | [] => 0
  | d :: t => d + 2 ^ w * eval w t
  end.

Lemma eval_app w a b :
  0 <= w -> eval w (a ++ b) = eval w a + 2 ^ (w * Z.of_nat (length a)) * eval w b.
Proof.
  intros Hw. induction a as [|d t IH]; cbn [eval app length].
  - rewrite Z.mul_0_r. lia.
  - rewrite IH, Nat2Z.inj_succ, Z.mul_succ_r, Z.pow_add_r by lia. ring.
Qed.

Lemma eval_bound w l :
  0 <= w -> words w l -> 0 <= eval w l < 2 ^ (w * Z.of_nat (length l)).
Proof.
  intros Hw Hl. induction Hl as [|d t Hd Ht IH]; cbn [eval length].
  - rewrite Z.mul_0_r. lia.
  - rewrite Nat2Z.inj_succ, Z.mul_succ_r, Z.pow_add_r by lia. unfold word in Hd. nia.
Qed.

Lemma eval_repeat0 w n : eval w (repeat 0 n) = 0.
Proof. induction n as [|n IH]; cbn [eval repeat]; [|rewrite IH]; lia. Qed.

Lemma eval_inj w a b :
  0 <= w -> words w a -> words w b -> length a = length b ->
  eval w a = eval w b -> a = b.
Proof.
  intros Hw Ha. revert b. induction Ha as [|x a Hx Ha IH]; intros [|y b] Hb Hlen He;
    try discriminate; [reflexivity|].
  inversion Hb as [|? ? Hy Hb']; subst. cbn [eval] in He. unfold word in *.
  assert (x = y).
  { apply (f_equal (fun z => z mod 2 ^ w)) in He.
    rewrite !(Z.mul_comm (2 ^ w)), !Z.mod_add, !Z.mod_small in He by lia. exact He. }
  subst y. f_equal. apply IH; auto. nia.
Qed.

(** Loops that agree on every step of their range agree. *)
Lemma fold_left_ext_in {A B} (f g : A -> B -> A) l a :
  (forall x b, In b l -> f x b = g x b) -> fold_left f l a = fold_left g l a.
Proof.
  revert a. induction l as [|b l IH]; intros a H; cbn [fold_left]; [reflexivity|].
  rewrite H by (left; reflexivity). apply IH. intros x b' Hb. apply H. now right.
Qed.

Lemma Forall_repeat {A} (P : A -> Prop) x n : P x -> Forall P (repeat x n).
Proof. intros Hx. induction n; cbn; auto. Qed.

Lemma Forall_firstn {A} (P : A -> Prop) n l : Forall P l -> Forall P (firstn n l).
Proof. intros H. rewrite <- (firstn_skipn n l), Forall_app in H. tauto. Qed.

Lemma Forall_skipn {A} (P : A -> Prop) n l : Forall P l -> Forall P (skipn n l).
Proof. intros H. rewrite <- (firstn_skipn n l), Forall_app in H. tauto. Qed.

Lemma app_inj_len (a b c d : list Z) :
  length a = length c -> a ++ b = c ++ d -> a = c /\ b = d.
Proof.
  revert c. induction a as [|x a IH]; intros [|y c] Hl E; try discriminate; [auto|].
  injection E as -> E. injection Hl as Hl. destruct (IH c Hl E) as [-> ->]. auto.
Qed.

Lemma skipn_repeat {A} (x : A) k n : skipn k (repeat x n) = repeat x (n - k).
Proof. revert n. induction k as [|k IH]; intros [|n]; cbn; auto. Qed.

Lemma existsb_map {A B} (f : B -> bool) (g : A -> B) l : existsb f (map g l) = existsb (fun x => f (g x)) l.
Proof. induction l as [|x l IH]; cbn [map existsb]; [reflexivity|]. now rewrite IH. Qed.

(** * Congruences, as a setoid *)

Definition eqm (m a b : Z) : Prop := a mod m = b mod m.
Notation "a ==[ m ] b" := (eqm m a b) (at level 70, m at level 200, no associativity).

#[export] Instance eqm_equiv m : Equivalence (eqm m).
Proof.
  split; unfold eqm; [intros x|intros x y H|intros x y z H1 H2]; congruence.
Qed.

#[export] Instance eqm_add m : Proper (eqm m ==> eqm m ==> eqm m) Z.add.
Proof.
  intros a a' Ha b b' Hb. unfold eqm in *. rewrite Zplus_mod, Ha, Hb, <- Zplus_mod.
  reflexivity.
Qed.

#[export] Instance eqm_sub m : Proper (eqm m ==> eqm m ==> eqm m) Z.sub.
Proof. intros a a' Ha b b' Hb. unfold eqm in *. rewrite Zminus_mod, Ha, Hb, <- Zminus_mod. reflexivity. Qed.

#[export] Instance eqm_mul m : Proper (eqm m ==> eqm m ==> eqm m) Z.mul.
Proof. intros a a' Ha b b' Hb. unfold eqm in *. rewrite Zmult_mod, Ha, Hb, <- Zmult_mod. reflexivity. Qed.

Lemma eqm_pow m n a b : eqm m a b -> eqm m (a ^ Z.of_nat n) (b ^ Z.of_nat n).
Proof.
  intros H. induction n as [|n IH]; [reflexivity|].
  rewrite Nat2Z.inj_succ, !Z.pow_succ_r by lia. now rewrite IH, H.
Qed.

#[export] Instance eqm_pow_proper m : Proper (eqm m ==> eq ==> eqm m) Z.pow.
Proof.
  intros a b H n ? <-. destruct (Z.neg_nonneg_cases n) as [Hn|Hn].
  - rewrite !Z.pow_neg_r by exact Hn. reflexivity.
  - rewrite <- (Z2Nat.id n Hn). now apply eqm_pow.
Qed.

Lemma eqm_mod m a : a mod m ==[m] a.
Proof. apply Zmod_mod. Qed.

Lemma eqm_of_diff m a b k : a = b + k * m -> a ==[m] b.
Proof. intros ->. unfold eqm. apply Z_mod_plus_full. Qed.

Lemma eqm_diff m a b : m <> 0 -> a ==[m] b -> exists k, a = b + k * m.
Proof.
  unfold eqm. intros Hm H. exists (a / m - b / m).
  pose proof (Z.div_mod a m Hm). pose proof (Z.div_mod b m Hm). nia.
Qed.

Lemma eqm_small m a b : a ==[m] b -> 0 <= a < m -> 0 <= b < m -> a = b.
Proof. unfold eqm. intros H Ha Hb. rewrite !Z.mod_small in H; lia. Qed.

(** Cancelling a factor that is invertible modulo [m]. *)
Lemma eqm_cancel m r r' a b :
  r * r' ==[m] 1 -> r * a ==[m] r * b -> a ==[m] b.
Proof.
  intros Hr H. transitivity (r * r' * a); [rewrite Hr; now rewrite Z.mul_1_l|].
  transitivity (r' * (r * a)); [apply eqm_of_diff with 0; ring|]. rewrite H.
  transitivity (r * r' * b); [apply eqm_of_diff with 0; ring|]. rewrite Hr. now rewrite Z.mul_1_l.
Qed.

(** * Big endian byte strings *)

(** The [uint32_t] C builds from four bytes, most significant first. *)
Definition be32 (a b c d : Z) : Z := (a << 24) .| (b << 16) .| (c << 8) .| d.
Definition le32 (a b c d : Z) : Z := be32 d c b a.

Lemma be32_value a b c d :
  bytes [a; b; c; d] -> be32 a b c d = a * 2 ^ 24 + b * 2 ^ 16 + c * 2 ^ 8 + d.
Proof.
  intros H. do 4 (inversion H as [|? ? ? H']; subst; clear H; rename H' into H).
  unfold word, be32 in *. rewrite <- !Z.lor_assoc.
  rewrite (lor_shl_add c d 8), (lor_shl_add b _ 16), (lor_shl_add a _ 24) by lia. ring.
Qed.

Lemma be32_word a b c d : bytes [a; b; c; d] -> word 32 (be32 a b c d).
Proof.
  intros H. rewrite be32_value by exact H.
  do 4 (inversion H as [|? ? ? H']; subst; clear H; rename H' into H). unfold word in *. lia.
Qed.

(** The [n] low bytes of [z], most significant first. *)
Fixpoint be_bytes (n : nat) (z : Z) : list Z :=
  match n with
  | O => []
  | S m => u8 (z >> (8 * Z.of_nat m)) :: be_bytes m z
  end.

Definition le_bytes (n : nat) (z : Z) : list Z := rev (be_bytes n z).

Lemma be_bytes_length n z : length (be_bytes n z) = n.
Proof. induction n; simpl; congruence. Qed.

Lemma be_bytes_bytes n z : bytes (be_bytes n z).
Proof. induction n; constructor; auto with words. Qed.

#[export] Hint Resolve be_bytes_bytes : words.

Lemma u8_shr_mod z k w : 0 <= k -> k + 8 <= w -> u8 ((z mod 2 ^ w) >> k) = u8 (z >> k).
Proof.
  intros Hk Hw. apply Z.bits_inj'. intros i Hi. unfold u8.
  destruct (Z.lt_ge_cases i 8) as [H8|H8].
  - rewrite !Z.mod_pow2_bits_low, !Z.shiftr_spec, Z.mod_pow2_bits_low by lia. reflexivity.
  - rewrite !Z.mod_pow2_bits_high by lia. reflexivity.
Qed.

(** Only the low [8 n] bits matter. *)
Lemma be_bytes_mod k n z :
  (k <= n)%nat -> be_bytes k (z mod 2 ^ (8 * Z.of_nat n)) = be_bytes k z.
Proof.
  intros Hk. induction k as [|k IH]; [reflexivity|]. cbn [be_bytes].
  rewrite IH, u8_shr_mod by lia. reflexivity.
Qed.

Lemma be_bytes_split n k z :
  be_bytes (n + k) z = be_bytes n (z >> (8 * Z.of_nat k)) ++ be_bytes k z.
Proof.
  induction n as [|n IH]; [reflexivity|]. cbn [Nat.add be_bytes app].
  rewrite IH, Z.shiftr_shiftr by lia. do 3 f_equal. lia.
Qed.

Lemma le_bytes_length n z : length (le_bytes n z) = n.
Proof. unfold le_bytes. now rewrite length_rev, be_bytes_length. Qed.

(** A 64-bit count kept in two words, low word first. *)
Lemma le_bytes_two_words lo hi z :
  word 32 lo -> word 32 hi -> lo + 2 ^ 32 * hi = z mod 2 ^ 64 ->
  le_bytes 8 z = le_bytes 4 lo ++ le_bytes 4 hi.
Proof.
  unfold word. intros Hl Hh E. unfold le_bytes. rewrite <- rev_app_distr. f_equal.
  rewrite <- (be_bytes_mod 8 8 z) by lia. change (2 ^ (8 * Z.of_nat 8)) with (2 ^ 64). rewrite <- E.
  change 8%nat with (4 + 4)%nat at 1. rewrite be_bytes_split. f_equal.
  - f_equal. rewrite shr_div by lia. change (8 * Z.of_nat 4) with 32. symmetry.
    apply Z.div_unique with lo; lia.
  - rewrite <- (be_bytes_mod 4 4 (lo + 2 ^ 32 * hi)) by lia. f_equal. symmetry.
    apply Z.mod_unique with hi; [lia|]. change (8 * Z.of_nat 4) with 32. lia.
Qed.

(** Value of a big endian byte string. *)
Definition be_value (l : list Z) : Z := fold_left (fun acc b => acc * 256 + b) l 0.

(** * Reads and writes of a buffer *)

(** A computation that either reads outside its buffer or returns. *)
Inductive outcome (A : Type) := Fault | Ret (x : A).
Arguments Fault {A}.
Arguments Ret {A} x.

Definition bind {A B} (m : outcome A) (f : A -> outcome B) : outcome B :=
  match m with Fault => Fault | Ret x => f x end.
Notation "'let!' x := m 'in' k" := (bind m (fun x => k))
  (at level 10, x pattern, m at level 100, k at level 200).

Lemma Ret_inj {A} (x y : A) : Ret x = Ret y -> x = y.
Proof. congruence. Qed.

(** Computations with loops that take fuel: [None] is a loop that has not ended. *)
Definition M (A : Type) : Type := option (outcome A).
Definition ret {A} (x : A) : M A := Some (Ret x).
Definition bindM {A B} (m : M A) (f : A -> M B) : M B :=
  match m with None => None | Some Fault => Some Fault | Some (Ret x) => f x end.
Definition lift {A} (m : outcome A) : M A := Some m.
Notation "'do!' x := m 'in' k" := (bindM m (fun x => k)) (at level 10, x pattern, m at level 100, k at level 200).

Definition rd (buf : list Z) (i : nat) : outcome Z :=
  match nth_error buf i with Some c => Ret c | None => Fault end.

Lemma rd_in pre x suf : rd (pre ++ x :: suf) (length pre) = Ret x.
Proof. unfold rd. rewrite nth_error_app2, Nat.sub_diag by lia. reflexivity. Qed.

Lemma rd_end buf : rd buf (length buf) = Fault.
Proof. unfold rd. now rewrite (proj2 (nth_error_None buf (length buf))). Qed.

