(* ===== verification/CString.v ===== *)
(** Strings of C: the functions of the C library the tar library calls, and its own
    copies of [strlcpy], [basename] and [dirname] (src/libtar/compat).

    A string is the list of its characters; where a function reads a buffer, the
    buffer is a list of bytes and a missing terminator is a [Fault]. *)
From Stdlib Require Import ZArith List Lia Bool.
From Stdlib Require String Ascii.
From S2P Require Import Prelude.
Import ListNotations.

(** * Buffers and characters *)

Definition is_nul (c : Z) : bool := c =? 0.

(** The characters up to the terminator; the terminator has to be there. *)
Fixpoint c_string (buf : list Z) : outcome (list Z) :=
  match buf with
  | [] => Fault
  | c :: t => if is_nul c then Ret [] else let! s := c_string t in Ret (c :: s)
  end.

(** At most [n] characters, as [%.ns] and [strnlen] read them. *)
Fixpoint c_string_n (n : nat) (buf : list Z) : list Z :=
  match n, buf with
  | S n, c :: t => if is_nul c then [] else c :: c_string_n n t
  | _, _ => []
  end.

(** The bytes [strncpy(dst, src, n)] and [snprintf(dst, n, "%s", src)] store, for
    the characters [src]; a copy with its terminator is [src ++ [0]]. *)
Definition strncpy (src : list Z) (n : nat) : list Z := firstn n (src ++ repeat 0 n).
Definition snprintf (n : nat) (src : list Z) : list Z :=
  match n with O => [] | S k => firstn k src ++ [0] end.
Definition strdup (src : list Z) : list Z := src ++ [0].

(** The first occurrence of a character, as the characters before it. *)
Fixpoint strchr (s : list Z) (c : Z) : option (list Z) :=
  match s with
  | [] => None
  | x :: t => if x =? c then Some [] else
      match strchr t c with None => None | Some p => Some (x :: p) end
  end.

Definition SLASH : Z := 47.

(** [strlcpy]: the copying loop gives the characters stored, the characters left
    and the room left; the terminator is copied when there is room for it. *)
Fixpoint strlcpy_copy (n : nat) (s : list Z) : list Z * list Z * nat :=
  match n, s with
  | O, _ => ([], s, O)
  | S _, [] => ([0], [], n)
  | S n, c :: s => let '(d, s, n) := strlcpy_copy n s in (c :: d, s, n)
  end.

(** The bytes stored and the value returned, the length of the source. *)
Definition strlcpy (src : list Z) (siz : nat) : list Z * Z :=
  let '(d, s, n) := match siz with O => ([], src, O) | S n => strlcpy_copy n src end in
  if (n =? 0)%nat
  then ((if (siz =? 0)%nat then d else d ++ [0]), Z.of_nat (length d + length s))
  else (d, Z.of_nat (length d - 1)).

(** The characters of a string constant. *)
Definition str (s : String.string) : list Z := map (fun c => Z.of_nat (Ascii.nat_of_ascii c)) (String.list_ascii_of_string s).

(** [strstr]: the first position where the second string starts. *)
Fixpoint strstr (s tag : list Z) : option nat :=
  if list_eq_dec Z.eq_dec (firstn (length tag) s) tag then Some O
  else match s with
       | [] => None
       | _ :: s => match strstr s tag with None => None | Some k => Some (S k) end
       end.

(** [strcmp]: negative, zero or positive, by the first difference. *)
Fixpoint strcmp_chars (s t : list Z) : Z :=
  match s, t with
  | [], [] => 0
  | [], c :: _ => - c
  | c :: _, [] => c
  | c :: s, d :: t => if c =? d then strcmp_chars s t else c - d
  end.

(** [strsep]: the token before the first delimiter, and the string after it, or the
    null pointer when there is no delimiter. *)
Fixpoint strsep (s delim : list Z) : list Z * option (list Z) :=
  match s with
  | [] => ([], None)
  | c :: s =>
      if existsb (Z.eqb c) delim then ([], Some s)
      else let '(tok, rest) := strsep s delim in (c :: tok, rest)
  end.

(** ** Parts of a path *)

Definition MAXPATHLEN : nat := 4096.
Definition DOT : Z := 46.
Definition is_slash (c : Z) : bool := c =? SLASH.

(** [while (endp > path && test( *endp)) endp--;] with [endp] an index. *)
Fixpoint scan_back (test : Z -> bool) (s : list Z) (endp : nat) : nat :=
  match endp with
  | O => O
  | S e => if test (get s endp) then scan_back test s e else endp
  end.

(** [while (startp > path && *(startp - 1) != '/') startp--;] *)
Fixpoint base_start (s : list Z) (startp : nat) : nat :=
  match startp with
  | O => O
  | S e => if is_slash (get s e) then startp else base_start s e
  end.

(** The first [n] characters of [s] and a terminator in the static buffer of
    [MAXPATHLEN] bytes: a null pointer when the characters do not fit; the terminator
    is written without a test. *)
Definition static_copy (n : nat) (s : list Z) : outcome (option (list Z)) :=
  if (MAXPATHLEN <? n)%nat then Ret None
  else if (n =? MAXPATHLEN)%nat then Fault
  else Ret (Some (firstn n s)).

Definition openbsd_basename (path : option (list Z)) : outcome (option (list Z)) :=
  match path with
  | None | Some [] => Ret (Some [DOT])
  | Some s =>
      let endp := scan_back is_slash s (length s - 1) in
      if (endp =? 0)%nat && is_slash (get s 0) then Ret (Some [SLASH])
      else
        let startp := base_start s endp in
        static_copy (endp - startp + 1) (skipn startp s)
  end.

Definition openbsd_dirname (path : option (list Z)) : outcome (option (list Z)) :=
  match path with
  | None | Some [] => Ret (Some [DOT])
  | Some s =>
      let endp := scan_back is_slash s (length s - 1) in
      let endp := scan_back (fun c => negb (is_slash c)) s endp in
      if (endp =? 0)%nat then Ret (Some (if is_slash (get s 0) then [SLASH] else [DOT]))
      else static_copy (scan_back is_slash s (endp - 1) + 1) s
  end.

(** * Lemmas *)

Definition chars (s : list Z) : Prop := Forall (fun c => c <> 0) s.


Lemma snoc_bytes a c : bytes a -> word 8 c -> bytes (a ++ [c]).
Proof. intros Ha Hc. apply words_app; [exact Ha|now constructor]. Qed.

Lemma nul_byte : word 8 0.
Proof. unfold word. lia. Qed.

Lemma snprintf_length n s : (length (snprintf n s) <= n)%nat.
Proof. destruct n as [|k]; cbn [snprintf length]; [lia|]. rewrite length_app, length_firstn. cbn [length]. lia. Qed.

Lemma snprintf_bytes n s : bytes s -> bytes (snprintf n s).
Proof. intros H. destruct n; cbn [snprintf]; [constructor|]. apply snoc_bytes; [now apply words_firstn|exact nul_byte]. Qed.

Lemma strncpy_length s n : length (strncpy s n) = n.
Proof. unfold strncpy. rewrite length_firstn, length_app, repeat_length. lia. Qed.

Lemma strncpy_bytes s n : bytes s -> bytes (strncpy s n).
Proof. intros H. apply words_firstn, words_app; [exact H|]. apply Forall_repeat. exact nul_byte. Qed.

Lemma c_string_chars s rest : chars s -> c_string (s ++ 0 :: rest) = Ret s.
Proof.
  induction 1 as [|c s Hc Hs IH]; [reflexivity|]. cbn [app c_string]. unfold is_nul.
  destruct (Z.eqb_spec c 0); [contradiction|]. now rewrite IH.
Qed.

Lemma c_string_n_chars n s rest :
  chars s -> (length s = n \/ (length s < n)%nat /\ hd 0 rest = 0) -> c_string_n n (s ++ rest) = s.
Proof.
  intros Hs. revert n. induction Hs as [|c s Hc Hs IH]; intros n Hn.
  - destruct n as [|n]; [reflexivity|]. destruct Hn as [Hn|[_ Hn]]; [discriminate Hn|].
    destruct rest as [|r rest]; [reflexivity|]. cbn in Hn. subst r. reflexivity.
  - cbn [length] in Hn. destruct n as [|n]; [lia|]. cbn [app c_string_n]. unfold is_nul.
    destruct (Z.eqb_spec c 0); [contradiction|]. rewrite IH; [reflexivity|]. lia.
Qed.

Lemma c_string_n_firstn n : forall buf, c_string_n n (firstn n buf) = c_string_n n buf.
Proof.
  induction n as [|n IH]; intros [|c buf]; try reflexivity. cbn [firstn c_string_n]. now rewrite IH.
Qed.

Lemma strchr_split s c p : strchr s c = Some p -> s = p ++ c :: skipn (S (length p)) s.
Proof.
  revert p. induction s as [|x s IH]; intros p E; cbn [strchr] in E; [discriminate|].
  destruct (Z.eqb_spec x c) as [->|Hx].
  - injection E as <-. reflexivity.
  - destruct (strchr s c) as [q|] eqn:Eq; [|discriminate]. injection E as <-. cbn [app length].
    rewrite (IH q eq_refl) at 1. reflexivity.
Qed.

Lemma strlcpy_copy_spec s : forall n,
  strlcpy_copy n s = if (n <=? length s)%nat then (firstn n s, skipn n s, O) else (s ++ [0], [], (n - length s)%nat).
Proof.
  induction s as [|c s IH]; intros [|n]; try reflexivity. cbn [strlcpy_copy length Nat.leb firstn skipn Nat.sub].
  rewrite IH. destruct (n <=? length s)%nat; reflexivity.
Qed.

(** What the copy leaves in the buffer and returns. *)
Lemma strlcpy_spec s siz : strlcpy s siz = (snprintf siz s, Z.of_nat (length s)).
Proof.
  destruct siz as [|n]; [reflexivity|]. unfold strlcpy, snprintf. rewrite strlcpy_copy_spec.
  destruct (Nat.leb_spec n (length s)); cbn [Nat.eqb].
  - rewrite <- length_app, firstn_skipn. reflexivity.
  - destruct (Nat.eqb_spec (n - length s) 0); [lia|]. rewrite firstn_all2, length_app by lia. cbn [length].
    do 2 f_equal. lia.
Qed.

Lemma strlcpy_snprintf s siz : fst (strlcpy s siz) = snprintf siz s.
Proof. rewrite strlcpy_spec. reflexivity. Qed.

Lemma strcmp_chars_eq s : forall t, chars s -> chars t -> strcmp_chars s t = 0 <-> s = t.
Proof.
  induction s as [|c s IH]; intros [|d t] Hs Ht; cbn [strcmp_chars]; split; intros E; try reflexivity; try discriminate.
  - inversion Ht; subst. lia.
  - inversion Hs; subst. contradiction.
  - inversion Hs; inversion Ht; subst. destruct (Z.eqb_spec c d); [subst|lia]. f_equal. now apply IH.
  - injection E as -> ->. rewrite Z.eqb_refl. inversion Hs; inversion Ht; subst. now apply IH.
Qed.

(** ** Paths *)

Lemma scan_back_stop test s k n :
  (k <= n)%nat -> (forall i, (k < i <= n)%nat -> test (get s i) = true) -> k = O \/ test (get s k) = false ->
  scan_back test s n = k.
Proof.
  induction n as [|n IH]; intros Hk Hrun Hstop; cbn [scan_back]; [lia|].
  destruct (Nat.eq_dec k (S n)) as [->|Hne].
  - destruct Hstop as [|Hstop]; [lia|]. now rewrite Hstop.
  - rewrite Hrun by lia. apply IH; [lia| |exact Hstop]. intros i Hi. apply Hrun. lia.
Qed.

Lemma scan_back_le test s n : (scan_back test s n <= n)%nat.
Proof. induction n as [|n IH]; cbn [scan_back]; [lia|]. destruct (test _); lia. Qed.

(** A path that fits the static buffer has a last component. *)
Lemma basename_total s : (length s < MAXPATHLEN)%nat -> exists p, openbsd_basename (Some s) = Ret (Some p).
Proof.
  intros Hl. destruct s as [|x t]; [now eexists|]. unfold openbsd_basename. set (s := x :: t) in *.
  pose proof (scan_back_le is_slash s (length s - 1)) as He. assert (0 < length s)%nat by (cbn; lia).
  destruct (_ && _); [now eexists|]. unfold static_copy. set (e := scan_back _ _ _) in *.
  destruct (Nat.ltb_spec MAXPATHLEN (e - base_start s e + 1)); [lia|].
  destruct (Nat.eqb_spec (e - base_start s e + 1) MAXPATHLEN); [lia|]. now eexists.
Qed.

Lemma base_start_stop s k n :
  (k <= n)%nat -> (forall i, (k <= i < n)%nat -> is_slash (get s i) = false) ->
  k = O \/ is_slash (get s (k - 1)) = true -> base_start s n = k.
Proof.
  induction n as [|n IH]; intros Hk Hrun Hstop; cbn [base_start]; [lia|].
  destruct (Nat.eq_dec k (S n)) as [->|Hne].
  - destruct Hstop as [|Hstop]; [lia|]. replace (S n - 1)%nat with n in Hstop by lia. now rewrite Hstop.
  - rewrite Hrun by lia. apply IH; [lia| |exact Hstop]. intros i Hi. apply Hrun. lia.
Qed.

Definition no_slash (s : list Z) : Prop := Forall (fun c => c <> SLASH) s.

Lemma no_slash_get s i : no_slash s -> is_slash (get s i) = false.
Proof.
  intros Hs. unfold is_slash, get. destruct (Z.eqb_spec (nth i s 0) SLASH) as [E|]; [|reflexivity].
  destruct (Nat.ltb_spec i (length s)) as [Hi|Hi].
  - pose proof (proj1 (Forall_forall _ s) Hs _ (nth_In s 0 Hi)). contradiction.
  - rewrite nth_overflow in E by exact Hi. discriminate E.
Qed.

(** A path of a directory and a name in it. *)
Definition dir_path (d b : list Z) : Prop :=
  d <> [] /\ is_slash (last d 0) = false /\ b <> [] /\ no_slash b.

Lemma get_join_right d b i : get (d ++ SLASH :: b) (length d + S i) = get b i.
Proof. unfold get. rewrite app_nth2 by lia. replace (length d + S i - length d)%nat with (S i) by lia. reflexivity. Qed.

Lemma get_join_slash d b : get (d ++ SLASH :: b) (length d) = SLASH.
Proof. unfold get. now rewrite app_nth2, Nat.sub_diag by lia. Qed.

Lemma get_join_last d b : d <> [] -> get (d ++ SLASH :: b) (length d - 1) = last d 0.
Proof.
  intros Hd. destruct (exists_last Hd) as (d' & c & ->). rewrite last_last, length_app. cbn [length].
  replace (length d' + 1 - 1)%nat with (length d') by lia. rewrite <- app_assoc. unfold get.
  now rewrite app_nth2, Nat.sub_diag by lia.
Qed.

Section Join.
Variables d b : list Z.
Hypothesis Hpath : dir_path d b.
Let s := d ++ SLASH :: b.

(** The name is at the end, and the slash before it is found. *)
Lemma join_end : scan_back is_slash s (length s - 1) = (length s - 1)%nat.
Proof.
  destruct Hpath as (_ & _ & Hb & Hn). apply scan_back_stop; [lia|intros; lia|right].
  destruct (exists_last Hb) as (b' & c & E). assert (length b = S (length b')) as Hl by (rewrite E, length_app; cbn; lia).
  unfold s. rewrite length_app. cbn [length]. replace (length d + S (length b) - 1)%nat with (length d + S (length b'))%nat by lia.
  rewrite get_join_right. now apply no_slash_get.
Qed.

Lemma join_slash : scan_back (fun c => negb (is_slash c)) s (length s - 1) = length d.
Proof.
  destruct Hpath as (_ & _ & Hb & Hn). unfold s. rewrite length_app. cbn [length].
  apply scan_back_stop; [lia| |right; now rewrite get_join_slash].
  intros i Hi. replace i with (length d + S (i - length d - 1))%nat by lia. rewrite get_join_right.
  now rewrite no_slash_get.
Qed.

Lemma dirname_join : (length d < MAXPATHLEN)%nat -> openbsd_dirname (Some s) = Ret (Some d).
Proof.
  intros Hl. pose proof Hpath as (Hd & Hlast & Hb & Hn). unfold openbsd_dirname.
  destruct s as [|x t] eqn:Es; [unfold s in Es; now destruct d|]. rewrite <- Es.
  rewrite join_end, join_slash. assert (0 < length d)%nat by (destruct d; [contradiction|cbn; lia]).
  destruct (Nat.eqb_spec (length d) 0); [lia|]. unfold s.
  rewrite (scan_back_stop is_slash _ (length d - 1)); [|lia|intros; lia|right; now rewrite get_join_last by exact Hd].
  replace (length d - 1 + 1)%nat with (length d) by lia. unfold static_copy.
  destruct (Nat.ltb_spec MAXPATHLEN (length d)), (Nat.eqb_spec (length d) MAXPATHLEN); try lia.
  now rewrite firstn_app, Nat.sub_diag, firstn_all, firstn_O, app_nil_r.
Qed.

Lemma basename_join : (length b < MAXPATHLEN)%nat -> openbsd_basename (Some s) = Ret (Some b).
Proof.
  intros Hl. pose proof Hpath as (Hd & Hlast & Hb & Hn). unfold openbsd_basename.
  destruct s as [|x t] eqn:Es; [unfold s in Es; now destruct d|]. rewrite <- Es.
  rewrite join_end. assert (Hlb : (0 < length b)%nat) by (destruct b; [contradiction|cbn; lia]).
  assert (Hs : length s = (length d + S (length b))%nat) by (unfold s; rewrite length_app; reflexivity).
  destruct (Nat.eqb_spec (length s - 1) 0); [lia|]. cbn [andb].
  rewrite (base_start_stop s (length d + 1)).
  - unfold static_copy. replace (length s - 1 - (length d + 1) + 1)%nat with (length b) by lia.
    destruct (Nat.ltb_spec MAXPATHLEN (length b)), (Nat.eqb_spec (length b) MAXPATHLEN); try lia.
    unfold s. rewrite skipn_app, skipn_all2 by lia. replace (length d + 1 - length d)%nat with 1%nat by lia.
    cbn [skipn app]. now rewrite firstn_all.
  - lia.
  - intros i Hi. replace i with (length d + S (i - length d - 1))%nat by lia. unfold s. rewrite get_join_right.
    now apply no_slash_get.
  - right. replace (length d + 1 - 1)%nat with (length d) by lia. unfold s. now rewrite get_join_slash.
Qed.
End Join.
