(* ===== verification/Hash.v ===== *)
(** Block hashing: the streaming context of libmincrypt and its specification.

    [MD] is the abstract contract shared by SHA-1, SHA-256 and MD5: a message is
    padded, cut into 64-byte blocks and folded through a compression function.
    [HASH_CTX] and the functions after it are the code of
    src/libmincrypt/sha.c and sha256.c, which differ only in their transform,
    initial state and number of digest words; the class [HashAlg] is the part of
    HASH_VTAB (src/libmincrypt/include/mincrypt/hash-internal.h) that varies.
    The main result is that the byte-at-a-time context refines [MD]. *)
From Stdlib Require Import ZArith List Lia.
From S2P Require Import Prelude.
Import ListNotations.

(** * The contract *)

Module MD.

Fixpoint take_blocks (n : nat) (m : list Z) : list (list Z) :=
  match n with
  | O => []
  | S k => firstn 64 m :: take_blocks k (skipn 64 m)
  end.

(** The complete 64-byte blocks of a message and what is left over. *)
Definition blocks (m : list Z) : list (list Z) := take_blocks (length m / 64) m.
Definition tail (m : list Z) : list Z := skipn (64 * (length m / 64)) m.

(** Number of zero bytes between the 0x80 marker and the length field. *)
Definition pad_zeros (n : nat) : nat := Z.to_nat ((55 - Z.of_nat n) mod 64).

Definition pad (len_field : Z -> list Z) (m : list Z) : list Z :=
  m ++ [0x80] ++ repeat 0 (pad_zeros (length m)) ++ len_field (8 * Z.of_nat (length m)).

Definition hash {S : Type} (compress : S -> list Z -> S) (iv : S)
    (len_field : Z -> list Z) (m : list Z) : S :=
  fold_left compress (blocks (pad len_field m)) iv.

(** [m] is the concatenation of the 64-byte blocks [bs] and a short tail [t]. *)
Definition cut (m : list Z) (bs : list (list Z)) (t : list Z) : Prop :=
  m = concat bs ++ t /\ Forall (fun b => length b = 64%nat) bs /\ (length t < 64)%nat.

Lemma take_blocks_concat bs t :
  Forall (fun b => length b = 64%nat) bs ->
  take_blocks (length bs) (concat bs ++ t) = bs.
Proof.
  intros H. induction H as [|b bs Hb Hbs IH]; [reflexivity|].
  cbn [length take_blocks concat]. rewrite <- app_assoc.
  rewrite firstn_app, Hb, Nat.sub_diag, firstn_O, app_nil_r, firstn_all2 by lia.
  rewrite skipn_app, Hb, Nat.sub_diag, skipn_O, skipn_all2 by lia. cbn [app]. now rewrite IH.
Qed.

Lemma concat_length bs :
  Forall (fun b : list Z => length b = 64%nat) bs -> length (concat bs) = (64 * length bs)%nat.
Proof.
  intros H. induction H as [|b bs Hb Hbs IH]; [reflexivity|].
  cbn [concat length]. rewrite length_app, IH, Hb. lia.
Qed.

(** A cut is unique, and is the one [blocks] and [tail] compute. *)
Lemma cut_unique m bs t : cut m bs t -> blocks m = bs /\ tail m = t.
Proof.
  intros (-> & Hbs & Ht). unfold blocks, tail.
  rewrite length_app, concat_length by assumption.
  replace ((64 * length bs + length t) / 64)%nat with (length bs)
    by (apply Nat.div_unique with (length t); lia).
  split; [now apply take_blocks_concat|].
  rewrite skipn_app, concat_length, Nat.sub_diag by assumption.
  rewrite skipn_all2; [reflexivity|]. rewrite concat_length by assumption. lia.
Qed.

Lemma cut_full m bs t b :
  cut m bs t -> length (t ++ b) = 64%nat -> cut (m ++ b) (bs ++ [t ++ b]) [].
Proof.
  intros (-> & Hbs & _) Hl. split; [|split].
  - rewrite concat_app. cbn [concat]. rewrite !app_nil_r, <- !app_assoc. reflexivity.
  - apply Forall_app. auto.
  - simpl. lia.
Qed.

Lemma cut_part m bs t b : cut m bs t -> (length (t ++ b) < 64)%nat -> cut (m ++ b) bs (t ++ b).
Proof. intros (-> & Hbs & _) Hl. split; [|auto]. now rewrite <- app_assoc. Qed.

Lemma cut_nil : cut [] [] [].
Proof. split; [reflexivity|]. split; [constructor|simpl; lia]. Qed.

Lemma cut_snoc m bs t b : cut m bs t -> exists bs' t', cut (m ++ [b]) bs' t'.
Proof.
  intros H. pose proof H as (_ & _ & Ht).
  destruct (Nat.eq_dec (S (length t)) 64) as [He|He].
  - exists (bs ++ [t ++ [b]]), []. apply cut_full; [assumption|]. rewrite length_app. simpl. lia.
  - exists bs, (t ++ [b]). apply cut_part; [assumption|]. rewrite length_app. simpl. lia.
Qed.

Lemma cut_blocks m : cut m (blocks m) (tail m).
Proof.
  enough (exists bs t, cut m bs t) as (bs & t & H).
  { destruct (cut_unique m bs t H) as [-> ->]. exact H. }
  induction m as [|b m IH] using rev_ind; [exists [], []; apply cut_nil|].
  destruct IH as (bs & t & H). now apply cut_snoc with bs t.
Qed.

Lemma cut_length m bs t : cut m bs t -> length t = (length m mod 64)%nat.
Proof.
  intros (-> & Hbs & Ht). rewrite length_app, concat_length by assumption.
  apply Nat.mod_unique with (length bs); lia.
Qed.

Lemma hash_length (c : list Z -> list Z -> list Z) (iv : list Z) lf m :
  (forall h b, length (c h b) = length iv) -> length (hash c iv lf m) = length iv.
Proof.
  intros Hc. unfold hash. generalize (blocks (pad lf m)) as bs.
  induction bs as [|b bs IH] using rev_ind; [reflexivity|].
  rewrite fold_left_app. apply Hc.
Qed.

Lemma pad_zeros_spec n : ((n + 1 + pad_zeros n) mod 64 = 56)%nat.
Proof.
  unfold pad_zeros. apply Nat2Z.inj. rewrite Nat2Z.inj_mod, !Nat2Z.inj_add, Z2Nat.id
    by (apply Z.mod_pos_bound; lia).
  rewrite Zplus_mod_idemp_r. change (Z.of_nat 64) with 64.
  replace (Z.of_nat n + Z.of_nat 1 + (55 - Z.of_nat n)) with 56 by lia. reflexivity.
Qed.

Lemma pad_zeros_lt n : (pad_zeros n < 64)%nat.
Proof. unfold pad_zeros. pose proof (Z.mod_pos_bound (55 - Z.of_nat n) 64). lia. Qed.

End MD.

Lemma flat_be_length l : length (flat_map (be_bytes 4) l) = (4 * length l)%nat.
Proof.
  induction l as [|x l IH]; [reflexivity|]. cbn [flat_map length].
  rewrite length_app, IH, be_bytes_length. lia.
Qed.

(** * The streaming context *)

Record HASH_CTX := mkHASH_CTX { count : Z; buf : list Z; state : list Z }.

Definition set_count (c : HASH_CTX) (n : Z) := mkHASH_CTX n (buf c) (state c).
Definition set_buf (c : HASH_CTX) (b : list Z) := mkHASH_CTX (count c) b (state c).
Definition set_state (c : HASH_CTX) (s : list Z) := mkHASH_CTX (count c) (buf c) s.

(** The storage a context occupies: [uint8_t buf[64]], [uint32_t state[8]]. *)
Definition ctx_wf (c : HASH_CTX) : Prop := length (buf c) = 64%nat /\ length (state c) = 8%nat.

(** What differs between the two implementations, and the promise the streaming
    code relies on: the transform changes only [state], and its first
    [digest_words] words are a function of their old values and of [buf]. *)
Class HashAlg := {
  Transform : HASH_CTX -> HASH_CTX;
  iv : list Z;
  compress : list Z -> list Z -> list Z;
  iv_length : (0 < length iv <= 8)%nat;
  Transform_keeps : forall c, count (Transform c) = count c /\ buf (Transform c) = buf c;
  Transform_wf : forall c, ctx_wf c -> ctx_wf (Transform c);
  Transform_state : forall c, ctx_wf c ->
    firstn (length iv) (state (Transform c)) = compress (firstn (length iv) (state c)) (buf c)
}.

Definition digest_words `{HashAlg} : nat := length iv.

Section Streaming.
Context `{Alg : HashAlg}.

(** [ctx->state[0] = ...; ...; ctx->count = 0], the rest of the struct untouched. *)
Fixpoint init_words (ws : list Z) (i : nat) (s : list Z) : list Z :=
  match ws with
  | [] => s
  | w :: t => init_words t (S i) (set s i w)
  end.

Definition hash_init (c : HASH_CTX) : HASH_CTX :=
  set_count (set_state c (init_words iv 0 (state c))) 0.

(** The [while (len--)] loop: store a byte, transform when the block is full. *)
Fixpoint update_loop (i : nat) (p : list Z) (c : HASH_CTX) : HASH_CTX :=
  match p with
  | [] => c
  | b :: p' =>
      let c := set_buf c (set (buf c) i b) in
      let i := S i in
      if (i =? 64)%nat then update_loop 0 p' (Transform c) else update_loop i p' c
  end.

Definition hash_update (c : HASH_CTX) (data : list Z) : HASH_CTX :=
  let i := Z.to_nat (count c .& 63) in
  let c := set_count c (u64 (count c + Z.of_nat (length data))) in
  update_loop i data c.

(** [while ((ctx->count & 63) != 56) update(ctx, "\0", 1)]; 64 rounds are enough
    because each round adds one to the count. *)
Fixpoint pad_loop (fuel : nat) (c : HASH_CTX) : HASH_CTX :=
  match fuel with
  | O => c
  | S f => if count c .& 63 =? 56 then c else pad_loop f (hash_update c [0])
  end.

Definition store_be32 (b : list Z) (i : nat) (tmp : Z) : list Z :=
  set (set (set (set b (4 * i) (u8 (tmp >> 24))) (4 * i + 1) (u8 (tmp >> 16)))
           (4 * i + 2) (u8 (tmp >> 8))) (4 * i + 3) (u8 (tmp >> 0)).

Definition hash_final (c : HASH_CTX) : HASH_CTX :=
  let cnt := u64 (count c * 8) in
  let c := hash_update c [0x80] in
  let c := pad_loop 64 c in
  let c := fold_left (fun c i => hash_update c [u8 (cnt >> ((7 - Z.of_nat i) * 8))])
             (seq 0 8) c in
  set_buf c (fold_left (fun b i => store_be32 b i (get (state c) i)) (seq 0 digest_words) (buf c)).

(** [SHA_hash]: a context of indeterminate contents is initialised, fed and finished. *)
Definition hash_oneshot (c : HASH_CTX) (data : list Z) : list Z :=
  firstn (4 * digest_words) (buf (hash_final (hash_update (hash_init c) data))).

(** ** Refinement *)

(** The digest the contract prescribes. *)
Definition spec_digest (m : list Z) : list Z :=
  flat_map (be_bytes 4) (MD.hash compress iv (be_bytes 8) m).

(** The context has absorbed exactly the message [m]. *)
Definition absorbed (c : HASH_CTX) (m : list Z) : Prop :=
  ctx_wf c /\ count c = u64 (Z.of_nat (length m)) /\
  firstn (length iv) (state c) = fold_left compress (MD.blocks m) iv /\
  firstn (length (MD.tail m)) (buf c) = MD.tail m.

(** The part of [absorbed] that a position inside the update loop also satisfies. *)
Definition holds (c : HASH_CTX) (bs : list (list Z)) (t : list Z) : Prop :=
  ctx_wf c /\ firstn (length iv) (state c) = fold_left compress bs iv /\
  firstn (length t) (buf c) = t.

Lemma absorbed_cut c m :
  absorbed c m <->
  count c = u64 (Z.of_nat (length m)) /\ exists bs t, MD.cut m bs t /\ holds c bs t.
Proof.
  unfold absorbed, holds. split.
  - intros (Hwf & Hc & Hs & Hb). split; [exact Hc|].
    exists (MD.blocks m), (MD.tail m). auto using MD.cut_blocks.
  - intros (Hc & bs & t & Hcut & Hwf & Hs & Hb).
    destruct (MD.cut_unique _ _ _ Hcut) as [-> ->]. auto.
Qed.

Lemma firstn_set_snoc l i v :
  (i < length l)%nat -> firstn (S i) (set l i v) = firstn i l ++ [v].
Proof.
  revert i. induction l as [|h t IH]; intros [|i] Hi; simpl in *; try lia; auto.
  f_equal. apply IH. lia.
Qed.

Lemma holds_byte c bs t b :
  holds c bs t -> (length t < 64)%nat ->
  let c' := set_buf c (set (buf c) (length t) b) in
  ctx_wf c' /\ firstn (length iv) (state c') = fold_left compress bs iv /\
  firstn (S (length t)) (buf c') = t ++ [b].
Proof.
  intros ((Hb & Hw) & Hs & Ht) Hlt. unfold ctx_wf. cbn [set_buf buf state].
  rewrite set_length. repeat split; auto. rewrite firstn_set_snoc by lia. congruence.
Qed.

Lemma update_loop_count p i c : count (update_loop i p c) = count c.
Proof.
  revert i c. induction p as [|b p IH]; intros i c; [reflexivity|].
  cbn [update_loop]. destruct (S i =? 64)%nat; rewrite IH; [|reflexivity].
  now rewrite (proj1 (Transform_keeps _)).
Qed.

Lemma update_loop_holds p c m bs t :
  MD.cut m bs t -> holds c bs t ->
  exists bs' t', MD.cut (m ++ p) bs' t' /\ holds (update_loop (length t) p c) bs' t'.
Proof.
  revert c m bs t. induction p as [|b p IH]; intros c m bs t Hcut Hh.
  { rewrite app_nil_r. eauto. }
  pose proof Hcut as (_ & _ & Hlt). destruct (holds_byte c bs t b Hh Hlt) as (Hwf & Hs & Ht).
  set (c' := set_buf c (set (buf c) (length t) b)) in *.
  cbn [update_loop]. fold c'. change (m ++ b :: p) with (m ++ [b] ++ p). rewrite app_assoc.
  destruct (Nat.eqb_spec (S (length t)) 64) as [He|He].
  - refine (IH (Transform c') _ _ [] (MD.cut_full _ _ _ [b] Hcut _) _).
    { rewrite length_app. simpl. lia. }
    split; [now apply Transform_wf|]. split; [|reflexivity].
    rewrite Transform_state, Hs, fold_left_app by exact Hwf. cbn [fold_left].
    rewrite He, firstn_all2 in Ht; [now rewrite Ht|]. destruct Hwf as [-> _]. lia.
  - assert (Hl : S (length t) = length (t ++ [b])) by (rewrite length_app; simpl; lia).
    rewrite Hl. rewrite Hl in Ht, He. apply IH with bs.
    + apply MD.cut_part; [assumption|]. lia.
    + repeat split; auto; apply Hwf.
Qed.

Lemma low6_of_count m :
  Z.to_nat (u64 (Z.of_nat (length (A := Z) m)) .& 63) = (length m mod 64)%nat.
Proof.
  change 63 with (Z.ones 6). rewrite land_ones_mod by lia. unfold u64.
  rewrite Z.mod_mod_divide by (exists (2 ^ 58); reflexivity).
  rewrite <- (Nat2Z.id (length m mod 64)), Nat2Z.inj_mod. reflexivity.
Qed.

Lemma u64_add_idemp a b : u64 (u64 a + b) = u64 (a + b).
Proof. unfold u64. now rewrite Zplus_mod_idemp_l. Qed.

(** Feeding data extends the absorbed message, wherever the chunk boundaries fall. *)
Lemma absorbed_update c m p : absorbed c m -> absorbed (hash_update c p) (m ++ p).
Proof.
  rewrite !absorbed_cut. intros (Hc & bs & t & Hcut & Hh).
  unfold hash_update. rewrite Hc, low6_of_count, <- (MD.cut_length _ _ _ Hcut). split.
  - rewrite update_loop_count. cbn [set_count count].
    rewrite u64_add_idemp, length_app, Nat2Z.inj_add. reflexivity.
  - apply update_loop_holds with bs; [exact Hcut|exact Hh].
Qed.

Lemma absorbed_chunks chunks c m :
  absorbed c m -> absorbed (fold_left hash_update chunks c) (m ++ concat chunks).
Proof.
  revert c m. induction chunks as [|p ps IH]; intros c m H; cbn [fold_left concat].
  - now rewrite app_nil_r.
  - rewrite app_assoc. apply IH. now apply absorbed_update.
Qed.

Lemma pad_loop_absorbed k fuel c m :
  absorbed c m -> ((length m + k) mod 64 = 56)%nat -> (k < 64)%nat -> (k < fuel)%nat ->
  absorbed (pad_loop fuel c) (m ++ repeat 0 k).
Proof.
  revert fuel c m. induction k as [|k IH]; intros fuel c m Ha Hm Hk Hf;
    (destruct fuel as [|fuel]; [lia|]); cbn [pad_loop];
    pose proof Ha as (_ & Hc & _); pose proof (low6_of_count m) as Hlow; rewrite <- Hc in Hlow.
  - rewrite Nat.add_0_r in Hm. rewrite app_nil_r.
    replace (count c .& 63) with 56 by lia. exact Ha.
  - destruct (Z.eqb_spec (count c .& 63) 56) as [He|He].
    + exfalso. rewrite He in Hlow. change (Z.to_nat 56) with 56%nat in Hlow.
      pose proof (Nat.div_mod (length m) 64). pose proof (Nat.div_mod (length m + S k) 64). lia.
    + change (repeat 0 (S k)) with ([0] ++ repeat 0 k). rewrite app_assoc.
      apply IH; [now apply absorbed_update| |lia|lia].
      rewrite length_app. cbn [length].
      replace (length m + 1 + k)%nat with (length m + S k)%nat by lia. exact Hm.
Qed.

Lemma updates_absorbed (f : nat -> Z) l c m :
  absorbed c m -> absorbed (fold_left (fun c i => hash_update c [f i]) l c) (m ++ map f l).
Proof.
  revert c m. induction l as [|i l IH]; intros c m Ha; cbn [fold_left map].
  - now rewrite app_nil_r.
  - change (f i :: map f l) with ([f i] ++ map f l). rewrite app_assoc.
    now apply IH, absorbed_update.
Qed.

Lemma length_field m :
  map (fun i => u8 (u64 (u64 (Z.of_nat (length (A := Z) m)) * 8) >> ((7 - Z.of_nat i) * 8))) (seq 0 8)
  = be_bytes 8 (8 * Z.of_nat (length m)).
Proof.
  replace (u64 (u64 (Z.of_nat (length m)) * 8)) with ((8 * Z.of_nat (length m)) mod 2 ^ (8 * Z.of_nat 8)).
  - rewrite <- (be_bytes_mod 8 8) by lia. reflexivity.
  - unfold u64. rewrite Zmult_mod_idemp_l, Z.mul_comm. reflexivity.
Qed.

Lemma store_be32_firstn b i x :
  (4 * i + 4 <= length b)%nat ->
  firstn (4 * S i) (store_be32 b i x) = firstn (4 * i) b ++ be_bytes 4 x.
Proof.
  intros Hl. unfold store_be32. replace (4 * S i)%nat with (S (4 * i + 3)) by lia.
  rewrite firstn_set_snoc by (rewrite !set_length; lia).
  replace (4 * i + 3)%nat with (S (4 * i + 2)) by lia.
  rewrite firstn_set_snoc by (rewrite !set_length; lia).
  replace (4 * i + 2)%nat with (S (4 * i + 1)) by lia.
  rewrite firstn_set_snoc by (rewrite !set_length; lia).
  replace (4 * i + 1)%nat with (S (4 * i)) by lia.
  rewrite firstn_set_snoc by lia. now rewrite <- !app_assoc.
Qed.

Lemma store_words_firstn n b s :
  (4 * n <= length b)%nat -> (n <= length s)%nat ->
  let b' := fold_left (fun b i => store_be32 b i (get s i)) (seq 0 n) b in
  length b' = length b /\ firstn (4 * n) b' = flat_map (be_bytes 4) (firstn n s).
Proof.
  intros Hb Hs. induction n as [|n IH]; [auto|].
  destruct IH as [IHl IHf]; [lia|lia|]. rewrite seq_S, fold_left_app. cbn [fold_left].
  rewrite Nat.add_0_l. split.
  - unfold store_be32. now rewrite !set_length.
  - rewrite store_be32_firstn by lia. rewrite IHf. unfold get.
    rewrite <- (firstn_skipn n s) at 3.
    replace (S n) with (length (firstn n s) + 1)%nat at 1 by (rewrite length_firstn; lia).
    rewrite firstn_app_2, flat_map_app. f_equal.
    destruct (skipn n s) as [|x r] eqn:E.
    { apply (f_equal (@length Z)) in E. rewrite length_skipn in E. simpl in E. lia. }
    rewrite <- (firstn_skipn n s) at 1. rewrite app_nth2; rewrite length_firstn; [|lia].
    rewrite E. replace (n - Nat.min n (length s))%nat with O by lia. reflexivity.
Qed.

Lemma absorbed_final c m :
  absorbed c m -> firstn (4 * digest_words) (buf (hash_final c)) = spec_digest m.
Proof.
  intros Ha. pose proof Ha as (_ & Hc & _). unfold hash_final. cbn [set_buf buf].
  set (c1 := fold_left _ (seq 0 8) _).
  assert (H1 : absorbed c1 (MD.pad (be_bytes 8) m)).
  { unfold MD.pad. rewrite !app_assoc. unfold c1. rewrite <- length_field, <- Hc.
    apply updates_absorbed with (f := fun i => u8 (u64 (count c * 8) >> ((7 - Z.of_nat i) * 8))).
    apply pad_loop_absorbed; [now apply absorbed_update| | |];
      rewrite ?length_app; cbn [length];
      auto using MD.pad_zeros_lt, MD.pad_zeros_spec. }
  destruct H1 as ((Hb & Hw) & _ & Hs & _).
  pose proof iv_length. unfold spec_digest, MD.hash. rewrite <- Hs.
  apply store_words_firstn; unfold digest_words; lia.
Qed.

Lemma init_words_firstn ws i s :
  (i + length ws <= length s)%nat ->
  length (init_words ws i s) = length s /\
  firstn (i + length ws) (init_words ws i s) = firstn i s ++ ws.
Proof.
  revert i s. induction ws as [|w ws IH]; intros i s Hl; cbn [init_words length] in *.
  - rewrite Nat.add_0_r, app_nil_r. auto.
  - destruct (IH (S i) (set s i w)) as [Hlen Hf]; [rewrite set_length; lia|].
    rewrite set_length in Hlen. split; [exact Hlen|].
    rewrite Nat.add_succ_r, <- Nat.add_succ_l, Hf, firstn_set_snoc by lia.
    now rewrite <- app_assoc.
Qed.

Lemma absorbed_init c : ctx_wf c -> absorbed (hash_init c) [].
Proof.
  intros [Hb Hs]. pose proof iv_length as Hi.
  destruct (init_words_firstn iv 0 (state c)) as [Hl Hf]; [lia|].
  apply absorbed_cut. split; [reflexivity|]. exists [], []. split; [apply MD.cut_nil|].
  split; [split; cbn; congruence|]. split; [exact Hf|reflexivity].
Qed.

End Streaming.

(** * Message schedules

    The transforms first extend the sixteen words of a block: [W[t]] is computed
    from earlier entries by a recurrence [F].  [schedule] is the array loop of the
    code, [recW] the recurrence as the standards write it. *)

(** Sixteen big endian words: [tmp = *p++ << 24; tmp |= *p++ << 16; ...]. *)
Definition load_block (b : list Z) : list Z :=
  map (fun t => be32 (get b (4 * t)) (get b (4 * t + 1)) (get b (4 * t + 2)) (get b (4 * t + 3)))
    (seq 0 16).

Definition schedule (F : (nat -> Z) -> nat -> Z) (n : nat) (M : list Z) : list Z :=
  fold_left (fun W t => W ++ [F (get W) t]) (seq 16 n) M.

Fixpoint recW_fuel (F : (nat -> Z) -> nat -> Z) (M : list Z) (fuel t : nat) : Z :=
  match fuel with
  | O => 0
  | S f => if (t <? 16)%nat then get M t else F (recW_fuel F M f) t
  end.

Definition recW (F : (nat -> Z) -> nat -> Z) (M : list Z) (t : nat) : Z := recW_fuel F M (S t) t.

(** [F] only looks at earlier entries. *)
Definition causal (F : (nat -> Z) -> nat -> Z) : Prop :=
  forall g h t, (16 <= t)%nat -> (forall j, (j < t)%nat -> g j = h j) -> F g t = F h t.

Lemma recW_fuel_irrel F M : causal F ->
  forall t f, (t < f)%nat -> recW_fuel F M f t = recW F M t.
Proof.
  intros HF t. induction t as [t IH] using lt_wf_ind. intros f Hf.
  destruct f as [|f]; [lia|]. unfold recW. cbn [recW_fuel].
  destruct (Nat.ltb_spec t 16); [reflexivity|]. apply HF; [assumption|].
  intros j Hj. rewrite (IH j Hj f), (IH j Hj t) by lia. reflexivity.
Qed.

Lemma recW_low F M t : (t < 16)%nat -> recW F M t = get M t.
Proof. intros H. unfold recW. cbn [recW_fuel]. apply Nat.ltb_lt in H. now rewrite H. Qed.

Lemma recW_step F M t : causal F -> (16 <= t)%nat -> recW F M t = F (recW F M) t.
Proof.
  intros HF H. unfold recW at 1. cbn [recW_fuel]. apply Nat.ltb_ge in H as H'. rewrite H'.
  apply HF; [assumption|]. intros j Hj. now apply recW_fuel_irrel.
Qed.

Lemma schedule_recW F n M :
  causal F -> length M = 16%nat ->
  length (schedule F n M) = (16 + n)%nat /\
  forall t, (t < 16 + n)%nat -> get (schedule F n M) t = recW F M t.
Proof.
  intros HF HM. unfold schedule. induction n as [|n [IHl IHg]].
  - simpl. split; [assumption|]. intros t Ht. rewrite recW_low by lia. reflexivity.
  - rewrite seq_S, fold_left_app. cbn [fold_left]. set (W := fold_left _ (seq 16 n) M) in *.
    rewrite length_app, IHl. split; [simpl; lia|]. intros t Ht. unfold get.
    destruct (Nat.lt_ge_cases t (16 + n)) as [Hlt|Hge].
    + rewrite app_nth1 by lia. now apply IHg.
    + replace t with (16 + n)%nat by lia. rewrite app_nth2, IHl, Nat.sub_diag by lia. cbn [nth].
      rewrite recW_step by (assumption || lia). apply HF; [lia|exact IHg].
Qed.
