(* ===== verification/Sha1.v ===== *)
(** SHA-1: src/libmincrypt/sha.c.

    [SHA1_Transform] is the compression loop of the code; [Fips] is the
    compression function as FIPS 180-4 states it (section 6.1.2), with the
    choice and majority functions in their defining form and the message schedule
    as a recurrence.  The instance [SHA_VTAB] discharges the interface of
    [Hash.HashAlg], so that the streaming theorems apply. *)
From Stdlib Require Import ZArith List Lia.
From S2P Require Import Prelude Hash.
Import ListNotations.

Definition SHA_DIGEST_SIZE : nat := 20.

Definition rol (bits value : Z) : Z := (value [<<] bits) .| (value >> (32 - bits)).

Definition sha1_next (W : nat -> Z) (t : nat) : Z :=
  rol 1 (W (t - 3)%nat .^ W (t - 8)%nat .^ W (t - 14)%nat .^ W (t - 16)%nat).

Definition sha1_round (W : list Z) (v : Z * Z * Z * Z * Z) (t : nat) : Z * Z * Z * Z * Z :=
  let '(A, B, C, D, E) := v in
  let tmp := rol 5 A [+] E [+] get W t in
  let tmp :=
    if (t <? 20)%nat then tmp [+] ((D .^ (B .& (C .^ D))) [+] 0x5A827999)
    else if (t <? 40)%nat then tmp [+] ((B .^ C .^ D) [+] 0x6ED9EBA1)
    else if (t <? 60)%nat then tmp [+] (((B .& C) .| (D .& (B .| C))) [+] 0x8F1BBCDC)
    else tmp [+] ((B .^ C .^ D) [+] 0xCA62C1D6) in
  (tmp, A, rol 30 B, C, D).

Definition SHA1_Transform (ctx : HASH_CTX) : HASH_CTX :=
  let W := schedule sha1_next 64 (load_block (buf ctx)) in
  let s := state ctx in
  let '(A, B, C, D, E) :=
    fold_left (sha1_round W) (seq 0 80) (get s 0, get s 1, get s 2, get s 3, get s 4) in
  let s := set s 0 (get s 0 [+] A) in
  let s := set s 1 (get s 1 [+] B) in
  let s := set s 2 (get s 2 [+] C) in
  let s := set s 3 (get s 3 [+] D) in
  let s := set s 4 (get s 4 [+] E) in
  set_state ctx s.

(** * FIPS 180-4 *)

Module Fips.

Definition ROTL (n x : Z) : Z := ((x << n) mod 2 ^ 32) .| (x >> (32 - n)).
Definition Ch (x y z : Z) : Z := (x .& y) .^ (Z.lnot x .& z).
Definition Parity (x y z : Z) : Z := x .^ y .^ z.
Definition Maj (x y z : Z) : Z := (x .& y) .^ (x .& z) .^ (y .& z).

Definition f (t : nat) : Z -> Z -> Z -> Z :=
  if (t <=? 19)%nat then Ch else if (t <=? 39)%nat then Parity
  else if (t <=? 59)%nat then Maj else Parity.

Definition K (t : nat) : Z :=
  if (t <=? 19)%nat then 0x5a827999 else if (t <=? 39)%nat then 0x6ed9eba1
  else if (t <=? 59)%nat then 0x8f1bbcdc else 0xca62c1d6.

Definition next (W : nat -> Z) (t : nat) : Z :=
  ROTL 1 (W (t - 3)%nat .^ W (t - 8)%nat .^ W (t - 14)%nat .^ W (t - 16)%nat).

Definition round (W : nat -> Z) (v : Z * Z * Z * Z * Z) (t : nat) : Z * Z * Z * Z * Z :=
  let '(a, b, c, d, e) := v in
  let T := (ROTL 5 a + f t b c d + e + K t + W t) mod 2 ^ 32 in
  (T, a, ROTL 30 b, c, d).

(** The intermediate hash value after a block. *)
Definition block (H b : list Z) : list Z :=
  let '(A, B, C, D, E) :=
    fold_left (round (recW next (load_block b))) (seq 0 80)
      (get H 0, get H 1, get H 2, get H 3, get H 4) in
  [(get H 0 + A) mod 2 ^ 32; (get H 1 + B) mod 2 ^ 32; (get H 2 + C) mod 2 ^ 32;
   (get H 3 + D) mod 2 ^ 32; (get H 4 + E) mod 2 ^ 32].

Definition H0 : list Z := [0x67452301; 0xefcdab89; 0x98badcfe; 0x10325476; 0xc3d2e1f0].

(** The digest of a byte string. *)
Definition sha1 (m : list Z) : list Z :=
  flat_map (be_bytes 4) (MD.hash block H0 (be_bytes 8) m).

End Fips.

(** ** The optimised boolean functions *)

Lemma choice_form b c d : d .^ (b .& (c .^ d)) = Fips.Ch b c d.
Proof.
  unfold Fips.Ch. apply Z.bits_inj'. intros i Hi.
  rewrite !Z.lxor_spec, !Z.land_spec, Z.lxor_spec, Z.lnot_spec by lia.
  destruct (Z.testbit b i), (Z.testbit c i), (Z.testbit d i); reflexivity.
Qed.

Lemma majority_form b c d : (b .& c) .| (d .& (b .| c)) = Fips.Maj b c d.
Proof. unfold Fips.Maj. bitwise_eq. Qed.

Lemma u32_sum5 a b c d e :
  u32 (u32 (u32 (a + b) + c) + u32 (d + e)) = (a + d + b + e + c) mod 2 ^ 32.
Proof.
  unfold u32. rewrite Zplus_mod_idemp_l, Zplus_mod_idemp_r.
  replace ((a + b) mod 2 ^ 32 + c + (d + e)) with ((a + b) mod 2 ^ 32 + (c + (d + e))) by ring.
  rewrite Zplus_mod_idemp_l. f_equal. ring.
Qed.

Lemma sha1_round_fips W g v t :
  get W t = g t -> sha1_round W v t = Fips.round g v t.
Proof.
  intros HW. destruct v as [[[[A B] C] D] E]. unfold sha1_round, Fips.round, Fips.f, Fips.K.
  rewrite HW, choice_form, majority_form.
  change (t <? 20)%nat with (t <=? 19)%nat. change (t <? 40)%nat with (t <=? 39)%nat.
  change (t <? 60)%nat with (t <=? 59)%nat.
  destruct (t <=? 19)%nat; [|destruct (t <=? 39)%nat; [|destruct (t <=? 59)%nat]];
    rewrite u32_sum5; reflexivity.
Qed.

Lemma sha1_next_causal : causal Fips.next.
Proof. intros g h t Ht H. unfold Fips.next. now rewrite !H by lia. Qed.

Lemma fold_rounds_fips W g n v :
  (forall t, (t < n)%nat -> get W t = g t) ->
  fold_left (sha1_round W) (seq 0 n) v = fold_left (Fips.round g) (seq 0 n) v.
Proof.
  intros HW. apply fold_left_ext_in. intros acc t Ht. apply in_seq in Ht.
  apply sha1_round_fips, HW. lia.
Qed.

Lemma SHA1_Transform_rounds c :
  state (SHA1_Transform c) =
  let s := state c in
  let '(A, B, C, D, E) :=
    fold_left (Fips.round (recW Fips.next (load_block (buf c)))) (seq 0 80)
      (get s 0, get s 1, get s 2, get s 3, get s 4) in
  let s := set s 0 (get s 0 [+] A) in
  let s := set s 1 (get s 1 [+] B) in
  let s := set s 2 (get s 2 [+] C) in
  let s := set s 3 (get s 3 [+] D) in
  set s 4 (get s 4 [+] E).
Proof.
  unfold SHA1_Transform. cbv zeta.
  rewrite fold_rounds_fips with (g := recW Fips.next (load_block (buf c))).
  - destruct (fold_left _ (seq 0 80) _) as [[[[A B] C] D] E]. reflexivity.
  - intros t Ht. apply (schedule_recW Fips.next 64); [apply sha1_next_causal|reflexivity|exact Ht].
Qed.

(** The compression loop is the FIPS block function. *)
Lemma SHA1_Transform_state c :
  ctx_wf c -> length (state (SHA1_Transform c)) = 8%nat /\
  firstn 5 (state (SHA1_Transform c)) = Fips.block (firstn 5 (state c)) (buf c).
Proof.
  intros [_ Hs]. rewrite SHA1_Transform_rounds. unfold Fips.block.
  destruct (state c) as [|s0 [|s1 [|s2 [|s3 [|s4 s]]]]]; try discriminate.
  cbv zeta. cbn [firstn get nth].
  destruct (fold_left _ (seq 0 80) _) as [[[[A B] C] D] E]. split; [exact Hs|reflexivity].
Qed.

Lemma sha1_length m : length (Fips.sha1 m) = 20%nat.
Proof.
  unfold Fips.sha1. rewrite flat_be_length, MD.hash_length; [reflexivity|].
  intros h b. unfold Fips.block. destruct (fold_left _ _ _) as [[[[A B] C] D] E]. reflexivity.
Qed.

#[global, refine] Instance SHA_VTAB : HashAlg := {
  Transform := SHA1_Transform;
  iv := Fips.H0;
  compress := Fips.block
}.
Proof.
  - cbn. lia.
  - intros c. unfold SHA1_Transform. destruct (fold_left _ _ _) as [[[[A B] C] D] E]. auto.
  - intros c Hc. split; [|now apply SHA1_Transform_state].
    unfold SHA1_Transform. destruct (fold_left _ _ _) as [[[[A B] C] D] E]. apply Hc.
  - intros c Hc. now apply SHA1_Transform_state.
Defined.

(** * The interface of src/libmincrypt/sha.c *)

Definition SHA_init (ctx : HASH_CTX) : HASH_CTX :=
  let s := state ctx in
  let s := set s 0 0x67452301 in
  let s := set s 1 0xEFCDAB89 in
  let s := set s 2 0x98BADCFE in
  let s := set s 3 0x10325476 in
  let s := set s 4 0xC3D2E1F0 in
  set_count (set_state ctx s) 0.

Definition SHA_update : HASH_CTX -> list Z -> HASH_CTX := hash_update (Alg := SHA_VTAB).
Definition SHA_final : HASH_CTX -> HASH_CTX := hash_final (Alg := SHA_VTAB).

(** The local context of [SHA_hash] starts with indeterminate contents [ctx]. *)
Definition SHA_hash (ctx : HASH_CTX) (data : list Z) : list Z :=
  firstn SHA_DIGEST_SIZE (buf (SHA_final (SHA_update (SHA_init ctx) data))).

Lemma SHA_final_absorbed c m :
  absorbed (Alg := SHA_VTAB) c m -> firstn SHA_DIGEST_SIZE (buf (SHA_final c)) = Fips.sha1 m.
Proof.
  intros H. pose proof (absorbed_final (Alg := SHA_VTAB) c m H) as E.
  change (4 * digest_words)%nat with 20%nat in E. unfold SHA_DIGEST_SIZE, SHA_final.
  rewrite E. reflexivity.
Qed.

(** C11: Hashing a message in any number of pieces of any sizes ([SHA_init], a
    [SHA_update] per piece, [SHA_final]) leaves in the first twenty bytes of the
    buffer the FIPS 180-4 SHA-1 digest of the concatenated pieces, whatever the
    context held before. *)
Theorem SHA_streaming ctx chunks :
  ctx_wf ctx ->
  firstn SHA_DIGEST_SIZE (buf (SHA_final (fold_left SHA_update chunks (SHA_init ctx))))
  = Fips.sha1 (concat chunks).
Proof.
  intros Hc. apply SHA_final_absorbed, (absorbed_chunks (Alg := SHA_VTAB) chunks _ []).
  apply absorbed_init in Hc. exact Hc.
Qed.

(** A context as [calloc] would leave it. *)
Definition blank_ctx : HASH_CTX := mkHASH_CTX 0 (repeat 0 64) (repeat 0 8).

Lemma SHA_streaming_witness :
  ctx_wf blank_ctx /\
  firstn SHA_DIGEST_SIZE
    (buf (SHA_final (fold_left SHA_update [[97]; []; [98; 99]] (SHA_init blank_ctx))))
  = Fips.sha1 [97; 98; 99].
Proof.
  assert (H : ctx_wf blank_ctx) by (split; reflexivity).
  split; [exact H|exact (SHA_streaming blank_ctx [[97]; []; [98; 99]] H)].
Defined.

(** [SHA_hash] is SHA-1. *)
Lemma SHA_hash_sha1 ctx data : ctx_wf ctx -> SHA_hash ctx data = Fips.sha1 data.
Proof.
  intros Hc. unfold SHA_hash.
  apply SHA_final_absorbed, (absorbed_update (Alg := SHA_VTAB) _ []).
  exact (absorbed_init (Alg := SHA_VTAB) ctx Hc).
Qed.

Example SHA_hash_abc :
  be_value (SHA_hash blank_ctx [97; 98; 99]) = 0xA9993E364706816ABA3E25717850C26C9CD0D89D.
Proof. vm_compute. reflexivity. Qed.
