(* ===== verification/Sha256.v ===== *)
(** SHA-256: src/libmincrypt/sha256.c.

    [SHA256_Transform] is the compression loop of the code with its constant table;
    [Fips256] is the standard's definition (FIPS 180-4, sections 4.2.2, 5.3.3 and
    6.2.2), in which the constants are computed from the roots of the first primes.
    The instance [SHA256_VTAB] discharges [Hash.HashAlg]. *)
From Stdlib Require Import ZArith List Lia.
From S2P Require Import Prelude Hash.
Import ListNotations.

Definition SHA256_DIGEST_SIZE : nat := 32.

Definition ror (value bits : Z) : Z := (value >> bits) .| (value [<<] (32 - bits)).
Definition shr (value bits : Z) : Z := value >> bits.

Definition K256 : list Z :=
  Eval cbv [concat app] in concat [
   [0x428a2f98; 0x71374491; 0xb5c0fbcf; 0xe9b5dba5];
   [0x3956c25b; 0x59f111f1; 0x923f82a4; 0xab1c5ed5];
   [0xd807aa98; 0x12835b01; 0x243185be; 0x550c7dc3];
   [0x72be5d74; 0x80deb1fe; 0x9bdc06a7; 0xc19bf174];
   [0xe49b69c1; 0xefbe4786; 0x0fc19dc6; 0x240ca1cc];
   [0x2de92c6f; 0x4a7484aa; 0x5cb0a9dc; 0x76f988da];
   [0x983e5152; 0xa831c66d; 0xb00327c8; 0xbf597fc7];
   [0xc6e00bf3; 0xd5a79147; 0x06ca6351; 0x14292967];
   [0x27b70a85; 0x2e1b2138; 0x4d2c6dfc; 0x53380d13];
   [0x650a7354; 0x766a0abb; 0x81c2c92e; 0x92722c85];
   [0xa2bfe8a1; 0xa81a664b; 0xc24b8b70; 0xc76c51a3];
   [0xd192e819; 0xd6990624; 0xf40e3585; 0x106aa070];
   [0x19a4c116; 0x1e376c08; 0x2748774c; 0x34b0bcb5];
   [0x391c0cb3; 0x4ed8aa4a; 0x5b9cca4f; 0x682e6ff3];
   [0x748f82ee; 0x78a5636f; 0x84c87814; 0x8cc70208];
   [0x90befffa; 0xa4506ceb; 0xbef9a3f7; 0xc67178f2]].

Definition sha256_next (W : nat -> Z) (t : nat) : Z :=
  let s0 := ror (W (t - 15)%nat) 7 .^ ror (W (t - 15)%nat) 18 .^ shr (W (t - 15)%nat) 3 in
  let s1 := ror (W (t - 2)%nat) 17 .^ ror (W (t - 2)%nat) 19 .^ shr (W (t - 2)%nat) 10 in
  W (t - 16)%nat [+] s0 [+] W (t - 7)%nat [+] s1.

Definition regs : Type := Z * Z * Z * Z * Z * Z * Z * Z.

Definition sha256_round (W : list Z) (v : regs) (t : nat) : regs :=
  let '(A, B, C, D, E, F, G, H) := v in
  let s0 := ror A 2 .^ ror A 13 .^ ror A 22 in
  let maj := (A .& B) .^ (A .& C) .^ (B .& C) in
  let t2 := s0 [+] maj in
  let s1 := ror E 6 .^ ror E 11 .^ ror E 25 in
  let ch := (E .& F) .^ (u32 (Z.lnot E) .& G) in
  let t1 := H [+] s1 [+] ch [+] get K256 t [+] get W t in
  (t1 [+] t2, A, B, C, D [+] t1, E, F, G).

(** [ctx->state[i] += ...] for the eight working variables. *)
Definition add_regs (s : list Z) (v : regs) : list Z :=
  let '(A, B, C, D, E, F, G, H) := v in
  let s := set s 0 (get s 0 [+] A) in
  let s := set s 1 (get s 1 [+] B) in
  let s := set s 2 (get s 2 [+] C) in
  let s := set s 3 (get s 3 [+] D) in
  let s := set s 4 (get s 4 [+] E) in
  let s := set s 5 (get s 5 [+] F) in
  let s := set s 6 (get s 6 [+] G) in
  set s 7 (get s 7 [+] H).

Definition SHA256_Transform (ctx : HASH_CTX) : HASH_CTX :=
  let W := schedule sha256_next 48 (load_block (buf ctx)) in
  let s := state ctx in
  set_state ctx
    (add_regs s
       (fold_left (sha256_round W) (seq 0 64)
          (get s 0, get s 1, get s 2, get s 3, get s 4, get s 5, get s 6, get s 7))).

(** * FIPS 180-4 *)

Module Fips256.

Definition is_prime (n : nat) : bool :=
  forallb (fun d => negb (n mod d =? 0)%nat) (seq 2 (n - 2)).
Definition primes : list Z := map Z.of_nat (filter is_prime (seq 2 310)).

(** Integer cube root of a number below [2^111], bit by bit. *)
Definition cbrt (n : Z) : Z :=
  fold_left (fun r k => if (r + 2 ^ Z.of_nat k) ^ 3 <=? n then r + 2 ^ Z.of_nat k else r)
    (rev (seq 0 37)) 0.

(** The first 32 bits of the fractional parts of the cube (square) roots. *)
Definition K : list Z := map (fun p => cbrt (p * 2 ^ 96) mod 2 ^ 32) primes.
Definition H0 : list Z := map (fun p => Z.sqrt (p * 2 ^ 64) mod 2 ^ 32) (firstn 8 primes).

Definition ROTR (n x : Z) : Z := (x >> n) .| ((x << (32 - n)) mod 2 ^ 32).
Definition Ch (x y z : Z) : Z := (x .& y) .^ ((Z.lnot x mod 2 ^ 32) .& z).
Definition Maj (x y z : Z) : Z := (x .& y) .^ (x .& z) .^ (y .& z).
Definition Sigma0 (x : Z) : Z := ROTR 2 x .^ ROTR 13 x .^ ROTR 22 x.
Definition Sigma1 (x : Z) : Z := ROTR 6 x .^ ROTR 11 x .^ ROTR 25 x.
Definition sigma0 (x : Z) : Z := ROTR 7 x .^ ROTR 18 x .^ (x >> 3).
Definition sigma1 (x : Z) : Z := ROTR 17 x .^ ROTR 19 x .^ (x >> 10).

Definition next (W : nat -> Z) (t : nat) : Z :=
  (sigma1 (W (t - 2)%nat) + W (t - 7)%nat + sigma0 (W (t - 15)%nat) + W (t - 16)%nat) mod 2 ^ 32.

Definition round (W : nat -> Z) (v : regs) (t : nat) : regs :=
  let '(a, b, c, d, e, f, g, h) := v in
  let T1 := (h + Sigma1 e + Ch e f g + get K t + W t) mod 2 ^ 32 in
  let T2 := (Sigma0 a + Maj a b c) mod 2 ^ 32 in
  ((T1 + T2) mod 2 ^ 32, a, b, c, (d + T1) mod 2 ^ 32, e, f, g).

Definition block (H b : list Z) : list Z :=
  let '(A, B, C, D, E, F, G, H') :=
    fold_left (round (recW next (load_block b))) (seq 0 64)
      (get H 0, get H 1, get H 2, get H 3, get H 4, get H 5, get H 6, get H 7) in
  [(get H 0 + A) mod 2 ^ 32; (get H 1 + B) mod 2 ^ 32; (get H 2 + C) mod 2 ^ 32;
   (get H 3 + D) mod 2 ^ 32; (get H 4 + E) mod 2 ^ 32; (get H 5 + F) mod 2 ^ 32;
   (get H 6 + G) mod 2 ^ 32; (get H 7 + H') mod 2 ^ 32].

Definition sha256 (m : list Z) : list Z :=
  flat_map (be_bytes 4) (MD.hash block H0 (be_bytes 8) m).

End Fips256.

(** The constant table of the code is the one the standard derives. *)
Lemma K256_table : K256 = Fips256.K.
Proof. vm_compute. reflexivity. Qed.

Lemma u32_add4 a b c d : a [+] b [+] c [+] d = (a + b + c + d) mod 2 ^ 32.
Proof. unfold u32. now rewrite (Zplus_mod_idemp_l (a + b)), Zplus_mod_idemp_l. Qed.

Lemma u32_add5 a b c d e : a [+] b [+] c [+] d [+] e = (a + b + c + d + e) mod 2 ^ 32.
Proof. rewrite (u32_add4 a b). unfold u32. now rewrite Zplus_mod_idemp_l. Qed.

Lemma sha256_round_fips W g v t :
  get W t = g t -> sha256_round W v t = Fips256.round g v t.
Proof.
  intros HW. destruct v as [[[[[[[A B] C] D] E] F] G] H].
  unfold sha256_round, Fips256.round. rewrite HW, K256_table.
  rewrite (u32_add5 H). reflexivity.
Qed.

Lemma sha256_next_fips g t : sha256_next g t = Fips256.next g t.
Proof.
  unfold sha256_next, Fips256.next. fold (Fips256.sigma0 (g (t - 15)%nat)).
  change (ror (g (t - 2)%nat) 17 .^ ror (g (t - 2)%nat) 19 .^ shr (g (t - 2)%nat) 10)
    with (Fips256.sigma1 (g (t - 2)%nat)).
  change (ror (g (t - 15)%nat) 7 .^ ror (g (t - 15)%nat) 18 .^ shr (g (t - 15)%nat) 3)
    with (Fips256.sigma0 (g (t - 15)%nat)).
  rewrite u32_add4. f_equal. ring.
Qed.

Lemma sha256_next_causal : causal Fips256.next.
Proof. intros g h t Ht H. unfold Fips256.next. now rewrite !H by lia. Qed.

Lemma schedule_ext F G n M :
  (forall g t, F g t = G g t) -> schedule F n M = schedule G n M.
Proof. intros H. apply fold_left_ext_in. intros W t _. now rewrite H. Qed.

Lemma SHA256_Transform_rounds c :
  state (SHA256_Transform c) =
  let s := state c in
  add_regs s
    (fold_left (Fips256.round (recW Fips256.next (load_block (buf c)))) (seq 0 64)
       (get s 0, get s 1, get s 2, get s 3, get s 4, get s 5, get s 6, get s 7)).
Proof.
  unfold SHA256_Transform. cbv zeta. cbn [state set_state]. f_equal.
  apply fold_left_ext_in. intros v t Ht. apply in_seq in Ht. apply sha256_round_fips.
  rewrite (schedule_ext _ _ _ _ sha256_next_fips).
  apply (schedule_recW Fips256.next 48); [apply sha256_next_causal|reflexivity|lia].
Qed.

(** The compression loop is the FIPS block function. *)
Lemma SHA256_Transform_state c :
  ctx_wf c -> length (state (SHA256_Transform c)) = 8%nat /\
  firstn 8 (state (SHA256_Transform c)) = Fips256.block (firstn 8 (state c)) (buf c).
Proof.
  intros [_ Hs]. rewrite SHA256_Transform_rounds. unfold Fips256.block.
  destruct (state c) as [|s0 [|s1 [|s2 [|s3 [|s4 [|s5 [|s6 [|s7 s]]]]]]]]; try discriminate.
  cbv zeta. cbn [firstn get nth].
  destruct (fold_left _ (seq 0 64) _) as [[[[[[[A B] C] D] E] F] G] H].
  split; [exact Hs|reflexivity].
Qed.

Lemma Fips256_H0_length : length Fips256.H0 = 8%nat.
Proof. vm_compute. reflexivity. Qed.

Lemma sha256_length m : length (Fips256.sha256 m) = 32%nat.
Proof.
  unfold Fips256.sha256. rewrite flat_be_length, MD.hash_length; rewrite Fips256_H0_length; [reflexivity|].
  intros h b. unfold Fips256.block. destruct (fold_left _ _ _) as [[[[[[[A B] C] D] E] F] G] H].
  reflexivity.
Qed.

#[global, refine] Instance SHA256_VTAB : HashAlg := {
  Transform := SHA256_Transform;
  iv := Fips256.H0;
  compress := Fips256.block
}.
Proof.
  - rewrite Fips256_H0_length. lia.
  - intros c. auto.
  - intros c Hc. split; [apply Hc|now apply SHA256_Transform_state].
  - intros c Hc. rewrite Fips256_H0_length. now apply SHA256_Transform_state.
Defined.

(** * The interface of src/libmincrypt/sha256.c *)

Definition SHA256_init (ctx : HASH_CTX) : HASH_CTX :=
  let s := state ctx in
  let s := set s 0 0x6a09e667 in
  let s := set s 1 0xbb67ae85 in
  let s := set s 2 0x3c6ef372 in
  let s := set s 3 0xa54ff53a in
  let s := set s 4 0x510e527f in
  let s := set s 5 0x9b05688c in
  let s := set s 6 0x1f83d9ab in
  let s := set s 7 0x5be0cd19 in
  set_count (set_state ctx s) 0.

Definition SHA256_update : HASH_CTX -> list Z -> HASH_CTX := hash_update (Alg := SHA256_VTAB).
Definition SHA256_final : HASH_CTX -> HASH_CTX := hash_final (Alg := SHA256_VTAB).

Definition SHA256_hash (ctx : HASH_CTX) (data : list Z) : list Z :=
  firstn SHA256_DIGEST_SIZE (buf (SHA256_final (SHA256_update (SHA256_init ctx) data))).

Lemma SHA256_iv : @iv SHA256_VTAB =
  [0x6a09e667; 0xbb67ae85; 0x3c6ef372; 0xa54ff53a; 0x510e527f; 0x9b05688c; 0x1f83d9ab; 0x5be0cd19].
Proof. vm_compute. reflexivity. Qed.

Lemma SHA256_init_generic c : SHA256_init c = hash_init (Alg := SHA256_VTAB) c.
Proof. unfold hash_init. rewrite SHA256_iv. reflexivity. Qed.

Lemma SHA256_init_absorbed c : ctx_wf c -> absorbed (Alg := SHA256_VTAB) (SHA256_init c) [].
Proof. rewrite SHA256_init_generic. apply absorbed_init. Qed.

Lemma SHA256_digest_words : (4 * @digest_words SHA256_VTAB)%nat = SHA256_DIGEST_SIZE.
Proof. vm_compute. reflexivity. Qed.

Lemma SHA256_spec_digest m : @spec_digest SHA256_VTAB m = Fips256.sha256 m.
Proof. reflexivity. Qed.

Lemma SHA256_final_absorbed c m :
  absorbed (Alg := SHA256_VTAB) c m ->
  firstn SHA256_DIGEST_SIZE (buf (SHA256_final c)) = Fips256.sha256 m.
Proof.
  intros H. apply (absorbed_final (Alg := SHA256_VTAB)) in H.
  rewrite SHA256_digest_words, SHA256_spec_digest in H. exact H.
Qed.

(** C4: Hashing a message in any number of pieces ([SHA256_init], a
    [SHA256_update] per piece, [SHA256_final]) yields the FIPS 180-4 SHA-256 digest
    of the concatenated pieces, the constants being those the standard derives
    from the square and cube roots of the primes. *)
Theorem SHA256_streaming ctx chunks :
  ctx_wf ctx ->
  firstn SHA256_DIGEST_SIZE
    (buf (SHA256_final (fold_left SHA256_update chunks (SHA256_init ctx))))
  = Fips256.sha256 (concat chunks).
Proof.
  intros Hc. apply SHA256_final_absorbed, (absorbed_chunks (Alg := SHA256_VTAB) chunks _ []).
  now apply SHA256_init_absorbed.
Qed.

Lemma SHA256_streaming_witness :
  ctx_wf (mkHASH_CTX 5 (repeat 7 64) (repeat 9 8)) /\
  firstn SHA256_DIGEST_SIZE
    (buf (SHA256_final (fold_left SHA256_update [[97]; [98; 99]; []]
       (SHA256_init (mkHASH_CTX 5 (repeat 7 64) (repeat 9 8))))))
  = Fips256.sha256 [97; 98; 99].
Proof.
  assert (H : ctx_wf (mkHASH_CTX 5 (repeat 7 64) (repeat 9 8))) by (split; reflexivity).
  split; [exact H|exact (SHA256_streaming _ [[97]; [98; 99]; []] H)].
Defined.

(** [SHA256_hash] is SHA-256. *)
Lemma SHA256_hash_sha256 ctx data : ctx_wf ctx -> SHA256_hash ctx data = Fips256.sha256 data.
Proof.
  intros Hc. unfold SHA256_hash.
  apply SHA256_final_absorbed, (absorbed_update (Alg := SHA256_VTAB) _ []).
  now apply SHA256_init_absorbed.
Qed.

Example SHA256_hash_abc :
  be_value (SHA256_hash (mkHASH_CTX 0 (repeat 0 64) (repeat 0 8)) [97; 98; 99])
  = 0xba7816bf8f01cfea414140de5dae2223b00361a396177a9cb410ff61f20015ad.
Proof. vm_compute. reflexivity. Qed.
