(* ===== verification/Md5.v ===== *)
(** MD5: src/digest/md5.c on a little endian target ([byteReverse] is empty there).

    The context keeps the bit count in two 32-bit words and copies data in
    chunks, so the code shares nothing with the SHA contexts; what it shares is the
    contract [Hash.MD].  [Rfc1321] is the algorithm as the RFC states it: the
    sixty-four operations as one table-driven loop, the constants computed from
    the sine function. *)
From Stdlib Require Import ZArith List Lia.
From S2P Require Import Prelude Hash.
Import ListNotations.

Definition MD5LENGTH : nat := 16.

Record MD5Context := mkMD5Context { md5_buf : list Z; bits0 : Z; bits1 : Z; inb : list Z }.

Definition F1 (x y z : Z) : Z := z .^ (x .& (y .^ z)).
Definition F2 (x y z : Z) : Z := F1 z x y.
Definition F3 (x y z : Z) : Z := x .^ y .^ z.
Definition F4 (x y z : Z) : Z := y .^ (x .| u32 (Z.lnot z)).

(** The new value of [w]. *)
Definition MD5STEP (f : Z -> Z -> Z -> Z) (w x y z data s : Z) : Z :=
  let w := w [+] (f x y z [+] data) in
  let w := (w [<<] s) .| (w >> (32 - s)) in
  w [+] x.

(** The registers [a], [b], [c], [d] live in a four element list. *)
Definition ra : nat := 0.
Definition rb : nat := 1.
Definition rc : nat := 2.
Definition rd : nat := 3.

(** One use of the macro: [MD5STEP(f, w, x, y, z, in[k] + t, s)]. *)
Inductive step := STEP (f : Z -> Z -> Z -> Z) (w x y z : nat) (k : nat) (t s : Z).

Definition exec (inp v : list Z) (st : step) : list Z :=
  match st with
  | STEP f w x y z k t s =>
      set v w (MD5STEP f (get v w) (get v x) (get v y) (get v z) (get inp k [+] t) s)
  end.

Definition md5_steps : list step :=
  [STEP F1 ra rb rc rd 0 0xd76aa478 7;
   STEP F1 rd ra rb rc 1 0xe8c7b756 12;
   STEP F1 rc rd ra rb 2 0x242070db 17;
   STEP F1 rb rc rd ra 3 0xc1bdceee 22;
   STEP F1 ra rb rc rd 4 0xf57c0faf 7;
   STEP F1 rd ra rb rc 5 0x4787c62a 12;
   STEP F1 rc rd ra rb 6 0xa8304613 17;
   STEP F1 rb rc rd ra 7 0xfd469501 22;
   STEP F1 ra rb rc rd 8 0x698098d8 7;
   STEP F1 rd ra rb rc 9 0x8b44f7af 12;
   STEP F1 rc rd ra rb 10 0xffff5bb1 17;
   STEP F1 rb rc rd ra 11 0x895cd7be 22;
   STEP F1 ra rb rc rd 12 0x6b901122 7;
   STEP F1 rd ra rb rc 13 0xfd987193 12;
   STEP F1 rc rd ra rb 14 0xa679438e 17;
   STEP F1 rb rc rd ra 15 0x49b40821 22;
   STEP F2 ra rb rc rd 1 0xf61e2562 5;
   STEP F2 rd ra rb rc 6 0xc040b340 9;
   STEP F2 rc rd ra rb 11 0x265e5a51 14;
   STEP F2 rb rc rd ra 0 0xe9b6c7aa 20;
   STEP F2 ra rb rc rd 5 0xd62f105d 5;
   STEP F2 rd ra rb rc 10 0x02441453 9;
   STEP F2 rc rd ra rb 15 0xd8a1e681 14;
   STEP F2 rb rc rd ra 4 0xe7d3fbc8 20;
   STEP F2 ra rb rc rd 9 0x21e1cde6 5;
   STEP F2 rd ra rb rc 14 0xc33707d6 9;
   STEP F2 rc rd ra rb 3 0xf4d50d87 14;
   STEP F2 rb rc rd ra 8 0x455a14ed 20;
   STEP F2 ra rb rc rd 13 0xa9e3e905 5;
   STEP F2 rd ra rb rc 2 0xfcefa3f8 9;
   STEP F2 rc rd ra rb 7 0x676f02d9 14;
   STEP F2 rb rc rd ra 12 0x8d2a4c8a 20;
   STEP F3 ra rb rc rd 5 0xfffa3942 4;
   STEP F3 rd ra rb rc 8 0x8771f681 11;
   STEP F3 rc rd ra rb 11 0x6d9d6122 16;
   STEP F3 rb rc rd ra 14 0xfde5380c 23;
   STEP F3 ra rb rc rd 1 0xa4beea44 4;
   STEP F3 rd ra rb rc 4 0x4bdecfa9 11;
   STEP F3 rc rd ra rb 7 0xf6bb4b60 16;
   STEP F3 rb rc rd ra 10 0xbebfbc70 23;
   STEP F3 ra rb rc rd 13 0x289b7ec6 4;
   STEP F3 rd ra rb rc 0 0xeaa127fa 11;
   STEP F3 rc rd ra rb 3 0xd4ef3085 16;
   STEP F3 rb rc rd ra 6 0x04881d05 23;
   STEP F3 ra rb rc rd 9 0xd9d4d039 4;
   STEP F3 rd ra rb rc 12 0xe6db99e5 11;
   STEP F3 rc rd ra rb 15 0x1fa27cf8 16;
   STEP F3 rb rc rd ra 2 0xc4ac5665 23;
   STEP F4 ra rb rc rd 0 0xf4292244 6;
   STEP F4 rd ra rb rc 7 0x432aff97 10;
   STEP F4 rc rd ra rb 14 0xab9423a7 15;
   STEP F4 rb rc rd ra 5 0xfc93a039 21;
   STEP F4 ra rb rc rd 12 0x655b59c3 6;
   STEP F4 rd ra rb rc 3 0x8f0ccc92 10;
   STEP F4 rc rd ra rb 10 0xffeff47d 15;
   STEP F4 rb rc rd ra 1 0x85845dd1 21;
   STEP F4 ra rb rc rd 8 0x6fa87e4f 6;
   STEP F4 rd ra rb rc 15 0xfe2ce6e0 10;
   STEP F4 rc rd ra rb 6 0xa3014314 15;
   STEP F4 rb rc rd ra 13 0x4e0811a1 21;
   STEP F4 ra rb rc rd 4 0xf7537e82 6;
   STEP F4 rd ra rb rc 11 0xbd3af235 10;
   STEP F4 rc rd ra rb 2 0x2ad7d2bb 15;
   STEP F4 rb rc rd ra 9 0xeb86d391 21].

Definition MD5Transform (buf inp : list Z) : list Z :=
  let v := fold_left (exec inp) md5_steps [get buf 0; get buf 1; get buf 2; get buf 3] in
  let buf := set buf 0 (get buf 0 [+] get v ra) in
  let buf := set buf 1 (get buf 1 [+] get v rb) in
  let buf := set buf 2 (get buf 2 [+] get v rc) in
  set buf 3 (get buf 3 [+] get v rd).

(** [(uint32_t * ) ctx->in]: the sixteen words stored in the buffer. *)
Definition in_words (b : list Z) : list Z :=
  map (fun t => le32 (get b (4 * t)) (get b (4 * t + 1)) (get b (4 * t + 2)) (get b (4 * t + 3)))
    (seq 0 16).

Definition transform_in (ctx : MD5Context) : MD5Context :=
  mkMD5Context (MD5Transform (md5_buf ctx) (in_words (inb ctx))) (bits0 ctx) (bits1 ctx) (inb ctx).

Definition set_in (ctx : MD5Context) (b : list Z) : MD5Context :=
  mkMD5Context (md5_buf ctx) (bits0 ctx) (bits1 ctx) b.

Definition MD5Init (ctx : MD5Context) : MD5Context :=
  let b := md5_buf ctx in
  let b := set b 0 0x67452301 in
  let b := set b 1 0xefcdab89 in
  let b := set b 2 0x98badcfe in
  let b := set b 3 0x10325476 in
  mkMD5Context b 0 0 (inb ctx).

(** [while (len >= 64)] with [len / 64] rounds, then the remaining bytes. *)
Fixpoint md5_chunks (fuel : nat) (ctx : MD5Context) (buf : list Z) : MD5Context :=
  match fuel with
  | O => set_in ctx (blit (inb ctx) 0 buf)
  | S k =>
      if (64 <=? length buf)%nat
      then md5_chunks k (transform_in (set_in ctx (blit (inb ctx) 0 (firstn 64 buf)))) (skipn 64 buf)
      else set_in ctx (blit (inb ctx) 0 buf)
  end.

Definition MD5Update (ctx : MD5Context) (buf : list Z) : MD5Context :=
  let len := Z.of_nat (length buf) in
  let t := bits0 ctx in
  let b0 := t [+] (len [<<] 3) in
  let b1 := if b0 <? t then bits1 ctx [+] 1 else bits1 ctx in
  let b1 := b1 [+] (len >> 29) in
  let ctx := mkMD5Context (md5_buf ctx) b0 b1 (inb ctx) in
  let t := Z.to_nat ((t >> 3) .& 0x3f) in
  if (t =? 0)%nat then md5_chunks (length buf / 64) ctx buf
  else
    let n := (64 - t)%nat in
    if (length buf <? n)%nat then set_in ctx (blit (inb ctx) t buf)
    else
      let ctx := transform_in (set_in ctx (blit (inb ctx) t (firstn n buf))) in
      let buf := skipn n buf in
      md5_chunks (length buf / 64) ctx buf.

(** [memcpy] of a [uint32_t] array on a little endian machine. *)
Definition word_bytes (l : list Z) : list Z := flat_map (le_bytes 4) l.

(** The digest and the wiped context. *)
Definition MD5Final (ctx : MD5Context) : list Z * MD5Context :=
  let count := Z.to_nat ((bits0 ctx >> 3) .& 0x3F) in
  let ctx := set_in ctx (set (inb ctx) count 0x80) in
  let p := S count in
  let count := (64 - 1 - count)%nat in
  let ctx :=
    if (count <? 8)%nat then
      let ctx := transform_in (set_in ctx (blit (inb ctx) p (repeat 0 count))) in
      set_in ctx (blit (inb ctx) 0 (repeat 0 56))
    else set_in ctx (blit (inb ctx) p (repeat 0 (count - 8))) in
  let ctx := set_in ctx (blit (inb ctx) 56 (le_bytes 4 (bits0 ctx))) in
  let ctx := set_in ctx (blit (inb ctx) 60 (le_bytes 4 (bits1 ctx))) in
  let ctx := transform_in ctx in
  (firstn MD5LENGTH (word_bytes (md5_buf ctx)), mkMD5Context (repeat 0 4) 0 0 (repeat 0 64)).

(** * RFC 1321 *)

Module Rfc1321.

(** [2^160 sin(i)] by its Taylor series; for [i <= 64] the terms left out are below
    [2^-70] and the roundings below [2^-60]. *)
Fixpoint sine (n : nat) (k i term : Z) : Z :=
  match n with
  | O => 0
  | S m => term - sine m (k + 2) i (term * i * i / ((k + 1) * (k + 2)))
  end.

(** [T[i + 1] = floor (2^32 * abs (sin (i + 1)))]. *)
Definition T : list Z :=
  map (fun i => let i := Z.of_nat i in Z.abs (sine 110 1 i (i * 2 ^ 160)) / 2 ^ 128) (seq 1 64).

Definition F (x y z : Z) : Z := (x .& y) .| Z.ldiff z x.
Definition G (x y z : Z) : Z := (x .& z) .| Z.ldiff y z.
Definition H (x y z : Z) : Z := x .^ y .^ z.
Definition I (x y z : Z) : Z := y .^ (x .| (Z.lnot z mod 2 ^ 32)).

Definition fn (i : nat) : Z -> Z -> Z -> Z :=
  match (i / 16)%nat with 0%nat => F | 1%nat => G | 2%nat => H | _ => I end.

Definition index (i : nat) : nat :=
  match (i / 16)%nat with
  | 0%nat => i
  | 1%nat => (5 * i + 1) mod 16
  | 2%nat => (3 * i + 5) mod 16
  | _ => (7 * i) mod 16
  end%nat.

Definition shift (i : nat) : Z :=
  get (nth (i / 16) [[7; 12; 17; 22]; [5; 9; 14; 20]; [4; 11; 16; 23]; [6; 10; 15; 21]] [])
    (i mod 4).

Definition ROTL (n x : Z) : Z := ((x << n) mod 2 ^ 32) .| (x >> (32 - n)).

(** [a = b + ((a + f(b,c,d) + X[k] + T[i]) <<< s)], then the registers rotate. *)
Definition op (T X : list Z) (v : Z * Z * Z * Z) (i : nat) : Z * Z * Z * Z :=
  let '(a, b, c, d) := v in
  let a' := (b + ROTL (shift i) ((a + fn i b c d + get X (index i) + get T i) mod 2 ^ 32)) mod 2 ^ 32 in
  (d, a', b, c).

Definition finish (h : list Z) (v : Z * Z * Z * Z) : list Z :=
  let '(a, b, c, d) := v in
  [(get h 0 + a) mod 2 ^ 32; (get h 1 + b) mod 2 ^ 32; (get h 2 + c) mod 2 ^ 32;
   (get h 3 + d) mod 2 ^ 32].

Definition rounds (T h X : list Z) : list Z :=
  finish h (fold_left (op T X) (seq 0 64) (get h 0, get h 1, get h 2, get h 3)).

Definition block (h b : list Z) : list Z := rounds T h (in_words b).

Definition H0 : list Z := [0x67452301; 0xefcdab89; 0x98badcfe; 0x10325476].

Definition md5 (m : list Z) : list Z :=
  flat_map (le_bytes 4) (MD.hash block H0 (le_bytes 8) m).

End Rfc1321.

(** The constants that appear in the code are the RFC's. *)
Definition md5_table : list Z :=
  [0xd76aa478; 0xe8c7b756; 0x242070db; 0xc1bdceee;
   0xf57c0faf; 0x4787c62a; 0xa8304613; 0xfd469501;
   0x698098d8; 0x8b44f7af; 0xffff5bb1; 0x895cd7be;
   0x6b901122; 0xfd987193; 0xa679438e; 0x49b40821;
   0xf61e2562; 0xc040b340; 0x265e5a51; 0xe9b6c7aa;
   0xd62f105d; 0x02441453; 0xd8a1e681; 0xe7d3fbc8;
   0x21e1cde6; 0xc33707d6; 0xf4d50d87; 0x455a14ed;
   0xa9e3e905; 0xfcefa3f8; 0x676f02d9; 0x8d2a4c8a;
   0xfffa3942; 0x8771f681; 0x6d9d6122; 0xfde5380c;
   0xa4beea44; 0x4bdecfa9; 0xf6bb4b60; 0xbebfbc70;
   0x289b7ec6; 0xeaa127fa; 0xd4ef3085; 0x04881d05;
   0xd9d4d039; 0xe6db99e5; 0x1fa27cf8; 0xc4ac5665;
   0xf4292244; 0x432aff97; 0xab9423a7; 0xfc93a039;
   0x655b59c3; 0x8f0ccc92; 0xffeff47d; 0x85845dd1;
   0x6fa87e4f; 0xfe2ce6e0; 0xa3014314; 0x4e0811a1;
   0xf7537e82; 0xbd3af235; 0x2ad7d2bb; 0xeb86d391].

Lemma md5_table_sine : Rfc1321.T = md5_table.
Proof. vm_compute. reflexivity. Qed.

(** ** The unrolled transform is the RFC's loop *)

Lemma F1_form x y z : F1 x y z = Rfc1321.F x y z.
Proof. unfold F1, Rfc1321.F. bitwise_eq. Qed.

Lemma F2_form x y z : F2 x y z = Rfc1321.G x y z.
Proof. unfold F2, F1, Rfc1321.G. bitwise_eq. Qed.

Lemma MD5STEP_op f w x y z X T s :
  MD5STEP f w x y z (X [+] T) s =
  (x + Rfc1321.ROTL s ((w + f x y z + X + T) mod 2 ^ 32)) mod 2 ^ 32.
Proof.
  assert (E : w [+] (f x y z [+] (X [+] T)) = (w + f x y z + X + T) mod 2 ^ 32).
  { unfold u32. rewrite (Zplus_mod_idemp_r (X + T)), Zplus_mod_idemp_r. f_equal. ring. }
  unfold MD5STEP, Rfc1321.ROTL. rewrite E, (Z.add_comm x). reflexivity.
Qed.

(** The registers in the order in which iteration [i] of the loop sees them. *)
Definition view {A} (i : nat) (a b c d : A) : A * A * A * A :=
  match (i mod 4)%nat with
  | 0%nat => (a, b, c, d)
  | 1%nat => (d, a, b, c)
  | 2%nat => (c, d, a, b)
  | _ => (b, c, d, a)
  end.

Definition view_list (i : nat) (v : list Z) : Z * Z * Z * Z :=
  view i (get v 0) (get v 1) (get v 2) (get v 3).

(** The [i]-th use of the macro has the operands the RFC prescribes. *)
Definition good_step (T : list Z) (i : nat) (st : step) : Prop :=
  match st with
  | STEP f w x y z k t s =>
      (w, x, y, z) = view i ra rb rc rd /\ k = Rfc1321.index i /\ t = get T i /\
      s = Rfc1321.shift i /\ forall p q r, f p q r = Rfc1321.fn i p q r
  end.

Lemma mod4_cases i : (i mod 4 = 0 \/ i mod 4 = 1 \/ i mod 4 = 2 \/ i mod 4 = 3)%nat.
Proof. pose proof (Nat.mod_upper_bound i 4). lia. Qed.

Lemma mod4_succ i : (S i mod 4 = S (i mod 4) mod 4)%nat.
Proof. now rewrite <- Nat.add_1_r, <- Nat.Div0.add_mod_idemp_l, Nat.add_1_r. Qed.

Lemma exec_op T inp i st v :
  good_step T i st -> length v = 4%nat ->
  length (exec inp v st) = 4%nat /\
  view_list (S i) (exec inp v st) = Rfc1321.op T inp (view_list i v) i.
Proof.
  destruct st as [f w x y z k t s]. intros (Hr & -> & -> & -> & Hf) Hv. cbn [exec].
  rewrite set_length. split; [exact Hv|]. rewrite MD5STEP_op, Hf.
  destruct v as [|v0 [|v1 [|v2 [|v3 [|]]]]]; try discriminate.
  unfold view_list, view in *. rewrite mod4_succ.
  destruct (mod4_cases i) as [E|[E|[E|E]]]; rewrite E in *; injection Hr as -> -> -> ->; reflexivity.
Qed.

Lemma md5_steps_good i st : nth_error md5_steps i = Some st -> good_step md5_table i st.
Proof.
  intros H. assert (Hi : (i < 64)%nat) by (apply (nth_error_Some md5_steps i); congruence).
  do 64 (destruct i as [|i];
    [injection H as <-; repeat split; intros; rewrite ?F1_form, ?F2_form; reflexivity|]). lia.
Qed.

Lemma exec_steps T inp sts i v :
  (forall j st, nth_error sts j = Some st -> good_step T (i + j) st) -> length v = 4%nat ->
  length (fold_left (exec inp) sts v) = 4%nat /\
  view_list (i + length sts) (fold_left (exec inp) sts v)
  = fold_left (Rfc1321.op T inp) (seq i (length sts)) (view_list i v).
Proof.
  revert i v. induction sts as [|st sts IH]; intros i v Hg Hv; cbn [fold_left length seq].
  - now rewrite Nat.add_0_r.
  - destruct (exec_op T inp i st v) as [Hl Hw]; [|exact Hv|].
    { rewrite <- (Nat.add_0_r i). now apply Hg. }
    rewrite <- Hw, Nat.add_succ_r, <- Nat.add_succ_l. apply IH; [|exact Hl].
    intros j st' Hj. rewrite Nat.add_succ_l, <- Nat.add_succ_r. now apply Hg.
Qed.

Lemma MD5Transform_rounds h X :
  length h = 4%nat -> MD5Transform h X = Rfc1321.rounds md5_table h X.
Proof.
  intros Hh. unfold MD5Transform, Rfc1321.rounds.
  destruct (exec_steps md5_table X md5_steps 0 [get h 0; get h 1; get h 2; get h 3])
    as [Hl E]; [exact md5_steps_good|reflexivity|].
  change (seq 0 64) with (seq 0 (length md5_steps)).
  change (get h 0, get h 1, get h 2, get h 3)
    with (view_list 0 [get h 0; get h 1; get h 2; get h 3]). rewrite <- E.
  set (v := fold_left _ _ _) in *. clearbody v. clear E.
  destruct v as [|v0 [|v1 [|v2 [|v3 [|]]]]]; try discriminate.
  destruct h as [|h0 [|h1 [|h2 [|h3 [|]]]]]; try discriminate. reflexivity.
Qed.

Lemma MD5Transform_block h b :
  length h = 4%nat -> MD5Transform h (in_words b) = Rfc1321.block h b.
Proof. intros Hh. unfold Rfc1321.block. rewrite md5_table_sine. now apply MD5Transform_rounds. Qed.

(** ** Refinement of the contract *)

Definition md5_wf (c : MD5Context) : Prop :=
  length (md5_buf c) = 4%nat /\ length (inb c) = 64%nat.

Definition md5_holds (c : MD5Context) (bs : list (list Z)) (t : list Z) : Prop :=
  md5_wf c /\ md5_buf c = fold_left Rfc1321.block bs Rfc1321.H0 /\ firstn (length t) (inb c) = t.

(** The two count words hold the length of [m] in bits. *)
Definition md5_counts (b0 b1 : Z) (m : list Z) : Prop :=
  word 32 b0 /\ word 32 b1 /\ b0 + 2 ^ 32 * b1 = u64 (8 * Z.of_nat (length m)).

(** The context has absorbed exactly the message [m]. *)
Definition md5_absorbed (c : MD5Context) (m : list Z) : Prop :=
  md5_counts (bits0 c) (bits1 c) m /\ exists bs t, MD.cut m bs t /\ md5_holds c bs t.

Lemma block_length h b : length (Rfc1321.block h b) = 4%nat.
Proof.
  unfold Rfc1321.block, Rfc1321.rounds, Rfc1321.finish.
  destruct (fold_left _ _ _) as [[[a b'] c] d]. reflexivity.
Qed.

(** Copying [p] behind the bytes already held. *)
Lemma holds_copy c bs t p :
  md5_holds c bs t -> (length (t ++ p) <= 64)%nat ->
  md5_holds (set_in c (blit (inb c) (length t) p)) bs (t ++ p).
Proof.
  intros ((Hb & Hi) & Hs & Ht) Hl. rewrite length_app in Hl. unfold md5_holds, md5_wf.
  cbn [set_in md5_buf inb]. rewrite blit_length by lia. repeat split; auto.
  rewrite length_app, blit_firstn by lia. now rewrite Ht.
Qed.

(** A full buffer is one more block. *)
Lemma holds_transform c bs t :
  md5_holds c bs t -> length t = 64%nat -> md5_holds (transform_in c) (bs ++ [t]) [].
Proof.
  intros ((Hb & Hi) & Hs & Ht) Hl. rewrite firstn_all2 in Ht by lia.
  unfold md5_holds, md5_wf. cbn [transform_in md5_buf inb].
  rewrite MD5Transform_block, block_length, Ht, fold_left_app, <- Hs by exact Hb.
  cbn [fold_left firstn length]. split; [split; [reflexivity|exact Hl]|split; reflexivity].
Qed.

Lemma md5_chunks_bits fuel c p :
  bits0 (md5_chunks fuel c p) = bits0 c /\ bits1 (md5_chunks fuel c p) = bits1 c.
Proof.
  revert c p. induction fuel as [|fuel IH]; intros c p; cbn [md5_chunks]; [auto|].
  destruct (64 <=? length p)%nat; [exact (IH (transform_in _) _)|auto].
Qed.

Lemma md5_chunks_spec fuel c m bs p :
  MD.cut m bs [] -> md5_holds c bs [] -> (length p < 64 * S fuel)%nat ->
  exists bs' t', MD.cut (m ++ p) bs' t' /\ md5_holds (md5_chunks fuel c p) bs' t'.
Proof.
  revert c m bs p. induction fuel as [|fuel IH]; intros c m bs p Hcut Hh Hl; cbn [md5_chunks].
  - exists bs, p. split; [now apply MD.cut_part with (t := [])|].
    apply holds_copy with (t := []); [exact Hh|]. simpl. lia.
  - destruct (Nat.leb_spec 64 (length p)) as [H64|H64].
    + assert (Hf : length (firstn 64 p) = 64%nat) by (rewrite length_firstn; lia).
      replace (m ++ p) with ((m ++ firstn 64 p) ++ skipn 64 p)
        by (rewrite <- app_assoc, firstn_skipn; reflexivity).
      apply IH with (bs ++ [firstn 64 p]).
      * now apply MD.cut_full with (t := []).
      * apply holds_transform; [|exact Hf]. apply holds_copy with (t := []); [exact Hh|].
        cbn [app]. lia.
      * rewrite length_skipn. lia.
    + exists bs, p. split; [now apply MD.cut_part with (t := [])|].
      apply holds_copy with (t := []); [exact Hh|]. simpl. lia.
Qed.

(** Bytes already in the buffer, from the low count word. *)
Lemma md5_fill b0 b1 m :
  md5_counts b0 b1 m -> Z.to_nat ((b0 >> 3) .& 0x3f) = (length m mod 64)%nat.
Proof.
  intros (Hb0 & Hb1 & E). change 0x3f with (Z.ones 6).
  rewrite land_ones_mod, shr_div by lia.
  rewrite <- (Nat2Z.id (length m mod 64)), Nat2Z.inj_mod. f_equal.
  unfold word, u64 in *. set (L := Z.of_nat (length m)) in *.
  pose proof (Z.div_mod (8 * L) (2 ^ 64)) as D.
  replace b0 with (8 * (L - 2 ^ 61 * ((8 * L) / 2 ^ 64) - 2 ^ 29 * b1)) by lia.
  change (2 ^ 3) with 8. rewrite Z.mul_comm, Z.div_mul by lia. change (Z.of_nat 64) with 64.
  change (2 ^ 6) with 64.
  replace (L - 2 ^ 61 * (8 * L / 2 ^ 64) - 2 ^ 29 * b1)
    with (L + (- 2 ^ 55 * (8 * L / 2 ^ 64) - 2 ^ 23 * b1) * 64) by lia.
  apply Z_mod_plus_full.
Qed.

Lemma md5_counts_update c m p :
  md5_counts (bits0 c) (bits1 c) m -> Z.of_nat (length p) < 2 ^ 32 ->
  let len := Z.of_nat (length p) in
  let b0 := bits0 c [+] (len [<<] 3) in
  let b1 := if b0 <? bits0 c then bits1 c [+] 1 else bits1 c in
  md5_counts b0 (b1 [+] (len >> 29)) (m ++ p).
Proof.
  intros (Hb0 & Hb1 & E) Hp. cbv zeta. unfold md5_counts. repeat split; try apply u32_range.
  rewrite length_app, Nat2Z.inj_add.
  set (L := Z.of_nat (length p)) in *. assert (0 <= L) by lia. unfold word, u32, u64 in *.
  rewrite shl_mul, shr_div by lia. change (2 ^ 3) with 8.
  replace (8 * (Z.of_nat (length m) + L)) with (8 * Z.of_nat (length m) + 8 * L) by ring.
  rewrite <- (Zplus_mod_idemp_l (8 * Z.of_nat (length m))), <- E.
  pose proof (Z.div_mod L (2 ^ 29)). pose proof (Z.mod_pos_bound L (2 ^ 29)).
  replace (L * 8 mod 2 ^ 32) with (8 * (L mod 2 ^ 29))
    by (apply Z.mod_unique with (L / 2 ^ 29); lia).
  set (q := L / 2 ^ 29) in *. set (r := L mod 2 ^ 29) in *.
  assert (0 <= q) by (apply Z.div_pos; lia).
  assert (Hq : q < 8) by lia. clearbody q r.
  assert (Hc : (bits0 c + 8 * r) mod 2 ^ 32
    = bits0 c + 8 * r - 2 ^ 32 * (if (bits0 c + 8 * r) mod 2 ^ 32 <? bits0 c then 1 else 0)).
  { destruct (Z.lt_ge_cases (bits0 c + 8 * r) (2 ^ 32)).
    - rewrite Z.mod_small by lia. destruct (Z.ltb_spec (bits0 c + 8 * r) (bits0 c)); lia.
    - replace ((bits0 c + 8 * r) mod 2 ^ 32) with (bits0 c + 8 * r - 2 ^ 32)
        by (apply Z.mod_unique with 1; lia).
      destruct (Z.ltb_spec (bits0 c + 8 * r - 2 ^ 32) (bits0 c)); lia. }
  set (b0 := (bits0 c + 8 * r) mod 2 ^ 32) in *.
  set (k := if b0 <? bits0 c then 1 else 0) in *.
  replace (if b0 <? bits0 c then (bits1 c + 1) mod 2 ^ 32 else bits1 c)
    with ((bits1 c + k) mod 2 ^ 32)
    by (unfold k; destruct (b0 <? bits0 c); [reflexivity|rewrite Z.add_0_r; apply Z.mod_small; lia]).
  rewrite Zplus_mod_idemp_l. pose proof (Z.div_mod (bits1 c + k + q) (2 ^ 32)) as D.
  pose proof (Z.mod_pos_bound (bits1 c + k + q) (2 ^ 32)).
  assert (0 <= b0 < 2 ^ 32) by (apply Z.mod_pos_bound; lia).
  apply Z.mod_unique with ((bits1 c + k + q) / 2 ^ 32); lia.
Qed.

Lemma md5_absorbed_update c m p :
  md5_absorbed c m -> Z.of_nat (length p) < 2 ^ 32 -> md5_absorbed (MD5Update c p) (m ++ p).
Proof.
  intros (Hn & bs & t & Hcut & Hh) Hp.
  pose proof (md5_counts_update c m p Hn Hp) as Hn'. pose proof (md5_fill _ _ _ Hn) as Hf.
  rewrite <- (MD.cut_length _ _ _ Hcut) in Hf. unfold MD5Update. rewrite Hf.
  pose proof Hcut as (_ & _ & Ht). pose proof (Nat.div_mod_eq (length p) 64) as Hd.
  pose proof (Nat.mod_upper_bound (length p) 64) as Hd'.
  set (c' := mkMD5Context (md5_buf c) _ _ (inb c)). assert (Hh' : md5_holds c' bs t) by exact Hh.
  destruct (Nat.eqb_spec (length t) 0) as [H0|H0].
  - apply length_zero_iff_nil in H0. subst t. split.
    + rewrite (proj1 (md5_chunks_bits _ _ _)), (proj2 (md5_chunks_bits _ _ _)). exact Hn'.
    + apply md5_chunks_spec with bs; [exact Hcut|exact Hh'|lia].
  - destruct (Nat.ltb_spec (length p) (64 - length t)) as [Hlt|Hge].
    + split; [exact Hn'|]. exists bs, (t ++ p). split.
      * apply MD.cut_part; [exact Hcut|]. rewrite length_app. lia.
      * apply holds_copy; [exact Hh'|]. rewrite length_app. lia.
    + set (p1 := firstn (64 - length t) p). set (p2 := skipn (64 - length t) p).
      assert (Hl : length (t ++ p1) = 64%nat)
        by (unfold p1; rewrite length_app, length_firstn; lia).
      pose proof (Nat.div_mod_eq (length p2) 64). pose proof (Nat.mod_upper_bound (length p2) 64).
      split.
      * rewrite (proj1 (md5_chunks_bits _ _ _)), (proj2 (md5_chunks_bits _ _ _)). exact Hn'.
      * replace (m ++ p) with ((m ++ p1) ++ p2)
          by (unfold p1, p2; rewrite <- app_assoc, firstn_skipn; reflexivity).
        apply md5_chunks_spec with (bs ++ [t ++ p1]); [now apply MD.cut_full| |lia].
        apply holds_transform; [|exact Hl]. apply holds_copy; [exact Hh'|lia].
Qed.

Lemma holds_set c bs t b :
  md5_holds c bs t -> (length t < 64)%nat ->
  md5_holds (set_in c (set (inb c) (length t) b)) bs (t ++ [b]).
Proof.
  intros ((Hb & Hi) & Hs & Ht) Hl. unfold md5_holds, md5_wf. cbn [set_in md5_buf inb].
  rewrite set_length, length_app, Nat.add_1_r, firstn_set_snoc by lia. repeat split; auto.
  now rewrite Ht.
Qed.

(** The marker, the zeros and the transform that the padding may need. *)
Definition md5_padded (t : list Z) (bs : list (list Z)) : list (list Z) * list Z :=
  if (63 - length t <? 8)%nat
  then (bs ++ [(t ++ [0x80]) ++ repeat 0 (63 - length t)], repeat 0 56)
  else (bs, (t ++ [0x80]) ++ repeat 0 (63 - length t - 8)).

Lemma md5_padded_cut m bs t :
  MD.cut m bs t ->
  let '(bs', t') := md5_padded t bs in
  MD.cut (m ++ [0x80] ++ repeat 0 (MD.pad_zeros (length m))) bs' t' /\ length t' = 56%nat.
Proof.
  intros Hcut. pose proof Hcut as (_ & _ & Ht). pose proof (MD.cut_length _ _ _ Hcut) as Hl.
  pose proof (MD.pad_zeros_spec (length m)) as Hz. pose proof (MD.pad_zeros_lt (length m)) as Hz'.
  set (z := MD.pad_zeros (length m)) in *.
  assert (Hsum : (length t + 1 + z = 56 \/ length t + 1 + z = 120)%nat).
  { pose proof (Nat.div_mod_eq (length m) 64). pose proof (Nat.div_mod_eq (length m + 1 + z) 64). lia. }
  unfold md5_padded. destruct (Nat.ltb_spec (63 - length t) 8) as [H8|H8].
  - split; [|apply repeat_length]. replace z with (63 - length t + 56)%nat by lia.
    rewrite repeat_app, !app_assoc. rewrite <- (app_nil_l (repeat 0 56)) at 2.
    apply MD.cut_part; [|rewrite length_app, repeat_length; simpl; lia].
    rewrite <- !app_assoc. apply MD.cut_full; [exact Hcut|].
    rewrite !length_app, repeat_length. simpl length. lia.
  - replace (63 - length t - 8)%nat with z by lia. rewrite <- !app_assoc. split.
    + apply MD.cut_part; [exact Hcut|]. rewrite !length_app, repeat_length. simpl length. lia.
    + rewrite !length_app, repeat_length. simpl length. lia.
Qed.

Lemma word_bytes_length l : length (word_bytes l) = (4 * length l)%nat.
Proof.
  induction l as [|x l IH]; [reflexivity|]. unfold word_bytes in *. cbn [flat_map length].
  rewrite length_app, IH, le_bytes_length. lia.
Qed.

(** The code's two ways of padding, from a context that holds the marker. *)
Lemma md5_padded_holds c bs t :
  (length t < 64)%nat -> md5_holds c bs (t ++ [0x80]) ->
  let c' :=
    if (63 - length t <? 8)%nat then
      let d := transform_in (set_in c (blit (inb c) (S (length t)) (repeat 0 (63 - length t)))) in
      set_in d (blit (inb d) 0 (repeat 0 56))
    else set_in c (blit (inb c) (S (length t)) (repeat 0 (63 - length t - 8))) in
  md5_holds c' (fst (md5_padded t bs)) (snd (md5_padded t bs)) /\
  bits0 c' = bits0 c /\ bits1 c' = bits1 c.
Proof.
  intros Ht H. replace (S (length t)) with (length (t ++ [0x80])) by (rewrite length_app; simpl; lia).
  unfold md5_padded. destruct (Nat.ltb_spec (63 - length t) 8) as [E|E]; (split; [|split; reflexivity]).
  - apply holds_copy with (t := []); [|simpl; lia].
    apply holds_transform; [|rewrite !length_app, repeat_length; simpl length; lia].
    apply holds_copy; [exact H|]. rewrite !length_app, repeat_length. simpl length. lia.
  - apply holds_copy; [exact H|]. rewrite !length_app, repeat_length. simpl length. lia.
Qed.

(** The last block: the padded tail followed by the two count words. *)
Lemma md5_last_block c bs t b0 b1 :
  md5_holds c bs t -> length t = 56%nat ->
  let c1 := set_in c (blit (inb c) 56 (le_bytes 4 b0)) in
  md5_holds (transform_in (set_in c1 (blit (inb c1) 60 (le_bytes 4 b1))))
    (bs ++ [t ++ le_bytes 4 b0 ++ le_bytes 4 b1]) [].
Proof.
  intros H Hl c1.
  assert (H1 : md5_holds c1 bs (t ++ le_bytes 4 b0)).
  { unfold c1. rewrite <- Hl. apply holds_copy; [exact H|]. rewrite length_app, le_bytes_length. lia. }
  rewrite app_assoc. apply holds_transform; [|rewrite !length_app, !le_bytes_length; lia].
  replace 60%nat with (length (t ++ le_bytes 4 b0)) by (rewrite length_app, le_bytes_length; lia).
  apply holds_copy; [exact H1|]. rewrite !length_app, !le_bytes_length. lia.
Qed.

Lemma MD5Final_absorbed c m : md5_absorbed c m -> fst (MD5Final c) = Rfc1321.md5 m.
Proof.
  intros (Hn & bs & t & Hcut & Hh). pose proof (md5_fill _ _ _ Hn) as Hf.
  rewrite <- (MD.cut_length _ _ _ Hcut) in Hf. unfold MD5Final. rewrite Hf.
  pose proof Hcut as (_ & _ & Ht). pose proof (md5_padded_cut _ _ _ Hcut) as Hpad.
  change (64 - 1 - length t)%nat with (63 - length t)%nat.
  pose proof (md5_padded_holds _ _ _ Ht (holds_set _ _ _ 0x80 Hh Ht)) as H2. cbv zeta in H2.
  set (c2 := if (63 - length t <? 8)%nat then _ else _) in *.
  destruct (md5_padded t bs) as [bs2 t2]. cbn [fst snd] in H2.
  destruct H2 as (H2 & B0 & B1), Hpad as [Hcut2 Hl2]. clearbody c2.
  cbn [fst set_in bits0 bits1 inb] in *. rewrite B0, B1.
  pose proof (md5_last_block _ _ _ (bits0 c) (bits1 c) H2 Hl2) as ((Hb & _) & Hs & _).
  destruct Hn as (W0 & W1 & EL).
  assert (Hc : MD.cut (MD.pad (le_bytes 8) m) (bs2 ++ [t2 ++ le_bytes 4 (bits0 c) ++ le_bytes 4 (bits1 c)]) []).
  { unfold MD.pad. rewrite (le_bytes_two_words (bits0 c) (bits1 c)) by assumption.
    rewrite (app_assoc [0x80]), (app_assoc m).
    apply MD.cut_full; [exact Hcut2|]. rewrite !length_app, !le_bytes_length. lia. }
  unfold Rfc1321.md5, MD.hash. apply MD.cut_unique in Hc as [-> _]. rewrite <- Hs.
  apply firstn_all2. rewrite word_bytes_length.
  apply Nat.eq_le_incl. exact (f_equal (Nat.mul 4) Hb).
Qed.

Lemma md5_absorbed_init c : md5_wf c -> md5_absorbed (MD5Init c) [].
Proof.
  intros [Hb Hi]. split; [repeat split; cbn; lia|].
  exists [], []. split; [apply MD.cut_nil|]. unfold md5_holds, md5_wf, MD5Init. cbn [md5_buf inb].
  rewrite !set_length. repeat split; auto.
  destruct (md5_buf c) as [|h0 [|h1 [|h2 [|h3 [|]]]]]; try discriminate. reflexivity.
Qed.

Lemma md5_absorbed_chunks chunks c m :
  Forall (fun p => Z.of_nat (length p) < 2 ^ 32) chunks -> md5_absorbed c m ->
  md5_absorbed (fold_left MD5Update chunks c) (m ++ concat chunks).
Proof.
  intros Hl. revert c m. induction Hl as [|p ps Hp Hps IH]; intros c m H; cbn [fold_left concat].
  - now rewrite app_nil_r.
  - rewrite app_assoc. apply IH. now apply md5_absorbed_update.
Qed.

(** C37: Feeding a message to [MD5Update] in pieces of any sizes below [2^32]
    and calling [MD5Final] gives the RFC 1321 digest of the concatenation, the
    constants of the unrolled transform being those the RFC derives from the sine,
    and leaves a wiped context. *)
Theorem MD5_streaming ctx chunks :
  md5_wf ctx -> Forall (fun p => Z.of_nat (length p) < 2 ^ 32) chunks ->
  MD5Final (fold_left MD5Update chunks (MD5Init ctx))
  = (Rfc1321.md5 (concat chunks), mkMD5Context (repeat 0 4) 0 0 (repeat 0 64)).
Proof.
  intros Hc Hl. apply (md5_absorbed_init ctx) in Hc.
  rewrite (surjective_pairing (MD5Final _)), (MD5Final_absorbed _ (concat chunks)); [reflexivity|].
  now apply (md5_absorbed_chunks chunks _ []).
Qed.

Definition blank_md5 : MD5Context := mkMD5Context (repeat 0 4) 0 0 (repeat 0 64).

Lemma MD5_streaming_witness :
  MD5Final (fold_left MD5Update [[97]; [98; 99]] (MD5Init blank_md5))
  = (Rfc1321.md5 [97; 98; 99], mkMD5Context (repeat 0 4) 0 0 (repeat 0 64)).
Proof.
  apply (MD5_streaming blank_md5 [[97]; [98; 99]]).
  - split; reflexivity.
  - repeat constructor.
Defined.

Example MD5_abc :
  be_value (fst (MD5Final (MD5Update (MD5Init blank_md5) [97; 98; 99])))
  = 0x900150983cd24fb0d6963f7d28e17f72.
Proof. vm_compute. reflexivity. Qed.
