(* ===== verification/Bignum.v ===== *)
(** Multi-word integers: the loops that rsa.c and p256.c share, on little endian
    arrays of 32-bit digits ([Prelude.eval 32]).

    A loop that walks several arrays in lockstep and carries a value is a
    recursion on the lists; the lemmas give its effect on the values. *)
From Stdlib Require Import ZArith List Lia.
From S2P Require Import Prelude.
Import ListNotations.

Abbreviation digits := (words 32).
(** The value of an array of digits, and [2^32] to the number of digits. *)
Definition val (l : list Z) : Z := eval 32 l.
Definition rad (n : nat) : Z := 2 ^ (32 * Z.of_nat n).

Lemma rad_pos n : 0 < rad n.
Proof. apply Z.pow_pos_nonneg; lia. Qed.

Lemma rad_S n : rad (S n) = 2 ^ 32 * rad n.
Proof. unfold rad. rewrite <- Z.pow_add_r by lia. f_equal. lia. Qed.

Lemma rad_add n m : rad (n + m) = rad n * rad m.
Proof. unfold rad. rewrite <- Z.pow_add_r by lia. f_equal. lia. Qed.

Lemma val_cons d l : val (d :: l) = d + 2 ^ 32 * val l.
Proof. reflexivity. Qed.

Lemma val_app a b : val (a ++ b) = val a + rad (length a) * val b.
Proof. apply eval_app. lia. Qed.

Lemma val_bound l : digits l -> 0 <= val l < rad (length l).
Proof. intros H. apply eval_bound; [lia|exact H]. Qed.

Lemma digits_cons d l : digits (d :: l) <-> 0 <= d < 2 ^ 32 /\ digits l.
Proof. unfold words. rewrite Forall_cons_iff. reflexivity. Qed.

(** Splitting a value at a 32-bit boundary. *)
Lemma u32_shr_split z : z = u32 z + 2 ^ 32 * (z >> 32).
Proof. rewrite shr_div by lia. unfold u32. pose proof (Z.div_mod z (2 ^ 32)). lia. Qed.

Lemma shr_bound z k : 0 <= z < 2 ^ (32 + k) -> 0 <= k -> 0 <= z >> 32 < 2 ^ k.
Proof.
  intros H Hk. rewrite Z.pow_add_r in H by lia. rewrite shr_div by lia.
  split; [apply Z.div_pos; lia|apply Z.div_lt_upper_bound; lia].
Qed.

(** * Subtraction with an [int64_t] borrow

    [A += (uint64_t)a[i] - n[i]; a[i] = (uint32_t)A; A >>= 32;] *)
Fixpoint sub_loop (A : Z) (a n : list Z) : list Z * Z :=
  match a, n with
  | x :: a', y :: n' =>
      let A := i64 (A + u64 (x - y)) in
      let '(r, B) := sub_loop (A >> 32) a' n' in
      (u32 A :: r, B)
  | _, _ => ([], A)
  end.

Lemma i64_borrow A z : i64 (A + u64 z) = i64 (A + z).
Proof.
  unfold i64, u64. f_equal.
  rewrite <- Z.add_assoc, (Z.add_comm (z mod _)), Z.add_assoc, Zplus_mod_idemp_r. f_equal. lia.
Qed.

Lemma sub_loop_spec A a n :
  digits a -> digits n -> length a = length n -> -1 <= A <= 0 ->
  let '(r, B) := sub_loop A a n in
  digits r /\ length r = length a /\ -1 <= B <= 0 /\
  val r + rad (length a) * B = val a - val n + A.
Proof.
  intros Ha. revert n A. induction Ha as [|x a Hx Ha IH]; intros [|y n] A Hn Hl HA; try discriminate.
  - cbn [sub_loop length]. split; [constructor|]. split; [reflexivity|].
    change (rad 0) with 1. change (val []) with 0. lia.
  - apply digits_cons in Hn as [Hy Hn]. unfold word in Hx. cbn [sub_loop].
    rewrite i64_borrow, i64_small by lia.
    assert (HS : -1 <= (A + (x - y)) >> 32 <= 0).
    { rewrite shr_div by lia. pose proof (Z.div_mod (A + (x - y)) (2 ^ 32)).
      pose proof (Z.mod_pos_bound (A + (x - y)) (2 ^ 32)). lia. }
    specialize (IH n ((A + (x - y)) >> 32) Hn ltac:(simpl in Hl; lia) HS).
    destruct (sub_loop _ a n) as [r B]. destruct IH as (Hr & Hlr & HB & E).
    pose proof (u32_shr_split (A + (x - y))) as Hs.
    split; [apply digits_cons; split; [apply u32_range|exact Hr]|].
    split; [simpl; lia|]. split; [lia|].
    cbn [length]. rewrite rad_S, !val_cons. lia.
Qed.

(** The final borrow tells which operand is larger. *)
Lemma sub_loop_val A a n :
  digits a -> digits n -> length a = length n -> -1 <= A <= 0 ->
  let '(r, B) := sub_loop A a n in
  digits r /\ length r = length a /\
  (val a - val n + A < 0 -> B = -1 /\ val r = val a - val n + A + rad (length a)) /\
  (0 <= val a - val n + A -> B = 0 /\ val r = val a - val n + A).
Proof.
  intros Ha Hn Hl HA. pose proof (sub_loop_spec A a n Ha Hn Hl HA) as H.
  destruct (sub_loop A a n) as [r B]. destruct H as (Hr & Hlr & HB & E).
  pose proof (val_bound r Hr). pose proof (val_bound a Ha). rewrite Hlr in *.
  assert (B = -1 \/ B = 0) as [->| ->] by lia; repeat split; auto; lia.
Qed.

(** * Reading an array up to an index *)

Lemma firstn_S_get l i : (i < length l)%nat -> firstn (S i) l = firstn i l ++ [get l i].
Proof.
  revert i. induction l as [|h t IH]; intros [|i] H; simpl in *; try lia; auto.
  f_equal. apply IH. lia.
Qed.

Lemma val_firstn_S l i :
  (i < length l)%nat -> val (firstn (S i) l) = val (firstn i l) + rad i * get l i.
Proof.
  intros H. rewrite firstn_S_get, val_app, length_firstn by lia.
  replace (Nat.min i (length l)) with i by lia. cbn. ring.
Qed.

Lemma val_firstn_bound l i :
  digits l -> (i <= length l)%nat -> 0 <= val (firstn i l) < rad i.
Proof.
  intros H Hi. pose proof (val_bound (firstn i l) (words_firstn _ _ _ H)) as B.
  rewrite length_firstn in B. replace (Nat.min i (length l)) with i in B by lia. exact B.
Qed.

Lemma digits_get l i : digits l -> 0 <= get l i < 2 ^ 32.
Proof. intros H. apply (get_word 32 l i); [lia|exact H]. Qed.

(** Comparing from the most significant digit down. *)
Fixpoint ge_loop (a n : list Z) (i : nat) : bool :=
  match i with
  | O => true
  | S j => if get a j <? get n j then false
           else if get n j <? get a j then true else ge_loop a n j
  end.

Lemma ge_loop_spec a n i :
  digits a -> digits n -> (i <= length a)%nat -> (i <= length n)%nat ->
  ge_loop a n i = (val (firstn i n) <=? val (firstn i a)).
Proof.
  intros Ha Hn. induction i as [|i IH]; intros Hia Hin; [reflexivity|]. cbn [ge_loop].
  rewrite IH, !val_firstn_S by lia.
  pose proof (val_firstn_bound a i Ha ltac:(lia)). pose proof (val_firstn_bound n i Hn ltac:(lia)).
  pose proof (digits_get a i Ha). pose proof (digits_get n i Hn).
  destruct (Z.ltb_spec (get a i) (get n i)); [symmetry; apply Z.leb_gt; nia|].
  destruct (Z.ltb_spec (get n i) (get a i)); [symmetry; apply Z.leb_le; nia|].
  assert (E : get a i = get n i) by lia. rewrite E.
  destruct (Z.leb_spec (val (firstn i n)) (val (firstn i a))); symmetry;
    [apply Z.leb_le|apply Z.leb_gt]; lia.
Qed.

(** * Big endian bytes and words *)

Lemma be_value_acc l acc :
  fold_left (fun acc b => acc * 256 + b) l acc = acc * 2 ^ (8 * Z.of_nat (length l)) + be_value l.
Proof.
  unfold be_value. revert acc. induction l as [|b l IH]; intros acc; cbn [fold_left length].
  - rewrite Z.mul_0_r. lia.
  - rewrite IH, (IH (0 * 256 + b)), Nat2Z.inj_succ, Z.mul_succ_r, Z.pow_add_r by lia. ring.
Qed.

Lemma be_value_app a b :
  be_value (a ++ b) = be_value a * 2 ^ (8 * Z.of_nat (length b)) + be_value b.
Proof. unfold be_value at 1. rewrite fold_left_app, be_value_acc. reflexivity. Qed.

Lemma be_value_cons x l : be_value (x :: l) = x * 2 ^ (8 * Z.of_nat (length l)) + be_value l.
Proof. rewrite <- (app_nil_l l) at 1. change (x :: [] ++ l) with ([x] ++ l). apply be_value_app. Qed.

Lemma be_value_bound l : bytes l -> 0 <= be_value l < 2 ^ (8 * Z.of_nat (length l)).
Proof.
  intros H. induction H as [|x l Hx Hl IH]; [cbn; lia|].
  rewrite be_value_cons. cbn [length]. rewrite Nat2Z.inj_succ, Z.mul_succ_r, Z.pow_add_r by lia.
  unfold word in Hx. nia.
Qed.

Lemma be_value_be_bytes n z : be_value (be_bytes n z) = z mod 2 ^ (8 * Z.of_nat n).
Proof.
  induction n as [|n IH]; [cbn; now rewrite Z.mod_1_r|].
  cbn [be_bytes]. rewrite be_value_cons, be_bytes_length, IH.
  unfold u8. rewrite shr_div by lia.
  rewrite Nat2Z.inj_succ, Z.mul_succ_r, Z.pow_add_r by lia.
  set (P := 2 ^ (8 * Z.of_nat n)). assert (0 < P) by (apply Z.pow_pos_nonneg; lia).
  rewrite (Z.rem_mul_r z P (2 ^ 8)) by lia. ring.
Qed.

Lemma be_bytes_inj l m :
  bytes l -> bytes m -> length l = length m -> be_value l = be_value m -> l = m.
Proof.
  intros Hl. revert m. induction Hl as [|x l Hx Hl IH]; intros [|y m] Hm Hlen E; try discriminate.
  - reflexivity.
  - inversion Hm as [|? ? Hy Hm']; subst. rewrite !be_value_cons in E. simpl in Hlen.
    injection Hlen as Hlen. rewrite Hlen in E.
    pose proof (be_value_bound l Hl) as B1. pose proof (be_value_bound m Hm') as B2.
    rewrite Hlen in B1. unfold word in *.
    assert (x = y) by nia. subst y. f_equal. apply IH; auto. lia.
Qed.

Lemma be_bytes_be_value l : bytes l -> be_bytes (length l) (be_value l) = l.
Proof.
  intros H. apply be_bytes_inj; auto with words; [apply be_bytes_length|].
  rewrite be_value_be_bytes. apply Z.mod_small. now apply be_value_bound.
Qed.

(** The digit [i] of a big endian byte array of [n] digits:
    [in[(n-1-i)*4] << 24 | ... | in[(n-1-i)*4+3]]. *)
Definition be_digit (inp : list Z) (n i : nat) : Z :=
  be32 (get inp ((n - 1 - i) * 4)) (get inp ((n - 1 - i) * 4 + 1))
    (get inp ((n - 1 - i) * 4 + 2)) (get inp ((n - 1 - i) * 4 + 3)).

Lemma be_digit_cons4 a b c d l n i :
  (i < n)%nat -> be_digit (a :: b :: c :: d :: l) (S n) i = be_digit l n i.
Proof.
  intros H. unfold be_digit. replace ((S n - 1 - i) * 4)%nat with (S (S (S (S ((n - 1 - i) * 4)))))%nat by lia.
  reflexivity.
Qed.

Lemma be_digits_val n inp :
  length inp = (4 * n)%nat -> bytes inp ->
  digits (map (be_digit inp n) (seq 0 n)) /\ val (map (be_digit inp n) (seq 0 n)) = be_value inp.
Proof.
  revert inp. induction n as [|n IH]; intros inp Hl Hb.
  { destruct inp; [|discriminate]. split; [constructor|reflexivity]. }
  destruct inp as [|a [|b [|c [|d l]]]]; try (simpl in Hl; lia).
  change (a :: b :: c :: d :: l) with ([a; b; c; d] ++ l) in Hb.
  apply Forall_app in Hb as [H4 Hb]. simpl in Hl.
  destruct (IH l ltac:(lia) Hb) as [Hd E].
  rewrite seq_S, map_app. cbn [map Nat.add].
  assert (Em : map (be_digit (a :: b :: c :: d :: l) (S n)) (seq 0 n) = map (be_digit l n) (seq 0 n)).
  { apply map_ext_in. intros i Hi. apply in_seq in Hi. apply be_digit_cons4. lia. }
  assert (Et : be_digit (a :: b :: c :: d :: l) (S n) n = be32 a b c d).
  { unfold be_digit. replace ((S n - 1 - n) * 4)%nat with O by lia. reflexivity. }
  rewrite Em, Et. split.
  - apply words_app; [exact Hd|]. constructor; [|constructor]. now apply be32_word.
  - rewrite val_app, E, length_map, length_seq, be32_value by exact H4.
    rewrite !be_value_cons. cbn [length]. unfold rad.
    replace (Z.of_nat (length l)) with (4 * Z.of_nat n) by lia.
    rewrite !Nat2Z.inj_succ. replace (Z.of_nat (length l)) with (4 * Z.of_nat n) by lia.
    replace (8 * Z.succ (Z.succ (Z.succ (4 * Z.of_nat n)))) with (32 * Z.of_nat n + 24) by lia.
    replace (8 * Z.succ (Z.succ (4 * Z.of_nat n))) with (32 * Z.of_nat n + 16) by lia.
    replace (8 * Z.succ (4 * Z.of_nat n)) with (32 * Z.of_nat n + 8) by lia.
    replace (8 * (4 * Z.of_nat n)) with (32 * Z.of_nat n) by lia.
    rewrite !Z.pow_add_r by lia. cbn [val eval]. ring.
Qed.

(** Writing the digits of [l] most significant first, four bytes each. *)
Definition be_of_digits (l : list Z) : list Z := flat_map (be_bytes 4) (rev l).

Lemma be_of_digits_spec l :
  digits l -> be_of_digits l = be_bytes (4 * length l) (val l).
Proof.
  intros H. unfold be_of_digits.
  apply be_bytes_inj.
  - apply Forall_flat_map, Forall_forall. intros x _. apply be_bytes_bytes.
  - apply be_bytes_bytes.
  - rewrite be_bytes_length. clear H. induction l as [|d l IH]; [reflexivity|].
    cbn [rev]. rewrite flat_map_app, length_app, IH. simpl. lia.
  - rewrite be_value_be_bytes. replace (8 * Z.of_nat (4 * length l)) with (32 * Z.of_nat (length l)) by lia.
    rewrite Z.mod_small by now apply val_bound.
    induction H as [|d l Hd Hl IH]; [reflexivity|].
    cbn [rev]. rewrite flat_map_app, be_value_app, IH. cbn [flat_map]. rewrite app_nil_r, be_bytes_length, be_value_be_bytes.
    change (8 * Z.of_nat 4) with 32. rewrite Z.mod_small by exact Hd. rewrite val_cons. ring.
Qed.
