(* ===== verification/Rsa.v ===== *)
(** RSA signature verification: src/libmincrypt/rsa.c.

    Montgomery arithmetic on little endian arrays of 32-bit words, public
    exponentiation with e = 3 or 65537, and the PKCS #1 v1.5 check, in which the
    code compares the hash of the padding instead of the padding. *)
From Stdlib Require Import ZArith List Lia Bool.
From S2P Require Import Prelude Hash Sha1 Sha256 Bignum.
Import ListNotations.

Definition RSANUMBYTES : nat := 256.
Definition RSANUMWORDS : nat := 64.

Record RSAPublicKey := mkRSAPublicKey {
  len : nat; n0inv : Z; n : list Z; rr : list Z; exponent : Z
}.

(** [a[] -= mod] *)
Definition subM (key : RSAPublicKey) (a : list Z) : list Z := fst (sub_loop 0 a (n key)).

(** [a[] >= mod] *)
Definition geM (key : RSAPublicKey) (a : list Z) : bool := ge_loop a (n key) (len key).

(** The loop of [montMulAdd] for [i >= 1]: the words stored in [c[i - 1]] and the
    final accumulators. *)
Fixpoint mont_loop (a d0 A B : Z) (b n c : list Z) : list Z * (Z * Z) :=
  match b, n, c with
  | bi :: b', ni :: n', ci :: c' =>
      let A := u64 ((A >> 32) + u64 (a * bi) + ci) in
      let B := u64 ((B >> 32) + u64 (d0 * ni) + u32 A) in
      let '(r, AB) := mont_loop a d0 A B b' n' c' in
      (u32 B :: r, AB)
  | _, _, _ => ([], (A, B))
  end.

(** [montMulAdd] up to the last store: the words of [c] and [A >> 32]. *)
Definition mont_sum (key : RSAPublicKey) (c : list Z) (a : Z) (b : list Z) : list Z * Z :=
  let A := u64 (u64 (a * get b 0) + get c 0) in
  let d0 := u32 A [*] n0inv key in
  let B := u64 (u64 (d0 * get (n key) 0) + u32 A) in
  let '(r, (A, B)) := mont_loop a d0 A B (tl b) (tl (n key)) (tl c) in
  let A := u64 ((A >> 32) + (B >> 32)) in
  (r ++ [u32 A], A >> 32).

(** [c[] += a * b[] / R % mod] *)
Definition montMulAdd (key : RSAPublicKey) (c : list Z) (a : Z) (b : list Z) : list Z :=
  let '(c, top) := mont_sum key c a b in
  if top =? 0 then c else subM key c.

(** [c[] = a[] * b[] / R % mod] *)
Definition montMul (key : RSAPublicKey) (a b : list Z) : list Z :=
  fold_left (fun c ai => montMulAdd key c ai b) (firstn (len key) a) (repeat 0 (len key)).

(** Eight rounds of two squarings. *)
Definition square16 (key : RSAPublicKey) (aR : list Z) : list Z :=
  fold_left (fun aR _ => let aaR := montMul key aR aR in montMul key aaR aaR) (seq 0 8) aR.

(** In-place public exponentiation of a big endian array.  For any other
    exponent [aaa] stays null and is dereferenced: no result. *)
Definition modpow (key : RSAPublicKey) (inout : list Z) : option (list Z) :=
  let a := map (be_digit inout (len key)) (seq 0 (len key)) in
  let aaa :=
    if exponent key =? 65537 then
      let aR := montMul key a (rr key) in
      let aR := square16 key aR in
      Some (montMul key aR a)
    else if exponent key =? 3 then
      let aR := montMul key a (rr key) in
      let aaR := montMul key aR aR in
      Some (montMul key aaR a)
    else None in
  match aaa with
  | None => None
  | Some aaa =>
      let aaa := if geM key aaa then subM key aaa else aaa in
      Some (be_of_digits aaa)
  end.

(** The padded blocks, with zeros where the digest goes. *)
Definition sha_padding : list Z :=
  [0x00; 0x01; 0xff; 0xff; 0xff; 0xff; 0xff; 0xff;
   0xff; 0xff; 0xff; 0xff; 0xff; 0xff; 0xff; 0xff;
   0xff; 0xff; 0xff; 0xff; 0xff; 0xff; 0xff; 0xff;
   0xff; 0xff; 0xff; 0xff; 0xff; 0xff; 0xff; 0xff;
   0xff; 0xff; 0xff; 0xff; 0xff; 0xff; 0xff; 0xff;
   0xff; 0xff; 0xff; 0xff; 0xff; 0xff; 0xff; 0xff;
   0xff; 0xff; 0xff; 0xff; 0xff; 0xff; 0xff; 0xff;
   0xff; 0xff; 0xff; 0xff; 0xff; 0xff; 0xff; 0xff;
   0xff; 0xff; 0xff; 0xff; 0xff; 0xff; 0xff; 0xff;
   0xff; 0xff; 0xff; 0xff; 0xff; 0xff; 0xff; 0xff;
   0xff; 0xff; 0xff; 0xff; 0xff; 0xff; 0xff; 0xff;
   0xff; 0xff; 0xff; 0xff; 0xff; 0xff; 0xff; 0xff;
   0xff; 0xff; 0xff; 0xff; 0xff; 0xff; 0xff; 0xff;
   0xff; 0xff; 0xff; 0xff; 0xff; 0xff; 0xff; 0xff;
   0xff; 0xff; 0xff; 0xff; 0xff; 0xff; 0xff; 0xff;
   0xff; 0xff; 0xff; 0xff; 0xff; 0xff; 0xff; 0xff;
   0xff; 0xff; 0xff; 0xff; 0xff; 0xff; 0xff; 0xff;
   0xff; 0xff; 0xff; 0xff; 0xff; 0xff; 0xff; 0xff;
   0xff; 0xff; 0xff; 0xff; 0xff; 0xff; 0xff; 0xff;
   0xff; 0xff; 0xff; 0xff; 0xff; 0xff; 0xff; 0xff;
   0xff; 0xff; 0xff; 0xff; 0xff; 0xff; 0xff; 0xff;
   0xff; 0xff; 0xff; 0xff; 0xff; 0xff; 0xff; 0xff;
   0xff; 0xff; 0xff; 0xff; 0xff; 0xff; 0xff; 0xff;
   0xff; 0xff; 0xff; 0xff; 0xff; 0xff; 0xff; 0xff;
   0xff; 0xff; 0xff; 0xff; 0xff; 0xff; 0xff; 0xff;
   0xff; 0xff; 0xff; 0xff; 0xff; 0xff; 0xff; 0xff;
   0xff; 0xff; 0xff; 0xff; 0xff; 0xff; 0xff; 0xff;
   0xff; 0xff; 0xff; 0xff; 0x00; 0x30; 0x21; 0x30;
   0x09; 0x06; 0x05; 0x2b; 0x0e; 0x03; 0x02; 0x1a;
   0x05; 0x00; 0x04; 0x14; 0; 0; 0; 0;
   0; 0; 0; 0; 0; 0; 0; 0;
   0; 0; 0; 0; 0; 0; 0; 0].

Definition kExpectedPadShaRsa2048 : list Z :=
  [0xdc; 0xbd; 0xbe; 0x42; 0xd5; 0xf5; 0xa7; 0x2e;
   0x6e; 0xfc; 0xf5; 0x5d; 0xaf; 0x9d; 0xea; 0x68;
   0x7c; 0xfb; 0xf1; 0x67].

Definition sha256_padding : list Z :=
  [0x00; 0x01; 0xff; 0xff; 0xff; 0xff; 0xff; 0xff;
   0xff; 0xff; 0xff; 0xff; 0xff; 0xff; 0xff; 0xff;
   0xff; 0xff; 0xff; 0xff; 0xff; 0xff; 0xff; 0xff;
   0xff; 0xff; 0xff; 0xff; 0xff; 0xff; 0xff; 0xff;
   0xff; 0xff; 0xff; 0xff; 0xff; 0xff; 0xff; 0xff;
   0xff; 0xff; 0xff; 0xff; 0xff; 0xff; 0xff; 0xff;
   0xff; 0xff; 0xff; 0xff; 0xff; 0xff; 0xff; 0xff;
   0xff; 0xff; 0xff; 0xff; 0xff; 0xff; 0xff; 0xff;
   0xff; 0xff; 0xff; 0xff; 0xff; 0xff; 0xff; 0xff;
   0xff; 0xff; 0xff; 0xff; 0xff; 0xff; 0xff; 0xff;
   0xff; 0xff; 0xff; 0xff; 0xff; 0xff; 0xff; 0xff;
   0xff; 0xff; 0xff; 0xff; 0xff; 0xff; 0xff; 0xff;
   0xff; 0xff; 0xff; 0xff; 0xff; 0xff; 0xff; 0xff;
   0xff; 0xff; 0xff; 0xff; 0xff; 0xff; 0xff; 0xff;
   0xff; 0xff; 0xff; 0xff; 0xff; 0xff; 0xff; 0xff;
   0xff; 0xff; 0xff; 0xff; 0xff; 0xff; 0xff; 0xff;
   0xff; 0xff; 0xff; 0xff; 0xff; 0xff; 0xff; 0xff;
   0xff; 0xff; 0xff; 0xff; 0xff; 0xff; 0xff; 0xff;
   0xff; 0xff; 0xff; 0xff; 0xff; 0xff; 0xff; 0xff;
   0xff; 0xff; 0xff; 0xff; 0xff; 0xff; 0xff; 0xff;
   0xff; 0xff; 0xff; 0xff; 0xff; 0xff; 0xff; 0xff;
   0xff; 0xff; 0xff; 0xff; 0xff; 0xff; 0xff; 0xff;
   0xff; 0xff; 0xff; 0xff; 0xff; 0xff; 0xff; 0xff;
   0xff; 0xff; 0xff; 0xff; 0xff; 0xff; 0xff; 0xff;
   0xff; 0xff; 0xff; 0xff; 0xff; 0xff; 0xff; 0xff;
   0xff; 0xff; 0xff; 0xff; 0x00; 0x30; 0x31; 0x30;
   0x0d; 0x06; 0x09; 0x60; 0x86; 0x48; 0x01; 0x65;
   0x03; 0x04; 0x02; 0x01; 0x05; 0x00; 0x04; 0x20;
   0; 0; 0; 0; 0; 0; 0; 0;
   0; 0; 0; 0; 0; 0; 0; 0;
   0; 0; 0; 0; 0; 0; 0; 0;
   0; 0; 0; 0; 0; 0; 0; 0].

Definition kExpectedPadSha256Rsa2048 : list Z :=
  [0xab; 0x28; 0x8d; 0x8a; 0xd7; 0xd9; 0x59; 0x92;
   0xba; 0xcc; 0xf8; 0x67; 0x20; 0xe1; 0x15; 0x2e;
   0x39; 0x8d; 0x80; 0x36; 0xd6; 0x6f; 0xf0; 0xfd;
   0x90; 0xe8; 0x7d; 0x8b; 0xe1; 0x7c; 0x87; 0x59].

(** [buf[i] ^= *hash++] from index [i] on. *)
Fixpoint xor_from (buf : list Z) (i : nat) (hash : list Z) : list Z :=
  match hash with
  | [] => buf
  | h :: hash' => xor_from (set buf i (get buf i .^ h)) (S i) hash'
  end.

(** The comparison loop over the first [k] bytes. *)
Fixpoint bytes_equal (k : nat) (a b : list Z) : bool :=
  match k with
  | O => true
  | S j => match a, b with
           | x :: a', y :: b' => if x =? y then bytes_equal j a' b' else false
           | _, _ => false
           end
  end.

(** [ctx] is the indeterminate contents of the hash context on the stack. *)
Definition RSA_verify (ctx : HASH_CTX) (key : RSAPublicKey) (signature : list Z) (slen : nat)
    (hash : list Z) (hash_len : nat) : bool :=
  if negb (len key =? RSANUMWORDS)%nat then false
  else if negb (slen =? RSANUMBYTES)%nat then false
  else if negb (hash_len =? SHA_DIGEST_SIZE)%nat && negb (hash_len =? SHA256_DIGEST_SIZE)%nat
  then false
  else if negb (exponent key =? 3) && negb (exponent key =? 65537) then false
  else
    let buf := firstn slen signature in
    match modpow key buf with
    | None => false
    | Some buf =>
        let buf := xor_from buf (slen - hash_len) (firstn hash_len hash) in
        if (hash_len =? SHA_DIGEST_SIZE)%nat then
          let buf := blit buf 0 (SHA_hash ctx buf) in
          bytes_equal hash_len buf kExpectedPadShaRsa2048
        else if (hash_len =? SHA256_DIGEST_SIZE)%nat then
          let buf := blit buf 0 (SHA256_hash ctx buf) in
          bytes_equal hash_len buf kExpectedPadSha256Rsa2048
        else false
    end.

(** * Montgomery multiplication *)

(** What a usable key is: an odd modulus of exactly [len] words with its top
    bit set, and the two precomputed values the header describes. *)
Record key_wf (key : RSAPublicKey) : Prop := {
  key_len : (0 < len key)%nat;
  key_n : digits (n key) /\ length (n key) = len key;
  key_rr : digits (rr key) /\ length (rr key) = len key;
  key_n0inv : get (n key) 0 * n0inv key ==[2 ^ 32] -1;
  key_RR : val (rr key) ==[val (n key)] rad (len key) ^ 2;
  key_top : rad (len key) <= 2 * val (n key)
}.

Lemma mul32_bound a b : 0 <= a < 2 ^ 32 -> 0 <= b < 2 ^ 32 -> 0 <= a * b <= 2 ^ 64 - 2 ^ 33 + 1.
Proof. intros. nia. Qed.

Lemma mont_loop_spec a d0 A B b n c :
  0 <= a < 2 ^ 32 -> 0 <= d0 < 2 ^ 32 -> 0 <= A < 2 ^ 64 -> 0 <= B < 2 ^ 64 ->
  digits b -> digits n -> digits c -> length b = length n -> length c = length n ->
  let '(r, (A', B')) := mont_loop a d0 A B b n c in
  digits r /\ length r = length n /\ 0 <= A' < 2 ^ 64 /\ 0 <= B' < 2 ^ 64 /\
  val r + rad (length n) * ((A' >> 32) + (B' >> 32))
  = a * val b + d0 * val n + val c + (A >> 32) + (B >> 32).
Proof.
  intros Ha Hd HA HB Hb. revert n c A B HA HB.
  induction Hb as [|bi b Hbi Hb IH]; intros [|ni n] [|ci c] A B HA HB Hn Hc Hl Hl'; try discriminate.
  - cbn [mont_loop length]. change (rad 0) with 1. change (val []) with 0.
    repeat split; try lia. constructor.
  - apply digits_cons in Hn as [Hni Hn]. apply digits_cons in Hc as [Hci Hc]. unfold word in Hbi.
    cbn [mont_loop]. pose proof (mul32_bound a bi Ha Hbi). pose proof (mul32_bound d0 ni Hd Hni).
    pose proof (shr_bound A 32 HA ltac:(lia)). pose proof (shr_bound B 32 HB ltac:(lia)).
    rewrite !(u64_small (_ * _)) by lia.
    rewrite (u64_small ((A >> 32) + a * bi + ci)) by lia.
    set (A1 := (A >> 32) + a * bi + ci).
    assert (HA1 : 0 <= A1 < 2 ^ 64) by lia. pose proof (u32_range A1) as HlA. unfold word in HlA.
    rewrite (u64_small ((B >> 32) + d0 * ni + u32 A1)) by lia.
    set (B1 := (B >> 32) + d0 * ni + u32 A1). assert (HB1 : 0 <= B1 < 2 ^ 64) by lia.
    simpl in Hl, Hl'. specialize (IH n c A1 B1 HA1 HB1 Hn Hc ltac:(lia) ltac:(lia)).
    destruct (mont_loop a d0 A1 B1 b n c) as [r [A' B']].
    destruct IH as (Hr & Hlr & HA' & HB' & E).
    pose proof (u32_shr_split A1). pose proof (u32_shr_split B1).
    split; [apply digits_cons; split; [apply u32_range|exact Hr]|].
    split; [simpl; lia|]. do 2 (split; [assumption|]).
    cbn [length]. rewrite rad_S, !val_cons.
    assert (EA : A1 = (A >> 32) + a * bi + ci) by reflexivity.
    assert (EB : B1 = (B >> 32) + d0 * ni + u32 A1) by reflexivity.
    clearbody A1 B1. lia.
Qed.

Lemma low_word_cancels key A d0 :
  0 <= A -> get (n key) 0 * n0inv key ==[2 ^ 32] -1 -> d0 = u32 A [*] n0inv key ->
  u32 (d0 * get (n key) 0 + u32 A) = 0.
Proof.
  intros HA Hinv ->. change 0 with (u32 0). unfold u32. change (_ mod _ = _ mod _) with
    (((u32 A * n0inv key) mod 2 ^ 32 * get (n key) 0 + u32 A) ==[2 ^ 32] 0).
  rewrite eqm_mod. transitivity (u32 A * (get (n key) 0 * n0inv key) + u32 A).
  { apply eqm_of_diff with 0. ring. }
  rewrite Hinv. apply eqm_of_diff with 0. ring.
Qed.

Section Montgomery.
Context (key : RSAPublicKey) (Hkey : key_wf key).

Let N := val (n key).
Let R := rad (len key).

Lemma N_pos : 0 < N < R.
Proof.
  destruct Hkey as [Hl [Hn Hln] _ _ _ Ht]. pose proof (val_bound _ Hn) as B.
  rewrite Hln in B. pose proof (rad_pos (len key)). unfold N, R in *. lia.
Qed.

(** The sum before the final subtraction is the exact quotient of
    [c + a b + d n] by [2^32], for the word [d] that makes it divisible. *)
Lemma mont_sum_spec c a b :
  digits c -> length c = len key -> digits b -> length b = len key -> 0 <= a < 2 ^ 32 ->
  let '(x, top) := mont_sum key c a b in
  digits x /\ length x = len key /\ 0 <= top < 2 /\
  exists d, 0 <= d < 2 ^ 32 /\ 2 ^ 32 * (val x + R * top) = val c + a * val b + d * N.
Proof.
  intros Hc Hlc Hb Hlb Ha. destruct Hkey as [Hl [Hn Hln] _ Hinv _ _].
  unfold N, R in *. unfold mont_sum.
  destruct (n key) as [|n0 n'] eqn:En; [simpl in Hln; lia|].
  destruct b as [|b0 b']; [simpl in Hlb; lia|]. destruct c as [|c0 c']; [simpl in Hlc; lia|].
  apply digits_cons in Hn as [Hn0 Hn'], Hb as [Hb0 Hb'], Hc as [Hc0 Hc'].
  simpl in Hln, Hlb, Hlc. cbn [get nth tl].
  pose proof (mul32_bound a b0 Ha Hb0).
  rewrite (u64_small (a * b0)), (u64_small (a * b0 + c0)) by lia.
  remember (a * b0 + c0) as A eqn:EA. remember (u32 A [*] n0inv key) as d0 eqn:Ed.
  assert (Hd : 0 <= d0 < 2 ^ 32) by (subst d0; apply u32_range).
  pose proof (mul32_bound d0 n0 Hd Hn0). pose proof (u32_range A) as HuA. unfold word in HuA.
  rewrite (u64_small (d0 * n0)), (u64_small (d0 * n0 + u32 A)) by lia.
  remember (d0 * n0 + u32 A) as B eqn:EB.
  pose proof (mont_loop_spec a d0 A B b' n' c' Ha Hd ltac:(lia) ltac:(lia) Hb' Hn' Hc'
                ltac:(lia) ltac:(lia)) as HL.
  destruct (mont_loop a d0 A B b' n' c') as [r [A' B']]. destruct HL as (Hr & Hlr & HA' & HB' & E).
  pose proof (shr_bound A' 32 HA' ltac:(lia)). pose proof (shr_bound B' 32 HB' ltac:(lia)).
  rewrite (u64_small ((A' >> 32) + (B' >> 32))) by lia.
  remember ((A' >> 32) + (B' >> 32)) as T eqn:ET.
  assert (HB0 : u32 B = 0).
  { rewrite EB. pose proof (low_word_cancels key A d0) as HC. rewrite En in HC. apply HC; auto. lia. }
  pose proof (u32_shr_split A). pose proof (u32_shr_split B). pose proof (u32_shr_split T).
  split; [apply words_app; [exact Hr|constructor; [apply u32_range|constructor]]|].
  split; [rewrite length_app; simpl; lia|].
  split; [apply (shr_bound T 1); lia|]. exists d0. split; [exact Hd|].
  rewrite val_app, Hlr, !val_cons, <- Hln, rad_S. change (val []) with 0. nia.
Qed.

(** Each step leaves an array below [R] that holds [(c + a b) / 2^32] modulo [N]. *)
Lemma montMulAdd_spec c a b :
  digits c -> length c = len key -> digits b -> length b = len key -> 0 <= a < 2 ^ 32 ->
  let r := montMulAdd key c a b in
  digits r /\ length r = len key /\ 2 ^ 32 * val r ==[N] val c + a * val b.
Proof.
  intros Hc Hlc Hb Hlb Ha. pose proof (mont_sum_spec c a b Hc Hlc Hb Hlb Ha) as H.
  unfold montMulAdd. destruct (mont_sum key c a b) as [x top].
  destruct H as (Hx & Hlx & Ht & d & Hd & E).
  destruct (Z.eqb_spec top 0) as [->|Hne].
  { repeat split; auto. apply eqm_of_diff with d. lia. }
  replace top with 1 in E by lia. destruct Hkey as [_ [Hn Hln] _ _ _ _].
  pose proof (sub_loop_val 0 x (n key) Hx Hn ltac:(lia) ltac:(lia)) as HS. unfold subM.
  destruct (sub_loop 0 x (n key)) as [s Bw]. destruct HS as (Hs & Hls & HSn & _). cbn [fst].
  pose proof (val_bound _ Hc) as Bc. pose proof (val_bound _ Hb) as Bb. pose proof N_pos as BN.
  rewrite Hlc in Bc. rewrite Hlb in Bb. rewrite Hlx in HSn.
  fold R in Bc, Bb, HSn. fold N in HSn.
  assert (a * val b <= (2 ^ 32 - 1) * (R - 1)) by nia.
  assert (d * N <= (2 ^ 32 - 1) * N) by nia.
  destruct HSn as [_ Ev]; [lia|]. split; [exact Hs|]. split; [congruence|]. rewrite Ev.
  apply eqm_of_diff with (d - 2 ^ 32). lia.
Qed.

(** [x] is an array of the key's size holding [z] modulo [N]. *)
Definition rep (x : list Z) (z : Z) : Prop :=
  digits x /\ length x = len key /\ val x ==[N] z.

Lemma mont_fold l c b :
  digits l -> digits c -> length c = len key -> digits b -> length b = len key ->
  let r := fold_left (fun c ai => montMulAdd key c ai b) l c in
  digits r /\ length r = len key /\ rad (length l) * val r ==[N] val c + val l * val b.
Proof.
  intros Hl. revert c. induction Hl as [|a l Ha Hl IH]; intros c Hc Hlc Hb Hlb; cbn [fold_left length].
  - repeat split; auto. apply eqm_of_diff with 0. change (rad 0) with 1. change (val []) with 0. ring.
  - destruct (montMulAdd_spec c a b Hc Hlc Hb Hlb Ha) as (H1 & H2 & E1).
    destruct (IH _ H1 H2 Hb Hlb) as (H3 & H4 & E2). repeat split; auto.
    rewrite rad_S, val_cons, <- Z.mul_assoc, E2, Z.mul_add_distr_l, E1.
    apply eqm_of_diff with 0. ring.
Qed.

Lemma montMul_spec x y :
  digits x -> length x = len key -> digits y -> length y = len key ->
  let r := montMul key x y in
  digits r /\ length r = len key /\ R * val r ==[N] val x * val y.
Proof.
  intros Hx Hlx Hy Hly. unfold montMul. rewrite firstn_all2 by lia.
  destruct (mont_fold x (repeat 0 (len key)) y Hx) as (H1 & H2 & E); auto.
  - apply Forall_forall. intros z Hz. apply repeat_spec in Hz. subst z. split; lia.
  - apply repeat_length.
  - unfold val at 2 in E. rewrite eval_repeat0, Hlx in E. repeat split; auto.
Qed.

(** The modulus is odd, so [R] has an inverse. *)
Lemma R_invertible : exists R', R * R' ==[N] 1.
Proof.
  destruct Hkey as [Hl [Hn Hln] _ Hinv _ _].
  assert (H : exists W, 2 ^ 32 * W ==[N] 1).
  { apply eqm_diff in Hinv as [k Hk]; [|lia]. unfold N.
    destruct (n key) as [|n0 n']; [simpl in Hln; lia|]. cbn [get nth] in Hk.
    exists (k + val n' * n0inv key). apply eqm_of_diff with (n0inv key). rewrite val_cons. lia. }
  destruct H as [W HW]. exists (W ^ Z.of_nat (len key)).
  unfold R, rad. rewrite Z.pow_mul_r, <- Z.pow_mul_l by lia.
  rewrite (eqm_pow _ _ _ _ HW). now rewrite Z.pow_1_l by lia.
Qed.

Lemma rep_mul R' x y a b :
  R * R' ==[N] 1 -> rep x a -> rep y b -> rep (montMul key x y) (a * b * R').
Proof.
  intros HR (Hx & Hlx & Ex) (Hy & Hly & Ey).
  destruct (montMul_spec x y Hx Hlx Hy Hly) as (H1 & H2 & E). repeat split; auto.
  apply eqm_cancel with R R'; [exact HR|]. rewrite E, Ex, Ey.
  transitivity (a * b * (R * R')); [rewrite HR; apply eqm_of_diff with 0; ring|].
  apply eqm_of_diff with 0. ring.
Qed.

Lemma rep_weaken x a b : rep x a -> a ==[N] b -> rep x b.
Proof. intros (H1 & H2 & E) Hab. repeat split; auto. now rewrite E. Qed.

(** Products of Montgomery forms, and the way out of Montgomery form. *)
Lemma rep_mont_mul R' x y a b :
  R * R' ==[N] 1 -> rep x (a * R) -> rep y (b * R) -> rep (montMul key x y) (a * b * R).
Proof.
  intros HR Hx Hy. eapply rep_weaken; [apply (rep_mul R' _ _ _ _ HR Hx Hy)|].
  transitivity (a * b * R * (R * R')); [apply eqm_of_diff with 0; ring|].
  rewrite HR. apply eqm_of_diff with 0. ring.
Qed.

Lemma rep_leave R' x y a b :
  R * R' ==[N] 1 -> rep x (a * R) -> rep y b -> rep (montMul key x y) (a * b).
Proof.
  intros HR Hx Hy. eapply rep_weaken; [apply (rep_mul R' _ _ _ _ HR Hx Hy)|].
  transitivity (a * b * (R * R')); [apply eqm_of_diff with 0; ring|].
  rewrite HR. apply eqm_of_diff with 0. ring.
Qed.

Lemma rep_enter R' x a :
  R * R' ==[N] 1 -> rep x a -> rep (montMul key x (rr key)) (a * R).
Proof.
  intros HR Hx. destruct Hkey as [_ _ [Hr Hlr] _ Err _].
  eapply rep_weaken; [apply (rep_mul R' _ (rr key) _ (R ^ 2) HR Hx)|].
  - repeat split; assumption.
  - transitivity (a * R * (R * R')); [apply eqm_of_diff with 0; ring|].
    rewrite HR. apply eqm_of_diff with 0. ring.
Qed.

Lemma rep_square16 R' x a :
  R * R' ==[N] 1 -> rep x (a * R) -> rep (square16 key x) (a ^ 65536 * R).
Proof.
  intros HR Hx. unfold square16.
  assert (H : forall k, rep (fold_left (fun aR _ => let aaR := montMul key aR aR in montMul key aaR aaR)
                               (seq 0 k) x) (a ^ (4 ^ Z.of_nat k) * R)).
  { induction k as [|k IH]; [cbn [seq fold_left]; now rewrite Z.pow_0_r, Z.pow_1_r|].
    rewrite seq_S, fold_left_app. cbn [fold_left].
    pose proof (rep_mont_mul R' _ _ _ _ HR IH IH) as H2.
    pose proof (rep_mont_mul R' _ _ _ _ HR H2 H2) as H4.
    rewrite Nat2Z.inj_succ, Z.pow_succ_r by lia.
    replace (4 * 4 ^ Z.of_nat k) with (4 ^ Z.of_nat k + 4 ^ Z.of_nat k + (4 ^ Z.of_nat k + 4 ^ Z.of_nat k)) by ring.
    rewrite !Z.pow_add_r by lia. exact H4. }
  apply (H 8%nat).
Qed.

(** [aaa] is at most one modulus too large. *)
Lemma final_reduce x a :
  rep x a ->
  let r := if geM key x then subM key x else x in
  digits r /\ length r = len key /\ val r = a mod N.
Proof.
  intros (Hx & Hlx & Ex). pose proof N_pos as HN. destruct Hkey as [_ [Hn Hln] _ _ _ Ht].
  pose proof (val_bound x Hx) as Bx. rewrite Hlx in Bx. fold R in Bx, Ht. fold N in Ht.
  unfold geM. rewrite ge_loop_spec by (auto; lia).
  rewrite !firstn_all2 by lia. fold N. unfold eqm in Ex.
  destruct (Z.leb_spec N (val x)) as [Hge|Hlt].
  - pose proof (sub_loop_val 0 x (n key) Hx Hn ltac:(lia) ltac:(lia)) as HS. unfold subM.
    destruct (sub_loop 0 x (n key)) as [s Bw]. destruct HS as (Hs & Hls & _ & HSp). fold N in HSp.
    cbn [fst]. destruct HSp as [_ Ev]; [lia|]. split; [exact Hs|]. split; [congruence|].
    rewrite <- Ex, Ev. apply Z.mod_unique with 1; lia.
  - split; [exact Hx|]. split; [exact Hlx|]. rewrite <- Ex. symmetry. apply Z.mod_small. lia.
Qed.

Lemma modpow_spec inout :
  length inout = (4 * len key)%nat -> bytes inout -> exponent key = 3 \/ exponent key = 65537 ->
  modpow key inout = Some (be_bytes (4 * len key) (be_value inout ^ exponent key mod N)).
Proof.
  intros Hl Hb He. destruct R_invertible as [R' HR].
  destruct (be_digits_val (len key) inout Hl Hb) as [Hd Ev]. unfold modpow.
  set (a := map (be_digit inout (len key)) (seq 0 (len key))) in *. set (A := be_value inout) in *.
  assert (Ha : rep a A)
    by (split; [exact Hd|split; [unfold a; now rewrite length_map, length_seq|now rewrite Ev]]).
  pose proof (rep_enter R' a A HR Ha) as HaR.
  destruct He as [->| ->]; cbn [Z.eqb Pos.eqb].
  - pose proof (rep_mont_mul R' _ _ _ _ HR HaR HaR) as H2.
    destruct (final_reduce _ _ (rep_leave R' _ _ _ _ HR H2 Ha)) as (H3 & H4 & E).
    cbv zeta in *. rewrite be_of_digits_spec, H4, E by exact H3. do 3 f_equal. ring.
  - pose proof (rep_square16 R' _ _ HR HaR) as H2.
    destruct (final_reduce _ _ (rep_leave R' _ _ _ _ HR H2 Ha)) as (H3 & H4 & E).
    cbv zeta in *. rewrite be_of_digits_spec, H4, E by exact H3. do 2 f_equal.
    change 65537 with (Z.succ 65536). rewrite Z.pow_succ_r by lia. f_equal. ring.
Qed.

End Montgomery.

(** On a well-formed key with exponent 3 or 65537, [modpow] replaces a big
    endian number of the key's size by its [e]-th power modulo [n], fully reduced
    and again big endian, although the Montgomery products it chains are only kept
    below [R]. *)
Theorem modpow_correct key inout :
  key_wf key -> length inout = (4 * len key)%nat -> bytes inout ->
  exponent key = 3 \/ exponent key = 65537 ->
  modpow key inout
  = Some (be_bytes (4 * len key) (be_value inout ^ exponent key mod val (n key))).
Proof. exact (fun Hk => modpow_spec key Hk inout). Qed.

(** A one-word key, n = 4294967291. *)
Definition tiny_key : RSAPublicKey :=
  mkRSAPublicKey 1 3435973837 [4294967291] [25] 65537.

Lemma tiny_key_wf : key_wf tiny_key.
Proof.
  split.
  - cbn. lia.
  - split; [|reflexivity]. constructor; [unfold word; lia|constructor].
  - split; [|reflexivity]. constructor; [unfold word; lia|constructor].
  - reflexivity.
  - reflexivity.
  - vm_compute. discriminate.
Qed.

Lemma modpow_correct_witness :
  key_wf tiny_key /\ modpow tiny_key [1; 2; 3; 4] = Some (be_bytes 4 (16909060 ^ 65537 mod 4294967291)).
Proof.
  split; [exact tiny_key_wf|].
  apply (modpow_correct tiny_key [1; 2; 3; 4] tiny_key_wf).
  - reflexivity.
  - repeat constructor; discriminate.
  - right. reflexivity.
Defined.

(** * The padding check *)

(** PKCS #1 v1.5: [EM = 00 01 FF ... FF 00 T H], with [T] the DigestInfo header
    (RFC 8017, section 9.2). *)
Definition digest_info (hash_len : nat) : list Z :=
  if (hash_len =? 20)%nat
  then [0x30; 0x21; 0x30; 0x09; 0x06; 0x05; 0x2b; 0x0e; 0x03; 0x02; 0x1a; 0x05; 0x00; 0x04; 0x14]
  else [0x30; 0x31; 0x30; 0x0d; 0x06; 0x09; 0x60; 0x86; 0x48; 0x01; 0x65; 0x03; 0x04; 0x02; 0x01;
        0x05; 0x00; 0x04; 0x20].

Definition em_head (hash_len : nat) : list Z :=
  let T := digest_info hash_len in
  [0; 1] ++ repeat 0xff (RSANUMBYTES - 3 - length T - hash_len) ++ [0] ++ T.

Definition EM (H : list Z) : list Z := em_head (length H) ++ H.

Definition digest (hash_len : nat) (m : list Z) : list Z :=
  if (hash_len =? 20)%nat then Fips.sha1 m else Fips256.sha256 m.

Definition padding (hash_len : nat) : list Z := em_head hash_len ++ repeat 0 hash_len.

Definition expected (hash_len : nat) : list Z :=
  if (hash_len =? 20)%nat then kExpectedPadShaRsa2048 else kExpectedPadSha256Rsa2048.

Lemma sha_padding_em : sha_padding = padding 20.
Proof. reflexivity. Qed.

Lemma sha256_padding_em : sha256_padding = padding 32.
Proof. reflexivity. Qed.

(** The constants in the code are the digests of the padded blocks. *)
Lemma expected_digest hash_len :
  hash_len = 20%nat \/ hash_len = 32%nat -> digest hash_len (padding hash_len) = expected hash_len.
Proof.
  intros [->| ->]; unfold digest, expected; cbn [Nat.eqb].
  - rewrite <- (SHA_hash_sha1 blank_ctx) by (split; reflexivity). vm_compute. reflexivity.
  - rewrite <- (SHA256_hash_sha256 blank_ctx) by (split; reflexivity). vm_compute. reflexivity.
Qed.

Definition xor_bytes (a b : list Z) : list Z := map (fun '(x, y) => x .^ y) (combine a b).

Lemma xor_from_spec pre rest hash :
  length rest = length hash ->
  xor_from (pre ++ rest) (length pre) hash = pre ++ xor_bytes rest hash.
Proof.
  revert pre rest. induction hash as [|h hash IH]; intros pre [|x rest] Hl; try discriminate.
  - reflexivity.
  - cbn [xor_from]. unfold get. rewrite nth_middle, set_app_exact.
    change (pre ++ (x .^ h) :: rest) with (pre ++ [x .^ h] ++ rest). rewrite app_assoc.
    replace (S (length pre)) with (length (pre ++ [x .^ h])) by (rewrite length_app; simpl; lia).
    rewrite IH by (simpl in Hl; lia). now rewrite <- app_assoc.
Qed.

Lemma xor_bytes_zero a b :
  length a = length b -> (xor_bytes a b = repeat 0 (length b) <-> a = b).
Proof.
  unfold xor_bytes. revert b. induction a as [|x a IH]; intros [|y b] Hl; try discriminate; [tauto|].
  simpl in Hl. cbn [combine map length repeat]. split; intros H; injection H as H1 H2.
  - apply Z.lxor_eq in H1. subst y. f_equal. apply IH; [lia|exact H2].
  - subst y a. rewrite Z.lxor_nilpotent. f_equal. apply IH; [lia|reflexivity].
Qed.

Lemma bytes_equal_spec k a b :
  (k <= length a)%nat -> (k <= length b)%nat ->
  bytes_equal k a b = true <-> firstn k a = firstn k b.
Proof.
  revert a b. induction k as [|k IH]; intros [|x a] [|y b] Ha Hb; simpl in Ha, Hb;
    try lia; try (cbn; tauto).
  cbn [bytes_equal firstn]. destruct (Z.eqb_spec x y) as [->|Hxy].
  - rewrite IH by lia. split; [congruence|]. now intros [= ->].
  - split; [discriminate|]. intros [= -> _]. contradiction.
Qed.

Lemma digest_length hash_len m :
  hash_len = 20%nat \/ hash_len = 32%nat -> length (digest hash_len m) = hash_len.
Proof. intros [->| ->]; [apply sha1_length|apply sha256_length]. Qed.

Lemma em_head_length hash_len :
  hash_len = 20%nat \/ hash_len = 32%nat -> length (em_head hash_len) = (RSANUMBYTES - hash_len)%nat.
Proof. intros [->| ->]; reflexivity. Qed.

Lemma padding_length hash_len :
  hash_len = 20%nat \/ hash_len = 32%nat -> length (padding hash_len) = RSANUMBYTES.
Proof. intros [->| ->]; reflexivity. Qed.

(** What [RSA_verify] computes once its guards have passed: the digest of the
    recovered block with the expected hash xor-ed out. *)
Definition masked (em hash : list Z) : list Z :=
  firstn (RSANUMBYTES - length hash) em ++
  xor_bytes (skipn (RSANUMBYTES - length hash) em) hash.

Lemma masked_length em hash :
  length em = RSANUMBYTES -> (length hash <= RSANUMBYTES)%nat -> length (masked em hash) = RSANUMBYTES.
Proof.
  intros He Hh. unfold masked, xor_bytes.
  rewrite length_app, length_map, length_combine, length_firstn, length_skipn. lia.
Qed.

Lemma RSA_verify_masked ctx key signature hash :
  ctx_wf ctx -> key_wf key -> len key = RSANUMWORDS -> length signature = RSANUMBYTES -> bytes signature ->
  length hash = 20%nat \/ length hash = 32%nat -> exponent key = 3 \/ exponent key = 65537 ->
  let em := be_bytes RSANUMBYTES (be_value signature ^ exponent key mod val (n key)) in
  RSA_verify ctx key signature RSANUMBYTES hash (length hash) = true
  <-> digest (length hash) (masked em hash) = expected (length hash).
Proof.
  intros Hc Hk Hlen Hsl Hsb Hh He em. unfold RSA_verify.
  rewrite Hlen, !Nat.eqb_refl. cbn [negb].
  replace (negb (exponent key =? 3) && negb (exponent key =? 65537)) with false
    by (destruct He as [->| ->]; reflexivity).
  rewrite (firstn_all2 signature), modpow_spec, Hlen by (auto; rewrite ?Hlen, Hsl; reflexivity || lia).
  change (4 * RSANUMWORDS)%nat with RSANUMBYTES. fold em. rewrite (firstn_all2 hash) by lia.
  assert (Hem : length em = RSANUMBYTES) by apply be_bytes_length.
  assert (Hle : (length hash <= RSANUMBYTES)%nat) by (unfold RSANUMBYTES; lia).
  replace (xor_from em (RSANUMBYTES - length hash) hash) with (masked em hash).
  2: { unfold masked. rewrite <- xor_from_spec by (rewrite length_skipn; lia).
       rewrite firstn_skipn. f_equal. rewrite length_firstn. lia. }
  pose proof (masked_length em hash Hem Hle) as Hm. set (b := masked em hash) in *.
  assert (Hd := digest_length (length hash) b Hh).
  assert (Hcmp : forall x, x = digest (length hash) b ->
    bytes_equal (length hash) (blit b 0 x) (expected (length hash)) = true <->
    digest (length hash) b = expected (length hash)).
  { intros x ->. assert (Hx : length (expected (length hash)) = length hash) by (destruct Hh as [-> | ->]; reflexivity).
    assert (Hbl : length (blit b 0 (digest (length hash) b)) = length b) by (apply blit_length; lia).
    rewrite bytes_equal_spec by lia.
    rewrite (firstn_all2 (expected _)) by lia.
    pose proof (blit_firstn b 0 (digest (length hash) b)) as Hb. rewrite Hd in Hb.
    cbn [Nat.add firstn app] in Hb. rewrite Hb by lia. reflexivity. }
  destruct Hh as [E|E]; rewrite E in *; cbn [Nat.eqb negb andb SHA_DIGEST_SIZE SHA256_DIGEST_SIZE];
    apply Hcmp; [apply SHA_hash_sha1|apply SHA256_hash_sha256]; exact Hc.
Qed.

(** The guards. *)
Lemma RSA_verify_guards ctx key signature hash :
  RSA_verify ctx key signature (length signature) hash (length hash) = true ->
  len key = RSANUMWORDS /\ length signature = RSANUMBYTES /\
  (length hash = 20%nat \/ length hash = 32%nat) /\ (exponent key = 3 \/ exponent key = 65537).
Proof.
  intros G. unfold RSA_verify in G.
  destruct (Nat.eqb_spec (len key) RSANUMWORDS) as [Hlen|]; [|discriminate].
  destruct (Nat.eqb_spec (length signature) RSANUMBYTES) as [Hsl|]; [|discriminate].
  assert (Hh : length hash = 20%nat \/ length hash = 32%nat).
  { destruct (Nat.eqb_spec (length hash) SHA_DIGEST_SIZE); [auto|].
    destruct (Nat.eqb_spec (length hash) SHA256_DIGEST_SIZE); [auto|discriminate]. }
  repeat split; auto.
  destruct (Z.eqb_spec (exponent key) 3); [auto|]. destruct (Z.eqb_spec (exponent key) 65537); [auto|].
  destruct Hh as [E | E]; rewrite E in G; discriminate.
Qed.

Lemma masked_padding em hash :
  length em = RSANUMBYTES -> length hash = 20%nat \/ length hash = 32%nat ->
  (masked em hash = padding (length hash) <-> em = EM hash).
Proof.
  intros He Hh. unfold masked, padding, EM.
  pose proof (em_head_length _ Hh) as Hl.
  assert (Hs : length (skipn (RSANUMBYTES - length hash) em) = length hash)
    by (rewrite length_skipn; unfold RSANUMBYTES in *; lia).
  split; intros H.
  - rewrite <- (firstn_skipn (RSANUMBYTES - length hash) em). apply app_inj_len in H as [-> H].
    + f_equal. exact (proj1 (xor_bytes_zero _ _ Hs) H).
    + rewrite length_firstn. unfold RSANUMBYTES in *. lia.
  - rewrite H, <- Hl. rewrite firstn_app, Nat.sub_diag, firstn_O, app_nil_r, firstn_all.
    rewrite skipn_app, Nat.sub_diag, skipn_O, skipn_all. f_equal. now apply xor_bytes_zero.
Qed.



(** ** A 2048-bit instance *)

Definition to_digits (k : nat) (z : Z) : list Z :=
  map (fun i => (z >> (32 * Z.of_nat i)) mod 2 ^ 32) (seq 0 k).

Definition demo_n : Z := 0xb39aebc7c17d3cd199fc302059fce08456d0525dfb60a4ffc1b3de9e1815d098d82814a72589768d665ad05dd40f9b8f672f9ea967b733dbb76a8c682c44e5b4aac0b198e5e1e2146ff67b7edd3e079d58f40bf94c56ae5978aec103484bdd86aa52dd7872c38ed2b15f4a8fd4252df942e78a14c8bacb9f18df4a7c7fc59a798c801d741f03b9941a9b08edae2dc2fe9e6ed522d83c97641fba97e8a6fbd98b83f8de3f4081e0d6075a2c5fd34d8ce04093b883f8a5f41b28f4e83c9b843d83354d049f1fe4427c63e84727d43c665c969077a1b0d7d09ef26aee457d75c3978d21882ad7e83e51c7cadefaa320ed699c007ef00ec897562d1dabe9bcea1c51.
Definition demo_rr : Z := 0x8089b5c0c4a745d04124b1e4e3a38a3ba8634b3eb03e0c23a25bfc7828d28a6e5e661343a29880cbe29e56f4c44dc297b2dd97a319a02797b03790de253b6ec32c1ee5fa15a1aabd3ea9ec3c28996c2c41bde5a8048c8bc118eb42a59972ce482d0316eb34bc1c184e3f6db3df6e0936bab9355a0e5e51f04787868480a7daa7663b297f6ae9d1b28c536a45f5edf13ff75f6ea2261152e00230cbccb0a59346d28f7dd1f1b31cce0fb3c3000a4b5bd217661bf60f7b9d2bcad250f29fb5146f5835e088940f1546e9bc2fd528ada5f2d60f3756d6c6aaa1137eb4c5385a43f3dbbd28c704265a38b3e1b859c13d964157700da82e02064544b220af026b0648.
Definition demo_sig : Z := 0x6adbd461fd794296655467ef19d67d15bde00590f0f7b2da17eeb3445b01e5bfe722b2114f67c50ad69d600a578b2e9023d04a32467af56f24dfa9bff7a9469fcef298b2118d165a3dfb5b3fe405f71c1448a380f82ba085d660faf522b4ac8cfbbf1e078c4c053e7f0b9aab155b40a444266651d343ee518ed552270a879fd0868e6eaa4f7ba74fbb44fb25cfc7362f7fc0a96e776e36fc88659ca91629b8b48242c993f2d9aa5665237578ddbc72c181cc7ae70be8ad07984f955b727ff00c01066ff23d4768ca0f049cf19f7c7fac593f32911454aee178e5a09bbc4d0001a635e3e2fe5caa1a9f787f7de1fc70c5aee3e3ce17c19189a205be442553606.

Definition demo_key : RSAPublicKey :=
  mkRSAPublicKey 64 0x35a3534f (to_digits 64 demo_n) (to_digits 64 demo_rr) 3.

(** A signature of the SHA-1 digest of "abc". *)
Definition demo_signature : list Z := be_bytes 256 demo_sig.
Definition demo_hash : list Z := be_bytes 20 0xa9993e364706816aba3e25717850c26c9cd0d89d.

Lemma to_digits_digits k z : digits (to_digits k z).
Proof. apply Forall_forall. intros x Hx. apply in_map_iff in Hx as (i & <- & _). apply u32_range. Qed.

Lemma to_digits_length k z : length (to_digits k z) = k.
Proof. unfold to_digits. now rewrite length_map, length_seq. Qed.

Lemma demo_n_val : val (n demo_key) = demo_n.
Proof. vm_compute. reflexivity. Qed.

Lemma demo_key_wf : key_wf demo_key.
Proof.
  split.
  - cbn. lia.
  - split; [apply to_digits_digits|apply to_digits_length].
  - split; [apply to_digits_digits|apply to_digits_length].
  - vm_compute. reflexivity.
  - rewrite demo_n_val. vm_compute. reflexivity.
  - rewrite demo_n_val. vm_compute. discriminate.
Qed.




(** C2: [RSA_verify] accepts exactly when all of this holds: the key has 64 words and the
    exponent 3 or 65537, the signature has 256 bytes, the hash has 20 or 32 bytes, and
    the block that is recovered, [signature^e mod n], is the PKCS #1 v1.5 encoding of the
    hash, or else this very block with the hash xor-ed out is a second preimage of the
    padding under the hash function.  Nothing else is lost by comparing digests instead
    of bytes.  The key is taken to be well formed (an odd modulus of full length with its
    precomputed values). *)
Theorem RSA_verify_exact ctx key signature hash :
  ctx_wf ctx -> key_wf key -> bytes signature ->
  let block := be_bytes RSANUMBYTES (be_value signature ^ exponent key mod val (n key)) in
  RSA_verify ctx key signature (length signature) hash (length hash) = true <->
  len key = RSANUMWORDS /\ length signature = RSANUMBYTES /\
  (length hash = 20%nat \/ length hash = 32%nat) /\ (exponent key = 3 \/ exponent key = 65537) /\
  (block = EM hash \/
   masked block hash <> padding (length hash) /\
   digest (length hash) (masked block hash) = digest (length hash) (padding (length hash))).
Proof.
  intros Hc Hk Hsb block. assert (Hbl : length block = RSANUMBYTES) by apply be_bytes_length. split.
  - intros H. destruct (RSA_verify_guards _ _ _ _ H) as (Hlen & Hsl & Hh & He). rewrite Hsl in H.
    apply RSA_verify_masked in H; auto. fold block in H. rewrite <- expected_digest in H by exact Hh. repeat split; auto.
    destruct (list_eq_dec Z.eq_dec (masked block hash) (padding (length hash))) as [E|E]; [left; now apply masked_padding in E|right; now split].
  - intros (Hlen & Hsl & Hh & He & Hb). rewrite Hsl. apply RSA_verify_masked; auto. fold block. rewrite <- expected_digest by exact Hh.
    destruct Hb as [E|[_ E]]; [|exact E]. now rewrite (proj2 (masked_padding block hash Hbl Hh) E).
Qed.

Lemma RSA_verify_exact_witness :
  let block := be_bytes RSANUMBYTES (be_value demo_signature ^ exponent demo_key mod val (n demo_key)) in
  RSA_verify blank_ctx demo_key demo_signature (length demo_signature) demo_hash (length demo_hash) = true <->
  len demo_key = RSANUMWORDS /\ length demo_signature = RSANUMBYTES /\
  (length demo_hash = 20%nat \/ length demo_hash = 32%nat) /\ (exponent demo_key = 3 \/ exponent demo_key = 65537) /\
  (block = EM demo_hash \/
   masked block demo_hash <> padding (length demo_hash) /\
   digest (length demo_hash) (masked block demo_hash) = digest (length demo_hash) (padding (length demo_hash))).
Proof.
  apply (RSA_verify_exact blank_ctx demo_key demo_signature demo_hash); [split; reflexivity|exact demo_key_wf|apply be_bytes_bytes].
Defined.
