(* ===== verification/P256.v ===== *)
(** 256-bit integers: src/libmincrypt/p256.c and include/mincrypt/p256.h.

    A [p256_int] is the list of its eight 32-bit digits, least significant first.
    Loops over the digits are recursions on the lists; [assert] is a value of
    [option] type ([None] when it fails), and the unbounded loop of
    [p256_modinv_vartime] takes fuel. *)
From Stdlib Require Import ZArith List Lia Bool.
From S2P Require Import Prelude Bignum.
Import ListNotations.

Definition P256_BITSPERDIGIT : Z := 32.
Definition P256_NDIGITS : nat := 8.
Definition P256_NBYTES : nat := 32.

(** [0xffffffff] is the [-1] of the initialisers. *)
Definition SECP256r1_n : list Z :=
  [0xfc632551; 0xf3b9cac2; 0xa7179e84; 0xbce6faad; 0xffffffff; 0xffffffff; 0; 0xffffffff].
Definition SECP256r1_p : list Z :=
  [0xffffffff; 0xffffffff; 0xffffffff; 0; 0; 0; 1; 0xffffffff].
Definition SECP256r1_b : list Z :=
  [0x27d2604b; 0x3bce3c3e; 0xcc53b0f6; 0x651d06b0;
   0x769886bc; 0xb3ebbd55; 0xaa3a93e7; 0x5ac635d8].

Definition P256_ZERO : list Z := [0; 0; 0; 0; 0; 0; 0; 0].
Definition P256_ONE : list Z := [1; 0; 0; 0; 0; 0; 0; 0].

Definition p256_init : list Z := repeat 0 P256_NDIGITS.
Definition p256_clear : list Z := p256_init.

Definition p256_get_bit (scalar : list Z) (bit : nat) : Z :=
  (get scalar (bit / 32) >> (Z.of_nat bit .& (P256_BITSPERDIGIT - 1))) .& 1.

Definition p256_is_zero (a : list Z) : bool := fold_left Z.lor a 0 =? 0.

(** [carry += *c; carry += a[i] * b; *c++ = carry; carry >>= 32] *)
Fixpoint mulAdd_loop (carry : Z) (a : list Z) (b : Z) (c : list Z) : list Z * Z :=
  match a, c with
  | x :: a', y :: c' =>
      let carry := u64 (carry + y) in
      let carry := u64 (carry + u64 (x * b)) in
      let '(r, k) := mulAdd_loop (carry >> P256_BITSPERDIGIT) a' b c' in
      (u32 carry :: r, k)
  | _, _ => ([], carry)
  end.

(** The new [c] and the new top. *)
Definition mulAdd (a : list Z) (b top : Z) (c : list Z) : list Z * Z :=
  let '(r, carry) := mulAdd_loop 0 a b c in (r, top [+] u32 carry).

(** [borrow += *c; borrow -= f(y); *c++ = borrow; borrow >>= 32] *)
Fixpoint borrow_loop (borrow : Z) (c a : list Z) : list Z * Z :=
  match c, a with
  | x :: c', y :: a' =>
      let borrow := i64 (borrow + x) in
      let borrow := i64 (borrow - y) in
      let '(r, k) := borrow_loop (borrow >> P256_BITSPERDIGIT) c' a' in
      (u32 borrow :: r, k)
  | _, _ => ([], borrow)
  end.

Definition subTop (top_a : Z) (a : list Z) (top_c : Z) (c : list Z) : option (list Z * Z) :=
  let '(r, borrow) := borrow_loop 0 c a in
  let borrow := i64 (borrow + top_c) in
  let borrow := i64 (borrow - top_a) in
  if borrow >> P256_BITSPERDIGIT =? 0 then Some (r, u32 borrow) else None.

Definition subM (MOD : list Z) (top : Z) (c : list Z) (mask : Z) : list Z * Z :=
  let '(r, borrow) := borrow_loop 0 c (map (fun y => y .& mask) MOD) in
  (r, top [+] u32 borrow).

(** [carry += *c; carry += y; *c++ = carry; carry >>= 32] *)
Fixpoint carry_loop (carry : Z) (c a : list Z) : list Z * Z :=
  match c, a with
  | x :: c', y :: a' =>
      let carry := u64 (carry + x) in
      let carry := u64 (carry + y) in
      let '(r, k) := carry_loop (carry >> P256_BITSPERDIGIT) c' a' in
      (u32 carry :: r, k)
  | _, _ => ([], carry)
  end.

Definition addM (MOD : list Z) (top : Z) (c : list Z) (mask : Z) : list Z * Z :=
  let '(r, carry) := carry_loop 0 c (map (fun y => y .& mask) MOD) in
  (r, top [+] u32 carry).

(** The eight digits at [tmp + i]. *)
Definition window (tmp : list Z) (i : nat) : list Z := firstn P256_NDIGITS (skipn i tmp).

(** One row of the schoolbook product: [if (i) tmp[i + 7] = top; top = mulAdd(...)]. *)
Definition mul_row (a : list Z) (st : list Z * Z) (i : nat) (d : Z) : list Z * Z :=
  let '(tmp, top) := st in
  let tmp := if (i =? 0)%nat then tmp else set tmp (i + P256_NDIGITS - 1) top in
  let '(r, top) := mulAdd a d 0 (window tmp i) in
  (blit tmp i r, top).

(** One iteration of the reduction: the new [tmp] and the next top digit. *)
Definition reduce_row (MOD : list Z) (st : option (list Z * Z)) (i : nat) : option (list Z * Z) :=
  match st with
  | None => None
  | Some (tmp, top) =>
      let '(reducer, top_reducer) := mulAdd MOD top 0 (repeat 0 P256_NDIGITS) in
      match subTop top_reducer reducer top (window tmp i) with
      | None => None
      | Some (r, top) =>
          let tmp := blit tmp i r in
          if negb (top <=? 1) then None else
          let '(r, top) := subM MOD top (window tmp i) (u32 (Z.lnot (u32 (top - 1)))) in
          let tmp := blit tmp i r in
          if negb (top =? 0) then None else Some (tmp, get tmp (i + P256_NDIGITS - 1))
      end
  end.

(** [addM(MOD, 0, tmp, subM(MOD, 0, tmp, -1))] on the low eight digits. *)
Definition final_sub (MOD c : list Z) : list Z :=
  let '(c, mask) := subM MOD 0 c 0xffffffff in fst (addM MOD 0 c mask).

(** [c = a * (top_b, b) mod MOD] *)
Definition p256_modmul (MOD a : list Z) (top_b : Z) (b : list Z) : option (list Z) :=
  let st := fold_left (fun st i => mul_row a st i (get b i)) (seq 0 P256_NDIGITS)
              (repeat 0 (P256_NDIGITS * 2 + 1), 0) in
  let st := mul_row a st P256_NDIGITS top_b in
  match fold_left (reduce_row MOD) (rev (seq 0 (S P256_NDIGITS))) (Some st) with
  | None => None
  | Some (tmp, _) => Some (final_sub MOD (window tmp 0))
  end.

Definition p256_is_odd (a : list Z) : bool := negb (get a 0 .& 1 =? 0).
Definition p256_is_even (a : list Z) : bool := get a 0 .& 1 =? 0.

(** For [n] not a multiple of 32, where the shifts by [32 - n] are defined. *)
Definition p256_shl (a : list Z) (n : Z) : list Z * Z :=
  let top := get a (P256_NDIGITS - 1) in
  let n := Z.rem n P256_BITSPERDIGIT in
  let b := map (fun i => match i with
                         | O => get a 0 [<<] n
                         | S j => (get a i [<<] n) .| (get a j >> (P256_BITSPERDIGIT - n))
                         end) (seq 0 P256_NDIGITS) in
  (b, u32 (u64 (top << n) >> P256_BITSPERDIGIT)).

Definition p256_shr (a : list Z) (n : Z) : list Z :=
  let n := Z.rem n P256_BITSPERDIGIT in
  map (fun i => (get a i >> n) .| (get a (S i) [<<] (P256_BITSPERDIGIT - n))) (seq 0 (P256_NDIGITS - 1))
  ++ [get a (P256_NDIGITS - 1) >> n].

Definition p256_shr1 (a : list Z) (highbit : Z) : list Z :=
  map (fun i => (get a i >> 1) .| (get a (S i) [<<] (P256_BITSPERDIGIT - 1))) (seq 0 (P256_NDIGITS - 1))
  ++ [(get a (P256_NDIGITS - 1) >> 1) .| (highbit [<<] (P256_BITSPERDIGIT - 1))].

(** The borrow and the "any digit not zero" flag. *)
Fixpoint cmp_loop (borrow notzero : Z) (a b : list Z) : Z * Z :=
  match a, b with
  | x :: a', y :: b' =>
      let borrow := i64 (borrow + (x - y)) in
      let notzero := notzero .| (if u32 borrow =? 0 then 0 else 1) in
      cmp_loop (borrow >> P256_BITSPERDIGIT) notzero a' b'
  | _, _ => (borrow, notzero)
  end.

Definition p256_cmp (a b : list Z) : Z :=
  let '(borrow, notzero) := cmp_loop 0 0 a b in i32 borrow .| notzero.

(** [borrow += a[i] - b[i]; c[i] = borrow; borrow >>= 32] *)
Fixpoint psub_loop (borrow : Z) (a b : list Z) : list Z * Z :=
  match a, b with
  | x :: a', y :: b' =>
      let borrow := i64 (borrow + (x - y)) in
      let '(r, k) := psub_loop (borrow >> P256_BITSPERDIGIT) a' b' in
      (u32 borrow :: r, k)
  | _, _ => ([], borrow)
  end.

(** The difference and the returned borrow. *)
Definition p256_sub (a b : list Z) : list Z * Z :=
  let '(r, borrow) := psub_loop 0 a b in (r, i32 borrow).

Fixpoint padd_loop (carry : Z) (a b : list Z) : list Z * Z :=
  match a, b with
  | x :: a', y :: b' =>
      let carry := u64 (carry + u64 (x + y)) in
      let '(r, k) := padd_loop (carry >> P256_BITSPERDIGIT) a' b' in
      (u32 carry :: r, k)
  | _, _ => ([], carry)
  end.

Definition p256_add (a b : list Z) : list Z * Z :=
  let '(r, carry) := padd_loop 0 a b in (r, i32 carry).

Fixpoint add_d_loop (carry : Z) (a : list Z) : list Z * Z :=
  match a with
  | x :: a' =>
      let carry := u64 (carry + x) in
      let '(r, k) := add_d_loop (carry >> P256_BITSPERDIGIT) a' in
      (u32 carry :: r, k)
  | [] => ([], carry)
  end.

Definition p256_add_d (a : list Z) (d : Z) : list Z * Z :=
  let '(r, carry) := add_d_loop d a in (r, i32 carry).

Definition p256_mod (MOD inp : list Z) : list Z := final_sub MOD inp.

(** [if (is_even(X)) X >>= 1; else X = (X + MOD) / 2;] *)
Definition half_mod (MOD X : list Z) : list Z :=
  if p256_is_even X then p256_shr1 X 0
  else let '(Y, carry) := p256_add X MOD in p256_shr1 Y carry.

(** [if (p256_sub(&X, &Y, &X)) p256_add(&X, MOD, &X);] *)
Definition sub_mod (MOD X Y : list Z) : list Z :=
  let '(Z', borrow) := p256_sub X Y in
  if borrow =? 0 then Z' else fst (p256_add Z' MOD).

Record inv_state := mkInv { iR : list Z; iS : list Z; iU : list Z; iV : list Z }.

(** One iteration of the [for (;;)]: continue with a state, or break with [R]. *)
Definition modinv_step (MOD : list Z) (s : inv_state) : inv_state + list Z :=
  let '(mkInv R S_ U V) := s in
  if p256_is_even U then inl (mkInv (half_mod MOD R) S_ (p256_shr1 U 0) V)
  else if p256_is_even V then inl (mkInv R (half_mod MOD S_) U (p256_shr1 V 0))
  else if snd (p256_sub V U) =? 0 then
    let V := fst (p256_sub V U) in
    let S_ := sub_mod MOD S_ R in
    if p256_is_zero V then inr R else inl (mkInv R S_ U V)
  else
    let U := fst (p256_sub U V) in
    let R := sub_mod MOD R S_ in
    inl (mkInv R S_ U V).

Fixpoint modinv_loop (fuel : nat) (MOD : list Z) (s : inv_state) : option (list Z) :=
  match fuel with
  | O => None
  | S k => match modinv_step MOD s with
           | inl s' => modinv_loop k MOD s'
           | inr R => Some R
           end
  end.

Definition p256_modinv_vartime (fuel : nat) (MOD a : list Z) : option (list Z) :=
  match modinv_loop fuel MOD (mkInv P256_ZERO P256_ONE MOD a) with
  | None => None
  | Some R => Some (p256_mod MOD R)
  end.

(** Verify y^2 == x^3 - 3x + b mod p and 0 < x < p and 0 < y < p. *)
Definition p256_is_valid_point (x y : list Z) : option bool :=
  if (p256_cmp SECP256r1_p x <=? 0) || (p256_cmp SECP256r1_p y <=? 0)
     || p256_is_zero x || p256_is_zero y
  then Some false
  else
    match p256_modmul SECP256r1_p y 0 y, p256_modmul SECP256r1_p x 0 x with
    | Some y2, Some x2 =>
        match p256_modmul SECP256r1_p x 0 x2 with
        | Some x3 =>
            let x3 := sub_mod SECP256r1_p x3 x in
            let x3 := sub_mod SECP256r1_p x3 x in
            let x3 := sub_mod SECP256r1_p x3 x in
            let '(s, carry) := p256_add x3 SECP256r1_b in
            let x3 := if carry =? 0 then s else fst (p256_sub s SECP256r1_p) in
            Some (p256_cmp y2 x3 =? 0)
        | None => None
        end
    | _, _ => None
    end.

(** The digit [i] comes from the bytes [4 (7 - i)] to [4 (7 - i) + 3]. *)
Definition p256_from_bin (src : list Z) : list Z :=
  map (be_digit src P256_NDIGITS) (seq 0 P256_NDIGITS).

(** * The digit loops *)

Definition int256 (a : list Z) : Prop := digits a /\ length a = P256_NDIGITS.

Lemma int256_bound a : int256 a -> 0 <= val a < 2 ^ 256.
Proof. intros [Ha Hl]. pose proof (val_bound a Ha) as B. rewrite Hl in B. exact B. Qed.

Lemma int256_inj a b : int256 a -> int256 b -> val a = val b -> a = b.
Proof. intros [Ha Hl] [Hb Hl'] E. apply (eval_inj 32); auto; [lia|congruence]. Qed.

Lemma i64_idem u y : i64 (i64 u + y) = i64 (u + y).
Proof.
  unfold i64. f_equal. transitivity (((u + 2 ^ 63) mod 2 ^ 64 + y) mod 2 ^ 64); [f_equal; ring|].
  rewrite Zplus_mod_idemp_l. f_equal. ring.
Qed.

Lemma borrow_sub_loop A c a : borrow_loop A c a = sub_loop A c a.
Proof.
  revert A a. induction c as [|x c IH]; intros A [|y a]; try reflexivity. cbn [borrow_loop sub_loop].
  assert (E : i64 (i64 (A + x) - y) = i64 (A + u64 (x - y)))
    by (rewrite i64_borrow; unfold Z.sub at 1; rewrite i64_idem; f_equal; lia).
  rewrite E, IH. reflexivity.
Qed.

Lemma psub_sub_loop A a b : psub_loop A a b = sub_loop A a b.
Proof.
  revert A b. induction a as [|x a IH]; intros A [|y b]; try reflexivity. cbn [psub_loop sub_loop].
  now rewrite i64_borrow, IH.
Qed.

Lemma carry_loop_spec k c a :
  digits c -> digits a -> length c = length a -> 0 <= k <= 1 ->
  let '(r, k') := carry_loop k c a in
  digits r /\ length r = length a /\ 0 <= k' <= 1 /\
  val r + rad (length a) * k' = val c + val a + k.
Proof.
  intros Hc. revert a k. induction Hc as [|x c Hx Hc IH]; intros [|y a] k Ha Hl Hk; try discriminate.
  - cbn [carry_loop length]. split; [constructor|]. split; [reflexivity|].
    change (rad 0) with 1. change (val []) with 0. lia.
  - apply digits_cons in Ha as [Hy Ha]. unfold word in Hx. cbn [carry_loop].
    rewrite (u64_small (k + x)), (u64_small (k + x + y)) by lia.
    assert (Hs : 0 <= (k + x + y) >> 32 < 2 ^ 1) by (apply shr_bound; lia).
    specialize (IH a ((k + x + y) >> 32) Ha ltac:(simpl in Hl; lia) ltac:(lia)).
    unfold P256_BITSPERDIGIT. destruct (carry_loop _ c a) as [r k'].
    destruct IH as (Hr & Hlr & Hk' & E). pose proof (u32_shr_split (k + x + y)).
    split; [apply digits_cons; split; [apply u32_range|exact Hr]|].
    split; [simpl; lia|]. split; [lia|]. cbn [length]. rewrite rad_S, !val_cons. lia.
Qed.

Lemma padd_carry_loop k a b : padd_loop k a b = carry_loop k a b.
Proof.
  revert k b. induction a as [|x a IH]; intros k [|y b]; try reflexivity. cbn [padd_loop carry_loop].
  assert (E : u64 (k + u64 (x + y)) = u64 (u64 (k + x) + y))
    by (unfold u64; rewrite Zplus_mod_idemp_l, Zplus_mod_idemp_r; f_equal; lia).
  now rewrite E, IH.
Qed.

Lemma mulAdd_loop_spec k a b c :
  digits a -> digits c -> length a = length c -> 0 <= b < 2 ^ 32 -> 0 <= k < 2 ^ 32 ->
  let '(r, k') := mulAdd_loop k a b c in
  digits r /\ length r = length a /\ 0 <= k' < 2 ^ 32 /\
  val r + rad (length a) * k' = val c + val a * b + k.
Proof.
  intros Ha. revert c k. induction Ha as [|x a Hx Ha IH]; intros [|y c] k Hc Hl Hb Hk; try discriminate.
  - cbn [mulAdd_loop length]. split; [constructor|]. split; [reflexivity|].
    change (rad 0) with 1. change (val []) with 0. lia.
  - apply digits_cons in Hc as [Hy Hc]. unfold word in Hx. cbn [mulAdd_loop].
    assert (0 <= x * b <= 2 ^ 64 - 2 ^ 33 + 1) by nia.
    rewrite (u64_small (k + y)), (u64_small (x * b)), (u64_small (k + y + x * b)) by lia.
    assert (Hs : 0 <= (k + y + x * b) >> 32 < 2 ^ 32) by (apply shr_bound; lia).
    specialize (IH c ((k + y + x * b) >> 32) Hc ltac:(simpl in Hl; lia) Hb Hs).
    unfold P256_BITSPERDIGIT. destruct (mulAdd_loop _ a b c) as [r k'].
    destruct IH as (Hr & Hlr & Hk' & E). pose proof (u32_shr_split (k + y + x * b)).
    split; [apply digits_cons; split; [apply u32_range|exact Hr]|].
    split; [simpl; lia|]. split; [lia|]. cbn [length]. rewrite rad_S, !val_cons. lia.
Qed.

Lemma add_d_loop_spec d a :
  digits a -> 0 <= d < 2 ^ 32 ->
  let '(r, k) := add_d_loop d a in
  digits r /\ length r = length a /\ 0 <= k < 2 ^ 32 /\ val r + rad (length a) * k = val a + d.
Proof.
  intros Ha. revert d. induction Ha as [|x a Hx Ha IH]; intros d Hd.
  - cbn [add_d_loop length]. split; [constructor|]. split; [reflexivity|].
    change (rad 0) with 1. change (val []) with 0. lia.
  - unfold word in Hx. cbn [add_d_loop]. rewrite (u64_small (d + x)) by lia.
    assert (Hs : 0 <= (d + x) >> 32 < 2 ^ 1) by (apply shr_bound; lia).
    specialize (IH ((d + x) >> 32) ltac:(lia)). unfold P256_BITSPERDIGIT.
    destruct (add_d_loop _ a) as [r k]. destruct IH as (Hr & Hlr & Hk & E).
    pose proof (u32_shr_split (d + x)).
    split; [apply digits_cons; split; [apply u32_range|exact Hr]|].
    split; [simpl; lia|]. split; [lia|]. cbn [length]. rewrite rad_S, !val_cons. lia.
Qed.

(** ** Addition, subtraction and comparison *)

Lemma p256_sub_spec a b :
  int256 a -> int256 b ->
  let '(r, borrow) := p256_sub a b in
  int256 r /\ (val a < val b -> borrow = -1 /\ val r = val a - val b + 2 ^ 256) /\
  (val b <= val a -> borrow = 0 /\ val r = val a - val b).
Proof.
  intros [Ha Hla] [Hb Hlb]. unfold p256_sub. rewrite psub_sub_loop.
  pose proof (sub_loop_val 0 a b Ha Hb ltac:(congruence) ltac:(lia)) as H.
  destruct (sub_loop 0 a b) as [r B]. destruct H as (Hr & Hl & Hn & Hp).
  rewrite Hla in Hn. change (rad P256_NDIGITS) with (2 ^ 256) in Hn.
  split; [split; [exact Hr|congruence]|]. split; intros Hc.
  - destruct Hn as [-> ->]; [lia|]. split; [reflexivity|lia].
  - destruct Hp as [-> ->]; [lia|]. split; [reflexivity|lia].
Qed.

Lemma p256_add_spec a b :
  int256 a -> int256 b ->
  let '(r, carry) := p256_add a b in
  int256 r /\ 0 <= carry <= 1 /\ val r + 2 ^ 256 * carry = val a + val b.
Proof.
  intros [Ha Hla] [Hb Hlb]. unfold p256_add. rewrite padd_carry_loop.
  pose proof (carry_loop_spec 0 a b Ha Hb ltac:(congruence) ltac:(lia)) as H.
  destruct (carry_loop 0 a b) as [r k]. destruct H as (Hr & Hl & Hk & E).
  rewrite Hlb in E. change (rad P256_NDIGITS) with (2 ^ 256) in E.
  rewrite i32_small by lia. split; [split; [exact Hr|congruence]|]. lia.
Qed.

Lemma p256_add_d_spec a d :
  int256 a -> 0 <= d < 2 ^ 32 ->
  let '(r, carry) := p256_add_d a d in
  int256 r /\ 0 <= carry <= 1 /\ val r + 2 ^ 256 * carry = val a + d.
Proof.
  intros H256 Hd. pose proof (int256_bound a H256) as Ba. destruct H256 as [Ha Hla].
  unfold p256_add_d. pose proof (add_d_loop_spec d a Ha Hd) as H.
  destruct (add_d_loop d a) as [r k]. destruct H as (Hr & Hl & Hk & E).
  pose proof (val_bound r Hr) as Br. rewrite Hl, Hla in *. change (rad P256_NDIGITS) with (2 ^ 256) in *.
  rewrite i32_small by lia. split; [split; [exact Hr|congruence]|]. lia.
Qed.

Lemma cmp_loop_spec A z a b :
  digits a -> digits b -> length a = length b -> -1 <= A <= 0 -> 0 <= z <= 1 ->
  let '(r, B) := sub_loop A a b in
  cmp_loop A z a b = (B, if (z =? 0) && (val r =? 0) then 0 else 1).
Proof.
  intros Ha. revert b A z. induction Ha as [|x a Hx Ha IH]; intros [|y b] A z Hb Hl HA Hz; try discriminate.
  - cbn [sub_loop cmp_loop]. f_equal. change (val []) with 0.
    destruct (Z.eqb_spec z 0); cbn [Z.eqb andb]; lia.
  - apply digits_cons in Hb as [Hy Hb]. unfold word in Hx. cbn [sub_loop cmp_loop].
    rewrite i64_borrow, i64_small by lia.
    assert (HS : -1 <= (A + (x - y)) >> 32 <= 0).
    { rewrite shr_div by lia. pose proof (Z.div_mod (A + (x - y)) (2 ^ 32)).
      pose proof (Z.mod_pos_bound (A + (x - y)) (2 ^ 32)). lia. }
    set (A' := (A + (x - y)) >> 32) in *. set (d := u32 (A + (x - y))) in *.
    pose proof (u32_range (A + (x - y))) as Hd. fold d in Hd. unfold word in Hd.
    set (z' := z .| (if d =? 0 then 0 else 1)).
    assert (Hz' : z' = if (z =? 0) && (d =? 0) then 0 else 1).
    { unfold z'. assert (z = 0 \/ z = 1) as [-> | ->] by lia; destruct (d =? 0); reflexivity. }
    specialize (IH b A' z' Hb ltac:(simpl in Hl; lia) HS).
    pose proof (sub_loop_spec A' a b Ha Hb ltac:(simpl in Hl; lia) HS) as Hv.
    unfold P256_BITSPERDIGIT. fold A'. destruct (sub_loop A' a b) as [r B].
    destruct Hv as (Hr & _). pose proof (val_bound r Hr).
    rewrite IH by (rewrite Hz'; destruct ((z =? 0) && (d =? 0)); lia). f_equal.
    rewrite Hz', val_cons.
    destruct (Z.eqb_spec z 0), (Z.eqb_spec d 0), (Z.eqb_spec (val r) 0),
      (Z.eqb_spec (d + 2 ^ 32 * val r) 0); cbn [andb Z.eqb]; lia.
Qed.

Lemma p256_cmp_spec a b :
  int256 a -> int256 b ->
  p256_cmp a b = if val a <? val b then -1 else if val a =? val b then 0 else 1.
Proof.
  intros H1 H2. pose proof (int256_bound a H1). pose proof (int256_bound b H2).
  destruct H1 as [Ha Hla], H2 as [Hb Hlb]. unfold p256_cmp.
  pose proof (cmp_loop_spec 0 0 a b Ha Hb ltac:(congruence) ltac:(lia) ltac:(lia)) as HC.
  pose proof (sub_loop_val 0 a b Ha Hb ltac:(congruence) ltac:(lia)) as HS.
  destruct (sub_loop 0 a b) as [r B]. rewrite HC. destruct HS as (_ & _ & Hn & Hp).
  rewrite Hla in Hn. change (rad P256_NDIGITS) with (2 ^ 256) in Hn. cbn [Z.eqb andb].
  destruct (Z.ltb_spec (val a) (val b)).
  - destruct Hn as [-> _]; [lia|]. change (i32 (-1)) with (-1). apply Z.lor_m1_l.
  - destruct Hp as [-> ->]; [lia|]. change (i32 0) with 0. rewrite Z.lor_0_l, Z.add_0_r.
    destruct (Z.eqb_spec (val a) (val b)), (Z.eqb_spec (val a - val b) 0); lia.
Qed.

Lemma p256_is_zero_spec a : int256 a -> p256_is_zero a = (val a =? 0).
Proof.
  intros H. assert (Hb := int256_bound a H). destruct H as [Ha _]. unfold p256_is_zero. clear Hb.
  assert (G : forall z, fold_left Z.lor a z = 0 <-> z = 0 /\ val a = 0).
  { induction Ha as [|x a Hx Ha IH]; intros z; cbn [fold_left].
    - change (val []) with 0. tauto.
    - rewrite IH, Z.lor_eq_0_iff, val_cons. pose proof (val_bound a Ha). unfold word in Hx. lia. }
  destruct (Z.eqb_spec (fold_left Z.lor a 0) 0) as [E|E], (Z.eqb_spec (val a) 0) as [E'|E']; try reflexivity;
    exfalso; [apply G in E|apply E, G]; tauto.
Qed.

(** * Modular multiplication *)

(** The moduli the code is written for: the most significant digit is [-1]. *)
Definition good_mod (MOD : list Z) : Prop := int256 MOD /\ 2 ^ 256 - 2 ^ 224 <= val MOD.

Lemma window_length tmp i : (i + 8 <= length tmp)%nat -> length (window tmp i) = 8%nat.
Proof. intros H. unfold window, P256_NDIGITS. rewrite length_firstn, length_skipn. lia. Qed.

Lemma window_int256 tmp i : digits tmp -> (i + 8 <= length tmp)%nat -> int256 (window tmp i).
Proof. intros Ht H. split; [unfold window; auto with words|now apply window_length]. Qed.

Lemma firstn_window tmp i : firstn (i + 8) tmp = firstn i tmp ++ window tmp i.
Proof.
  unfold window, P256_NDIGITS. revert tmp. induction i as [|i IH]; intros tmp; [reflexivity|].
  destruct tmp as [|x tmp]; [reflexivity|]. cbn [Nat.add firstn skipn app]. now rewrite IH.
Qed.

Lemma blit_digits tmp i r : digits tmp -> digits r -> digits (blit tmp i r).
Proof. intros. unfold blit. auto with words. Qed.

Lemma blit_length8 tmp i r :
  length r = 8%nat -> (i + 8 <= length tmp)%nat -> length (blit tmp i r) = length tmp.
Proof. intros. apply blit_length. lia. Qed.

Lemma blit_firstn8 tmp i r :
  length r = 8%nat -> (i + 8 <= length tmp)%nat ->
  val (firstn (i + 8) (blit tmp i r)) = val (firstn i tmp) + rad i * val r.
Proof.
  intros Hr Hl. rewrite <- Hr, blit_firstn, val_app, length_firstn by lia.
  now replace (Nat.min i (length tmp)) with i by lia.
Qed.

Lemma val_firstn_window tmp i :
  (i + 8 <= length tmp)%nat ->
  val (firstn (i + 8) tmp) = val (firstn i tmp) + rad i * val (window tmp i).
Proof.
  intros Hl. rewrite firstn_window, val_app, length_firstn.
  now replace (Nat.min i (length tmp)) with i by lia.
Qed.

Lemma window_blit tmp i r :
  length r = 8%nat -> (i + 8 <= length tmp)%nat -> window (blit tmp i r) i = r.
Proof.
  intros Hr Hl. unfold window, blit, P256_NDIGITS. rewrite skipn_app, skipn_all2, length_firstn
    by (rewrite length_firstn; lia).
  replace (i - Nat.min i (length tmp))%nat with O by lia. rewrite skipn_O. cbn [app].
  rewrite firstn_app, Hr, Nat.sub_diag, firstn_O, app_nil_r. apply firstn_all2. lia.
Qed.

Lemma mulAdd_spec a b c :
  int256 a -> int256 c -> 0 <= b < 2 ^ 32 ->
  let '(r, k) := mulAdd a b 0 c in
  int256 r /\ 0 <= k < 2 ^ 32 /\ val r + 2 ^ 256 * k = val c + val a * b.
Proof.
  intros [Ha Hla] [Hc Hlc] Hb. unfold mulAdd.
  pose proof (mulAdd_loop_spec 0 a b c Ha Hc ltac:(congruence) Hb ltac:(lia)) as H.
  destruct (mulAdd_loop 0 a b c) as [r k]. destruct H as (Hr & Hl & Hk & E).
  rewrite Hla in E. change (rad P256_NDIGITS) with (2 ^ 256) in E.
  rewrite (u32_small k), u32_small by lia. split; [split; [exact Hr|congruence]|]. lia.
Qed.

(** ** The schoolbook product *)

(** After [i] rows: everything above the written digits is still zero. *)
Definition rows_done (A B : Z) (i : nat) (st : list Z * Z) : Prop :=
  let '(tmp, top) := st in
  digits tmp /\ length tmp = 17%nat /\ 0 <= top < 2 ^ 32 /\
  (i = O -> top = 0) /\
  (forall j, (i + 7 <= j)%nat -> get tmp j = 0) /\
  val (firstn (i + 7) tmp) + rad (i + 7) * top = A * B.

Lemma firstn_set_ge l i v k : (k <= i)%nat -> firstn k (set l i v) = firstn k l.
Proof.
  revert i k. induction l as [|h t IH]; intros [|i] [|k] H; try reflexivity; try lia.
  cbn [set firstn]. f_equal. apply IH. lia.
Qed.

Lemma get_blit_above tmp i r j :
  length r = 8%nat -> (i + 8 <= j)%nat -> (i + 8 <= length tmp)%nat -> get (blit tmp i r) j = get tmp j.
Proof.
  intros Hr Hj Hl. unfold get, blit. rewrite app_nth2, app_nth2; rewrite ?length_firstn, ?Hr; try lia.
  rewrite nth_skipn. f_equal. lia.
Qed.

Lemma mul_row_spec a A B i st d :
  int256 a -> val a = A -> 0 <= d < 2 ^ 32 -> (i <= 8)%nat -> rows_done A B i st ->
  rows_done A (B + rad i * d) (S i) (mul_row a st i d).
Proof.
  intros Ha HA Hd Hi. destruct st as [tmp top]. intros (Ht & Hl & Htop & H0 & Hz & E). unfold mul_row.
  set (tmp1 := if (i =? 0)%nat then tmp else set tmp (i + P256_NDIGITS - 1) top).
  assert (H1 : digits tmp1 /\ length tmp1 = 17%nat /\ (forall j, (i + 8 <= j)%nat -> get tmp1 j = 0) /\
               val (firstn (i + 8) tmp1) = A * B).
  { replace (i + 8)%nat with (S (i + 7)) by lia. unfold tmp1, P256_NDIGITS.
    destruct (Nat.eqb_spec i 0) as [->|Hn].
    - repeat split; auto; [intros j Hj; apply Hz; lia|].
      rewrite val_firstn_S, Hz by lia. rewrite H0 in E by reflexivity. lia.
    - replace (i + 8 - 1)%nat with (i + 7)%nat by lia.
      split; [apply set_words; [exact Ht|exact Htop]|]. split; [now rewrite set_length|]. split.
      + intros j Hj. rewrite get_set_neq by lia. apply Hz. lia.
      + rewrite val_firstn_S, get_set_eq, firstn_set_ge by (rewrite ?set_length; lia). exact E. }
  destruct H1 as (Ht1 & Hl1 & Hz1 & E1). clearbody tmp1.
  pose proof (mulAdd_spec a d (window tmp1 i) Ha (window_int256 tmp1 i Ht1 ltac:(lia)) Hd) as HM.
  destruct (mulAdd a d 0 (window tmp1 i)) as [r k]. destruct HM as ((Hr & Hlr) & Hk & EM).
  unfold P256_NDIGITS in Hlr. rewrite val_firstn_window in E1 by lia.
  split; [now apply blit_digits|]. split; [rewrite blit_length8; lia|]. split; [exact Hk|].
  split; [lia|]. split.
  - intros j Hj. rewrite get_blit_above by lia. apply Hz1. lia.
  - replace (S i + 7)%nat with (i + 8)%nat by lia.
    rewrite blit_firstn8, rad_add by lia. change (rad 8) with (2 ^ 256). nia.
Qed.

Lemma mul_rows_spec a b k :
  int256 a -> int256 b -> (k <= 8)%nat ->
  rows_done (val a) (val (firstn k b)) k
    (fold_left (fun st i => mul_row a st i (get b i)) (seq 0 k) (repeat 0 17, 0)).
Proof.
  intros Ha Hb. induction k as [|k IH]; intros Hk.
  - cbn [seq fold_left firstn]. change (val []) with 0.
    split; [apply Forall_forall; intros z Hz; apply repeat_spec in Hz; subst z; split; lia|].
    split; [reflexivity|]. split; [lia|]. split; [reflexivity|]. split.
    + intros j _. unfold get. now rewrite nth_repeat.
    + change (val (firstn (0 + 7) (repeat 0 17))) with 0. lia.
  - rewrite seq_S, fold_left_app. cbn [fold_left Nat.add]. destruct Hb as [Hb Hlb].
    rewrite val_firstn_S by (rewrite Hlb; unfold P256_NDIGITS; lia).
    apply mul_row_spec; auto; [now apply digits_get|lia|apply IH; lia].
Qed.

(** ** The reduction *)

(** [MOD[] & mask] is zero or the modulus. *)
Lemma masked_mod MOD mask :
  digits MOD -> mask = 0 \/ mask = 0xffffffff ->
  digits (map (fun y => y .& mask) MOD) /\
  val (map (fun y => y .& mask) MOD) = if mask =? 0 then 0 else val MOD.
Proof.
  intros HM [-> | ->]; cbn [Z.eqb].
  - replace (map _ MOD) with (repeat 0 (length MOD)).
    + unfold val. rewrite eval_repeat0. split; [|reflexivity].
      apply Forall_forall. intros z Hz. apply repeat_spec in Hz. subst z. split; lia.
    + clear. induction MOD as [|x l IH]; cbn [map repeat length]; [reflexivity|].
      now rewrite Z.land_0_r, IH.
  - replace (map _ MOD) with MOD; [auto|].
    induction HM as [|x l Hx Hl IH]; cbn [map]; [reflexivity|].
    change 0xffffffff with (Z.ones 32). rewrite land_ones_mod, Z.mod_small by (exact Hx || lia).
    f_equal. exact IH.
Qed.

Lemma subM_spec MOD c top mask :
  int256 MOD -> int256 c -> mask = 0 \/ mask = 0xffffffff ->
  let m := if mask =? 0 then 0 else val MOD in
  let '(r, t) := subM MOD top c mask in
  int256 r /\ (val c < m -> val r = val c - m + 2 ^ 256 /\ t = u32 (top - 1)) /\
  (m <= val c -> val r = val c - m /\ t = u32 top).
Proof.
  intros [HM HlM] [Hc Hlc] Hm m. unfold subM. rewrite borrow_sub_loop.
  destruct (masked_mod MOD mask HM Hm) as [Hd Hv]. fold m in Hv.
  pose proof (sub_loop_val 0 c _ Hc Hd ltac:(rewrite length_map; congruence) ltac:(lia)) as H.
  destruct (sub_loop 0 c _) as [r B]. destruct H as (Hr & Hl & Hn & Hp). rewrite Hv in *.
  rewrite Hlc in Hn. change (rad P256_NDIGITS) with (2 ^ 256) in Hn.
  split; [split; [exact Hr|congruence]|]. split; intros Hcmp.
  - destruct Hn as [-> ->]; [lia|]. split; [lia|]. unfold u32. now rewrite Zplus_mod_idemp_r.
  - destruct Hp as [-> ->]; [lia|]. split; [lia|]. now rewrite Z.add_0_r.
Qed.

Lemma addM_spec MOD c top mask :
  int256 MOD -> int256 c -> mask = 0 \/ mask = 0xffffffff ->
  let m := if mask =? 0 then 0 else val MOD in
  let '(r, t) := addM MOD top c mask in int256 r /\ val r = (val c + m) mod 2 ^ 256.
Proof.
  intros [HM HlM] [Hc Hlc] Hm m. unfold addM.
  destruct (masked_mod MOD mask HM Hm) as [Hd Hv]. fold m in Hv.
  pose proof (carry_loop_spec 0 c _ Hc Hd ltac:(rewrite length_map; congruence) ltac:(lia)) as H.
  destruct (carry_loop 0 c _) as [r k]. destruct H as (Hr & Hl & Hk & E).
  rewrite length_map, HlM in *. change (rad P256_NDIGITS) with (2 ^ 256) in E. rewrite Hv in E.
  assert (Hi : int256 r) by (split; assumption). split; [exact Hi|].
  pose proof (int256_bound r Hi). apply Z.mod_unique with k; lia.
Qed.

(** The last conditional subtraction: a value below [2^256] is below [2 MOD]. *)
Lemma final_sub_spec MOD c :
  int256 MOD -> 2 ^ 256 <= 2 * val MOD -> int256 c ->
  int256 (final_sub MOD c) /\ val (final_sub MOD c) = val c mod val MOD.
Proof.
  intros HM HMb Hc. unfold final_sub. pose proof (int256_bound c Hc). pose proof (int256_bound MOD HM).
  pose proof (subM_spec MOD c 0 0xffffffff HM Hc ltac:(auto)) as HS.
  destruct (subM MOD 0 c 0xffffffff) as [r t]. destruct HS as (Hr & Hlt & Hge). cbn [Z.eqb] in *.
  pose proof (int256_bound r Hr).
  destruct (Z.lt_ge_cases (val c) (val MOD)) as [Hc1|Hc1].
  - destruct Hlt as [Ev ->]; [lia|]. change (u32 (0 - 1)) with 0xffffffff.
    pose proof (addM_spec MOD r 0 0xffffffff HM Hr ltac:(auto)) as HA.
    destruct (addM MOD 0 r 0xffffffff) as [q t]. destruct HA as [Hq Eq]. cbn [Z.eqb] in Eq.
    split; [exact Hq|]. cbn [fst]. rewrite Eq, Ev.
    replace (val c - val MOD + 2 ^ 256 + val MOD) with (val c + 1 * 2 ^ 256) by ring.
    rewrite Z_mod_plus_full, !Z.mod_small by lia. reflexivity.
  - destruct Hge as [Ev ->]; [lia|]. change (u32 0) with 0.
    pose proof (addM_spec MOD r 0 0 HM Hr ltac:(auto)) as HA.
    destruct (addM MOD 0 r 0) as [q t]. destruct HA as [Hq Eq]. cbn [Z.eqb] in Eq.
    split; [exact Hq|]. cbn [fst]. rewrite Eq, Z.add_0_r, Z.mod_small, Ev by lia.
    apply Z.mod_unique with 1; lia.
Qed.

Lemma subTop_spec ta a tc c :
  int256 a -> int256 c -> 0 <= ta < 2 ^ 32 -> 0 <= tc < 2 ^ 32 ->
  0 <= val c + 2 ^ 256 * tc - val a - 2 ^ 256 * ta ->
  exists r t, subTop ta a tc c = Some (r, t) /\ int256 r /\ 0 <= t < 2 ^ 32 /\
              val r + 2 ^ 256 * t = val c + 2 ^ 256 * tc - val a - 2 ^ 256 * ta.
Proof.
  intros [Ha Hla] [Hc Hlc] Hta Htc Hpos. unfold subTop. rewrite borrow_sub_loop.
  pose proof (sub_loop_spec 0 c a Hc Ha ltac:(congruence) ltac:(lia)) as H.
  destruct (sub_loop 0 c a) as [r B]. destruct H as (Hr & Hl & HB & E).
  rewrite Hlc in *. change (rad P256_NDIGITS) with (2 ^ 256) in *.
  assert (Hi : int256 r) by (split; [exact Hr|congruence]). pose proof (int256_bound r Hi).
  rewrite (i64_small (B + tc)), (i64_small (B + tc - ta)) by lia.
  assert (Ht : 0 <= B + tc - ta < 2 ^ 32) by lia.
  rewrite shr_div, Z.div_small by (unfold P256_BITSPERDIGIT; lia). cbn [Z.eqb].
  exists r, (B + tc - ta). rewrite u32_small by lia. repeat split; try assumption; try apply Hi; lia.
Qed.

(** Before iteration [j - 8]: the digits below [j] and the top digit hold [z]. *)
Definition reduced_to (m z : Z) (j : nat) (st : option (list Z * Z)) : Prop :=
  match st with
  | None => False
  | Some (tmp, top) =>
      digits tmp /\ length tmp = 17%nat /\ 0 <= top < 2 ^ 32 /\
      val (firstn j tmp) + rad j * top ==[m] z
  end.

(** The top digit was fetched from position [j]. *)
Definition top_at (j : nat) (st : option (list Z * Z)) : Prop :=
  match st with Some (tmp, top) => top = get tmp j | None => False end.

(** One iteration never fails an assertion and removes the top digit. *)
Lemma reduce_row_spec MOD z i st :
  good_mod MOD -> (i <= 8)%nat ->
  reduced_to (val MOD) z (i + 8) st ->
  reduced_to (val MOD) z (i + 7) (reduce_row MOD st i) /\ top_at (i + 7) (reduce_row MOD st i).
Proof.
  intros [HM HMb] Hi. destruct st as [[tmp top]|]; [|contradiction]. intros (Ht & Hl & Htop & E).
  pose proof (int256_bound MOD HM) as BM. unfold reduce_row, P256_NDIGITS.
  assert (H0 : int256 (repeat 0 8)).
  { split; [|reflexivity]. apply Forall_forall. intros y Hy. apply repeat_spec in Hy. subst y. split; lia. }
  pose proof (mulAdd_spec MOD top (repeat 0 8) HM H0 Htop) as H1.
  destruct (mulAdd MOD top 0 (repeat 0 8)) as [red tr]. destruct H1 as (Hred & Htr & E1).
  change (val (repeat 0 8)) with 0 in E1.
  assert (Hw : int256 (window tmp i)) by (apply window_int256; [exact Ht|lia]).
  pose proof (int256_bound _ Hw) as Bw.
  assert (Hq : val (window tmp i) + 2 ^ 256 * top - val red - 2 ^ 256 * tr
               = val (window tmp i) + top * (2 ^ 256 - val MOD)) by lia.
  assert (Hp : 0 <= top * (2 ^ 256 - val MOD) <= (2 ^ 32 - 1) * 2 ^ 224) by nia.
  destruct (subTop_spec tr red top (window tmp i) Hred Hw Htr Htop ltac:(lia))
    as (r & t & -> & Hr & Htb & E2).
  pose proof (int256_bound r Hr) as Br. assert (Ht01 : t = 0 \/ t = 1) by lia.
  replace (negb (t <=? 1)) with false by (destruct Ht01 as [-> | ->]; reflexivity).
  destruct Hr as [Hrd Hrl]. unfold P256_NDIGITS in Hrl. rewrite window_blit by lia.
  set (mask := u32 (Z.lnot (u32 (t - 1)))).
  assert (Hmask : mask = if t =? 0 then 0 else 0xffffffff)
    by (unfold mask; destruct Ht01 as [-> | ->]; reflexivity).
  pose proof (subM_spec MOD r t mask HM (conj Hrd Hrl)
    ltac:(rewrite Hmask; destruct (t =? 0); auto)) as H3.
  destruct (subM MOD t r mask) as [r2 t2]. destruct H3 as (Hr2 & Hlt & Hge).
  assert (Hfin : t2 = 0 /\ val r2 = val r + 2 ^ 256 * t - t * val MOD).
  { rewrite Hmask in Hlt, Hge. destruct Ht01 as [-> | ->]; cbn [Z.eqb] in Hlt, Hge.
    - destruct Hge as [-> ->]; [lia|]. split; [reflexivity|lia].
    - destruct Hlt as [-> ->]; [lia|]. split; [reflexivity|lia]. }
  destruct Hfin as [-> Ev]. cbn [Z.eqb negb].
  destruct Hr2 as [Hr2d Hr2l]. unfold P256_NDIGITS in Hr2l.
  assert (Hb1 : length (blit tmp i r) = 17%nat) by (rewrite blit_length8; lia).
  set (tmp2 := blit (blit tmp i r) i r2).
  assert (Hl2 : length tmp2 = 17%nat) by (unfold tmp2; rewrite blit_length8; lia).
  assert (Hd2 : digits tmp2) by (unfold tmp2; auto using blit_digits).
  replace (i + 8 - 1)%nat with (i + 7)%nat by lia. split; [|reflexivity].
  split; [exact Hd2|]. split; [exact Hl2|]. split; [now apply digits_get|].
  rewrite <- val_firstn_S by lia.
  replace (S (i + 7)) with (i + 8)%nat by lia. rewrite <- E.
  unfold tmp2. rewrite blit_firstn8 by lia.
  replace (firstn i (blit tmp i r)) with (firstn i tmp).
  2: { unfold blit. rewrite firstn_app, firstn_firstn, Nat.min_id, length_firstn.
       replace (i - Nat.min i (length tmp))%nat with O by lia. now rewrite firstn_O, app_nil_r. }
  rewrite val_firstn_window, rad_add by lia. change (rad 8) with (2 ^ 256).
  apply eqm_of_diff with (- rad i * (top + t)). rewrite Ev. nia.
Qed.

Lemma reduce_rows_spec MOD z k st :
  good_mod MOD -> (k <= 8)%nat -> reduced_to (val MOD) z (S k + 7) st ->
  let st' := fold_left (reduce_row MOD) (rev (seq 0 (S k))) st in
  reduced_to (val MOD) z 7 st' /\ top_at 7 st'.
Proof.
  intros HM. revert st. induction k as [|k IH]; intros st Hk H.
  - cbn [seq rev app fold_left]. now apply (reduce_row_spec MOD z 0).
  - rewrite seq_S, rev_app_distr. cbn [rev app fold_left Nat.add].
    apply IH; [lia|]. apply reduce_row_spec; [exact HM|lia|].
    now replace (S k + 8)%nat with (S (S k) + 7)%nat by lia.
Qed.

Lemma p256_modmul_spec MOD a top_b b :
  good_mod MOD -> int256 a -> int256 b -> 0 <= top_b < 2 ^ 32 ->
  exists c, p256_modmul MOD a top_b b = Some c /\ int256 c /\
            val c = (val a * (val b + 2 ^ 256 * top_b)) mod val MOD.
Proof.
  intros HM Ha Hb Htb. unfold p256_modmul.
  pose proof (mul_rows_spec a b 8 Ha Hb ltac:(lia)) as H1.
  rewrite firstn_all2 in H1 by (destruct Hb as [_ ->]; unfold P256_NDIGITS; lia).
  apply (mul_row_spec a _ _ 8 _ top_b Ha eq_refl Htb ltac:(lia)) in H1.
  change (P256_NDIGITS * 2 + 1)%nat with 17%nat. change P256_NDIGITS with 8%nat.
  set (st := mul_row a _ 8 top_b) in *.
  assert (H2 : reduced_to (val MOD) (val a * (val b + 2 ^ 256 * top_b)) (9 + 7) (Some st)).
  { destruct st as [tmp top]. destruct H1 as (Ht & Hl & Htop & _ & _ & E).
    repeat split; try assumption; try apply Htop. rewrite E. reflexivity. }
  apply (reduce_rows_spec MOD _ 8 _ HM ltac:(lia)) in H2. cbv zeta in H2.
  destruct (fold_left (reduce_row MOD) (rev (seq 0 9)) (Some st)) as [[tmp top]|];
    [|destruct H2; contradiction].
  destruct H2 as [(Ht & Hl & Htop & E) ->]. rewrite <- val_firstn_S in E by lia.
  destruct HM as [HMi HMb]. pose proof (int256_bound MOD HMi).
  destruct (final_sub_spec MOD (window tmp 0) HMi ltac:(lia) (window_int256 tmp 0 Ht ltac:(lia)))
    as [Hc Ev].
  eexists. split; [reflexivity|]. split; [exact Hc|]. rewrite Ev. exact E.
Qed.

(** [p256_modmul] computes [a * (top_b, b) mod MOD], fully reduced, for every
    modulus whose top digit is [-1]: none of its three assertions can fail, and
    the guess of the quotient digit is corrected by at most one subtraction. *)
Theorem p256_modmul_correct MOD a top_b b :
  good_mod MOD -> int256 a -> int256 b -> 0 <= top_b < 2 ^ 32 ->
  exists c, p256_modmul MOD a top_b b = Some c /\ int256 c /\
            val c = (val a * (val b + 2 ^ 256 * top_b)) mod val MOD.
Proof. apply p256_modmul_spec. Qed.

Lemma digits_forallb l :
  forallb (fun d => (0 <=? d) && (d <? 2 ^ 32)) l = true -> digits l.
Proof.
  intros H. apply Forall_forall. intros x Hx. rewrite forallb_forall in H. specialize (H x Hx).
  unfold word. lia.
Qed.

Ltac int256_solve := split; [apply digits_forallb; reflexivity | reflexivity].

Lemma good_n : good_mod SECP256r1_n.
Proof. split; [int256_solve|]. vm_compute. discriminate. Qed.

Lemma good_p : good_mod SECP256r1_p.
Proof. split; [int256_solve|]. vm_compute. discriminate. Qed.

Lemma int256_b : int256 SECP256r1_b.
Proof. int256_solve. Qed.

Lemma p256_modmul_correct_witness :
  good_mod SECP256r1_n /\
  exists c, p256_modmul SECP256r1_n SECP256r1_b 7 SECP256r1_p = Some c /\ int256 c /\
            val c = (val SECP256r1_b * (val SECP256r1_p + 2 ^ 256 * 7)) mod val SECP256r1_n.
Proof.
  split; [exact good_n|].
  apply (p256_modmul_correct SECP256r1_n SECP256r1_b 7 SECP256r1_p good_n int256_b (proj1 good_p)).
  lia.
Defined.

(** * Shifts *)

Ltac digits8 a H :=
  let Hd := fresh "Hd" in let Hl := fresh "Hl" in
  destruct H as [Hd Hl];
  destruct a as [|?x0 [|?x1 [|?x2 [|?x3 [|?x4 [|?x5 [|?x6 [|?x7 [|]]]]]]]]]; try discriminate Hl;
  unfold words in Hd; rewrite !Forall_cons_iff in Hd; unfold word in Hd; clear Hl.

Lemma even_digits d l : Z.even (val (d :: l)) = (d .& 1 =? 0).
Proof.
  rewrite val_cons, Z.even_add, Z.even_mul. change (Z.even (2 ^ 32)) with true. cbn [orb].
  change 1 with (Z.ones 1) at 1. rewrite land_ones_mod by lia. change (2 ^ 1) with 2.
  rewrite Zmod_even. destruct (Z.even d); reflexivity.
Qed.

Lemma p256_is_even_spec a : int256 a -> p256_is_even a = Z.even (val a).
Proof.
  intros [_ Hl]. destruct a as [|d l]; [discriminate|]. unfold p256_is_even. now rewrite even_digits.
Qed.

(** A digit assembled from the high part of one digit and the low part of the next. *)
Lemma join_digit x y n :
  0 < n < 32 -> 0 <= x < 2 ^ 32 -> 0 <= y ->
  (x >> n) .| (y [<<] (32 - n)) = x / 2 ^ n + 2 ^ (32 - n) * (y mod 2 ^ n).
Proof.
  intros Hn Hx Hy. rewrite shr_div by lia.
  assert (E32 : 2 ^ 32 = 2 ^ n * 2 ^ (32 - n)) by (rewrite <- Z.pow_add_r by lia; f_equal; lia).
  assert (Hp : 0 < 2 ^ n) by (apply Z.pow_pos_nonneg; lia).
  assert (Hq : 0 < 2 ^ (32 - n)) by (apply Z.pow_pos_nonneg; lia).
  assert (E : y [<<] (32 - n) = (y mod 2 ^ n) << (32 - n)).
  { rewrite !shl_mul by lia. unfold u32. rewrite E32, Z.mul_comm, (Z.mul_comm (2 ^ n)).
    rewrite Z.mul_mod_distr_l by lia. ring. }
  rewrite E, Z.lor_comm, lor_shl_add; [ring|lia|].
  split; [apply Z.div_pos; lia|]. apply Z.div_lt_upper_bound; lia.
Qed.

Lemma join_digit_range x y n :
  0 < n < 32 -> 0 <= x < 2 ^ 32 -> 0 <= y ->
  0 <= (x >> n) .| (y [<<] (32 - n)) < 2 ^ 32.
Proof.
  intros Hn Hx Hy. apply (lor_word 32); [lia| |apply u32_range]. now apply shr_word; [lia|lia|].
Qed.

Lemma p256_shr1_spec a hb :
  int256 a -> 0 <= hb <= 1 ->
  int256 (p256_shr1 a hb) /\ val (p256_shr1 a hb) = (val a + 2 ^ 256 * hb) / 2.
Proof.
  intros Ha Hhb. digits8 a Ha. unfold p256_shr1.
  cbn [P256_NDIGITS Nat.sub seq map app get nth].
  unfold P256_BITSPERDIGIT. split.
  - split; [|reflexivity]. repeat (apply digits_cons; split; [apply (join_digit_range _ _ 1); lia|]).
    constructor.
  - rewrite !(join_digit _ _ 1) by lia. change (2 ^ (32 - 1)) with (2 ^ 31). change (2 ^ 1) with 2.
    apply Z.div_unique with (x0 mod 2); [pose proof (Z.mod_pos_bound x0 2); lia|].
    unfold val. cbn [eval]. rewrite (Z.mod_small hb 2) by lia.
    pose proof (Z.div_mod x0 2). pose proof (Z.div_mod x1 2). pose proof (Z.div_mod x2 2).
    pose proof (Z.div_mod x3 2). pose proof (Z.div_mod x4 2). pose proof (Z.div_mod x5 2).
    pose proof (Z.div_mod x6 2). pose proof (Z.div_mod x7 2). lia.
Qed.

Lemma p256_shr_spec a n :
  int256 a -> 0 < n < 32 ->
  int256 (p256_shr a n) /\ val (p256_shr a n) = val a / 2 ^ n.
Proof.
  intros Ha Hn. digits8 a Ha. unfold p256_shr. rewrite Z.rem_small by (unfold P256_BITSPERDIGIT; lia).
  cbn [P256_NDIGITS Nat.sub seq map app get nth].
  unfold P256_BITSPERDIGIT. assert (Hp : 0 < 2 ^ n) by (apply Z.pow_pos_nonneg; lia). split.
  - split; [|reflexivity]. do 7 (apply digits_cons; split; [apply join_digit_range; lia|]).
    apply digits_cons. split; [|constructor]. apply (shr_word 32); [lia|lia|]. unfold word. tauto.
  - rewrite !join_digit, shr_div by lia.
    assert (E32 : 2 ^ 32 = 2 ^ n * 2 ^ (32 - n)) by (rewrite <- Z.pow_add_r by lia; f_equal; lia).
    apply Z.div_unique with (x0 mod 2 ^ n); [pose proof (Z.mod_pos_bound x0 (2 ^ n)); lia|].
    rewrite (Z.div_mod x0 (2 ^ n)) at 1 by lia. rewrite (Z.div_mod x1 (2 ^ n)) at 1 by lia.
    rewrite (Z.div_mod x2 (2 ^ n)) at 1 by lia. rewrite (Z.div_mod x3 (2 ^ n)) at 1 by lia.
    rewrite (Z.div_mod x4 (2 ^ n)) at 1 by lia. rewrite (Z.div_mod x5 (2 ^ n)) at 1 by lia.
    rewrite (Z.div_mod x6 (2 ^ n)) at 1 by lia. rewrite (Z.div_mod x7 (2 ^ n)) at 1 by lia.
    unfold val. cbn [eval]. rewrite !E32. ring.
Qed.

Lemma p256_shl_spec a n :
  int256 a -> 0 < n < 32 ->
  let '(b, top) := p256_shl a n in
  int256 b /\ 0 <= top < 2 ^ n /\ val b + 2 ^ 256 * top = 2 ^ n * val a.
Proof.
  intros Ha Hn. digits8 a Ha. unfold p256_shl. rewrite Z.rem_small by (unfold P256_BITSPERDIGIT; lia).
  cbn [P256_NDIGITS Nat.sub seq map app get nth]. unfold P256_BITSPERDIGIT.
  assert (Hp : 0 < 2 ^ n) by (apply Z.pow_pos_nonneg; lia).
  assert (E32 : 2 ^ 32 = 2 ^ (32 - n) * 2 ^ n) by (rewrite <- Z.pow_add_r by lia; f_equal; lia).
  assert (Hq : 0 < 2 ^ (32 - n)) by (apply Z.pow_pos_nonneg; lia).
  assert (J : forall x y, 0 <= x < 2 ^ 32 -> 0 <= y ->
    0 <= (y [<<] n) .| (x >> (32 - n)) < 2 ^ 32 /\
    (y [<<] n) .| (x >> (32 - n)) = x / 2 ^ (32 - n) + 2 ^ n * (y mod 2 ^ (32 - n))).
  { intros x y Hx Hy. pose proof (join_digit x y (32 - n) ltac:(lia) Hx Hy) as HJ.
    pose proof (join_digit_range x y (32 - n) ltac:(lia) Hx Hy) as HR.
    replace (32 - (32 - n)) with n in * by lia. rewrite Z.lor_comm. auto. }
  assert (E0 : x0 [<<] n = 2 ^ n * (x0 mod 2 ^ (32 - n))).
  { unfold u32. rewrite shl_mul, E32, Z.mul_comm, (Z.mul_comm (2 ^ (32 - n))) by lia.
    now rewrite Z.mul_mod_distr_l by lia. }
  assert (Et : u32 (u64 (x7 << n) >> 32) = x7 / 2 ^ (32 - n) /\ 0 <= x7 / 2 ^ (32 - n) < 2 ^ n).
  { assert (Hb : 0 <= x7 / 2 ^ (32 - n) < 2 ^ n)
      by (split; [apply Z.div_pos; lia|apply Z.div_lt_upper_bound; lia]).
    assert (Hn32 : 2 ^ n < 2 ^ 32) by (apply Z.pow_lt_mono_r; lia).
    split; [|exact Hb]. rewrite shl_mul, u64_small, shr_div by nia.
    rewrite E32 at 1. rewrite Z.div_mul_cancel_r by lia. apply u32_small. lia. }
  destruct Et as [-> Hb]. split; [|split; [exact Hb|]].
  - split; [|reflexivity]. apply digits_cons. split; [apply u32_range|].
    repeat (apply digits_cons; split; [apply J; lia|]). constructor.
  - rewrite E0, !(fun x y Hx Hy => proj2 (J x y Hx Hy)) by lia.
    rewrite (Z.div_mod x0 (2 ^ (32 - n))) at 3 by lia. rewrite (Z.div_mod x1 (2 ^ (32 - n))) at 3 by lia.
    rewrite (Z.div_mod x2 (2 ^ (32 - n))) at 3 by lia. rewrite (Z.div_mod x3 (2 ^ (32 - n))) at 3 by lia.
    rewrite (Z.div_mod x4 (2 ^ (32 - n))) at 3 by lia. rewrite (Z.div_mod x5 (2 ^ (32 - n))) at 3 by lia.
    rewrite (Z.div_mod x6 (2 ^ (32 - n))) at 3 by lia. rewrite (Z.div_mod x7 (2 ^ (32 - n))) at 3 by lia.
    unfold val. cbn [eval]. replace (2 ^ 256) with ((2 ^ 32) ^ 8) by reflexivity. rewrite !E32. ring.
Qed.

(** * The binary Euclidean inverse *)

Lemma gcd_half u v : 0 < u -> Z.gcd (2 * u) v = 1 -> Z.gcd u v = 1.
Proof.
  intros Hu H. apply Z.divide_1_r_nonneg; [apply Z.gcd_nonneg|]. rewrite <- H.
  apply Z.gcd_greatest; [|apply Z.gcd_divide_r].
  apply Z.divide_mul_r, Z.gcd_divide_l.
Qed.

(** Halving an even positive number costs one bit. *)
Lemma half_even X :
  int256 X -> 0 < val X -> Z.even (val X) = true ->
  int256 (p256_shr1 X 0) /\ 0 < val (p256_shr1 X 0) /\ val X = 2 * val (p256_shr1 X 0) /\
  Z.log2 (val X) = Z.log2 (val (p256_shr1 X 0)) + 1.
Proof.
  intros HX Hp Ev. destruct (p256_shr1_spec X 0 HX ltac:(lia)) as [H1 E1].
  rewrite Z.mul_0_r, Z.add_0_r in E1. apply Z.even_spec in Ev as [k Ek].
  assert (Ek' : val (p256_shr1 X 0) = k) by (rewrite E1, Ek, (Z.mul_comm 2); apply Z.div_mul; lia).
  rewrite Ek', Ek. repeat split; try apply H1; try lia.
  rewrite Z.log2_double by lia. lia.
Qed.

Lemma indicator_range (b : bool) : 0 <= (if b then 1 else 0) <= 1.
Proof. destruct b; lia. Qed.

Lemma odd_of_not_even z : Z.even z = false -> Z.odd z = true.
Proof. rewrite <- Z.negb_even. now intros ->. Qed.

Section Inverse.
Context (MOD : list Z) (HM : int256 MOD) (Hodd : Z.odd (val MOD) = true).
Let m := val MOD.

Lemma half_mod_spec X :
  int256 X -> val X < m ->
  int256 (half_mod MOD X) /\ val (half_mod MOD X) < m /\ 2 * val (half_mod MOD X) ==[m] val X.
Proof.
  intros HX Hlt. pose proof (int256_bound X HX). unfold half_mod. rewrite p256_is_even_spec by exact HX.
  destruct (Z.even (val X)) eqn:Ev.
  - destruct (p256_shr1_spec X 0 HX ltac:(lia)) as [H1 E1]. rewrite Z.mul_0_r, Z.add_0_r in E1.
    apply Z.even_spec in Ev as [k Ek]. rewrite Ek, (Z.mul_comm 2), Z.div_mul in E1 by lia.
    split; [exact H1|]. rewrite E1, Ek. split; [lia|reflexivity].
  - pose proof (p256_add_spec X MOD HX HM) as HA. destruct (p256_add X MOD) as [Y c].
    destruct HA as (HY & Hc & E). destruct (p256_shr1_spec Y c HY Hc) as [H1 E1]. rewrite E in E1.
    assert (Hs : exists k, val X + m = 2 * k).
    { apply Z.even_spec. rewrite Z.even_add, Ev. unfold m. now rewrite <- Z.negb_odd, Hodd. }
    destruct Hs as [k Ek]. fold m in E1. rewrite Ek, (Z.mul_comm 2), Z.div_mul in E1 by lia.
    split; [exact H1|]. rewrite E1. split; [lia|]. apply eqm_of_diff with 1. lia.
Qed.

Lemma sub_mod_spec X Y :
  int256 X -> int256 Y -> val X < m -> val Y <= m ->
  int256 (sub_mod MOD X Y) /\ val (sub_mod MOD X Y) = (val X - val Y) mod m.
Proof.
  intros HX HY HXm HYm. pose proof (int256_bound X HX). pose proof (int256_bound Y HY).
  pose proof (int256_bound MOD HM) as BM. fold m in BM. unfold sub_mod.
  pose proof (p256_sub_spec X Y HX HY) as HS. destruct (p256_sub X Y) as [D b].
  destruct HS as (HD & Hlt & Hge). destruct (Z.lt_ge_cases (val X) (val Y)) as [Hc|Hc].
  - destruct Hlt as [-> Ev]; [lia|]. cbn [Z.eqb].
    pose proof (p256_add_spec D MOD HD HM) as HA. destruct (p256_add D MOD) as [Y' c].
    destruct HA as (HY' & Hcb & E). cbn [fst]. split; [exact HY'|].
    pose proof (int256_bound Y' HY'). fold m in E. assert (c = 1) by lia. subst c.
    apply Z.mod_unique with (-1); lia.
  - destruct Hge as [-> Ev]; [lia|]. cbn [Z.eqb]. split; [exact HD|].
    rewrite Ev, Z.mod_small by lia. reflexivity.
Qed.

Context (a : Z).

(** The invariant of the loop. *)
Record inv_ok (s : inv_state) : Prop := {
  ok_R : int256 (iR s) /\ val (iR s) < m; ok_S : int256 (iS s) /\ val (iS s) < m;
  ok_U : int256 (iU s) /\ 0 < val (iU s); ok_V : int256 (iV s) /\ 0 < val (iV s);
  ok_RU : val (iR s) * a ==[m] val (iU s); ok_SV : val (iS s) * a ==[m] val (iV s);
  ok_gcd : Z.gcd (val (iU s)) (val (iV s)) = 1
}.

(** It drops in every iteration: a subtraction of odd numbers leaves an even one. *)
Definition measure (s : inv_state) : Z :=
  2 * (Z.log2 (val (iU s)) + Z.log2 (val (iV s)))
  + (if Z.odd (val (iU s)) && Z.odd (val (iV s)) then 1 else 0).

Lemma eqm_half r u : 0 < m -> 2 * r * a ==[m] 2 * u -> r * a ==[m] u.
Proof.
  intros Hm E. apply Z.odd_spec in Hodd as [k Hk]. fold m in Hk.
  apply eqm_cancel with 2 (k + 1).
  - apply eqm_of_diff with 1. lia.
  - rewrite Z.mul_assoc. exact E.
Qed.

Lemma step_U_even s :
  inv_ok s -> 0 < m -> Z.even (val (iU s)) = true ->
  let s' := mkInv (half_mod MOD (iR s)) (iS s) (p256_shr1 (iU s) 0) (iV s) in
  inv_ok s' /\ measure s' < measure s.
Proof.
  intros [[HR HRm] [HS HSm] [HU HUp] [HV HVp] E1 E2 Hg] Hm Ev.
  destruct (half_even _ HU HUp Ev) as (H1 & H2 & H3 & H4).
  destruct (half_mod_spec _ HR HRm) as (H5 & H6 & H7). split.
  - split; cbn [iR iS iU iV]; auto.
    + apply eqm_half; [exact Hm|]. rewrite H7, E1, <- H3. reflexivity.
    + apply gcd_half; [exact H2|]. now rewrite <- H3.
  - unfold measure. cbn [iU iV]. rewrite <- (Z.negb_even (val (iU s))), Ev. cbn [negb andb].
    pose proof (indicator_range (Z.odd (val (p256_shr1 (iU s) 0)) && Z.odd (val (iV s)))). lia.
Qed.

Lemma step_V_even s :
  inv_ok s -> 0 < m -> Z.even (val (iV s)) = true ->
  let s' := mkInv (iR s) (half_mod MOD (iS s)) (iU s) (p256_shr1 (iV s) 0) in
  inv_ok s' /\ measure s' < measure s.
Proof.
  intros [[HR HRm] [HS HSm] [HU HUp] [HV HVp] E1 E2 Hg] Hm Ev.
  destruct (half_even _ HV HVp Ev) as (H1 & H2 & H3 & H4).
  destruct (half_mod_spec _ HS HSm) as (H5 & H6 & H7). split.
  - split; cbn [iR iS iU iV]; auto.
    + apply eqm_half; [exact Hm|]. rewrite H7, E2, <- H3. reflexivity.
    + rewrite Z.gcd_comm. apply gcd_half; [exact H2|]. now rewrite <- H3, Z.gcd_comm.
  - unfold measure. cbn [iU iV]. rewrite <- (Z.negb_even (val (iV s))), Ev, andb_false_r.
    pose proof (indicator_range (Z.odd (val (iU s)) && Z.odd (val (p256_shr1 (iV s) 0)))). lia.
Qed.

(** What one iteration does from a good state. *)
Lemma modinv_step_spec s :
  inv_ok s -> 0 < m ->
  match modinv_step MOD s with
  | inl s' => inv_ok s' /\ measure s' < measure s
  | inr R => int256 R /\ val R < m /\ val R * a ==[m] 1
  end.
Proof.
  intros Hok Hm. pose proof Hok as [[HR HRm] [HS HSm] [HU HUp] [HV HVp] E1 E2 Hg].
  destruct s as [R S_ U V]. cbn [iR iS iU iV] in *. unfold modinv_step.
  rewrite !p256_is_even_spec by assumption.
  destruct (Z.even (val U)) eqn:EU; [now apply (step_U_even _ Hok)|].
  destruct (Z.even (val V)) eqn:EV; [now apply (step_V_even _ Hok)|].
  apply odd_of_not_even in EU, EV.
  pose proof (p256_sub_spec V U HV HU) as HVU. pose proof (p256_sub_spec U V HU HV) as HUV.
  destruct (p256_sub V U) as [D b]. destruct HVU as (HD & Hlt & Hge). cbn [fst snd].
  destruct (Z.lt_ge_cases (val V) (val U)) as [Hc|Hc].
  - destruct Hlt as [-> _]; [exact Hc|]. cbn [Z.eqb].
    destruct (p256_sub U V) as [D' b']. destruct HUV as (HD' & _ & HgeU). cbn [fst].
    destruct HgeU as [_ Ev]; [lia|].
    destruct (sub_mod_spec R S_ HR HS HRm ltac:(lia)) as [H1 H2]. split.
    + split; cbn [iR iS iU iV]; auto.
      * split; [exact H1|]. rewrite H2. apply Z.mod_pos_bound. exact Hm.
      * split; [exact HD'|lia].
      * rewrite H2, eqm_mod, Z.mul_sub_distr_r, E1, E2, <- Ev. reflexivity.
      * rewrite Ev, Z.gcd_comm, Z.gcd_sub_diag_r, Z.gcd_comm. exact Hg.
    + unfold measure. cbn [iU iV]. rewrite EU, EV, Ev. rewrite Z.odd_sub, EU, EV. cbn [xorb andb].
      pose proof (Z.log2_le_mono (val U - val V) (val U) ltac:(lia)). lia.
  - destruct Hge as [-> Ev]; [exact Hc|]. cbn [Z.eqb]. rewrite p256_is_zero_spec, Ev by exact HD.
    destruct (Z.eqb_spec (val V - val U) 0) as [Hz|Hz].
    + split; [exact HR|]. split; [exact HRm|]. rewrite E1.
      replace (val V) with (val U) in Hg by lia. rewrite Z.gcd_diag, Z.abs_eq in Hg by lia.
      rewrite Hg. reflexivity.
    + destruct (sub_mod_spec S_ R HS HR HSm ltac:(lia)) as [H1 H2]. split.
      * split; cbn [iR iS iU iV]; auto.
        -- split; [exact H1|]. rewrite H2. apply Z.mod_pos_bound. exact Hm.
        -- split; [exact HD|lia].
        -- rewrite H2, eqm_mod, Z.mul_sub_distr_r, E1, E2, <- Ev. reflexivity.
        -- rewrite Ev, Z.gcd_sub_diag_r. exact Hg.
      * unfold measure. cbn [iU iV]. rewrite EU, EV, Ev, Z.odd_sub, EU, EV. cbn [xorb andb].
        pose proof (Z.log2_le_mono (val V - val U) (val V) ltac:(lia)). lia.
Qed.

Lemma modinv_loop_spec fuel s :
  inv_ok s -> 0 < m -> measure s < Z.of_nat fuel ->
  exists R, modinv_loop fuel MOD s = Some R /\ int256 R /\ val R < m /\ val R * a ==[m] 1.
Proof.
  intros Hok Hm. revert s Hok. induction fuel as [|fuel IH]; intros s Hok Hf.
  - exfalso. unfold measure in Hf. pose proof (Z.log2_nonneg (val (iU s))).
    pose proof (Z.log2_nonneg (val (iV s))).
    pose proof (indicator_range (Z.odd (val (iU s)) && Z.odd (val (iV s)))). lia.
  - cbn [modinv_loop]. pose proof (modinv_step_spec s Hok Hm) as H.
    destruct (modinv_step MOD s) as [s'|R]; [|eauto]. destruct H as [Hok' Hlt]. apply IH; [exact Hok'|lia].
Qed.

End Inverse.

Lemma p256_modinv_spec MOD a fuel :
  good_mod MOD -> Z.odd (val MOD) = true -> int256 a -> 0 < val a ->
  Z.gcd (val MOD) (val a) = 1 -> (1022 <= fuel)%nat ->
  exists b, p256_modinv_vartime fuel MOD a = Some b /\ int256 b /\
            0 <= val b < val MOD /\ (val b * val a) mod val MOD = 1.
Proof.
  intros [HM HMb] Hodd Ha Hpos Hg Hf. pose proof (int256_bound MOD HM) as BM.
  pose proof (int256_bound a Ha) as Ba. unfold p256_modinv_vartime.
  destruct (modinv_loop_spec MOD HM Hodd (val a) fuel (mkInv P256_ZERO P256_ONE MOD a))
    as (R & -> & HR & HRm & E).
  - split; cbn [iR iS iU iV]; try (split; [assumption|lia]); try exact Hg.
    + split; [int256_solve|]. change (val P256_ZERO) with 0. lia.
    + split; [int256_solve|]. change (val P256_ONE) with 1. lia.
    + change (val P256_ZERO) with 0. apply eqm_of_diff with (-1). ring.
    + change (val P256_ONE) with 1. now rewrite Z.mul_1_l.
  - lia.
  - unfold measure. cbn [iU iV].
    pose proof (Z.log2_le_mono (val MOD) (2 ^ 256 - 1) ltac:(lia)).
    pose proof (Z.log2_le_mono (val a) (2 ^ 256 - 1) ltac:(lia)).
    change (Z.log2 (2 ^ 256 - 1)) with 255 in *.
    pose proof (indicator_range (Z.odd (val MOD) && Z.odd (val a))). lia.
  - destruct (final_sub_spec MOD R HM ltac:(lia) HR) as [Hb Eb]. exists (p256_mod MOD R).
    split; [reflexivity|]. split; [exact Hb|]. unfold p256_mod. pose proof (int256_bound R HR).
    rewrite Eb, (Z.mod_small (val R)) by lia. split; [lia|].
    unfold eqm in E. rewrite E. apply Z.mod_small. lia.
Qed.

(** C15: For an odd modulus with top digit [-1] and an [a] coprime to it,
    [p256_modinv_vartime] terminates within 1022 iterations and returns the
    inverse of [a] modulo [MOD], reduced. *)
Theorem p256_modinv_correct MOD a fuel :
  good_mod MOD -> Z.odd (val MOD) = true -> int256 a -> 0 < val a ->
  Z.gcd (val MOD) (val a) = 1 -> (1022 <= fuel)%nat ->
  exists b, p256_modinv_vartime fuel MOD a = Some b /\ int256 b /\
            0 <= val b < val MOD /\ (val b * val a) mod val MOD = 1.
Proof. apply p256_modinv_spec. Qed.

Lemma p256_modinv_correct_witness :
  Z.gcd (val SECP256r1_n) (val SECP256r1_b) = 1 /\
  exists b, p256_modinv_vartime 1022 SECP256r1_n SECP256r1_b = Some b /\ int256 b /\
            0 <= val b < val SECP256r1_n /\ (val b * val SECP256r1_b) mod val SECP256r1_n = 1.
Proof.
  assert (G : Z.gcd (val SECP256r1_n) (val SECP256r1_b) = 1) by (vm_compute; reflexivity).
  split; [exact G|].
  apply (p256_modinv_correct SECP256r1_n SECP256r1_b 1022 good_n); try exact G; try exact int256_b.
  - reflexivity.
  - vm_compute. reflexivity.
  - apply le_n.
Defined.

(** For [a = 0] the loop halves [V = 0] for ever: no amount of fuel is enough. *)
Lemma modinv_zero_loops MOD fuel R U :
  int256 U -> Z.odd (val U) = true ->
  forall S_, modinv_loop fuel MOD (mkInv R S_ U P256_ZERO) = None.
Proof.
  intros HU HUo. induction fuel as [|fuel IH]; intros S_; [reflexivity|].
  cbn [modinv_loop]. unfold modinv_step. rewrite p256_is_even_spec, <- Z.negb_odd, HUo by exact HU.
  cbn [negb]. change (p256_is_even P256_ZERO) with true. cbn [negb].
  change (p256_shr1 P256_ZERO 0) with P256_ZERO. apply IH.
Qed.

(** [p256_modinv_vartime] never returns for [a = 0], which has no inverse:
    the caller has to exclude it. *)
Theorem p256_modinv_zero_diverges MOD fuel :
  int256 MOD -> Z.odd (val MOD) = true -> p256_modinv_vartime fuel MOD P256_ZERO = None.
Proof. intros HM Ho. unfold p256_modinv_vartime. now rewrite modinv_zero_loops. Qed.

Lemma p256_modinv_zero_diverges_witness :
  p256_modinv_vartime 4000 SECP256r1_n P256_ZERO = None.
Proof. apply (p256_modinv_zero_diverges SECP256r1_n); [exact (proj1 good_n)|reflexivity]. Defined.

(** * Points on the curve *)

Definition p : Z := val SECP256r1_p.
Definition b : Z := val SECP256r1_b.

(** [y^2 = x^3 - 3 x + b] modulo [p]. *)
Definition on_curve (x y : Z) : Prop := y ^ 2 ==[p] x ^ 3 - 3 * x + b.

Lemma p_value : p = 2 ^ 256 - 2 ^ 224 + 2 ^ 192 + 2 ^ 96 - 1.
Proof. reflexivity. Qed.

(** The value the code compares with [y^2]: reduced only when the addition of
    [b] overflows 256 bits. *)
Definition rhs (x : Z) : Z :=
  let s := (x ^ 3 - 3 * x) mod p + b in if s <? 2 ^ 256 then s else s - p.

Lemma sub_mod_p X Y z :
  int256 X -> int256 Y -> val Y < p -> val X = z mod p ->
  int256 (sub_mod SECP256r1_p X Y) /\ val (sub_mod SECP256r1_p X Y) = (z - val Y) mod p.
Proof.
  intros HX HY HYp E. pose proof (Z.mod_pos_bound z p ltac:(reflexivity)).
  destruct (sub_mod_spec SECP256r1_p (proj1 good_p) X Y HX HY) as [H1 H2]; fold p; [lia|lia|].
  split; [exact H1|]. fold p in H2. rewrite H2, E, Zminus_mod_idemp_l. reflexivity.
Qed.

Lemma cmp_le0 a c : int256 a -> int256 c -> (p256_cmp a c <=? 0) = (val a <=? val c).
Proof.
  intros Ha Hc. rewrite p256_cmp_spec by assumption.
  destruct (Z.ltb_spec (val a) (val c)), (Z.eqb_spec (val a) (val c)), (Z.leb_spec (val a) (val c));
    reflexivity || lia.
Qed.

Lemma cmp_eq0 a c : int256 a -> int256 c -> (p256_cmp a c =? 0) = (val a =? val c).
Proof.
  intros Ha Hc. rewrite p256_cmp_spec by assumption.
  destruct (Z.ltb_spec (val a) (val c)), (Z.eqb_spec (val a) (val c)); reflexivity || lia.
Qed.

Lemma is_valid_point_rhs x y :
  int256 x -> int256 y -> 0 < val x < p -> 0 < val y < p ->
  p256_is_valid_point x y = Some (val y ^ 2 mod p =? rhs (val x)).
Proof.
  intros Hx Hy Hxp Hyp. unfold p256_is_valid_point.
  rewrite !cmp_le0, !p256_is_zero_spec by (assumption || exact (proj1 good_p)). fold p.
  replace (p <=? val x) with false by (symmetry; lia). replace (p <=? val y) with false by (symmetry; lia).
  replace (val x =? 0) with false by (symmetry; lia). replace (val y =? 0) with false by (symmetry; lia).
  cbn [orb].
  destruct (p256_modmul_spec SECP256r1_p y 0 y good_p Hy Hy ltac:(lia)) as (y2 & -> & Hy2 & Ey2).
  destruct (p256_modmul_spec SECP256r1_p x 0 x good_p Hx Hx ltac:(lia)) as (x2 & -> & Hx2 & Ex2).
  destruct (p256_modmul_spec SECP256r1_p x 0 x2 good_p Hx Hx2 ltac:(lia)) as (x3 & -> & Hx3 & Ex3).
  fold p in Ey2, Ex2, Ex3. rewrite Z.mul_0_r, Z.add_0_r in Ey2, Ex2, Ex3.
  rewrite Ex2, Zmult_mod_idemp_r in Ex3.
  destruct (sub_mod_p x3 x _ Hx3 Hx ltac:(lia) Ex3) as [H1 E1].
  destruct (sub_mod_p _ x _ H1 Hx ltac:(lia) E1) as [H2 E2].
  destruct (sub_mod_p _ x _ H2 Hx ltac:(lia) E2) as [H3 E3].
  set (w := sub_mod SECP256r1_p (sub_mod SECP256r1_p (sub_mod SECP256r1_p x3 x) x) x) in *.
  replace (val x * (val x * val x) - val x - val x - val x) with (val x ^ 3 - 3 * val x) in E3 by ring.
  pose proof (p256_add_spec w SECP256r1_b H3 int256_b) as HA.
  destruct (p256_add w SECP256r1_b) as [s c]. destruct HA as (Hs & Hc & Es). fold b in Es.
  pose proof (int256_bound s Hs). pose proof (Z.mod_pos_bound (val x ^ 3 - 3 * val x) p ltac:(reflexivity)).
  assert (Hr : exists r, (if c =? 0 then s else fst (p256_sub s SECP256r1_p)) = r /\ int256 r /\
                         val r = rhs (val x)).
  { unfold rhs. rewrite <- E3. destruct (Z.eqb_spec c 0) as [->|Hc1].
    - exists s. split; [reflexivity|]. split; [exact Hs|]. destruct (Z.ltb_spec (val w + b) (2 ^ 256)); lia.
    - pose proof (p256_sub_spec s SECP256r1_p Hs (proj1 good_p)) as HS.
      destruct (p256_sub s SECP256r1_p) as [r bw]. destruct HS as (Hr & Hlt & _). exists r.
      split; [reflexivity|]. split; [exact Hr|]. fold p in Hlt.
      assert (b < 2 ^ 256 - 2 ^ 253) by reflexivity.
      destruct Hlt as [_ ->]; [rewrite p_value in *; lia|].
      destruct (Z.ltb_spec (val w + b) (2 ^ 256)); lia. }
  destruct Hr as (r & -> & Hr & Er). rewrite cmp_eq0, Ey2, Er by assumption.
  replace (val y * val y) with (val y ^ 2) by ring. reflexivity.
Qed.

(** The missing reduction loses exactly the points whose [y^2] is below [2^256 - p]. *)
Lemma rhs_on_curve x y :
  (y ^ 2 mod p =? rhs x) = true <-> on_curve x y /\ 2 ^ 256 - p <= y ^ 2 mod p.
Proof.
  rewrite Z.eqb_eq. unfold rhs, on_curve, eqm. set (t := (x ^ 3 - 3 * x) mod p).
  assert (Ep : (x ^ 3 - 3 * x + b) mod p = (t + b) mod p) by (unfold t; now rewrite Zplus_mod_idemp_l).
  rewrite Ep. clear Ep. set (q := y ^ 2 mod p).
  assert (Ht : 0 <= t < p) by (apply Z.mod_pos_bound; reflexivity).
  assert (Hq : 0 <= q < p) by (apply Z.mod_pos_bound; reflexivity). clearbody t q.
  assert (Hb : 2 ^ 256 - p < b < p) by (split; reflexivity).
  assert (Hp : 2 ^ 255 < p < 2 ^ 256) by (split; reflexivity).
  destruct (Z.ltb_spec (t + b) (2 ^ 256)) as [Hlt|Hge].
  - destruct (Z.lt_ge_cases (t + b) p) as [Hs|Hs].
    + rewrite Z.mod_small by lia. split; [intros ->; split; [reflexivity|lia]|now intros [-> _]].
    + replace ((t + b) mod p) with (t + b - p) by (apply Z.mod_unique with 1; lia). lia.
  - replace ((t + b) mod p) with (t + b - p) by (apply Z.mod_unique with 1; lia).
    split; [intros ->; split; [reflexivity|lia]|now intros [-> _]].
Qed.

Lemma p256_is_valid_point_spec x y :
  int256 x -> int256 y ->
  exists r, p256_is_valid_point x y = Some r /\
    (r = true <-> 0 < val x < p /\ 0 < val y < p /\ on_curve (val x) (val y) /\
                  2 ^ 256 - p <= val y ^ 2 mod p).
Proof.
  intros Hx Hy. pose proof (int256_bound x Hx). pose proof (int256_bound y Hy).
  assert (D : (0 < val x < p /\ 0 < val y < p) \/
              (p <= val x \/ p <= val y \/ val x = 0 \/ val y = 0)) by lia.
  destruct D as [[Hxp Hyp]|D].
  - exists (val y ^ 2 mod p =? rhs (val x)). split; [now apply is_valid_point_rhs|].
    rewrite rhs_on_curve. tauto.
  - exists false. split; [|split; [discriminate|lia]]. unfold p256_is_valid_point.
    rewrite !cmp_le0, !p256_is_zero_spec by (assumption || exact (proj1 good_p)). fold p.
    replace ((p <=? val x) || (p <=? val y) || (val x =? 0) || (val y =? 0)) with true; [reflexivity|].
    symmetry. rewrite !orb_true_iff, !Z.leb_le, !Z.eqb_eq. tauto.
Qed.

(** What [p256_is_valid_point] decides, exactly: coordinates in [(0, p)], the
    curve equation, and [y^2 mod p >= 2^256 - p].  The last conjunct is not in its
    contract: the sum [x^3 - 3x + b] is reduced only when it overflows 256 bits. *)
Theorem p256_is_valid_point_exact x y :
  int256 x -> int256 y ->
  exists r, p256_is_valid_point x y = Some r /\
    (r = true <-> 0 < val x < p /\ 0 < val y < p /\ on_curve (val x) (val y) /\
                  2 ^ 256 - p <= val y ^ 2 mod p).
Proof. apply p256_is_valid_point_spec. Qed.

(** The base point. *)
Definition Gx : list Z :=
  [0xd898c296; 0xf4a13945; 0x2deb33a0; 0x77037d81; 0x63a440f2; 0xf8bce6e5; 0xe12c4247; 0x6b17d1f2].
Definition Gy : list Z :=
  [0x37bf51f5; 0xcbb64068; 0x6b315ece; 0x2bce3357; 0x7c0f9e16; 0x8ee7eb4a; 0xfe1a7f9b; 0x4fe342e2].

Lemma p256_is_valid_point_exact_witness :
  exists r, p256_is_valid_point Gx Gy = Some r /\
    (r = true <-> 0 < val Gx < p /\ 0 < val Gy < p /\ on_curve (val Gx) (val Gy) /\
                  2 ^ 256 - p <= val Gy ^ 2 mod p).
Proof. apply (p256_is_valid_point_exact Gx Gy); int256_solve. Defined.

Definition lost_x : list Z :=
  [0xa50bb96c; 0x20a9feb2; 0x7e11a9de; 0x3cbdd6b4; 0x9092bc4; 0x50f66362; 0xf60d05f7; 0x9e78d4e].

(** A point of the curve, with both coordinates in range, that the check
    rejects: [(lost_x, 1)]. *)
Theorem p256_is_valid_point_rejects_curve_point :
  0 < val lost_x < p /\ 0 < val P256_ONE < p /\ on_curve (val lost_x) (val P256_ONE) /\
  p256_is_valid_point lost_x P256_ONE = Some false.
Proof. repeat split; vm_compute; reflexivity. Qed.

Lemma p256_from_bin_spec src :
  length src = P256_NBYTES -> bytes src ->
  int256 (p256_from_bin src) /\ val (p256_from_bin src) = be_value src.
Proof.
  intros Hl Hb. destruct (be_digits_val P256_NDIGITS src Hl Hb) as [H1 H2].
  split; [split; [exact H1|reflexivity]|exact H2].
Qed.
