(* ===== verification/DsaSig.v ===== *)
(** Unpacking of ASN.1 DSA signatures: src/libmincrypt/dsa_sig.c.

    The signature is a buffer of exactly [sig_len] bytes; a read outside it has no
    value, so every read goes through the small error monad [outcome]. *)
From Stdlib Require Import ZArith List Lia Bool.
From S2P Require Import Prelude Bignum P256.
Import ListNotations.

(** [while ( *src == 0 && src_len > 0) { src++; src_len--; }]: note the order of
    the two tests. *)
Fixpoint trim_loop (buf : list Z) (src src_len : nat) : outcome (nat * nat) :=
  let! c := rd buf src in
  match src_len with
  | O => Ret (src, O)
  | S k => if c =? 0 then trim_loop buf (S src) k else Ret (src, src_len)
  end.

(** [Some dst] for a return of 1, [None] for 0. *)
Definition trim_to_p256_bytes (buf : list Z) (src src_len : nat) : outcome (option (list Z)) :=
  let! (src, src_len) := trim_loop buf src src_len in
  if (P256_NBYTES <? src_len)%nat || (src_len <? 1)%nat then Ret None
  else
    let dst_offset := (P256_NBYTES - src_len)%nat in
    Ret (Some (repeat 0 dst_offset ++ firstn src_len (skipn src buf))).

Definition dsa_sig_unpack (sig : list Z) : outcome (option (list Z * list Z)) :=
  let sig_len := length sig in
  if (sig_len <? 8)%nat then Ret None else
  let! s0 := rd sig 0 in
  if negb (s0 =? 0x30) then Ret None else
  let! s2 := rd sig 2 in
  if negb (s2 =? 0x02) then Ret None else
  let! s1 := rd sig 1 in
  let seq_len := Z.to_nat s1 in
  if (seq_len <=? 0)%nat || negb (seq_len + 2 =? sig_len)%nat then Ret None else
  let! s3 := rd sig 3 in
  let r_len := Z.to_nat s3 in
  if (r_len <? 1)%nat || (seq_len - 5 <? r_len)%nat then Ret None else
  let! t := rd sig (4 + r_len) in
  if negb (t =? 0x02) then Ret None else
  let! s5 := rd sig (5 + r_len) in
  let s_len := Z.to_nat s5 in
  if (s_len <? 1)%nat || negb (s_len + 4 + r_len =? seq_len)%nat then Ret None else
  let! r_bytes := trim_to_p256_bytes sig 4 r_len in
  match r_bytes with
  | None => Ret None
  | Some r_bytes =>
      let! s_bytes := trim_to_p256_bytes sig (6 + r_len) s_len in
      match s_bytes with
      | None => Ret None
      | Some s_bytes => Ret (Some (p256_from_bin r_bytes, p256_from_bin s_bytes))
      end
  end.

(** * The encoding *)

(** SEQUENCE of two INTEGERs, all lengths in one byte. *)
Definition der_sig (r s : list Z) : list Z :=
  [0x30; Z.of_nat (length r + length s + 4); 0x02; Z.of_nat (length r)] ++ r ++
  [0x02; Z.of_nat (length s)] ++ s.

(** ** Trimming *)

(** Leading zeros are skipped up to the first other byte. *)
Lemma trim_loop_zeros pre k x l suf :
  x <> 0 ->
  trim_loop (pre ++ repeat 0 k ++ x :: l ++ suf) (length pre) (k + S (length l))
  = Ret ((length pre + k)%nat, S (length l)).
Proof.
  intros Hx. revert pre. induction k as [|k IH]; intros pre; cbn [repeat app Nat.add trim_loop].
  - rewrite rd_in. cbn [bind]. destruct (Z.eqb_spec x 0); [contradiction|]. do 2 f_equal. lia.
  - rewrite rd_in. cbn [bind Z.eqb].
    specialize (IH (pre ++ [0])). rewrite <- app_assoc, length_app in IH. cbn [app length] in IH.
    replace (length pre + 1)%nat with (S (length pre)) in IH by lia. rewrite IH. do 2 f_equal. lia.
Qed.

(** An all-zero field is skipped entirely, and one more byte is read. *)
Lemma trim_loop_all_zero pre k suf :
  trim_loop (pre ++ repeat 0 k ++ suf) (length pre) k =
  let! _ := rd (pre ++ repeat 0 k ++ suf) (length pre + k) in Ret ((length pre + k)%nat, O).
Proof.
  revert pre. induction k as [|k IH]; intros pre; cbn [repeat app trim_loop].
  - rewrite Nat.add_0_r. reflexivity.
  - rewrite rd_in. cbn [bind Z.eqb].
    specialize (IH (pre ++ [0])). rewrite <- app_assoc, length_app in IH. cbn [app length] in IH.
    replace (length pre + 1)%nat with (S (length pre)) in IH by lia. rewrite IH.
    replace (S (length pre) + k)%nat with (length pre + S k)%nat by lia. reflexivity.
Qed.

Lemma split_zeros l :
  exists k, l = repeat 0 k \/ exists x t, x <> 0 /\ l = repeat 0 k ++ x :: t.
Proof.
  induction l as [|y l (k & IH)]; [exists O; now left|].
  destruct (Z.eq_dec y 0) as [->|Hy].
  - exists (S k). destruct IH as [->|(x & t & Hx & ->)]; [now left|right; exists x, t; auto].
  - exists O. right. exists y, l. auto.
Qed.

Lemma be_value_zeros k l : be_value (repeat 0 k ++ l) = be_value l.
Proof. induction k as [|k IH]; [reflexivity|]. cbn [repeat app]. rewrite be_value_cons, IH. lia. Qed.

(** The field [l] behind [pre]: what the trimming returns, by the value of [l]. *)
Lemma trim_spec pre l suf :
  bytes l ->
  trim_to_p256_bytes (pre ++ l ++ suf) (length pre) (length l) =
  if be_value l =? 0 then
    let! _ := rd (pre ++ l ++ suf) (length pre + length l) in Ret None
  else if be_value l <? 2 ^ 256 then Ret (Some (be_bytes P256_NBYTES (be_value l)))
  else Ret None.
Proof.
  intros Hb. unfold trim_to_p256_bytes. destruct (split_zeros l) as (k & [->|(x & t & Hx & ->)]).
  - rewrite repeat_length, trim_loop_all_zero.
    assert (E : be_value (repeat 0 k) = 0) by (rewrite <- (app_nil_r (repeat 0 k)); apply be_value_zeros).
    rewrite E. cbn [Z.eqb].
    destruct (rd _ _); reflexivity.
  - apply Forall_app in Hb as [_ Hb]. rewrite be_value_zeros.
    assert (Hxt : bytes (x :: t)) by exact Hb. inversion Hb as [|? ? Hxb Hbt]; subst. unfold word in Hxb.
    rewrite <- app_assoc. cbn [app].
    replace (length (repeat 0 k ++ x :: t)) with (k + S (length t))%nat
      by (rewrite length_app, repeat_length; reflexivity).
    rewrite trim_loop_zeros by exact Hx. cbn [bind].
    pose proof (be_value_bound t Hbt) as Bt. pose proof (be_value_cons x t) as Ec.
    assert (Hp : 0 < 2 ^ (8 * Z.of_nat (length t))) by (apply Z.pow_pos_nonneg; lia).
    destruct (Z.eqb_spec (be_value (x :: t)) 0) as [E|_]; [nia|].
    change (S (length t) <? 1)%nat with false. rewrite orb_false_r.
    destruct (Nat.ltb_spec P256_NBYTES (S (length t))) as [Hl|Hl]; unfold P256_NBYTES in *.
    + destruct (Z.ltb_spec (be_value (x :: t)) (2 ^ 256)) as [Hv|_]; [|reflexivity].
      assert (2 ^ 256 <= 2 ^ (8 * Z.of_nat (length t))) by (apply Z.pow_le_mono_r; lia). nia.
    + assert (2 ^ (8 * Z.of_nat (S (length t))) <= 2 ^ 256) by (apply Z.pow_le_mono_r; lia).
      pose proof (be_value_bound _ Hxt) as Bv. cbn [length] in Bv.
      destruct (Z.ltb_spec (be_value (x :: t)) (2 ^ 256)) as [_|Hv]; [|lia]. do 2 f_equal.
      replace (skipn (length pre + k) (pre ++ repeat 0 k ++ x :: t ++ suf)) with ((x :: t) ++ suf).
      2: { rewrite app_assoc, skipn_app, length_app, repeat_length, Nat.sub_diag, skipn_all2; [reflexivity|].
           rewrite length_app, repeat_length. lia. }
      rewrite firstn_app. cbn [length]. rewrite Nat.sub_diag, firstn_O, app_nil_r, firstn_all2 by (cbn; lia).
      apply be_bytes_inj.
      * apply words_app; [|exact Hxt]. apply Forall_forall. intros z Hz. apply repeat_spec in Hz. subst z.
        split; lia.
      * apply be_bytes_bytes.
      * rewrite length_app, repeat_length, be_bytes_length. cbn [length]. lia.
      * rewrite be_value_zeros, be_value_be_bytes. symmetry. apply Z.mod_small. lia.
Qed.

(** ** Parsing *)

(** Lengths that fit the one-byte fields. *)
Definition der_lengths (r s : list Z) : Prop :=
  (1 <= length r /\ 1 <= length s /\ length r + length s + 4 < 256)%nat.

Definition unpacked (r s : list Z) : outcome (option (list Z * list Z)) :=
  if negb ((0 <? be_value r) && (be_value r <? 2 ^ 256)) then Ret None
  else if be_value s =? 0 then Fault
  else if negb (be_value s <? 2 ^ 256) then Ret None
  else Ret (Some (p256_from_bin (be_bytes P256_NBYTES (be_value r)),
                  p256_from_bin (be_bytes P256_NBYTES (be_value s)))).

Lemma rd_app pre l i x : rd l i = Ret x -> rd (pre ++ l) (length pre + i) = Ret x.
Proof.
  unfold rd. rewrite nth_error_app2 by lia. now replace (length pre + i - length pre)%nat with i by lia.
Qed.

Lemma unpack_der r s :
  bytes r -> bytes s -> der_lengths r s -> dsa_sig_unpack (der_sig r s) = unpacked r s.
Proof.
  intros Hr Hs (Hlr & Hls & Hsum). unfold der_sig.
  set (h := [0x30; Z.of_nat (length r + length s + 4); 0x02; Z.of_nat (length r)]).
  set (f := [0x02; Z.of_nat (length s)] ++ s). set (sig := h ++ r ++ f).
  assert (Hl : length sig = (6 + length r + length s)%nat)
    by (unfold sig, f; rewrite !length_app; simpl; lia).
  assert (R4 : rd sig (4 + length r) = Ret 0x02).
  { unfold sig. rewrite app_assoc. replace (4 + length r)%nat with (length (h ++ r)) by (rewrite length_app; reflexivity).
    apply rd_in. }
  assert (R5 : rd sig (5 + length r) = Ret (Z.of_nat (length s))).
  { unfold sig. rewrite app_assoc.
    replace (5 + length r)%nat with (length (h ++ r) + 1)%nat by (rewrite length_app; simpl; lia).
    now apply rd_app. }
  pose proof (trim_spec h r f Hr) as T1. change (length h) with 4%nat in T1. fold sig in T1.
  pose proof (trim_spec (h ++ r ++ [0x02; Z.of_nat (length s)]) s [] Hs) as T2.
  replace ((h ++ r ++ [0x02; Z.of_nat (length s)]) ++ s ++ []) with sig in T2
    by (unfold sig, f; rewrite app_nil_r, <- !app_assoc; reflexivity).
  replace (length (h ++ r ++ [0x02; Z.of_nat (length s)])) with (6 + length r)%nat in T2
    by (rewrite !length_app; simpl; lia).
  rewrite R4 in T1. rewrite <- Hl in T2.
  rewrite rd_end in T2. cbn [bind] in T1, T2.
  unfold dsa_sig_unpack.
  rewrite (proj2 (Nat.ltb_ge (length sig) 8)) by lia.
  change (rd sig 0) with (Ret 0x30). change (rd sig 2) with (Ret 0x02).
  change (rd sig 1) with (Ret (Z.of_nat (length r + length s + 4))).
  change (rd sig 3) with (Ret (Z.of_nat (length r))). cbn [bind Z.eqb Pos.eqb negb].
  rewrite !Nat2Z.id, R4. cbn [bind Z.eqb Pos.eqb negb]. rewrite R5. cbn [bind]. rewrite !Nat2Z.id, T1, T2, Hl.
  rewrite (proj2 (Nat.leb_gt _ 0)), (proj2 (Nat.eqb_eq _ _)) by lia. cbn [orb negb].
  rewrite (proj2 (Nat.ltb_ge (length r) 1)), (proj2 (Nat.ltb_ge _ (length r))) by lia. cbn [orb].
  rewrite (proj2 (Nat.ltb_ge (length s) 1)), (proj2 (Nat.eqb_eq (length s + 4 + length r) _)) by lia. cbn [orb negb].
  unfold unpacked. pose proof (be_value_bound r Hr). pose proof (be_value_bound s Hs).
  destruct (Z.eqb_spec (be_value r) 0) as [->|Hr0]; [reflexivity|].
  rewrite (proj2 (Z.ltb_lt 0 (be_value r))) by lia.
  destruct (be_value r <? 2 ^ 256); [|reflexivity]. cbn [andb negb bind].
  destruct (be_value s =? 0); [reflexivity|]. destruct (be_value s <? 2 ^ 256); reflexivity.
Qed.

Lemma rd_some buf i x : rd buf i = Ret x -> nth_error buf i = Some x.
Proof. unfold rd. destruct (nth_error buf i); congruence. Qed.

Lemma rd_lt buf i : (i < length buf)%nat -> exists x, rd buf i = Ret x.
Proof.
  intros H. unfold rd. destruct (nth_error buf i) eqn:E; [eauto|].
  apply nth_error_None in E. lia.
Qed.

Lemma split_at (l : list Z) k x y :
  nth_error l k = Some x -> nth_error l (S k) = Some y ->
  exists r s, l = r ++ x :: y :: s /\ length r = k.
Proof.
  revert l. induction k as [|k IH]; intros [|z l] H1 H2; try discriminate.
  - injection H1 as ->. destruct l as [|w l]; [discriminate|]. injection H2 as ->. exists [], l. auto.
  - destruct (IH l H1 H2) as (r & s & -> & Hl). exists (z :: r), s. simpl. auto.
Qed.

(** Whatever is not rejected outright is such an encoding. *)
Lemma unpack_shape sig :
  bytes sig -> dsa_sig_unpack sig <> Ret None ->
  exists r s, sig = der_sig r s /\ bytes r /\ bytes s /\ der_lengths r s.
Proof.
  intros Hb H. unfold dsa_sig_unpack in H.
  destruct (Nat.ltb_spec (length sig) 8) as [|Hlen]; [congruence|].
  destruct sig as [|s0 [|s1 [|s2 [|s3 l]]]]; try (simpl in Hlen; lia).
  change (rd _ 0) with (Ret s0) in H. change (rd _ 2) with (Ret s2) in H.
  change (rd _ 1) with (Ret s1) in H. change (rd _ 3) with (Ret s3) in H. cbn [bind] in H.
  destruct (Z.eqb_spec s0 0x30) as [->|]; cbn [negb] in H; [|congruence].
  destruct (Z.eqb_spec s2 0x02) as [->|]; cbn [negb] in H; [|congruence].
  destruct (Nat.leb_spec (Z.to_nat s1) 0); cbn [orb] in H; [congruence|].
  destruct (Nat.eqb_spec (Z.to_nat s1 + 2) (length (0x30 :: s1 :: 0x02 :: s3 :: l))) as [Hs1|];
    cbn [negb] in H; [|congruence].
  destruct (Nat.ltb_spec (Z.to_nat s3) 1); cbn [orb] in H; [congruence|].
  destruct (Nat.ltb_spec (Z.to_nat s1 - 5) (Z.to_nat s3)); [congruence|]. cbn [length] in Hs1, Hlen.
  set (sig := 0x30 :: s1 :: 0x02 :: s3 :: l) in *. assert (Hsl : length sig = (4 + length l)%nat) by reflexivity.
  destruct (rd_lt sig (4 + Z.to_nat s3) ltac:(lia)) as [t Et].
  destruct (rd_lt sig (5 + Z.to_nat s3) ltac:(lia)) as [s5 Es5]. rewrite Et in H. cbn [bind] in H.
  destruct (Z.eqb_spec t 0x02) as [Ht|]; cbn [negb] in H; [|congruence]. rewrite Ht in Et. rewrite Es5 in H. cbn [bind] in H.
  destruct (Nat.ltb_spec (Z.to_nat s5) 1); cbn [orb] in H; [congruence|].
  destruct (Nat.eqb_spec (Z.to_nat s5 + 4 + Z.to_nat s3) (Z.to_nat s1)); cbn [negb] in H; [|congruence].
  clear H. apply rd_some in Et, Es5.
  destruct (split_at l (Z.to_nat s3) 0x02 s5 Et Es5) as (r & s & -> & Hlr).
  subst sig. unfold bytes, words in Hb. rewrite !Forall_cons_iff, Forall_app, !Forall_cons_iff in Hb.
  unfold word in Hb. destruct Hb as (_ & B1 & _ & B3 & Br & _ & B5 & Bs).
  rewrite length_app in Hs1. cbn [length] in Hs1.
  exists r, s. unfold der_lengths. repeat split; try assumption; try lia.
  unfold der_sig. cbn [app]. repeat f_equal; lia.
Qed.

Lemma unpacked_some r s R S_ :
  bytes r -> bytes s -> unpacked r s = Ret (Some (R, S_)) ->
  0 < be_value r < 2 ^ 256 /\ 0 < be_value s < 2 ^ 256 /\
  int256 R /\ val R = be_value r /\ int256 S_ /\ val S_ = be_value s.
Proof.
  intros Hr Hs. unfold unpacked. pose proof (be_value_bound s Hs).
  destruct (Z.ltb_spec 0 (be_value r)), (Z.ltb_spec (be_value r) (2 ^ 256)); cbn [andb negb]; try discriminate.
  destruct (Z.eqb_spec (be_value s) 0); [discriminate|].
  destruct (Z.ltb_spec (be_value s) (2 ^ 256)); cbn [negb]; [|discriminate]. intros [= <- <-].
  assert (G : forall z, 0 <= z < 2 ^ 256 ->
    int256 (p256_from_bin (be_bytes P256_NBYTES z)) /\ val (p256_from_bin (be_bytes P256_NBYTES z)) = z).
  { intros z Hz. destruct (p256_from_bin_spec (be_bytes P256_NBYTES z) (be_bytes_length _ _) (be_bytes_bytes _ _))
      as [Hi ->]. split; [exact Hi|]. rewrite be_value_be_bytes. now apply Z.mod_small. }
  destruct (G (be_value r)) as [Ir Er]; [lia|]. destruct (G (be_value s)) as [Is Es]; [lia|].
  split; [lia|]. split; [lia|]. auto.
Qed.

(** The one way to read past the signature: the trimming tests the byte before
    the remaining length, so a well-formed signature whose [s] is zero makes it read
    the byte after the last one; no other input does. *)
Lemma unpack_overread sig :
  bytes sig ->
  (dsa_sig_unpack sig = Fault <->
   exists r s, sig = der_sig r s /\ bytes r /\ bytes s /\ der_lengths r s /\
               0 < be_value r < 2 ^ 256 /\ be_value s = 0).
Proof.
  intros Hb. split.
  - intros H. destruct (unpack_shape sig Hb ltac:(congruence)) as (r & s & -> & Hr & Hs & Hl).
    rewrite unpack_der in H by assumption. exists r, s. unfold unpacked in H.
    destruct (Z.ltb_spec 0 (be_value r)), (Z.ltb_spec (be_value r) (2 ^ 256)); cbn [andb negb] in H;
      try discriminate.
    destruct (Z.eqb_spec (be_value s) 0); [|now destruct (be_value s <? 2 ^ 256)].
    repeat split; auto; apply Hl.
  - intros (r & s & -> & Hr & Hs & Hl & Br & Es). rewrite unpack_der by assumption. unfold unpacked.
    rewrite (proj2 (Z.ltb_lt _ _)), (proj2 (Z.ltb_lt _ _)) by lia. rewrite Es. reflexivity.
Qed.

(** What an encoding of two integers in range is, and the integers. *)
Definition encodes (sig : list Z) (R S_ : list Z) : Prop :=
  exists r s, sig = der_sig r s /\ bytes r /\ bytes s /\ der_lengths r s /\
    0 < be_value r < 2 ^ 256 /\ 0 < be_value s < 2 ^ 256 /\
    int256 R /\ val R = be_value r /\ int256 S_ /\ val S_ = be_value s.

Lemma int256_val_inj a b : int256 a -> int256 b -> val a = val b -> a = b.
Proof. intros [Ha La] [Hb Lb] E. apply (eval_inj 32); try assumption; (lia || congruence). Qed.

Lemma unpack_accepts sig R S_ : bytes sig -> dsa_sig_unpack sig = Ret (Some (R, S_)) -> encodes sig R S_.
Proof.
  intros Hb H. destruct (unpack_shape sig Hb ltac:(congruence)) as (r & s & -> & Hr & Hs & Hl).
  rewrite unpack_der in H by assumption. exists r, s. apply (unpacked_some r s R S_ Hr Hs) in H. tauto.
Qed.

Lemma unpack_encoded r s : bytes r -> bytes s -> der_lengths r s -> 0 < be_value r < 2 ^ 256 -> 0 < be_value s < 2 ^ 256 ->
  exists R S_, dsa_sig_unpack (der_sig r s) = Ret (Some (R, S_)).
Proof.
  intros Hr Hs Hl Br Bs. rewrite unpack_der by assumption. unfold unpacked.
  rewrite (proj2 (Z.ltb_lt 0 _)), (proj2 (Z.ltb_lt (be_value r) _)), (proj2 (Z.eqb_neq (be_value s) 0)), (proj2 (Z.ltb_lt (be_value s) _)) by lia.
  cbn [andb negb]. eauto.
Qed.

(** C36: [dsa_sig_unpack] accepts exactly the encodings of two positive integers
    below [2^256] (leading zero bytes allowed, all lengths in one byte) and returns their
    values.  It reads outside the signature exactly when the first integer is in range
    and the second is zero; everything else is refused. *)
Theorem dsa_sig_unpack_exact sig :
  bytes sig ->
  (forall R S_, dsa_sig_unpack sig = Ret (Some (R, S_)) <-> encodes sig R S_) /\
  (dsa_sig_unpack sig = Fault <->
   exists r s, sig = der_sig r s /\ bytes r /\ bytes s /\ der_lengths r s /\
               0 < be_value r < 2 ^ 256 /\ be_value s = 0).
Proof.
  intros Hb. split; [|now apply unpack_overread]. intros R S_. split; [now apply unpack_accepts|].
  intros (r & s & -> & Hr & Hs & Hl & Br & Bs & IR & VR & IS & VS).
  destruct (unpack_encoded r s) as (R' & S' & E); auto. rewrite E. rewrite unpack_der in E by assumption.
  destruct (unpacked_some r s R' S' Hr Hs E) as (_ & _ & IR' & VR' & IS' & VS').
  do 3 f_equal; apply int256_val_inj; congruence.
Qed.

Lemma dsa_sig_unpack_exact_witness :
  let sig := [0x30; 7; 2; 2; 0; 200; 2; 1; 5] in
  (forall R S_, dsa_sig_unpack sig = Ret (Some (R, S_)) <-> encodes sig R S_) /\
  (dsa_sig_unpack sig = Fault <->
   exists r s, sig = der_sig r s /\ bytes r /\ bytes s /\ der_lengths r s /\
               0 < be_value r < 2 ^ 256 /\ be_value s = 0).
Proof. apply (dsa_sig_unpack_exact [0x30; 7; 2; 2; 0; 200; 2; 1; 5]). repeat constructor; discriminate. Defined.

(** Both outcomes occur. *)
Lemma unpack_example : exists R S_, dsa_sig_unpack [0x30; 7; 2; 2; 0; 200; 2; 1; 5] = Ret (Some (R, S_)) /\ val R = 200 /\ val S_ = 5.
Proof. do 2 eexists. split; [vm_compute; reflexivity|split; reflexivity]. Qed.
Lemma unpack_overread_example : dsa_sig_unpack [0x30; 6; 2; 1; 9; 2; 1; 0] = Fault.
Proof. reflexivity. Qed.
