(* ===== verification/P256Field.v ===== *)
(** The field of P-256: src/libmincrypt/p256_ec.c, first part.

    A field element is nine 32-bit limbs, alternately 29 and 28 bits wide, in
    Montgomery form with R = 2^257.  Limbs are kept loose: below 2^30 and 2^29
    between operations.  Every store is to a [uint32_t] and wraps; the theorems
    show where it does not, and the one place where it does on purpose. *)
From Stdlib Require Import ZArith List Lia Bool Morphisms Setoid.
From S2P Require Import Prelude Bignum P256.
Import ListNotations.

Definition NLIMBS : nat := 9.

Definition kBottom28Bits : Z := 0xfffffff.
Definition kBottom29Bits : Z := 0x1fffffff.

Definition kOne : list Z := [2; 0; 0; 0xffff800; 0x1fffffff; 0xfffffff; 0x1fbfffff; 0x1ffffff; 0].
Definition kZero : list Z := [0; 0; 0; 0; 0; 0; 0; 0; 0].
Definition kP : list Z :=
  [0x1fffffff; 0xfffffff; 0x1fffffff; 0x3ff; 0; 0; 0x200000; 0xf000000; 0xfffffff].
Definition k2P : list Z :=
  [0x1ffffffe; 0xfffffff; 0x1fffffff; 0x7ff; 0; 0; 0x400000; 0xe000000; 0x1fffffff].

Definition NON_ZERO_TO_ALL_ONES (x : Z) : Z := ((x [-] 1) >> 31) [-] 1.

(** [inout[k] += v] and [inout[k] -= v] *)
Definition add_at (l : list Z) (k : nat) (v : Z) : list Z := set l k (get l k [+] v).
Definition sub_at (l : list Z) (k : nat) (v : Z) : list Z := set l k (get l k [-] v).

Definition felem_reduce_carry (inout : list Z) (carry : Z) : list Z :=
  let carry_mask := NON_ZERO_TO_ALL_ONES carry in
  let inout := add_at inout 0 (carry [<<] 1) in
  let inout := add_at inout 3 (0x10000000 .& carry_mask) in
  let inout := sub_at inout 3 (carry [<<] 11) in
  let inout := add_at inout 4 ((0x20000000 - 1) .& carry_mask) in
  let inout := add_at inout 5 ((0x10000000 - 1) .& carry_mask) in
  let inout := add_at inout 6 ((0x20000000 - 1) .& carry_mask) in
  let inout := sub_at inout 6 (carry [<<] 22) in
  let inout := sub_at inout 7 (1 .& carry_mask) in
  add_at inout 7 (carry [<<] 25).

(** The carry chain all the loops share: [out[i] += carry; carry = out[i] >> w;
    out[i] &= mask], with [w] alternately 29 and 28. *)
Definition limb_width (even : bool) : Z := if even then 29 else 28.
Definition limb_mask (even : bool) : Z := if even then kBottom29Bits else kBottom28Bits.

Fixpoint carry_chain (even : bool) (carry : Z) (l : list Z) : list Z * Z :=
  match l with
  | [] => ([], carry)
  | x :: t =>
      let v := x [+] carry in
      let '(r, c) := carry_chain (negb even) (v >> limb_width even) t in
      ((v .& limb_mask even) :: r, c)
  end.

(** [for (i = 0; i < NLIMBS; i++) out[i] = f(i)] followed by the chain. *)
Definition chained (f : nat -> Z) : list Z :=
  let '(r, carry) := carry_chain true 0 (map f (seq 0 NLIMBS)) in
  felem_reduce_carry r carry.

Definition felem_sum (inp in2 : list Z) : list Z :=
  chained (fun i => get inp i [+] get in2 i).

Definition two31m3 : Z := (1 [<<] 31) [-] (1 [<<] 3).
Definition two30m2 : Z := (1 [<<] 30) [-] (1 [<<] 2).
Definition two30p13m2 : Z := (1 [<<] 30) [+] (1 [<<] 13) [-] (1 [<<] 2).
Definition two31m2 : Z := (1 [<<] 31) [-] (1 [<<] 2).
Definition two31p24m2 : Z := (1 [<<] 31) [+] (1 [<<] 24) [-] (1 [<<] 2).
Definition two30m27m2 : Z := (1 [<<] 30) [-] (1 [<<] 27) [-] (1 [<<] 2).

Definition zero31 : list Z :=
  [two31m3; two30m2; two31m2; two30p13m2; two31m2; two30m2; two31p24m2; two30m27m2; two31m2].

Definition felem_diff (inp in2 : list Z) : list Z :=
  chained (fun i => (get inp i [-] get in2 i) [+] get zero31 i).

(** ** Reduction of a product *)

(** [tmp2[i]] before the carry is added, for [2 <= i < 17]. *)
Definition spread (tmp : list Z) (i : nat) : Z :=
  let hi2 := u32 (get tmp (i - 2) >> 32) >> 25 in
  if Nat.even i then
    hi2 [+] (u32 (get tmp (i - 1)) >> 28)
        [+] ((u32 (get tmp (i - 1) >> 32) [<<] 4) .& kBottom29Bits)
        [+] (u32 (get tmp i) .& kBottom29Bits)
  else
    hi2 [+] (u32 (get tmp (i - 1)) >> 29)
        [+] ((u32 (get tmp (i - 1) >> 32) [<<] 3) .& kBottom28Bits)
        [+] (u32 (get tmp i) .& kBottom28Bits).

(** The elimination of overlaps: the eighteen words of [tmp2]. *)
Definition reduce_split (tmp : list Z) : list Z :=
  let t0 := u32 (get tmp 0 .& kBottom29Bits) in
  let t1 := (u32 (get tmp 0) >> 29) .| ((u32 (get tmp 0 >> 32) [<<] 3) .& kBottom28Bits) in
  let t1 := t1 [+] (u32 (get tmp 1) .& kBottom28Bits) in
  let carry := t1 >> 28 in
  let t1 := t1 .& kBottom28Bits in
  let '(r, carry) := carry_chain true carry (map (spread tmp) (seq 2 15)) in
  let t17 := (u32 (get tmp 15 >> 32) >> 25)
             [+] (u32 (get tmp 16) >> 29)
             [+] (u32 (get tmp 16 >> 32) [<<] 3)
             [+] carry in
  t0 :: t1 :: r ++ [t17].

(** What the first half of an iteration of the elimination loop adds, for the
    bits [x] removed from word [i]. *)
Definition top_apply (tmp2 : list Z) (i : nat) (x : Z) : list Z :=
  let xMask := NON_ZERO_TO_ALL_ONES x in
  let tmp2 := add_at tmp2 (i + 3) ((x [<<] 10) .& kBottom28Bits) in
  let tmp2 := add_at tmp2 (i + 4) (x >> 18) in
  let tmp2 := add_at tmp2 (i + 6) ((x [<<] 21) .& kBottom29Bits) in
  let tmp2 := add_at tmp2 (i + 7) (x >> 8) in
  let tmp2 := add_at tmp2 (i + 7) (0x10000000 .& xMask) in
  let tmp2 := add_at tmp2 (i + 8) ((x [-] 1) .& xMask) in
  let tmp2 := sub_at tmp2 (i + 7) ((x [<<] 24) .& kBottom28Bits) in
  let tmp2 := sub_at tmp2 (i + 8) (x >> 4) in
  let tmp2 := add_at tmp2 (i + 8) (0x20000000 .& xMask) in
  let tmp2 := sub_at tmp2 (i + 8) x in
  let tmp2 := add_at tmp2 (i + 8) ((x [<<] 28) .& kBottom29Bits) in
  add_at tmp2 (i + 9) (((x >> 1) [-] 1) .& xMask).

Definition top_half (tmp2 : list Z) (i : nat) : list Z :=
  let tmp2 := add_at tmp2 (i + 1) (get tmp2 i >> 29) in
  let x := get tmp2 i .& kBottom29Bits in
  let tmp2 := set tmp2 i 0 in
  top_apply tmp2 i x.

(** The same for the second half, for the bits [x] removed from word [i + 1]. *)
Definition bottom_apply (tmp2 : list Z) (i : nat) (x : Z) : list Z :=
  let xMask := NON_ZERO_TO_ALL_ONES x in
  let tmp2 := add_at tmp2 (i + 4) ((x [<<] 11) .& kBottom29Bits) in
  let tmp2 := add_at tmp2 (i + 5) (x >> 18) in
  let tmp2 := add_at tmp2 (i + 7) ((x [<<] 21) .& kBottom28Bits) in
  let tmp2 := add_at tmp2 (i + 8) (x >> 7) in
  let tmp2 := add_at tmp2 (i + 8) (0x20000000 .& xMask) in
  let tmp2 := add_at tmp2 (i + 9) ((x [-] 1) .& xMask) in
  let tmp2 := sub_at tmp2 (i + 8) ((x [<<] 25) .& kBottom29Bits) in
  let tmp2 := sub_at tmp2 (i + 9) (x >> 4) in
  let tmp2 := add_at tmp2 (i + 9) (0x10000000 .& xMask) in
  let tmp2 := sub_at tmp2 (i + 9) x in
  add_at tmp2 (i + 10) ((x [-] 1) .& xMask).

Definition bottom_half (tmp2 : list Z) (i : nat) : list Z :=
  let tmp2 := add_at tmp2 (i + 2) (get tmp2 (i + 1) >> 28) in
  let x := get tmp2 (i + 1) .& kBottom28Bits in
  let tmp2 := set tmp2 (i + 1) 0 in
  bottom_apply tmp2 i x.

(** [for (i = 0;; i += 2)], leaving in the middle of the iteration [i = 8]. *)
Definition reduce_eliminate (tmp2 : list Z) : list Z :=
  let tmp2 := fold_left (fun t i => bottom_half (top_half t i) i) [0; 2; 4; 6]%nat tmp2 in
  top_half tmp2 8.

(** [out[i]] before its carry is added. *)
Definition shifted (tmp2 : list Z) (i : nat) : Z :=
  if (i =? 8)%nat then get tmp2 17
  else if Nat.even i then get tmp2 (i + 9) [+] ((get tmp2 (i + 10) [<<] 28) .& kBottom29Bits)
  else get tmp2 (i + 9) >> 1.

Definition felem_reduce_degree (tmp : list Z) : list Z :=
  let tmp2 := reduce_split tmp in
  let tmp2 := reduce_eliminate tmp2 in
  chained (shifted tmp2).

(** The seventeen products of [felem_square]. *)
Definition square_terms (inp : list Z) : list Z :=
  [u64 (get inp 0 * get inp 0);
   u64 (get inp 0 * (get inp 1 [<<] 1));
   u64 (u64 (get inp 0 * (get inp 2 [<<] 1)) +
        u64 (get inp 1 * (get inp 1 [<<] 1)));
   u64 (u64 (get inp 0 * (get inp 3 [<<] 1)) +
        u64 (get inp 1 * (get inp 2 [<<] 1)));
   u64 (u64 (get inp 0 * (get inp 4 [<<] 1)) +
        u64 (get inp 1 * (get inp 3 [<<] 2)) +
        u64 (get inp 2 * get inp 2));
   u64 (u64 (get inp 0 * (get inp 5 [<<] 1)) +
        u64 (get inp 1 * (get inp 4 [<<] 1)) +
        u64 (get inp 2 * (get inp 3 [<<] 1)));
   u64 (u64 (get inp 0 * (get inp 6 [<<] 1)) +
        u64 (get inp 1 * (get inp 5 [<<] 2)) +
        u64 (get inp 2 * (get inp 4 [<<] 1)) +
        u64 (get inp 3 * (get inp 3 [<<] 1)));
   u64 (u64 (get inp 0 * (get inp 7 [<<] 1)) +
        u64 (get inp 1 * (get inp 6 [<<] 1)) +
        u64 (get inp 2 * (get inp 5 [<<] 1)) +
        u64 (get inp 3 * (get inp 4 [<<] 1)));
   u64 (u64 (get inp 0 * (get inp 8 [<<] 1)) +
        u64 (get inp 1 * (get inp 7 [<<] 2)) +
        u64 (get inp 2 * (get inp 6 [<<] 1)) +
        u64 (get inp 3 * (get inp 5 [<<] 2)) +
        u64 (get inp 4 * get inp 4));
   u64 (u64 (get inp 1 * (get inp 8 [<<] 1)) +
        u64 (get inp 2 * (get inp 7 [<<] 1)) +
        u64 (get inp 3 * (get inp 6 [<<] 1)) +
        u64 (get inp 4 * (get inp 5 [<<] 1)));
   u64 (u64 (get inp 2 * (get inp 8 [<<] 1)) +
        u64 (get inp 3 * (get inp 7 [<<] 2)) +
        u64 (get inp 4 * (get inp 6 [<<] 1)) +
        u64 (get inp 5 * (get inp 5 [<<] 1)));
   u64 (u64 (get inp 3 * (get inp 8 [<<] 1)) +
        u64 (get inp 4 * (get inp 7 [<<] 1)) +
        u64 (get inp 5 * (get inp 6 [<<] 1)));
   u64 (u64 (get inp 4 * (get inp 8 [<<] 1)) +
        u64 (get inp 5 * (get inp 7 [<<] 2)) +
        u64 (get inp 6 * get inp 6));
   u64 (u64 (get inp 5 * (get inp 8 [<<] 1)) +
        u64 (get inp 6 * (get inp 7 [<<] 1)));
   u64 (u64 (get inp 6 * (get inp 8 [<<] 1)) +
        u64 (get inp 7 * (get inp 7 [<<] 1)));
   u64 (get inp 7 * (get inp 8 [<<] 1));
   u64 (get inp 8 * get inp 8)].

Definition felem_square (inp : list Z) : list Z := felem_reduce_degree (square_terms inp).

(** The seventeen products of [felem_mul]. *)
Definition mul_terms (inp in2 : list Z) : list Z :=
  [u64 (get inp 0 * get in2 0);
   u64 (u64 (get inp 0 * (get in2 1 [<<] 0)) +
        u64 (get inp 1 * (get in2 0 [<<] 0)));
   u64 (u64 (get inp 0 * (get in2 2 [<<] 0)) +
        u64 (get inp 1 * (get in2 1 [<<] 1)) +
        u64 (get inp 2 * (get in2 0 [<<] 0)));
   u64 (u64 (get inp 0 * (get in2 3 [<<] 0)) +
        u64 (get inp 1 * (get in2 2 [<<] 0)) +
        u64 (get inp 2 * (get in2 1 [<<] 0)) +
        u64 (get inp 3 * (get in2 0 [<<] 0)));
   u64 (u64 (get inp 0 * (get in2 4 [<<] 0)) +
        u64 (get inp 1 * (get in2 3 [<<] 1)) +
        u64 (get inp 2 * (get in2 2 [<<] 0)) +
        u64 (get inp 3 * (get in2 1 [<<] 1)) +
        u64 (get inp 4 * (get in2 0 [<<] 0)));
   u64 (u64 (get inp 0 * (get in2 5 [<<] 0)) +
        u64 (get inp 1 * (get in2 4 [<<] 0)) +
        u64 (get inp 2 * (get in2 3 [<<] 0)) +
        u64 (get inp 3 * (get in2 2 [<<] 0)) +
        u64 (get inp 4 * (get in2 1 [<<] 0)) +
        u64 (get inp 5 * (get in2 0 [<<] 0)));
   u64 (u64 (get inp 0 * (get in2 6 [<<] 0)) +
        u64 (get inp 1 * (get in2 5 [<<] 1)) +
        u64 (get inp 2 * (get in2 4 [<<] 0)) +
        u64 (get inp 3 * (get in2 3 [<<] 1)) +
        u64 (get inp 4 * (get in2 2 [<<] 0)) +
        u64 (get inp 5 * (get in2 1 [<<] 1)) +
        u64 (get inp 6 * (get in2 0 [<<] 0)));
   u64 (u64 (get inp 0 * (get in2 7 [<<] 0)) +
        u64 (get inp 1 * (get in2 6 [<<] 0)) +
        u64 (get inp 2 * (get in2 5 [<<] 0)) +
        u64 (get inp 3 * (get in2 4 [<<] 0)) +
        u64 (get inp 4 * (get in2 3 [<<] 0)) +
        u64 (get inp 5 * (get in2 2 [<<] 0)) +
        u64 (get inp 6 * (get in2 1 [<<] 0)) +
        u64 (get inp 7 * (get in2 0 [<<] 0)));
   u64 (u64 (get inp 0 * (get in2 8 [<<] 0)) +
        u64 (get inp 1 * (get in2 7 [<<] 1)) +
        u64 (get inp 2 * (get in2 6 [<<] 0)) +
        u64 (get inp 3 * (get in2 5 [<<] 1)) +
        u64 (get inp 4 * (get in2 4 [<<] 0)) +
        u64 (get inp 5 * (get in2 3 [<<] 1)) +
        u64 (get inp 6 * (get in2 2 [<<] 0)) +
        u64 (get inp 7 * (get in2 1 [<<] 1)) +
        u64 (get inp 8 * (get in2 0 [<<] 0)));
   u64 (u64 (get inp 1 * (get in2 8 [<<] 0)) +
        u64 (get inp 2 * (get in2 7 [<<] 0)) +
        u64 (get inp 3 * (get in2 6 [<<] 0)) +
        u64 (get inp 4 * (get in2 5 [<<] 0)) +
        u64 (get inp 5 * (get in2 4 [<<] 0)) +
        u64 (get inp 6 * (get in2 3 [<<] 0)) +
        u64 (get inp 7 * (get in2 2 [<<] 0)) +
        u64 (get inp 8 * (get in2 1 [<<] 0)));
   u64 (u64 (get inp 2 * (get in2 8 [<<] 0)) +
        u64 (get inp 3 * (get in2 7 [<<] 1)) +
        u64 (get inp 4 * (get in2 6 [<<] 0)) +
        u64 (get inp 5 * (get in2 5 [<<] 1)) +
        u64 (get inp 6 * (get in2 4 [<<] 0)) +
        u64 (get inp 7 * (get in2 3 [<<] 1)) +
        u64 (get inp 8 * (get in2 2 [<<] 0)));
   u64 (u64 (get inp 3 * (get in2 8 [<<] 0)) +
        u64 (get inp 4 * (get in2 7 [<<] 0)) +
        u64 (get inp 5 * (get in2 6 [<<] 0)) +
        u64 (get inp 6 * (get in2 5 [<<] 0)) +
        u64 (get inp 7 * (get in2 4 [<<] 0)) +
        u64 (get inp 8 * (get in2 3 [<<] 0)));
   u64 (u64 (get inp 4 * (get in2 8 [<<] 0)) +
        u64 (get inp 5 * (get in2 7 [<<] 1)) +
        u64 (get inp 6 * (get in2 6 [<<] 0)) +
        u64 (get inp 7 * (get in2 5 [<<] 1)) +
        u64 (get inp 8 * (get in2 4 [<<] 0)));
   u64 (u64 (get inp 5 * (get in2 8 [<<] 0)) +
        u64 (get inp 6 * (get in2 7 [<<] 0)) +
        u64 (get inp 7 * (get in2 6 [<<] 0)) +
        u64 (get inp 8 * (get in2 5 [<<] 0)));
   u64 (u64 (get inp 6 * (get in2 8 [<<] 0)) +
        u64 (get inp 7 * (get in2 7 [<<] 1)) +
        u64 (get inp 8 * (get in2 6 [<<] 0)));
   u64 (u64 (get inp 7 * (get in2 8 [<<] 0)) +
        u64 (get inp 8 * (get in2 7 [<<] 0)));
   u64 (get inp 8 * (get in2 8 [<<] 0))].

Definition felem_mul (inp in2 : list Z) : list Z := felem_reduce_degree (mul_terms inp in2).

Definition felem_assign (inp : list Z) : list Z := inp.

(** [for (i = 0; i < k; i++) felem_square(f, f);] *)
Definition felem_square_n (k : nat) (f : list Z) : list Z := Nat.iter k felem_square f.

Definition felem_inv (inp : list Z) : list Z :=
  let ftmp := felem_square inp in
  let ftmp := felem_mul inp ftmp in
  let e2 := felem_assign ftmp in
  let ftmp := felem_square ftmp in
  let ftmp := felem_square ftmp in
  let ftmp := felem_mul ftmp e2 in
  let e4 := felem_assign ftmp in
  let ftmp := felem_square ftmp in
  let ftmp := felem_square ftmp in
  let ftmp := felem_square ftmp in
  let ftmp := felem_square ftmp in
  let ftmp := felem_mul ftmp e4 in
  let e8 := felem_assign ftmp in
  let ftmp := felem_square_n 8 ftmp in
  let ftmp := felem_mul ftmp e8 in
  let e16 := felem_assign ftmp in
  let ftmp := felem_square_n 16 ftmp in
  let ftmp := felem_mul ftmp e16 in
  let e32 := felem_assign ftmp in
  let ftmp := felem_square_n 32 ftmp in
  let e64 := felem_assign ftmp in
  let ftmp := felem_mul ftmp inp in
  let ftmp := felem_square_n 192 ftmp in
  let ftmp2 := felem_mul e64 e32 in
  let ftmp2 := felem_square_n 16 ftmp2 in
  let ftmp2 := felem_mul ftmp2 e16 in
  let ftmp2 := felem_square_n 8 ftmp2 in
  let ftmp2 := felem_mul ftmp2 e8 in
  let ftmp2 := felem_square_n 4 ftmp2 in
  let ftmp2 := felem_mul ftmp2 e4 in
  let ftmp2 := felem_square ftmp2 in
  let ftmp2 := felem_square ftmp2 in
  let ftmp2 := felem_mul ftmp2 e2 in
  let ftmp2 := felem_square ftmp2 in
  let ftmp2 := felem_square ftmp2 in
  let ftmp2 := felem_mul ftmp2 inp in
  felem_mul ftmp2 ftmp.

Definition felem_scalar_3 (out : list Z) : list Z := chained (fun i => get out i [*] 3).

(** The chain of [felem_scalar_4] and [felem_scalar_8], which shift by [k]:
    [next_carry = out[i] >> (w - k); out[i] <<= k; out[i] &= mask; out[i] += carry;
    carry = next_carry + (out[i] >> w); out[i] &= mask]. *)
Fixpoint shift_chain (k : Z) (even : bool) (carry : Z) (l : list Z) : list Z * Z :=
  match l with
  | [] => ([], carry)
  | x :: t =>
      let next_carry := x >> (limb_width even - k) in
      let v := (x [<<] k) .& limb_mask even in
      let v := v [+] carry in
      let carry := next_carry [+] (v >> limb_width even) in
      let '(r, c) := shift_chain k (negb even) carry t in
      ((v .& limb_mask even) :: r, c)
  end.

Definition felem_scalar_4 (out : list Z) : list Z :=
  let '(r, carry) := shift_chain 2 true 0 out in felem_reduce_carry r carry.

Definition felem_scalar_8 (out : list Z) : list Z :=
  let '(r, carry) := shift_chain 3 true 0 out in felem_reduce_carry r carry.

Definition list_eqb (a b : list Z) : bool := if list_eq_dec Z.eq_dec a b then true else false.

(** The [do ... while (carry)] loop, with fuel. *)
Fixpoint minimal_loop (fuel : nat) (tmp : list Z) : option (list Z) :=
  match fuel with
  | O => None
  | S f =>
      let '(r, carry) := carry_chain true 0 tmp in
      let tmp := felem_reduce_carry r carry in
      if carry =? 0 then Some tmp else minimal_loop f tmp
  end.

Definition felem_is_zero_vartime (fuel : nat) (inp : list Z) : option bool :=
  match minimal_loop fuel inp with
  | None => None
  | Some tmp => Some (list_eqb tmp kZero || list_eqb tmp kP || list_eqb tmp k2P)
  end.

(** * Values and bounds *)

(** The value of a list of limbs whose first one is 29 ([even]) or 28 bits wide. *)
Fixpoint wval (even : bool) (l : list Z) : Z :=
  match l with
  | [] => 0
  | x :: t => x + 2 ^ limb_width even * wval (negb even) t
  end.

Definition fval (l : list Z) : Z := wval true l.

(** [2] to the number of bits of [n] limbs. *)
Fixpoint span (even : bool) (n : nat) : Z :=
  match n with
  | O => 1
  | S k => 2 ^ limb_width even * span (negb even) k
  end.

(** Limbs below [2^(29 + s)] and [2^(28 + s)]. *)
Fixpoint limbs (s : Z) (even : bool) (l : list Z) : Prop :=
  match l with
  | [] => True
  | x :: t => 0 <= x < 2 ^ (limb_width even + s) /\ limbs s (negb even) t
  end.

(** The bounds between operations: nine limbs, below [2^30] and [2^29]; the top
    limb is always masked last and stays below [2^29]. *)
Definition felem (l : list Z) : Prop := length l = NLIMBS /\ (get l 8 < 2 ^ 29 /\ limbs 1 true l).
Definition tight (l : list Z) : Prop := length l = NLIMBS /\ limbs 0 true l.

Lemma limb_width_cases even : limb_width even = 29 \/ limb_width even = 28.
Proof. destruct even; auto. Qed.

Lemma mask_mod even v : v .& limb_mask even = v mod 2 ^ limb_width even.
Proof.
  destruct even; unfold limb_mask, limb_width, kBottom28Bits, kBottom29Bits.
  - change 0x1fffffff with (Z.ones 29). apply land_ones_mod. lia.
  - change 0xfffffff with (Z.ones 28). apply land_ones_mod. lia.
Qed.

Lemma u32_idem_l a c : u32 (u32 a + c) = u32 (a + c).
Proof. unfold u32. apply Zplus_mod_idemp_l. Qed.

Lemma u32_sum4 a c d e : a [+] c [+] d [+] e = u32 (a + c + d + e).
Proof. now rewrite (u32_idem_l (a + c)), u32_idem_l. Qed.

Lemma u32_u32 a : u32 (u32 a) = u32 a.
Proof. apply Zmod_mod. Qed.

Lemma u32_sub_idem_l a c : u32 (u32 a - c) = u32 (a - c).
Proof. unfold u32. apply Zminus_mod_idemp_l. Qed.

(** ** The carry chain

    [E] holds the intended values of the words; they may be negative as long as
    the carry that arrives brings them back into range. *)

Fixpoint chain_ok (even : bool) (c : Z) (E : list Z) : Prop :=
  match E with
  | [] => True
  | x :: t => 0 <= x + c < 2 ^ 32 /\ chain_ok (negb even) ((x + c) / 2 ^ limb_width even) t
  end.

Lemma carry_chain_spec even c E :
  chain_ok even c E ->
  let '(r, c') := carry_chain even c (map u32 E) in
  length r = length E /\ limbs 0 even r /\
  wval even r + span even (length E) * c' = wval even E + c.
Proof.
  revert even c. induction E as [|x E IH]; intros even c Hok; cbn [map carry_chain].
  - cbn [wval span length]. split; [reflexivity|]. split; [exact I|lia].
  - destruct Hok as [Hx Hok]. rewrite u32_idem_l, u32_small by exact Hx.
    destruct (limb_width_cases even) as [Hw|Hw];
    (rewrite shr_div by lia; specialize (IH _ _ Hok);
     destruct (carry_chain _ _ _) as [r c']; destruct IH as (Hl & Hr & EV);
     rewrite mask_mod; cbn [length limbs wval span]; rewrite Z.add_0_r; rewrite Hw in *;
     pose proof (Z.mod_pos_bound (x + c) (2 ^ 29)); pose proof (Z.mod_pos_bound (x + c) (2 ^ 28));
     pose proof (Z.div_mod (x + c) (2 ^ 29)); pose proof (Z.div_mod (x + c) (2 ^ 28));
     repeat split; [congruence|lia|lia|exact Hr|nia]).
Qed.

(** After an even limb the carry is below 8. *)
Definition last_even (even : bool) (n : nat) : bool := if Nat.odd n then even else negb even.

Lemma carry_chain_carry even c E :
  chain_ok even c E -> E <> [] ->
  let '(_, c') := carry_chain even c (map u32 E) in
  0 <= c' < 2 ^ (32 - limb_width (last_even even (length E))).
Proof.
  revert even c. induction E as [|x E IH]; intros even c Hok Hne; [congruence|].
  destruct Hok as [Hx Hok]. cbn [map carry_chain]. rewrite u32_idem_l, u32_small by exact Hx.
  destruct E as [|y E].
  - cbn [map carry_chain length]. unfold last_even. change (Nat.odd 1) with true. cbv iota.
    destruct even; cbn [limb_width]; rewrite shr_div by lia;
      (split; [apply Z.div_pos; lia|apply Z.div_lt_upper_bound; lia]).
  - specialize (IH (negb even) ((x + c) >> limb_width even)).
    rewrite shr_div in * by (destruct even; cbn; lia).
    specialize (IH Hok ltac:(congruence)).
    destruct (carry_chain (negb even) _ (map u32 (y :: E))) as [r c'].
    replace (last_even even (length (x :: y :: E))) with (last_even (negb even) (length (y :: E))); [exact IH|].
    unfold last_even. cbn [length]. rewrite (Nat.odd_succ (S (length E))), <- Nat.negb_odd.
    destruct (Nat.odd (S (length E))); cbn [negb]; [reflexivity|now rewrite negb_involutive].
Qed.

(** ** Cancelling the carry *)

Lemma mask_zero : NON_ZERO_TO_ALL_ONES 0 = 0.
Proof. reflexivity. Qed.

Lemma mask_ones x : 0 < x <= 2 ^ 31 -> NON_ZERO_TO_ALL_ONES x = 0xffffffff.
Proof.
  intros Hx. unfold NON_ZERO_TO_ALL_ONES. rewrite (u32_small (x - 1)), shr_div by lia.
  rewrite Z.div_small by lia. reflexivity.
Qed.

Lemma land_all_ones v : 0 <= v < 2 ^ 32 -> v .& 0xffffffff = v.
Proof. intros H. change 0xffffffff with (Z.ones 32). rewrite land_ones_mod by lia. now apply Z.mod_small. Qed.

Ltac limbs9 l H :=
  let Hl := fresh "Hl" in let Hb := fresh "Hb" in
  destruct H as [Hl Hb];
  destruct l as [|?x0 [|?x1 [|?x2 [|?x3 [|?x4 [|?x5 [|?x6 [|?x7 [|?x8 [|]]]]]]]]]]; try discriminate Hl;
  clear Hl; cbn [limbs limb_width negb get nth] in Hb.

Lemma felem_reduce_carry_spec l c :
  tight l -> 0 <= c <= 8 ->
  felem (felem_reduce_carry l c) /\
  fval (felem_reduce_carry l c) = fval l + c * (2 ^ 225 - 2 ^ 193 - 2 ^ 97 + 2).
Proof.
  intros Ht Hc. limbs9 l Ht. unfold felem_reduce_carry, add_at, sub_at.
  cbn [get set nth].
  destruct (Z.eq_dec c 0) as [->|Hnz].
  - rewrite mask_zero, !Z.land_0_r. change (u32 (0 << _)) with 0.
    rewrite !Z.add_0_r, !Z.sub_0_r.
    rewrite !u32_u32, !u32_small by lia. split; [|reflexivity].
    split; [reflexivity|]. cbn [limbs limb_width negb get nth]. lia.
  - rewrite mask_ones, !land_all_ones by lia. rewrite !shl_mul by lia.
    rewrite !(u32_small (c * _)) by lia. rewrite !u32_sub_idem_l, !u32_idem_l.
    rewrite !u32_small by lia. split.
    + split; [reflexivity|]. cbn [limbs limb_width negb get nth]. lia.
    + unfold fval. cbn [wval limb_width negb]. lia.
Qed.

Lemma two_257 c v :
  v + c * (2 ^ 225 - 2 ^ 193 - 2 ^ 97 + 2) ==[p] v + span true 9 * c.
Proof.
  change (span true 9) with (2 ^ 257). apply eqm_of_diff with (- 2 * c). rewrite p_value. ring.
Qed.

Lemma tight_bound l : tight l -> 0 <= fval l < 2 ^ 257.
Proof. intros H. limbs9 l H. unfold fval. cbn [wval limb_width negb]. lia. Qed.

(** The result is the value of the words less [2 p] for each unit of carry. *)
Lemma chained_exact f E :
  map f (seq 0 NLIMBS) = map u32 E -> chain_ok true 0 E ->
  felem (chained f) /\
  exists c, 2 ^ 257 * c <= wval true E < 2 ^ 257 * (c + 1) /\ fval (chained f) = wval true E - 2 * c * p.
Proof.
  intros Hm Hok. unfold chained. rewrite Hm.
  assert (HlE : length E = 9%nat) by (rewrite <- (length_map u32), <- Hm, length_map, length_seq; reflexivity).
  pose proof (carry_chain_spec true 0 E Hok) as H1.
  pose proof (carry_chain_carry true 0 E Hok ltac:(intros ->; discriminate)) as H2.
  destruct (carry_chain true 0 (map u32 E)) as [r c]. destruct H1 as (Hl & Hr & EV).
  rewrite HlE in *. change (2 ^ (32 - limb_width (last_even true 9))) with 8 in H2.
  destruct (felem_reduce_carry_spec r c (conj Hl Hr) ltac:(lia)) as [H3 H4]. split; [exact H3|].
  exists c. pose proof (tight_bound r (conj Hl Hr)) as B. rewrite H4. unfold fval in *.
  change (span true 9) with (2 ^ 257) in EV. rewrite p_value. lia.
Qed.

Lemma chained_spec f E :
  map f (seq 0 NLIMBS) = map u32 E -> chain_ok true 0 E ->
  felem (chained f) /\ fval (chained f) ==[p] wval true E.
Proof.
  intros Hm Hok. destruct (chained_exact f E Hm Hok) as [H1 (c & _ & ->)]. split; [exact H1|].
  apply eqm_of_diff with (- 2 * c). ring.
Qed.

(** Intended words of a fixed small range always chain. *)
Lemma chain_ok_range even c E :
  0 <= c < 16 -> Forall (fun x => 0 <= x < 2 ^ 32 - 16) E -> chain_ok even c E.
Proof.
  intros Hc HE. revert even c Hc. induction HE as [|x E Hx HE IH]; intros even c Hc; [exact I|].
  cbn [chain_ok]. split; [lia|]. apply IH. destruct even; cbn [limb_width];
    (split; [apply Z.div_pos; lia|apply Z.div_lt_upper_bound; lia]).
Qed.

Ltac chain_range := apply chain_ok_range; [lia|repeat (apply Forall_cons; [lia|]); apply Forall_nil].

Lemma felem_sum_spec a c :
  felem a -> felem c -> felem (felem_sum a c) /\ fval (felem_sum a c) ==[p] fval a + fval c.
Proof.
  intros Ha Hc. limbs9 a Ha. limbs9 c Hc.
  match goal with |- context [felem_sum [?a0; ?a1; ?a2; ?a3; ?a4; ?a5; ?a6; ?a7; ?a8]
                                        [?c0; ?c1; ?c2; ?c3; ?c4; ?c5; ?c6; ?c7; ?c8]] =>
    destruct (chained_spec
      (fun i => get [a0; a1; a2; a3; a4; a5; a6; a7; a8] i [+] get [c0; c1; c2; c3; c4; c5; c6; c7; c8] i)
      [a0 + c0; a1 + c1; a2 + c2; a3 + c3; a4 + c4; a5 + c5; a6 + c6; a7 + c7; a8 + c8]) as [H1 H2];
      [reflexivity|chain_range|]
  end.
  split; [exact H1|]. unfold felem_sum. rewrite H2. apply eqm_of_diff with 0.
  unfold fval. cbn [wval limb_width negb]. ring.
Qed.

Lemma zero31_value : fval zero31 ==[p] 0.
Proof. vm_compute. reflexivity. Qed.

Lemma felem_diff_spec a c :
  felem a -> felem c -> felem (felem_diff a c) /\ fval (felem_diff a c) ==[p] fval a - fval c.
Proof.
  intros Ha Hc. limbs9 a Ha. limbs9 c Hc.
  match goal with |- context [felem_diff [?a0; ?a1; ?a2; ?a3; ?a4; ?a5; ?a6; ?a7; ?a8]
                                         [?c0; ?c1; ?c2; ?c3; ?c4; ?c5; ?c6; ?c7; ?c8]] =>
    destruct (chained_spec
      (fun i => (get [a0; a1; a2; a3; a4; a5; a6; a7; a8] i [-] get [c0; c1; c2; c3; c4; c5; c6; c7; c8] i)
                [+] get zero31 i)
      [a0 - c0 + get zero31 0; a1 - c1 + get zero31 1; a2 - c2 + get zero31 2; a3 - c3 + get zero31 3;
       a4 - c4 + get zero31 4; a5 - c5 + get zero31 5; a6 - c6 + get zero31 6; a7 - c7 + get zero31 7;
       a8 - c8 + get zero31 8]) as [H1 H2]
  end.
  - cbn [map seq NLIMBS get nth]. now rewrite !u32_idem_l.
  - assert (E : zero31 = [2 ^ 31 - 8; 2 ^ 30 - 4; 2 ^ 31 - 4; 2 ^ 30 + 2 ^ 13 - 4; 2 ^ 31 - 4; 2 ^ 30 - 4;
      2 ^ 31 + 2 ^ 24 - 4; 2 ^ 30 - 2 ^ 27 - 4; 2 ^ 31 - 4]) by (vm_compute; reflexivity).
    rewrite E. cbn [get nth]. chain_range.
  - split; [exact H1|]. unfold felem_diff. rewrite H2.
    transitivity (fval [x0; x1; x2; x3; x4; x5; x6; x7; x8] - fval [x9; x10; x11; x12; x13; x14; x15; x16; x17]
                  + fval zero31).
    { apply eqm_of_diff with 0. unfold fval. change zero31 with
        [get zero31 0; get zero31 1; get zero31 2; get zero31 3; get zero31 4; get zero31 5; get zero31 6;
         get zero31 7; get zero31 8] at 10. cbn [wval limb_width negb]. ring. }
    rewrite zero31_value. now rewrite Z.add_0_r.
Qed.

Lemma felem_scalar_3_spec a :
  felem a -> felem (felem_scalar_3 a) /\ fval (felem_scalar_3 a) ==[p] 3 * fval a.
Proof.
  intros Ha. limbs9 a Ha.
  destruct (chained_spec (fun i => get [x0; x1; x2; x3; x4; x5; x6; x7; x8] i [*] 3)
    [x0 * 3; x1 * 3; x2 * 3; x3 * 3; x4 * 3; x5 * 3; x6 * 3; x7 * 3; x8 * 3]) as [H1 H2];
    [reflexivity|chain_range|].
  split; [exact H1|]. unfold felem_scalar_3. rewrite H2. apply eqm_of_diff with 0.
  unfold fval. cbn [wval limb_width negb]. ring.
Qed.

(** The shifting chains: the carry that leaves is bounded by the top limb. *)
Lemma shift_chain_spec k even c l :
  2 <= k <= 3 -> limbs 1 even l -> 0 <= c <= 17 ->
  let '(r, c') := shift_chain k even c l in
  length r = length l /\ limbs 0 even r /\
  wval even r + span even (length l) * c' = 2 ^ k * wval even l + c /\
  (l <> [] -> 0 <= c' <= last l 0 / 2 ^ (limb_width (last_even even (length l)) - k) + 1).
Proof.
  intros Hk. revert even c. induction l as [|x l IH]; intros even c Hl Hc; cbn [shift_chain].
  - cbn [wval span length]. repeat split; try lia; congruence.
  - destruct Hl as [Hx Hl]. set (w := limb_width even) in *.
    assert (Hw : 28 <= w <= 29) by (unfold w; destruct even; cbn; lia).
    assert (Hp : 0 < 2 ^ (w - k)) by (apply Z.pow_pos_nonneg; lia).
    assert (Hkp : 4 <= 2 ^ k <= 8) by (assert (k = 2 \/ k = 3) as [-> | ->] by lia; lia).
    assert (Ew : 2 ^ w = 2 ^ (w - k) * 2 ^ k) by (rewrite <- Z.pow_add_r by lia; f_equal; lia).
    assert (Hw2 : 2 ^ 28 <= 2 ^ w <= 2 ^ 29) by (split; apply Z.pow_le_mono_r; lia).
    assert (Hx2 : x < 2 * 2 ^ w) by (rewrite Z.pow_add_r in Hx by lia; lia).
    assert (Ev : (x [<<] k) .& limb_mask even = 2 ^ k * (x mod 2 ^ (w - k))).
    { rewrite mask_mod. fold w. unfold u32. rewrite shl_mul by lia.
      rewrite Z.mod_mod_divide by (exists (2 ^ (32 - w)); rewrite <- Z.pow_add_r by lia; f_equal; lia).
      rewrite Ew, Z.mul_comm, (Z.mul_comm (2 ^ (w - k))). now rewrite Z.mul_mod_distr_l by lia. }
    rewrite Ev, (shr_div x) by lia.
    pose proof (Z.div_mod x (2 ^ (w - k)) ltac:(lia)) as Dx.
    pose proof (Z.mod_pos_bound x (2 ^ (w - k)) Hp) as Bm.
    set (q := x / 2 ^ (w - k)) in *. set (m := x mod 2 ^ (w - k)) in *.
    assert (Hq : 0 <= q < 16).
    { split; [apply Z.div_pos; lia|apply Z.div_lt_upper_bound; [lia|]]. nia. }
    assert (Hm : 0 <= 2 ^ k * m <= 2 ^ w - 2 ^ k) by nia.
    rewrite (u32_small (2 ^ k * m + c)) by lia. set (v := 2 ^ k * m + c) in *.
    rewrite (shr_div v) by lia. pose proof (Z.div_mod v (2 ^ w) ltac:(lia)) as Dv.
    pose proof (Z.mod_pos_bound v (2 ^ w) ltac:(lia)) as Bv.
    assert (Hd : 0 <= v / 2 ^ w <= 1).
    { split; [apply Z.div_pos; lia|]. apply Z.lt_succ_r, Z.div_lt_upper_bound; lia. }
    rewrite (u32_small (q + v / 2 ^ w)) by lia. rewrite mask_mod. fold w.
    specialize (IH (negb even) (q + v / 2 ^ w) Hl ltac:(lia)).
    destruct (shift_chain k (negb even) _ l) as [r c']. destruct IH as (H1 & H2 & H3 & H4).
    cbn [length limbs wval span]. fold w. rewrite Z.add_0_r.
    assert (Ex : 2 ^ k * x = 2 ^ w * q + 2 ^ k * m) by (rewrite Dx, Ew at 1; ring).
    assert (EV : v mod 2 ^ w + 2 ^ w * wval (negb even) r + 2 ^ w * span (negb even) (length l) * c'
                 = 2 ^ k * (x + 2 ^ w * wval (negb even) l) + c).
    { transitivity (v mod 2 ^ w + 2 ^ w * (wval (negb even) r + span (negb even) (length l) * c')); [ring|].
      rewrite H3. transitivity (2 ^ w * (v / 2 ^ w) + v mod 2 ^ w + 2 ^ w * q + 2 ^ w * 2 ^ k * wval (negb even) l);
        [ring|]. rewrite <- Dv. unfold v. rewrite Z.mul_add_distr_l, Ex. ring. }
    assert (Hnil : l = [] -> c' = q + v / 2 ^ w).
    { intros ->. destruct r; [|discriminate H1]. cbn [wval span length] in H3. lia. }
    repeat split; try congruence; try lia; try exact H2; try exact EV.
    + destruct l as [|y l]; [|apply H4; congruence].
      rewrite Hnil by reflexivity. lia.
    + destruct l as [|y l].
      * rewrite Hnil by reflexivity. cbn [length last].
        unfold last_even. change (Nat.odd 1) with true. cbv iota. fold w q. lia.
      * change (last (x :: y :: l) 0) with (last (y :: l) 0).
        replace (last_even even (S (length (y :: l)))) with (last_even (negb even) (length (y :: l)));
          [apply H4; congruence|].
        unfold last_even. cbn [length]. rewrite (Nat.odd_succ (S (length l))), <- Nat.negb_odd.
        destruct (Nat.odd (S (length l))); cbn [negb]; [reflexivity|now rewrite negb_involutive].
Qed.

Lemma shift_scalar_spec k a :
  2 <= k <= 3 -> felem a ->
  let r := let '(r, carry) := shift_chain k true 0 a in felem_reduce_carry r carry in
  felem r /\ fval r ==[p] 2 ^ k * fval a.
Proof.
  intros Hk (Hl & Ht & Hb). pose proof (shift_chain_spec k true 0 a Hk Hb ltac:(lia)) as H.
  destruct (shift_chain k true 0 a) as [r c]. destruct H as (H1 & H2 & H3 & H4).
  specialize (H4 ltac:(intros ->; discriminate)). rewrite Hl in *. unfold NLIMBS in *.
  change (limb_width (last_even true 9)) with 29 in H4.
  assert (Hc : c <= 8).
  { assert (Hlast : last a 0 = get a 8).
    { destruct a as [|? [|? [|? [|? [|? [|? [|? [|? [|? [|]]]]]]]]]]; try discriminate. reflexivity. }
    rewrite Hlast in H4.
    assert (get a 8 / 2 ^ (29 - k) < 8).
    { apply Z.div_lt_upper_bound; [apply Z.pow_pos_nonneg; lia|].
      assert (2 ^ 26 <= 2 ^ (29 - k)) by (apply Z.pow_le_mono_r; lia). lia. }
    lia. }
  destruct (felem_reduce_carry_spec r c (conj (eq_trans H1 eq_refl) H2) ltac:(lia)) as [H5 H6].
  cbv zeta. split; [exact H5|]. rewrite H6, two_257. unfold fval. rewrite H3, Z.add_0_r. reflexivity.
Qed.

Lemma felem_scalar_4_spec a :
  felem a -> felem (felem_scalar_4 a) /\ fval (felem_scalar_4 a) ==[p] 4 * fval a.
Proof. intros Ha. exact (shift_scalar_spec 2 a ltac:(lia) Ha). Qed.

Lemma felem_scalar_8_spec a :
  felem a -> felem (felem_scalar_8 a) /\ fval (felem_scalar_8 a) ==[p] 8 * fval a.
Proof. intros Ha. exact (shift_scalar_spec 3 a ltac:(lia) Ha). Qed.

(** * Reduction of a product *)

Lemma wval_app even a c :
  wval even (a ++ c)
  = wval even a + span even (length a) * wval (if Nat.odd (length a) then negb even else even) c.
Proof.
  revert even. induction a as [|x a IH]; intros even; cbn [app wval length span].
  - change (Nat.odd 0) with false. cbv iota. lia.
  - rewrite IH, Nat.odd_succ, <- Nat.negb_odd, negb_involutive.
    destruct (Nat.odd (length a)); cbn [negb]; rewrite ?negb_involutive; ring.
Qed.

Lemma hi57 t : 0 <= t < 2 ^ 64 -> u32 (t >> 32) >> 25 = t / 2 ^ 57.
Proof.
  intros H. rewrite u32_small by (apply shr_bound; lia). rewrite Z.shiftr_shiftr, shr_div by lia.
  reflexivity.
Qed.

(** The middle part of a 64-bit word, assembled from its two halves. *)
Lemma mid_part k even t :
  limb_width even + k = 57 -> 28 <= k <= 29 -> 0 <= t < 2 ^ 64 ->
  (u32 t >> k) + ((u32 (t >> 32) [<<] (32 - k)) .& limb_mask even) = (t / 2 ^ k) mod 2 ^ limb_width even.
Proof.
  intros Hk1 Hk2 Ht. rewrite mask_mod. set (w := limb_width even) in *.
  assert (Hp : 0 < 2 ^ k) by (apply Z.pow_pos_nonneg; lia).
  assert (Hc : 0 < 2 ^ (32 - k)) by (apply Z.pow_pos_nonneg; lia).
  assert (E32 : 2 ^ 32 = 2 ^ k * 2 ^ (32 - k)) by (rewrite <- Z.pow_add_r by lia; f_equal; lia).
  assert (Ew : 2 ^ w = 2 ^ (32 - k) * 2 ^ 25) by (rewrite <- Z.pow_add_r by lia; f_equal; lia).
  rewrite (u32_small (t >> 32)) by (apply shr_bound; lia). rewrite !shr_div, shl_mul by lia.
  unfold u32. rewrite Z.mod_mod_divide
    by (exists (2 ^ (32 - w)); rewrite <- Z.pow_add_r by lia; f_equal; lia).
  set (hi := t / 2 ^ 32). set (lo := t mod 2 ^ 32).
  assert (Et : t = 2 ^ 32 * hi + lo) by (apply Z.div_mod; lia).
  assert (Hlo : 0 <= lo < 2 ^ 32) by (apply Z.mod_pos_bound; lia).
  assert (Ek : t / 2 ^ k = lo / 2 ^ k + 2 ^ (32 - k) * hi).
  { rewrite Et, E32. replace (2 ^ k * 2 ^ (32 - k) * hi + lo) with (lo + (2 ^ (32 - k) * hi) * 2 ^ k) by ring.
    rewrite Z.div_add by lia. reflexivity. }
  assert (Ha : 0 <= lo / 2 ^ k < 2 ^ (32 - k)).
  { split; [apply Z.div_pos; lia|apply Z.div_lt_upper_bound; [lia|]]. rewrite <- E32. lia. }
  rewrite Ek, Ew, (Z.mul_comm hi), Z.mul_mod_distr_l by lia.
  pose proof (Z.mod_pos_bound hi (2 ^ 25) ltac:(lia)). pose proof (Z.div_mod hi (2 ^ 25) ltac:(lia)).
  apply Z.mod_unique with (hi / 2 ^ 25); nia.
Qed.

(** The three pieces of a word: its own limb, the next one and the one after. *)
Lemma three_parts even t :
  t = t mod 2 ^ limb_width even
      + 2 ^ limb_width even * ((t / 2 ^ limb_width even) mod 2 ^ limb_width (negb even))
      + 2 ^ 57 * (t / 2 ^ 57).
Proof.
  assert (E : t / 2 ^ 57 = t / 2 ^ limb_width even / 2 ^ limb_width (negb even)).
  { rewrite Z.div_div by (destruct even; cbn; lia). f_equal. destruct even; reflexivity. }
  rewrite E. pose proof (Z.div_mod t (2 ^ limb_width even)) as D1.
  pose proof (Z.div_mod (t / 2 ^ limb_width even) (2 ^ limb_width (negb even))) as D2.
  destruct even; cbn [limb_width negb] in *; lia.
Qed.

Lemma low_part even t : u32 t .& limb_mask even = t mod 2 ^ limb_width even.
Proof.
  rewrite mask_mod. unfold u32. apply Z.mod_mod_divide.
  destruct even; [exists (2 ^ 3)|exists (2 ^ 4)]; reflexivity.
Qed.

(** The pieces as the models below name them. *)
Definition lo_ (even : bool) (t : Z) : Z := t mod 2 ^ limb_width even.
Definition mid_ (even : bool) (t : Z) : Z := (t / 2 ^ limb_width even) mod 2 ^ limb_width (negb even).
Definition top_ (t : Z) : Z := t / 2 ^ 57.

Lemma parts_bound even t :
  0 <= t < 2 ^ 64 ->
  0 <= lo_ even t < 2 ^ limb_width even /\ 0 <= mid_ even t < 2 ^ limb_width (negb even) /\
  0 <= top_ t < 2 ^ 7.
Proof.
  intros Ht. unfold lo_, mid_, top_. split; [|split].
  - apply Z.mod_pos_bound. destruct even; cbn; lia.
  - apply Z.mod_pos_bound. destruct even; cbn; lia.
  - split; [apply Z.div_pos; lia|apply Z.div_lt_upper_bound; lia].
Qed.

Lemma spread_spec tmp i :
  0 <= get tmp (i - 2) < 2 ^ 64 -> 0 <= get tmp (i - 1) < 2 ^ 64 -> 0 <= get tmp i < 2 ^ 64 ->
  let e := Nat.even i in
  spread tmp i = u32 (top_ (get tmp (i - 2)) + mid_ (negb e) (get tmp (i - 1)) + lo_ e (get tmp i)).
Proof.
  intros H2 H1 H0. unfold spread, top_, mid_, lo_. rewrite hi57 by exact H2.
  destruct (Nat.even i); cbn [negb].
  - change kBottom29Bits with (limb_mask true). rewrite (low_part true (get tmp i)), u32_sum4.
    change 4 with (32 - 28). rewrite <- (mid_part 28 true) by (auto; lia). cbn [limb_width]. f_equal. ring.
  - change kBottom28Bits with (limb_mask false). rewrite (low_part false (get tmp i)), u32_sum4.
    change 3 with (32 - 29). rewrite <- (mid_part 29 false) by (auto; lia). cbn [limb_width]. f_equal. ring.
Qed.

Lemma top_limb t : 0 <= t < 2 ^ 60 -> (u32 t >> 29) + (u32 (t >> 32) [<<] 3) = t / 2 ^ 29.
Proof.
  intros Ht. assert (Hh : 0 <= t >> 32 < 2 ^ 28) by (apply shr_bound; lia).
  rewrite (u32_small (t >> 32)), shl_mul, (u32_small (_ * _)) by lia. rewrite !shr_div by lia. unfold u32.
  pose proof (Z.div_mod t (2 ^ 32)). pose proof (Z.mod_pos_bound t (2 ^ 32)).
  pose proof (Z.div_mod (t mod 2 ^ 32) (2 ^ 29)). pose proof (Z.mod_pos_bound (t mod 2 ^ 32) (2 ^ 29)).
  apply Z.div_unique with ((t mod 2 ^ 32) mod 2 ^ 29); lia.
Qed.

Lemma first_limbs t0 t1 :
  0 <= t0 < 2 ^ 64 -> 0 <= t1 < 2 ^ 64 ->
  u32 (t0 .& kBottom29Bits) = lo_ true t0 /\
  ((u32 t0 >> 29) .| ((u32 (t0 >> 32) [<<] 3) .& kBottom28Bits)) [+] (u32 t1 .& kBottom28Bits)
  = mid_ true t0 + lo_ false t1.
Proof.
  intros H0 H1. destruct (parts_bound true t0 H0) as (B1 & B2 & _).
  destruct (parts_bound false t1 H1) as (B3 & _). cbn [limb_width negb] in *.
  change kBottom29Bits with (limb_mask true). change kBottom28Bits with (limb_mask false).
  split; [rewrite mask_mod; exact (u32_small (lo_ true t0) ltac:(lia))|].
  rewrite (low_part false t1). fold (lo_ false t1).
  replace ((u32 t0 >> 29) .| ((u32 (t0 >> 32) [<<] 3) .& limb_mask false)) with (mid_ true t0).
  - apply u32_small. lia.
  - unfold mid_. cbn [limb_width negb]. change 28 with (limb_width false) at 1.
    rewrite <- (mid_part 29 false t0) by (auto; lia). change (32 - 29) with 3.
    set (a := u32 t0 >> 29). rewrite mask_mod. cbn [limb_width].
    assert (Ha : 0 <= a < 2 ^ 3) by (unfold a; pose proof (u32_range t0) as R; unfold word in R;
      rewrite shr_div by lia; split; [apply Z.div_pos; lia|apply Z.div_lt_upper_bound; lia]).
    set (h := u32 (t0 >> 32)).
    assert (Eh : (h [<<] 3) mod 2 ^ 28 = (h mod 2 ^ 25) << 3).
    { unfold u32. rewrite !shl_mul by lia. rewrite Z.mod_mod_divide by (exists (2 ^ 4); reflexivity).
      change (2 ^ 28) with (2 ^ 25 * 2 ^ 3). now rewrite Z.mul_mod_distr_r by lia. }
    rewrite Eh, Z.lor_comm, lor_shl_add, shl_mul by lia. ring.
Qed.

(** What the eighteen words hold after the overlaps are gone. *)
Record split_of (tmp w : list Z) : Prop := {
  sp_length : length w = 18%nat;
  sp_limbs : limbs 0 true (firstn 17 w);
  sp_top : 0 <= get w 17 < 2 ^ 31 + 2 ^ 8;
  sp_value : wval true w = wval true tmp
}.

(** Name the three pieces of [t] and forget that they came from it. *)
Ltac name_parts e t :=
  let H := fresh "H" in pose proof (three_parts e t) as H;
  change (t mod 2 ^ limb_width e) with (lo_ e t) in H;
  change ((t / 2 ^ limb_width e) mod 2 ^ limb_width (negb e)) with (mid_ e t) in H;
  change (t / 2 ^ 57) with (top_ t) in H;
  let l := fresh "l" in let m := fresh "m" in let q := fresh "q" in
  set (l := lo_ e t) in *; set (m := mid_ e t) in *; set (q := top_ t) in *;
  clearbody l m q; cbn [limb_width negb] in H; subst t.

Lemma split_value t0 t1 t2 t3 t4 t5 t6 t7 t8 t9 t10 t11 t12 t13 t14 t15 t16 :
  let tmp := [t0; t1; t2; t3; t4; t5; t6; t7; t8; t9; t10; t11; t12; t13; t14; t15; t16] in
  lo_ true t0 + 2 ^ 29 * (mid_ true t0 + lo_ false t1 + 2 ^ 28 *
    (wval true (map (fun i => top_ (get tmp (i - 2)) + mid_ (negb (Nat.even i)) (get tmp (i - 1))
                              + lo_ (Nat.even i) (get tmp i)) (seq 2 15))
     + span true 15 * (top_ t15 + t16 / 2 ^ 29)))
  = wval true tmp.
Proof.
  intros tmp. unfold tmp. cbn [map seq get nth Nat.sub Nat.even negb].
  assert (E16 : t16 = lo_ true t16 + 2 ^ 29 * (t16 / 2 ^ 29))
    by (unfold lo_; cbn [limb_width]; rewrite Z.add_comm; apply Z.div_mod; lia).
  set (l16 := lo_ true t16) in *. set (h16 := t16 / 2 ^ 29) in *. clearbody l16 h16. subst t16.
  name_parts true t0. name_parts false t1. name_parts true t2. name_parts false t3.
  name_parts true t4. name_parts false t5. name_parts true t6. name_parts false t7.
  name_parts true t8. name_parts false t9. name_parts true t10. name_parts false t11.
  name_parts true t12. name_parts false t13. name_parts true t14. name_parts false t15.
  cbn [wval span limb_width negb]. ring.
Qed.

Lemma reduce_split_spec tmp :
  length tmp = 17%nat -> words 64 tmp -> get tmp 16 < 2 ^ 60 -> split_of tmp (reduce_split tmp).
Proof.
  intros Hl Hw H16. assert (Hg : forall i, 0 <= get tmp i < 2 ^ 64) by (intros i; apply get_word; [lia|exact Hw]).
  unfold reduce_split.
  destruct (first_limbs (get tmp 0) (get tmp 1) (Hg _) (Hg _)) as [-> ->].
  set (E := map (fun i => top_ (get tmp (i - 2)) + mid_ (negb (Nat.even i)) (get tmp (i - 1))
                          + lo_ (Nat.even i) (get tmp i)) (seq 2 15)).
  replace (map (spread tmp) (seq 2 15)) with (map u32 E)
    by (unfold E; rewrite map_map; apply map_ext_in; intros i _; symmetry; apply spread_spec; apply Hg).
  set (s1 := mid_ true (get tmp 0) + lo_ false (get tmp 1)).
  destruct (parts_bound true (get tmp 0) (Hg _)) as (B1 & B2 & _).
  destruct (parts_bound false (get tmp 1) (Hg _)) as (B3 & _). cbn [limb_width negb] in *.
  assert (Hs1 : 0 <= s1 < 2 ^ 29) by (unfold s1; lia).
  rewrite shr_div by lia.
  assert (Hc : 0 <= s1 / 2 ^ 28 < 2) by (split; [apply Z.div_pos; lia|apply Z.div_lt_upper_bound; lia]).
  assert (Hok : chain_ok true (s1 / 2 ^ 28) E).
  { apply chain_ok_range; [lia|]. unfold E. apply Forall_forall. intros x Hx.
    apply in_map_iff in Hx as (i & <- & _).
    destruct (parts_bound true (get tmp (i - 2)) (Hg _)) as (_ & _ & C1).
    destruct (parts_bound (negb (Nat.even i)) (get tmp (i - 1)) (Hg _)) as (_ & C2 & _).
    destruct (parts_bound (Nat.even i) (get tmp i) (Hg _)) as (C3 & _).
    destruct (Nat.even i); cbn [limb_width negb] in *; lia. }
  pose proof (carry_chain_spec _ _ _ Hok) as H1.
  pose proof (carry_chain_carry _ _ _ Hok ltac:(discriminate)) as H2.
  destruct (carry_chain true (s1 / 2 ^ 28) (map u32 E)) as [r c]. destruct H1 as (Hlr & Hr & EV).
  change (length E) with 15%nat in *. change (2 ^ (32 - limb_width (last_even true 15))) with 8 in H2.
  pose proof (Hg 15%nat) as H15. pose proof (Hg 16%nat) as H16'.
  rewrite hi57 by exact H15. rewrite u32_sum4.
  rewrite <- (Z.add_assoc (get tmp 15 / 2 ^ 57)), top_limb by lia.
  assert (B15 : 0 <= get tmp 15 / 2 ^ 57 < 2 ^ 7) by (split; [apply Z.div_pos; lia|apply Z.div_lt_upper_bound; lia]).
  assert (B16 : 0 <= get tmp 16 / 2 ^ 29 < 2 ^ 31) by (split; [apply Z.div_pos; lia|apply Z.div_lt_upper_bound; lia]).
  rewrite u32_small by lia. change kBottom28Bits with (limb_mask false). rewrite mask_mod.
  pose proof (Z.div_mod s1 (2 ^ 28)) as D1. pose proof (Z.mod_pos_bound s1 (2 ^ 28)) as M1.
  set (t17 := get tmp 15 / 2 ^ 57 + get tmp 16 / 2 ^ 29 + c).
  split.
  - cbn [length]. rewrite length_app, Hlr. reflexivity.
  - rewrite !firstn_cons. rewrite firstn_app, Hlr, Nat.sub_diag, firstn_O, app_nil_r, firstn_all2 by lia.
    cbn [limbs limb_width negb]. split; [lia|]. split; [lia|exact Hr].
  - unfold get. cbn [nth]. rewrite app_nth2, Hlr by lia. cbn [Nat.sub nth]. unfold t17. lia.
  - cbn [wval limb_width negb]. rewrite wval_app, Hlr. change (Nat.odd 15) with true. cbn [negb wval limb_width].
    transitivity (lo_ true (get tmp 0) + 2 ^ 29 * (s1 + 2 ^ 28 *
      (wval true E + span true 15 * (top_ (get tmp 15) + get tmp 16 / 2 ^ 29)))).
    { change (top_ (get tmp 15)) with (get tmp 15 / 2 ^ 57). unfold t17. clearbody E s1. nia. }
    clear - Hl. unfold E, s1.
    do 17 (destruct tmp as [|? tmp]; [discriminate Hl|]). destruct tmp; [|discriminate Hl].
    apply split_value.
Qed.

(** ** The elimination

    [T] holds the intended values of the eighteen words, which may leave the range
    of a word for a while; the code holds them modulo [2^32]. *)

Definition addz (T : list Z) (k : nat) (d : Z) : list Z := set T k (get T k + d).
Definition deltas (T : list Z) (ds : list (nat * Z)) : list Z :=
  fold_left (fun T kd => addz T (fst kd) (snd kd)) ds T.

Lemma get_map_u32 T k : get (map u32 T) k = u32 (get T k).
Proof. unfold get. rewrite <- (map_nth u32). reflexivity. Qed.

Lemma set_map_u32 T k v : set (map u32 T) k (u32 v) = map u32 (set T k v).
Proof. revert k. induction T as [|x T IH]; intros [|k]; cbn [map set]; [reflexivity..|]. now rewrite IH. Qed.

Lemma add_at_map T k v d : v ==[2 ^ 32] d -> add_at (map u32 T) k v = map u32 (addz T k d).
Proof.
  intros E. unfold add_at, addz. rewrite get_map_u32, <- set_map_u32, u32_idem_l.
  f_equal. change (get T k + v ==[2 ^ 32] get T k + d). now rewrite E.
Qed.

Lemma sub_at_map T k v : sub_at (map u32 T) k v = map u32 (addz T k (- v)).
Proof. unfold sub_at, addz. rewrite get_map_u32, <- set_map_u32, u32_sub_idem_l. reflexivity. Qed.

Lemma get_addz T k d j :
  (k < length T)%nat -> get (addz T k d) j = get T j + if (j =? k)%nat then d else 0.
Proof.
  intros Hk. unfold addz. destruct (Nat.eqb_spec j k) as [->|Hne].
  - now rewrite get_set_eq.
  - rewrite get_set_neq by auto. lia.
Qed.

Lemma addz_length T k d : length (addz T k d) = length T.
Proof. apply set_length. Qed.

Lemma list_ext (a c : list Z) :
  length a = length c -> (forall j, (j < length a)%nat -> get a j = get c j) -> a = c.
Proof. intros Hl H. apply (nth_ext a c 0 0 Hl). exact H. Qed.

Lemma addz_merge T k a c : (k < length T)%nat -> addz (addz T k a) k c = addz T k (a + c).
Proof.
  intros Hk. apply list_ext; [now rewrite !addz_length|]. intros j _.
  rewrite !get_addz by (rewrite ?addz_length; exact Hk). destruct (j =? k)%nat; lia.
Qed.

Lemma addz_swap T k l a c :
  (k < length T)%nat -> (l < length T)%nat -> addz (addz T k a) l c = addz (addz T l c) k a.
Proof.
  intros Hk Hl. apply list_ext; [now rewrite !addz_length|]. intros j _.
  rewrite !get_addz by (rewrite ?addz_length; assumption). lia.
Qed.

(** The masked shifts: [x] with its high bits cut off. *)
Lemma masked_shift even k x :
  0 <= x -> 0 <= k <= limb_width even -> (x [<<] k) .& limb_mask even = x mod 2 ^ (limb_width even - k) * 2 ^ k.
Proof.
  intros Hx Hk. rewrite mask_mod. set (w := limb_width even) in *.
  assert (Hw : 28 <= w <= 29) by (unfold w; destruct even; cbn; lia).
  unfold u32. rewrite shl_mul by lia.
  rewrite Z.mod_mod_divide by (exists (2 ^ (32 - w)); rewrite <- Z.pow_add_r by lia; f_equal; lia).
  assert (Ew : 2 ^ w = 2 ^ (w - k) * 2 ^ k) by (rewrite <- Z.pow_add_r by lia; f_equal; lia).
  assert (0 < 2 ^ k) by (apply Z.pow_pos_nonneg; lia).
  assert (0 < 2 ^ (w - k)) by (apply Z.pow_pos_nonneg; lia).
  rewrite Ew. now rewrite Z.mul_mod_distr_r by lia.
Qed.

Definition nz (x : Z) : Z := if x =? 0 then 0 else 1.

Lemma masked_nz v x :
  0 <= x < 2 ^ 29 -> 0 <= v < 2 ^ 32 -> v .& NON_ZERO_TO_ALL_ONES x = nz x * v.
Proof.
  intros Hx Hv. unfold nz. destruct (Z.eqb_spec x 0) as [->|Hnz].
  - rewrite mask_zero, Z.land_0_r. reflexivity.
  - rewrite mask_ones, land_all_ones by lia. lia.
Qed.

Lemma masked_nz_sub x y :
  0 <= x < 2 ^ 29 -> (y [-] 1) .& NON_ZERO_TO_ALL_ONES x ==[2 ^ 32] nz x * (y - 1).
Proof.
  intros Hx. rewrite masked_nz by (auto; apply u32_range). unfold u32. now rewrite eqm_mod.
Qed.

(** Net additions, in the order of the words. *)
Definition top_deltas (i : nat) (x : Z) : list (nat * Z) :=
  [((i + 3)%nat, x mod 2 ^ 18 * 2 ^ 10); ((i + 4)%nat, x / 2 ^ 18);
   ((i + 6)%nat, x mod 2 ^ 8 * 2 ^ 21);
   ((i + 7)%nat, x / 2 ^ 8 + nz x * 2 ^ 28 - x mod 2 ^ 4 * 2 ^ 24);
   ((i + 8)%nat, nz x * (x - 1) - x / 2 ^ 4 + nz x * 2 ^ 29 - x + x mod 2 ^ 1 * 2 ^ 28);
   ((i + 9)%nat, nz x * (x / 2 - 1))].

Definition bottom_deltas (i : nat) (x : Z) : list (nat * Z) :=
  [((i + 4)%nat, x mod 2 ^ 18 * 2 ^ 11); ((i + 5)%nat, x / 2 ^ 18);
   ((i + 7)%nat, x mod 2 ^ 7 * 2 ^ 21);
   ((i + 8)%nat, x / 2 ^ 7 + nz x * 2 ^ 29 - x mod 2 ^ 4 * 2 ^ 25);
   ((i + 9)%nat, nz x * (x - 1) - x / 2 ^ 4 + nz x * 2 ^ 28 - x);
   ((i + 10)%nat, nz x * (x - 1))].

Ltac to_ideal :=
  repeat first
    [ rewrite sub_at_map
    | erewrite add_at_map by (first [apply masked_nz_sub; lia | reflexivity]) ].

Lemma top_apply_ideal T i x :
  0 <= x < 2 ^ 29 -> (i + 9 < length T)%nat ->
  top_apply (map u32 T) i x = map u32 (deltas T (top_deltas i x)).
Proof.
  intros Hx Hl. unfold top_apply. cbv zeta.
  change kBottom28Bits with (limb_mask false). change kBottom29Bits with (limb_mask true).
  rewrite !masked_shift by (cbn; lia). rewrite !(masked_nz 0x10000000), !(masked_nz 0x20000000) by lia.
  rewrite !shr_div by lia. to_ideal. f_equal.
  cbn [deltas fold_left top_deltas fst snd limb_width].
  rewrite (addz_swap _ (i + 8) (i + 7)) by (rewrite ?addz_length; lia).
  rewrite !addz_merge by (rewrite ?addz_length; lia).
  change (28 - 10) with 18. change (29 - 21) with 8. change (28 - 24) with 4. change (29 - 28) with 1.
  change 268435456 with (2 ^ 28). change 536870912 with (2 ^ 29). change (2 ^ 1) with 2.
  f_equal. f_equal; [f_equal|]; ring.
Qed.

Lemma bottom_apply_ideal T i x :
  0 <= x < 2 ^ 28 -> (i + 10 < length T)%nat ->
  bottom_apply (map u32 T) i x = map u32 (deltas T (bottom_deltas i x)).
Proof.
  intros Hx Hl. unfold bottom_apply. cbv zeta.
  change kBottom28Bits with (limb_mask false). change kBottom29Bits with (limb_mask true).
  rewrite !masked_shift by (cbn; lia). rewrite !(masked_nz 0x10000000), !(masked_nz 0x20000000) by lia.
  rewrite !shr_div by lia. to_ideal. f_equal.
  cbn [deltas fold_left bottom_deltas fst snd limb_width].
  rewrite (addz_swap _ (i + 9) (i + 8)) by (rewrite ?addz_length; lia).
  rewrite !addz_merge by (rewrite ?addz_length; lia).
  change (29 - 11) with 18. change (28 - 21) with 7. change (29 - 25) with 4.
  change 268435456 with (2 ^ 28). change 536870912 with (2 ^ 29).
  f_equal. f_equal; [f_equal|]; ring.
Qed.

Definition top_ideal (T : list Z) (i : nat) : list Z :=
  deltas (set (addz T (i + 1) (get T i / 2 ^ 29)) i 0) (top_deltas i (get T i mod 2 ^ 29)).

Definition bottom_ideal (T : list Z) (i : nat) : list Z :=
  deltas (set (addz T (i + 2) (get T (i + 1) / 2 ^ 28)) (i + 1) 0)
    (bottom_deltas i (get T (i + 1) mod 2 ^ 28)).

Lemma top_half_ideal T i :
  0 <= get T i < 2 ^ 32 -> (i + 9 < length T)%nat ->
  top_half (map u32 T) i = map u32 (top_ideal T i).
Proof.
  intros HT Hl. unfold top_half, top_ideal.
  rewrite (add_at_map _ _ _ (get T i / 2 ^ 29))
    by (rewrite get_map_u32, u32_small, shr_div by lia; reflexivity).
  rewrite get_map_u32, get_addz by lia. rewrite (proj2 (Nat.eqb_neq i (i + 1))), Z.add_0_r, u32_small by lia.
  change kBottom29Bits with (limb_mask true). rewrite mask_mod. cbn [limb_width].
  change (set (map u32 (addz T (i + 1) (get T i / 2 ^ 29))) i 0)
    with (set (map u32 (addz T (i + 1) (get T i / 2 ^ 29))) i (u32 0)).
  rewrite set_map_u32. apply top_apply_ideal.
  - apply Z.mod_pos_bound. lia.
  - now rewrite set_length, addz_length.
Qed.

Lemma bottom_half_ideal T i :
  0 <= get T (i + 1) < 2 ^ 32 -> (i + 10 < length T)%nat ->
  bottom_half (map u32 T) i = map u32 (bottom_ideal T i).
Proof.
  intros HT Hl. unfold bottom_half, bottom_ideal.
  rewrite (add_at_map _ _ _ (get T (i + 1) / 2 ^ 28))
    by (rewrite get_map_u32, u32_small, shr_div by lia; reflexivity).
  rewrite get_map_u32, get_addz by lia.
  rewrite (proj2 (Nat.eqb_neq (i + 1) (i + 2))), Z.add_0_r, u32_small by lia.
  change kBottom28Bits with (limb_mask false). rewrite mask_mod. cbn [limb_width].
  change (set (map u32 (addz T (i + 2) (get T (i + 1) / 2 ^ 28))) (i + 1) 0)
    with (set (map u32 (addz T (i + 2) (get T (i + 1) / 2 ^ 28))) (i + 1) (u32 0)).
  rewrite set_map_u32. apply bottom_apply_ideal.
  - apply Z.mod_pos_bound. lia.
  - now rewrite set_length, addz_length.
Qed.

(** *** Values *)

Lemma wval_addz even T k d :
  (k < length T)%nat -> wval even (addz T k d) = wval even T + span even k * d.
Proof.
  unfold addz. revert even k. induction T as [|x T IH]; intros even k Hk; [simpl in Hk; lia|].
  destruct k as [|k]; cbn [set wval span].
  - cbn [get nth]. ring.
  - change (get (x :: T) (S k)) with (get T k). simpl in Hk. rewrite IH by lia. ring.
Qed.

Lemma set_zero_addz T k : set T k 0 = addz T k (- get T k).
Proof. unfold addz. f_equal. lia. Qed.

Fixpoint weigh (ds : list (nat * Z)) : Z :=
  match ds with [] => 0 | (k, d) :: t => span true k * d + weigh t end.

Lemma wval_deltas T ds :
  Forall (fun kd => (fst kd < length T)%nat) ds ->
  wval true (deltas T ds) = wval true T + weigh ds.
Proof.
  revert T. induction ds as [|[k d] ds IH]; intros T H; cbn [deltas fold_left weigh]; [lia|].
  inversion H as [|? ? Hk Hds]; subst. cbn [fst snd] in *.
  change (fold_left _ ds (addz T k d)) with (deltas (addz T k d) ds).
  rewrite IH, wval_addz by (try rewrite addz_length; assumption). ring.
Qed.

Lemma span_pos even n : 0 < span even n.
Proof.
  revert even. induction n as [|n IH]; intros even; cbn [span]; [lia|]. specialize (IH (negb even)).
  destruct even; cbn [limb_width]; lia.
Qed.

Lemma span_add i k : Nat.even i = true -> span true (i + k) = span true i * span true k.
Proof.
  intros Hi. apply Nat.even_spec in Hi as [m ->].
  assert (E : forall m k, span true (2 * m + k) = span true (2 * m) * span true k).
  { clear. induction m as [|m IH]; intros k; [cbn [Nat.mul Nat.add span]; lia|].
    replace (2 * S m)%nat with (S (S (2 * m))) by lia. cbn [Nat.add span negb].
    rewrite IH. ring. }
  apply E.
Qed.

(** The additions of a half iteration amount to [x (p + 1)]. *)
Lemma top_deltas_sum x :
  0 <= x ->
  2 ^ 86 * (x mod 2 ^ 18 * 2 ^ 10) + 2 ^ 114 * (x / 2 ^ 18) + 2 ^ 171 * (x mod 2 ^ 8 * 2 ^ 21)
  + 2 ^ 200 * (x / 2 ^ 8 + nz x * 2 ^ 28 - x mod 2 ^ 4 * 2 ^ 24)
  + 2 ^ 228 * (nz x * (x - 1) - x / 2 ^ 4 + nz x * 2 ^ 29 - x + x mod 2 ^ 1 * 2 ^ 28)
  + 2 ^ 257 * (nz x * (x / 2 - 1)) = x * (p + 1).
Proof.
  intros Hx. rewrite p_value. unfold nz. destruct (Z.eqb_spec x 0) as [->|_]; [reflexivity|].
  pose proof (Z.div_mod x (2 ^ 18) ltac:(lia)). pose proof (Z.div_mod x (2 ^ 8) ltac:(lia)).
  pose proof (Z.div_mod x (2 ^ 4) ltac:(lia)). pose proof (Z.div_mod x 2 ltac:(lia)).
  change (2 ^ 1) with 2. lia.
Qed.

Lemma bottom_deltas_sum x :
  0 <= x ->
  2 ^ 85 * (x mod 2 ^ 18 * 2 ^ 11) + 2 ^ 114 * (x / 2 ^ 18) + 2 ^ 171 * (x mod 2 ^ 7 * 2 ^ 21)
  + 2 ^ 199 * (x / 2 ^ 7 + nz x * 2 ^ 29 - x mod 2 ^ 4 * 2 ^ 25)
  + 2 ^ 228 * (nz x * (x - 1) - x / 2 ^ 4 + nz x * 2 ^ 28 - x)
  + 2 ^ 256 * (nz x * (x - 1)) = x * (p + 1).
Proof.
  intros Hx. rewrite p_value. unfold nz. destruct (Z.eqb_spec x 0) as [->|_]; [reflexivity|].
  pose proof (Z.div_mod x (2 ^ 18) ltac:(lia)). pose proof (Z.div_mod x (2 ^ 7) ltac:(lia)).
  pose proof (Z.div_mod x (2 ^ 4) ltac:(lia)). lia.
Qed.

Lemma top_ideal_value T i :
  Nat.even i = true -> (i + 9 < length T)%nat ->
  wval true (top_ideal T i) = wval true T + get T i mod 2 ^ 29 * p * span true i.
Proof.
  intros Hi Hl. unfold top_ideal. rewrite wval_deltas.
  2: { rewrite set_length, addz_length. unfold top_deltas. repeat constructor; cbn [fst]; lia. }
  rewrite set_zero_addz, !wval_addz by (rewrite ?addz_length; lia).
  rewrite get_addz by lia. rewrite (proj2 (Nat.eqb_neq i (i + 1))) by lia.
  pose proof (Z.div_mod (get T i) (2 ^ 29) ltac:(lia)) as D.
  pose proof (Z.mod_pos_bound (get T i) (2 ^ 29) ltac:(lia)) as B.
  set (q := get T i / 2 ^ 29) in *. set (x := get T i mod 2 ^ 29) in *. rewrite D.
  pose proof (top_deltas_sum x ltac:(lia)) as HS. clearbody q x.
  unfold top_deltas. cbn [weigh]. rewrite !(span_add i) by exact Hi.
  change (span true 1) with (2 ^ 29). change (span true 3) with (2 ^ 86). change (span true 4) with (2 ^ 114).
  change (span true 6) with (2 ^ 171). change (span true 7) with (2 ^ 200). change (span true 8) with (2 ^ 228).
  change (span true 9) with (2 ^ 257). set (W := span true i).
  transitivity (wval true T + W * (x * (p + 1) - x)); [rewrite <- HS; ring|ring].
Qed.

Lemma bottom_ideal_value T i :
  Nat.even i = true -> (i + 10 < length T)%nat ->
  wval true (bottom_ideal T i) = wval true T + get T (i + 1) mod 2 ^ 28 * p * span true (i + 1).
Proof.
  intros Hi Hl. unfold bottom_ideal. rewrite wval_deltas.
  2: { rewrite set_length, addz_length. unfold bottom_deltas. repeat constructor; cbn [fst]; lia. }
  rewrite set_zero_addz, !wval_addz by (rewrite ?addz_length; lia).
  rewrite get_addz by lia. rewrite (proj2 (Nat.eqb_neq (i + 1) (i + 2))) by lia.
  pose proof (Z.div_mod (get T (i + 1)) (2 ^ 28) ltac:(lia)) as D.
  pose proof (Z.mod_pos_bound (get T (i + 1)) (2 ^ 28) ltac:(lia)) as B.
  set (q := get T (i + 1) / 2 ^ 28) in *. set (x := get T (i + 1) mod 2 ^ 28) in *. rewrite D.
  pose proof (bottom_deltas_sum x ltac:(lia)) as HS. clearbody q x.
  unfold bottom_deltas. cbn [weigh]. rewrite !(span_add i) by exact Hi.
  change (span true 1) with (2 ^ 29). change (span true 2) with (2 ^ 29 * 2 ^ 28).
  change (span true 4) with (2 ^ 29 * 2 ^ 85).
  change (span true 5) with (2 ^ 29 * 2 ^ 114). change (span true 7) with (2 ^ 29 * 2 ^ 171).
  change (span true 8) with (2 ^ 29 * 2 ^ 199). change (span true 9) with (2 ^ 29 * 2 ^ 228).
  change (span true 10) with (2 ^ 29 * 2 ^ 256). set (W := span true i).
  transitivity (wval true T + W * 2 ^ 29 * (x * (p + 1) - x)); [rewrite <- HS; ring|ring].
Qed.

(** *** Bounds

    Interval arithmetic on the words, carried out on lists of bounds by the same
    operations. *)

Definition bounded (T L U : list Z) : Prop :=
  length L = length T /\ length U = length T /\
  forall k, (k < length T)%nat -> get L k <= get T k <= get U k.

Lemma bounded_addz T L U k d lo hi :
  bounded T L U -> lo <= d <= hi -> (k < length T)%nat ->
  bounded (addz T k d) (addz L k lo) (addz U k hi).
Proof.
  intros (HL & HU & HB) Hd Hk. unfold bounded. rewrite !addz_length. repeat split; try congruence;
    rewrite !get_addz by congruence; specialize (HB k0 H); destruct (k0 =? k)%nat; lia.
Qed.

Lemma bounded_zero T L U k : bounded T L U -> bounded (set T k 0) (set L k 0) (set U k 0).
Proof.
  intros (HL & HU & HB). unfold bounded. rewrite !set_length. split; [exact HL|]. split; [exact HU|].
  intros j Hj. destruct (Nat.eq_dec k j) as [->|Hne].
  - rewrite !get_set_eq by congruence. lia.
  - rewrite !get_set_neq by exact Hne. now apply HB.
Qed.

(** The bounds after a half iteration. *)
Definition top_low (L : list Z) (i : nat) : list Z :=
  deltas (set (addz L (i + 1) (get L i / 2 ^ 29)) i 0)
    [((i + 3)%nat, 0); ((i + 4)%nat, 0); ((i + 6)%nat, 0); ((i + 7)%nat, 0); ((i + 8)%nat, 0);
     ((i + 9)%nat, -1)].
Definition top_high (U : list Z) (i : nat) : list Z :=
  deltas (set (addz U (i + 1) (get U i / 2 ^ 29)) i 0)
    [((i + 3)%nat, 2 ^ 28); ((i + 4)%nat, 2 ^ 11); ((i + 6)%nat, 2 ^ 29); ((i + 7)%nat, 2 ^ 28 + 2 ^ 21);
     ((i + 8)%nat, 2 ^ 29 + 2 ^ 28); ((i + 9)%nat, 2 ^ 28)].
Definition bottom_low (L : list Z) (i : nat) : list Z :=
  deltas (set (addz L (i + 2) (get L (i + 1) / 2 ^ 28)) (i + 1) 0)
    [((i + 4)%nat, 0); ((i + 5)%nat, 0); ((i + 7)%nat, 0); ((i + 8)%nat, 0); ((i + 9)%nat, 0);
     ((i + 10)%nat, 0)].
Definition bottom_high (U : list Z) (i : nat) : list Z :=
  deltas (set (addz U (i + 2) (get U (i + 1) / 2 ^ 28)) (i + 1) 0)
    [((i + 4)%nat, 2 ^ 29); ((i + 5)%nat, 2 ^ 10); ((i + 7)%nat, 2 ^ 28); ((i + 8)%nat, 2 ^ 29 + 2 ^ 21);
     ((i + 9)%nat, 2 ^ 28); ((i + 10)%nat, 2 ^ 28)].

Ltac parts x n :=
  pose proof (Z.div_mod x n ltac:(lia)); pose proof (Z.mod_pos_bound x n ltac:(lia)).

Lemma top_bounded T L U i :
  bounded T L U -> (i + 9 < length T)%nat -> bounded (top_ideal T i) (top_low L i) (top_high U i).
Proof.
  intros HB Hl. unfold top_ideal, top_low, top_high, top_deltas. cbn [deltas fold_left fst snd].
  pose proof (Z.mod_pos_bound (get T i) (2 ^ 29) ltac:(lia)) as Bx. set (x := get T i mod 2 ^ 29) in *.
  pose proof HB as (_ & _ & HBi). specialize (HBi i ltac:(lia)).
  parts x (2 ^ 18). parts x (2 ^ 8). parts x (2 ^ 4). parts x 2. change (2 ^ 1) with 2.
  assert (Hnz : (x = 0 /\ nz x = 0) \/ (0 < x /\ nz x = 1)) by (unfold nz; destruct (Z.eqb_spec x 0); lia).
  repeat (apply bounded_addz; [|nia|rewrite ?addz_length, ?set_length, ?addz_length; lia]).
  apply bounded_zero, bounded_addz; [exact HB| |lia].
  split; apply Z.div_le_mono; lia.
Qed.

Lemma bottom_bounded T L U i :
  bounded T L U -> (i + 10 < length T)%nat -> bounded (bottom_ideal T i) (bottom_low L i) (bottom_high U i).
Proof.
  intros HB Hl. unfold bottom_ideal, bottom_low, bottom_high, bottom_deltas. cbn [deltas fold_left fst snd].
  pose proof (Z.mod_pos_bound (get T (i + 1)) (2 ^ 28) ltac:(lia)) as Bx.
  set (x := get T (i + 1) mod 2 ^ 28) in *.
  pose proof HB as (_ & _ & HBi). specialize (HBi (i + 1)%nat ltac:(lia)).
  parts x (2 ^ 18). parts x (2 ^ 7). parts x (2 ^ 4).
  assert (Hnz : (x = 0 /\ nz x = 0) \/ (0 < x /\ nz x = 1)) by (unfold nz; destruct (Z.eqb_spec x 0); lia).
  repeat (apply bounded_addz; [|nia|rewrite ?addz_length, ?set_length, ?addz_length; lia]).
  apply bounded_zero, bounded_addz; [exact HB| |lia].
  split; apply Z.div_le_mono; lia.
Qed.

Lemma ideal_length T i : length (top_ideal T i) = length T /\ length (bottom_ideal T i) = length T.
Proof.
  unfold top_ideal, bottom_ideal, top_deltas, bottom_deltas. cbn [deltas fold_left fst snd].
  now rewrite !addz_length, !set_length, !addz_length.
Qed.

Lemma bounded_refl T : bounded T T T.
Proof. split; [reflexivity|]. split; [reflexivity|]. intros; lia. Qed.

Ltac eqb_cases :=
  repeat match goal with |- context [Nat.eqb ?a ?c] => destruct (Nat.eqb_spec a c); try lia end.

Ltac get_ideal :=
  cbn [deltas fold_left fst snd];
  rewrite !get_addz by (rewrite ?addz_length, ?set_length, ?addz_length; lia).

(** Apart from the word that is eliminated and the top one, words only grow. *)
Lemma top_mono T i k :
  (i + 9 < length T)%nat -> (k < length T)%nat -> k <> i -> k <> (i + 9)%nat -> 0 <= get T i ->
  get T k + (if (k =? i + 1)%nat then get T i / 2 ^ 29 else 0) <= get (top_ideal T i) k.
Proof.
  intros Hl Hk Hki Hk9 H0. destruct (top_bounded T T T i (bounded_refl T) Hl) as (_ & _ & HB).
  rewrite (proj1 (ideal_length T i)) in HB. etransitivity; [|apply (HB k Hk)].
  unfold top_low. get_ideal. rewrite get_set_neq by auto. rewrite get_addz by lia.
  pose proof (Z.div_pos (get T i) (2 ^ 29) H0 ltac:(lia)). eqb_cases.
Qed.

Lemma bottom_mono T i k :
  (i + 10 < length T)%nat -> (k < length T)%nat -> k <> (i + 1)%nat -> 0 <= get T (i + 1) ->
  get T k <= get (bottom_ideal T i) k.
Proof.
  intros Hl Hk Hki H0. destruct (bottom_bounded T T T i (bounded_refl T) Hl) as (_ & _ & HB).
  rewrite (proj2 (ideal_length T i)) in HB. etransitivity; [|apply (HB k Hk)].
  unfold bottom_low. get_ideal. rewrite get_set_neq by auto. rewrite get_addz by lia.
  pose proof (Z.div_pos (get T (i + 1)) (2 ^ 28) H0 ltac:(lia)). eqb_cases.
Qed.

(** The one addition that can be negative: word [k] may be [-1], but then the word
    below holds the carry that repairs it. *)
Definition owed (T : list Z) (k : nat) : Prop :=
  0 <= get T k \/ (-1 <= get T k /\ 2 ^ 29 <= get T (k - 1)).

Lemma top_owed T i :
  (i + 9 < length T)%nat -> 0 <= get T (i + 8) -> 0 <= get T (i + 9) -> owed (top_ideal T i) (i + 9).
Proof.
  intros Hl H8 H9. unfold owed. replace (i + 9 - 1)%nat with (i + 8)%nat by lia.
  unfold top_ideal, top_deltas. get_ideal.
  rewrite !get_set_neq, !get_addz by lia.
  pose proof (Z.mod_pos_bound (get T i) (2 ^ 29) ltac:(lia)). set (x := get T i mod 2 ^ 29) in *.
  parts x (2 ^ 4). parts x 2. change (2 ^ 1) with 2.
  assert (Hnz : (x = 0 /\ nz x = 0) \/ (0 < x /\ nz x = 1)) by (unfold nz; destruct (Z.eqb_spec x 0); lia).
  eqb_cases.
Qed.

Lemma owed_mono T T' k :
  get T k <= get T' k -> get T (k - 1) <= get T' (k - 1) -> owed T k -> owed T' k.
Proof. unfold owed. lia. Qed.

Lemma owed_top T i k :
  (i + 9 < length T)%nat -> (k < length T)%nat -> (i + 2 <= k)%nat -> k <> (i + 9)%nat ->
  k <> (i + 10)%nat -> 0 <= get T i -> owed T k -> owed (top_ideal T i) k.
Proof.
  intros Hl Hk Hi H9 H10 H0. pose proof (Z.div_pos (get T i) (2 ^ 29) H0 ltac:(lia)).
  apply owed_mono; (etransitivity; [|apply top_mono; lia]); destruct (Nat.eqb _ _); lia.
Qed.

Lemma owed_bottom T i k :
  (i + 10 < length T)%nat -> (k < length T)%nat -> (i + 3 <= k)%nat -> 0 <= get T (i + 1) ->
  owed T k -> owed (bottom_ideal T i) k.
Proof. intros Hl Hk Hi H0. apply owed_mono; apply bottom_mono; lia. Qed.

(** *** The nine half iterations *)

Definition low0 : list Z := repeat 0 18.
Definition high0 : list Z :=
  [2 ^ 29; 2 ^ 28; 2 ^ 29; 2 ^ 28; 2 ^ 29; 2 ^ 28; 2 ^ 29; 2 ^ 28; 2 ^ 29; 2 ^ 28; 2 ^ 29; 2 ^ 28;
   2 ^ 29; 2 ^ 28; 2 ^ 29; 2 ^ 28; 2 ^ 29; 2 ^ 31 + 2 ^ 8].

Lemma top_step T L U i :
  bounded T L U -> length T = 18%nat -> (i < 9)%nat -> Nat.even i = true ->
  0 <= get L i -> get U i < 2 ^ 32 ->
  top_half (map u32 T) i = map u32 (top_ideal T i) /\
  bounded (top_ideal T i) (top_low L i) (top_high U i) /\ length (top_ideal T i) = 18%nat /\
  wval true (top_ideal T i) ==[p] wval true T /\ 0 <= get T i.
Proof.
  intros HB HL Hi He H0 H1. pose proof HB as (_ & _ & HBi). specialize (HBi i ltac:(lia)).
  split; [apply top_half_ideal; lia|]. split; [apply top_bounded; [exact HB|lia]|].
  split; [now rewrite (proj1 (ideal_length T i))|]. split; [|lia].
  rewrite top_ideal_value by (auto; lia).
  apply eqm_of_diff with (get T i mod 2 ^ 29 * span true i). ring.
Qed.

Lemma bottom_step T L U i :
  bounded T L U -> length T = 18%nat -> (i < 8)%nat -> Nat.even i = true ->
  0 <= get L (i + 1) -> get U (i + 1) < 2 ^ 32 ->
  bottom_half (map u32 T) i = map u32 (bottom_ideal T i) /\
  bounded (bottom_ideal T i) (bottom_low L i) (bottom_high U i) /\ length (bottom_ideal T i) = 18%nat /\
  wval true (bottom_ideal T i) ==[p] wval true T /\ 0 <= get T (i + 1).
Proof.
  intros HB HL Hi He H0 H1. pose proof HB as (_ & _ & HBi). specialize (HBi (i + 1)%nat ltac:(lia)).
  split; [apply bottom_half_ideal; lia|]. split; [apply bottom_bounded; [exact HB|lia]|].
  split; [now rewrite (proj2 (ideal_length T i))|]. split; [|lia].
  rewrite bottom_ideal_value by (auto; lia).
  apply eqm_of_diff with (get T (i + 1) mod 2 ^ 28 * span true (i + 1)). ring.
Qed.

(** What is left when the low nine words are gone. *)
Record eliminated (v : Z) (T : list Z) : Prop := {
  el_length : length T = 18%nat;
  el_low : firstn 9 T = repeat 0 9;
  el_value : wval true T ==[p] v;
  el_bound : wval true T <= v + (2 ^ 257 - 1) * p;
  el_even : forall k, In k [10; 12; 14; 16]%nat -> 0 <= get T k < 2 ^ 32 - 2 ^ 5;
  el_odd : forall k, In k [9; 11; 13; 15; 17]%nat -> get T k < 2 ^ 32 - 2 ^ 29;
  el_nine : 0 <= get T 9;
  el_owed : forall k, In k [11; 13; 15; 17]%nat -> owed T k
}.

Ltac bound_check := solve [vm_compute; discriminate | vm_compute; reflexivity].

(** A word below its computed bounds. *)
Lemma bounded_get T L U k : bounded T L U -> (k < length T)%nat -> get L k <= get T k <= get U k.
Proof. intros (_ & _ & H). apply H. Qed.

Lemma owed_top18 T i k :
  length T = 18%nat -> 0 <= get T i ->
  ((i <? 9) && (k <? 18) && (i + 2 <=? k) && negb (k =? i + 9) && negb (k =? i + 10) = true)%nat ->
  owed T k -> owed (top_ideal T i) k.
Proof.
  rewrite !andb_true_iff, !negb_true_iff, !Nat.ltb_lt, Nat.leb_le, !Nat.eqb_neq.
  intros Hl H0 Hk. apply owed_top; lia.
Qed.

Lemma owed_bottom18 T i k :
  length T = 18%nat -> 0 <= get T (i + 1) -> ((i <? 8) && (k <? 18) && (i + 3 <=? k) = true)%nat ->
  owed T k -> owed (bottom_ideal T i) k.
Proof.
  rewrite !andb_true_iff, !Nat.ltb_lt, Nat.leb_le. intros Hl H0 Hk. apply owed_bottom; lia.
Qed.

Lemma top_owed18 T L U i :
  bounded T L U -> length T = 18%nat -> (i <? 9)%nat = true -> 0 <= get L (i + 8) -> 0 <= get L (i + 9) ->
  owed (top_ideal T i) (i + 9).
Proof.
  intros HB Hl Hi H8 H9. apply Nat.ltb_lt in Hi. apply top_owed; [lia|..].
  - pose proof (bounded_get _ _ _ (i + 8) HB ltac:(lia)). lia.
  - pose proof (bounded_get _ _ _ (i + 9) HB ltac:(lia)). lia.
Qed.

(** Eliminating the word below pays what is owed. *)
Lemma top_pays T i :
  (i + 9 < length T)%nat -> 0 <= get T i -> owed T (i + 1) -> 0 <= get (top_ideal T i) (i + 1).
Proof.
  intros Hl H0 Ho. pose proof (top_mono T i (i + 1) Hl ltac:(lia) ltac:(lia) ltac:(lia) H0) as M.
  rewrite Nat.eqb_refl in M. unfold owed in Ho. replace (i + 1 - 1)%nat with i in Ho by lia.
  pose proof (Z.div_pos (get T i) (2 ^ 29) H0 ltac:(lia)).
  assert (2 ^ 29 <= get T i -> 1 <= get T i / 2 ^ 29) by (intros; apply Z.div_le_lower_bound; lia). lia.
Qed.

(** The eliminated words stay zero. *)
Lemma low_zero T L U :
  bounded T L U -> length T = 18%nat -> firstn 9 L = repeat 0 9 -> firstn 9 U = repeat 0 9 ->
  firstn 9 T = repeat 0 9.
Proof.
  intros HB Hl HL HU. apply list_ext; rewrite length_firstn, Hl; [reflexivity|]. intros j Hj.
  change (Nat.min 9 18) with 9%nat in Hj.
  assert (G : forall l, get (firstn 9 l) j = get l j).
  { intros l. unfold get. rewrite nth_firstn. now rewrite (proj2 (Nat.ltb_lt j 9)) by lia. }
  pose proof (bounded_get _ _ _ j HB ltac:(lia)) as B.
  rewrite <- (G L), <- (G U), HL, HU in B. rewrite G. lia.
Qed.

Lemma top_grows T i :
  Nat.even i = true -> (i + 9 < length T)%nat ->
  wval true (top_ideal T i) <= wval true T + (2 ^ 29 - 1) * p * span true i.
Proof.
  intros Hi Hl. rewrite top_ideal_value by assumption.
  pose proof (Z.mod_pos_bound (get T i) (2 ^ 29) ltac:(lia)). pose proof (span_pos true i).
  assert (0 < p) by (rewrite p_value; lia). nia.
Qed.

Lemma bottom_grows T i :
  Nat.even i = true -> (i + 10 < length T)%nat ->
  wval true (bottom_ideal T i) <= wval true T + (2 ^ 28 - 1) * p * span true (i + 1).
Proof.
  intros Hi Hl. rewrite bottom_ideal_value by assumption.
  pose proof (Z.mod_pos_bound (get T (i + 1)) (2 ^ 28) ltac:(lia)). pose proof (span_pos true (i + 1)).
  assert (0 < p) by (rewrite p_value; lia). nia.
Qed.

Lemma reduce_eliminate_spec T :
  length T = 18%nat -> bounded T low0 high0 ->
  exists T', reduce_eliminate (map u32 T) = map u32 T' /\ eliminated (wval true T) T'.
Proof.
  intros HL HB. unfold reduce_eliminate. cbn [fold_left].
  destruct (top_step T _ _ 0 HB HL) as (-> & B1 & L1 & V1 & P0); [lia|reflexivity|bound_check..|].
  pose proof (top_owed18 T _ _ 0 HB HL eq_refl ltac:(bound_check) ltac:(bound_check)) as O9.
  pose proof (top_grows T 0 eq_refl ltac:(lia)) as W1.
  remember (top_ideal T 0) as T1 eqn:E1; clear E1.
  destruct (bottom_step T1 _ _ 0 B1 L1) as (-> & B2 & L2 & V2 & P1); [lia|reflexivity|bound_check..|].
  apply (owed_bottom18 T1 0 9 L1 P1 eq_refl) in O9.
  pose proof (bottom_grows T1 0 eq_refl ltac:(lia)) as W2.
  remember (bottom_ideal T1 0) as T2 eqn:E2; clear E2.
  destruct (top_step T2 _ _ 2 B2 L2) as (-> & B3 & L3 & V3 & P2); [lia|reflexivity|bound_check..|].
  apply (owed_top18 T2 2 9 L2 P2 eq_refl) in O9.
  pose proof (top_owed18 T2 _ _ 2 B2 L2 eq_refl ltac:(bound_check) ltac:(bound_check)) as O11.
  pose proof (top_grows T2 2 eq_refl ltac:(lia)) as W3.
  remember (top_ideal T2 2) as T3 eqn:E3; clear E3.
  destruct (bottom_step T3 _ _ 2 B3 L3) as (-> & B4 & L4 & V4 & P3); [lia|reflexivity|bound_check..|].
  apply (owed_bottom18 T3 2 9 L3 P3 eq_refl) in O9. apply (owed_bottom18 T3 2 11 L3 P3 eq_refl) in O11.
  pose proof (bottom_grows T3 2 eq_refl ltac:(lia)) as W4.
  remember (bottom_ideal T3 2) as T4 eqn:E4; clear E4.
  destruct (top_step T4 _ _ 4 B4 L4) as (-> & B5 & L5 & V5 & P4); [lia|reflexivity|bound_check..|].
  apply (owed_top18 T4 4 9 L4 P4 eq_refl) in O9. apply (owed_top18 T4 4 11 L4 P4 eq_refl) in O11.
  pose proof (top_owed18 T4 _ _ 4 B4 L4 eq_refl ltac:(bound_check) ltac:(bound_check)) as O13.
  pose proof (top_grows T4 4 eq_refl ltac:(lia)) as W5.
  remember (top_ideal T4 4) as T5 eqn:E5; clear E5.
  destruct (bottom_step T5 _ _ 4 B5 L5) as (-> & B6 & L6 & V6 & P5); [lia|reflexivity|bound_check..|].
  apply (owed_bottom18 T5 4 9 L5 P5 eq_refl) in O9. apply (owed_bottom18 T5 4 11 L5 P5 eq_refl) in O11.
  apply (owed_bottom18 T5 4 13 L5 P5 eq_refl) in O13.
  pose proof (bottom_grows T5 4 eq_refl ltac:(lia)) as W6.
  remember (bottom_ideal T5 4) as T6 eqn:E6; clear E6.
  destruct (top_step T6 _ _ 6 B6 L6) as (-> & B7 & L7 & V7 & P6); [lia|reflexivity|bound_check..|].
  apply (owed_top18 T6 6 9 L6 P6 eq_refl) in O9. apply (owed_top18 T6 6 11 L6 P6 eq_refl) in O11.
  apply (owed_top18 T6 6 13 L6 P6 eq_refl) in O13.
  pose proof (top_owed18 T6 _ _ 6 B6 L6 eq_refl ltac:(bound_check) ltac:(bound_check)) as O15.
  pose proof (top_grows T6 6 eq_refl ltac:(lia)) as W7.
  remember (top_ideal T6 6) as T7 eqn:E7; clear E7.
  destruct (bottom_step T7 _ _ 6 B7 L7) as (-> & B8 & L8 & V8 & P7); [lia|reflexivity|bound_check..|].
  apply (owed_bottom18 T7 6 9 L7 P7 eq_refl) in O9. apply (owed_bottom18 T7 6 11 L7 P7 eq_refl) in O11.
  apply (owed_bottom18 T7 6 13 L7 P7 eq_refl) in O13. apply (owed_bottom18 T7 6 15 L7 P7 eq_refl) in O15.
  pose proof (bottom_grows T7 6 eq_refl ltac:(lia)) as W8.
  remember (bottom_ideal T7 6) as T8 eqn:E8; clear E8.
  destruct (top_step T8 _ _ 8 B8 L8) as (-> & B9 & L9 & V9 & P8); [lia|reflexivity|bound_check..|].
  apply (owed_top18 T8 8 11 L8 P8 eq_refl) in O11. apply (owed_top18 T8 8 13 L8 P8 eq_refl) in O13.
  apply (owed_top18 T8 8 15 L8 P8 eq_refl) in O15.
  pose proof (top_owed18 T8 _ _ 8 B8 L8 eq_refl ltac:(bound_check) ltac:(bound_check)) as O17.
  pose proof (top_pays T8 8 ltac:(lia) P8 O9) as N9.
  pose proof (top_grows T8 8 eq_refl ltac:(lia)) as W9.
  exists (top_ideal T8 8). split; [reflexivity|].
  pose proof (low_zero _ _ _ B9 L9 ltac:(vm_compute; reflexivity) ltac:(vm_compute; reflexivity)) as Z9.
  pose proof (fun k Hk => bounded_get _ _ _ k B9 Hk) as G. rewrite L9 in G.
  clear B1 B2 B3 B4 B5 B6 B7 B8 HB. split.
  - exact L9.
  - exact Z9.
  - now rewrite V9, V8, V7, V6, V5, V4, V3, V2, V1.
  - clear - W1 W2 W3 W4 W5 W6 W7 W8 W9. cbn [span limb_width negb Nat.add] in *. lia.
  - intros k Hk. specialize (G k). destruct G as [Lk Uk]; [cbn in Hk; lia|].
    split; [etransitivity; [|exact Lk]|eapply Z.le_lt_trans; [exact Uk|]];
      clear Lk Uk; cbn in Hk; decompose [or] Hk; try contradiction; subst k; bound_check.
  - intros k Hk. specialize (G k). destruct G as [Lk Uk]; [cbn in Hk; lia|].
    eapply Z.le_lt_trans; [exact Uk|].
    clear Lk Uk; cbn in Hk; decompose [or] Hk; try contradiction; subst k; bound_check.
  - exact N9.
  - intros k Hk. cbn in Hk. decompose [or] Hk; try contradiction; subst k; assumption.
Qed.

(** ** The shift by 257 bits *)

(** An even word of the result takes the lowest bit of the word above it. *)
Definition low_bit_up (a c : Z) : Z := a + c mod 2 * 2 ^ 28.

Lemma low_bit_word c : 0 <= c < 2 ^ 32 -> (u32 c [<<] 28) .& kBottom29Bits = c mod 2 * 2 ^ 28.
Proof.
  intros Hc. rewrite (u32_small c) by exact Hc. change kBottom29Bits with (limb_mask true).
  rewrite masked_shift by (cbn; lia). reflexivity.
Qed.

(** A carry chain step for a pair of words: the carry out repays the next word. *)
Lemma chain_pair a c k E :
  0 <= c < 2 ^ 32 - 2 ^ 5 -> -1 <= a < 2 ^ 32 - 2 ^ 29 -> 0 <= a + k -> 0 <= k < 16 ->
  (forall k', 0 <= k' < 16 -> (2 ^ 29 <= c -> 1 <= k') -> chain_ok true k' E) ->
  chain_ok true k (low_bit_up a c :: c / 2 :: E).
Proof.
  intros Hc Ha Hak Hk HE. cbn [chain_ok limb_width negb]. unfold low_bit_up.
  pose proof (Z.mod_pos_bound c 2 ltac:(lia)) as Bm. pose proof (Z.div_mod c 2 ltac:(lia)) as Dc.
  set (v := a + c mod 2 * 2 ^ 28 + k). assert (Hv : 0 <= v < 2 ^ 32) by (unfold v; lia).
  split; [lia|]. assert (Hq : 0 <= v / 2 ^ 29 < 8)
    by (split; [apply Z.div_pos; lia|apply Z.div_lt_upper_bound; lia]).
  split; [lia|]. apply HE.
  - split; [apply Z.div_pos; lia|apply Z.div_lt_upper_bound; lia].
  - intros H29. apply Z.div_le_lower_bound; lia.
Qed.

Lemma shifted_spec v T :
  eliminated v T ->
  felem (chained (shifted (map u32 T))) /\ 2 ^ 257 * fval (chained (shifted (map u32 T))) ==[p] v /\
  (v < 2 ^ 514 + 2 ^ 490 -> fval (chained (shifted (map u32 T))) < 2 ^ 257).
Proof.
  intros [Hl Hlow Hv Hbd Heven Hodd H9 Howed].
  do 18 (destruct T as [|? T]; [discriminate Hl|]). destruct T; [|discriminate Hl]. clear Hl.
  cbn [firstn repeat] in Hlow. injection Hlow as -> -> -> -> -> -> -> -> ->.
  pose proof (Heven 10%nat ltac:(cbn; auto)) as E10. pose proof (Heven 12%nat ltac:(cbn; auto)) as E12.
  pose proof (Heven 14%nat ltac:(cbn; auto)) as E14. pose proof (Heven 16%nat ltac:(cbn; auto 6)) as E16.
  pose proof (Hodd 9%nat ltac:(cbn; auto)) as O9. pose proof (Hodd 11%nat ltac:(cbn; auto)) as O11.
  pose proof (Hodd 13%nat ltac:(cbn; auto)) as O13. pose proof (Hodd 15%nat ltac:(cbn; auto 6)) as O15.
  pose proof (Hodd 17%nat ltac:(cbn; auto 7)) as O17.
  pose proof (Howed 11%nat ltac:(cbn; auto)) as W11. pose proof (Howed 13%nat ltac:(cbn; auto)) as W13.
  pose proof (Howed 15%nat ltac:(cbn; auto)) as W15. pose proof (Howed 17%nat ltac:(cbn; auto 6)) as W17.
  clear Heven Hodd Howed. unfold owed in *. cbn [get nth Nat.sub] in *.
  match type of Hv with wval true [_; _; _; _; _; _; _; _; _; ?a; ?b; ?c; ?d; ?e; ?f; ?g; ?h; ?i] ==[_] _ =>
    set (E := [low_bit_up a b; b / 2; low_bit_up c d; d / 2; low_bit_up e f; f / 2; low_bit_up g h; h / 2; i]);
    destruct (chained_exact (shifted (map u32 [0; 0; 0; 0; 0; 0; 0; 0; 0; a; b; c; d; e; f; g; h; i])) E)
      as [H1 (cc & Hcc & H2)]
  end.
  - unfold E. cbn [map seq NLIMBS shifted Nat.even Nat.eqb Nat.add get nth].
    rewrite !low_bit_word, !u32_idem_l by lia. unfold low_bit_up. rewrite !(u32_small z9), !(u32_small z11),
      !(u32_small z13), !(u32_small z15), !shr_div by lia. change (2 ^ 1) with 2.
    assert (Hh : forall y, 0 <= y < 2 ^ 32 - 2 ^ 5 -> u32 (y / 2) = y / 2)
      by (intros y Hy; pose proof (Z.div_mod y 2 ltac:(lia)); pose proof (Z.mod_pos_bound y 2 ltac:(lia));
          apply u32_small; lia).
    now rewrite !Hh by assumption.
  - unfold E. apply chain_pair; try lia. intros k1 Hk1 Hc1. apply chain_pair; try lia.
    intros k2 Hk2 Hc2. apply chain_pair; try lia. intros k3 Hk3 Hc3. apply chain_pair; try lia.
    intros k4 Hk4 Hc4. cbn [chain_ok]. split; [lia|exact I].
  - assert (EV : 2 ^ 257 * wval true E = wval true [0; 0; 0; 0; 0; 0; 0; 0; 0; z8; z9; z10; z11; z12; z13; z14; z15; z16]).
    { unfold E, low_bit_up.
      pose proof (Z.div_mod z9 2 ltac:(lia)). pose proof (Z.div_mod z11 2 ltac:(lia)).
      pose proof (Z.div_mod z13 2 ltac:(lia)). pose proof (Z.div_mod z15 2 ltac:(lia)).
      cbn [wval limb_width negb]. lia. }
    split; [exact H1|]. rewrite H2. split.
    + rewrite <- Hv, <- EV. apply eqm_of_diff with (- 2 ^ 258 * cc). ring.
    + intros Hvb. rewrite <- EV in Hbd. clear - Hcc Hbd Hvb. rewrite p_value in *. lia.
Qed.

Lemma limbs_bounded w :
  length w = 18%nat -> limbs 0 true (firstn 17 w) -> 0 <= get w 17 < 2 ^ 31 + 2 ^ 8 ->
  map u32 w = w /\ bounded w low0 high0.
Proof.
  intros Hl Hb Ht. do 18 (destruct w as [|? w]; [discriminate Hl|]). destruct w; [|discriminate Hl].
  cbn [firstn limbs limb_width negb get nth] in *. split.
  - cbn [map]. rewrite !u32_small by lia. reflexivity.
  - split; [reflexivity|]. split; [reflexivity|]. intros k Hk. cbn [length] in Hk.
    do 18 (destruct k as [|k]; [cbn [low0 high0 repeat get nth]; lia|]). lia.
Qed.

(** Montgomery reduction: [tmp / R] modulo [p], loosely reduced. *)
Lemma felem_reduce_degree_spec tmp :
  length tmp = 17%nat -> words 64 tmp -> get tmp 16 < 2 ^ 60 ->
  felem (felem_reduce_degree tmp) /\ 2 ^ 257 * fval (felem_reduce_degree tmp) ==[p] wval true tmp /\
  (wval true tmp < 2 ^ 514 + 2 ^ 490 -> fval (felem_reduce_degree tmp) < 2 ^ 257).
Proof.
  intros Hl Hw H16. destruct (reduce_split_spec tmp Hl Hw H16) as [Hl2 Hb Ht Hv].
  unfold felem_reduce_degree. destruct (limbs_bounded _ Hl2 Hb Ht) as [Hmap HB]. rewrite <- Hmap.
  destruct (reduce_eliminate_spec _ Hl2 HB) as (T & -> & HT). rewrite Hv in HT.
  now apply shifted_spec.
Qed.

(** ** Products *)

(** Sums of products of limbs stay far below 64 bits. *)
Definition small (n z : Z) : Prop := 0 <= z <= n * 2 ^ 60.

Lemma small_mul x y : 0 <= x < 2 ^ 30 -> 0 <= y < 2 ^ 30 -> small 1 (x * y).
Proof. unfold small. nia. Qed.

Lemma small_mul_double x y : 0 <= x < 2 ^ 30 -> 0 <= y < 2 ^ 31 -> small 2 (x * y).
Proof. unfold small. nia. Qed.

Lemma small_add n m a c : small n a -> small m c -> small (n + m) (a + c).
Proof. unfold small. lia. Qed.

Lemma small_u64 n z : small n z -> n <= 15 -> u64 z = z.
Proof. unfold small. intros H Hn. apply u64_small. lia. Qed.

Lemma term_shift x y s :
  0 <= x < 2 ^ 30 -> 0 <= s <= 2 -> 0 <= y * 2 ^ s < 2 ^ 31 -> u64 (x * (y [<<] s)) = x * (y * 2 ^ s).
Proof.
  intros Hx Hs Hy. rewrite shl_mul, (u32_small (y * 2 ^ s)) by lia.
  apply (small_u64 2); [now apply small_mul_double|lia].
Qed.

Lemma term_plain x y : 0 <= x < 2 ^ 30 -> 0 <= y < 2 ^ 30 -> u64 (x * y) = x * y.
Proof. intros Hx Hy. apply (small_u64 1); [now apply small_mul|lia]. Qed.

Ltac small_solve :=
  repeat lazymatch goal with
  | |- small _ (_ + _) => eapply small_add
  | |- small _ (_ * _) => first [apply small_mul; lia | apply small_mul_double; lia]
  end.

(** Removes the conversions of one entry. *)
Ltac exact_entry :=
  repeat first [rewrite term_shift by lia | rewrite term_plain by lia];
  first [ eapply small_u64; [small_solve|lia] | reflexivity ].

(** Removes the conversions of all entries. *)
Ltac exact_entries :=
  lazymatch goal with
  | |- wval _ ?l = _ =>
      let r := fresh "r" in let Er := fresh "Er" in
      evar (r : list Z); assert (Er : l = r);
      [ unfold r; repeat (apply f_equal2; [exact_entry|]); reflexivity
      | rewrite Er; unfold r; clear Er r ]
  end.

(** What [felem_reduce_degree] asks of its argument, and its value. *)
Definition product_of (tmp : list Z) (z : Z) : Prop :=
  length tmp = 17%nat /\ words 64 tmp /\ get tmp 16 < 2 ^ 60 /\ wval true tmp = z.

Lemma mul_terms_spec a c : felem a -> felem c -> product_of (mul_terms a c) (fval a * fval c).
Proof.
  intros Ha Hc. split; [reflexivity|].
  split; [unfold mul_terms; repeat (apply Forall_cons; [apply u64_range|]); apply Forall_nil|].
  limbs9 a Ha. limbs9 c Hc. split.
  - unfold mul_terms. cbn [get nth]. rewrite term_shift by lia. nia.
  - unfold mul_terms. cbn [get nth]. exact_entries.
    unfold fval. cbn [wval limb_width negb]. ring.
Qed.

Lemma square_terms_spec a : felem a -> product_of (square_terms a) (fval a * fval a).
Proof.
  intros Ha. split; [reflexivity|].
  split; [unfold square_terms; repeat (apply Forall_cons; [apply u64_range|]); apply Forall_nil|].
  limbs9 a Ha. split.
  - unfold square_terms. cbn [get nth]. rewrite term_plain by lia. nia.
  - unfold square_terms. cbn [get nth]. exact_entries.
    unfold fval. cbn [wval limb_width negb]. ring.
Qed.

Lemma reduce_product tmp z :
  product_of tmp z ->
  felem (felem_reduce_degree tmp) /\ 2 ^ 257 * fval (felem_reduce_degree tmp) ==[p] z.
Proof. intros (Hl & Hw & H16 & <-). destruct (felem_reduce_degree_spec tmp Hl Hw H16) as (H1 & H2 & _). auto. Qed.

Lemma felem_max l : felem l -> 0 <= fval l < 2 ^ 257 + 2 ^ 230.
Proof. intros H. limbs9 l H. unfold fval. cbn [wval limb_width negb]. lia. Qed.

(** A product leaves the reduction below [2^257]. *)
Lemma felem_mul_small a c : felem a -> felem c -> fval (felem_mul a c) < 2 ^ 257.
Proof.
  intros Ha Hc. destruct (mul_terms_spec a c Ha Hc) as (Hl & Hw & H16 & Hv).
  destruct (felem_reduce_degree_spec _ Hl Hw H16) as (_ & _ & H). apply H. rewrite Hv.
  pose proof (felem_max a Ha). pose proof (felem_max c Hc). nia.
Qed.

(** * The field operations

    [frep l z]: the limbs [l] hold the Montgomery form of [z]. *)
Definition R : Z := 2 ^ 257.
Definition Rinv : Z := 0x7fffffff00000001fffffffe8000000100000000ffffffff0000000180000000.

Definition frep (l : list Z) (z : Z) : Prop := felem l /\ fval l ==[p] z * R.

#[export] Instance frep_proper l : Proper (eqm p ==> iff) (frep l).
Proof. intros z z' Hz. unfold frep. now rewrite Hz. Qed.

Lemma R_Rinv : R * Rinv ==[p] 1.
Proof. vm_compute. reflexivity. Qed.

Lemma frep_unique l z z' : frep l z -> frep l z' -> z ==[p] z'.
Proof.
  intros [_ H] [_ H']. apply (eqm_cancel p R Rinv); [exact R_Rinv|].
  rewrite !(Z.mul_comm R), <- H. exact H'.
Qed.

Lemma frep_sum a c x y : frep a x -> frep c y -> frep (felem_sum a c) (x + y).
Proof.
  intros [Ha Ex] [Hc Ey]. destruct (felem_sum_spec a c Ha Hc) as [H1 H2]. split; [exact H1|].
  rewrite H2, Ex, Ey. now rewrite Z.mul_add_distr_r.
Qed.

Lemma frep_diff a c x y : frep a x -> frep c y -> frep (felem_diff a c) (x - y).
Proof.
  intros [Ha Ex] [Hc Ey]. destruct (felem_diff_spec a c Ha Hc) as [H1 H2]. split; [exact H1|].
  rewrite H2, Ex, Ey. now rewrite Z.mul_sub_distr_r.
Qed.

Lemma frep_scalar k f x a :
  (felem a -> felem (f a) /\ fval (f a) ==[p] k * fval a) -> frep a x -> frep (f a) (k * x).
Proof.
  intros Hf [Ha Ex]. destruct (Hf Ha) as [H1 H2]. split; [exact H1|]. rewrite H2, Ex.
  now rewrite Z.mul_assoc.
Qed.

Lemma frep_scalar_3 a x : frep a x -> frep (felem_scalar_3 a) (3 * x).
Proof. apply frep_scalar, felem_scalar_3_spec. Qed.

Lemma frep_scalar_4 a x : frep a x -> frep (felem_scalar_4 a) (4 * x).
Proof. apply frep_scalar, felem_scalar_4_spec. Qed.

Lemma frep_scalar_8 a x : frep a x -> frep (felem_scalar_8 a) (8 * x).
Proof. apply frep_scalar, felem_scalar_8_spec. Qed.

Lemma frep_reduce tmp x y :
  product_of tmp (x * y) -> forall u v, x ==[p] u * R -> y ==[p] v * R ->
  frep (felem_reduce_degree tmp) (u * v).
Proof.
  intros H u v Hu Hv. destruct (reduce_product tmp _ H) as [H1 H2]. split; [exact H1|].
  apply (eqm_cancel p R Rinv); [exact R_Rinv|]. rewrite H2, Hu, Hv. apply eqm_of_diff with 0. ring.
Qed.

Lemma frep_mul a c x y : frep a x -> frep c y -> frep (felem_mul a c) (x * y).
Proof. intros [Ha Ex] [Hc Ey]. eapply frep_reduce; [now apply mul_terms_spec|exact Ex|exact Ey]. Qed.

Lemma frep_square a x : frep a x -> frep (felem_square a) (x * x).
Proof. intros [Ha Ex]. eapply frep_reduce; [now apply square_terms_spec|exact Ex|exact Ex]. Qed.

Lemma frep_one : frep kOne 1.
Proof. split; [repeat split; cbn; lia|vm_compute; reflexivity]. Qed.

Lemma frep_zero : frep kZero 0.
Proof. split; [repeat split; cbn; lia|reflexivity]. Qed.

Create HintDb frep.
#[export] Hint Resolve frep_sum frep_diff frep_scalar_3 frep_scalar_4 frep_scalar_8 frep_mul frep_square
  frep_one frep_zero : frep.

(** ** Inversion: powers of the argument are tracked by their exponents *)

Definition power (x e : Z) (l : list Z) : Prop := 0 <= e /\ frep l (x ^ e).

Lemma power_mul x e f a c : power x e a -> power x f c -> power x (e + f) (felem_mul a c).
Proof. intros [He Ha] [Hf Hc]. split; [lia|]. rewrite Z.pow_add_r by lia. auto with frep. Qed.

Lemma power_square x e a : power x e a -> power x (2 * e) (felem_square a).
Proof.
  intros [He Ha]. split; [lia|]. replace (2 * e) with (e + e) by lia.
  rewrite Z.pow_add_r by lia. auto with frep.
Qed.

Lemma power_square_n x e k a : power x e a -> power x (2 ^ Z.of_nat k * e) (felem_square_n k a).
Proof.
  intros Ha. induction k as [|k IH]; [now rewrite Z.mul_1_l|].
  rewrite Nat2Z.inj_succ, Z.pow_succ_r, <- Z.mul_assoc by lia. exact (power_square _ _ _ IH).
Qed.

Lemma power_assign x e a : power x e a -> power x e (felem_assign a).
Proof. exact id. Qed.

(** Runs the assignments of a function one by one, computing the exponents. *)
Ltac power_assignments :=
  repeat lazymatch goal with
  | |- power ?x ?E (let f := ?t in @?body f) =>
      let H := fresh "H" in let f := fresh "f" in
      eassert (H : power x _ t)
        by (lazymatch t with
            | felem_mul _ _ => eapply power_mul
            | felem_square _ => eapply power_square
            | felem_square_n _ _ => eapply power_square_n
            | felem_assign _ => eapply power_assign
            end; eassumption);
      lazymatch type of H with
      | power _ ?e _ => let e' := eval vm_compute in e in change (power x e' t) in H
      end;
      change (power x E (body t)); revert H; generalize t; intros f H; cbv beta
  end.

Lemma power_inv x a : frep a x -> power x (p - 2) (felem_inv a).
Proof.
  intros Ha. assert (H1 : power x 1 a) by (split; [lia|now rewrite Z.pow_1_r]).
  cbv beta delta [felem_inv]. power_assignments.
  lazymatch goal with |- power _ _ ?t => eassert (Hp : power x _ t) by (eapply power_mul; eassumption) end.
  lazymatch type of Hp with power _ ?e _ => replace (p - 2) with e by (vm_compute; reflexivity) end.
  exact Hp.
Qed.

Lemma frep_inv a x : frep a x -> frep (felem_inv a) (x ^ (p - 2)).
Proof. intros Ha. apply (power_inv x a Ha). Qed.

(** ** The test for zero *)

Lemma felem_bound l : felem l -> 0 <= fval l < 3 * p.
Proof. intros H. limbs9 l H. rewrite p_value. unfold fval. cbn [wval limb_width negb]. lia. Qed.

Lemma limbs_eq even a c :
  length a = length c -> limbs 0 even a -> limbs 0 even c -> wval even a = wval even c -> a = c.
Proof.
  revert even c. induction a as [|x a IH]; intros even [|y c] Hlen; try discriminate Hlen; [reflexivity|].
  cbn [limbs wval]. rewrite Z.add_0_r. intros [Hx Ha] [Hy Hc] E.
  assert (Exy : x = y /\ wval (negb even) a = wval (negb even) c)
    by (destruct even; cbn [limb_width] in *; lia).
  destruct Exy as [-> E']. f_equal. injection Hlen as Hlen. now apply (IH (negb even)).
Qed.

Lemma tight_eq a c : tight a -> tight c -> fval a = fval c -> a = c.
Proof. intros [La Ha] [Lc Hc]. apply limbs_eq; [congruence|exact Ha|exact Hc]. Qed.

Lemma felem_words l : felem l -> map u32 l = l /\ chain_ok true 0 l.
Proof.
  intros H. limbs9 l H. split; [cbn [map]; rewrite !u32_small by lia; reflexivity|chain_range].
Qed.

(** One pass of the loop lowers the value by twice [p] for each carry. *)
Lemma minimal_pass l :
  felem l ->
  let '(r, c) := carry_chain true 0 l in
  tight r /\ 0 <= c < 8 /\ felem (felem_reduce_carry r c) /\
  fval (felem_reduce_carry r c) = fval l - 2 * c * p.
Proof.
  intros Hl. destruct (felem_words l Hl) as [Hm Hok].
  pose proof (carry_chain_spec true 0 l Hok) as H1.
  pose proof (carry_chain_carry true 0 l Hok ltac:(intros ->; destruct Hl; discriminate)) as H2.
  rewrite Hm in *. destruct (carry_chain true 0 l) as [r c]. destruct H1 as (Hlen & Hr & EV).
  destruct Hl as [Hl _]. rewrite Hl in *. change (2 ^ (32 - limb_width (last_even true NLIMBS))) with 8 in H2.
  destruct (felem_reduce_carry_spec r c (conj Hlen Hr) ltac:(lia)) as [H3 H4].
  repeat split; try assumption; try lia; try apply H3.
  rewrite H4. change (span true NLIMBS) with (2 ^ 257) in EV. unfold fval in *. rewrite p_value. lia.
Qed.

Lemma minimal_loop_spec fuel l :
  felem l -> fval l < 2 * p * Z.of_nat fuel ->
  exists r, minimal_loop fuel l = Some r /\ tight r /\ fval r ==[p] fval l.
Proof.
  revert l. induction fuel as [|fuel IH]; intros l Hl Hf.
  - pose proof (felem_bound l Hl). lia.
  - cbn [minimal_loop]. pose proof (minimal_pass l Hl) as H.
    destruct (carry_chain true 0 l) as [r c]. destruct H as (Hr & Hc & Hf' & EV).
    pose proof (felem_bound l Hl) as Hp.
    destruct (Z.eqb_spec c 0) as [->|Hnz].
    + exists r. replace (felem_reduce_carry r 0) with r in *.
      * split; [reflexivity|]. split; [exact Hr|]. rewrite EV. apply eqm_of_diff with 0. ring.
      * clear - Hr. limbs9 r Hr. unfold felem_reduce_carry, add_at, sub_at. cbn [get set nth].
        rewrite mask_zero, !Z.land_0_r. change (u32 (0 << _)) with 0.
        rewrite !Z.add_0_r, !Z.sub_0_r, !u32_u32, !u32_small by lia. reflexivity.
    + destruct (IH _ Hf') as (r' & E & Ht & Ev); [rewrite EV; nia|].
      exists r'. split; [exact E|]. split; [exact Ht|]. rewrite Ev, EV.
      apply eqm_of_diff with (- 2 * c). ring.
Qed.

Lemma list_eqb_eq a c : list_eqb a c = true <-> a = c.
Proof. unfold list_eqb. destruct (list_eq_dec Z.eq_dec a c); split; congruence. Qed.

Lemma tight_zero_cases l :
  tight l -> (list_eqb l kZero || list_eqb l kP || list_eqb l k2P = true <-> fval l ==[p] 0).
Proof.
  intros Hl. rewrite !orb_true_iff, !list_eqb_eq. split.
  - intros [[-> | ->] | ->]; vm_compute; reflexivity.
  - intros E. pose proof (tight_bound l Hl) as B.
    apply eqm_diff in E as [k E]; [|rewrite p_value; lia].
    assert (Hk : k = 0 \/ k = 1 \/ k = 2) by (rewrite p_value in E; lia).
    assert (H0 : tight kZero /\ tight kP /\ tight k2P) by (repeat split; cbn; lia).
    destruct H0 as (T0 & T1 & T2).
    destruct Hk as [-> | [-> | ->]]; [left; left|left; right|right]; apply tight_eq; auto;
      rewrite E; vm_compute; reflexivity.
Qed.

Lemma felem_is_zero_spec fuel l x :
  (2 <= fuel)%nat -> frep l x ->
  exists r, felem_is_zero_vartime fuel l = Some r /\ (r = true <-> x ==[p] 0).
Proof.
  intros Hf [Hl Hx]. pose proof (felem_bound l Hl) as B.
  destruct (minimal_loop_spec fuel l Hl) as (t & E & Ht & Ev); [rewrite p_value in *; lia|].
  unfold felem_is_zero_vartime. rewrite E. eexists. split; [reflexivity|].
  rewrite (tight_zero_cases t Ht), Ev, Hx. split.
  - intros H. apply (eqm_cancel p R Rinv); [exact R_Rinv|]. now rewrite Z.mul_comm, H, Z.mul_0_r.
  - intros ->. reflexivity.
Qed.

(** * Theorems *)

(** the arithmetic of p256_ec.c is the arithmetic of the field: on limbs that
    hold [x] and [y] in Montgomery form, [felem_sum], [felem_diff], [felem_mul],
    [felem_square] and the multiplications by 3, 4 and 8 give limbs, again within
    the bounds, that hold the sum, difference, product, square and multiples. *)
Theorem felem_arithmetic a c x y :
  frep a x -> frep c y ->
  frep (felem_sum a c) (x + y) /\ frep (felem_diff a c) (x - y) /\ frep (felem_mul a c) (x * y) /\
  frep (felem_square a) (x * x) /\ frep (felem_scalar_3 a) (3 * x) /\ frep (felem_scalar_4 a) (4 * x) /\
  frep (felem_scalar_8 a) (8 * x).
Proof. intros Ha Hc. auto 12 with frep. Qed.

Lemma felem_arithmetic_witness :
  frep (felem_sum kOne kOne) (1 + 1) /\ frep (felem_diff kOne kOne) (1 - 1) /\
  frep (felem_mul kOne kOne) (1 * 1) /\ frep (felem_square kOne) (1 * 1) /\
  frep (felem_scalar_3 kOne) (3 * 1) /\ frep (felem_scalar_4 kOne) (4 * 1) /\
  frep (felem_scalar_8 kOne) (8 * 1).
Proof. apply (felem_arithmetic kOne kOne 1 1); apply frep_one. Defined.

(** [felem_reduce_degree] is Montgomery reduction: seventeen 64-bit words, the
    last below 2^60, become nine limbs within the bounds whose value times 2^257 is
    the value of the words modulo p, in spite of the intermediate words that
    underflow and are repaid later. *)
Theorem felem_reduce_degree_correct tmp :
  length tmp = 17%nat -> words 64 tmp -> get tmp 16 < 2 ^ 60 ->
  felem (felem_reduce_degree tmp) /\ 2 ^ 257 * fval (felem_reduce_degree tmp) ==[p] wval true tmp.
Proof. intros Hl Hw H16. destruct (felem_reduce_degree_spec tmp Hl Hw H16) as (H1 & H2 & _). auto. Qed.

Definition full_product : list Z := repeat (2 ^ 64 - 1) 16 ++ [2 ^ 60 - 1].

Lemma felem_reduce_degree_correct_witness :
  felem (felem_reduce_degree full_product) /\
  2 ^ 257 * fval (felem_reduce_degree full_product) ==[p] wval true full_product.
Proof.
  apply (felem_reduce_degree_correct full_product); [reflexivity| |reflexivity].
  unfold full_product. cbn [repeat app]. repeat constructor; discriminate.
Defined.

(** The bounds the comments of p256_ec.c give for a field element: they do not
    bound the top limb by 2^29. *)
Definition documented (l : list Z) : Prop := length l = NLIMBS /\ limbs 1 true l.

Definition full_limbs : list Z := map (fun i => 2 ^ (limb_width (Nat.even i) + 1) - 1) (seq 0 NLIMBS).

(** The entry bounds the comments give are too weak: [felem_scalar_8] applied
    to limbs within the documented entry bounds leaves the documented exit bounds,
    and [felem_reduce_degree] on words below 2^64 can return a wrong residue.
    (Inside the library the top limb is always below 2^29, which is enough.) *)
Theorem documented_bounds_too_weak :
  (documented full_limbs /\ ~ documented (felem_scalar_8 full_limbs)) /\
  (let tmp := repeat 0 16 ++ [2 ^ 61] in
   words 64 tmp /\ ~ 2 ^ 257 * fval (felem_reduce_degree tmp) ==[p] wval true tmp).
Proof.
  split.
  - split; [repeat split; vm_compute; congruence|].
    intros [_ H]. cut (get (felem_scalar_8 full_limbs) 7 < 2 ^ 29); [vm_compute; discriminate|].
    destruct (felem_scalar_8 full_limbs) as [|? [|? [|? [|? [|? [|? [|? [|? l]]]]]]]]; try reflexivity.
    cbn [limbs limb_width negb] in H. change (2 ^ (28 + 1)) with (2 ^ 29) in H. cbn [get nth]. tauto.
  - cbn [repeat app]. split; [repeat constructor; discriminate|]. vm_compute. discriminate.
Qed.
