(* ===== verification/Primes.v ===== *)
(** The modulus and the order of P-256 are prime.

    The constants are those of src/libmincrypt/p256.c; the primality proofs are
    Pocklington certificates, checked by evaluation: [N] is prime when it is below
    the square of a product of distinct primes [q] that divide [N - 1], each with a
    base [a] of order divisible by [q]. *)
From Stdlib Require Import ZArith Znumtheory List Lia Bool Morphisms Setoid.
From Stdlib Require Import Zmod.
From S2P Require Import Prelude Bignum P256.
Import ListNotations.
#[local] Set Warnings "-deprecated-since-Stdlib-9.1".

(** * Modular powers *)

Fixpoint pow_mod (m a : Z) (e : positive) : Z :=
  match e with
  | xH => a mod m
  | xO e => let r := pow_mod m a e in r * r mod m
  | xI e => let r := pow_mod m a e in r * r mod m * a mod m
  end.

Lemma pow_mod_spec m a e : pow_mod m a e = a ^ Zpos e mod m.
Proof.
  induction e as [e IH|e IH|]; cbn [pow_mod].
  - rewrite IH, Pos2Z.inj_xI, Z.pow_add_r, Z.pow_1_r, Z.pow_twice_r by lia.
    now rewrite <- Zmult_mod, Zmult_mod_idemp_l.
  - rewrite IH, Pos2Z.inj_xO, Z.pow_twice_r. now rewrite <- Zmult_mod.
  - now rewrite Z.pow_1_r.
Qed.

Definition powm (m a e : Z) : Z := match e with Zpos e => pow_mod m a e | _ => 1 mod m end.

Lemma powm_spec m a e : 0 <= e -> powm m a e = a ^ e mod m.
Proof. destruct e as [|e|e]; intros He; [reflexivity|apply pow_mod_spec|lia]. Qed.

(** * Divisors *)

Lemma prime_divisor n : 1 < n -> exists r, prime r /\ (r | n).
Proof.
  intros Hn. assert (H0 : 0 <= n) by lia. revert Hn. pattern n. apply Z_lt_induction; [|exact H0].
  clear n H0. intros n IH Hn. destruct (prime_dec n) as [Hp|Hp]; [exists n; split; [exact Hp|apply Z.divide_refl]|].
  destruct (not_prime_divide n Hn Hp) as (d & Hd & Hdn).
  destruct (IH d ltac:(lia) ltac:(lia)) as (r & Hr & Hrd). exists r. split; [exact Hr|].
  now apply Z.divide_trans with d.
Qed.

Lemma composite_divisor n : 1 < n -> ~ prime n -> exists r, prime r /\ (r | n) /\ r * r <= n.
Proof.
  intros Hn Hp. destruct (not_prime_divide n Hn Hp) as (d & Hd & (e & He)).
  assert (Hm : exists m, 1 < m /\ (m | n) /\ m * m <= n).
  { destruct (Z.le_gt_cases d e) as [Hle|Hgt].
    - exists d. repeat split; [lia|exists e; lia|nia].
    - exists e. repeat split; [nia|exists d; lia|nia]. }
  destruct Hm as (m & Hm1 & Hmn & Hmm). destruct (prime_divisor m Hm1) as (r & Hr & Hrm).
  exists r. split; [exact Hr|]. split; [now apply Z.divide_trans with m|].
  pose proof (prime_ge_2 r Hr). pose proof (Z.divide_pos_le r m ltac:(lia) Hrm). nia.
Qed.

(** A power that is one for two coprime exponents is one. *)
Lemma order_coprime r b q k :
  1 < r -> 0 < k -> 0 < q -> rel_prime q k -> b ^ q mod r = 1 -> b ^ k mod r = 1 -> b mod r = 1.
Proof.
  intros Hr Hk Hq Hrp Hbq Hbk. destruct (rel_prime_bezout q k Hrp) as [u v Huv].
  set (u' := u mod k + k). assert (Hu : 0 <= u mod k < k) by (apply Z.mod_pos_bound; lia).
  assert (E : exists v', 0 <= v' /\ u' * q = 1 + v' * k).
  { exists (q * (1 - u / k) - v). pose proof (Z.div_mod u k ltac:(lia)) as Du.
    assert (E1 : u' * q = 1 + (q * (1 - u / k) - v) * k) by (unfold u'; nia).
    split; [|exact E1]. assert (1 <= u' * q) by (unfold u'; nia). nia. }
  destruct E as (v' & Hv' & E).
  assert (P1 : forall c e x, 0 <= e -> 0 <= x -> c ^ e mod r = 1 -> c ^ (x * e) mod r = 1).
  { intros c e x He Hx H. rewrite Z.mul_comm, Z.pow_mul_r by lia. rewrite <- Z.mod_pow_l.
    rewrite H, Z.pow_1_l by lia. apply Z.mod_1_l. lia. }
  pose proof (P1 b q u' ltac:(lia) ltac:(unfold u'; lia) Hbq) as H1. rewrite E in H1.
  rewrite Z.pow_add_r, Z.pow_1_r in H1 by nia. rewrite Zmult_mod, (P1 b k v') in H1 by (lia || exact Hbk).
  now rewrite Z.mul_1_r, Zmod_mod in H1.
Qed.

(** * Pocklington's criterion *)

Lemma pocklington_factor N r q a :
  prime r -> (r | N) -> 1 < N -> prime q -> (q | N - 1) ->
  a ^ (N - 1) mod N = 1 -> Z.gcd (a ^ ((N - 1) / q) - 1) N = 1 -> (q | r - 1).
Proof.
  intros Hr HrN HN Hq HqN Ha Hg. pose proof (prime_ge_2 r Hr) as Hr2. pose proof (prime_ge_2 q Hq) as Hq2.
  assert (EN : N - 1 = q * ((N - 1) / q)) by (apply Zdivide_Zdiv_eq; [lia|exact HqN]).
  set (C := (N - 1) / q) in *. assert (HC : 0 < C) by nia.
  assert (Har : a ^ (N - 1) mod r = 1).
  { rewrite <- (Z.mod_mod_divide (a ^ (N - 1)) N r HrN), Ha. apply Z.mod_1_l. lia. }
  assert (Hb : (a ^ C) ^ q mod r = 1) by (rewrite <- Z.pow_mul_r by lia; now rewrite Z.mul_comm, <- EN).
  assert (Hnz : (a ^ C) mod r <> 0).
  { intros H0. rewrite <- Z.mod_pow_l, H0, Z.pow_0_l, Z.mod_0_l in Hb by lia. lia. }
  destruct (Zdivide_dec q (r - 1)) as [|Hnd]; [assumption|exfalso].
  assert (Hone : (a ^ C) mod r = 1).
  { apply (order_coprime r (a ^ C) q (r - 1)); try lia; [now apply prime_rel_prime|].
    apply Z.fermat_nz; [now apply prime_alt|exact Hnz]. }
  assert (Hdiv : (r | Z.gcd (a ^ C - 1) N)).
  { apply Z.gcd_greatest; [|exact HrN]. apply Zmod_divide; [lia|].
    rewrite Zminus_mod, Hone, (Z.mod_small 1) by lia. apply Z.mod_0_l. lia. }
  rewrite Hg in Hdiv. apply Z.divide_1_r in Hdiv. lia.
Qed.

Definition product (l : list Z) : Z := fold_right Z.mul 1 l.

(** [N - 1] has the distinct prime factors [qs], all with the base [a]. *)
Definition certificate (N a : Z) (qs : list Z) : bool :=
  (1 <? N) && (N <? product qs * product qs) && (powm N a (N - 1) =? 1) &&
  forallb (fun q => (0 <? q) && ((N - 1) mod q =? 0) && (Z.gcd (powm N a ((N - 1) / q) - 1) N =? 1)) qs.

Lemma distinct_product qs x :
  Forall prime qs -> NoDup qs -> Forall (fun q => (q | x)) qs -> (product qs | x) /\ 0 < product qs.
Proof.
  induction qs as [|q qs IH]; intros Hp Hn Hd; cbn [product fold_right]; [split; [apply Z.divide_1_l|lia]|].
  inversion Hp as [|? ? Hq Hp']; inversion Hn as [|? ? Hnq Hn']; inversion Hd as [|? ? Hdq Hd']; subst.
  fold (product qs). destruct (IH Hp' Hn' Hd') as [IH1 IH2]. pose proof (prime_ge_2 q Hq).
  split; [|nia]. assert (Hrp : rel_prime q (product qs)).
  { clear IH IH1 IH2 Hp Hn Hd Hd' Hn' Hdq. induction qs as [|q' qs IH]; [apply rel_prime_sym, rel_prime_1|].
    inversion Hp' as [|? ? Hq' Hqs]; subst. cbn [product fold_right]. apply rel_prime_mult.
    - apply prime_rel_prime; [exact Hq|]. intros H0. apply Hnq. left. symmetry. now apply prime_div_prime.
    - apply IH; [exact Hqs|]. intros H0. apply Hnq. now right. }
  destruct Hdq as (c & ->).
  rewrite (Z.mul_comm c q). apply Z.mul_divide_mono_l. apply Gauss with q; [|now apply rel_prime_sym].
  now rewrite Z.mul_comm.
Qed.

Lemma gcd_mod_l x m : m <> 0 -> Z.gcd x m = Z.gcd (x mod m) m.
Proof. intros Hm. rewrite Z.gcd_mod by exact Hm. apply Z.gcd_comm. Qed.

Theorem pocklington N a qs :
  Forall prime qs -> NoDup qs -> certificate N a qs = true -> prime N.
Proof.
  intros Hp Hn Hc. unfold certificate in Hc. rewrite !andb_true_iff, !Z.ltb_lt, Z.eqb_eq, forallb_forall in Hc.
  destruct Hc as [[[HN Hlt] Ha] Hq]. rewrite powm_spec in Ha by lia.
  destruct (prime_dec N) as [|Hnp]; [assumption|exfalso].
  destruct (composite_divisor N HN Hnp) as (r & Hr & HrN & Hrr). pose proof (prime_ge_2 r Hr).
  assert (Hd : Forall (fun q => (q | r - 1)) qs).
  { apply Forall_forall. intros q Hin. specialize (Hq q Hin).
    rewrite !andb_true_iff, Z.ltb_lt, !Z.eqb_eq in Hq. destruct Hq as [[Hq0 Hqd] Hg].
    assert (0 <= (N - 1) / q) by (apply Z.div_pos; lia). rewrite powm_spec in Hg by assumption.
    apply (pocklington_factor N r q a); try assumption.
    - rewrite Forall_forall in Hp. auto.
    - apply Zmod_divide; lia.
    - rewrite gcd_mod_l, <- Zminus_mod_idemp_l, <- gcd_mod_l by lia. exact Hg. }
  destruct (distinct_product qs (r - 1) Hp Hn Hd) as [H1 H2].
  apply Z.divide_pos_le in H1; [nia|lia].
Qed.

(** Small primes, by trial division. *)
Definition trial (n : Z) : bool :=
  (1 <? n) && forallb (fun d => negb (n mod Z.of_nat d =? 0)) (seq 2 (Z.to_nat (Z.sqrt n) - 1)).

Lemma trial_prime n : trial n = true -> prime n.
Proof.
  unfold trial. rewrite andb_true_iff, Z.ltb_lt, forallb_forall. intros [Hn Hd].
  destruct (prime_dec n) as [|Hnp]; [assumption|exfalso].
  destruct (composite_divisor n Hn Hnp) as (r & Hr & Hrn & Hrr). pose proof (prime_ge_2 r Hr).
  assert (r <= Z.sqrt n) by (apply Z.sqrt_le_square; lia).
  specialize (Hd (Z.to_nat r)). rewrite Z2Nat.id, (Zdivide_mod _ _ Hrn) in Hd by lia.
  discriminate Hd. apply in_seq. lia.
Qed.

Ltac prime_by_trial := apply trial_prime; vm_compute; reflexivity.
Ltac prime_by qs tac :=
  apply (pocklington _ 2 qs);
  [repeat (apply Forall_cons; [tac|]); apply Forall_nil
  |repeat (apply NoDup_cons; [cbn; lia|]); apply NoDup_nil
  |vm_compute; reflexivity].

Lemma prime_66417393611 : prime 66417393611.
Proof. prime_by [197; 3677] prime_by_trial. Qed.
Lemma prime_11290956913871 : prime 11290956913871.
Proof. prime_by [66417393611] ltac:(exact prime_66417393611). Qed.
Lemma prime_46076956964474543 : prime 46076956964474543.
Proof. prime_by [78283; 704251] prime_by_trial. Qed.
Lemma prime_150 : prime 774023187263532362759620327192479577272145303.
Proof.
  prime_by [11290956913871; 46076956964474543]
    ltac:(first [exact prime_11290956913871|exact prime_46076956964474543]).
Qed.
Lemma prime_160 : prime 835945042244614951780389953367877943453916927241.
Proof. prime_by [774023187263532362759620327192479577272145303] ltac:(exact prime_150). Qed.
Lemma prime_3969899 : prime 3969899.
Proof. prime_by [104471] prime_by_trial. Qed.
Lemma prime_1002328039319 : prime 1002328039319.
Proof. prime_by [3969899] ltac:(exact prime_3969899). Qed.
Lemma prime_191039911 : prime 191039911.
Proof. prime_by [155317] prime_by_trial. Qed.
Lemma prime_208150935158385979 : prime 208150935158385979.
Proof. prime_by [3023; 191039911] ltac:(first [exact prime_191039911|prime_by_trial]). Qed.
Lemma prime_92 : prime 2624747550333869278416773953.
Proof. prime_by [208150935158385979] ltac:(exact prime_208150935158385979). Qed.

(** ** The parameters *)

Lemma p_prime : prime p.
Proof.
  replace p with 115792089210356248762697446949407573530086143415290314195533631308867097853951
    by (vm_compute; reflexivity).
  prime_by [835945042244614951780389953367877943453916927241] ltac:(exact prime_160).
Qed.

Definition n : Z := val SECP256r1_n.

Lemma n_prime : prime n.
Proof.
  replace n with 115792089210356248762697446949407573529996955224135760342422259061068512044369
    by (vm_compute; reflexivity).
  prime_by [1002328039319; 2624747550333869278416773953]
    ltac:(first [exact prime_1002328039319|exact prime_92]).
Qed.

(** * Algebra modulo p *)

Ltac eqm_ring := apply eqm_of_diff with 0; ring.

(** A congruence that follows from others by linear combination. *)
Lemma eqm_lin1 m c l r a b : l ==[m] r -> a = b + c * (l - r) -> a ==[m] b.
Proof. intros H ->. rewrite H. eqm_ring. Qed.

Lemma eqm_lin2 m c l r c' l' r' a b :
  l ==[m] r -> l' ==[m] r' -> a = b + c * (l - r) + c' * (l' - r') -> a ==[m] b.
Proof. intros H H' ->. rewrite H, H'. eqm_ring. Qed.

Lemma eqm_lin3 m c l r c' l' r' c'' l'' r'' a b :
  l ==[m] r -> l' ==[m] r' -> l'' ==[m] r'' ->
  a = b + c * (l - r) + c' * (l' - r') + c'' * (l'' - r'') -> a ==[m] b.
Proof. intros H H' H'' ->. rewrite H, H', H''. eqm_ring. Qed.

Lemma p_gt_2 : 2 < p.
Proof. rewrite p_value. lia. Qed.

Lemma eqm_0_divide x : x ==[p] 0 <-> (p | x).
Proof.
  unfold eqm. rewrite Z.mod_0_l by (pose proof p_gt_2; lia). split; [apply Zmod_divide|apply Zdivide_mod].
  pose proof p_gt_2. lia.
Qed.

(** No zero divisors. *)
Lemma eqm_integral x y : x * y ==[p] 0 -> x ==[p] 0 \/ y ==[p] 0.
Proof. rewrite !eqm_0_divide. apply prime_mult, p_prime. Qed.

Lemma eqm_nonzero_mul x y : ~ x ==[p] 0 -> ~ y ==[p] 0 -> ~ x * y ==[p] 0.
Proof. intros Hx Hy H. apply eqm_integral in H. tauto. Qed.

Lemma eqm_cancel_l c x y : ~ c ==[p] 0 -> c * x ==[p] c * y -> x ==[p] y.
Proof.
  intros Hc H. destruct (eqm_integral c (x - y)) as [H0|H0]; [|contradiction|].
  - apply (eqm_lin1 p 1 (c * x) (c * y)); [exact H|ring].
  - apply (eqm_lin1 p 1 (x - y) 0); [exact H0|ring].
Qed.

(** The inverse by Fermat's theorem. *)
Definition finv (x : Z) : Z := powm p x (p - 2).

Lemma finv_pow x : finv x ==[p] x ^ (p - 2).
Proof. unfold finv. pose proof p_gt_2. rewrite powm_spec, eqm_mod by lia. reflexivity. Qed.

Lemma finv_spec x : ~ x ==[p] 0 -> x * finv x ==[p] 1.
Proof.
  intros Hx. pose proof p_gt_2 as Hp. rewrite finv_pow.
  replace (x * x ^ (p - 2)) with (x ^ (p - 1)).
  - unfold eqm in *. rewrite Z.mod_0_l in Hx by (pose proof p_gt_2; lia).
    rewrite Z.fermat_nz; [symmetry; apply Z.mod_small; pose proof p_gt_2; lia| |exact Hx].
    apply prime_alt, p_prime.
  - replace (p - 1) with (Z.succ (p - 2)) by lia. apply Z.pow_succ_r. pose proof p_gt_2. lia.
Qed.

#[export] Instance finv_proper : Proper (eqm p ==> eq) finv.
Proof.
  intros x y H. unfold finv. pose proof p_gt_2. rewrite !powm_spec by lia. rewrite <- (Z2Nat.id (p - 2)) by lia. now apply eqm_pow.
Qed.
