(* ===== verification/Curve.v ===== *)
(** The group law of P-256 in affine coordinates: the textbook specification the
    Jacobian code of src/libmincrypt/p256_ec.c is measured against.  Coordinates are
    integers taken modulo [p]; [peq] is the equality of points. *)
From Stdlib Require Import ZArith List Lia Bool Morphisms Setoid.
From S2P Require Import Prelude Bignum P256 Primes.
Import ListNotations.
#[local] Opaque p b finv.

Inductive point := Inf | Aff (x y : Z).

Definition is_zero (x : Z) : bool := x mod p =? 0.

(** The third point of a line of slope [l] through [(x1, y1)] and a point with
    first coordinate [x2], reflected. *)
Definition third (l x1 y1 x2 : Z) : point :=
  let x3 := (l * l - x1 - x2) mod p in Aff x3 ((l * (x1 - x3) - y1) mod p).

Definition padd (P Q : point) : point :=
  match P, Q with
  | Inf, _ => Q
  | _, Inf => P
  | Aff x1 y1, Aff x2 y2 =>
      if is_zero (x2 - x1) then
        if is_zero (y2 + y1) then Inf
        else third ((3 * x1 * x1 - 3) * finv (2 * y1)) x1 y1 x1
      else third ((y2 - y1) * finv (x2 - x1)) x1 y1 x2
  end.

Lemma padd_Inf_l Q : padd Inf Q = Q.
Proof. reflexivity. Qed.

Definition pneg (P : point) : point := match P with Inf => Inf | Aff x y => Aff x (- y) end.

Definition valid (P : point) : Prop := match P with Inf => True | Aff x y => on_curve x y end.

Definition peq (P Q : point) : Prop :=
  match P, Q with
  | Inf, Inf => True
  | Aff x y, Aff x' y' => x ==[p] x' /\ y ==[p] y'
  | _, _ => False
  end.

#[export] Instance peq_equiv : Equivalence peq.
Proof.
  split.
  - intros [|x y]; cbn; [exact I|split; reflexivity].
  - intros [|x y] [|x' y']; cbn; try tauto. intros [H1 H2]. split; now symmetry.
  - intros [|x y] [|x' y'] [|x'' y'']; cbn; try tauto. intros [H1 H2] [H3 H4]. split; etransitivity; eassumption.
Qed.

Lemma is_zero_spec x : reflect (x ==[p] 0) (is_zero x).
Proof.
  unfold is_zero, eqm. rewrite Z.mod_0_l by (pose proof p_gt_2; lia).
  destruct (Z.eqb_spec (x mod p) 0); constructor; assumption.
Qed.

#[export] Instance is_zero_proper : Proper (eqm p ==> eq) is_zero.
Proof. intros x y H. unfold is_zero. unfold eqm in H. now rewrite H. Qed.

Lemma eqm_mod_mod x y : x ==[p] y -> x mod p ==[p] y mod p.
Proof. unfold eqm. intros ->. reflexivity. Qed.

#[export] Instance third_proper : Proper (eqm p ==> eqm p ==> eqm p ==> eqm p ==> peq) third.
Proof.
  intros l l' Hl x1 x1' H1 y1 y1' H2 x2 x2' H3. unfold third, peq.
  assert (E : (l * l - x1 - x2) mod p = (l' * l' - x1' - x2') mod p)
    by (change (l * l - x1 - x2 ==[p] l' * l' - x1' - x2'); now rewrite Hl, H1, H3).
  rewrite E. split; [reflexivity|]. apply eqm_mod_mod. rewrite Hl, H1, H2. reflexivity.
Qed.

Lemma finv_eqm x y : x ==[p] y -> finv x ==[p] finv y.
Proof. intros H. now rewrite (finv_proper x y H). Qed.

#[export] Instance padd_proper : Proper (peq ==> peq ==> peq) padd.
Proof.
  intros [|x1 y1] [|x1' y1'] H1 [|x2 y2] [|x2' y2'] H2; cbn [peq padd] in *; try tauto.
  destruct H1 as [Ex1 Ey1], H2 as [Ex2 Ey2].
  rewrite (is_zero_proper (x2 - x1) (x2' - x1')) by (now rewrite Ex1, Ex2).
  rewrite (is_zero_proper (y2 + y1) (y2' + y1')) by (now rewrite Ey1, Ey2).
  destruct (is_zero (x2' - x1')); [destruct (is_zero (y2' + y1')); [exact I|]|];
    apply third_proper; try assumption.
  - rewrite Ex1, (finv_eqm (2 * y1) (2 * y1')) by (now rewrite Ey1). reflexivity.
  - rewrite Ey1, Ey2, (finv_eqm (x2 - x1) (x2' - x1')) by (now rewrite Ex1, Ex2). reflexivity.
Qed.

(** * Lines *)

Lemma eqm_pow_2 x y : x ==[p] y -> x ^ 2 ==[p] y ^ 2.
Proof. exact (eqm_pow p 2 x y). Qed.

Lemma eqm_pow_3 x y : x ==[p] y -> x ^ 3 ==[p] y ^ 3.
Proof. exact (eqm_pow p 3 x y). Qed.

#[export] Instance on_curve_proper : Proper (eqm p ==> eqm p ==> iff) on_curve.
Proof.
  intros x x' Hx y y' Hy. unfold on_curve.
  rewrite (eqm_pow_2 _ _ Hy), (eqm_pow_3 _ _ Hx), Hx. reflexivity.
Qed.

(** The reductions modulo [p] do not matter. *)
Lemma valid_third l x1 y1 x2 x3 :
  x3 = l * l - x1 - x2 -> on_curve x3 (l * (x1 - x3) - y1) -> valid (third l x1 y1 x2).
Proof.
  intros -> H. unfold third, valid. eapply on_curve_proper; [apply eqm_mod| |exact H].
  etransitivity; [apply eqm_mod|]. rewrite (eqm_mod p (l * l - x1 - x2)). reflexivity.
Qed.

(** A slope is one of the line through two points of the curve, or of the tangent. *)
Lemma tangent_slope x y l :
  l * (2 * y) ==[p] 3 * x * x - 3 -> on_curve x y -> valid (third l x y x).
Proof.
  intros Hl Hc. apply (valid_third _ _ _ _ _ eq_refl). unfold on_curve in *. set (x3 := l * l - x - x).
  apply (eqm_lin2 p (- (x3 - x)) (3 * x * x - 3) (l * (2 * y)) 1 (y ^ 2) (x ^ 3 - 3 * x + b));
    [now symmetry|exact Hc|]. unfold x3. ring.
Qed.

Lemma chord_slope x1 y1 x2 y2 l :
  l * (x2 - x1) ==[p] y2 - y1 -> ~ x2 - x1 ==[p] 0 -> on_curve x1 y1 -> on_curve x2 y2 ->
  valid (third l x1 y1 x2).
Proof.
  intros Hl Hne H1 H2. apply (valid_third _ _ _ _ _ eq_refl). unfold on_curve in *.
  set (x3 := l * l - x1 - x2).
  (* the quotient of the cubic by [X - x1] vanishes at [x2] *)
  assert (Hg : x2 * x2 + x1 * x2 + x1 * x1 - 3 - l * l * (x2 - x1) - 2 * l * y1 ==[p] 0).
  { apply (eqm_cancel_l (x2 - x1)); [exact Hne|].
    transitivity ((x2 ^ 3 - 3 * x2 + b) - (x1 ^ 3 - 3 * x1 + b)
                  - (l * (x2 - x1)) * (l * (x2 - x1)) - 2 * (l * (x2 - x1)) * y1); [eqm_ring|].
    rewrite Hl, <- H1, <- H2. eqm_ring. }
  apply (eqm_lin2 p (- (x3 - x1)) (x2 * x2 + x1 * x2 + x1 * x1 - 3 - l * l * (x2 - x1) - 2 * l * y1) 0
    1 (y1 ^ 2) (x1 ^ 3 - 3 * x1 + b)); [exact Hg|exact H1|]. unfold x3. ring.
Qed.

(** Points of the curve with the same first coordinate are equal or opposite. *)
Lemma same_x x1 y1 x2 y2 :
  on_curve x1 y1 -> on_curve x2 y2 -> x2 - x1 ==[p] 0 -> y2 - y1 ==[p] 0 \/ y2 + y1 ==[p] 0.
Proof.
  intros H1 H2 Hx. apply eqm_integral. unfold on_curve in *.
  assert (Ex : x2 ==[p] x1) by (apply (eqm_lin1 p 1 (x2 - x1) 0); [exact Hx|ring]).
  transitivity (y2 ^ 2 - y1 ^ 2); [eqm_ring|]. rewrite H1, H2.
  transitivity ((x2 * x2 * x2 - 3 * x2) - (x1 * x1 * x1 - 3 * x1)); [eqm_ring|]. rewrite Ex. eqm_ring.
Qed.

Lemma two_nonzero y : ~ y ==[p] 0 -> ~ 2 * y ==[p] 0.
Proof.
  apply eqm_nonzero_mul. unfold eqm. pose proof p_gt_2. rewrite !Z.mod_small by lia. discriminate.
Qed.

Lemma valid_padd P Q : valid P -> valid Q -> valid (padd P Q).
Proof.
  destruct P as [|x1 y1], Q as [|x2 y2]; cbn [padd]; try tauto. intros H1 H2. cbn [valid] in H1, H2.
  destruct (is_zero_spec (x2 - x1)) as [Hx|Hx].
  - destruct (is_zero_spec (y2 + y1)) as [Hy|Hy]; [exact I|].
    destruct (same_x x1 y1 x2 y2 H1 H2 Hx) as [Hd|Hd]; [|contradiction].
    apply tangent_slope; [|exact H1].
    assert (Hnz : ~ 2 * y1 ==[p] 0).
    { intros H0. apply Hy. apply (eqm_lin2 p 1 (y2 - y1) 0 1 (2 * y1) 0); [exact Hd|exact H0|ring]. }
    pose proof (finv_spec _ Hnz) as Hi.
    transitivity ((3 * x1 * x1 - 3) * (2 * y1 * finv (2 * y1))); [eqm_ring|]. rewrite Hi. eqm_ring.
  - apply (chord_slope x1 y1 x2 y2); try assumption. pose proof (finv_spec _ Hx) as Hi.
    transitivity ((y2 - y1) * ((x2 - x1) * finv (x2 - x1))); [eqm_ring|]. rewrite Hi. eqm_ring.
Qed.
