(* ===== verification/P256Point.v ===== *)
(** Points of P-256: src/libmincrypt/p256_ec.c, second part.

    Jacobian points are triples of field elements; the tables, the masked copies
    and selections, the scalar multiplications, the conversions between 256-bit
    integers and Montgomery limbs, and the entry points of the library. *)
From Stdlib Require Import ZArith List Lia Bool Morphisms Setoid.
From S2P Require Import Prelude Bignum P256 P256Field Primes Curve.
Import ListNotations.

Definition jacobian : Type := list Z * list Z * list Z.

(** One row per field element: the x and the y of fifteen points, twice. *)
Definition kPrecomputed : list Z := concat [
   [0x11522878; 0xe730d41; 0xdb60179; 0x4afe2ff; 0x12883add; 0xcaddd88; 0x119e7edc; 0xd4a6eab; 0x3120bee];
   [0x1d2aac15; 0xf25357c; 0x19e45cdd; 0x5c721d0; 0x1992c5a5; 0xa237487; 0x154ba21; 0x14b10bb; 0xae3fe3];
   [0xd41a576; 0x922fc51; 0x234994f; 0x60b60d3; 0x164586ae; 0xce95f18; 0x1fe49073; 0x3fa36cc; 0x5ebcd2c];
   [0xb402f2f; 0x15c70bf; 0x1561925c; 0x5a26704; 0xda91e90; 0xcdc1c7f; 0x1ea12446; 0xe1ade1e; 0xec91f22];
   [0x26f7778; 0x566847e; 0xa0bec9e; 0x234f453; 0x1a31f21a; 0xd85e75c; 0x56c7109; 0xa267a00; 0xb57c050];
   [0x98fb57; 0xaa837cc; 0x60c0792; 0xcfa5e19; 0x61bab9e; 0x589e39b; 0xa324c5; 0x7d6dee7; 0x2976e4b];
   [0x1fc4124a; 0xa8c244b; 0x1ce86762; 0xcd61c7e; 0x1831c8e0; 0x75774e1; 0x1d96a5a9; 0x843a649; 0xc3ab0fa];
   [0x6e2e7d5; 0x7673a2a; 0x178b65e8; 0x4003e9b; 0x1a1f11c2; 0x7816ea; 0xf643e11; 0x58c43df; 0xf423fc2];
   [0x19633ffa; 0x891f2b2; 0x123c231c; 0x46add8c; 0x54700dd; 0x59e2b17; 0x172db40f; 0x83e277d; 0xb0dd609];
   [0xfd1da12; 0x35c6e52; 0x19ede20c; 0xd19e0c0; 0x97d0f40; 0xb015b19; 0x449e3f5; 0xe10c9e; 0x33ab581];
   [0x56a67ab; 0x577734d; 0x1dddc062; 0xc57b10d; 0x149b39d; 0x26a9e7b; 0xc35df9f; 0x48764cd; 0x76dbcca];
   [0xca4b366; 0xe9303ab; 0x1a7480e7; 0x57e9e81; 0x1e13eb50; 0xf466cf3; 0x6f16b20; 0x4ba3173; 0xc168c33];
   [0x15cb5439; 0x6a38e11; 0x73658bd; 0xb29564f; 0x3f6dc5b; 0x53b97e; 0x1322c4c0; 0x65dd7ff; 0x3a1e4f6];
   [0x14e614aa; 0x9246317; 0x1bc83aca; 0xad97eed; 0xd38ce4a; 0xf82b006; 0x341f077; 0xa6add89; 0x4894acd];
   [0x9f162d5; 0xf8410ef; 0x1b266a56; 0xd7f223; 0x3e0cb92; 0xe39b672; 0x6a2901a; 0x69a8556; 0x7e7c0];
   [0x9b7d8d3; 0x309a80; 0x1ad05f7f; 0xc2fb5dd; 0xcbfd41d; 0x9ceb638; 0x1051825c; 0xda0cf5b; 0x812e881];
   [0x6f35669; 0x6a56f2c; 0x1df8d184; 0x345820; 0x1477d477; 0x1645db1; 0xbe80c51; 0xc22be3e; 0xe35e65a];
   [0x1aeb7aa0; 0xc375315; 0xf67bc99; 0x7fdd7b9; 0x191fc1be; 0x61235d; 0x2c184e9; 0x1c5a839; 0x47a1e26];
   [0xb7cb456; 0x93e225d; 0x14f3c6ed; 0xccc1ac9; 0x17fe37f3; 0x4988989; 0x1a90c502; 0x2f32042; 0xa17769b];
   [0xafd8c7c; 0x8191c6e; 0x1dcdb237; 0x16200c0; 0x107b32a1; 0x66c08db; 0x10d06a02; 0x3fc93; 0x5620023];
   [0x16722b27; 0x68b5c59; 0x270fcfc; 0xfad0ecc; 0xe5de1c2; 0xeab466b; 0x2fc513c; 0x407f75c; 0xbaab133];
   [0x9705fe9; 0xb88b8e7; 0x734c993; 0x1e1ff8f; 0x19156970; 0xabd0f00; 0x10469ea7; 0x3293ac0; 0xcdc98aa];
   [0x1d843fd; 0xe14bfe8; 0x15be825f; 0x8b5212; 0xeb3fb67; 0x81cbd29; 0xbc62f16; 0x2b6fcc7; 0xf5a4e29];
   [0x13560b66; 0xc0b6ac2; 0x51ae690; 0xd41e271; 0xf3e9bd4; 0x1d70aab; 0x1029f72; 0x73e1c35; 0xee70fbc];
   [0xad81baf; 0x9ecc49a; 0x86c741e; 0xfe6be30; 0x176752e7; 0x23d416; 0x1f83de85; 0x27de188; 0x66f70b8];
   [0x181cd51f; 0x96b6e4c; 0x188f2335; 0xa5df759; 0x17a77eb6; 0xfeb0e73; 0x154ae914; 0x2f3ec51; 0x3826b59];
   [0xb91f17d; 0x1c72949; 0x1362bf0a; 0xe23fddf; 0xa5614b0; 0xf7d8f; 0x79061; 0x823d9d2; 0x8213f39];
   [0x1128ae0b; 0xd095d05; 0xb85c0c2; 0x1ecb2ef; 0x24ddc84; 0xe35e901; 0x18411a4a; 0xf5ddc3d; 0x3786689];
   [0x52260e8; 0x5ae3564; 0x542b10d; 0x8d93a45; 0x19952aa4; 0x996cc41; 0x1051a729; 0x4be3499; 0x52b23aa];
   [0x109f307e; 0x6f5b6bb; 0x1f84e1e7; 0x77a0cfa; 0x10c4df3f; 0x25a02ea; 0xb048035; 0xe31de66; 0xc6ecaa3];
   [0x28ea335; 0x2886024; 0x1372f020; 0xf55d35; 0x15e4684c; 0xf2a9e17; 0x1a4a7529; 0xcb7beb1; 0xb2a78a1];
   [0x1ab21f1f; 0x6361ccf; 0x6c9179d; 0xb135627; 0x1267b974; 0x4408bad; 0x1cbff658; 0xe3d6511; 0xc7d76f];
   [0x1cc7a69; 0xe7ee31b; 0x54fab4f; 0x2b914f; 0x1ad27a30; 0xcd3579e; 0xc50124c; 0x50daa90; 0xb13f72];
   [0xb06aa75; 0x70f5cc6; 0x1649e5aa; 0x84a5312; 0x329043c; 0x41c4011; 0x13d32411; 0xb04a838; 0xd760d2d];
   [0x1713b532; 0xbaa0c03; 0x84022ab; 0x6bcf5c1; 0x2f45379; 0x18ae070; 0x18c9e11e; 0x20bca9a; 0x66f496b];
   [0x3eef294; 0x67500d2; 0xd7f613c; 0x2dbbeb; 0xb741038; 0xe04133f; 0x1582968d; 0xbe985f7; 0x1acbc1a];
   [0x1a6a939f; 0x33e50f6; 0xd665ed4; 0xb4b7bd6; 0x1e5a3799; 0x6b33847; 0x17fa56ff; 0x65ef930; 0x21dc4a];
   [0x2b37659; 0x450fe17; 0xb357b65; 0xdf5efac; 0x15397bef; 0x9d35a7f; 0x112ac15f; 0x624e62e; 0xa90ae2f];
   [0x107eecd2; 0x1f69bbe; 0x77d6bce; 0x5741394; 0x13c684fc; 0x950c910; 0x725522b; 0xdc78583; 0x40eeabb];
   [0x1fde328a; 0xbd61d96; 0xd28c387; 0x9e77d89; 0x12550c40; 0x759cb7d; 0x367ef34; 0xae2a960; 0x91b8bdc];
   [0x93462a9; 0xf469ef; 0xb2e9aef; 0xd2ca771; 0x54e1f42; 0x7aaa49; 0x6316abb; 0x2413c8e; 0x5425bf9];
   [0x1bed3e3a; 0xf272274; 0x1f5e7326; 0x6416517; 0xea27072; 0x9cedea7; 0x6e7633; 0x7c91952; 0xd806dce];
   [0x8e2a7e1; 0xe421e1a; 0x418c9e1; 0x1dbc890; 0x1b395c36; 0xa1dc175; 0x1dc4ef73; 0x8956f34; 0xe4b5cf2];
   [0x1b0d3a18; 0x3194a36; 0x6c2641f; 0xe44124c; 0xa2f4eaa; 0xa8c25ba; 0xf927ed7; 0x627b614; 0x7371cca];
   [0xba16694; 0x417bc03; 0x7c0a7e3; 0x9c35c19; 0x1168a205; 0x8b6b00d; 0x10e3edc9; 0x9c19bf2; 0x5882229];
   [0x1b2b4162; 0xa5cef1a; 0x1543622b; 0x9bd433e; 0x364e04d; 0x7480792; 0x5c9b5b3; 0xe85ff25; 0x408ef57];
   [0x1814cfa4; 0x121b41b; 0xd248a0f; 0x3b05222; 0x39bb16a; 0xc75966d; 0xa038113; 0xa4a1769; 0x11fbc6c];
   [0x917e50e; 0xeec3da8; 0x169d6eac; 0x10c1699; 0xa416153; 0xf724912; 0x15cd60b7; 0x4acbad9; 0x5efc5fa];
   [0xf150ed7; 0x122b51; 0x1104b40a; 0xcb7f442; 0xfbb28ff; 0x6ac53ca; 0x196142cc; 0x7bf0fa9; 0x957651];
   [0x4e0f215; 0xed439f8; 0x3f46bd5; 0x5ace82f; 0x110916b6; 0x6db078; 0xffd7d57; 0xf2ecaac; 0xca86dec];
   [0x15d6b2da; 0x965ecc9; 0x1c92b4c2; 0x1f3811; 0x1cb080f5; 0x2d8b804; 0x19d1c12d; 0xf20bd46; 0x1951fa7];
   [0xa3656c3; 0x523a425; 0xfcd0692; 0xd44ddc8; 0x131f0f5b; 0xaf80e4a; 0xcd9fc74; 0x99bb618; 0x2db944c];
   [0xa673090; 0x1c210e1; 0x178c8d23; 0x1474383; 0x10b8743d; 0x985a55b; 0x2e74779; 0x576138; 0x9587927];
   [0x133130fa; 0xbe05516; 0x9f4d619; 0xbb62570; 0x99ec591; 0xd9468fe; 0x1d07782d; 0xfc72e0b; 0x701b298];
   [0x1863863b; 0x85954b8; 0x121a0c36; 0x9e7fedf; 0xf64b429; 0x9b9d71e; 0x14e2f5d8; 0xf858d3a; 0x942eea8];
   [0xda5b765; 0x6edafff; 0xa9d18cc; 0xc65e4ba; 0x1c747e86; 0xe4ea915; 0x1981d7a1; 0x8395659; 0x52ed4e2];
   [0x87d43b7; 0x37ab11b; 0x19d292ce; 0xf8d4692; 0x18c3053f; 0x8863e13; 0x4c146c0; 0x6bdf55a; 0x4e4457d];
   [0x16152289; 0xac78ec2; 0x1a59c5a2; 0x2028b97; 0x71c2d01; 0x295851f; 0x404747b; 0x878558d; 0x7d29aa4];
   [0x13d8341f; 0x8daefd7; 0x139c972d; 0x6b7ea75; 0xd4a9dde; 0xff163d8; 0x81d55d7; 0xa5bef68; 0xb7b30d8];
   [0xbe73d6f; 0xaa88141; 0xd976c81; 0x7e7a9cc; 0x18beb771; 0xd773cbd; 0x13f51951; 0x9d0c177; 0x1c49a78]].

Definition point_double (P : jacobian) : jacobian :=
  let '(x, y, z) := P in
  let delta := felem_square z in
  let gamma := felem_square y in
  let beta := felem_mul x gamma in
  let tmp := felem_sum x delta in
  let tmp2 := felem_diff x delta in
  let alpha := felem_mul tmp tmp2 in
  let alpha := felem_scalar_3 alpha in
  let tmp := felem_sum y z in
  let tmp := felem_square tmp in
  let tmp := felem_diff tmp gamma in
  let z_out := felem_diff tmp delta in
  let beta := felem_scalar_4 beta in
  let x_out := felem_square alpha in
  let x_out := felem_diff x_out beta in
  let x_out := felem_diff x_out beta in
  let tmp := felem_diff beta x_out in
  let tmp := felem_mul alpha tmp in
  let tmp2 := felem_square gamma in
  let tmp2 := felem_scalar_8 tmp2 in
  let y_out := felem_diff tmp tmp2 in
  (x_out, y_out, z_out).

Definition point_add_mixed (P : jacobian) (x2 y2 : list Z) : jacobian :=
  let '(x1, y1, z1) := P in
  let z1z1 := felem_square z1 in
  let tmp := felem_sum z1 z1 in
  let u2 := felem_mul x2 z1z1 in
  let z1z1z1 := felem_mul z1 z1z1 in
  let s2 := felem_mul y2 z1z1z1 in
  let h := felem_diff u2 x1 in
  let i := felem_sum h h in
  let i := felem_square i in
  let j := felem_mul h i in
  let r := felem_diff s2 y1 in
  let r := felem_sum r r in
  let v := felem_mul x1 i in
  let z_out := felem_mul tmp h in
  let rr := felem_square r in
  let x_out := felem_diff rr j in
  let x_out := felem_diff x_out v in
  let x_out := felem_diff x_out v in
  let tmp := felem_diff v x_out in
  let y_out := felem_mul tmp r in
  let tmp := felem_mul y1 j in
  let y_out := felem_diff y_out tmp in
  let y_out := felem_diff y_out tmp in
  (x_out, y_out, z_out).

Definition point_add (P Q : jacobian) : jacobian :=
  let '(x1, y1, z1) := P in
  let '(x2, y2, z2) := Q in
  let z1z1 := felem_square z1 in
  let z2z2 := felem_square z2 in
  let u1 := felem_mul x1 z2z2 in
  let tmp := felem_sum z1 z2 in
  let tmp := felem_square tmp in
  let tmp := felem_diff tmp z1z1 in
  let tmp := felem_diff tmp z2z2 in
  let z2z2z2 := felem_mul z2 z2z2 in
  let s1 := felem_mul y1 z2z2z2 in
  let u2 := felem_mul x2 z1z1 in
  let z1z1z1 := felem_mul z1 z1z1 in
  let s2 := felem_mul y2 z1z1z1 in
  let h := felem_diff u2 u1 in
  let i := felem_sum h h in
  let i := felem_square i in
  let j := felem_mul h i in
  let r := felem_diff s2 s1 in
  let r := felem_sum r r in
  let v := felem_mul u1 i in
  let z_out := felem_mul tmp h in
  let rr := felem_square r in
  let x_out := felem_diff rr j in
  let x_out := felem_diff x_out v in
  let x_out := felem_diff x_out v in
  let tmp := felem_diff v x_out in
  let y_out := felem_mul tmp r in
  let tmp := felem_mul s1 j in
  let y_out := felem_diff y_out tmp in
  let y_out := felem_diff y_out tmp in
  (x_out, y_out, z_out).

(** [fuel] bounds the passes of [felem_is_zero_vartime]. *)
Definition point_add_or_double_vartime (fuel : nat) (P Q : jacobian) : option jacobian :=
  let '(x1, y1, z1) := P in
  let '(x2, y2, z2) := Q in
  let z1z1 := felem_square z1 in
  let z2z2 := felem_square z2 in
  let u1 := felem_mul x1 z2z2 in
  let tmp := felem_sum z1 z2 in
  let tmp := felem_square tmp in
  let tmp := felem_diff tmp z1z1 in
  let tmp := felem_diff tmp z2z2 in
  let z2z2z2 := felem_mul z2 z2z2 in
  let s1 := felem_mul y1 z2z2z2 in
  let u2 := felem_mul x2 z1z1 in
  let z1z1z1 := felem_mul z1 z1z1 in
  let s2 := felem_mul y2 z1z1z1 in
  let h := felem_diff u2 u1 in
  match felem_is_zero_vartime fuel h with
  | None => None
  | Some x_equal =>
      let i := felem_sum h h in
      let i := felem_square i in
      let j := felem_mul h i in
      let r := felem_diff s2 s1 in
      match felem_is_zero_vartime fuel r with
      | None => None
      | Some y_equal =>
          if x_equal && y_equal then Some (point_double (x1, y1, z1))
          else
            let r := felem_sum r r in
            let v := felem_mul u1 i in
            let z_out := felem_mul tmp h in
            let rr := felem_square r in
            let x_out := felem_diff rr j in
            let x_out := felem_diff x_out v in
            let x_out := felem_diff x_out v in
            let tmp := felem_diff v x_out in
            let y_out := felem_mul tmp r in
            let tmp := felem_mul s1 j in
            let y_out := felem_diff y_out tmp in
            let y_out := felem_diff y_out tmp in
            Some (x_out, y_out, z_out)
      end
  end.

(** * Masks and tables *)

Definition ALL_ONES : Z := 0xffffffff.
(** [~m] on 32 bits *)
Definition not32 (m : Z) : Z := ALL_ONES .^ m.

Definition copy_conditional (out inp : list Z) (mask : Z) : list Z :=
  map (fun oi => let tmp := mask .& (snd oi .^ fst oi) in fst oi .^ tmp) (combine out inp).

(** All ones when [i] is the index, else zero. *)
Definition index_mask (i index : Z) : Z :=
  let mask := i .^ index in
  let mask := mask .| (mask >> 2) in
  let mask := mask .| (mask >> 1) in
  let mask := mask .& 1 in
  mask [-] 1.

(** [out[j] |= *table & mask], for the limbs of one element *)
Definition or_masked (out table : list Z) (mask : Z) : list Z :=
  map (fun ot => fst ot .| (snd ot .& mask)) (combine out (firstn NLIMBS table)).

Definition select_affine_point (table : list Z) (index : Z) : list Z * list Z :=
  let '(out_x, out_y, _) :=
    fold_left (fun st i =>
      let '(out_x, out_y, table) := st in
      let mask := index_mask (Z.of_nat i) index in
      let out_x := or_masked out_x table mask in
      let table := skipn NLIMBS table in
      let out_y := or_masked out_y table mask in
      let table := skipn NLIMBS table in
      (out_x, out_y, table)) (seq 1 15) (kZero, kZero, table) in
  (out_x, out_y).

Definition select_jacobian_point (table : list Z) (index : Z) : jacobian :=
  let table := skipn (3 * NLIMBS) table in
  let '(out_x, out_y, out_z, _) :=
    fold_left (fun st i =>
      let '(out_x, out_y, out_z, table) := st in
      let mask := index_mask (Z.of_nat i) index in
      let out_x := or_masked out_x table mask in
      let table := skipn NLIMBS table in
      let out_y := or_masked out_y table mask in
      let table := skipn NLIMBS table in
      let out_z := or_masked out_z table mask in
      let table := skipn NLIMBS table in
      (out_x, out_y, out_z, table)) (seq 1 15) (kZero, kZero, kZero, table) in
  (out_x, out_y, out_z).

(** * Scalar multiplication *)

(** The point [n] of the loops and [n_is_infinity_mask]. *)
Record accumulator := { acc_n : jacobian; n_is_infinity_mask : Z }.

Definition copy_point (P Q : jacobian) (mask : Z) : jacobian :=
  let '(nx, ny, nz) := P in
  let '(px, py, pz) := Q in
  (copy_conditional nx px mask, copy_conditional ny py mask, copy_conditional nz pz mask).

(** The masked addition at the end of an iteration: [n] becomes [P] while it is
    infinite, and the sum [T] when neither is. *)
Definition accumulate (a : accumulator) (P T : jacobian) (index : Z) : accumulator :=
  let n := copy_point (acc_n a) P (n_is_infinity_mask a) in
  let p_is_noninfinite_mask := NON_ZERO_TO_ALL_ONES index in
  let mask := p_is_noninfinite_mask .& not32 (n_is_infinity_mask a) in
  {| acc_n := copy_point n T mask;
     n_is_infinity_mask := n_is_infinity_mask a .& not32 p_is_noninfinite_mask |}.

Definition infinity : jacobian := (kZero, kZero, kZero).

(** The index of iteration [i], for the first ([j = 0]) or second ([j = 32]) table. *)
Definition base_index (scalar : list Z) (i j : nat) : Z :=
  let bit0 := p256_get_bit scalar (31 - i + j) in
  let bit1 := p256_get_bit scalar (95 - i + j) in
  let bit2 := p256_get_bit scalar (159 - i + j) in
  let bit3 := p256_get_bit scalar (223 - i + j) in
  bit0 .| (bit1 << 1) .| (bit2 << 2) .| (bit3 << 3).

Definition base_step (scalar : list Z) (i : nat) (a : accumulator) (j table_offset : nat) : accumulator :=
  let index := base_index scalar i j in
  let '(px, py) := select_affine_point (skipn table_offset kPrecomputed) index in
  let T := point_add_mixed (acc_n a) px py in
  accumulate a (px, py, kOne) T index.

Definition scalar_base_mult (scalar : list Z) : jacobian :=
  acc_n (fold_left (fun a i =>
    let a := if (i =? 0)%nat then a
             else {| acc_n := point_double (acc_n a); n_is_infinity_mask := n_is_infinity_mask a |} in
    let a := base_step scalar i a 0 0 in
    base_step scalar i a 32 (30 * NLIMBS)) (seq 0 32)
    {| acc_n := infinity; n_is_infinity_mask := ALL_ONES |}).

Definition point_to_affine (P : jacobian) : list Z * list Z :=
  let '(nx, ny, nz) := P in
  let z_inv := felem_inv nz in
  let z_inv_sq := felem_square z_inv in
  let x_out := felem_mul nx z_inv_sq in
  let z_inv := felem_mul z_inv z_inv_sq in
  let y_out := felem_mul ny z_inv in
  (x_out, y_out).

(** [precomp], sixteen points in a row *)
Definition entry (precomp : list jacobian) (i : nat) : jacobian := nth i precomp infinity.

(** [for (i = 2; i < 16; i += 2)], appending the points [i] and [i + 1] *)
Definition precompute (x y : list Z) : list jacobian :=
  fold_left (fun precomp i =>
    let D := point_double (entry precomp (i / 2)) in
    precomp ++ [D; point_add_mixed D x y]) [2; 4; 6; 8; 10; 12; 14]%nat
    [infinity; (x, y, kOne)].

Definition flat_point (P : jacobian) : list Z := let '(x, y, z) := P in x ++ y ++ z.

Definition mult_index (scalar : list Z) (i : nat) : Z :=
  (p256_get_bit scalar (255 - i - 0) << 3) .| (p256_get_bit scalar (255 - i - 1) << 2)
  .| (p256_get_bit scalar (255 - i - 2) << 1) .| p256_get_bit scalar (255 - i - 3).

Definition mult_step (table : list Z) (scalar : list Z) (a : accumulator) (i : nat) : accumulator :=
  let n := if (i =? 0)%nat then acc_n a
           else point_double (point_double (point_double (point_double (acc_n a)))) in
  let index := mult_index scalar i in
  let P := select_jacobian_point table index in
  let T := point_add n P in
  accumulate {| acc_n := n; n_is_infinity_mask := n_is_infinity_mask a |} P T index.

Definition scalar_mult (x y scalar : list Z) : jacobian :=
  let table := flat_map flat_point (precompute x y) in
  acc_n (fold_left (mult_step table scalar) (map (fun k => 4 * k)%nat (seq 0 64))
    {| acc_n := infinity; n_is_infinity_mask := ALL_ONES |}).

(** * Conversions *)

Definition kR : list Z := [2; 0; 0; 0xfffffffe; 0xffffffff; 0xffffffff; 0xfffffffd; 1].
Definition kRInv : list Z := [0x80000000; 1; 0xffffffff; 0; 0x80000001; 0xfffffffe; 1; 0x7fffffff].

(** The [for] loop: [n] limbs are cut off, the first one [even]. *)
Fixpoint cut_limbs (n : nat) (even : bool) (in_shifted : list Z) : list Z :=
  match n with
  | O => []
  | S k => (get in_shifted 0 .& limb_mask even)
           :: cut_limbs k (negb even) (p256_shr in_shifted (limb_width even))
  end.

Definition to_montgomery (inp : list Z) : option (list Z) :=
  match p256_modmul SECP256r1_p inp 0 kR with
  | None => None
  | Some in_shifted => Some (cut_limbs NLIMBS true in_shifted)
  end.

(** The loop from limb 7 down to limb 0: [result] and [top]. *)
Definition join_limbs (inp : list Z) : list Z * Z :=
  let tmp := p256_init in
  let '(result, _) := p256_add_d tmp (get inp (NLIMBS - 1)) in
  fold_left (fun st i =>
    let '(result, _) := st in
    let '(tmp, top) := p256_shl result (limb_width (Nat.even i)) in
    let '(result, c) := p256_add_d tmp (get inp i) in
    (result, top .| c)) [7; 6; 5; 4; 3; 2; 1; 0]%nat (result, 0).

Definition from_montgomery (inp : list Z) : option (list Z) :=
  let '(result, top) := join_limbs inp in
  p256_modmul SECP256r1_p kRInv top result.

(** * Entry points *)

Definition affine_out (P : jacobian) : option (list Z * list Z) :=
  let '(x, y) := point_to_affine P in
  match from_montgomery x, from_montgomery y with
  | Some out_x, Some out_y => Some (out_x, out_y)
  | _, _ => None
  end.

Definition p256_base_point_mul (n : list Z) : option (list Z * list Z) :=
  affine_out (scalar_base_mult n).

Definition p256_points_mul_vartime (fuel : nat) (n1 n2 in_x in_y : list Z) : option (list Z * list Z) :=
  if p256_is_zero n1 && p256_is_zero n2 then Some (p256_clear, p256_clear) else
  match to_montgomery in_x, to_montgomery in_y with
  | Some px, Some py =>
      let P1 := scalar_base_mult n1 in
      let P2 := scalar_mult px py n2 in
      let P :=
        if p256_is_zero n2 then Some P1
        else if p256_is_zero n1 then Some P2
        else point_add_or_double_vartime fuel P1 P2 in
      match P with None => None | Some P => affine_out P end
  | _, _ => None
  end.

Lemma p_def : val SECP256r1_p = p.
Proof. reflexivity. Qed.

#[local] Opaque p b finv felem_mul felem_square felem_sum felem_diff felem_scalar_3 felem_scalar_4
  felem_scalar_8 felem_inv.

(** * The point operations on values *)

Definition triple (J : jacobian) (X Y Z : Z) : Prop :=
  let '(x, y, z) := J in frep x X /\ frep y Y /\ frep z Z.

(** Runs the assignments of a formula one by one, keeping the value of each. *)
Ltac frep_assign t :=
  lazymatch t with
  | felem_mul _ _ => eapply frep_mul
  | felem_square _ => eapply frep_square
  | felem_sum _ _ => eapply frep_sum
  | felem_diff _ _ => eapply frep_diff
  | felem_scalar_3 _ => eapply frep_scalar_3
  | felem_scalar_4 _ => eapply frep_scalar_4
  | felem_scalar_8 _ => eapply frep_scalar_8
  end; eassumption.

Ltac frep_assignments :=
  repeat lazymatch goal with
  | |- triple (let f := ?t in @?body f) ?A ?B ?C =>
      let H := fresh "H" in let f := fresh "f" in
      eassert (H : frep t _) by frep_assign t;
      change (triple (body t) A B C); revert H; generalize t; intros f H; cbv beta
  end.

(** Concludes with the values the textbook gives. *)
Ltac frep_values :=
  lazymatch goal with
  | |- triple (_, _, _) _ _ _ => split; [|split]
  end;
  lazymatch goal with
  | H : frep ?l ?v |- frep ?l ?w => replace w with v by ring; exact H
  end.

Lemma point_double_triple x y z X Y Z :
  frep x X -> frep y Y -> frep z Z ->
  triple (point_double (x, y, z))
    ((3 * (X - Z * Z) * (X + Z * Z)) ^ 2 - 8 * X * Y ^ 2)
    (3 * (X - Z * Z) * (X + Z * Z) * (4 * X * Y ^ 2 - ((3 * (X - Z * Z) * (X + Z * Z)) ^ 2 - 8 * X * Y ^ 2))
     - 8 * Y ^ 4)
    (2 * Y * Z).
Proof. intros Hx Hy Hz. cbv beta iota delta [point_double]. frep_assignments. frep_values. Qed.

(** The addition formula, for the values [U1], [S1], [H], [R] and the factor [W]. *)
Definition add_x (U1 H R : Z) : Z := (2 * R) ^ 2 - 4 * H ^ 3 - 8 * U1 * H ^ 2.
Definition add_y (U1 S1 H R : Z) : Z := 2 * R * (4 * U1 * H ^ 2 - add_x U1 H R) - 8 * S1 * H ^ 3.

Lemma point_add_triple x1 y1 z1 x2 y2 z2 X1 Y1 Z1 X2 Y2 Z2 :
  frep x1 X1 -> frep y1 Y1 -> frep z1 Z1 -> frep x2 X2 -> frep y2 Y2 -> frep z2 Z2 ->
  let U1 := X1 * Z2 ^ 2 in let S1 := Y1 * Z2 ^ 3 in
  let H := X2 * Z1 ^ 2 - U1 in let R := Y2 * Z1 ^ 3 - S1 in
  triple (point_add (x1, y1, z1) (x2, y2, z2)) (add_x U1 H R) (add_y U1 S1 H R) (2 * Z1 * Z2 * H).
Proof.
  intros H1 H2 H3 H4 H5 H6. cbv zeta. unfold add_y, add_x. cbv beta iota delta [point_add].
  frep_assignments. frep_values.
Qed.

Lemma point_add_mixed_triple x1 y1 z1 x2 y2 X1 Y1 Z1 X2 Y2 :
  frep x1 X1 -> frep y1 Y1 -> frep z1 Z1 -> frep x2 X2 -> frep y2 Y2 ->
  let H := X2 * Z1 ^ 2 - X1 in let R := Y2 * Z1 ^ 3 - Y1 in
  triple (point_add_mixed (x1, y1, z1) x2 y2) (add_x X1 H R) (add_y X1 Y1 H R) (2 * Z1 * H).
Proof.
  intros H1 H2 H3 H4 H5. cbv zeta. unfold add_y, add_x. cbv beta iota delta [point_add_mixed].
  frep_assignments. frep_values.
Qed.

(** * Jacobian points and the group law *)

(** The triple represents the affine point [(X / Z^2, Y / Z^3)], or infinity. *)
Definition zrep (P : point) (X Y Z : Z) : Prop :=
  match P with
  | Inf => Z ==[p] 0
  | Aff x y => ~ Z ==[p] 0 /\ X ==[p] x * Z ^ 2 /\ Y ==[p] y * Z ^ 3
  end.

Definition jrep (J : jacobian) (P : point) : Prop := exists X Y Z, triple J X Y Z /\ zrep P X Y Z.

#[export] Instance jrep_proper J : Proper (peq ==> iff) (jrep J).
Proof.
  enough (H : forall P Q, peq P Q -> jrep J P -> jrep J Q).
  { intros P Q HPQ. split; apply H; [exact HPQ|now symmetry]. }
  intros [|x y] [|x' y'] HPQ; cbn [peq] in HPQ; try tauto. destruct HPQ as [Ex Ey].
  intros (X & Y & Z & HT & Hz & HX & HY). exists X, Y, Z. cbn [zrep]. rewrite <- Ex, <- Ey. auto.
Qed.

Lemma zrep_third X Y Z l x1 y1 x2 :
  ~ Z ==[p] 0 ->
  X ==[p] (l * l - x1 - x2) * Z ^ 2 ->
  Y ==[p] (l * (x1 - (l * l - x1 - x2)) - y1) * Z ^ 3 -> zrep (third l x1 y1 x2) X Y Z.
Proof.
  intros Hz HX HY. unfold third. split; [exact Hz|].
  rewrite (eqm_mod p (l * (x1 - _) - y1)), (eqm_mod p (l * l - x1 - x2)). auto.
Qed.

Lemma nonzero_eqm a c : ~ c ==[p] 0 -> a ==[p] c -> ~ a ==[p] 0.
Proof. intros Hc H. now rewrite H. Qed.

Lemma pow_nonzero z k : 0 <= k -> ~ z ==[p] 0 -> ~ z ^ k ==[p] 0.
Proof.
  intros Hk Hz. revert k Hk. apply natlike_ind.
  - unfold eqm. pose proof p_gt_2. rewrite Z.pow_0_r, !Z.mod_small by lia. discriminate.
  - intros k Hk IH. rewrite Z.pow_succ_r by exact Hk. now apply eqm_nonzero_mul.
Qed.

Lemma double_values X Y Z x y l :
  X ==[p] x * Z ^ 2 -> Y ==[p] y * Z ^ 3 -> l * (2 * y) ==[p] 3 * x * x - 3 ->
  let A := 3 * (X - Z * Z) * (X + Z * Z) in
  let X3 := A ^ 2 - 8 * X * Y ^ 2 in let Z3 := 2 * Y * Z in
  X3 ==[p] (l * l - x - x) * Z3 ^ 2 /\
  A * (4 * X * Y ^ 2 - X3) - 8 * Y ^ 4 ==[p] (l * (x - (l * l - x - x)) - y) * Z3 ^ 3.
Proof.
  intros HX HY Hl A X3 Z3.
  assert (HZ3 : Z3 ==[p] 2 * y * Z ^ 4) by (unfold Z3; rewrite HY; eqm_ring).
  assert (HA : A ==[p] l * Z3).
  { rewrite HZ3. unfold A. rewrite HX.
    apply (eqm_lin1 p (- Z ^ 4) (l * (2 * y)) (3 * x * x - 3)); [exact Hl|ring]. }
  assert (HX3 : X3 ==[p] (l * l - x - x) * Z3 ^ 2).
  { unfold X3. rewrite HA, HX, HY, HZ3. eqm_ring. }
  split; [exact HX3|]. clearbody X3. rewrite HX3, HA, HX, HY, HZ3. eqm_ring.
Qed.

(** The doubling formula on values. *)
Definition double_x (X Y Z : Z) := (3 * (X - Z * Z) * (X + Z * Z)) ^ 2 - 8 * X * Y ^ 2.
Definition double_y (X Y Z : Z) :=
  3 * (X - Z * Z) * (X + Z * Z) * (4 * X * Y ^ 2 - double_x X Y Z) - 8 * Y ^ 4.

Lemma zrep_double P X Y Z :
  zrep P X Y Z -> valid P -> zrep (padd P P) (double_x X Y Z) (double_y X Y Z) (2 * Y * Z).
Proof.
  intros HP HV. destruct P as [|x y]; [cbn [padd zrep] in *; rewrite HP; eqm_ring|].
  destruct HP as (Hz & HX & HY). cbn [padd].
  destruct (is_zero_spec (x - x)) as [_|Hn]; [|exfalso; apply Hn; eqm_ring].
  assert (HZ3 : 2 * Y * Z ==[p] (y + y) * Z ^ 4) by (rewrite HY; eqm_ring).
  destruct (is_zero_spec (y + y)) as [Hy|Hy].
  - cbn [zrep]. rewrite HZ3, Hy. eqm_ring.
  - assert (Hy2 : ~ 2 * y ==[p] 0) by (intros H0; apply Hy; rewrite <- H0; eqm_ring).
    pose proof (finv_spec _ Hy2) as Hi. set (l := (3 * x * x - 3) * finv (2 * y)).
    destruct (double_values X Y Z x y l HX HY) as [E1 E2].
    { unfold l. transitivity ((3 * x * x - 3) * (2 * y * finv (2 * y))); [eqm_ring|]. rewrite Hi. eqm_ring. }
    eapply zrep_third; [|exact E1|exact E2].
    apply (nonzero_eqm _ _ (eqm_nonzero_mul _ _ Hy (pow_nonzero Z 4 ltac:(lia) Hz)) HZ3).
Qed.

Lemma jrep_double J P : jrep J P -> valid P -> jrep (point_double J) (padd P P).
Proof.
  intros (X & Y & Z & HT & HP) HV. destruct J as [[x3 y3] z3]. destruct HT as (H1 & H2 & H3).
  do 3 eexists. split; [exact (point_double_triple _ _ _ _ _ _ H1 H2 H3)|exact (zrep_double _ _ _ _ HP HV)].
Qed.

Section Addition.
(** The values of the addition formula, over a common denominator [W]. *)
Variables (U1 S1 H R W Z3 x1 y1 x2 y2 : Z).
Hypothesis HU1 : U1 ==[p] x1 * W ^ 2.
Hypothesis HS1 : S1 ==[p] y1 * W ^ 3.
Hypothesis HH : H ==[p] (x2 - x1) * W ^ 2.
Hypothesis HR : R ==[p] (y2 - y1) * W ^ 3.
Hypothesis HZ3 : Z3 ==[p] 2 * W * H.
Hypothesis HW : ~ W ==[p] 0.

Lemma add_values l :
  l * (x2 - x1) ==[p] y2 - y1 ->
  add_x U1 H R ==[p] (l * l - x1 - x2) * Z3 ^ 2 /\
  add_y U1 S1 H R ==[p] (l * (x1 - (l * l - x1 - x2)) - y1) * Z3 ^ 3.
Proof.
  intros Hl. assert (HR2 : 2 * R ==[p] l * Z3).
  { rewrite HR, HZ3, HH. apply (eqm_lin1 p (- 2 * W ^ 3) (l * (x2 - x1)) (y2 - y1)); [exact Hl|ring]. }
  assert (HX3 : add_x U1 H R ==[p] (l * l - x1 - x2) * Z3 ^ 2).
  { unfold add_x. rewrite HR2, HU1, HZ3, HH. eqm_ring. }
  split; [exact HX3|]. unfold add_y. rewrite HX3, HR2, HU1, HS1, HZ3, HH. eqm_ring.
Qed.

Lemma jrep_add J :
  triple J (add_x U1 H R) (add_y U1 S1 H R) Z3 -> on_curve x1 y1 -> on_curve x2 y2 ->
  ~ peq (Aff x1 y1) (Aff x2 y2) -> jrep J (padd (Aff x1 y1) (Aff x2 y2)).
Proof.
  intros HT H1 H2 Hne. cbn [padd peq] in *.
  destruct (is_zero_spec (x2 - x1)) as [Hx|Hx].
  - assert (Hy : y2 + y1 ==[p] 0).
    { destruct (same_x _ _ _ _ H1 H2 Hx) as [Hd|Hd]; [exfalso|exact Hd]. apply Hne. split.
      - symmetry. apply (eqm_lin1 p 1 (x2 - x1) 0); [exact Hx|ring].
      - symmetry. apply (eqm_lin1 p 1 (y2 - y1) 0); [exact Hd|ring]. }
    destruct (is_zero_spec (y2 + y1)); [|contradiction].
    do 3 eexists. split; [exact HT|]. cbn [zrep]. rewrite HZ3, HH, Hx. eqm_ring.
  - pose proof (finv_spec _ Hx) as Hi.
    destruct (add_values ((y2 - y1) * finv (x2 - x1))) as [E1 E2].
    { transitivity ((y2 - y1) * ((x2 - x1) * finv (x2 - x1))); [eqm_ring|]. rewrite Hi. eqm_ring. }
    do 3 eexists. split; [exact HT|]. eapply zrep_third; [|exact E1|exact E2].
    eapply nonzero_eqm; [|rewrite HZ3, HH; reflexivity]. apply eqm_nonzero_mul; [now apply two_nonzero|].
    apply eqm_nonzero_mul; [exact Hx|apply pow_nonzero; [lia|exact HW]].
Qed.
End Addition.

Lemma jrep_point_add J1 J2 x1 y1 x2 y2 :
  jrep J1 (Aff x1 y1) -> jrep J2 (Aff x2 y2) -> on_curve x1 y1 -> on_curve x2 y2 ->
  ~ peq (Aff x1 y1) (Aff x2 y2) -> jrep (point_add J1 J2) (padd (Aff x1 y1) (Aff x2 y2)).
Proof.
  intros (X1 & Y1 & Z1 & HT1 & Hz1 & HX1 & HY1) (X2 & Y2 & Z2 & HT2 & Hz2 & HX2 & HY2) Hc1 Hc2 Hne.
  destruct J1 as [[a1 a2] a3], J2 as [[b1 b2] b3]. destruct HT1 as (A1 & A2 & A3), HT2 as (B1 & B2 & B3).
  refine (jrep_add _ _ _ _ (Z1 * Z2) _ _ _ _ _ _ _ _ _ _ _ _
            (point_add_triple _ _ _ _ _ _ _ _ _ _ _ _ A1 A2 A3 B1 B2 B3) Hc1 Hc2 Hne);
    [rewrite HX1|rewrite HY1|rewrite HX1, HX2|rewrite HY1, HY2| |]; try eqm_ring.
  now apply eqm_nonzero_mul.
Qed.

Lemma jrep_point_add_mixed J1 x1 y1 fx2 fy2 x2 y2 :
  jrep J1 (Aff x1 y1) -> frep fx2 x2 -> frep fy2 y2 -> on_curve x1 y1 -> on_curve x2 y2 ->
  ~ peq (Aff x1 y1) (Aff x2 y2) -> jrep (point_add_mixed J1 fx2 fy2) (padd (Aff x1 y1) (Aff x2 y2)).
Proof.
  intros (X1 & Y1 & Z1 & HT1 & Hz1 & HX1 & HY1) HX2 HY2 Hc1 Hc2 Hne.
  destruct J1 as [[a1 a2] a3]. destruct HT1 as (A1 & A2 & A3).
  refine (jrep_add _ _ _ _ Z1 _ _ _ _ _ _ _ _ _ _ _ _
            (point_add_mixed_triple _ _ _ _ _ _ _ _ _ _ A1 A2 A3 HX2 HY2) Hc1 Hc2 Hne);
    [rewrite HX1|rewrite HY1|rewrite HX1|rewrite HY1| |exact Hz1]; eqm_ring.
Qed.

(** ** The addition that tests for equality *)

Lemma frep_eq l x y : frep l x -> x ==[p] y -> frep l y.
Proof. intros H E. now rewrite <- E. Qed.

Lemma scaled_zero d w k : 0 <= k -> ~ w ==[p] 0 -> (d * w ^ k ==[p] 0 <-> d ==[p] 0).
Proof.
  intros Hk Hw. split; [|intros ->; eqm_ring].
  intros H. apply eqm_integral in H as [H|H]; [exact H|]. now apply pow_nonzero in H.
Qed.

Lemma add_or_double_cases fuel J1 J2 x1 y1 x2 y2 :
  (2 <= fuel)%nat -> jrep J1 (Aff x1 y1) -> jrep J2 (Aff x2 y2) ->
  (peq (Aff x1 y1) (Aff x2 y2) /\ point_add_or_double_vartime fuel J1 J2 = Some (point_double J1)) \/
  (~ peq (Aff x1 y1) (Aff x2 y2) /\ point_add_or_double_vartime fuel J1 J2 = Some (point_add J1 J2)).
Proof.
  intros Hf (X1 & Y1 & Z1 & HT1 & Hz1 & HX1 & HY1) (X2 & Y2 & Z2 & HT2 & Hz2 & HX2 & HY2).
  destruct J1 as [[a1 a2] a3], J2 as [[b1 b2] b3]. destruct HT1 as (A1 & A2 & A3), HT2 as (B1 & B2 & B3).
  cbn [peq]. unfold point_add_or_double_vartime, point_add. cbv zeta.
  set (h := felem_diff (felem_mul b1 _) _). set (r := felem_diff (felem_mul b2 _) _).
  assert (Hh : frep h ((x2 - x1) * (Z1 * Z2) ^ 2)).
  { unfold h. eapply frep_eq; [eauto 8 with frep|]. rewrite HX1, HX2. eqm_ring. }
  assert (Hr : frep r ((y2 - y1) * (Z1 * Z2) ^ 3)).
  { unfold r. eapply frep_eq; [eauto 8 with frep|]. rewrite HY1, HY2. eqm_ring. }
  assert (Hw : ~ Z1 * Z2 ==[p] 0) by now apply eqm_nonzero_mul.
  destruct (felem_is_zero_spec fuel h _ Hf Hh) as (bx & -> & Hbx).
  destruct (felem_is_zero_spec fuel r _ Hf Hr) as (by_ & -> & Hby).
  rewrite scaled_zero in Hbx by (lia || exact Hw). rewrite scaled_zero in Hby by (lia || exact Hw).
  assert (E : forall u v, v - u ==[p] 0 <-> u ==[p] v).
  { intros u v. split; intros E; [symmetry; apply (eqm_lin1 p 1 (v - u) 0); [exact E|ring]|rewrite E; eqm_ring]. }
  rewrite E in Hbx, Hby. destruct bx, by_; cbn [andb]; [left|right|right|right]; (split; [|reflexivity]);
    intuition discriminate.
Qed.

Lemma jrep_add_or_double fuel J1 J2 x1 y1 x2 y2 :
  (2 <= fuel)%nat -> jrep J1 (Aff x1 y1) -> jrep J2 (Aff x2 y2) -> on_curve x1 y1 -> on_curve x2 y2 ->
  exists J, point_add_or_double_vartime fuel J1 J2 = Some J /\ jrep J (padd (Aff x1 y1) (Aff x2 y2)).
Proof.
  intros Hf H1 H2 Hc1 Hc2.
  destruct (add_or_double_cases fuel J1 J2 x1 y1 x2 y2 Hf H1 H2) as [[He E]|[Hne E]]; eexists; (split; [exact E|]).
  - rewrite <- He. now apply jrep_double.
  - now apply jrep_point_add.
Qed.

(** * Conversions *)

Lemma span_S even k : span even (S k) = 2 ^ limb_width even * span (negb even) k.
Proof. reflexivity. Qed.

Lemma cut_limbs_spec n even a :
  int256 a ->
  length (cut_limbs n even a) = n /\ limbs 0 even (cut_limbs n even a) /\
  wval even (cut_limbs n even a) = val a mod span even n.
Proof.
  revert even a. induction n as [|n IH]; intros even a Ha; cbn [cut_limbs length limbs wval].
  - split; [reflexivity|]. split; [exact I|]. now rewrite Z.mod_1_r.
  - assert (Hw : 0 < limb_width even < 32) by (destruct even; cbn; lia).
    destruct (p256_shr_spec a (limb_width even) Ha Hw) as [H1 H2].
    destruct (IH (negb even) _ H1) as (L & B & V). rewrite L, V, H2, mask_mod, Z.add_0_r.
    assert (Hp : 0 < 2 ^ limb_width even) by (apply Z.pow_pos_nonneg; lia).
    assert (E0 : get a 0 mod 2 ^ limb_width even = val a mod 2 ^ limb_width even).
    { destruct Ha as [Hd Hl]. destruct a as [|x a]; [discriminate Hl|]. rewrite val_cons. cbn [get nth].
      replace (2 ^ 32) with (2 ^ (32 - limb_width even) * 2 ^ limb_width even)
        by (rewrite <- Z.pow_add_r by lia; f_equal; lia).
      rewrite <- (Z_mod_plus_full x (2 ^ (32 - limb_width even) * val a)). f_equal. ring. }
    split; [reflexivity|]. split; [split; [apply Z.mod_pos_bound; exact Hp|exact B]|].
    rewrite E0, span_S. pose proof (span_pos (negb even) n). rewrite Z.rem_mul_r by lia. reflexivity.
Qed.

Lemma tight_felem l : tight l -> felem l.
Proof. intros H. limbs9 l H. split; [reflexivity|]. cbn [limbs limb_width negb get nth]. lia. Qed.

Lemma kR_value : int256 kR /\ val kR ==[p] R.
Proof. split; [split; [repeat constructor; discriminate|reflexivity]|vm_compute; reflexivity]. Qed.

Lemma kRInv_value : int256 kRInv /\ val kRInv = Rinv.
Proof. split; [split; [repeat constructor; discriminate|reflexivity]|vm_compute; reflexivity]. Qed.

Lemma to_montgomery_spec a :
  int256 a -> exists l, to_montgomery a = Some l /\ tight l /\ frep l (val a).
Proof.
  intros Ha. destruct kR_value as [HR1 HR2]. unfold to_montgomery.
  destruct (p256_modmul_spec SECP256r1_p a 0 kR good_p Ha HR1 ltac:(lia)) as (c & -> & Hc & Vc).
  eexists. split; [reflexivity|]. destruct (cut_limbs_spec NLIMBS true c Hc) as (L & B & V).
  assert (T : tight (cut_limbs NLIMBS true c)) by (split; assumption).
  split; [exact T|]. split; [now apply tight_felem|].
  unfold fval. rewrite V. change (span true NLIMBS) with (2 ^ 257).
  pose proof (int256_bound c Hc). rewrite Z.mod_small by lia. rewrite Vc, p_def, eqm_mod, Z.mul_0_r, Z.add_0_r, HR2.
  reflexivity.
Qed.

(** The limbs from [i] on, as the loop joins them. *)
Lemma p256_init_value : int256 p256_init /\ val p256_init = 0.
Proof. split; [split; [repeat constructor; discriminate|reflexivity]|reflexivity]. Qed.

Lemma join_step result x w :
  int256 result -> 0 < w < 32 -> 0 <= x < 2 ^ 32 -> 2 ^ w * val result + x < 2 ^ 257 ->
  let '(tmp, top) := p256_shl result w in
  let '(r, c) := p256_add_d tmp x in
  int256 r /\ 0 <= top .| c < 2 ^ 32 /\ val r + 2 ^ 256 * (top .| c) = 2 ^ w * val result + x.
Proof.
  intros Hr Hw Hx Hb. pose proof (p256_shl_spec result w Hr Hw) as H1.
  destruct (p256_shl result w) as [tmp top]. destruct H1 as (Ht & Htop & E1).
  pose proof (p256_add_d_spec tmp x Ht Hx) as H2. destruct (p256_add_d tmp x) as [r c].
  destruct H2 as (Hr' & Hc & E2). pose proof (int256_bound r Hr'). pose proof (int256_bound tmp Ht).
  assert (Hor : top .| c = top + c).
  { assert (top = 0 \/ c = 0) as [-> | ->] by lia; [reflexivity|]. rewrite Z.lor_0_r. lia. }
  rewrite Hor. split; [exact Hr'|]. split; [|lia]. assert (top + c <= 1) by lia. lia.
Qed.

(** The steps before the last do not overflow. *)
Lemma join_step_small result x w :
  int256 result -> 0 < w < 32 -> 0 <= x < 2 ^ 32 -> 2 ^ w * val result + x < 2 ^ 256 ->
  let '(tmp, _) := p256_shl result w in
  let '(r, _) := p256_add_d tmp x in int256 r /\ val r = x + 2 ^ w * val result.
Proof.
  intros Hr Hw Hx Hb. pose proof (join_step result x w Hr Hw Hx ltac:(lia)) as H.
  destruct (p256_shl result w) as [tmp top]. destruct (p256_add_d tmp x) as [r c].
  destruct H as (Hr' & Ht & E). pose proof (int256_bound r Hr'). split; [exact Hr'|]. lia.
Qed.

Ltac join_one r Hr x w r' Hr' V :=
  let H := fresh "H" in
  pose proof (join_step_small r x w Hr ltac:(lia) ltac:(lia)) as H;
  destruct (p256_shl r w) as [? ?]; destruct (p256_add_d _ x) as [r' ?];
  destruct H as [Hr' V]; [lia|].

Lemma join_limbs_spec l :
  felem l -> fval l < 2 ^ 257 ->
  let '(r, top) := join_limbs l in
  int256 r /\ 0 <= top < 2 ^ 32 /\ val r + 2 ^ 256 * top = fval l.
Proof.
  intros Hl Hb. limbs9 l Hl. unfold fval in *. cbn [wval limb_width negb] in Hb |- *.
  unfold join_limbs. cbn [NLIMBS Nat.sub get nth]. destruct p256_init_value as [Hi Vi].
  pose proof (p256_add_d_spec p256_init x8 Hi ltac:(lia)) as H0.
  destruct (p256_add_d p256_init x8) as [r0 c0]. destruct H0 as (Hr0 & Hc0 & E0). rewrite Vi in E0.
  assert (V0 : val r0 = x8) by (pose proof (int256_bound r0 Hr0); lia). clear E0 Hc0 c0.
  cbn [fold_left Nat.even limb_width get nth].
  join_one r0 Hr0 x7 28 r1 Hr1 V1. join_one r1 Hr1 x6 29 r2 Hr2 V2. join_one r2 Hr2 x5 28 r3 Hr3 V3.
  join_one r3 Hr3 x4 29 r4 Hr4 V4. join_one r4 Hr4 x3 28 r5 Hr5 V5. join_one r5 Hr5 x2 29 r6 Hr6 V6.
  join_one r6 Hr6 x1 28 r7 Hr7 V7.
  pose proof (join_step r7 x0 29 Hr7 ltac:(lia) ltac:(lia) ltac:(lia)) as H.
  destruct (p256_shl r7 29) as [? ?]. destruct (p256_add_d _ x0) as [? ?]. destruct H as (H1 & H2 & H3).
  split; [exact H1|]. split; [exact H2|]. rewrite H3, V7, V6, V5, V4, V3, V2, V1, V0. ring.
Qed.

Lemma from_montgomery_spec l x :
  frep l x -> fval l < 2 ^ 257 -> exists r, from_montgomery l = Some r /\ int256 r /\ val r = x mod p.
Proof.
  intros [Hl Hx] Hb. pose proof (join_limbs_spec l Hl Hb) as H. unfold from_montgomery.
  destruct (join_limbs l) as [r top]. destruct H as (Hr & Ht & E). destruct kRInv_value as [HI VI].
  destruct (p256_modmul_spec SECP256r1_p kRInv top r good_p HI Hr Ht) as (c & -> & Hc & Vc).
  exists c. split; [reflexivity|]. split; [exact Hc|]. rewrite Vc, E, VI, p_def.
  change (Rinv * fval l ==[p] x). rewrite Hx.
  transitivity (x * (R * Rinv)); [eqm_ring|]. rewrite R_Rinv. eqm_ring.
Qed.

(** The whole way back: limbs that [felem_mul] produced. *)
Lemma from_montgomery_mul a c x y :
  frep a x -> frep c y ->
  exists r, from_montgomery (felem_mul a c) = Some r /\ int256 r /\ val r = (x * y) mod p.
Proof.
  intros Ha Hc. apply from_montgomery_spec; [now apply frep_mul|].
  apply felem_mul_small; [apply Ha|apply Hc].
Qed.

(** ** Affine output *)

Lemma frep_inv_zero a x : frep a x -> x ==[p] 0 -> frep (felem_inv a) 0.
Proof.
  intros Ha Hx. apply frep_inv in Ha. eapply frep_eq; [exact Ha|]. pose proof p_gt_2.
  rewrite Hx, Z.pow_0_l by lia. reflexivity.
Qed.

Lemma frep_inv_nonzero a x : frep a x -> ~ x ==[p] 0 -> exists y, frep (felem_inv a) y /\ x * y ==[p] 1.
Proof.
  intros Ha Hx. apply frep_inv in Ha. exists (x ^ (p - 2)). split; [exact Ha|].
  rewrite <- (finv_spec x Hx), finv_pow. reflexivity.
Qed.

Definition coords (P : point) : Z * Z := match P with Inf => (0, 0) | Aff x y => (x mod p, y mod p) end.

Lemma affine_out_spec J P :
  jrep J P -> exists x y, affine_out J = Some (x, y) /\ int256 x /\ int256 y /\ (val x, val y) = coords P.
Proof.
  intros (X & Y & Z & HT & HP). destruct J as [[a1 a2] a3]. destruct HT as (H1 & H2 & H3).
  assert (HI : exists zi, frep (felem_inv a3) zi /\
    match P with Inf => zi ==[p] 0 | _ => Z * zi ==[p] 1 end).
  { destruct P; [exists 0; split; [now apply (frep_inv_zero a3 Z)|reflexivity]|].
    apply frep_inv_nonzero; [exact H3|apply HP]. }
  destruct HI as (zi & Hzi & Ezi). unfold affine_out, point_to_affine.
  destruct (from_montgomery_mul a1 (felem_square (felem_inv a3)) X (zi * zi)) as (x & -> & Hx & Vx);
    [exact H1|auto with frep|].
  destruct (from_montgomery_mul a2 (felem_mul (felem_inv a3) (felem_square (felem_inv a3))) Y (zi * (zi * zi)))
    as (y & -> & Hy & Vy); [exact H2|auto with frep|].
  exists x, y. split; [reflexivity|]. split; [exact Hx|]. split; [exact Hy|]. rewrite Vx, Vy.
  assert (E : X * (zi * zi) ==[p] fst (coords P) /\ Y * (zi * (zi * zi)) ==[p] snd (coords P)).
  { destruct P as [|u v]; cbn [coords fst snd].
    - rewrite Ezi. split; eqm_ring.
    - destruct HP as (Hz & HX & HY). rewrite HX, HY. split.
      + transitivity (u * ((Z * zi) * (Z * zi))); [eqm_ring|]. rewrite Ezi, eqm_mod. eqm_ring.
      + transitivity (v * ((Z * zi) * (Z * zi) * (Z * zi))); [eqm_ring|]. rewrite Ezi, eqm_mod. eqm_ring. }
  destruct E as [Ex Ey]. unfold eqm in Ex, Ey. rewrite Ex, Ey. pose proof p_gt_2.
  destruct P; cbn [coords fst snd]; [now rewrite !Z.mod_0_l by lia|now rewrite !Zmod_mod].
Qed.

(** * Masked copies and table look-ups *)

(** A field element or a point as a C object: nine 32-bit words each. *)
Definition limbs32 (l : list Z) : Prop := length l = NLIMBS /\ words 32 l.
Definition stored (J : jacobian) : Prop := let '(x, y, z) := J in limbs32 x /\ limbs32 y /\ limbs32 z.

Lemma felem_limbs32 l : felem l -> limbs32 l.
Proof.
  intros H. assert (Hl : length l = NLIMBS) by apply H. split; [exact Hl|]. limbs9 l H. unfold words, word.
  repeat (apply Forall_cons; [lia|]). apply Forall_nil.
Qed.

Lemma copy_nothing out inp : length out = length inp -> copy_conditional out inp 0 = out.
Proof.
  unfold copy_conditional. revert inp. induction out as [|o out IH]; intros [|i inp] Hl; try discriminate Hl;
    [reflexivity|]. cbn [combine map fst snd]. rewrite Z.lxor_0_r. f_equal. apply IH. now injection Hl.
Qed.

Lemma copy_all out inp :
  length out = length inp -> words 32 out -> words 32 inp -> copy_conditional out inp ALL_ONES = inp.
Proof.
  unfold copy_conditional. revert inp. induction out as [|o out IH]; intros [|i inp] Hl Ho Hi; try discriminate Hl;
    [reflexivity|]. inversion Ho as [|? ? Wo Ho']; inversion Hi as [|? ? Wi Hi']; subst.
  cbn [combine map fst snd]. f_equal; [|apply IH; auto].
  assert (W : word 32 (i .^ o)) by (apply lxor_word; auto; lia).
  rewrite Z.land_comm. change ALL_ONES with 0xffffffff. rewrite land_all_ones by exact W.
  rewrite (Z.lxor_comm i o), <- Z.lxor_assoc, Z.lxor_nilpotent. apply Z.lxor_0_l.
Qed.

Lemma copy_point_spec P Q mask :
  stored P -> stored Q -> mask = 0 \/ mask = ALL_ONES ->
  copy_point P Q mask = if mask =? 0 then P else Q.
Proof.
  destruct P as [[x y] z], Q as [[x' y'] z']. intros ((L1 & W1) & (L2 & W2) & L3 & W3)
    ((L1' & W1') & (L2' & W2') & L3' & W3'). unfold copy_point.
  intros [-> | ->]; cbn [Z.eqb]; [rewrite !copy_nothing by congruence|rewrite !copy_all by congruence];
    reflexivity.
Qed.

(** The mask of the selections, by enumeration of its arguments. *)
Lemma index_mask_spec i j :
  0 <= i < 16 -> 0 <= j < 16 -> index_mask i j = if i =? j then ALL_ONES else 0.
Proof.
  intros Hi Hj.
  assert (H : forallb (fun i => forallb (fun j => index_mask i j =? (if i =? j then ALL_ONES else 0))
    (map Z.of_nat (seq 0 16))) (map Z.of_nat (seq 0 16)) = true) by (vm_compute; reflexivity).
  rewrite forallb_forall in H.
  assert (Hin : forall k, 0 <= k < 16 -> In k (map Z.of_nat (seq 0 16))).
  { intros k Hk. apply in_map_iff. exists (Z.to_nat k). split; [lia|apply in_seq; lia]. }
  specialize (H i (Hin i Hi)). rewrite forallb_forall in H. now apply Z.eqb_eq, H, Hin.
Qed.

Lemma or_masked_skip out table : length out = NLIMBS -> (NLIMBS <= length table)%nat -> or_masked out table 0 = out.
Proof.
  intros Ho Ht. unfold or_masked. assert (Hl : length out = length (firstn NLIMBS table))
    by (rewrite length_firstn; lia). revert Hl. generalize (firstn NLIMBS table). clear.
  induction out as [|o out IH]; intros [|t l] Hl; try discriminate Hl; [reflexivity|].
  cbn [combine map fst snd]. rewrite Z.land_0_r, Z.lor_0_r. f_equal. apply IH. now injection Hl.
Qed.

Lemma or_masked_take table :
  (NLIMBS <= length table)%nat -> words 32 table -> or_masked kZero table ALL_ONES = firstn NLIMBS table.
Proof.
  intros Hl Hw. unfold NLIMBS in *. do 9 (destruct table as [|? table]; [cbn [length] in Hl; lia|]).
  do 9 (apply Forall_cons_iff in Hw as [? Hw]). unfold or_masked, kZero, NLIMBS.
  cbn [firstn combine map fst snd]. change ALL_ONES with 0xffffffff.
  rewrite !land_all_ones by assumption. now rewrite !Z.lor_0_l.
Qed.

(** ** Selection *)

(** The element of [k] limbs' worth at position [i] of a table. *)
Definition slot (table : list Z) (i : nat) : list Z := firstn NLIMBS (skipn (NLIMBS * i) table).

Definition affine_body (index : Z) (st : list Z * list Z * list Z) (i : nat) :=
  let '(out_x, out_y, table) := st in
  let mask := index_mask (Z.of_nat i) index in
  let out_x := or_masked out_x table mask in
  let table := skipn NLIMBS table in
  let out_y := or_masked out_y table mask in
  let table := skipn NLIMBS table in
  (out_x, out_y, table).

Lemma affine_skip k m index x y table :
  (k + m <= 16)%nat -> (forall i, (k <= i < k + m)%nat -> Z.of_nat i <> index) -> 0 <= index < 16 ->
  length x = NLIMBS -> length y = NLIMBS -> (2 * NLIMBS * m <= length table)%nat ->
  fold_left (affine_body index) (seq k m) (x, y, table) = (x, y, skipn (2 * NLIMBS * m) table).
Proof.
  intros Hk. revert k Hk table. induction m as [|m IH]; intros k Hk table Hne Hi Hx Hy Ht; [reflexivity|].
  cbn [seq fold_left affine_body]. rewrite index_mask_spec by lia.
  destruct (Z.eqb_spec (Z.of_nat k) index) as [E|_]; [exfalso; apply (Hne k); [lia|exact E]|].
  unfold NLIMBS in *. rewrite !or_masked_skip by (unfold NLIMBS; rewrite ?length_skipn; lia).
  rewrite IH; try assumption; try lia.
  - rewrite !skipn_skipn. do 2 f_equal. lia.
  - intros i Hin. apply Hne. lia.
  - rewrite !length_skipn. lia.
Qed.

Lemma select_affine_spec table index :
  (2 * NLIMBS * 15 <= length table)%nat -> words 32 table -> 0 <= index < 16 ->
  select_affine_point table index =
  if index =? 0 then (kZero, kZero)
  else (slot table (2 * (Z.to_nat index - 1)), slot table (2 * (Z.to_nat index - 1) + 1)).
Proof.
  intros Ht Hw Hi. unfold select_affine_point.
  change (fold_left _ (seq 1 15) (kZero, kZero, table))
    with (fold_left (affine_body index) (seq 1 15) (kZero, kZero, table)).
  destruct (Z.eqb_spec index 0) as [->|Hnz].
  - rewrite affine_skip; try reflexivity; try assumption; lia.
  - set (i := Z.to_nat index). assert (Hi' : (1 <= i <= 15)%nat) by lia.
    replace (seq 1 15) with (seq 1 (i - 1) ++ [i] ++ seq (i + 1) (15 - i)).
    2: { replace 15%nat with ((i - 1) + (1 + (15 - i)))%nat at 2 by lia. rewrite seq_app. f_equal.
         cbn [Nat.add seq app]. replace (S (i - 1))%nat with i by lia. do 2 f_equal. lia. }
    rewrite !fold_left_app. unfold NLIMBS in *. rewrite affine_skip; unfold NLIMBS; try reflexivity; try lia.
    set (t := skipn (2 * 9 * (i - 1)) table).
    assert (Lt : (18 * (16 - i) <= length t)%nat) by (unfold t; rewrite length_skipn; lia).
    assert (Wt : words 32 t) by now apply words_skipn.
    cbn [fold_left affine_body]. rewrite index_mask_spec by lia.
    destruct (Z.eqb_spec (Z.of_nat i) index) as [_|]; [|lia].
    rewrite !or_masked_take by (unfold NLIMBS; rewrite ?length_skipn; try lia; auto with words).
    rewrite affine_skip; unfold NLIMBS; try lia; rewrite ?length_firstn, ?length_skipn; try lia.
    unfold slot, t, NLIMBS. rewrite skipn_skipn. do 3 f_equal; lia.
Qed.

Definition jacobian_body (index : Z) (st : list Z * list Z * list Z * list Z) (i : nat) :=
  let '(out_x, out_y, out_z, table) := st in
  let mask := index_mask (Z.of_nat i) index in
  let out_x := or_masked out_x table mask in
  let table := skipn NLIMBS table in
  let out_y := or_masked out_y table mask in
  let table := skipn NLIMBS table in
  let out_z := or_masked out_z table mask in
  let table := skipn NLIMBS table in
  (out_x, out_y, out_z, table).

Lemma jacobian_skip k m index x y z table :
  (k + m <= 16)%nat -> (forall i, (k <= i < k + m)%nat -> Z.of_nat i <> index) -> 0 <= index < 16 ->
  length x = NLIMBS -> length y = NLIMBS -> length z = NLIMBS -> (3 * NLIMBS * m <= length table)%nat ->
  fold_left (jacobian_body index) (seq k m) (x, y, z, table) = (x, y, z, skipn (3 * NLIMBS * m) table).
Proof.
  intros Hk. revert k Hk table. induction m as [|m IH]; intros k Hk table Hne Hi Hx Hy Hz Ht; [reflexivity|].
  cbn [seq fold_left jacobian_body]. rewrite index_mask_spec by lia.
  destruct (Z.eqb_spec (Z.of_nat k) index) as [E|_]; [exfalso; apply (Hne k); [lia|exact E]|].
  unfold NLIMBS in *. rewrite !or_masked_skip by (unfold NLIMBS; rewrite ?length_skipn; lia).
  rewrite IH; try assumption; try lia.
  - rewrite !skipn_skipn. do 2 f_equal. lia.
  - intros i Hin. apply Hne. lia.
  - rewrite !length_skipn. lia.
Qed.

Lemma flat_points_length ps : Forall stored ps -> length (flat_map flat_point ps) = (27 * length ps)%nat.
Proof.
  induction 1 as [|[[x y] z] ps H Hs IH]; [reflexivity|]. cbn [flat_map length flat_point].
  destruct H as ((L1 & _) & (L2 & _) & L3 & _). unfold NLIMBS in *. rewrite !length_app, IH. lia.
Qed.

Lemma flat_points_words ps : Forall stored ps -> words 32 (flat_map flat_point ps).
Proof.
  induction 1 as [|[[x y] z] ps H Hs IH]; [constructor|]. cbn [flat_map flat_point].
  destruct H as ((_ & W1) & (_ & W2) & _ & W3). auto with words.
Qed.

Lemma slots_of_point x y z rest :
  stored (x, y, z) ->
  (slot (flat_point (x, y, z) ++ rest) 0, slot (flat_point (x, y, z) ++ rest) 1,
   slot (flat_point (x, y, z) ++ rest) 2) = (x, y, z).
Proof.
  intros ((L1 & _) & (L2 & _) & L3 & _). unfold slot, NLIMBS in *. cbn [flat_point]. rewrite <- !app_assoc.
  assert (E : forall a r n, length a = n -> firstn n (a ++ r) = (a : list Z) /\ skipn n (a ++ r) = r).
  { intros a r n <-. rewrite firstn_app, skipn_app, Nat.sub_diag, firstn_all, skipn_all, app_nil_r. auto. }
  change (9 * 0)%nat with 0%nat. change (9 * 1)%nat with 9%nat. change (9 * 2)%nat with (9 + 9)%nat.
  rewrite skipn_O, <- (skipn_skipn 9 9). rewrite (proj1 (E x _ _ L1)), (proj2 (E x _ _ L1)).
  rewrite (proj1 (E y _ _ L2)), (proj2 (E y _ _ L2)), (proj1 (E z _ _ L3)). reflexivity.
Qed.

Lemma select_jacobian_spec ps index :
  length ps = 16%nat -> Forall stored ps -> 0 <= index < 16 ->
  select_jacobian_point (flat_map flat_point ps) index =
  if index =? 0 then infinity else entry ps (Z.to_nat index).
Proof.
  intros Hl Hs Hi. unfold select_jacobian_point.
  pose proof (flat_points_length ps Hs) as Lt. rewrite Hl in Lt. pose proof (flat_points_words ps Hs) as Wt.
  change (fold_left _ (seq 1 15) (kZero, kZero, kZero, skipn (3 * NLIMBS) (flat_map flat_point ps)))
    with (fold_left (jacobian_body index) (seq 1 15) (kZero, kZero, kZero, skipn (3 * NLIMBS) (flat_map flat_point ps))).
  destruct (Z.eqb_spec index 0) as [->|Hnz].
  - rewrite jacobian_skip; try reflexivity; try lia. unfold NLIMBS. rewrite length_skipn. lia.
  - set (i := Z.to_nat index). assert (Hi' : (1 <= i <= 15)%nat) by lia.
    replace (seq 1 15) with (seq 1 (i - 1) ++ [i] ++ seq (i + 1) (15 - i)).
    2: { replace 15%nat with ((i - 1) + (1 + (15 - i)))%nat at 2 by lia. rewrite seq_app. f_equal.
         cbn [Nat.add seq app]. replace (S (i - 1))%nat with i by lia. do 2 f_equal. lia. }
    rewrite !fold_left_app. unfold NLIMBS in *.
    rewrite jacobian_skip; unfold NLIMBS; try reflexivity; try lia; [|rewrite length_skipn; lia].
    rewrite skipn_skipn. replace (3 * 9 * (i - 1) + 3 * 9)%nat with (27 * i)%nat by lia.
    set (t := skipn (27 * i) (flat_map flat_point ps)).
    assert (Lt' : length t = (27 * (16 - i))%nat) by (unfold t; rewrite length_skipn; lia).
    assert (Wt' : words 32 t) by now apply words_skipn.
    cbn [fold_left jacobian_body]. rewrite index_mask_spec by lia.
    destruct (Z.eqb_spec (Z.of_nat i) index) as [_|]; [|lia].
    rewrite !or_masked_take by (unfold NLIMBS; rewrite ?length_skipn; try lia; auto with words).
    rewrite jacobian_skip; unfold NLIMBS; try lia; rewrite ?length_firstn, ?length_skipn; try lia.
    destruct (nth_split ps infinity (n := i) ltac:(lia)) as (l1 & l2 & E & L1).
    assert (Et : t = flat_point (entry ps i) ++ flat_map flat_point l2).
    { unfold t, entry. rewrite E at 1. rewrite E in Hs. apply Forall_app in Hs as [Hs1 _].
      rewrite flat_map_app, skipn_app, flat_points_length, L1, Nat.sub_diag by exact Hs1.
      rewrite skipn_all2 by (rewrite flat_points_length by exact Hs1; lia). reflexivity. }
    assert (Hst : stored (entry ps i)) by (rewrite Forall_forall in Hs; apply Hs, nth_In; lia).
    destruct (entry ps i) as [[x y] z]. pose proof (slots_of_point x y z (flat_map flat_point l2) Hst) as Hsl.
    rewrite <- Et in Hsl. rewrite <- Hsl. unfold slot, NLIMBS. rewrite skipn_skipn. reflexivity.
Qed.


(** * Theorems *)

(** [point_double] implements the group law: applied to any Jacobian
    representation of a point of the curve, infinity included, it gives limbs within
    the bounds that represent the double of the point. *)
Theorem point_double_correct J P : jrep J P -> valid P -> jrep (point_double J) (padd P P).
Proof. apply jrep_double. Qed.

(** The base point and its double, in limbs and as numbers. *)
Definition base_x : Z := 0x6b17d1f2e12c4247f8bce6e563a440f277037d812deb33a0f4a13945d898c296.
Definition base_y : Z := 0x4fe342e2fe1a7f9b8ee7eb4a7c0f9e162bce33576b315ececbb6406837bf51f5.
Definition base_point : jacobian := (slot kPrecomputed 0, slot kPrecomputed 1, kOne).

Lemma base_coordinates : frep (slot kPrecomputed 0) base_x /\ frep (slot kPrecomputed 1) base_y.
Proof. split; (split; [vm_compute; intuition congruence|vm_compute; reflexivity]). Qed.

Lemma base_on_curve : on_curve base_x base_y.
Proof. vm_compute. reflexivity. Qed.

Lemma base_point_rep : jrep base_point (Aff base_x base_y).
Proof.
  destruct base_coordinates as [Hx Hy]. exists base_x, base_y, 1.
  split; [exact (conj Hx (conj Hy frep_one))|].
  split; [|split; eqm_ring]. unfold eqm. pose proof p_gt_2. rewrite !Z.mod_small by lia. discriminate.
Qed.

Lemma point_double_correct_witness :
  jrep (point_double base_point) (padd (Aff base_x base_y) (Aff base_x base_y)).
Proof. apply (point_double_correct base_point); [exact base_point_rep|exact base_on_curve]. Defined.

(** C32: the three additions implement the group law on finite points of the curve:
    [point_add_or_double_vartime] gives a representation of the sum in every case
    (equal points, opposite points and the rest), while [point_add] and
    [point_add_mixed] (whose second argument is affine) do so for two points that
    are not equal. *)
Theorem point_addition_correct fuel J K fx fy x1 y1 x2 y2 :
  (2 <= fuel)%nat -> jrep J (Aff x1 y1) -> jrep K (Aff x2 y2) -> frep fx x2 -> frep fy y2 ->
  on_curve x1 y1 -> on_curve x2 y2 ->
  (exists S, point_add_or_double_vartime fuel J K = Some S /\ jrep S (padd (Aff x1 y1) (Aff x2 y2))) /\
  (peq (Aff x1 y1) (Aff x2 y2) \/
   jrep (point_add J K) (padd (Aff x1 y1) (Aff x2 y2)) /\
   jrep (point_add_mixed J fx fy) (padd (Aff x1 y1) (Aff x2 y2))).
Proof.
  intros Hf HJ HK Hx Hy C1 C2. split; [now apply jrep_add_or_double|].
  destruct (add_or_double_cases fuel J K x1 y1 x2 y2 Hf HJ HK) as [[He _]|[Hne _]]; [left; exact He|right].
  split; [now apply jrep_point_add|now apply jrep_point_add_mixed].
Qed.

Lemma point_addition_correct_witness :
  (exists S, point_add_or_double_vartime 2 base_point base_point = Some S /\
     jrep S (padd (Aff base_x base_y) (Aff base_x base_y))) /\
  (peq (Aff base_x base_y) (Aff base_x base_y) \/
   jrep (point_add base_point base_point) (padd (Aff base_x base_y) (Aff base_x base_y)) /\
   jrep (point_add_mixed base_point (slot kPrecomputed 0) (slot kPrecomputed 1))
     (padd (Aff base_x base_y) (Aff base_x base_y))).
Proof.
  apply (point_addition_correct 2); try exact base_point_rep; try exact base_on_curve;
    [lia|apply base_coordinates|apply base_coordinates].
Defined.

(** The conversions are inverse to each other: [to_montgomery] succeeds on every
    256-bit integer and gives limbs within the bounds that hold it in Montgomery
    form, and [from_montgomery] takes these limbs, as well as the limbs of any
    product of field elements, back to the integer modulo p. *)
Theorem montgomery_roundtrip a :
  int256 a ->
  exists l r, to_montgomery a = Some l /\ frep l (val a) /\
    from_montgomery l = Some r /\ int256 r /\ val r = val a mod p /\
    forall c y, frep c y -> exists s, from_montgomery (felem_mul l c) = Some s /\ val s = (val a * y) mod p.
Proof.
  intros Ha. destruct (to_montgomery_spec a Ha) as (l & E & T & F).
  destruct (from_montgomery_spec l (val a) F) as (r & E' & Hr & V).
  { pose proof (tight_bound l T). lia. }
  exists l, r. split; [exact E|]. split; [exact F|]. split; [exact E'|]. split; [exact Hr|]. split; [exact V|].
  intros c y Hc. destruct (from_montgomery_mul l c _ _ F Hc) as (s & Es & _ & Vs). exists s. split; assumption.
Qed.

Lemma montgomery_roundtrip_witness :
  exists l r, to_montgomery [1; 2; 3; 4; 5; 6; 7; 8] = Some l /\ frep l (val [1; 2; 3; 4; 5; 6; 7; 8]) /\
    from_montgomery l = Some r /\ int256 r /\ val r = val [1; 2; 3; 4; 5; 6; 7; 8] mod p /\
    forall c y, frep c y ->
      exists s, from_montgomery (felem_mul l c) = Some s /\ val s = (val [1; 2; 3; 4; 5; 6; 7; 8] * y) mod p.
Proof.
  apply (montgomery_roundtrip [1; 2; 3; 4; 5; 6; 7; 8]). split; [|reflexivity].
  repeat constructor; discriminate.
Defined.

(** Limbs within the bounds of a field element: the low limb has its thirtieth bit
    set and the others are full. *)
Definition carrying_limbs : list Z :=
  [2 ^ 29; 2 ^ 28 - 1; 2 ^ 29 - 1; 2 ^ 28 - 1; 2 ^ 29 - 1; 2 ^ 28 - 1; 2 ^ 29 - 1; 2 ^ 28 - 1; 2 ^ 29 - 1].

(** [from_montgomery] joins the word shifted out and the carry of the addition
    with a bitwise or; when both are 1 the carry is lost, so on some limbs within
    the bounds of a field element (never on a product, by the theorem above) the
    result is not the element the limbs hold. *)
Theorem from_montgomery_loses_carry :
  felem carrying_limbs /\
  exists r, from_montgomery carrying_limbs = Some r /\ val r <> (fval carrying_limbs * Rinv) mod p.
Proof.
  split; [repeat split; vm_compute; congruence|].
  eexists. split; [vm_compute; reflexivity|]. vm_compute. discriminate.
Qed.

