(* ===== verification/P256Mult.v ===== *)
(** Scalar multiplication on P-256: the loops of src/libmincrypt/p256_ec.c refine
    a windowed and a comb algorithm over the affine group law of [Curve], as long as
    no step adds a point to itself or to infinity (the additions of the loops are
    incomplete); and the entry points built on them. *)
From Stdlib Require Import ZArith List Lia Bool Morphisms Setoid.
From S2P Require Import Prelude Bignum P256 P256Field Primes Curve P256Point.
Import ListNotations.

#[local] Opaque p b finv felem_mul felem_square felem_sum felem_diff felem_scalar_3 felem_scalar_4
  felem_scalar_8 felem_inv.

(** * The accumulator *)

(** Nine limbs within the bounds, whatever they stand for. *)
Definition fine (J : jacobian) : Prop := exists X Y Z, triple J X Y Z.

Lemma fine_stored J : fine J -> stored J.
Proof.
  intros (X & Y & Z & H). destruct J as [[x y] z]. destruct H as ((H1 & _) & (H2 & _) & H3 & _).
  repeat split; now apply felem_limbs32.
Qed.

Lemma jrep_fine J P : jrep J P -> fine J.
Proof. intros (X & Y & Z & H & _). now exists X, Y, Z. Qed.

Lemma fine_double J : fine J -> fine (point_double J).
Proof.
  intros (X & Y & Z & H). destruct J as [[x y] z]. destruct H as (H1 & H2 & H3).
  do 3 eexists. exact (point_double_triple _ _ _ _ _ _ H1 H2 H3).
Qed.

Lemma fine_add J K : fine J -> fine K -> fine (point_add J K).
Proof.
  intros (X & Y & Z & H) (X' & Y' & Z' & H'). destruct J as [[x y] z], K as [[x' y'] z'].
  destruct H as (H1 & H2 & H3), H' as (H4 & H5 & H6). do 3 eexists.
  exact (point_add_triple _ _ _ _ _ _ _ _ _ _ _ _ H1 H2 H3 H4 H5 H6).
Qed.

Lemma fine_add_mixed J fx fy x y : fine J -> frep fx x -> frep fy y -> fine (point_add_mixed J fx fy).
Proof.
  intros (X & Y & Z & H) Hx Hy. destruct J as [[a c] d]. destruct H as (H1 & H2 & H3).
  do 3 eexists. exact (point_add_mixed_triple _ _ _ _ _ _ _ _ _ _ H1 H2 H3 Hx Hy).
Qed.

Lemma fine_infinity : fine infinity.
Proof. exists 0, 0, 0. repeat split; apply frep_zero. Qed.

Lemma infinity_rep : jrep infinity Inf.
Proof. exists 0, 0, 0. split; [repeat split; apply frep_zero|reflexivity]. Qed.

(** The accumulator holds [Q]: either nothing has been added yet, or the Jacobian
    point is [Q]. *)
Definition arep (started : bool) (a : accumulator) (Q : point) : Prop :=
  fine (acc_n a) /\ valid Q /\
  if started then n_is_infinity_mask a = 0 /\ jrep (acc_n a) Q
  else n_is_infinity_mask a = ALL_ONES /\ Q = Inf.

(** [accumulate] adds the point [P] of the table unless its index is zero; the sum
    [T] only has to be right when neither summand is infinite. *)
Lemma accumulate_spec started a Q J T P index :
  arep started a Q -> 0 <= index < 16 -> fine J -> fine T ->
  (index <> 0 -> jrep J P /\ valid P) ->
  (index <> 0 -> started = true -> jrep T (padd Q P)) ->
  arep (started || negb (index =? 0)) (accumulate a J T index) (if index =? 0 then Q else padd Q P).
Proof.
  intros (Hf & Hv & Hs) Hi HJ HT HP HS.
  pose proof (fine_stored _ Hf) as S1. pose proof (fine_stored _ HJ) as S2. pose proof (fine_stored _ HT) as S3.
  unfold accumulate, arep. cbn [acc_n n_is_infinity_mask].
  destruct started; destruct Hs as [-> Hs]; destruct (Z.eqb_spec index 0) as [->|Hnz]; cbn [orb negb];
    rewrite ?mask_zero, ?(mask_ones index) by lia.
  - rewrite (copy_point_spec (acc_n a)) by auto. cbn [Z.eqb].
    rewrite copy_point_spec by auto. cbn [Z.eqb]. auto.
  - rewrite (copy_point_spec (acc_n a)) by auto. cbn [Z.eqb].
    change (4294967295 .& not32 0) with ALL_ONES. rewrite copy_point_spec by auto. cbn [Z.eqb ALL_ONES].
    split; [exact HT|]. split; [apply valid_padd; [exact Hv|now apply HP]|]. split; [reflexivity|now apply HS].
  - rewrite (copy_point_spec (acc_n a)) by auto. cbn [Z.eqb ALL_ONES].
    change (0 .& not32 4294967295) with 0. rewrite copy_point_spec by auto. cbn [Z.eqb]. auto.
  - rewrite (copy_point_spec (acc_n a)) by auto. cbn [Z.eqb ALL_ONES].
    change (4294967295 .& not32 4294967295) with 0. rewrite copy_point_spec by auto. cbn [Z.eqb].
    subst Q. cbn [padd]. split; [exact HJ|]. split; [now apply HP|]. split; [reflexivity|now apply HP].
Qed.

(** Doubling the accumulated point. *)
Lemma arep_double started a Q :
  arep started a Q ->
  arep started {| acc_n := point_double (acc_n a); n_is_infinity_mask := n_is_infinity_mask a |} (padd Q Q).
Proof.
  intros (Hf & Hv & Hs). split; [now apply fine_double|]. split; [now apply valid_padd|].
  destruct started; destruct Hs as [Hm Hs]; (split; [exact Hm|]); [now apply jrep_double|now subst Q].
Qed.

Lemma arep_start : arep false {| acc_n := infinity; n_is_infinity_mask := ALL_ONES |} Inf.
Proof. split; [exact fine_infinity|]. split; [exact I|]. split; reflexivity. Qed.

(** * Scalar multiplication of a point *)

(** Finite points the incomplete addition formulas can add. *)
Definition addable (P Q : point) : bool :=
  match P, Q with
  | Aff x1 y1, Aff x2 y2 => negb (is_zero (x2 - x1) && is_zero (y2 - y1))
  | _, _ => false
  end.

Lemma addable_spec P Q :
  addable P Q = true -> exists x1 y1 x2 y2, P = Aff x1 y1 /\ Q = Aff x2 y2 /\ ~ peq (Aff x1 y1) (Aff x2 y2).
Proof.
  destruct P as [|x1 y1], Q as [|x2 y2]; try discriminate. intros H. exists x1, y1, x2, y2.
  split; [reflexivity|]. split; [reflexivity|]. intros [Ex Ey]. cbn [addable] in H.
  destruct (is_zero_spec (x2 - x1)) as [_|Hn]; [|apply Hn; rewrite Ex; eqm_ring].
  destruct (is_zero_spec (y2 - y1)) as [_|Hn]; [discriminate H|apply Hn; rewrite Ey; eqm_ring].
Qed.

(** Tables of points; the flag says that the additions that led to the entry avoid
    the exceptional cases. *)
Definition ptable : Type := list (point * bool).
Definition at_ (tbl : ptable) (i : nat) : point := fst (nth i tbl (Inf, true)).
Definition ok_ (tbl : ptable) (i : nat) : bool := snd (nth i tbl (Inf, true)).
Definition twice (P : point) : point := padd P P.

(** The multiples 0 to 15 of a point, as the table computes them. *)
Definition multiples (P : point) : ptable :=
  fold_left (fun l i =>
    let D := twice (at_ l (i / 2)) in
    let ok := ok_ l (i / 2) in
    l ++ [(D, ok); (padd D P, ok && addable D P)]) [2; 4; 6; 8; 10; 12; 14]%nat [(Inf, true); (P, true)].

(** The windowed algorithm over points. *)
Definition window_add (tbl : ptable) (Q : point) (d : Z) : point :=
  let Q := twice (twice (twice (twice Q))) in
  if d =? 0 then Q else padd Q (at_ tbl (Z.to_nat d)).

(** The entry for [d] is right, and adding it does not double or start from infinity. *)
Definition digit_ok (tbl : ptable) (Q : point) (started : bool) (d : Z) : bool :=
  (d =? 0) || ok_ tbl (Z.to_nat d) && (negb started || addable Q (at_ tbl (Z.to_nat d))).

Fixpoint regular (tbl : ptable) (ds : list Z) (started : bool) (Q : point) : bool :=
  match ds with
  | [] => true
  | d :: t =>
      digit_ok tbl (twice (twice (twice (twice Q)))) started d
      && regular tbl t (started || negb (d =? 0)) (window_add tbl Q d)
  end.

Definition window_digits (scalar : list Z) : list Z :=
  map (fun k => mult_index scalar (4 * k)%nat) (seq 0 64).

#[local] Opaque padd point_double point_add point_add_mixed addable.

(** The Jacobian table and the table of points, as far as they have been computed. *)
Definition tables (k : nat) (js : list jacobian) (ps : ptable) : Prop :=
  length js = k /\ length ps = k /\
  forall i, (i < k)%nat -> fine (entry js i) /\
    (ok_ ps i = true -> jrep (entry js i) (at_ ps i) /\ valid (at_ ps i)).

Lemma tables_snoc k js ps J P ok :
  tables k js ps -> fine J -> (ok = true -> jrep J P /\ valid P) -> tables (S k) (js ++ [J]) (ps ++ [(P, ok)]).
Proof.
  intros (L1 & L2 & H) HJ HV. split; [rewrite length_app; cbn [length]; lia|].
  split; [rewrite length_app; cbn [length]; lia|]. intros i Hi. unfold entry, at_, ok_.
  destruct (Nat.eq_dec i k) as [->|Hne].
  - rewrite !app_nth2, L1, L2, Nat.sub_diag by lia. cbn [nth fst snd]. auto.
  - rewrite !app_nth1 by lia. apply H. lia.
Qed.

Lemma one_nonzero : ~ 1 ==[p] 0.
Proof. unfold eqm. pose proof p_gt_2. rewrite !Z.mod_small by lia. discriminate. Qed.

(** An affine point, stored with Z = 1. *)
Lemma jrep_affine fx fy x y : frep fx x -> frep fy y -> jrep (fx, fy, kOne) (Aff x y).
Proof.
  intros Hx Hy. exists x, y, 1. split; [exact (conj Hx (conj Hy frep_one))|].
  split; [exact one_nonzero|split; eqm_ring].
Qed.

Section Multiples.
Variables (fx fy : list Z) (x y : Z).
Hypothesis Hx : frep fx x.
Hypothesis Hy : frep fy y.
Hypothesis Hc : on_curve x y.

Lemma tables_start : tables 2 [infinity; (fx, fy, kOne)] [(Inf, true); (Aff x y, true)].
Proof.
  apply (tables_snoc 1 [infinity] [(Inf, true)]).
  - apply (tables_snoc 0 [] []); [|exact fine_infinity|].
    + split; [reflexivity|]. split; [reflexivity|]. intros; lia.
    + intros _. split; [exact infinity_rep|exact I].
  - exact (jrep_fine _ _ (jrep_affine _ _ _ _ Hx Hy)).
  - intros _. split; [now apply jrep_affine|exact Hc].
Qed.

Lemma tables_step k js ps i :
  tables k js ps -> (i / 2 < k)%nat ->
  let J := point_double (entry js (i / 2)) in
  let D := twice (at_ ps (i / 2)) in let ok := ok_ ps (i / 2) in
  tables (2 + k) (js ++ [J; point_add_mixed J fx fy])
    (ps ++ [(D, ok); (padd D (Aff x y), ok && addable D (Aff x y))]).
Proof.
  intros HT Hi J D ok. destruct (proj2 (proj2 HT) _ Hi) as [HF HO].
  assert (HJ : fine J) by now apply fine_double.
  assert (HD : ok = true -> jrep J D /\ valid D).
  { intros Ho. destruct (HO Ho) as [H1 H2]. split; [now apply jrep_double|now apply valid_padd]. }
  assert (HS : ok && addable D (Aff x y) = true ->
    jrep (point_add_mixed J fx fy) (padd D (Aff x y)) /\ valid (padd D (Aff x y))).
  { intros Hoa. apply andb_true_iff in Hoa as [Ho Ha]. destruct (HD Ho) as [H1 H2].
    split; [|now apply valid_padd]. destruct (addable_spec _ _ Ha) as (x1 & y1 & x2 & y2 & E1 & E2 & Hne).
    injection E2 as <- <-. rewrite E1 in *. now apply jrep_point_add_mixed. }
  pose proof (tables_snoc _ _ _ _ _ _ HT HJ HD) as T1.
  pose proof (tables_snoc _ _ _ _ _ _ T1 (fine_add_mixed _ _ _ _ _ HJ Hx Hy) HS) as T2.
  rewrite <- !app_assoc in T2. exact T2.
Qed.

(** Each index has its half in the table when its turn comes. *)
Fixpoint halves_known (k : nat) (idx : list nat) : Prop :=
  match idx with [] => True | i :: t => (i / 2 < k)%nat /\ halves_known (2 + k) t end.

Lemma tables_run idx : forall k js ps,
  tables k js ps -> halves_known k idx ->
  tables (2 * length idx + k)
    (fold_left (fun precomp i =>
       let D := point_double (entry precomp (i / 2)) in precomp ++ [D; point_add_mixed D fx fy]) idx js)
    (fold_left (fun l i =>
       let D := twice (at_ l (i / 2)) in let ok := ok_ l (i / 2) in
       l ++ [(D, ok); (padd D (Aff x y), ok && addable D (Aff x y))]) idx ps).
Proof.
  induction idx as [|i idx IH]; intros k js ps HT Hk; cbn [fold_left length]; [exact HT|].
  destruct Hk as [Hi Hk]. replace (2 * S (length idx) + k)%nat with (2 * length idx + (2 + k))%nat by lia.
  exact (IH (2 + k)%nat _ _ (tables_step k js ps i HT Hi) Hk).
Qed.

Lemma precompute_spec : tables 16 (precompute fx fy) (multiples (Aff x y)).
Proof.
  refine (tables_run [2; 4; 6; 8; 10; 12; 14]%nat 2 _ _ tables_start _). repeat split; cbn; lia.
Qed.
End Multiples.

Lemma get_bit_range scalar i : p256_get_bit scalar i = 0 \/ p256_get_bit scalar i = 1.
Proof.
  unfold p256_get_bit. set (z := _ >> _). assert (E : z .& 1 = z mod 2) by exact (land_ones_mod z 1 ltac:(lia)).
  rewrite E. pose proof (Z.mod_pos_bound z 2 ltac:(lia)). lia.
Qed.

Ltac bit_cases :=
  repeat match goal with
  | |- context [p256_get_bit ?s ?i] => destruct (get_bit_range s i) as [-> | ->]
  end; vm_compute; split; congruence.

Lemma mult_index_range scalar i : 0 <= mult_index scalar i < 16.
Proof. unfold mult_index. bit_cases. Qed.

Lemma base_index_range scalar i j : 0 <= base_index scalar i j < 16.
Proof. unfold base_index. bit_cases. Qed.

Section ScalarMult.
Variables (js : list jacobian) (tbl : ptable).
Hypothesis Htab : tables 16 js tbl.

Lemma tables_fine : Forall fine js.
Proof.
  destruct Htab as (L & _ & H). apply Forall_forall. intros J Hin.
  apply In_nth with (d := infinity) in Hin as (i & Hi & <-).
  apply H. lia.
Qed.

Lemma table_select index :
  0 <= index < 16 ->
  select_jacobian_point (flat_map flat_point js) index = (if index =? 0 then infinity else entry js (Z.to_nat index)).
Proof.
  intros Hi. apply select_jacobian_spec; [apply Htab| |exact Hi].
  eapply Forall_impl; [exact fine_stored|exact tables_fine].
Qed.

(** One window, after the four doublings. *)
Lemma mult_add_spec scalar i started a Q :
  let d := mult_index scalar i in
  let J := select_jacobian_point (flat_map flat_point js) d in
  arep started a Q -> digit_ok tbl Q started d = true ->
  arep (started || negb (d =? 0)) (accumulate a J (point_add (acc_n a) J) d)
    (if d =? 0 then Q else padd Q (at_ tbl (Z.to_nat d))).
Proof.
  intros d J Ha Hok. assert (Hd : 0 <= d < 16) by apply mult_index_range.
  assert (HJ : J = if d =? 0 then infinity else entry js (Z.to_nat d)) by now apply table_select.
  destruct (proj2 (proj2 Htab) (Z.to_nat d) ltac:(lia)) as [HF HO]. unfold digit_ok in Hok.
  assert (HfJ : fine J) by (rewrite HJ; destruct (d =? 0); [exact fine_infinity|exact HF]).
  destruct (Z.eqb_spec d 0) as [E|Hnz]; cbn [orb negb] in *.
  - rewrite E. refine (accumulate_spec started a Q J _ Inf 0 Ha ltac:(lia) HfJ _ _ _);
      [apply fine_add; [apply Ha|exact HfJ]|contradiction|contradiction].
  - apply andb_true_iff in Hok as [Ho Hok]. destruct (HO Ho) as [H1 H2]. rewrite <- HJ in H1.
    pose proof (accumulate_spec started a Q J (point_add (acc_n a) J) (at_ tbl (Z.to_nat d)) d Ha Hd HfJ) as HA.
    rewrite (proj2 (Z.eqb_neq d 0) Hnz) in HA. cbn [negb] in HA. apply HA; [apply fine_add; [apply Ha|exact HfJ]|auto|].
    intros _ Hst. rewrite Hst in Hok. cbn [orb negb] in Hok.
    destruct (addable_spec _ _ Hok) as (x1 & y1 & x2 & y2 & E1 & E2 & Hne).
    destruct Ha as (_ & HvQ & HQ). rewrite Hst in HQ. destruct HQ as [_ HQ].
    rewrite E1, E2 in *. now apply jrep_point_add.
Qed.

Lemma arep_double4 started a Q :
  arep started a Q ->
  arep started {| acc_n := point_double (point_double (point_double (point_double (acc_n a))));
                  n_is_infinity_mask := n_is_infinity_mask a |} (twice (twice (twice (twice Q)))).
Proof. intros H. now do 4 apply arep_double in H. Qed.

Lemma mult_step_spec scalar k started a Q :
  let d := mult_index scalar (4 * k) in
  arep started a Q -> (k = 0%nat -> started = false) ->
  digit_ok tbl (twice (twice (twice (twice Q)))) started d = true ->
  arep (started || negb (d =? 0)) (mult_step (flat_map flat_point js) scalar a (4 * k)) (window_add tbl Q d).
Proof.
  intros d Ha Hk Hok. unfold mult_step, window_add. fold d. apply arep_double4 in Ha as Ha4.
  destruct (Nat.eqb_spec (4 * k) 0) as [Hz|Hz]; [|now apply (mult_add_spec scalar (4 * k))].
  rewrite (Hk ltac:(lia)) in *. destruct a as [n m]. cbn [acc_n n_is_infinity_mask].
  assert (Q = Inf) as -> by apply Ha. unfold twice. rewrite !padd_Inf_l.
  rewrite <- (padd_Inf_l (at_ tbl (Z.to_nat d))).
  refine (mult_add_spec scalar (4 * k) false {| acc_n := n; n_is_infinity_mask := m |} Inf Ha _).
  unfold twice in Hok. rewrite !padd_Inf_l in Hok. exact Hok.
Qed.

Lemma mult_run scalar ks : forall started a Q,
  arep started a Q -> (In 0%nat (tl ks) -> False) -> (hd 1%nat ks = 0%nat -> started = false) ->
  regular tbl (map (fun k => mult_index scalar (4 * k)) ks) started Q = true ->
  exists st, arep st (fold_left (mult_step (flat_map flat_point js) scalar) (map (fun k => 4 * k)%nat ks) a)
    (fold_left (window_add tbl) (map (fun k => mult_index scalar (4 * k)) ks) Q) /\
    st = started || existsb (fun k => negb (mult_index scalar (4 * k) =? 0)) ks.
Proof.
  induction ks as [|k ks IH]; intros started a Q Ha H0 Hh Hr; cbn [map fold_left existsb].
  - exists started. rewrite orb_false_r. auto.
  - cbn [map regular] in Hr. apply andb_true_iff in Hr as [Hr1 Hr2].
    pose proof (mult_step_spec scalar k started a Q Ha Hh Hr1) as H1. rewrite orb_assoc.
    apply IH; [exact H1| | |exact Hr2].
    + intros Hin. apply H0. cbn [tl]. destruct ks; [contradiction|now right].
    + intros E. exfalso. apply H0. cbn [tl]. destruct ks as [|k' ks]; [discriminate E|left; exact E].
Qed.
End ScalarMult.

(** The product the windowed algorithm prescribes. *)
Definition window_mul (P : point) (scalar : list Z) : point :=
  fold_left (window_add (multiples P)) (window_digits scalar) Inf.

Definition mult_regular (P : point) (scalar : list Z) : bool :=
  regular (multiples P) (window_digits scalar) false Inf.

Lemma scalar_mult_spec fx fy x y scalar :
  frep fx x -> frep fy y -> on_curve x y -> mult_regular (Aff x y) scalar = true ->
  existsb (fun d => negb (d =? 0)) (window_digits scalar) = true ->
  jrep (scalar_mult fx fy scalar) (window_mul (Aff x y) scalar) /\ valid (window_mul (Aff x y) scalar).
Proof.
  intros Hx Hy Hc Hr Hnz. pose proof (precompute_spec fx fy x y Hx Hy Hc) as HT.
  destruct (mult_run _ _ HT scalar (seq 0 64) false _ Inf arep_start) as (st & Ha & Est).
  - intros Hin. change (tl (seq 0 64)) with (seq 1 63) in Hin. apply in_seq in Hin. lia.
  - reflexivity.
  - exact Hr.
  - cbn [orb] in Est. unfold window_digits in Hnz. rewrite existsb_map in Hnz. rewrite Hnz in Est.
    subst st. split; apply Ha.
Qed.

(** * Multiplication of the base point *)

(** The points of a table of [kPrecomputed]: the field elements it holds. *)
Definition coord (l : list Z) : Z := fval l * Rinv mod p.

Definition base_table (offset : nat) : ptable :=
  let t := skipn offset kPrecomputed in
  (Inf, true) :: map (fun i => (Aff (coord (slot t (2 * i))) (coord (slot t (2 * i + 1))), true)) (seq 0 15).

Definition tightb (l : list Z) : bool :=
  (length l =? NLIMBS)%nat &&
  forallb (fun i => (0 <=? get l i) && (get l i <? 2 ^ limb_width (Nat.even i))) (seq 0 NLIMBS).

Lemma tightb_tight l : tightb l = true -> tight l.
Proof.
  unfold tightb. rewrite andb_true_iff, Nat.eqb_eq, forallb_forall. intros [Hl H]. split; [exact Hl|].
  assert (G : forall i, (i < 9)%nat -> 0 <= get l i < 2 ^ limb_width (Nat.even i)).
  { intros i Hi. specialize (H i). rewrite andb_true_iff, Z.leb_le, Z.ltb_lt in H. apply H, in_seq.
    unfold NLIMBS. lia. }
  pose proof (G 0%nat ltac:(lia)). pose proof (G 1%nat ltac:(lia)). pose proof (G 2%nat ltac:(lia)).
  pose proof (G 3%nat ltac:(lia)). pose proof (G 4%nat ltac:(lia)). pose proof (G 5%nat ltac:(lia)).
  pose proof (G 6%nat ltac:(lia)). pose proof (G 7%nat ltac:(lia)). pose proof (G 8%nat ltac:(lia)). clear G H.
  do 9 (destruct l as [|? l]; [discriminate Hl|]). destruct l; [|discriminate Hl].
  cbn [limbs limb_width negb get nth Nat.even] in *. rewrite !Z.add_0_r. auto 10.
Qed.

Definition on_curveb (x y : Z) : bool := y * y mod p =? (x * x mod p * x - 3 * x + b) mod p.

Lemma on_curveb_spec x y : on_curveb x y = true -> on_curve x y.
Proof.
  unfold on_curveb. rewrite Z.eqb_eq. intros H. unfold on_curve.
  transitivity (y * y); [eqm_ring|]. change (y * y ==[p] x * x mod p * x - 3 * x + b) in H.
  rewrite H, eqm_mod. eqm_ring.
Qed.

(** Every entry of both tables: limbs within the bounds, and a point of the curve. *)
Lemma kPrecomputed_checked :
  forallb (fun k => tightb (slot kPrecomputed k)) (seq 0 60) &&
  forallb (fun k => on_curveb (coord (slot kPrecomputed (2 * k))) (coord (slot kPrecomputed (2 * k + 1))))
    (seq 0 30) = true.
Proof. vm_compute. reflexivity. Qed.

Lemma slot_skip table m i : slot (skipn (NLIMBS * m) table) i = slot table (m + i).
Proof. unfold slot. rewrite skipn_skipn. f_equal. f_equal. lia. Qed.

Lemma frep_coord l : tight l -> frep l (coord l).
Proof.
  intros H. split; [now apply tight_felem|]. unfold coord. rewrite eqm_mod.
  transitivity (fval l * (R * Rinv)); [rewrite R_Rinv; eqm_ring|eqm_ring].
Qed.

Lemma base_entry half i :
  (half <= 1)%nat -> (i < 15)%nat ->
  let t := skipn (30 * NLIMBS * half) kPrecomputed in
  frep (slot t (2 * i)) (coord (slot t (2 * i))) /\ frep (slot t (2 * i + 1)) (coord (slot t (2 * i + 1))) /\
  on_curve (coord (slot t (2 * i))) (coord (slot t (2 * i + 1))).
Proof.
  intros Hh Hi t. pose proof kPrecomputed_checked as H. apply andb_true_iff in H as [H1 H2].
  rewrite forallb_forall in H1, H2. unfold t. replace (30 * NLIMBS * half)%nat with (NLIMBS * (30 * half))%nat by lia.
  rewrite !slot_skip. replace (30 * half + 2 * i)%nat with (2 * (15 * half + i))%nat by lia.
  replace (30 * half + (2 * i + 1))%nat with (2 * (15 * half + i) + 1)%nat by lia. split; [|split].
  - apply frep_coord, tightb_tight, H1, in_seq. lia.
  - apply frep_coord, tightb_tight, H1, in_seq. lia.
  - apply on_curveb_spec, H2, in_seq. lia.
Qed.

Lemma kPrecomputed_words : length kPrecomputed = 540%nat /\ words 32 kPrecomputed.
Proof.
  split; [vm_compute; reflexivity|].
  assert (H : forallb (fun z => (0 <=? z) && (z <? 2 ^ 32)) kPrecomputed = true) by (vm_compute; reflexivity).
  rewrite forallb_forall in H. apply Forall_forall. intros z Hz. specialize (H z Hz).
  rewrite andb_true_iff, Z.leb_le, Z.ltb_lt in H. exact H.
Qed.

Lemma nth_map_seq {A} (f : nat -> A) d n k : (k < n)%nat -> nth k (map f (seq 0 n)) d = f k.
Proof.
  intros Hk. rewrite nth_indep with (d' := f O) by (rewrite length_map, length_seq; exact Hk).
  rewrite map_nth, seq_nth by exact Hk. reflexivity.
Qed.

(** One table addition of the comb. *)
Definition comb_add (tbl : ptable) (Q : point) (d : Z) : point :=
  if d =? 0 then Q else padd Q (at_ tbl (Z.to_nat d)).

Lemma base_step_spec scalar i j half started a Q :
  (half <= 1)%nat ->
  let d := base_index scalar i j in
  let tbl := base_table (30 * NLIMBS * half) in
  arep started a Q -> digit_ok tbl Q started d = true ->
  arep (started || negb (d =? 0)) (base_step scalar i a j (30 * NLIMBS * half)) (comb_add tbl Q d).
Proof.
  intros Hh d tbl Ha Hok. assert (Hd : 0 <= d < 16) by apply base_index_range.
  unfold base_step. fold d. set (t := skipn (30 * NLIMBS * half) kPrecomputed).
  destruct kPrecomputed_words as [Lk Wk].
  rewrite select_affine_spec; [|unfold t, NLIMBS; rewrite length_skipn; lia|now apply words_skipn|exact Hd].
  assert (Hent : d <> 0 -> exists x y, at_ tbl (Z.to_nat d) = Aff x y /\ on_curve x y /\
    frep (slot t (2 * (Z.to_nat d - 1))) x /\ frep (slot t (2 * (Z.to_nat d - 1) + 1)) y).
  { intros Hnz. destruct (base_entry half (Z.to_nat d - 1) Hh ltac:(lia)) as (H1 & H2 & H3). fold t in H1, H2, H3.
    do 2 eexists. split; [|split; [exact H3|split; [exact H1|exact H2]]].
    unfold at_, tbl, base_table. fold t. set (k := (Z.to_nat d - 1)%nat) in *.
    assert (Ek : Z.to_nat d = S k) by lia. rewrite Ek. cbn [nth].
    rewrite (nth_map_seq (fun i => (Aff (coord (slot t (2 * i))) (coord (slot t (2 * i + 1))), true))) by lia.
    reflexivity. }
  destruct (Z.eqb_spec d 0) as [E|Hnz].
  - unfold comb_add. rewrite E. cbn [Z.eqb].
    apply (accumulate_spec started a Q _ _ Inf 0); try assumption; try lia.
    + exists 0, 0, 1. repeat split; first [apply frep_zero | apply frep_one].
    + eapply fine_add_mixed; [apply Ha|apply frep_zero|apply frep_zero].
  - destruct (Hent Hnz) as (x & y & Et & Hc & Hx & Hy). unfold comb_add.
    pose proof (jrep_affine _ _ _ _ Hx Hy) as HJ.
    rewrite Et. destruct (Z.eqb_spec d 0) as [|_]; [contradiction|].
    replace (started || negb false) with (started || negb (d =? 0))
      by (now rewrite (proj2 (Z.eqb_neq d 0) Hnz)).
    replace (padd Q (Aff x y)) with (if d =? 0 then Q else padd Q (Aff x y))
      by (now rewrite (proj2 (Z.eqb_neq d 0) Hnz)).
    apply accumulate_spec; try assumption.
    + exact (jrep_fine _ _ HJ).
    + eapply fine_add_mixed; [apply Ha|exact Hx|exact Hy].
    + intros _. split; [exact HJ|exact Hc].
    + intros _ Hst. unfold digit_ok in Hok. rewrite (proj2 (Z.eqb_neq d 0) Hnz), Hst, Et in Hok. cbn [orb negb] in Hok.
      apply andb_true_iff in Hok as [_ Hok].
      destruct (addable_spec _ _ Hok) as (x1 & y1 & x2 & y2 & E1 & E2 & Hne). injection E2 as <- <-.
      destruct Ha as (_ & HvQ & HQ). rewrite Hst in HQ. destruct HQ as [_ HQ]. rewrite E1 in *.
      now apply jrep_point_add_mixed.
Qed.

(** The comb over points: a doubling and two additions in each of 32 rounds. *)
Definition comb_digits (scalar : list Z) (i : nat) : Z * Z := (base_index scalar i 0, base_index scalar i 32).

Definition comb_round (Q : point) (d : Z * Z) : point :=
  comb_add (base_table (30 * NLIMBS)) (comb_add (base_table 0) (twice Q) (fst d)) (snd d).

Fixpoint comb_regular (ds : list (Z * Z)) (started : bool) (Q : point) : bool :=
  match ds with
  | [] => true
  | (d, e) :: t =>
      digit_ok (base_table 0) (twice Q) started d &&
      digit_ok (base_table (30 * NLIMBS)) (comb_add (base_table 0) (twice Q) d) (started || negb (d =? 0)) e &&
      comb_regular t (started || negb (d =? 0) || negb (e =? 0)) (comb_round Q (d, e))
  end.

Definition comb_mul (scalar : list Z) : point :=
  fold_left comb_round (map (comb_digits scalar) (seq 0 32)) Inf.

Definition base_regular (scalar : list Z) : bool := comb_regular (map (comb_digits scalar) (seq 0 32)) false Inf.

Definition base_round (scalar : list Z) (a : accumulator) (i : nat) : accumulator :=
  let a := if (i =? 0)%nat then a
           else {| acc_n := point_double (acc_n a); n_is_infinity_mask := n_is_infinity_mask a |} in
  let a := base_step scalar i a 0 0 in base_step scalar i a 32 (30 * NLIMBS).

Lemma base_run scalar idx : forall started a Q,
  arep started a Q -> (In 0%nat (tl idx) -> False) -> (hd 1%nat idx = 0%nat -> started = false) ->
  comb_regular (map (comb_digits scalar) idx) started Q = true ->
  arep (started || existsb (fun i => negb (base_index scalar i 0 =? 0) || negb (base_index scalar i 32 =? 0)) idx)
    (fold_left (base_round scalar) idx a) (fold_left comb_round (map (comb_digits scalar) idx) Q).
Proof.
  induction idx as [|i idx IH]; intros started a Q Ha H0 Hh Hr; cbn [map fold_left existsb].
  - now rewrite orb_false_r.
  - cbn [map comb_regular comb_digits] in Hr. rewrite !andb_true_iff in Hr. destruct Hr as [[Hr1 Hr2] Hr3].
    set (a1 := if (i =? 0)%nat then a
      else {| acc_n := point_double (acc_n a); n_is_infinity_mask := n_is_infinity_mask a |}).
    assert (Ha1 : arep started a1 (twice Q)).
    { unfold a1. destruct (Nat.eqb_spec i 0) as [Hz|Hz]; [|now apply arep_double].
      rewrite (Hh Hz) in *. assert (Q = Inf) as -> by apply Ha. exact Ha. }
    pose proof (base_step_spec scalar i 0 0 started a1 (twice Q) ltac:(lia) Ha1 Hr1) as H1.
    pose proof (base_step_spec scalar i 32 1 _ _ _ ltac:(lia) H1 Hr2) as H2.
    rewrite <- orb_assoc in H2. rewrite <- orb_assoc in Hr3. rewrite orb_assoc.
    apply IH; [exact H2| | |exact Hr3].
    + intros Hin. apply H0. cbn [tl]. destruct idx; [contradiction|now right].
    + intros E. exfalso. apply H0. cbn [tl]. destruct idx as [|i' idx]; [discriminate E|left; exact E].
Qed.

Lemma scalar_base_mult_spec scalar :
  base_regular scalar = true ->
  existsb (fun i => negb (base_index scalar i 0 =? 0) || negb (base_index scalar i 32 =? 0)) (seq 0 32) = true ->
  jrep (scalar_base_mult scalar) (comb_mul scalar) /\ valid (comb_mul scalar).
Proof.
  intros Hr Hnz. pose proof (base_run scalar (seq 0 32) false _ Inf arep_start) as H.
  change (tl (seq 0 32)) with (seq 1 31) in H. rewrite Hnz in H.
  assert (Ha : arep true (fold_left (base_round scalar) (seq 0 32)
    {| acc_n := infinity; n_is_infinity_mask := ALL_ONES |}) (comb_mul scalar)).
  { apply H; [|reflexivity|exact Hr]. intros Hin. apply in_seq in Hin. lia. }
  split; apply Ha.
Qed.

(** * Digits and bits *)

Lemma get_bit_testbit a i :
  int256 a -> (i < 256)%nat -> p256_get_bit a i = Z.b2z (Z.testbit (val a) (Z.of_nat i)).
Proof.
  intros Ha Hi. unfold p256_get_bit. change (P256_BITSPERDIGIT - 1) with (Z.ones 5). rewrite land_ones_mod by lia.
  set (j := (i / 32)%nat). set (r := Z.of_nat i mod 2 ^ 5).
  pose proof (Z.mod_pos_bound (Z.of_nat i) (2 ^ 5) ltac:(lia)) as Br. fold r in Br.
  assert (Ei : Z.of_nat i = 32 * Z.of_nat j + r).
  { unfold j, r. change (2 ^ 5) with 32. rewrite Nat2Z.inj_div. change (Z.of_nat 32) with 32.
    pose proof (Z.div_mod (Z.of_nat i) 32 ltac:(lia)). lia. }
  assert (Hj : (j < 8)%nat) by lia. destruct Ha as [Hd Hl].
  destruct (nth_split a 0 (n := j) ltac:(rewrite Hl; unfold P256_NDIGITS; lia)) as (l1 & l2 & E & L1).
  fold (get a j) in E. set (x := get a j) in *. clearbody x. subst a.
  apply Forall_app in Hd as [Hd1 Hd2]. apply digits_cons in Hd2 as [Hx Hd2].
  rewrite val_app, val_cons, L1. unfold rad. rewrite Ei.
  pose proof (val_bound l1 Hd1) as B1. rewrite L1 in B1. unfold rad in B1.
  assert (Et : Z.testbit (val l1 + 2 ^ (32 * Z.of_nat j) * (x + 2 ^ 32 * val l2)) (32 * Z.of_nat j + r)
               = Z.testbit x r).
  { assert (Hp : 0 < 2 ^ (32 * Z.of_nat j)) by (apply Z.pow_pos_nonneg; lia).
    rewrite (Z.add_comm (32 * _)), <- Z.div_pow2_bits by lia.
    rewrite Z.mul_comm, Z.div_add, (Z.div_small (val l1)), Z.add_0_l by lia.
    rewrite <- (Z.mod_pow2_bits_low _ 32 r) by lia. f_equal.
    rewrite (Z.mul_comm (2 ^ 32)), Z_mod_plus_full. apply Z.mod_small. exact Hx. }
  rewrite Et, Z.testbit_odd. set (z := x >> r). change 1 with (Z.ones 1). rewrite land_ones_mod by lia.
  change (2 ^ 1) with 2. rewrite Zmod_odd. destruct (Z.odd z); reflexivity.
Qed.

Lemma four_bits z :
  z mod 16 = 8 * Z.b2z (Z.testbit z 3) + 4 * Z.b2z (Z.testbit z 2) + 2 * Z.b2z (Z.testbit z 1) + Z.b2z (Z.testbit z 0).
Proof.
  rewrite !Z.testbit_odd, !shr_div by lia. change (2 ^ 0) with 1. change (2 ^ 1) with 2.
  change (2 ^ 2) with 4. change (2 ^ 3) with 8. rewrite Z.div_1_r.
  assert (E : forall x, Z.b2z (Z.odd x) = x mod 2) by (intros x; rewrite Zmod_odd; now destruct (Z.odd x)).
  rewrite !E. pose proof (Z.div_mod z 2 ltac:(lia)). pose proof (Z.div_mod (z / 2) 2 ltac:(lia)).
  pose proof (Z.div_mod (z / 4) 2 ltac:(lia)). pose proof (Z.div_mod (z / 8) 2 ltac:(lia)).
  pose proof (Z.div_mod z 16 ltac:(lia)).
  assert (z / 2 / 2 = z / 4) by (rewrite Z.div_div by lia; reflexivity).
  assert (z / 4 / 2 = z / 8) by (rewrite Z.div_div by lia; reflexivity).
  assert (z / 8 / 2 = z / 16) by (rewrite Z.div_div by lia; reflexivity). lia.
Qed.

Lemma bits_join b3 b2 b1 b0 :
  (Z.b2z b3 << 3) .| (Z.b2z b2 << 2) .| (Z.b2z b1 << 1) .| Z.b2z b0
  = 8 * Z.b2z b3 + 4 * Z.b2z b2 + 2 * Z.b2z b1 + Z.b2z b0.
Proof. destruct b3, b2, b1, b0; reflexivity. Qed.

Lemma mult_index_value a k :
  int256 a -> (k < 64)%nat -> mult_index a (4 * k) = (val a / 16 ^ (63 - Z.of_nat k)) mod 16.
Proof.
  intros Ha Hk. rewrite four_bits.
  assert (E : forall t, 0 <= t < 4 -> Z.testbit (val a / 16 ^ (63 - Z.of_nat k)) t
    = Z.testbit (val a) (Z.of_nat (252 - 4 * k) + t)).
  { intros t Ht. change 16 with (2 ^ 4). rewrite <- Z.pow_mul_r by lia.
    rewrite Z.div_pow2_bits by lia. f_equal. lia. }
  rewrite !E by lia. unfold mult_index. rewrite !get_bit_testbit by (auto; lia).
  replace (Z.of_nat (255 - 4 * k - 0)) with (Z.of_nat (252 - 4 * k) + 3) by lia.
  replace (Z.of_nat (255 - 4 * k - 1)) with (Z.of_nat (252 - 4 * k) + 2) by lia.
  replace (Z.of_nat (255 - 4 * k - 2)) with (Z.of_nat (252 - 4 * k) + 1) by lia.
  replace (Z.of_nat (255 - 4 * k - 3)) with (Z.of_nat (252 - 4 * k) + 0) by lia.
  apply bits_join.
Qed.

(** The digits are the scalar in base 16, most significant first. *)
Definition base16 (ds : list Z) : Z := fold_left (fun acc d => 16 * acc + d) ds 0.

Lemma window_digits_value a : int256 a -> base16 (window_digits a) = val a.
Proof.
  intros Ha. pose proof (int256_bound a Ha) as B.
  assert (G : forall n, (n <= 64)%nat ->
    base16 (map (fun k => mult_index a (4 * k)) (seq 0 n)) = val a / 16 ^ (64 - Z.of_nat n)).
  { induction n as [|n IH]; intros Hn.
    - symmetry. apply Z.div_small. change (16 ^ (64 - Z.of_nat 0)) with (2 ^ 256). lia.
    - unfold base16 in *. rewrite seq_S, map_app, fold_left_app, IH by lia. cbn [Nat.add map fold_left].
      rewrite mult_index_value by (auto; lia).
      replace (64 - Z.of_nat n) with (Z.succ (63 - Z.of_nat n)) by lia.
      replace (64 - Z.of_nat (S n)) with (63 - Z.of_nat n) by lia.
      assert (0 < 16 ^ (63 - Z.of_nat n)) by (apply Z.pow_pos_nonneg; lia).
      rewrite Z.pow_succ_r, (Z.mul_comm 16 (16 ^ _)), <- Z.div_div by lia.
      pose proof (Z.div_mod (val a / 16 ^ (63 - Z.of_nat n)) 16 ltac:(lia)). lia. }
  unfold window_digits. rewrite G by lia. apply Z.div_1_r.
Qed.

Lemma base16_zeros ds : existsb (fun d => negb (d =? 0)) ds = false -> base16 ds = 0.
Proof.
  unfold base16. enough (G : forall acc, existsb (fun d => negb (d =? 0)) ds = false -> acc = 0 ->
    fold_left (fun acc d => 16 * acc + d) ds acc = 0) by (intros H; now apply G).
  induction ds as [|d ds IH]; intros acc H E; [exact E|]. cbn [existsb] in H. apply orb_false_iff in H as [H1 H2].
  apply negb_false_iff, Z.eqb_eq in H1. cbn [fold_left]. apply IH; [exact H2|lia].
Qed.

Lemma window_nonzero a : int256 a -> val a <> 0 -> existsb (fun d => negb (d =? 0)) (window_digits a) = true.
Proof.
  intros Ha Hnz. destruct (existsb _ _) eqn:E; [reflexivity|]. exfalso. apply Hnz.
  rewrite <- (window_digits_value a Ha). now apply base16_zeros.
Qed.

Lemma base_index_zero a i j : base_index a i j = 0 -> forall m, (m < 4)%nat -> p256_get_bit a (31 + 64 * m - i + j) = 0.
Proof.
  unfold base_index. intros H m Hm.
  replace (31 + 64 * m - i + j)%nat with
    (nth m [31 - i + j; 95 - i + j; 159 - i + j; 223 - i + j] 0)%nat
    by (do 4 (destruct m as [|m]; [reflexivity|]); lia).
  destruct (get_bit_range a (31 - i + j)) as [E0|E0], (get_bit_range a (95 - i + j)) as [E1|E1],
    (get_bit_range a (159 - i + j)) as [E2|E2], (get_bit_range a (223 - i + j)) as [E3|E3];
    rewrite E0, E1, E2, E3 in H; try discriminate H.
  do 4 (destruct m as [|m]; [assumption|]). lia.
Qed.

Lemma base_nonzero a :
  int256 a -> val a <> 0 ->
  existsb (fun i => negb (base_index a i 0 =? 0) || negb (base_index a i 32 =? 0)) (seq 0 32) = true.
Proof.
  intros Ha Hnz. destruct (existsb _ _) eqn:E; [reflexivity|]. exfalso. apply Hnz.
  assert (Hz : forall i, (i < 32)%nat -> base_index a i 0 = 0 /\ base_index a i 32 = 0).
  { intros i Hi. destruct (Z.eqb_spec (base_index a i 0) 0) as [E0|E0], (Z.eqb_spec (base_index a i 32) 0) as [E1|E1];
      auto; exfalso; apply Bool.diff_true_false; rewrite <- E; symmetry; apply existsb_exists; exists i;
      (split; [apply in_seq; lia|]); rewrite ?(proj2 (Z.eqb_neq _ 0) E0), ?(proj2 (Z.eqb_neq _ 0) E1);
      cbn [negb orb]; rewrite ?orb_true_r; reflexivity. }
  pose proof (int256_bound a Ha) as B. apply Z.bits_inj'. intros q Hq. rewrite Z.bits_0.
  destruct (Z.lt_ge_cases q 256) as [Hlt|Hge]; [|apply (word_testbit_high 256); [exact B|lia]].
  set (k := Z.to_nat q). assert (Ek : Z.of_nat k = q) by lia.
  pose proof (Nat.div_mod k 64 ltac:(lia)) as D64. pose proof (Nat.mod_upper_bound k 64 ltac:(lia)) as M64.
  pose proof (Nat.div_mod (k mod 64) 32 ltac:(lia)) as D32. pose proof (Nat.mod_upper_bound (k mod 64) 32 ltac:(lia)) as M32.
  set (m := (k / 64)%nat) in *. set (h := (k mod 64 / 32)%nat) in *. set (l := (k mod 64 mod 32)%nat) in *.
  assert (Hb : p256_get_bit a k = 0).
  { destruct (Hz (31 - l)%nat ltac:(lia)) as [Z0 Z1]. assert (h = 0 \/ h = 1)%nat as [Eh|Eh] by lia.
    - rewrite <- (base_index_zero a (31 - l) 0 Z0 m ltac:(lia)). f_equal. lia.
    - rewrite <- (base_index_zero a (31 - l) 32 Z1 m ltac:(lia)). f_equal. lia. }
  rewrite get_bit_testbit, Ek in Hb by (auto; lia). destruct (Z.testbit (val a) q); [discriminate Hb|reflexivity].
Qed.

(** * The sum of two products *)

(** What [p256_points_mul_vartime] computes for [n1], [n2] and the point [Q]. *)
Definition points_sum (n1 n2 : list Z) (Q : point) : point :=
  if val n2 =? 0 then (if val n1 =? 0 then Inf else comb_mul n1)
  else if val n1 =? 0 then window_mul Q n2
  else padd (comb_mul n1) (window_mul Q n2).

Definition finite (P : point) : bool := match P with Inf => false | _ => true end.

(** The exceptional cases do not occur. *)
Definition points_regular (n1 n2 : list Z) (Q : point) : bool :=
  ((val n1 =? 0) || base_regular n1) && ((val n2 =? 0) || mult_regular Q n2) &&
  ((val n1 =? 0) || (val n2 =? 0) || finite (comb_mul n1) && finite (window_mul Q n2)).

Lemma points_mul_spec fuel n1 n2 in_x in_y :
  (2 <= fuel)%nat -> int256 n1 -> int256 n2 -> int256 in_x -> int256 in_y ->
  on_curve (val in_x) (val in_y) -> points_regular n1 n2 (Aff (val in_x) (val in_y)) = true ->
  exists x y, p256_points_mul_vartime fuel n1 n2 in_x in_y = Some (x, y) /\ int256 x /\ int256 y /\
    (val x, val y) = coords (points_sum n1 n2 (Aff (val in_x) (val in_y))).
Proof.
  intros Hf H1 H2 Hx Hy Hc Hr. set (Q := Aff (val in_x) (val in_y)) in *.
  unfold points_regular in Hr. rewrite !andb_true_iff in Hr. destruct Hr as [[Hr1 Hr2] Hr3].
  unfold p256_points_mul_vartime, points_sum. rewrite !p256_is_zero_spec by assumption.
  destruct (to_montgomery_spec in_x Hx) as (px & -> & _ & Fx).
  destruct (to_montgomery_spec in_y Hy) as (py & -> & _ & Fy).
  destruct p256_init_value as [Hi Vi].
  destruct (Z.eqb_spec (val n1) 0) as [Z1|Z1], (Z.eqb_spec (val n2) 0) as [Z2|Z2]; cbn [andb orb] in *.
  - exists p256_clear, p256_clear. unfold p256_clear. rewrite Vi. auto.
  - apply affine_out_spec. apply (scalar_mult_spec px py _ _ n2 Fx Fy Hc Hr2). now apply window_nonzero.
  - apply affine_out_spec. apply (scalar_base_mult_spec n1 Hr1). now apply base_nonzero.
  - destruct (scalar_base_mult_spec n1 Hr1 (base_nonzero n1 H1 Z1)) as [J1 V1].
    destruct (scalar_mult_spec px py _ _ n2 Fx Fy Hc Hr2 (window_nonzero n2 H2 Z2)) as [J2 V2].
    fold Q in J2, V2. apply andb_true_iff in Hr3 as [F1 F2].
    destruct (comb_mul n1) as [|x1 y1]; [discriminate F1|]. destruct (window_mul Q n2) as [|x2 y2]; [discriminate F2|].
    destruct (jrep_add_or_double fuel _ _ x1 y1 x2 y2 Hf J1 J2 V1 V2) as (J & -> & HJ).
    now apply affine_out_spec.
Qed.
