(* ===== verification/P256Table.v ===== *)
(** The table [kPrecomputed] of src/libmincrypt/p256_ec.c, checked against the group
    law: each power entry is the previous one doubled 32 times (in Jacobian
    coordinates over the integers), and each other entry is a sum of two entries. *)
From Stdlib Require Import ZArith List Lia Bool Morphisms Setoid.
From S2P Require Import Prelude Bignum P256 P256Field Primes Curve P256Point P256Mult.
Import ListNotations.

#[local] Opaque p b finv padd.

(** Jacobian doubling on integers. *)
Definition zdouble (t : Z * Z * Z) : Z * Z * Z :=
  let '(X, Y, W) := t in
  let ZZ := W * W mod p in
  let A := 3 * (X - ZZ) * (X + ZZ) mod p in
  let YY := Y * Y mod p in
  let XYY := X * YY mod p in
  let X3 := (A * A - 8 * XYY) mod p in
  (X3, (A * (4 * XYY - X3) - 8 * (YY * YY)) mod p, 2 * Y * W mod p).

Definition zrep3 (P : point) (t : Z * Z * Z) : Prop := let '(X, Y, W) := t in zrep P X Y W.

Lemma zrep_eqm P X Y W X' Y' W' :
  X ==[p] X' -> Y ==[p] Y' -> W ==[p] W' -> zrep P X Y W -> zrep P X' Y' W'.
Proof.
  intros HX HY HW H. destruct P as [|x y]; cbn [zrep] in *; [now rewrite <- HW|]. rewrite <- HX, <- HY, <- HW. exact H.
Qed.

Lemma zrep_zdouble P t : zrep3 P t -> valid P -> zrep3 (twice P) (zdouble t).
Proof.
  destruct t as [[X Y] W]. intros H HV. pose proof (zrep_double P X Y W H HV) as HD. revert HD.
  unfold double_y, double_x, zdouble. cbv beta iota.
  pose proof (eqm_mod p (W * W)) as E1. set (ZZ := W * W mod p) in *. clearbody ZZ. cbv zeta.
  pose proof (eqm_mod p (3 * (X - ZZ) * (X + ZZ))) as E2. set (A := (3 * (X - ZZ) * (X + ZZ)) mod p) in *. clearbody A.
  pose proof (eqm_mod p (Y * Y)) as E3. set (YY := Y * Y mod p) in *. clearbody YY.
  pose proof (eqm_mod p (X * YY)) as E4. set (XYY := X * YY mod p) in *. clearbody XYY.
  pose proof (eqm_mod p (A * A - 8 * XYY)) as E5. set (X3 := (A * A - 8 * XYY) mod p) in *. clearbody X3.
  rewrite E1 in E2. rewrite E3 in E4. rewrite E2, E4 in E5.
  apply zrep_eqm; rewrite ?E5, ?eqm_mod, ?E5, ?E4, ?E3, ?E2; eqm_ring.
Qed.

(** The triple stands for the affine point. *)
Definition same_point (t : Z * Z * Z) (P : point) : bool :=
  let '(X, Y, W) := t in
  let ZZ := W * W mod p in
  match P with
  | Inf => false
  | Aff x y => negb (is_zero W) && is_zero (X - x * ZZ) && is_zero (Y - y * (W * ZZ mod p))
  end.

Lemma eqm_of_zero x y : x - y ==[p] 0 -> x ==[p] y.
Proof. intros H. apply (eqm_lin1 p 1 (x - y) 0); [exact H|ring]. Qed.

Lemma same_point_peq P t S : zrep3 P t -> same_point t S = true -> peq P S.
Proof.
  destruct t as [[X Y] W], S as [|x y]; [discriminate|]. intros H HS. cbn [same_point] in HS.
  rewrite !andb_true_iff, negb_true_iff in HS. destruct HS as [[HW HX] HY].
  destruct (is_zero_spec W) as [|Hw]; [discriminate HW|].
  destruct (is_zero_spec (X - x * (W * W mod p))) as [EX|]; [|discriminate HX].
  destruct (is_zero_spec (Y - y * (W * (W * W mod p) mod p))) as [EY|]; [|discriminate HY].
  destruct P as [|x' y']; [contradiction|]. destruct H as (_ & HX' & HY').
  apply eqm_of_zero in EX, EY. rewrite !eqm_mod in EX. rewrite !eqm_mod in EY. split.
  - apply (eqm_cancel_l (W ^ 2)); [now apply pow_nonzero|]. transitivity X; [rewrite HX'; eqm_ring|].
    rewrite EX. eqm_ring.
  - apply (eqm_cancel_l (W ^ 3)); [now apply pow_nonzero|]. transitivity Y; [rewrite HY'; eqm_ring|].
    rewrite EY. eqm_ring.
Qed.

Lemma zrep_iter k : forall P t,
  zrep3 P t -> valid P -> zrep3 (Nat.iter k twice P) (Nat.iter k zdouble t) /\ valid (Nat.iter k twice P).
Proof.
  induction k as [|k IH]; intros P t H HV; cbn [Nat.iter]; [auto|].
  destruct (IH P t H HV) as [H1 H2]. split; [now apply zrep_zdouble|now apply valid_padd].
Qed.

(** A point of the curve is the sum of two others: the chord, without division. *)
Definition chord_check (A B C : point) : bool :=
  match A, B, C with
  | Aff x1 y1, Aff x2 y2, Aff x3 y3 =>
      let dx := x2 - x1 in let dy := y2 - y1 in
      negb (is_zero dx) && is_zero ((x1 + x2 + x3) * (dx * dx mod p) - dy * dy)
      && is_zero ((y3 + y1) * dx - dy * (x1 - x3))
  | _, _, _ => false
  end.

Lemma chord_check_padd A B C : chord_check A B C = true -> peq (padd A B) C.
Proof.
  destruct A as [|x1 y1], B as [|x2 y2], C as [|x3 y3]; try discriminate. intros H. cbn [chord_check] in H.
  rewrite !andb_true_iff, negb_true_iff in H. destruct H as [[Hd HX] HY].
  Transparent padd. cbn [padd]. Opaque padd.
  destruct (is_zero_spec (x2 - x1)) as [|Hne]; [discriminate Hd|].
  destruct (is_zero_spec ((x1 + x2 + x3) * ((x2 - x1) * (x2 - x1) mod p) - (y2 - y1) * (y2 - y1))) as [EX|]; [|discriminate HX].
  destruct (is_zero_spec ((y3 + y1) * (x2 - x1) - (y2 - y1) * (x1 - x3))) as [EY|]; [|discriminate HY].
  apply eqm_of_zero in EX, EY. rewrite eqm_mod in EX.
  pose proof (finv_spec _ Hne) as Hi. set (i := finv (x2 - x1)) in *. set (l := (y2 - y1) * i).
  assert (Hl : l * (x2 - x1) ==[p] y2 - y1).
  { unfold l. transitivity ((y2 - y1) * ((x2 - x1) * i)); [eqm_ring|]. rewrite Hi. eqm_ring. }
  assert (Ex : l * l - x1 - x2 ==[p] x3).
  { apply (eqm_cancel_l ((x2 - x1) * (x2 - x1))); [now apply eqm_nonzero_mul|].
    transitivity ((l * (x2 - x1)) * (l * (x2 - x1)) - (x1 + x2) * ((x2 - x1) * (x2 - x1))); [eqm_ring|].
    rewrite Hl, <- EX. eqm_ring. }
  unfold third. split; [now rewrite eqm_mod|]. rewrite eqm_mod, eqm_mod, Ex.
  apply (eqm_cancel_l (x2 - x1)); [exact Hne|].
  transitivity ((l * (x2 - x1)) * (x1 - x3) - y1 * (x2 - x1)); [eqm_ring|]. rewrite Hl, <- EY. eqm_ring.
Qed.

(** The entry of the two tables for 2^(32 j) times the base point. *)
Definition half_table (half : nat) : ptable := base_table (30 * NLIMBS * half).
Definition entry_of (t0 t1 : ptable) (j : nat) : point := at_ (if Nat.even j then t0 else t1) (2 ^ (j / 2)).
Definition power_entry (j : nat) : point := entry_of (half_table 0) (half_table 1) j.

Definition zpoint (P : point) : Z * Z * Z := match P with Inf => (0, 0, 0) | Aff x y => (x, y, 1) end.

(** The checks, as conditions on one entry. *)
Definition doubled_entry (t0 t1 : ptable) (j : nat) : bool :=
  same_point (Nat.iter 32 zdouble (zpoint (entry_of t0 t1 j))) (entry_of t0 t1 (S j)).

Definition high_bit (i : nat) : nat := 2 ^ Nat.log2 i.

Definition sum_entry (t : ptable) (i : nat) : bool :=
  (i =? high_bit i)%nat || chord_check (at_ t (i - high_bit i)) (at_ t (high_bit i)) (at_ t i).

Lemma doubled_entries : forallb (doubled_entry (half_table 0) (half_table 1)) (seq 0 7) = true.
Proof. vm_compute. reflexivity. Qed.

Lemma sum_entries :
  forallb (sum_entry (half_table 0)) (seq 1 15) && forallb (sum_entry (half_table 1)) (seq 1 15) = true.
Proof. vm_compute. reflexivity. Qed.

Lemma doubled_entry_ok j : (j < 7)%nat -> doubled_entry (half_table 0) (half_table 1) j = true.
Proof.
  intros Hj. pose proof doubled_entries as H. rewrite forallb_forall in H. apply H, in_seq. lia.
Qed.

Lemma sum_entry_ok half i : (half <= 1)%nat -> (1 <= i < 16)%nat -> sum_entry (half_table half) i = true.
Proof.
  intros Hh Hi. pose proof sum_entries as H. apply andb_true_iff in H as [H0 H1].
  rewrite forallb_forall in H0, H1. assert (half = 0 \/ half = 1)%nat as [-> | ->] by lia;
    [apply H0, in_seq|apply H1, in_seq]; lia.
Qed.
