(* ===== verification/P256Multiples.v ===== *)
(** What the scalar multiplications of src/libmincrypt/p256_ec.c compute: multiples
    of points.

    [lin G Q u v S] says that [S] is [u G + v Q], put together by additions of the
    group law of [Curve].  The table [kPrecomputed] holds the multiples of the base
    point that its comment lists, and the windowed and the comb algorithm of
    [P256Mult] spell the scalar, so the results are the products. *)
From Stdlib Require Import ZArith List Lia Bool Morphisms Setoid.
From S2P Require Import Prelude Bignum P256 P256Field Primes Curve P256Point P256Mult P256Table.
Import ListNotations.

#[local] Opaque p b finv felem_mul felem_square felem_sum felem_diff felem_scalar_3 felem_scalar_4
  felem_scalar_8 felem_inv padd point_double point_add point_add_mixed addable.

(** * Linear combinations of two points *)

Inductive lin (G Q : point) : Z -> Z -> point -> Prop :=
| lin_zero : lin G Q 0 0 Inf
| lin_left : lin G Q 1 0 G
| lin_right : lin G Q 0 1 Q
| lin_add u v u' v' A B : lin G Q u v A -> lin G Q u' v' B -> lin G Q (u + u') (v + v') (padd A B)
| lin_peq u v A B : lin G Q u v A -> peq A B -> lin G Q u v B.

Lemma lin_sum G Q u v u' v' A B x y :
  lin G Q u v A -> lin G Q u' v' B -> x = u + u' -> y = v + v' -> lin G Q x y (padd A B).
Proof. intros HA HB -> ->. now apply lin_add. Qed.

Lemma lin_twice G Q u v A : lin G Q u v A -> lin G Q (2 * u) (2 * v) (twice A).
Proof. intros H. apply (lin_sum G Q u v u v); auto; lia. Qed.

Lemma lin_valid G Q u v A : valid G -> valid Q -> lin G Q u v A -> valid A.
Proof.
  intros HG HQ H. induction H; cbn [valid]; auto using valid_padd.
  destruct A as [|x y], B as [|x' y']; cbn [peq valid] in *; try tauto.
  match goal with HE : _ /\ _ |- _ => destruct HE as [Ex Ey] end. now rewrite <- Ex, <- Ey.
Qed.

(** * The windowed algorithm *)

Ltac lin_chain :=
  lazymatch goal with
  | |- lin _ _ _ _ (padd _ _) => eapply lin_sum; [lin_chain|lin_chain|reflexivity|reflexivity]
  | |- lin _ _ _ _ Inf => apply lin_zero
  | |- lin _ _ _ _ _ => apply lin_right
  end.

Lemma lin_multiples G Q i : (i < 16)%nat -> lin G Q 0 (Z.of_nat i) (at_ (multiples Q) i).
Proof.
  intros Hi. do 16 (destruct i as [|i]; [cbv -[padd]; try apply lin_zero; try apply lin_right; lin_chain|]).
  lia.
Qed.

Lemma lin_window_add G Q v A d :
  lin G Q 0 v A -> 0 <= d < 16 -> lin G Q 0 (16 * v + d) (window_add (multiples Q) A d).
Proof.
  intros HA Hd. unfold window_add. do 4 apply lin_twice in HA.
  destruct (Z.eqb_spec d 0) as [->|Hnz]; [now replace (16 * v + 0) with (2 * (2 * (2 * (2 * v)))) by lia|].
  eapply lin_sum; [exact HA|apply (lin_multiples G Q (Z.to_nat d)); lia|lia|lia].
Qed.

Lemma lin_window G Q ds : forall v A,
  lin G Q 0 v A -> Forall (fun d => 0 <= d < 16) ds ->
  lin G Q 0 (fold_left (fun acc d => 16 * acc + d) ds v) (fold_left (window_add (multiples Q)) ds A).
Proof.
  induction ds as [|d ds IH]; intros v A HA Hds; cbn [fold_left]; [exact HA|].
  inversion Hds; subst. apply IH; [now apply lin_window_add|assumption].
Qed.

Lemma lin_window_mul G Q scalar : int256 scalar -> lin G Q 0 (val scalar) (window_mul Q scalar).
Proof.
  intros Hs. rewrite <- (window_digits_value scalar Hs). apply lin_window; [apply lin_zero|].
  apply Forall_map, Forall_forall. intros k _. apply mult_index_range.
Qed.

(** * The table of multiples of the base point *)

Lemma lin_iter G Q u v A k : lin G Q u v A -> lin G Q (2 ^ Z.of_nat k * u) (2 ^ Z.of_nat k * v) (Nat.iter k twice A).
Proof.
  intros H. induction k as [|k IH]; cbn [Nat.iter].
  - change (2 ^ Z.of_nat 0) with 1. now rewrite !Z.mul_1_l.
  - apply lin_twice in IH. rewrite Nat2Z.inj_succ, Z.pow_succ_r by lia. now rewrite <- !Z.mul_assoc.
Qed.

Definition base_affine : point := Aff base_x base_y.

Lemma power_entry_0 : power_entry 0 = base_affine.
Proof. vm_compute. reflexivity. Qed.

Lemma half_table_entry half i :
  (half <= 1)%nat -> (1 <= i < 16)%nat -> exists x y, at_ (half_table half) i = Aff x y /\ on_curve x y.
Proof.
  intros Hh Hi. destruct (base_entry half (i - 1) Hh ltac:(lia)) as (_ & _ & Hc).
  do 2 eexists. split; [|exact Hc]. unfold half_table, base_table, at_.
  replace i with (S (i - 1)) at 1 by lia. cbn [nth].
  set (f := fun k => (Aff (coord (slot _ (2 * k))) (coord (slot _ (2 * k + 1))), true)).
  rewrite (nth_map_seq f) by lia. reflexivity.
Qed.

Lemma power_entry_half j : power_entry j = at_ (half_table (j mod 2)) (2 ^ (j / 2)).
Proof.
  unfold power_entry, entry_of. destruct (Nat.even j) eqn:E.
  - apply Nat.even_spec in E as [k ->]. now rewrite Nat.mul_comm, Nat.Div0.mod_mul.
  - assert (Ho : Nat.odd j = true) by (unfold Nat.odd; now rewrite E). apply Nat.odd_spec in Ho as [k ->].
    now rewrite Nat.add_comm, Nat.mul_comm, Nat.Div0.mod_add.
Qed.

Lemma power_entry_valid j : (j < 8)%nat -> exists x y, power_entry j = Aff x y /\ on_curve x y.
Proof.
  intros Hj. rewrite power_entry_half. apply half_table_entry; [pose proof (Nat.mod_upper_bound j 2); lia|].
  do 8 (destruct j as [|j]; [split; cbv; lia|]). lia.
Qed.

Lemma lin_doubled G Q u k x y S :
  lin G Q u 0 (Aff x y) -> on_curve x y -> same_point (Nat.iter k zdouble (x, y, 1)) S = true ->
  lin G Q (2 ^ Z.of_nat k * u) 0 S.
Proof.
  intros HA Hc H.
  assert (H0 : zrep3 (Aff x y) (x, y, 1)) by (split; [exact one_nonzero|split; eqm_ring]).
  destruct (zrep_iter k _ _ H0 Hc) as [H1 _].
  eapply lin_peq; [|exact (same_point_peq _ _ _ H1 H)]. apply (lin_iter _ _ _ _ _ k) in HA.
  now rewrite Z.mul_0_r in HA.
Qed.

Lemma lin_power_entry Q j :
  (j < 8)%nat -> lin base_affine Q (2 ^ (32 * Z.of_nat j)) 0 (power_entry j).
Proof.
  induction j as [|j IH]; intros Hj; [rewrite power_entry_0; apply lin_left|].
  specialize (IH ltac:(lia)). pose proof (doubled_entry_ok j ltac:(lia)) as H. unfold doubled_entry in H.
  fold (power_entry j) in H. fold (power_entry (S j)) in H.
  destruct (power_entry_valid j ltac:(lia)) as (x & y & E & Hc). rewrite E in H, IH.
  replace (32 * Z.of_nat (S j)) with (Z.of_nat 32 + 32 * Z.of_nat j) by lia.
  rewrite Z.pow_add_r by lia. exact (lin_doubled _ _ _ 32 x y _ IH Hc H).
Qed.

(** The multiple of the base point an entry stands for, as the comment of the table
    gives it: bit [m] of the index counts 2^(64 m), or 2^(64 m + 32) in the second
    half. *)
Definition weight (i : Z) : Z :=
  Z.b2z (Z.testbit i 0) + 2 ^ 64 * Z.b2z (Z.testbit i 1) + 2 ^ 128 * Z.b2z (Z.testbit i 2)
  + 2 ^ 192 * Z.b2z (Z.testbit i 3).

Lemma lin_table_entry Q half i :
  (half <= 1)%nat -> (i < 16)%nat ->
  lin base_affine Q (2 ^ (32 * Z.of_nat half) * weight (Z.of_nat i)) 0 (at_ (half_table half) i).
Proof.
  intros Hh. induction i as [i IH] using (well_founded_induction lt_wf). intros Hi.
  destruct (Nat.eq_dec i 0) as [->|Hnz].
  { change (at_ (half_table half) 0) with Inf. change (weight (Z.of_nat 0)) with 0. rewrite Z.mul_0_r. apply lin_zero. }
  set (hi := high_bit i).
  assert (Hw : (1 <= hi <= i /\ Nat.log2 i < 4)%nat /\ weight (Z.of_nat hi) = 2 ^ (64 * Z.of_nat (Nat.log2 i)) /\
    weight (Z.of_nat i) = weight (Z.of_nat (i - hi)) + weight (Z.of_nat hi)).
  { clear IH. unfold hi, high_bit. do 16 (destruct i as [|i]; [try contradiction; (split; [cbv; lia|split; reflexivity])|]). lia. }
  destruct Hw as ([Hle Hlog] & Whi & Wi).
  assert (Hhi : lin base_affine Q (2 ^ (32 * Z.of_nat half) * weight (Z.of_nat hi)) 0 (at_ (half_table half) hi)).
  { rewrite Whi, <- Z.pow_add_r by lia. unfold hi, high_bit.
    pose proof (lin_power_entry Q (2 * Nat.log2 i + half) ltac:(lia)) as H. rewrite power_entry_half in H.
    replace ((2 * Nat.log2 i + half) mod 2)%nat with half in H
      by (rewrite Nat.add_comm, Nat.mul_comm, Nat.Div0.mod_add, Nat.mod_small; lia).
    replace ((2 * Nat.log2 i + half) / 2)%nat with (Nat.log2 i) in H
      by (rewrite Nat.add_comm, Nat.mul_comm, Nat.div_add, Nat.div_small; lia).
    now replace (32 * Z.of_nat half + 64 * Z.of_nat (Nat.log2 i)) with (32 * Z.of_nat (2 * Nat.log2 i + half)) by lia. }
  pose proof (sum_entry_ok half i Hh ltac:(lia)) as H. unfold sum_entry in H. fold hi in H.
  destruct (Nat.eqb_spec i hi) as [E|Hne]; [now rewrite E|]. cbn [orb] in H.
  apply chord_check_padd in H. eapply lin_peq; [|exact H]. rewrite Wi, Z.mul_add_distr_l.
  apply (lin_add _ _ _ 0 _ 0); [apply IH; lia|exact Hhi].
Qed.

(** * The comb *)

Lemma lin_comb_add Q half v A d :
  (half <= 1)%nat -> 0 <= d < 16 -> lin base_affine Q v 0 A ->
  lin base_affine Q (v + 2 ^ (32 * Z.of_nat half) * weight d) 0 (comb_add (half_table half) A d).
Proof.
  intros Hh Hd HA. unfold comb_add. destruct (Z.eqb_spec d 0) as [->|Hnz].
  - change (weight 0) with 0. now rewrite Z.mul_0_r, Z.add_0_r.
  - pose proof (lin_table_entry Q half (Z.to_nat d) Hh ltac:(lia)) as H. rewrite Z2Nat.id in H by lia.
    now apply (lin_add _ _ _ 0 _ 0).
Qed.

(** The number the digits of the comb spell. *)
Definition comb_value (ds : list (Z * Z)) : Z :=
  fold_left (fun v d => 2 * v + weight (fst d) + 2 ^ 32 * weight (snd d)) ds 0.

Lemma lin_comb Q ds :
  Forall (fun d => 0 <= fst d < 16 /\ 0 <= snd d < 16) ds ->
  lin base_affine Q (comb_value ds) 0 (fold_left comb_round ds Inf).
Proof.
  unfold comb_value. enough (G : forall v A, Forall (fun d => 0 <= fst d < 16 /\ 0 <= snd d < 16) ds ->
    lin base_affine Q v 0 A ->
    lin base_affine Q (fold_left (fun v d => 2 * v + weight (fst d) + 2 ^ 32 * weight (snd d)) ds v) 0
      (fold_left comb_round ds A)) by (intros Hds; apply G; [exact Hds|apply lin_zero]).
  induction ds as [|d ds IH]; intros v A Hds HA; cbn [fold_left]; [exact HA|].
  inversion Hds as [|? ? [H1 H2] Hds']; subst. apply IH; [exact Hds'|].
  apply lin_twice in HA. rewrite Z.mul_0_r in HA.
  apply (lin_comb_add Q 0 _ _ (fst d) ltac:(lia) H1) in HA.
  apply (lin_comb_add Q 1 _ _ (snd d) ltac:(lia) H2) in HA.
  change (2 ^ (32 * Z.of_nat 0)) with 1 in HA. rewrite Z.mul_1_l in HA. exact HA.
Qed.

(** [n] bits from position [s] on, and one more below. *)
Definition bits_at (a s n : Z) : Z := (a / 2 ^ s) mod 2 ^ n.

Lemma bits_at_more a s n :
  1 <= s -> 0 <= n -> bits_at a (s - 1) (n + 1) = 2 * bits_at a s n + Z.b2z (Z.testbit a (s - 1)).
Proof.
  intros Hs Hn. unfold bits_at. assert (P1 : 0 < 2 ^ (s - 1)) by (apply Z.pow_pos_nonneg; lia).
  assert (P2 : 0 < 2 ^ n) by (apply Z.pow_pos_nonneg; lia).
  replace (2 ^ s) with (2 ^ (s - 1) * 2) by (rewrite Z.mul_comm, <- Z.pow_succ_r by lia; f_equal; lia).
  rewrite <- Z.div_div, (Z.testbit_eqb a (s - 1)) by lia. set (z := a / 2 ^ (s - 1)).
  rewrite Z.pow_add_r, Z.pow_1_r, (Z.mul_comm (2 ^ n) 2), Z.rem_mul_r by lia.
  pose proof (Z.mod_pos_bound z 2 ltac:(lia)). destruct (Z.eqb_spec (z mod 2) 1); cbn [Z.b2z]; lia.
Qed.

Lemma weight_base_index a i j :
  int256 a -> (i < 32)%nat -> (j = 0 \/ j = 32)%nat ->
  let bit m := Z.b2z (Z.testbit (val a) (64 * m + 31 - Z.of_nat i + Z.of_nat j)) in
  weight (base_index a i j) = bit 0 + 2 ^ 64 * bit 1 + 2 ^ 128 * bit 2 + 2 ^ 192 * bit 3.
Proof.
  intros Ha Hi Hj bit. unfold base_index. rewrite !get_bit_testbit by (auto; lia). unfold bit.
  replace (Z.of_nat (31 - i + j)) with (64 * 0 + 31 - Z.of_nat i + Z.of_nat j) by lia.
  replace (Z.of_nat (95 - i + j)) with (64 * 1 + 31 - Z.of_nat i + Z.of_nat j) by lia.
  replace (Z.of_nat (159 - i + j)) with (64 * 2 + 31 - Z.of_nat i + Z.of_nat j) by lia.
  replace (Z.of_nat (223 - i + j)) with (64 * 3 + 31 - Z.of_nat i + Z.of_nat j) by lia.
  destruct (Z.testbit _ (64 * 0 + _ - _ + _)), (Z.testbit _ (64 * 1 + _ - _ + _)), (Z.testbit _ (64 * 2 + _ - _ + _)),
    (Z.testbit _ (64 * 3 + _ - _ + _)); reflexivity.
Qed.

(** What [n] rounds of the comb have collected: the top [n] bits of each of the
    eight 32-bit words. *)
Definition collected (a n : Z) : Z :=
  let words h := bits_at a (h - n) n + 2 ^ 64 * bits_at a (64 + h - n) n + 2 ^ 128 * bits_at a (128 + h - n) n
                 + 2 ^ 192 * bits_at a (192 + h - n) n in
  words 32 + 2 ^ 32 * words 64.

Lemma comb_value_rounds a n :
  int256 a -> (n <= 32)%nat -> comb_value (map (comb_digits a) (seq 0 n)) = collected (val a) (Z.of_nat n).
Proof.
  intros Ha. induction n as [|n IH]; intros Hn.
  - unfold collected, bits_at. change (2 ^ Z.of_nat 0) with 1. now rewrite !Z.mod_1_r.
  - unfold comb_value in *. rewrite seq_S, map_app, fold_left_app, IH by lia. cbn [Nat.add map fold_left comb_digits fst snd].
    rewrite !weight_base_index by (auto; lia). unfold collected. cbv zeta beta. rewrite (Nat2Z.inj_succ n).
    set (k := Z.of_nat n) in *. assert (Hk : 0 <= k < 32) by lia.
    assert (E : forall h, 32 <= h -> bits_at (val a) (h - Z.succ k) (Z.succ k)
      = 2 * bits_at (val a) (h - k) k + Z.b2z (Z.testbit (val a) (h - k - 1))).
    { intros h Hh. replace (h - Z.succ k) with (h - k - 1) by lia. apply bits_at_more; lia. }
    rewrite !E by lia. change (Z.of_nat 0) with 0. change (Z.of_nat 32) with 32.
    replace (64 * 0 + 31 - k + 0) with (32 - k - 1) by lia. replace (64 * 1 + 31 - k + 0) with (64 + 32 - k - 1) by lia.
    replace (64 * 2 + 31 - k + 0) with (128 + 32 - k - 1) by lia. replace (64 * 3 + 31 - k + 0) with (192 + 32 - k - 1) by lia.
    replace (64 * 0 + 31 - k + 32) with (64 - k - 1) by lia. replace (64 * 1 + 31 - k + 32) with (64 + 64 - k - 1) by lia.
    replace (64 * 2 + 31 - k + 32) with (128 + 64 - k - 1) by lia. replace (64 * 3 + 31 - k + 32) with (192 + 64 - k - 1) by lia.
    ring.
Qed.

Lemma split32 a k : 0 <= k -> a / 2 ^ k = bits_at a k 32 + 2 ^ 32 * (a / 2 ^ (k + 32)).
Proof.
  intros Hk. unfold bits_at. rewrite Z.pow_add_r, <- Z.div_div by (try apply Z.pow_pos_nonneg; try apply Z.pow_nonzero; lia).
  pose proof (Z.div_mod (a / 2 ^ k) (2 ^ 32) ltac:(lia)). lia.
Qed.

Lemma collected_all a : 0 <= a < 2 ^ 256 -> collected a 32 = a.
Proof.
  intros Ha. unfold collected. cbv zeta beta.
  assert (E : a = a / 2 ^ 0) by now rewrite Z.pow_0_r, Z.div_1_r. rewrite E at 9.
  rewrite (split32 a 0), (split32 a (0 + 32)), (split32 a (0 + 32 + 32)), (split32 a (0 + 32 + 32 + 32)),
    (split32 a (0 + 32 + 32 + 32 + 32)), (split32 a (0 + 32 + 32 + 32 + 32 + 32)),
    (split32 a (0 + 32 + 32 + 32 + 32 + 32 + 32)), (split32 a (0 + 32 + 32 + 32 + 32 + 32 + 32 + 32)) by lia.
  cbn [Z.add Z.sub Pos.add Pos.add_carry Pos.succ Z.opp Z.pos_sub Pos.sub Pos.sub_mask Pos.pred_double Pos.double_mask
       Pos.succ_double_mask Pos.double_pred_mask Z.double Z.succ_double Z.pred_double Pos.pred_mask].
  rewrite (Z.div_small a (2 ^ 256)) by lia. ring.
Qed.

Lemma lin_comb_mul Q scalar : int256 scalar -> lin base_affine Q (val scalar) 0 (comb_mul scalar).
Proof.
  intros Hs. rewrite <- (collected_all (val scalar)) by (now apply int256_bound).
  change 32 with (Z.of_nat 32). rewrite <- comb_value_rounds by (auto; lia). apply lin_comb.
  apply Forall_map, Forall_forall. intros i _. split; apply base_index_range.
Qed.

(** Both products and their sum. *)
Lemma lin_points_sum Q n1 n2 :
  int256 n1 -> int256 n2 -> lin base_affine Q (val n1) (val n2) (points_sum n1 n2 Q).
Proof.
  intros H1 H2. pose proof (lin_comb_mul Q n1 H1) as L1. pose proof (lin_window_mul base_affine Q n2 H2) as L2.
  unfold points_sum. destruct (Z.eqb_spec (val n1) 0) as [E1|E1], (Z.eqb_spec (val n2) 0) as [E2|E2];
    rewrite ?E1, ?E2 in *; auto using lin_zero. eapply lin_sum; [exact L1|exact L2|lia|lia].
Qed.

(** * Theorems *)

(** The table [kPrecomputed] holds what its comment says: the entry of index
    [i] of the first (second) half is, in Montgomery form, the affine point
    [weight i] times (2^32 times [weight i] times) the base point, where bit [m] of
    the index contributes 2^(64 m). *)
Theorem kPrecomputed_multiples half i :
  (half <= 1)%nat -> (1 <= i < 16)%nat ->
  let t := skipn (30 * NLIMBS * half) kPrecomputed in
  exists x y, frep (slot t (2 * (i - 1))) x /\ frep (slot t (2 * (i - 1) + 1)) y /\ on_curve x y /\
    lin base_affine Inf (2 ^ (32 * Z.of_nat half) * weight (Z.of_nat i)) 0 (Aff x y).
Proof.
  intros Hh Hi t. destruct (base_entry half (i - 1) Hh ltac:(lia)) as (Hx & Hy & Hc).
  do 2 eexists. split; [exact Hx|]. split; [exact Hy|]. split; [exact Hc|].
  pose proof (lin_table_entry Inf half i Hh ltac:(lia)) as H. unfold half_table, base_table, at_ in H.
  replace i with (S (i - 1)) in H at 2 by lia. cbn [nth] in H.
  set (f := fun k => (Aff (coord (slot _ (2 * k))) (coord (slot _ (2 * k + 1))), true)) in H.
  rewrite (nth_map_seq f) in H by lia. exact H.
Qed.

Lemma kPrecomputed_multiples_witness :
  exists x y, frep (slot (skipn (30 * NLIMBS * 1) kPrecomputed) (2 * (15 - 1))) x /\
    frep (slot (skipn (30 * NLIMBS * 1) kPrecomputed) (2 * (15 - 1) + 1)) y /\ on_curve x y /\
    lin base_affine Inf (2 ^ (32 * Z.of_nat 1) * weight (Z.of_nat 15)) 0 (Aff x y).
Proof. apply (kPrecomputed_multiples 1 15); lia. Defined.

(** [scalar_mult] multiplies: from the Montgomery form of a point of the curve
    and a scalar that is not zero it computes a Jacobian representation of the
    scalar times the point, provided that no addition of the loop meets two equal
    points ([mult_regular], a decidable condition on the scalar and the point). *)
Theorem scalar_mult_correct fx fy x y scalar :
  frep fx x -> frep fy y -> on_curve x y -> int256 scalar -> val scalar <> 0 ->
  mult_regular (Aff x y) scalar = true ->
  exists S, jrep (scalar_mult fx fy scalar) S /\ valid S /\ lin Inf (Aff x y) 0 (val scalar) S.
Proof.
  intros Hx Hy Hc Hs Hnz Hr. exists (window_mul (Aff x y) scalar).
  destruct (scalar_mult_spec fx fy x y scalar Hx Hy Hc Hr (window_nonzero scalar Hs Hnz)) as [H1 H2].
  split; [exact H1|]. split; [exact H2|]. now apply lin_window_mul.
Qed.

#[local] Transparent p b finv padd addable.

Definition digit (d : Z) : list Z := [d; 0; 0; 0; 0; 0; 0; 0].

Lemma digit_int256 d : word 32 d -> int256 (digit d) /\ val (digit d) = d.
Proof.
  intros Hd. split; [split; [|reflexivity]|unfold digit, val; cbn [eval]; lia].
  constructor; [exact Hd|]. repeat constructor; discriminate.
Qed.

Lemma scalar_mult_correct_witness :
  exists S, jrep (scalar_mult (slot kPrecomputed 0) (slot kPrecomputed 1) (digit 2)) S /\ valid S /\
    lin Inf (Aff base_x base_y) 0 (val (digit 2)) S.
Proof.
  apply (scalar_mult_correct (slot kPrecomputed 0) (slot kPrecomputed 1) base_x base_y (digit 2));
    [apply base_coordinates|apply base_coordinates|exact base_on_curve|apply digit_int256; split; [lia|reflexivity]|discriminate|].
  lazy. reflexivity.
Defined.

(** [p256_base_point_mul] returns the affine coordinates, as 256-bit integers
    below p, of the scalar times the base point, for every scalar that is not zero
    and for which no addition of the comb meets two equal points. *)
Theorem p256_base_point_mul_correct n :
  int256 n -> val n <> 0 -> base_regular n = true ->
  exists x y S, p256_base_point_mul n = Some (x, y) /\ int256 x /\ int256 y /\
    lin base_affine Inf (val n) 0 S /\ valid S /\ (val x, val y) = coords S.
Proof.
  intros Hn Hnz Hr. destruct (scalar_base_mult_spec n Hr (base_nonzero n Hn Hnz)) as [HJ HV].
  destruct (affine_out_spec _ _ HJ) as (x & y & E & Hx & Hy & EC).
  exists x, y, (comb_mul n). split; [exact E|]. split; [exact Hx|]. split; [exact Hy|].
  split; [now apply lin_comb_mul|]. split; [exact HV|exact EC].
Qed.

Lemma p256_base_point_mul_correct_witness :
  exists x y S, p256_base_point_mul (digit 1) = Some (x, y) /\ int256 x /\ int256 y /\
    lin base_affine Inf (val (digit 1)) 0 S /\ valid S /\ (val x, val y) = coords S.
Proof.
  apply (p256_base_point_mul_correct (digit 1)); [apply digit_int256; split; [lia|reflexivity]|discriminate|].
  lazy. reflexivity.
Defined.

(** C10: [p256_points_mul_vartime] returns the affine coordinates of [n1] times the
    base point plus [n2] times the given point of the curve, scalars zero, equal
    and opposite products included ((0, 0) stands for infinity), as long as the two
    multiplications themselves are regular and give finite points. *)
Theorem p256_points_mul_correct fuel n1 n2 in_x in_y :
  (2 <= fuel)%nat -> int256 n1 -> int256 n2 -> int256 in_x -> int256 in_y ->
  on_curve (val in_x) (val in_y) -> points_regular n1 n2 (Aff (val in_x) (val in_y)) = true ->
  exists x y S, p256_points_mul_vartime fuel n1 n2 in_x in_y = Some (x, y) /\ int256 x /\ int256 y /\
    lin base_affine (Aff (val in_x) (val in_y)) (val n1) (val n2) S /\ (val x, val y) = coords S.
Proof.
  intros Hf H1 H2 Hx Hy Hc Hr.
  destruct (points_mul_spec fuel n1 n2 in_x in_y Hf H1 H2 Hx Hy Hc Hr) as (x & y & E & Vx & Vy & EC).
  exists x, y, (points_sum n1 n2 (Aff (val in_x) (val in_y))). split; [exact E|]. split; [exact Vx|].
  split; [exact Vy|]. split; [now apply lin_points_sum|exact EC].
Qed.

(** The base point as 256-bit integers. *)
Definition Gx : list Z := [0xd898c296; 0xf4a13945; 0x2deb33a0; 0x77037d81; 0x63a440f2; 0xf8bce6e5; 0xe12c4247; 0x6b17d1f2].
Definition Gy : list Z := [0x37bf51f5; 0xcbb64068; 0x6b315ece; 0x2bce3357; 0x7c0f9e16; 0x8ee7eb4a; 0xfe1a7f9b; 0x4fe342e2].

Lemma G_digits : int256 Gx /\ int256 Gy /\ on_curve (val Gx) (val Gy).
Proof. split; [|split; [|exact base_on_curve]]; (split; [repeat constructor; discriminate|reflexivity]). Qed.

Lemma p256_points_mul_correct_witness :
  exists x y S, p256_points_mul_vartime 2 (digit 1) (digit 2) Gx Gy = Some (x, y) /\ int256 x /\ int256 y /\
    lin base_affine (Aff (val Gx) (val Gy)) (val (digit 1)) (val (digit 2)) S /\ (val x, val y) = coords S.
Proof.
  apply (p256_points_mul_correct 2 (digit 1) (digit 2) Gx Gy); try apply G_digits;
    [lia|apply digit_int256; split; [lia|reflexivity]|apply digit_int256; split; [lia|reflexivity]|].
  lazy. reflexivity.
Defined.
