(* ===== verification/Ecdsa.v ===== *)
(** ECDSA verification over P-256: src/libmincrypt/p256_ecdsa.c, on top of the
    integers of [P256] and the points of [P256Point].  [fuel] bounds the inversion
    modulo the group order (1022 steps are enough) and the reduction loop inside the
    addition of points (2 are enough); [None] would be a loop that did not end. *)
From Stdlib Require Import ZArith Znumtheory List Lia Bool Morphisms Setoid.
From S2P Require Import Prelude Bignum P256 P256Field Primes Curve P256Point P256Mult P256Multiples.
Import ListNotations.

Definition p256_ecdsa_verify (fuel : nat) (key_x key_y message r s : list Z) : option bool :=
  match p256_is_valid_point key_x key_y with
  | None => None
  | Some false => Some false
  | Some true =>
      let u := p256_mod SECP256r1_n r in
      let v := p256_mod SECP256r1_n s in
      if p256_is_zero u || p256_is_zero v then Some false
      else
        match p256_modinv_vartime fuel SECP256r1_n s with
        | None => None
        | Some v =>
            match p256_modmul SECP256r1_n message 0 v with
            | None => None
            | Some u =>
                match p256_modmul SECP256r1_n r 0 v with
                | None => None
                | Some v =>
                    match p256_points_mul_vartime fuel u v key_x key_y with
                    | None => None
                    | Some (u, _) => Some (p256_cmp r (p256_mod SECP256r1_n u) =? 0)
                    end
                end
            end
        end
  end.

#[local] Opaque p b finv.

Lemma n_big : 2 ^ 256 <= 2 * n /\ n < 2 ^ 256 /\ 1 < n.
Proof. repeat split; vm_compute; congruence. Qed.

Lemma mod_n_spec a : int256 a -> int256 (p256_mod SECP256r1_n a) /\ val (p256_mod SECP256r1_n a) = val a mod n.
Proof. intros Ha. apply final_sub_spec; [apply good_n|apply n_big|exact Ha]. Qed.

Lemma mod_n_zero a : int256 a -> p256_is_zero (p256_mod SECP256r1_n a) = (val a mod n =? 0).
Proof. intros Ha. destruct (mod_n_spec a Ha) as [H E]. now rewrite p256_is_zero_spec, E. Qed.

Lemma coprime_n a : a mod n <> 0 -> Z.gcd n a = 1.
Proof.
  intros H. apply Z.coprime_prime_l; [apply prime_alt; exact n_prime|]. intros HD. apply H, Z.mod_divide; [|exact HD].
  pose proof n_big. lia.
Qed.

(** The inverse of [s] and the two scalars. *)
Lemma scalars_spec fuel message r s :
  (1022 <= fuel)%nat -> int256 message -> int256 r -> int256 s -> val s mod n <> 0 ->
  exists w u v, p256_modinv_vartime fuel SECP256r1_n s = Some w /\
    p256_modmul SECP256r1_n message 0 w = Some u /\ p256_modmul SECP256r1_n r 0 w = Some v /\
    int256 u /\ int256 v /\ 0 <= val u < n /\ 0 <= val v < n /\
    val u * val s ==[n] val message /\ val v * val s ==[n] val r.
Proof.
  intros Hf Hm Hr Hs Hnz. pose proof n_big as Bn. pose proof (int256_bound s Hs) as Bs.
  destruct (p256_modinv_spec SECP256r1_n s fuel good_n) as (w & Ew & Hw & Bw & Iw); auto.
  { destruct (Z.eq_dec (val s) 0) as [E|E]; [|lia]. rewrite E, Z.mod_0_l in Hnz by lia. contradiction. }
  { exact (coprime_n (val s) Hnz). }
  destruct (p256_modmul_spec SECP256r1_n message 0 w good_n Hm Hw ltac:(lia)) as (u & Eu & Hu & Vu).
  destruct (p256_modmul_spec SECP256r1_n r 0 w good_n Hr Hw ltac:(lia)) as (v & Ev & Hv & Vv).
  rewrite Z.mul_0_r, Z.add_0_r in Vu, Vv. change (val SECP256r1_n) with n in *.
  assert (Hinv : val w * val s ==[n] 1) by (unfold eqm; rewrite Iw, Z.mod_1_l; lia).
  exists w, u, v. repeat (split; [assumption|]).
  split; [rewrite Vu; apply Z.mod_pos_bound; lia|]. split; [rewrite Vv; apply Z.mod_pos_bound; lia|].
  assert (G : forall a, (a * val w) mod n * val s ==[n] a).
  { intros a. rewrite (eqm_mod n (a * val w)), <- Z.mul_assoc, Hinv, Z.mul_1_r. reflexivity. }
  rewrite Vu, Vv. split; apply G.
Qed.

(** The scalars are determined by their equations. *)
Lemma scalar_unique s a c u v :
  int256 u -> int256 v -> 0 <= val u < n -> 0 <= val v < n -> s mod n <> 0 ->
  val u * s ==[n] a -> val v * s ==[n] c -> a ==[n] c -> u = v.
Proof.
  intros Hu Hv Bu Bv Hs Eu Ev Ea. apply int256_inj; [exact Hu|exact Hv|].
  assert (E : val u * s ==[n] val v * s) by now rewrite Eu, Ev.
  apply eqm_diff in E as [k E]; [|pose proof n_big; lia].
  assert (HD : (n | (val u - val v) * s)) by (exists k; lia).
  apply Z.divide_prime_mul in HD as [[j Hj]|HD]; [|exfalso|apply prime_alt; exact n_prime].
  { assert (j = 0 \/ 1 <= j \/ j <= -1) as [-> |[Hj1|Hj1]] by lia; [lia|nia|nia]. }
  apply Hs, Z.mod_divide; [pose proof n_big; lia|exact HD].
Qed.

Section Verify.
Variables (fuel : nat) (key_x key_y message r s : list Z).
Hypothesis Hf : (1022 <= fuel)%nat.
Hypothesis Hkx : int256 key_x.
Hypothesis Hky : int256 key_y.
Hypothesis Hm : int256 message.
Hypothesis Hr : int256 r.
Hypothesis Hs : int256 s.

(** What a signature is measured against: the tests, then the abscissa of the point
    the two scalars give. *)
Lemma verify_unfold :
  exists ok, p256_is_valid_point key_x key_y = Some ok /\
    (ok = true -> on_curve (val key_x) (val key_y)) /\
    if ok && negb (val r mod n =? 0) && negb (val s mod n =? 0)
    then exists u v, int256 u /\ int256 v /\ 0 <= val u < n /\ 0 <= val v < n /\
           val u * val s ==[n] val message /\ val v * val s ==[n] val r /\
           p256_ecdsa_verify fuel key_x key_y message r s =
           match p256_points_mul_vartime fuel u v key_x key_y with
           | None => None
           | Some (x, _) => Some (p256_cmp r (p256_mod SECP256r1_n x) =? 0)
           end
    else p256_ecdsa_verify fuel key_x key_y message r s = Some false.
Proof.
  destruct (p256_is_valid_point_spec key_x key_y Hkx Hky) as (ok & E & Hok). exists ok.
  split; [exact E|]. split; [tauto|]. unfold p256_ecdsa_verify. rewrite E, !mod_n_zero by assumption.
  destruct ok; [|reflexivity]. destruct (Z.eqb_spec (val r mod n) 0) as [|Hr0]; [reflexivity|].
  destruct (Z.eqb_spec (val s mod n) 0) as [|Hs0]; [reflexivity|]. cbn [andb orb negb].
  destruct (scalars_spec fuel message r s Hf Hm Hr Hs Hs0) as (w & u & v & -> & -> & -> & Hu & Hv & Bu & Bv & Eu & Ev).
  exists u, v. repeat (split; [assumption|]). reflexivity.
Qed.
End Verify.

Lemma compare_abscissa r x y S :
  int256 r -> int256 x -> (val x, y) = coords S ->
  (p256_cmp r (p256_mod SECP256r1_n x) =? 0) = (val r =? fst (coords S) mod n).
Proof.
  intros Hr Hx E. destruct (mod_n_spec x Hx) as [H1 H2]. rewrite p256_cmp_spec, H2, <- E by assumption. cbn [fst].
  destruct (Z.ltb_spec (val r) (val x mod n)), (Z.eqb_spec (val r) (val x mod n)); reflexivity || lia.
Qed.
(** * Theorems *)

(** C3: [p256_ecdsa_verify] decides the ECDSA equation: for an accepted key [Q] and
    [r], [s] that are not zero modulo n, with [u] and [v] the scalars with
    u s = message and v s = r modulo n, it returns whether r is the abscissa of
    u G + v Q reduced modulo n.  (The two multiplications have to be regular: they
    use incomplete additions.) *)
Theorem p256_ecdsa_verify_correct fuel key_x key_y message r s u v :
  (1022 <= fuel)%nat -> int256 key_x -> int256 key_y -> int256 message -> int256 r -> int256 s ->
  p256_is_valid_point key_x key_y = Some true -> val r mod n <> 0 -> val s mod n <> 0 ->
  int256 u -> int256 v -> 0 <= val u < n -> 0 <= val v < n ->
  val u * val s ==[n] val message -> val v * val s ==[n] val r ->
  points_regular u v (Aff (val key_x) (val key_y)) = true ->
  exists S, lin base_affine (Aff (val key_x) (val key_y)) (val u) (val v) S /\
    p256_ecdsa_verify fuel key_x key_y message r s = Some (val r =? fst (coords S) mod n).
Proof.
  intros Hf Hkx Hky Hm Hr Hs Hk Hr0 Hs0 Hu Hv Bu Bv Eu Ev Hreg.
  destruct (verify_unfold fuel key_x key_y message r s Hf Hkx Hky Hm Hr Hs) as (ok & E & Hc & H).
  rewrite Hk in E. injection E as <-. specialize (Hc eq_refl).
  rewrite (proj2 (Z.eqb_neq _ _) Hr0), (proj2 (Z.eqb_neq _ _) Hs0) in H. cbn [andb negb] in H.
  destruct H as (u' & v' & Hu' & Hv' & Bu' & Bv' & Eu' & Ev' & ->).
  assert (u' = u) as -> by now apply (scalar_unique (val s) (val message) (val message)).
  assert (v' = v) as -> by now apply (scalar_unique (val s) (val r) (val r)).
  destruct (points_mul_spec fuel u v key_x key_y ltac:(lia) Hu Hv Hkx Hky Hc Hreg) as (x & y & -> & Hx & _ & EC).
  exists (points_sum u v (Aff (val key_x) (val key_y))). split; [now apply lin_points_sum|].
  f_equal. exact (compare_abscissa r x _ _ Hr Hx EC).
Qed.

Lemma p256_ecdsa_verify_correct_witness :
  exists S, lin base_affine (Aff (val Gx) (val Gy)) (val (digit 1)) (val (digit 2)) S /\
    p256_ecdsa_verify 1022 Gx Gy (digit 1) (digit 2) (digit 1) = Some (val (digit 2) =? fst (coords S) mod n).
Proof.
  destruct G_digits as (HGx & HGy & _).
  destruct (digit_int256 1) as [H1 _]; [split; [lia|reflexivity]|].
  destruct (digit_int256 2) as [H2 _]; [split; [lia|reflexivity]|].
  apply (p256_ecdsa_verify_correct 1022 Gx Gy (digit 1) (digit 2) (digit 1) (digit 1) (digit 2)); try assumption;
    first [lia|reflexivity|discriminate|split; [discriminate|reflexivity]|idtac].
Defined.

(** C38: malformed input is rejected before any point is computed, whatever the fuel:
    a key that [p256_is_valid_point] refuses, an [r] or an [s] that is zero modulo
    the group order. *)
Theorem p256_ecdsa_verify_rejects fuel key_x key_y message r s :
  int256 key_x -> int256 key_y -> int256 r -> int256 s ->
  p256_is_valid_point key_x key_y = Some false \/ val r mod n = 0 \/ val s mod n = 0 ->
  p256_ecdsa_verify fuel key_x key_y message r s = Some false.
Proof.
  intros Hkx Hky Hr Hs H. destruct (p256_is_valid_point_spec key_x key_y Hkx Hky) as (ok & E & _).
  unfold p256_ecdsa_verify. rewrite E, !mod_n_zero by assumption.
  destruct ok; [|reflexivity]. destruct H as [H|[H|H]]; [congruence| |]; rewrite H; cbn [Z.eqb orb];
    rewrite ?orb_true_r; reflexivity.
Qed.

Lemma p256_ecdsa_verify_rejects_witness :
  p256_ecdsa_verify 0 Gx Gy (digit 1) SECP256r1_n (digit 1) = Some false.
Proof.
  apply (p256_ecdsa_verify_rejects 0 Gx Gy (digit 1) SECP256r1_n (digit 1)); try apply G_digits;
    [apply good_n|apply digit_int256; split; [lia|reflexivity]|right; left; vm_compute; reflexivity].
Defined.

(** The verdict depends on [s] only modulo the group order: [s] is not compared
    with n, so a signature stays accepted when n is added to its [s] (and so is one
    whose [s] the standard would reject as out of range). *)
Theorem p256_ecdsa_verify_s_mod_n fuel key_x key_y message r s s' :
  (1022 <= fuel)%nat -> int256 key_x -> int256 key_y -> int256 message -> int256 r -> int256 s -> int256 s' ->
  val s ==[n] val s' ->
  p256_ecdsa_verify fuel key_x key_y message r s = p256_ecdsa_verify fuel key_x key_y message r s'.
Proof.
  intros Hf Hkx Hky Hm Hr Hs Hs' E.
  destruct (verify_unfold fuel key_x key_y message r s Hf Hkx Hky Hm Hr Hs) as (ok & V & _ & H).
  destruct (verify_unfold fuel key_x key_y message r s' Hf Hkx Hky Hm Hr Hs') as (ok' & V' & _ & H').
  rewrite V in V'. injection V' as <-. assert (Em : val s mod n = val s' mod n) by exact E. rewrite <- Em in H'.
  destruct (ok && negb (val r mod n =? 0) && negb (val s mod n =? 0)) eqn:B; [|congruence].
  apply andb_true_iff in B as [_ B]. apply negb_true_iff, Z.eqb_neq in B.
  destruct H as (u & v & Hu & Hv & Bu & Bv & Eu & Ev & ->), H' as (u' & v' & Hu' & Hv' & Bu' & Bv' & Eu' & Ev' & ->).
  rewrite <- E in Eu', Ev'.
  assert (u' = u) as -> by now apply (scalar_unique (val s) (val message) (val message)).
  assert (v' = v) as -> by now apply (scalar_unique (val s) (val r) (val r)). reflexivity.
Qed.

Definition n_plus_1 : list Z := [0xfc632552; 0xf3b9cac2; 0xa7179e84; 0xbce6faad; 0xffffffff; 0xffffffff; 0; 0xffffffff].

Lemma p256_ecdsa_verify_s_mod_n_witness :
  p256_ecdsa_verify 1022 Gx Gy (digit 1) (digit 2) (digit 1) = p256_ecdsa_verify 1022 Gx Gy (digit 1) (digit 2) n_plus_1.
Proof.
  destruct G_digits as (HGx & HGy & _).
  apply (p256_ecdsa_verify_s_mod_n 1022 Gx Gy (digit 1) (digit 2) (digit 1) n_plus_1); try assumption;
    [lia|apply digit_int256; split; [lia|reflexivity]..| |vm_compute; reflexivity].
  split; [repeat constructor; discriminate|reflexivity].
Defined.
