(* ===== verification/Retouch.v ===== *)
(** Retouching of prelinked binaries: src/minelf/Retouch.c.

    A retouched binary ends in a blob of encoded relocation entries, a
    [retouch_info_t] and a [prelink_info_t].  The object is one buffer of bytes,
    which [retouch_mask_data] reads and writes in place; an access outside it is a
    [Fault].  The host is little-endian. *)
From Stdlib Require Import ZArith List Lia Bool.
From S2P Require Import Prelude.
Import ListNotations.

(** * Accesses to the object *)

Definition rd8 (mem : list Z) (i : Z) : outcome Z :=
  if i <? 0 then Fault else rd mem (Z.to_nat i).

(** [*(uint32_t * )(object + i)], read and written *)
Definition rd32 (mem : list Z) (i : Z) : outcome Z :=
  let! a := rd8 mem i in
  let! b := rd8 mem (i + 1) in
  let! c := rd8 mem (i + 2) in
  let! d := rd8 mem (i + 3) in
  Ret (le32 a b c d).

Definition wr32 (mem : list Z) (i v : Z) : outcome (list Z) :=
  if (i <? 0) || (Z.of_nat (length mem) <? i + 4) then Fault
  else Ret (blit mem (Z.to_nat i) (le_bytes 4 v)).

(** [n] bytes from [i] on *)
Fixpoint rd_bytes (mem : list Z) (i : Z) (n : nat) : outcome (list Z) :=
  match n with
  | O => Ret []
  | S k => let! x := rd8 mem i in let! t := rd_bytes mem (i + 1) k in Ret (x :: t)
  end.

(** [strncmp(p, tag, n) == 0] for a tag of [n] bytes, none of them zero *)
Fixpoint tag_matches (mem : list Z) (i : Z) (tag : list Z) : outcome bool :=
  match tag with
  | [] => Ret true
  | c :: t => let! x := rd8 mem i in if x =? c then tag_matches mem (i + 1) t else Ret false
  end.

(** * The entries *)

(** [offs_prev] and [cont_prev] *)
Record compression := { offs_prev : Z; cont_prev : Z }.

Definition init_compression_state : compression := {| offs_prev := 0; cont_prev := 0 |}.

(** [*dst_offset] and [*dst_contents] *)
Definition decode_bytes (st : compression) (encoded_bytes : list Z) (encoded_size : nat) : Z * Z :=
  let e := get encoded_bytes in
  if (encoded_size =? 2)%nat then
    let dst_offset := i32 (offs_prev st + (((e 0%nat .& 0x60) >> 5) + 1) * 4) in
    let tmp := ((e 0%nat .& 0x1f) << 8) .| e 1%nat in
    let tmp := if tmp .& 0x1000 =? 0 then tmp else i32 (0xffffe000 .| tmp) in
    (dst_offset, u32 (cont_prev st + tmp))
  else if (encoded_size =? 3)%nat then
    let dst_offset := i32 (offs_prev st + (((e 0%nat .& 0x30) >> 4) + 1) * 4) in
    let tmp := ((e 0%nat .& 0x0f) << 16) .| (e 1%nat << 8) .| e 2%nat in
    let tmp := if tmp .& 0x80000 =? 0 then tmp else i32 (0xfff00000 .| tmp) in
    (dst_offset, u32 (cont_prev st + tmp))
  else
    let dst_offset := i32 (be32 (e 0%nat) (e 1%nat) (e 2%nat) (e 3%nat)) in
    let dst_offset := if dst_offset =? 0x3fffffff then -1 else dst_offset in
    (dst_offset, u32 (be32 (e 4%nat) (e 5%nat) (e 6%nat) (e 7%nat))).

Definition input_size (b0 : Z) : nat :=
  if negb (b0 .& 0x80 =? 0) then 2
  else if negb (b0 .& 0x40 =? 0) then 3
  else 8.

(** The entry, the new state and the new [encoded_bytes] *)
Definition decode_in_memory (mem : list Z) (st : compression) (encoded_bytes : Z)
  : outcome (Z * Z * compression * Z) :=
  let! b0 := rd8 mem encoded_bytes in
  let size := input_size b0 in
  let! rest := rd_bytes mem (encoded_bytes + 1) (size - 1) in
  let '(offset, contents) := decode_bytes st (b0 :: rest) size in
  Ret (offset, contents, {| offs_prev := offset; cont_prev := contents |}, encoded_bytes + Z.of_nat size).

(** * Masking *)

Inductive verdict := DATA_ERROR | DATA_MATCHED | DATA_MISMATCHED | DATA_NOTAPPLICABLE.

Definition PRELINK_INFO_SIZE : Z := 8.
Definition RETOUCH_INFO_SIZE : Z := 12.
Definition PRE_TAG : list Z := [80; 82; 69; 32].
Definition RETOUCH_TAG : list Z := [82; 69; 84; 79; 85; 67; 72; 32].

(** The variables the loop changes. *)
Record mask_state := {
  object : list Z;
  comp : compression;
  b_ptr : Z;
  offset_candidate : Z;
  offset_set : bool;
  offset_mismatch : bool
}.

(** One iteration; [inl] is the return of [RETOUCH_DATA_ERROR]. *)
Definition mask_entry (desired_offset : option Z) (target_offset b_offs p_offs : Z) (s : mask_state)
  : outcome (list Z + mask_state) :=
  let! (entry_offset, original_value, comp', b_ptr') := decode_in_memory (object s) (comp s) (b_ptr s) in
  if (entry_offset <? -1) || (b_offs <=? entry_offset) then Ret (inl (object s))
  else
    let entry := if entry_offset =? -1 then p_offs else entry_offset in
    let! obj :=
      match desired_offset with
      | Some _ => wr32 (object s) entry (u32 (original_value + target_offset))
      | None => Ret (object s)
      end in
    let! v := rd32 obj entry in
    let offset_of_this_entry := i32 (v [-] original_value) in
    Ret (inr {| object := obj; comp := comp'; b_ptr := b_ptr';
                offset_candidate := if offset_set s then offset_candidate s else offset_of_this_entry;
                offset_set := true;
                offset_mismatch :=
                  if offset_set s && negb (offset_candidate s =? offset_of_this_entry) then true
                  else offset_mismatch s |}).

(** [while (b_ptr < (uint8_t * )r_info)], with fuel *)
Fixpoint mask_loop (fuel : nat) (desired_offset : option Z) (target_offset b_offs p_offs r_offs : Z)
  (s : mask_state) : outcome (option (list Z + mask_state)) :=
  if b_ptr s <? r_offs then
    match fuel with
    | O => Ret None
    | S f =>
        let! r := mask_entry desired_offset target_offset b_offs p_offs s in
        match r with
        | inl obj => Ret (Some (inl obj))
        | inr s' => mask_loop f desired_offset target_offset b_offs p_offs r_offs s'
        end
    end
  else Ret (Some (inr s)).

(** A store through [retouch_offset], which may be NULL *)
Definition store (retouch_offset : option Z) (v : Z) : option Z :=
  match retouch_offset with None => None | Some _ => Some v end.

(** The return value, the object and [*retouch_offset]; [None] when the fuel is
    spent. *)
Definition retouch_mask_data (fuel : nat) (binary_object : list Z) (binary_size : Z)
  (desired_offset retouch_offset : option Z) : outcome (option (verdict * list Z * option Z)) :=
  let target_offset := match desired_offset with Some d => d | None => 0 end in
  let p_offs := i32 (binary_size - PRELINK_INFO_SIZE) in
  let r_offs := i32 (p_offs - RETOUCH_INFO_SIZE) in
  let retouch_offset := store retouch_offset target_offset in
  let not_retouched := match desired_offset with None => DATA_NOTAPPLICABLE | Some _ => DATA_MATCHED end in
  if r_offs <? 0 then Ret (Some (not_retouched, binary_object, retouch_offset)) else
  let! pre := tag_matches binary_object (p_offs + 4) PRE_TAG in
  let! retouched := if pre then tag_matches binary_object r_offs RETOUCH_TAG else Ret false in
  if negb retouched then Ret (Some (not_retouched, binary_object, retouch_offset)) else
  let! blob_size := rd32 binary_object (r_offs + 8) in
  let b_offs := i32 (r_offs - blob_size) in
  if b_offs <? 0 then Ret (Some (DATA_ERROR, binary_object, retouch_offset)) else
  let! r := mask_loop fuel desired_offset target_offset b_offs p_offs r_offs
    {| object := binary_object; comp := init_compression_state; b_ptr := b_offs;
       offset_candidate := target_offset; offset_set := false; offset_mismatch := false |} in
  match r with
  | None => Ret None
  | Some (inl obj) => Ret (Some (DATA_ERROR, obj, retouch_offset))
  | Some (inr s) =>
      if r_offs <? b_ptr s then Ret (Some (DATA_ERROR, object s, retouch_offset))
      else if offset_mismatch s then Ret (Some (DATA_MISMATCHED, object s, retouch_offset))
      else Ret (Some (DATA_MATCHED, object s, store retouch_offset (offset_candidate s)))
  end.

(** * Memory safety and termination *)

Lemma rd8_in mem i : 0 <= i < Z.of_nat (length mem) -> rd8 mem i = Ret (get mem (Z.to_nat i)).
Proof.
  intros Hi. unfold rd8, rd, get. destruct (Z.ltb_spec i 0); [lia|].
  rewrite (nth_error_nth' mem 0) by lia. reflexivity.
Qed.

Lemma rd32_in mem i :
  0 <= i -> i + 4 <= Z.of_nat (length mem) ->
  rd32 mem i = Ret (le32 (get mem (Z.to_nat i)) (get mem (Z.to_nat (i + 1)))
                         (get mem (Z.to_nat (i + 2))) (get mem (Z.to_nat (i + 3)))).
Proof. intros H1 H2. unfold rd32. now rewrite !rd8_in by lia. Qed.

Lemma wr32_in mem i v :
  0 <= i -> i + 4 <= Z.of_nat (length mem) ->
  exists m, wr32 mem i v = Ret m /\ length m = length mem.
Proof.
  intros H1 H2. unfold wr32. destruct (Z.ltb_spec i 0); [lia|].
  destruct (Z.ltb_spec (Z.of_nat (length mem)) (i + 4)); [lia|]. cbn [orb].
  eexists. split; [reflexivity|]. apply blit_length. rewrite le_bytes_length. lia.
Qed.

Lemma rd_bytes_in mem i n :
  0 <= i -> i + Z.of_nat n <= Z.of_nat (length mem) -> exists l, rd_bytes mem i n = Ret l.
Proof.
  revert i. induction n as [|n IH]; intros i H1 H2; cbn [rd_bytes]; [eauto|].
  rewrite rd8_in by lia. cbn [bind]. destruct (IH (i + 1)) as [l ->]; [lia..|]. cbn [bind]. eauto.
Qed.

Lemma tag_matches_in mem i tag :
  0 <= i -> i + Z.of_nat (length tag) <= Z.of_nat (length mem) -> exists r, tag_matches mem i tag = Ret r.
Proof.
  revert i. induction tag as [|c tag IH]; intros i H1 H2; cbn [tag_matches length] in *; [eauto|].
  rewrite rd8_in by lia. cbn [bind]. destruct (_ =? c); [apply IH; lia|eauto].
Qed.

Lemma input_size_cases b0 : input_size b0 = 2%nat \/ input_size b0 = 3%nat \/ input_size b0 = 8%nat.
Proof. unfold input_size. destruct (negb _); [auto|]. destruct (negb _); auto. Qed.

Lemma decode_in_memory_in mem st i :
  0 <= i -> i + 8 <= Z.of_nat (length mem) ->
  exists o c st' i', decode_in_memory mem st i = Ret (o, c, st', i') /\ i < i' <= i + 8.
Proof.
  intros H1 H2. unfold decode_in_memory. rewrite rd8_in by lia. cbn [bind].
  set (b0 := get mem _). pose proof (input_size_cases b0) as Hs.
  destruct (rd_bytes_in mem (i + 1) (input_size b0 - 1)) as [l ->]; [lia..|]. cbn [bind].
  destruct (decode_bytes _ _ _) as [o c]. do 4 eexists. split; [reflexivity|]. lia.
Qed.

(** The layout of the object: [n] bytes, of which the last twenty are the two
    structures. *)
Definition fits (b_offs p_offs r_offs : Z) (n : nat) : Prop :=
  0 <= b_offs <= r_offs /\ p_offs = r_offs + 12 /\ r_offs + 20 = Z.of_nat n.

Lemma mask_entry_in des tgt b_offs p_offs r_offs s :
  fits b_offs p_offs r_offs (length (object s)) -> 0 <= b_ptr s < r_offs ->
  (exists m, mask_entry des tgt b_offs p_offs s = Ret (inl m) /\ m = object s) \/
  (exists s', mask_entry des tgt b_offs p_offs s = Ret (inr s') /\
     length (object s') = length (object s) /\ (des = None -> object s' = object s) /\
     b_ptr s < b_ptr s' <= b_ptr s + 8).
Proof.
  intros (Hb & Hp & Hr) Hptr. unfold mask_entry.
  destruct (decode_in_memory_in (object s) (comp s) (b_ptr s)) as (o & c & st' & i' & -> & Hi'); [lia..|].
  cbn [bind].
  destruct (Z.ltb_spec o (-1)); [left; eexists; split; reflexivity|].
  destruct (Z.leb_spec b_offs o); [left; eexists; split; reflexivity|].
  cbn [orb]. right.
  set (e := if o =? -1 then p_offs else o).
  assert (He : 0 <= e /\ e + 4 <= Z.of_nat (length (object s)))
    by (unfold e; destruct (Z.eqb_spec o (-1)); lia).
  clearbody e. destruct des as [d|]; cbn [bind].
  - destruct (wr32_in (object s) e (u32 (c + tgt))) as (m & -> & Hm); [lia..|]. cbn [bind].
    rewrite rd32_in by lia. cbn [bind]. eexists. split; [reflexivity|].
    cbn [object b_ptr]. repeat split; try lia. discriminate.
  - rewrite rd32_in by lia. cbn [bind]. eexists. split; [reflexivity|].
    cbn [object b_ptr]. repeat split; lia.
Qed.

Lemma mask_loop_in fuel des tgt b_offs p_offs r_offs s :
  fits b_offs p_offs r_offs (length (object s)) -> 0 <= b_ptr s ->
  r_offs - b_ptr s <= Z.of_nat fuel ->
  exists r, mask_loop fuel des tgt b_offs p_offs r_offs s = Ret (Some r) /\
    let m := match r with inl m => m | inr s' => object s' end in
    length m = length (object s) /\ (des = None -> m = object s).
Proof.
  revert s. induction fuel as [|fuel IH]; intros s Hf Hp Hfuel; cbn [mask_loop];
    destruct (Z.ltb_spec (b_ptr s) r_offs) as [Hlt|Hge]; try lia; try (eexists; split; [reflexivity|]; auto).
  destruct (mask_entry_in des tgt b_offs p_offs r_offs s Hf ltac:(lia))
    as [(m & -> & ->)|(s' & -> & Hl & Hd & Hptr)]; cbn [bind]; [eexists; split; [reflexivity|]; auto|].
  destruct (IH s') as (r & -> & Hr1 & Hr2); [now rewrite Hl|lia|lia|].
  eexists. split; [reflexivity|]. split; [congruence|]. intros H. rewrite Hr2, Hd by exact H. reflexivity.
Qed.

Lemma retouch_mask_data_in fuel obj des ro :
  Z.of_nat (length obj) < 2 ^ 31 -> (length obj <= fuel)%nat ->
  exists v obj' ro', retouch_mask_data fuel obj (Z.of_nat (length obj)) des ro = Ret (Some (v, obj', ro')) /\
    length obj' = length obj /\ (des = None -> obj' = obj).
Proof.
  intros Hn Hfuel. unfold retouch_mask_data, PRELINK_INFO_SIZE, RETOUCH_INFO_SIZE.
  rewrite (i32_small (Z.of_nat (length obj) - 8)), (i32_small (Z.of_nat (length obj) - 8 - 12)) by lia.
  set (n := Z.of_nat (length obj)) in *.
  destruct (Z.ltb_spec (n - 8 - 12) 0); [do 3 eexists; split; [reflexivity|]; auto|].
  destruct (tag_matches_in obj (n - 8 + 4) PRE_TAG) as [pre ->]; [lia|cbn [PRE_TAG length]; lia|].
  cbn [bind].
  assert (exists retouched, (if pre then tag_matches obj (n - 8 - 12) RETOUCH_TAG else Ret false) = Ret retouched)
    as [retouched ->].
  { destruct pre; [apply tag_matches_in; cbn [RETOUCH_TAG length]; lia|eauto]. }
  cbn [bind]. destruct retouched; cbn [negb]; [|do 3 eexists; split; [reflexivity|]; auto].
  rewrite rd32_in by lia. cbn [bind]. set (size := le32 _ _ _ _). set (b_offs := i32 _).
  destruct (Z.ltb_spec b_offs 0); [do 3 eexists; split; [reflexivity|]; auto|].
  assert (exists r, mask_loop fuel des match des with Some d => d | None => 0 end b_offs (n - 8) (n - 8 - 12)
     {| object := obj; comp := init_compression_state; b_ptr := b_offs;
        offset_candidate := match des with Some d => d | None => 0 end;
        offset_set := false; offset_mismatch := false |} = Ret (Some r) /\
     let m := match r with inl m => m | inr s' => object s' end in
     length m = length obj /\ (des = None -> m = obj)) as (r & -> & Hr1 & Hr2).
  { destruct (Z.le_gt_cases b_offs (n - 8 - 12)) as [Hle|Hgt].
    - apply (mask_loop_in fuel); cbn [object b_ptr]; [unfold fits|..]; lia.
    - exists (inr {| object := obj; comp := init_compression_state; b_ptr := b_offs;
        offset_candidate := match des with Some d => d | None => 0 end;
        offset_set := false; offset_mismatch := false |}).
      destruct fuel; cbn [mask_loop b_ptr]; destruct (Z.ltb_spec b_offs (n - 8 - 12)); try lia; auto. }
  cbn [bind]. destruct r as [m|s]; [do 3 eexists; split; [reflexivity|]; auto|].
  destruct (_ <? _); [do 3 eexists; split; [reflexivity|]; auto|].
  destruct (offset_mismatch s); do 3 eexists; (split; [reflexivity|]; auto).
Qed.

(** * Images

    A retouched binary, up to the words the entries stand for: the code and data
    before the blob, and the word [mmap_addr] of the [prelink_info_t]. *)
Section Image.
Variable blob : list Z.

Record image := { body : list Z; mmap_addr : list Z }.

Definition flatten (im : image) : list Z :=
  body im ++ blob ++ RETOUCH_TAG ++ le_bytes 4 (Z.of_nat (length blob)) ++ mmap_addr im ++ PRE_TAG.

Definition image_ok (im : image) : Prop := bytes (body im) /\ bytes (mmap_addr im) /\ length (mmap_addr im) = 4%nat.

(** The word of an entry; the offset -1 stands for [mmap_addr]. *)
Definition word_at (l : list Z) (i : nat) : Z :=
  le32 (get l i) (get l (i + 1)) (get l (i + 2)) (get l (i + 3)).

Definition lookup (im : image) (o : Z) : Z :=
  if o =? -1 then word_at (mmap_addr im) 0 else word_at (body im) (Z.to_nat o).

Definition update (im : image) (o v : Z) : image :=
  if o =? -1 then {| body := body im; mmap_addr := le_bytes 4 v |}
  else {| body := blit (body im) (Z.to_nat o) (le_bytes 4 v); mmap_addr := mmap_addr im |}.

Definition entry_ok (n : nat) (o : Z) : Prop := o = -1 \/ (0 <= o /\ o + 4 <= Z.of_nat n).
Definition apart (o o' : Z) : Prop :=
  o <> o' /\ (o <> -1 -> o' <> -1 -> o + 4 <= o' \/ o' + 4 <= o).

(** Writes the words of all entries, shifted by [d]. *)
Definition relocate (d : Z) (es : list (Z * Z)) (im : image) : image :=
  fold_left (fun im e => update im (fst e) (u32 (snd e + d))) es im.

(** ** The image as a store of words *)

Lemma get_app_l a c i : (i < length a)%nat -> get (a ++ c) i = get a i.
Proof. apply app_nth1. Qed.

Lemma get_app_r a c i : get (a ++ c) (length a + i) = get c i.
Proof. unfold get. rewrite app_nth2 by lia. f_equal. lia. Qed.

Lemma get_blit l i src j :
  (i + length src <= length l)%nat ->
  get (blit l i src) j =
  if (i <=? j)%nat && (j <? i + length src)%nat then get src (j - i) else get l j.
Proof.
  intros H. unfold blit. destruct (Nat.leb_spec i j) as [Hij|Hij]; cbn [andb].
  - replace j with (length (firstn i l) + (j - i))%nat at 1 by (rewrite length_firstn; lia).
    rewrite get_app_r. destruct (Nat.ltb_spec j (i + length src)) as [Hj|Hj].
    + apply get_app_l. lia.
    + replace (j - i)%nat with (length src + (j - i - length src))%nat by lia. rewrite get_app_r.
      unfold get. rewrite nth_skipn. f_equal. lia.
  - rewrite get_app_l by (rewrite length_firstn; lia). unfold get. rewrite nth_firstn.
    destruct (Nat.ltb_spec j i); [reflexivity|lia].
Qed.

Lemma word_at_app_l a c i : (i + 4 <= length a)%nat -> word_at (a ++ c) i = word_at a i.
Proof. intros H. unfold word_at. now rewrite !get_app_l by lia. Qed.

Lemma word_at_app_r a c i : word_at (a ++ c) (length a + i) = word_at c i.
Proof. unfold word_at. rewrite <- !Nat.add_assoc. now rewrite !get_app_r. Qed.

Lemma word_at_app_at a c k : length a = k -> word_at (a ++ c) k = word_at c 0.
Proof. intros <-. rewrite <- (word_at_app_r a c 0). now rewrite Nat.add_0_r. Qed.

Lemma word_at_le_bytes v : word 32 v -> word_at (le_bytes 4 v) 0 = v.
Proof.
  intros Hv. unfold word_at, le32, le_bytes. cbn [be_bytes rev app get nth Nat.add].
  rewrite be32_value by (repeat constructor; apply u8_range).
  unfold u8. rewrite !shr_div by lia. unfold word in Hv.
  change (8 * Z.of_nat 3) with 24. change (8 * Z.of_nat 2) with 16. change (8 * Z.of_nat 1) with 8.
  change (8 * Z.of_nat 0) with 0. change (2 ^ 0) with 1. rewrite Z.div_1_r.
  pose proof (Z.div_mod v (2 ^ 8) ltac:(lia)). pose proof (Z.div_mod (v / 2 ^ 8) (2 ^ 8) ltac:(lia)).
  pose proof (Z.div_mod (v / 2 ^ 16) (2 ^ 8) ltac:(lia)).
  assert (E16 : v / 2 ^ 8 / 2 ^ 8 = v / 2 ^ 16) by (rewrite Z.div_div by lia; reflexivity).
  assert (E24 : v / 2 ^ 16 / 2 ^ 8 = v / 2 ^ 24) by (rewrite Z.div_div by lia; reflexivity).
  rewrite E16, E24 in *.
  rewrite (Z.mod_small (v / 2 ^ 24)); [lia|].
  split; [apply Z.div_pos; lia|apply Z.div_lt_upper_bound; lia].
Qed.

Lemma word_at_blit_same l i src :
  (i + 4 <= length l)%nat -> length src = 4%nat -> word_at (blit l i src) i = word_at src 0.
Proof.
  intros H1 H2. unfold word_at. rewrite !get_blit by lia. rewrite H2.
  repeat match goal with |- context [(?a <=? ?b)%nat] => destruct (Nat.leb_spec a b); [|lia] end.
  repeat match goal with |- context [(?a <? ?b)%nat] => destruct (Nat.ltb_spec a b); [|lia] end.
  cbn [andb]. rewrite !(Nat.add_comm i), Nat.sub_diag, !Nat.add_sub. reflexivity.
Qed.

Lemma word_at_blit_apart l i j src :
  (i + 4 <= length l)%nat -> length src = 4%nat -> (i + 4 <= j \/ j + 4 <= i)%nat ->
  word_at (blit l i src) j = word_at l j.
Proof.
  intros H1 H2 H3. unfold word_at. rewrite !get_blit by lia. rewrite H2.
  assert (E : forall k, (k < 4)%nat -> (i <=? j + k)%nat && (j + k <? i + 4)%nat = false).
  { intros k Hk. destruct (Nat.leb_spec i (j + k)); destruct (Nat.ltb_spec (j + k) (i + 4)); cbn; lia. }
  pose proof (E O ltac:(lia)) as E0. rewrite Nat.add_0_r in E0. rewrite E0.
  rewrite !E by lia. reflexivity.
Qed.

Lemma update_body_length im o v : entry_ok (length (body im)) o -> length (body (update im o v)) = length (body im).
Proof.
  intros H. unfold update. destruct (Z.eqb_spec o (-1)); [reflexivity|]. cbn [body].
  apply blit_length. rewrite le_bytes_length. unfold entry_ok in H. lia.
Qed.

Lemma lookup_update_same im o v :
  entry_ok (length (body im)) o -> word 32 v -> lookup (update im o v) o = v.
Proof.
  intros Ho Hv. unfold lookup, update. destruct (Z.eqb_spec o (-1)); cbn [mmap_addr body].
  - now apply word_at_le_bytes.
  - unfold entry_ok in Ho. rewrite word_at_blit_same by (rewrite ?le_bytes_length; lia).
    now apply word_at_le_bytes.
Qed.

Lemma lookup_update_apart im o o' v :
  entry_ok (length (body im)) o -> entry_ok (length (body im)) o' -> apart o o' ->
  lookup (update im o v) o' = lookup im o'.
Proof.
  intros Ho Ho' [Hne Hap]. unfold lookup, update.
  destruct (Z.eqb_spec o (-1)), (Z.eqb_spec o' (-1)); cbn [mmap_addr body]; try reflexivity; [congruence|].
  unfold entry_ok in *. apply word_at_blit_apart; rewrite ?le_bytes_length; lia.
Qed.

Lemma blit_blit_comm l i j s t :
  (i + length s <= length l)%nat -> (j + length t <= length l)%nat ->
  (i + length s <= j \/ j + length t <= i)%nat ->
  blit (blit l i s) j t = blit (blit l j t) i s.
Proof.
  intros H1 H2 H3. apply (nth_ext _ _ 0 0); [now rewrite !blit_length by (rewrite ?blit_length; lia)|].
  intros k _. fold (get (blit (blit l i s) j t) k) (get (blit (blit l j t) i s) k).
  rewrite !get_blit by (rewrite ?blit_length; lia).
  destruct (Nat.leb_spec i k), (Nat.leb_spec j k), (Nat.ltb_spec k (i + length s)),
    (Nat.ltb_spec k (j + length t)); cbn [andb]; try reflexivity; lia.
Qed.

Lemma update_update_same im o v w :
  entry_ok (length (body im)) o -> update (update im o v) o w = update im o w.
Proof.
  intros Ho. unfold update. destruct (Z.eqb_spec o (-1)); cbn [mmap_addr body]; [reflexivity|].
  unfold entry_ok in Ho. rewrite blit_blit_same by (rewrite ?le_bytes_length; lia). reflexivity.
Qed.

Lemma update_comm im o o' v w :
  entry_ok (length (body im)) o -> entry_ok (length (body im)) o' -> apart o o' ->
  update (update im o v) o' w = update (update im o' w) o v.
Proof.
  intros Ho Ho' [Hne Hap]. unfold update.
  destruct (Z.eqb_spec o (-1)), (Z.eqb_spec o' (-1)); cbn [mmap_addr body]; try reflexivity; [congruence|].
  unfold entry_ok in *. rewrite blit_blit_comm by (rewrite ?le_bytes_length; lia). reflexivity.
Qed.

(** ** Accesses of the flat object *)

Definition where_ (im : image) (o : Z) : Z :=
  if o =? -1 then Z.of_nat (length (body im) + length blob + 12) else o.

Lemma rd32_word_at mem i :
  0 <= i -> i + 4 <= Z.of_nat (length mem) -> rd32 mem i = Ret (word_at mem (Z.to_nat i)).
Proof.
  intros H1 H2. rewrite rd32_in by lia. unfold word_at.
  now rewrite !Z2Nat.inj_add by lia.
Qed.

Lemma flatten_length im :
  length (mmap_addr im) = 4%nat -> length (flatten im) = (length (body im) + length blob + 20)%nat.
Proof.
  intros H. unfold flatten. rewrite !length_app, le_bytes_length, H. cbn [RETOUCH_TAG PRE_TAG length]. lia.
Qed.

Lemma flatten_mmap im :
  flatten im = (body im ++ blob ++ RETOUCH_TAG ++ le_bytes 4 (Z.of_nat (length blob))) ++ mmap_addr im ++ PRE_TAG.
Proof. unfold flatten. now rewrite <- !app_assoc. Qed.

Lemma before_mmap_length im :
  length (body im ++ blob ++ RETOUCH_TAG ++ le_bytes 4 (Z.of_nat (length blob)))
  = (length (body im) + length blob + 12)%nat.
Proof. rewrite !length_app, le_bytes_length. cbn [RETOUCH_TAG length]. lia. Qed.

Lemma rd32_flatten im o :
  length (mmap_addr im) = 4%nat -> entry_ok (length (body im)) o ->
  rd32 (flatten im) (where_ im o) = Ret (lookup im o).
Proof.
  intros Hm Ho. unfold where_, lookup. destruct (Z.eqb_spec o (-1)) as [->|Hne].
  - rewrite rd32_word_at by (rewrite ?flatten_length; lia). f_equal. rewrite flatten_mmap, Nat2Z.id.
    rewrite (word_at_app_at _ _ _ (before_mmap_length im)). apply word_at_app_l. lia.
  - unfold entry_ok in Ho. rewrite rd32_word_at by (rewrite ?flatten_length; lia). f_equal.
    apply word_at_app_l. lia.
Qed.

Lemma blit_app_l a c i s : (i + length s <= length a)%nat -> blit (a ++ c) i s = blit a i s ++ c.
Proof.
  intros H. unfold blit. rewrite firstn_app, skipn_app.
  replace (i - length a)%nat with O by lia. replace (i + length s - length a)%nat with O by lia.
  rewrite firstn_O, skipn_O, app_nil_r. now rewrite <- !app_assoc.
Qed.

Lemma blit_app_r a c i s : blit (a ++ c) (length a + i) s = a ++ blit c i s.
Proof.
  unfold blit. rewrite firstn_app, skipn_app. rewrite firstn_all2 by lia.
  rewrite (skipn_all2 a) by lia. replace (length a + i - length a)%nat with i by lia.
  replace (length a + i + length s - length a)%nat with (i + length s)%nat by lia. now rewrite <- app_assoc.
Qed.

Lemma blit_app_at a c k s : length a = k -> blit (a ++ c) k s = a ++ blit c 0 s.
Proof. intros <-. rewrite <- (blit_app_r a c 0). now rewrite Nat.add_0_r. Qed.

Lemma wr32_flatten im o v :
  length (mmap_addr im) = 4%nat -> entry_ok (length (body im)) o ->
  wr32 (flatten im) (where_ im o) v = Ret (flatten (update im o v)).
Proof.
  intros Hm Ho. unfold wr32. rewrite flatten_length by exact Hm.
  unfold where_, update, entry_ok in *. destruct (Z.eqb_spec o (-1)) as [->|Hne].
  - destruct (Z.ltb_spec (Z.of_nat (length (body im) + length blob + 12)) 0); [lia|].
    destruct (Z.ltb_spec (Z.of_nat (length (body im) + length blob + 20))
      (Z.of_nat (length (body im) + length blob + 12) + 4)); [lia|]. cbn [orb]. f_equal.
    rewrite !flatten_mmap, Nat2Z.id, (blit_app_at _ _ _ _ (before_mmap_length im)).
    cbn [body mmap_addr]. f_equal. rewrite blit_app_l by (rewrite le_bytes_length; lia).
    unfold blit. rewrite le_bytes_length, firstn_O, skipn_all2 by lia. cbn [app]. now rewrite app_nil_r.
  - destruct (Z.ltb_spec o 0); [lia|].
    destruct (Z.ltb_spec (Z.of_nat (length (body im) + length blob + 20)) (o + 4)); [lia|]. cbn [orb]. f_equal.
    unfold flatten. cbn [body mmap_addr]. apply blit_app_l. rewrite le_bytes_length. lia.
Qed.

(** ** Decoding a blob *)

(** The entries of a blob on its own. *)
Fixpoint parse (fuel : nat) (st : compression) (l : list Z) : option (list (Z * Z)) :=
  match l with
  | [] => Some []
  | b0 :: rest =>
      match fuel with
      | O => None
      | S f =>
          let n := (input_size b0 - 1)%nat in
          if (length rest <? n)%nat then None
          else
            let '(o, c) := decode_bytes st (b0 :: firstn n rest) (input_size b0) in
            option_map (cons (o, c)) (parse f {| offs_prev := o; cont_prev := c |} (skipn n rest))
      end
  end.

Lemma rd8_app pre x suf i : i = Z.of_nat (length pre) -> rd8 (pre ++ x :: suf) i = Ret x.
Proof.
  intros ->. unfold rd8. destruct (Z.ltb_spec (Z.of_nat (length pre)) 0); [lia|].
  rewrite Nat2Z.id. apply rd_in.
Qed.

Lemma rd_bytes_app pre l suf i : i = Z.of_nat (length pre) -> rd_bytes (pre ++ l ++ suf) i (length l) = Ret l.
Proof.
  revert pre i. induction l as [|x l IH]; intros pre i ->; cbn [length rd_bytes app]; [reflexivity|].
  rewrite rd8_app by reflexivity. cbn [bind]. specialize (IH (pre ++ [x])). rewrite <- app_assoc in IH.
  cbn [app] in IH. rewrite IH by (rewrite length_app; cbn [length]; lia). reflexivity.
Qed.

Lemma tag_matches_app pre tag suf i :
  i = Z.of_nat (length pre) -> tag_matches (pre ++ tag ++ suf) i tag = Ret true.
Proof.
  revert pre i. induction tag as [|c tag IH]; intros pre i ->; cbn [tag_matches app]; [reflexivity|].
  rewrite rd8_app by reflexivity. cbn [bind]. rewrite Z.eqb_refl. specialize (IH (pre ++ [c])).
  rewrite <- app_assoc in IH. apply IH. rewrite length_app. cbn [length]. lia.
Qed.

Lemma decode_in_memory_app pre b0 rest suf st i :
  i = Z.of_nat (length pre) -> (input_size b0 - 1 <= length rest)%nat ->
  decode_in_memory (pre ++ (b0 :: rest) ++ suf) st i =
  let '(o, c) := decode_bytes st (b0 :: firstn (input_size b0 - 1) rest) (input_size b0) in
  Ret (o, c, {| offs_prev := o; cont_prev := c |}, i + Z.of_nat (input_size b0)).
Proof.
  intros -> Hn. unfold decode_in_memory. cbn [app]. rewrite rd8_app by reflexivity. cbn [bind].
  set (n := (input_size b0 - 1)%nat) in *.
  replace (pre ++ b0 :: rest ++ suf) with ((pre ++ [b0]) ++ firstn n rest ++ (skipn n rest ++ suf)).
  2: { rewrite <- app_assoc. cbn [app]. do 2 f_equal. rewrite app_assoc. now rewrite firstn_skipn. }
  pose proof (rd_bytes_app (pre ++ [b0]) (firstn n rest) (skipn n rest ++ suf) (Z.of_nat (length pre) + 1)) as HR.
  rewrite length_firstn, Nat.min_l in HR by exact Hn.
  rewrite HR by (rewrite length_app; cbn [length]; lia). cbn [bind].
  destruct (decode_bytes _ _ _). reflexivity.
Qed.

(** ** One entry *)

Definition int32 (z : Z) : Prop := - 2 ^ 31 <= z < 2 ^ 31.

Lemma shift_back c d : int32 d -> i32 (u32 (c + d) [-] c) = d.
Proof.
  intros Hd. unfold u32. rewrite Zminus_mod_idemp_l. replace (c + d - c) with d by lia.
  unfold i32. rewrite Zplus_mod_idemp_l. fold (i32 d). now apply i32_small.
Qed.

(** What an entry does to the image. *)
Definition touch (des : option Z) (im : image) (o c : Z) : image :=
  match des with Some d => update im o (u32 (c + d)) | None => im end.

Definition target (des : option Z) : Z := match des with Some d => d | None => 0 end.

(** The state of the loop at the entries that [rest] encodes; [d] is the shift
    every entry has. *)
Record masking (d : Z) (done rest : list Z) (im : image) (s : mask_state) : Prop := {
  mk_blob : blob = done ++ rest;
  mk_object : object s = flatten im;
  mk_mmap : length (mmap_addr im) = 4%nat;
  mk_ptr : b_ptr s = Z.of_nat (length (body im) + length done);
  mk_candidate : offset_set s = true -> offset_candidate s = d;
  mk_match : offset_mismatch s = false
}.

Lemma touch_shape des im o c :
  entry_ok (length (body im)) o ->
  length (body (touch des im o c)) = length (body im) /\
  (length (mmap_addr im) = 4%nat -> length (mmap_addr (touch des im o c)) = 4%nat).
Proof.
  intros Ho. destruct des as [d|]; cbn [touch]; [|auto]. split; [now apply update_body_length|].
  intros Hm. unfold update. destruct (o =? -1); cbn [mmap_addr]; [apply le_bytes_length|exact Hm].
Qed.

Lemma mask_entry_step des d done b0 rest im s :
  int32 d -> masking d done (b0 :: rest) im s -> (input_size b0 - 1 <= length rest)%nat ->
  let '(o, c) := decode_bytes (comp s) (b0 :: firstn (input_size b0 - 1) rest) (input_size b0) in
  entry_ok (length (body im)) o -> lookup (touch des im o c) o = u32 (c + d) ->
  exists s',
    mask_entry des (target des) (Z.of_nat (length (body im)))
      (Z.of_nat (length (body im) + length blob + 12)) s = Ret (inr s') /\
    masking d (done ++ b0 :: firstn (input_size b0 - 1) rest) (skipn (input_size b0 - 1) rest)
      (touch des im o c) s' /\
    comp s' = {| offs_prev := o; cont_prev := c |} /\ offset_set s' = true.
Proof.
  intros Hd [Hb Hobj Hm Hptr Hc Hmm] Hn.
  pose proof (decode_in_memory_app (body im ++ done) b0 rest
    (RETOUCH_TAG ++ le_bytes 4 (Z.of_nat (length blob)) ++ mmap_addr im ++ PRE_TAG) (comp s) (b_ptr s)) as HD.
  rewrite length_app in HD. specialize (HD Hptr Hn).
  destruct (decode_bytes _ _ _) as [o c]. intros Ho Hlk.
  assert (Efl : object s = (body im ++ done) ++ (b0 :: rest) ++
    (RETOUCH_TAG ++ le_bytes 4 (Z.of_nat (length blob)) ++ mmap_addr im ++ PRE_TAG)).
  { rewrite Hobj. unfold flatten. rewrite Hb at 1. now rewrite <- !app_assoc. }
  unfold mask_entry. rewrite Efl, HD, <- Efl, Hobj. cbn [bind].
  destruct (Z.ltb_spec o (-1)); [unfold entry_ok in Ho; lia|].
  destruct (Z.leb_spec (Z.of_nat (length (body im))) o); [unfold entry_ok in Ho; lia|]. cbn [orb].
  fold (where_ im o). destruct (touch_shape des im o c Ho) as [Lb Lm].
  assert (Ew : where_ (touch des im o c) o = where_ im o) by (unfold where_; now rewrite Lb).
  assert (Eobj : match des with Some _ => wr32 (flatten im) (where_ im o) (u32 (c + target des))
                 | None => Ret (flatten im) end = Ret (flatten (touch des im o c))).
  { destruct des as [d'|]; [now apply wr32_flatten|reflexivity]. }
  rewrite Eobj. cbn [bind]. rewrite <- Ew, rd32_flatten by (rewrite ?Lb; auto). rewrite Hlk.
  cbn [bind]. rewrite shift_back by exact Hd. eexists. split; [reflexivity|]. split; [|split; reflexivity].
  split; cbn [object b_ptr offset_set offset_candidate offset_mismatch].
  - rewrite Hb, <- app_assoc. cbn [app]. now rewrite firstn_skipn.
  - reflexivity.
  - auto.
  - rewrite Hptr, Lb, length_app. cbn [length]. rewrite length_firstn.
    pose proof (input_size_cases b0). lia.
  - intros _. destruct (offset_set s); auto.
  - destruct (offset_set s); cbn [andb]; [|exact Hmm]. rewrite Hc, Z.eqb_refl by reflexivity. exact Hmm.
Qed.

(** ** All entries *)

Definition touch_all (des : option Z) (im : image) (es : list (Z * Z)) : image :=
  fold_left (fun im e => touch des im (fst e) (snd e)) es im.

Fixpoint consistent (des : option Z) (d : Z) (im : image) (es : list (Z * Z)) : Prop :=
  match es with
  | [] => True
  | (o, c) :: t =>
      entry_ok (length (body im)) o /\ lookup (touch des im o c) o = u32 (c + d) /\
      consistent des d (touch des im o c) t
  end.

Lemma mask_loop_run des d fuel fuel' done rest im s es :
  int32 d -> masking d done rest im s -> parse fuel' (comp s) rest = Some es -> consistent des d im es ->
  (length rest <= fuel)%nat ->
  exists s',
    mask_loop fuel des (target des) (Z.of_nat (length (body im)))
      (Z.of_nat (length (body im) + length blob + 12)) (Z.of_nat (length (body im) + length blob)) s
    = Ret (Some (inr s')) /\
    masking d blob [] (touch_all des im es) s' /\ (es <> [] -> offset_set s' = true) /\ (es = [] -> s' = s).
Proof.
  intros Hd. revert fuel' done rest im s es.
  induction fuel as [|fuel IH]; intros fuel' done [|b0 rest] im s es HM HP HC Hf;
    try (simpl in Hf; lia).
  1, 2: assert (Hb : blob = done) by (rewrite (mk_blob _ _ _ _ _ HM); apply app_nil_r);
    assert (es = []) as -> by (destruct fuel'; cbn [parse] in HP; congruence);
    exists s; cbn [mask_loop]; rewrite (mk_ptr _ _ _ _ _ HM), <- Hb, Z.ltb_irrefl;
    split; [reflexivity|]; split; [now rewrite <- Hb in HM|split; congruence].
  destruct fuel' as [|fuel']; [discriminate HP|]. cbn [parse] in HP.
  set (n := (input_size b0 - 1)%nat) in *. destruct (Nat.ltb_spec (length rest) n) as [|Hn]; [discriminate HP|].
  pose proof (mask_entry_step des d done b0 rest im s Hd HM Hn) as Hstep. fold n in Hstep.
  destruct (decode_bytes (comp s) _ _) as [o c].
  destruct (parse fuel' _ (skipn n rest)) as [es'|] eqn:HP'; [|discriminate HP].
  injection HP as <-. destruct HC as (Ho & Hlk & HC).
  destruct (Hstep Ho Hlk) as (s1 & Es1 & HM1 & Ecomp & Eset).
  rewrite <- Ecomp in HP'. destruct (touch_shape des im o c Ho) as [Lb _].
  destruct (IH fuel' _ _ _ s1 es' HM1 HP' HC) as (s' & Es' & HM' & Hs1 & Hs2).
  { rewrite length_skipn. simpl in Hf. lia. }
  exists s'. cbn [mask_loop]. rewrite (mk_ptr _ _ _ _ _ HM).
  assert (Hl : (length done < length blob)%nat)
    by (rewrite (mk_blob _ _ _ _ _ HM), length_app; cbn [length]; lia).
  destruct (Z.ltb_spec (Z.of_nat (length (body im) + length done)) (Z.of_nat (length (body im) + length blob)));
    [|lia]. rewrite Es1. cbn [bind]. rewrite Lb in Es'. rewrite Es'.
  split; [reflexivity|]. split; [exact HM'|]. split; [|congruence].
  intros _. destruct es'; [rewrite Hs2 by reflexivity; exact Eset|apply Hs1; congruence].
Qed.

(** The whole function on an image. *)
Lemma retouch_image des d fuel im es ro :
  int32 d -> Z.of_nat (length (flatten im)) < 2 ^ 31 -> length (mmap_addr im) = 4%nat ->
  (length blob <= fuel)%nat ->
  parse (length blob) init_compression_state blob = Some es -> consistent des d im es ->
  retouch_mask_data fuel (flatten im) (Z.of_nat (length (flatten im))) des ro
  = Ret (Some (DATA_MATCHED, flatten (touch_all des im es),
               store ro (match es with [] => target des | _ => d end))).
Proof.
  intros Hd Hlen Hm Hf HP HC. unfold retouch_mask_data, PRELINK_INFO_SIZE, RETOUCH_INFO_SIZE. fold (target des).
  rewrite flatten_length in * by exact Hm.
  set (nb := length (body im)) in *. set (nl := length blob) in *.
  rewrite (i32_small (Z.of_nat (nb + nl + 20) - 8)), (i32_small (Z.of_nat (nb + nl + 20) - 8 - 12)) by lia.
  replace (Z.of_nat (nb + nl + 20) - 8) with (Z.of_nat (nb + nl + 12)) by lia.
  replace (Z.of_nat (nb + nl + 12) - 12) with (Z.of_nat (nb + nl)) by lia.
  destruct (Z.ltb_spec (Z.of_nat (nb + nl)) 0); [lia|].
  assert (EP : flatten im = ((body im ++ blob ++ RETOUCH_TAG ++ le_bytes 4 (Z.of_nat nl)) ++ mmap_addr im)
    ++ PRE_TAG ++ []) by (rewrite flatten_mmap, <- !app_assoc, app_nil_r; reflexivity).
  rewrite EP at 1. rewrite tag_matches_app.
  2: { rewrite length_app. unfold nl at 2. rewrite before_mmap_length, Hm. lia. }
  cbn [bind].
  assert (ER : flatten im = (body im ++ blob) ++ RETOUCH_TAG ++
    (le_bytes 4 (Z.of_nat nl) ++ mmap_addr im ++ PRE_TAG)) by (unfold flatten; now rewrite <- app_assoc).
  rewrite ER at 1. rewrite tag_matches_app by (rewrite length_app; reflexivity). cbn [bind negb].
  rewrite rd32_word_at by (rewrite ?flatten_length by exact Hm; lia).
  assert (ES : word_at (flatten im) (Z.to_nat (Z.of_nat (nb + nl) + 8)) = Z.of_nat nl).
  { rewrite ER, app_assoc. rewrite word_at_app_at by (rewrite !length_app; cbn [RETOUCH_TAG length]; unfold nb, nl; lia).
    rewrite word_at_app_l by (rewrite le_bytes_length; lia). apply word_at_le_bytes. unfold word. lia. }
  rewrite ES. cbn [bind]. replace (Z.of_nat (nb + nl) - Z.of_nat nl) with (Z.of_nat nb) by lia.
  rewrite (i32_small (Z.of_nat nb)) by lia. destruct (Z.ltb_spec (Z.of_nat nb) 0); [lia|].
  set (s0 := {| object := flatten im; comp := _; b_ptr := _; offset_candidate := _; offset_set := _;
                offset_mismatch := _ |}).
  assert (HM : masking d [] blob im s0).
  { split; cbn [s0 object b_ptr offset_set offset_mismatch length app]; auto; discriminate. }
  pose proof (mask_loop_run des d fuel _ [] blob im s0 es Hd HM HP HC Hf) as HL. fold nb nl in HL.
  destruct HL as (s' & -> & HM' & Hs1 & Hs2).
  cbn [bind]. rewrite (mk_ptr _ _ _ _ _ HM'), (mk_match _ _ _ _ _ HM'), (mk_object _ _ _ _ _ HM').
  assert (Lb : length (body (touch_all des im es)) = nb).
  { clear - HC. revert im nb HC. induction es as [|[o c] es IH]; intros im nb HC; [reflexivity|].
    destruct HC as (Ho & _ & HC). cbn [touch_all fold_left fst snd]. unfold touch_all in IH. rewrite IH by exact HC.
    now apply touch_shape. }
  rewrite Lb. destruct (Z.ltb_spec (Z.of_nat (nb + nl)) (Z.of_nat (nb + length blob))); [lia|].
  do 3 f_equal. destruct ro; cbn [store]; [|reflexivity]. f_equal.
  destruct es as [|e es]; [now rewrite Hs2 by reflexivity|].
  apply (mk_candidate _ _ _ _ _ HM'), Hs1. congruence.
Qed.

(** ** Relocation *)

(** Entries that lie before the blob and do not overlap. *)
Definition entries_ok (n : nat) (es : list (Z * Z)) : Prop :=
  Forall (fun e => entry_ok n (fst e)) es /\ ForallOrdPairs (fun e e' => apart (fst e) (fst e')) es.

Lemma apart_sym o o' : apart o o' -> apart o' o.
Proof. intros [H1 H2]. split; [congruence|]. intros; lia. Qed.

Lemma entries_ok_cons n e es :
  entries_ok n (e :: es) ->
  entry_ok n (fst e) /\ Forall (fun e' => apart (fst e) (fst e')) es /\ entries_ok n es.
Proof. intros [H1 H2]. inversion H1; inversion H2; subst. repeat split; assumption. Qed.

Lemma relocate_body_length d es im :
  Forall (fun e => entry_ok (length (body im)) (fst e)) es ->
  length (body (relocate d es im)) = length (body im).
Proof.
  revert im. induction es as [|e es IH]; intros im H; [reflexivity|]. inversion H as [|? ? He Hes]; subst.
  cbn [relocate fold_left]. fold (relocate d es (update im (fst e) (u32 (snd e + d)))).
  rewrite IH; rewrite update_body_length by exact He; [reflexivity|exact Hes].
Qed.

Lemma relocate_mmap_length d es im :
  length (mmap_addr im) = 4%nat -> length (mmap_addr (relocate d es im)) = 4%nat.
Proof.
  revert im. induction es as [|e es IH]; intros im H; [exact H|]. cbn [relocate fold_left]. apply IH.
  unfold update. destruct (_ =? -1); cbn [mmap_addr]; [apply le_bytes_length|exact H].
Qed.

(** A write apart from all entries commutes with the relocation. *)
Lemma update_relocate d es im o v :
  entry_ok (length (body im)) o -> Forall (fun e => apart o (fst e)) es ->
  Forall (fun e => entry_ok (length (body im)) (fst e)) es ->
  update (relocate d es im) o v = relocate d es (update im o v).
Proof.
  revert im. induction es as [|e es IH]; intros im Ho Ha Hes; [reflexivity|].
  inversion Ha as [|? ? Hae Ha']; inversion Hes as [|? ? Hee Hes']; subst.
  cbn [relocate fold_left]. fold (relocate d es (update im (fst e) (u32 (snd e + d)))).
  rewrite IH; rewrite ?update_body_length by exact Hee; try assumption.
  rewrite (update_comm im o (fst e)) by assumption. reflexivity.
Qed.

Lemma lookup_relocate_apart d es im o :
  entry_ok (length (body im)) o -> Forall (fun e => apart o (fst e)) es ->
  Forall (fun e => entry_ok (length (body im)) (fst e)) es -> lookup (relocate d es im) o = lookup im o.
Proof.
  revert im. induction es as [|e es IH]; intros im Ho Ha Hes; [reflexivity|].
  inversion Ha as [|? ? Hae Ha']; inversion Hes as [|? ? Hee Hes']; subst.
  cbn [relocate fold_left]. fold (relocate d es (update im (fst e) (u32 (snd e + d)))).
  rewrite IH by (rewrite ?update_body_length by exact Hee; assumption).
  apply lookup_update_apart; try assumption. now apply apart_sym.
Qed.

Lemma relocate_lookup d es im o c :
  entries_ok (length (body im)) es -> In (o, c) es -> lookup (relocate d es im) o = u32 (c + d).
Proof.
  revert im. induction es as [|e es IH]; intros im Hok Hin; [contradiction|].
  apply entries_ok_cons in Hok as (He & Ha & Hok). cbn [relocate fold_left].
  fold (relocate d es (update im (fst e) (u32 (snd e + d)))).
  destruct Hin as [->|Hin]; cbn [fst snd] in *.
  - rewrite lookup_relocate_apart by (rewrite ?update_body_length by exact He; try assumption; apply Hok).
    apply lookup_update_same; [exact He|apply u32_range].
  - apply IH; [rewrite update_body_length by exact He; exact Hok|exact Hin].
Qed.

Lemma relocate_relocate d d' es im :
  entries_ok (length (body im)) es -> relocate d' es (relocate d es im) = relocate d' es im.
Proof.
  revert im. induction es as [|e es IH]; intros im Hok; [reflexivity|].
  apply entries_ok_cons in Hok as (He & Ha & Hok). cbn [relocate fold_left].
  fold (relocate d es (update im (fst e) (u32 (snd e + d)))).
  fold (relocate d' es (update im (fst e) (u32 (snd e + d')))).
  rewrite update_relocate by (rewrite ?update_body_length by exact He; try assumption; apply Hok).
  rewrite update_update_same by exact He. apply IH. rewrite update_body_length by exact He. exact Hok.
Qed.

Lemma consistent_apply d im es :
  Forall (fun e => entry_ok (length (body im)) (fst e)) es -> consistent (Some d) d im es.
Proof.
  revert im. induction es as [|[o c] es IH]; intros im H; [exact I|]. inversion H as [|? ? He Hes]; subst.
  cbn [fst] in He. split; [exact He|]. split; [apply lookup_update_same; [exact He|apply u32_range]|].
  apply IH. cbn [touch]. rewrite update_body_length by exact He. exact Hes.
Qed.

Lemma consistent_infer d im es :
  Forall (fun e => entry_ok (length (body im)) (fst e)) es ->
  (forall o c, In (o, c) es -> lookup im o = u32 (c + d)) -> consistent None d im es.
Proof.
  induction es as [|[o c] es IH]; intros H Hlk; [exact I|]. inversion H as [|? ? He Hes]; subst.
  split; [exact He|]. split; [apply Hlk; now left|]. apply IH; [exact Hes|]. intros o' c' Hin. apply Hlk. now right.
Qed.

Lemma touch_all_infer im es : touch_all None im es = im.
Proof. induction es as [|e es IH]; [reflexivity|exact IH]. Qed.

(** Bytes that no entry covers stay. *)
Lemma relocate_frame d es im j :
  Forall (fun e => entry_ok (length (body im)) (fst e)) es ->
  (forall e, In e es -> fst e <> -1 -> Z.of_nat j < fst e \/ fst e + 4 <= Z.of_nat j) ->
  get (body (relocate d es im)) j = get (body im) j.
Proof.
  revert im. induction es as [|e es IH]; intros im H Hj; [reflexivity|]. inversion H as [|? ? He Hes]; subst.
  cbn [relocate fold_left]. fold (relocate d es (update im (fst e) (u32 (snd e + d)))).
  rewrite IH; [|rewrite update_body_length by exact He; exact Hes|intros e0 H0 H1; apply Hj; [now right|exact H1]].
  pose proof (Hj e (or_introl eq_refl)) as Hje. unfold update. destruct (Z.eqb_spec (fst e) (-1)) as [|Hne]; [reflexivity|]. specialize (Hje Hne).
  unfold entry_ok in He. cbn [body]. rewrite get_blit by (rewrite le_bytes_length; lia). rewrite le_bytes_length.
  destruct (Nat.leb_spec (Z.to_nat (fst e)) j); destruct (Nat.ltb_spec j (Z.to_nat (fst e) + 4)); cbn [andb];
    try reflexivity. lia.
Qed.

(** So does [mmap_addr] when no entry stands for it. *)
Lemma relocate_mmap_frame d es im : (forall e, In e es -> fst e <> -1) -> mmap_addr (relocate d es im) = mmap_addr im.
Proof.
  revert im. induction es as [|e es IH]; intros im H; [reflexivity|]. cbn [relocate fold_left].
  fold (relocate d es (update im (fst e) (u32 (snd e + d)))). rewrite IH by (intros; apply H; now right).
  unfold update. now rewrite (proj2 (Z.eqb_neq (fst e) (-1))) by (apply H; now left).
Qed.

End Image.

(** * The encoding

    The three forms an entry can take: two or three bytes for a step of 4 to 16
    bytes and a small change of contents, eight bytes otherwise. *)
Definition encode_entry (st : compression) (o c : Z) : list Z :=
  let step := (o - offs_prev st) / 4 - 1 in
  let near := (0 <=? step) && (step <? 4) && ((o - offs_prev st) mod 4 =? 0) in
  let delta := i32 (c - cont_prev st) in
  if near && (- 2 ^ 12 <=? delta) && (delta <? 2 ^ 12) then
    [0x80 + step * 32 + delta mod 2 ^ 13 / 256; delta mod 256]
  else if near && (- 2 ^ 19 <=? delta) && (delta <? 2 ^ 19) then
    [0x40 + step * 16 + delta mod 2 ^ 20 / 2 ^ 16; delta mod 2 ^ 16 / 256; delta mod 256]
  else be_bytes 4 (if o =? -1 then 0x3fffffff else o) ++ be_bytes 4 c.

Fixpoint encode (st : compression) (es : list (Z * Z)) : list Z :=
  match es with
  | [] => []
  | (o, c) :: t => encode_entry st o c ++ encode {| offs_prev := o; cont_prev := c |} t
  end.

(** Facts on all bytes, by enumeration. *)
Lemma byte_cases (P : Z -> bool) :
  forallb P (map Z.of_nat (seq 0 256)) = true -> forall b, 0 <= b < 256 -> P b = true.
Proof.
  intros H b Hb. rewrite forallb_forall in H. apply H. apply in_map_iff. exists (Z.to_nat b).
  split; [lia|]. apply in_seq. lia.
Qed.

Lemma head_bits b :
  0 <= b < 256 ->
  (b .& 0x60) >> 5 = b mod 128 / 32 /\ b .& 0x1f = b mod 32 /\
  (b .& 0x30) >> 4 = b mod 64 / 16 /\ b .& 0x0f = b mod 16 /\
  (b .& 0x80 =? 0) = (b <? 128) /\ (b .& 0x40 =? 0) = (b mod 128 <? 64).
Proof.
  intros Hb. assert (H := byte_cases (fun b =>
    ((b .& 0x60) >> 5 =? b mod 128 / 32) && (b .& 0x1f =? b mod 32) &&
    ((b .& 0x30) >> 4 =? b mod 64 / 16) && (b .& 0x0f =? b mod 16) &&
    eqb (b .& 0x80 =? 0) (b <? 128) && eqb (b .& 0x40 =? 0) (b mod 128 <? 64)) eq_refl b Hb).
  cbv beta in H. rewrite !andb_true_iff, !Z.eqb_eq, !eqb_true_iff in H. tauto.
Qed.

(** The sign extension of a value of [k + 1] bits. *)
Lemma sign_extend k d :
  0 <= k < 31 -> - 2 ^ k <= d < 2 ^ k ->
  (if d mod 2 ^ (k + 1) .& 2 ^ k =? 0 then d mod 2 ^ (k + 1)
   else i32 ((2 ^ 32 - 2 ^ (k + 1)) .| d mod 2 ^ (k + 1))) = d.
Proof.
  intros Hk Hd. set (m := d mod 2 ^ (k + 1)).
  assert (Hp : 0 < 2 ^ k) by (apply Z.pow_pos_nonneg; lia).
  assert (E1 : 2 ^ (k + 1) = 2 * 2 ^ k) by (rewrite Z.pow_add_r by lia; lia).
  assert (Hm : m = if d <? 0 then d + 2 ^ (k + 1) else d).
  { unfold m. destruct (Z.ltb_spec d 0); [|apply Z.mod_small; lia].
    symmetry. apply Z.mod_unique with (-1); lia. }
  assert (Hb : (m .& 2 ^ k =? 0) = negb (Z.testbit m k)).
  { rewrite Z.land_comm. destruct (Z.testbit m k) eqn:E; cbn [negb].
    - apply Z.eqb_neq. intros H0. assert (T : Z.testbit (2 ^ k .& m) k = true)
        by (rewrite Z.land_spec, Z.pow2_bits_true, E by lia; reflexivity).
      rewrite H0, Z.bits_0 in T. discriminate.
    - apply Z.eqb_eq. apply Z.bits_inj'. intros i Hi. rewrite Z.land_spec, Z.bits_0, Z.pow2_bits_eqb by lia.
      destruct (Z.eqb_spec k i) as [<-|]; [now rewrite E|reflexivity]. }
  rewrite Hb. rewrite Z.testbit_odd, shr_div by lia.
  destruct (Z.ltb_spec d 0) as [Hneg|Hpos].
  - replace (m / 2 ^ k) with 1 by (apply Z.div_unique with (m - 2 ^ k); lia). cbn [Z.odd negb].
    replace ((2 ^ 32 - 2 ^ (k + 1)) .| m) with (2 ^ 32 + d).
    + unfold i32. replace (2 ^ 32 + d + 2 ^ 31) with (d + 2 ^ 31 + 1 * 2 ^ 32) by lia.
      rewrite Z_mod_plus_full, Z.mod_small; [lia|].
      assert (2 ^ k <= 2 ^ 30) by (apply Z.pow_le_mono_r; lia). lia.
    + assert (Hd32 : 2 ^ 32 = 2 ^ (31 - k) * 2 ^ (k + 1)) by (rewrite <- Z.pow_add_r by lia; f_equal; lia).
      replace (2 ^ 32 - 2 ^ (k + 1)) with ((2 ^ (31 - k) - 1) << (k + 1))
        by (rewrite shl_mul by lia; lia).
      rewrite lor_shl_add by (try apply Z.mod_pos_bound; lia). lia.
  - replace (m / 2 ^ k) with 0 by (symmetry; apply Z.div_small; lia). cbn [Z.odd negb]. lia.
Qed.

Definition entry_range (o c : Z) : Prop := -1 <= o < 0x3fffffff /\ word 32 c.
Definition state_range (st : compression) : Prop := -1 <= offs_prev st < 0x3fffffff /\ word 32 (cont_prev st).

Lemma apply_delta prev c : word 32 c -> u32 (prev + i32 (c - prev)) = c.
Proof.
  intros Hc. unfold u32, i32. replace (prev + ((c - prev + 2 ^ 31) mod 2 ^ 32 - 2 ^ 31))
    with ((c - prev + 2 ^ 31) mod 2 ^ 32 + (prev - 2 ^ 31)) by lia.
  rewrite Zplus_mod_idemp_l. replace (c - prev + 2 ^ 31 + (prev - 2 ^ 31)) with c by lia.
  now apply Z.mod_small.
Qed.

Lemma mod_div_256 d k : 8 <= k -> d mod 2 ^ k / 256 * 256 + d mod 256 = d mod 2 ^ k.
Proof.
  intros Hk. rewrite <- (Z.mod_mod_divide d (2 ^ k) 256).
  - pose proof (Z.div_mod (d mod 2 ^ k) 256 ltac:(lia)). lia.
  - exists (2 ^ (k - 8)). change 256 with (2 ^ 8). rewrite <- Z.pow_add_r by lia. f_equal. lia.
Qed.

(** The short forms: the step is in the high bits, the change in the low ones. *)
Lemma decode_two st o c step delta :
  state_range st -> entry_range o c -> delta = i32 (c - cont_prev st) ->
  0 <= step < 4 -> o = offs_prev st + (step + 1) * 4 -> - 2 ^ 12 <= delta < 2 ^ 12 ->
  let b0 := 0x80 + step * 32 + delta mod 2 ^ 13 / 256 in
  input_size b0 = 2%nat /\ decode_bytes st [b0; delta mod 256] 2 = (o, c).
Proof.
  intros [Hs1 Hs2] [Ho Hc] Ed Hstep Eo Hd b0.
  assert (Hh : 0 <= delta mod 2 ^ 13 / 256 < 32).
  { pose proof (Z.mod_pos_bound delta (2 ^ 13) ltac:(lia)).
    split; [apply Z.div_pos; lia|apply Z.div_lt_upper_bound; lia]. }
  pose proof (mod_div_256 delta 13 ltac:(lia)) as Elow. pose proof (Z.mod_pos_bound delta 256 ltac:(lia)) as Bl.
  set (h := delta mod 2 ^ 13 / 256) in *.
  destruct (head_bits b0 ltac:(unfold b0; lia)) as (E1 & E2 & _ & _ & E5 & _).
  assert (Q : b0 mod 128 / 32 = step) by (unfold b0; rewrite <- (Z.mod_unique _ 128 1 (step * 32 + h)) by lia;
    symmetry; apply Z.div_unique with h; lia).
  assert (L : b0 mod 32 = h) by (symmetry; apply Z.mod_unique with (4 + step); unfold b0; lia).
  split; [unfold input_size; rewrite E5; destruct (Z.ltb_spec b0 128); [unfold b0 in *; lia|reflexivity]|].
  unfold decode_bytes. cbn [Nat.eqb get nth]. rewrite E1, E2, Q, L, lor_shl_add by lia.
  change (h * 2 ^ 8) with (h * 256). rewrite Elow. change 0x1000 with (2 ^ 12). change 0xffffe000 with (2 ^ 32 - 2 ^ (12 + 1)).
  rewrite (sign_extend 12) by lia. rewrite Ed, apply_delta by exact Hc. f_equal.
  rewrite <- Eo. apply i32_small. lia.
Qed.

Lemma decode_three st o c step delta :
  state_range st -> entry_range o c -> delta = i32 (c - cont_prev st) ->
  0 <= step < 4 -> o = offs_prev st + (step + 1) * 4 -> - 2 ^ 19 <= delta < 2 ^ 19 ->
  let b0 := 0x40 + step * 16 + delta mod 2 ^ 20 / 2 ^ 16 in
  input_size b0 = 3%nat /\
  decode_bytes st [b0; delta mod 2 ^ 16 / 256; delta mod 256] 3 = (o, c).
Proof.
  intros [Hs1 Hs2] [Ho Hc] Ed Hstep Eo Hd b0.
  assert (Hh : 0 <= delta mod 2 ^ 20 / 2 ^ 16 < 16).
  { pose proof (Z.mod_pos_bound delta (2 ^ 20) ltac:(lia)).
    split; [apply Z.div_pos; lia|apply Z.div_lt_upper_bound; lia]. }
  assert (Elow : delta mod 2 ^ 20 / 2 ^ 16 * 2 ^ 16 + delta mod 2 ^ 16 = delta mod 2 ^ 20).
  { rewrite <- (Z.mod_mod_divide delta (2 ^ 20) (2 ^ 16)) by (exists (2 ^ 4); reflexivity).
    pose proof (Z.div_mod (delta mod 2 ^ 20) (2 ^ 16) ltac:(lia)). lia. }
  pose proof (mod_div_256 delta 16 ltac:(lia)) as Emid. pose proof (Z.mod_pos_bound delta 256 ltac:(lia)) as Bl.
  pose proof (Z.mod_pos_bound delta (2 ^ 16) ltac:(lia)) as Bm.
  assert (Hm : 0 <= delta mod 2 ^ 16 / 256 < 256)
    by (split; [apply Z.div_pos; lia|apply Z.div_lt_upper_bound; lia]).
  set (h := delta mod 2 ^ 20 / 2 ^ 16) in *. set (m := delta mod 2 ^ 16 / 256) in *.
  destruct (head_bits b0 ltac:(unfold b0; lia)) as (_ & _ & E3 & E4 & E5 & E6).
  assert (Q : b0 mod 64 / 16 = step) by (unfold b0; rewrite <- (Z.mod_unique _ 64 1 (step * 16 + h)) by lia;
    symmetry; apply Z.div_unique with h; lia).
  assert (L : b0 mod 16 = h) by (symmetry; apply Z.mod_unique with (4 + step); unfold b0; lia).
  assert (B : b0 mod 128 = b0) by (apply Z.mod_small; unfold b0; lia).
  split.
  { unfold input_size. rewrite E5, E6, B. destruct (Z.ltb_spec b0 128), (Z.ltb_spec b0 64);
      try reflexivity; unfold b0 in *; lia. }
  unfold decode_bytes. cbn [Nat.eqb get nth]. rewrite E3, E4, Q, L, <- Z.lor_assoc.
  rewrite (lor_shl_add m), (lor_shl_add h) by lia. change (m * 2 ^ 8) with (m * 256). rewrite Emid, Elow.
  change 0x80000 with (2 ^ 19). change 0xfff00000 with (2 ^ 32 - 2 ^ (19 + 1)).
  rewrite (sign_extend 19) by lia. rewrite Ed, apply_delta by exact Hc. f_equal.
  rewrite <- Eo. apply i32_small. lia.
Qed.

Lemma decode_eight st o c :
  entry_range o c ->
  let l := be_bytes 4 (if o =? -1 then 0x3fffffff else o) ++ be_bytes 4 c in
  input_size (get l 0) = 8%nat /\ decode_bytes st l 8 = (o, c).
Proof.
  intros [Ho Hc] l. set (o' := if o =? -1 then 0x3fffffff else o) in *.
  assert (Ho' : 0 <= o' < 2 ^ 30) by (unfold o'; destruct (Z.eqb_spec o (-1)); lia).
  split.
  - cbn [l be_bytes app get nth]. change (8 * Z.of_nat 3) with 24. rewrite shr_div by lia.
    assert (Hb : 0 <= o' / 2 ^ 24 < 64) by (split; [apply Z.div_pos; lia|apply Z.div_lt_upper_bound; lia]).
    rewrite u8_small by lia. destruct (head_bits (o' / 2 ^ 24) ltac:(lia)) as (_ & _ & _ & _ & E5 & E6).
    unfold input_size. rewrite E5, E6, (Z.mod_small (o' / 2 ^ 24)) by lia.
    destruct (Z.ltb_spec (o' / 2 ^ 24) 128), (Z.ltb_spec (o' / 2 ^ 24) 64); try reflexivity; lia.
  - unfold decode_bytes. change (8 =? 2)%nat with false. change (8 =? 3)%nat with false. cbv iota.
    assert (W : word 32 o') by (unfold word; lia).
    pose proof (word_at_le_bytes o' W) as E1. pose proof (word_at_le_bytes c Hc) as E2.
    change (be32 (get l 0) (get l 1) (get l 2) (get l 3)) with (word_at (le_bytes 4 o') 0).
    change (be32 (get l 4) (get l 5) (get l 6) (get l 7)) with (word_at (le_bytes 4 c) 0).
    rewrite E1, E2, i32_small, u32_small by (try exact Hc; lia). f_equal.
    unfold o'. destruct (Z.eqb_spec o (-1)) as [->|Hne]; [reflexivity|].
    destruct (Z.eqb_spec o 0x3fffffff); [lia|reflexivity].
Qed.

(** The encoding of one entry is read back, whatever follows. *)
Lemma parse_encode_entry st o c rest fuel :
  state_range st -> entry_range o c ->
  parse (S fuel) st (encode_entry st o c ++ rest)
  = option_map (cons (o, c)) (parse fuel {| offs_prev := o; cont_prev := c |} rest).
Proof.
  intros Hst He. unfold encode_entry. set (step := (o - offs_prev st) / 4 - 1).
  destruct ((0 <=? step) && (step <? 4) && ((o - offs_prev st) mod 4 =? 0)) eqn:Hnear; cbn [andb].
  - rewrite !andb_true_iff, Z.leb_le, Z.ltb_lt, Z.eqb_eq in Hnear. destruct Hnear as [[H1 H2] H3].
    assert (Eo : o = offs_prev st + (step + 1) * 4)
      by (pose proof (Z.div_mod (o - offs_prev st) 4 ltac:(lia)); unfold step; lia).
    set (delta := i32 (c - cont_prev st)).
    destruct (Z.leb_spec (- 2 ^ 12) delta), (Z.ltb_spec delta (2 ^ 12)); cbn [andb];
      try (destruct (decode_two st o c step delta Hst He eq_refl ltac:(lia) Eo ltac:(lia)) as [D1 D2];
           cbn [parse app length]; rewrite D1; cbn [Nat.sub Nat.ltb Nat.leb length firstn skipn];
           rewrite D2; reflexivity);
      destruct (Z.leb_spec (- 2 ^ 19) delta), (Z.ltb_spec delta (2 ^ 19)); cbn [andb]; try lia;
      try (destruct (decode_three st o c step delta Hst He eq_refl ltac:(lia) Eo ltac:(lia)) as [D1 D2];
           cbn [parse app length]; rewrite D1; cbn [Nat.sub Nat.ltb Nat.leb length firstn skipn];
           rewrite D2; reflexivity).
    all: destruct (decode_eight st o c He) as [D1 D2]; cbn [be_bytes app get nth] in D1, D2 |- *;
      cbn [parse]; rewrite D1; cbn [Nat.sub Nat.ltb Nat.leb length firstn skipn]; rewrite D2; reflexivity.
  - destruct (decode_eight st o c He) as [D1 D2]. cbn [be_bytes app get nth] in D1, D2 |- *.
    cbn [parse]. rewrite D1. cbn [Nat.sub Nat.ltb Nat.leb length firstn skipn]. rewrite D2. reflexivity.
Qed.

Lemma parse_encode fuel st es :
  state_range st -> Forall (fun e => entry_range (fst e) (snd e)) es -> (length es <= fuel)%nat ->
  parse fuel st (encode st es) = Some es.
Proof.
  revert fuel st. induction es as [|[o c] es IH]; intros fuel st Hst Hes Hf; [destruct fuel; reflexivity|].
  inversion Hes as [|? ? He Hes']; subst. cbn [fst snd] in He. destruct fuel as [|fuel]; [simpl in Hf; lia|].
  cbn [encode]. rewrite parse_encode_entry by assumption.
  rewrite IH; [reflexivity|exact He|exact Hes'|simpl in Hf; lia].
Qed.

Lemma encode_entry_nonempty st o c : (1 <= length (encode_entry st o c))%nat.
Proof. unfold encode_entry. repeat destruct (_ && _); cbn [length]; rewrite ?length_app, ?be_bytes_length; lia. Qed.

Lemma encode_length st es : (length es <= length (encode st es))%nat.
Proof.
  revert st. induction es as [|[o c] es IH]; intros st; cbn [encode length]; [lia|].
  rewrite length_app. specialize (IH {| offs_prev := o; cont_prev := c |}).
  pose proof (encode_entry_nonempty st o c). lia.
Qed.

Lemma init_range : state_range init_compression_state.
Proof. unfold state_range, word. cbn [offs_prev cont_prev init_compression_state]. lia. Qed.

Lemma parse_encode_blob es :
  Forall (fun e => entry_range (fst e) (snd e)) es ->
  let blob := encode init_compression_state es in
  parse (length blob) init_compression_state blob = Some es.
Proof. intros H. apply parse_encode; [exact init_range|exact H|apply encode_length]. Qed.

(** * Theorems *)

(** C33: [retouch_mask_data] is memory safe and ends on every object: whatever the
    bytes and whatever the blob claims, with as much fuel as the object has bytes
    it returns, never reads or writes outside the object, keeps its length, and
    changes nothing when it only infers the offset. *)
Theorem retouch_mask_data_safe fuel obj des ro :
  Z.of_nat (length obj) < 2 ^ 31 -> (length obj <= fuel)%nat ->
  exists v obj' ro', retouch_mask_data fuel obj (Z.of_nat (length obj)) des ro = Ret (Some (v, obj', ro')) /\
    length obj' = length obj /\ (des = None -> obj' = obj).
Proof. apply retouch_mask_data_in. Qed.

(** The entries of the example: a step the long form encodes, one for each short
    form, and [mmap_addr]. *)
Definition demo_entries : list (Z * Z) := [(4, 0x10000); (8, 0x10010); (16, 0x20000); (-1, 0x8000)].
Definition demo_blob : list Z := encode init_compression_state demo_entries.
Definition demo_image : image := {| body := repeat 7 24; mmap_addr := [0; 0; 0; 0] |}.

Lemma retouch_mask_data_safe_witness :
  exists v obj' ro',
    retouch_mask_data 100 (flatten demo_blob demo_image) (Z.of_nat (length (flatten demo_blob demo_image)))
      (Some 5) None = Ret (Some (v, obj', ro')) /\
    length obj' = length (flatten demo_blob demo_image) /\
    (Some 5 = None -> obj' = flatten demo_blob demo_image).
Proof. apply (retouch_mask_data_safe 100 (flatten demo_blob demo_image) (Some 5) None); vm_compute; [reflexivity|lia]. Defined.

(** C26: with a desired offset, on a binary whose blob decodes to entries that lie
    before the blob and do not overlap, [retouch_mask_data] returns
    [RETOUCH_DATA_MATCHED] and that offset.  Afterwards each entry's word is its original
    value plus the offset (the entry -1 stands for [mmap_addr]); every byte before the
    blob that no entry covers is unchanged, [mmap_addr] is when no entry is -1, and so
    are the sizes, the blob and the two records behind it. *)
Theorem retouch_applies blob d fuel im es ro :
  int32 d -> Z.of_nat (length (flatten blob im)) < 2 ^ 31 -> length (mmap_addr im) = 4%nat ->
  (length blob <= fuel)%nat -> parse (length blob) init_compression_state blob = Some es ->
  entries_ok (length (body im)) es ->
  exists im',
    retouch_mask_data fuel (flatten blob im) (Z.of_nat (length (flatten blob im))) (Some d) ro
    = Ret (Some (DATA_MATCHED, flatten blob im', store ro d)) /\
    length (body im') = length (body im) /\ length (mmap_addr im') = 4%nat /\
    (forall o c, In (o, c) es -> lookup im' o = u32 (c + d)) /\
    (forall j, (forall e, In e es -> fst e <> -1 -> Z.of_nat j < fst e \/ fst e + 4 <= Z.of_nat j) ->
       get (body im') j = get (body im) j) /\
    ((forall e, In e es -> fst e <> -1) -> mmap_addr im' = mmap_addr im).
Proof.
  intros Hd Hlen Hm Hf HP Hok. exists (relocate d es im). split; [|split; [|split; [|split; [|split]]]].
  - rewrite (retouch_image blob (Some d) d fuel im es) by (try assumption; apply consistent_apply, Hok).
    destruct es; reflexivity.
  - apply relocate_body_length, Hok.
  - now apply relocate_mmap_length.
  - intros o c. now apply relocate_lookup.
  - intros j. apply relocate_frame, Hok.
  - apply relocate_mmap_frame.
Qed.

Lemma demo_entries_ok : entries_ok (length (body demo_image)) demo_entries.
Proof.
  unfold entries_ok, demo_entries, entry_ok, apart.
  split; [repeat constructor; cbn; lia|]. repeat constructor; cbn; lia.
Qed.

Lemma retouch_applies_witness :
  exists im',
    retouch_mask_data 100 (flatten demo_blob demo_image) (Z.of_nat (length (flatten demo_blob demo_image)))
      (Some 5) (Some 0) = Ret (Some (DATA_MATCHED, flatten demo_blob im', store (Some 0) 5)) /\
    length (body im') = length (body demo_image) /\ length (mmap_addr im') = 4%nat /\
    (forall o c, In (o, c) demo_entries -> lookup im' o = u32 (c + 5)) /\
    (forall j, (forall e, In e demo_entries -> fst e <> -1 -> Z.of_nat j < fst e \/ fst e + 4 <= Z.of_nat j) ->
       get (body im') j = get (body demo_image) j) /\
    ((forall e, In e demo_entries -> fst e <> -1) -> mmap_addr im' = mmap_addr demo_image).
Proof.
  apply (retouch_applies demo_blob 5 100 demo_image demo_entries (Some 0));
    [unfold int32; lia|reflexivity|reflexivity|vm_compute; lia|vm_compute; reflexivity|exact demo_entries_ok].
Defined.

(** C7: masking is reversible.  On a binary whose blob decodes to at least one entry, all
    entries before the blob and not overlapping: after it has been retouched by [d], inferring
    (no desired offset) returns [RETOUCH_DATA_MATCHED] with the offset [d] and
    changes nothing, and retouching it by another [d'] gives the same bytes as
    retouching the original by [d'], so that the mask with offset 0 is canonical. *)
Theorem retouch_roundtrip blob d d' fuel im es ro :
  int32 d -> int32 d' -> Z.of_nat (length (flatten blob im)) < 2 ^ 31 -> length (mmap_addr im) = 4%nat ->
  (length blob <= fuel)%nat -> parse (length blob) init_compression_state blob = Some es ->
  entries_ok (length (body im)) es -> es <> [] ->
  let run o des := retouch_mask_data fuel o (Z.of_nat (length o)) des ro in
  exists o, run (flatten blob im) (Some d) = Ret (Some (DATA_MATCHED, o, store ro d)) /\
    run o None = Ret (Some (DATA_MATCHED, o, store ro d)) /\
    run o (Some d') = run (flatten blob im) (Some d').
Proof.
  intros Hd Hd' Hlen Hm Hf HP Hok Hne run. exists (flatten blob (relocate d es im)).
  pose proof (relocate_body_length d es im (proj1 Hok)) as Lb.
  pose proof (relocate_mmap_length d es im Hm) as Lm.
  assert (Lf : length (flatten blob (relocate d es im)) = length (flatten blob im))
    by (rewrite !flatten_length, Lb by assumption; reflexivity).
  assert (Hap : forall x im', length (body im') = length (body im) -> consistent (Some x) x im' es).
  { intros x im' E. apply consistent_apply. rewrite E. apply Hok. }
  unfold run. split; [|split].
  - rewrite (retouch_image blob (Some d) d fuel im es) by (try assumption; now apply Hap).
    destruct es; [congruence|reflexivity].
  - rewrite (retouch_image blob None d fuel (relocate d es im) es); try assumption; try (rewrite Lf; assumption).
    + rewrite touch_all_infer. destruct es; [congruence|reflexivity].
    + apply consistent_infer; [rewrite Lb; apply Hok|]. intros o c. now apply relocate_lookup.
  - rewrite (retouch_image blob (Some d') d' fuel (relocate d es im) es) by
      (try assumption; try (rewrite Lf; assumption); now apply Hap).
    rewrite (retouch_image blob (Some d') d' fuel im es) by (try assumption; now apply Hap).
    change (touch_all (Some d') (relocate d es im) es) with (relocate d' es (relocate d es im)).
    rewrite relocate_relocate by exact Hok. reflexivity.
Qed.

Lemma retouch_roundtrip_witness :
  let run o des := retouch_mask_data 100 o (Z.of_nat (length o)) des (Some 0) in
  exists o, run (flatten demo_blob demo_image) (Some 5) = Ret (Some (DATA_MATCHED, o, store (Some 0) 5)) /\
    run o None = Ret (Some (DATA_MATCHED, o, store (Some 0) 5)) /\
    run o (Some 0) = run (flatten demo_blob demo_image) (Some 0).
Proof.
  apply (retouch_roundtrip demo_blob 5 0 100 demo_image demo_entries (Some 0));
    [unfold int32; lia|unfold int32; lia|reflexivity|reflexivity|vm_compute; lia|vm_compute; reflexivity
    |exact demo_entries_ok|discriminate].
Defined.

(** The decoder reads every list of entries: offsets from -1 (for [mmap_addr])
    to 2^30 - 2 and 32-bit contents, encoded in the two, three or eight byte form
    their differences allow, are decoded to the same entries by the state machine of
    [decode_bytes]. *)
Theorem retouch_decodes_encoded es :
  Forall (fun e => entry_range (fst e) (snd e)) es ->
  let blob := encode init_compression_state es in
  parse (length blob) init_compression_state blob = Some es.
Proof. apply parse_encode_blob. Qed.

Lemma retouch_decodes_encoded_witness :
  parse (length demo_blob) init_compression_state demo_blob = Some demo_entries.
Proof.
  apply (retouch_decodes_encoded demo_entries). unfold entry_range, word. repeat constructor; cbn; lia.
Defined.
