(* ===== verification/Compat.v ===== *)
(** Small copies of library functions: src/libtar/compat/strlcat.c, strrstr.c, strdup.c and
    inet_aton.c. *)
From stdpp Require Import list.
From S2P Require Import Prelude CString.

(** * strlcat *)

(** The end of the string in [dst], looking at no more than [n] bytes. *)
Fixpoint find_end (n : nat) (dst : list Z) : outcome nat :=
  match n with
  | O => Ret O
  | S n => match dst with [] => Fault | c :: t => if c =? 0 then Ret O else let! k := find_end n t in Ret (S k) end
  end.

(** Copying to the position [d] with [n] bytes left; the position after the copy. *)
Fixpoint append_chars (s : list Z) (dst : list Z) (d n : nat) : list Z * nat :=
  match s with
  | [] => (dst, d)
  | c :: s => if (n =? 1)%nat then append_chars s dst d n else append_chars s (set dst d c) (S d) (n - 1)
  end.

(** The value returned and the buffer; [src] is a string. *)
Definition strlcat (dst src : list Z) (siz : nat) : outcome (Z * list Z) :=
  let! dlen := find_end siz dst in
  let n := (siz - dlen)%nat in
  if (n =? 0)%nat then Ret (Z.of_nat (dlen + length src), dst)
  else
    let '(dst, d) := append_chars src dst dlen n in
    if (d <? length dst)%nat then Ret (Z.of_nat (dlen + length src), set dst d 0) else Fault.

(** * strrstr *)

(** From the position [k] of the string down to its start. *)
Fixpoint search_back (string find : list Z) (k : nat) : option nat :=
  if bool_decide (firstn (length find) (skipn k string) = find) then Some k else match k with O => None | S k => search_back string find k end.

Definition strrstr (string find : list Z) : option nat :=
  if (length string <? length find)%nat then None else search_back string find (length string - length find).

(** * strdup and inet_aton *)

(** Whether memory was there, and the copy with its terminator. *)
Definition openbsd_strdup (available : bool) (s : list Z) : option (list Z) := if available then Some (s ++ [0]) else None.

(** [inet_addr] is a parameter; its error is the address 255.255.255.255. *)
Definition inet_aton (inet_addr : list Z -> Z) (cp : list Z) : Z * Z := let a := inet_addr cp in (if a =? u32 (-1) then 0 else 1, a).

(** * What they do *)

Lemma find_end_string s rest : forall n, chars s -> (length s < n)%nat -> find_end n (s ++ 0 :: rest) = Ret (length s).
Proof.
  induction s as [|c s IH]; intros [|n] Hs Hn; cbn [length app find_end] in *; try lia; [reflexivity|].
  inversion Hs as [|? ? Hc Hs']; subst. rewrite (proj2 (Z.eqb_neq c 0)) by exact Hc. rewrite IH by (auto; lia). reflexivity.
Qed.

Lemma find_end_full (s rest : list Z) : chars s -> find_end (length s) (s ++ rest) = Ret (length s).
Proof. induction 1 as [|c s Hc Hs IH]; [reflexivity|]. cbn [length app find_end]. now rewrite (proj2 (Z.eqb_neq c 0)), IH by exact Hc. Qed.

Lemma set_app_at (a : list Z) x b v : set (a ++ x :: b) (length a) v = a ++ v :: b.
Proof. induction a as [|y a IH]; [reflexivity|]. cbn. now rewrite IH. Qed.

(** The copy stops one byte before the end of the space. *)
Lemma append_chars_spec s : forall pre post n, (1 <= n)%nat -> (n <= length post)%nat ->
  exists post', append_chars s (pre ++ post) (length pre) n = (pre ++ firstn (n - 1) s ++ post', length pre + length (firstn (n - 1) s))%nat /\
    (length post' + length (firstn (n - 1) s) = length post)%nat.
Proof.
  induction s as [|c s IH]; intros pre post n H1 Hn; cbn [append_chars]; [exists post; rewrite firstn_nil; cbn; split; [now rewrite Nat.add_0_r|lia]|].
  destruct (Nat.eqb_spec n 1) as [->|Hne].
  - destruct (IH pre post 1%nat ltac:(lia) Hn) as (post' & E & Hl). exists post'. cbn in *. split; [exact E|exact Hl].
  - destruct post as [|x post]; [cbn in Hn; lia|]. cbn [length] in Hn. rewrite set_app_at. replace (S (length pre)) with (length (pre ++ [c])) by (rewrite length_app; cbn; lia).
    replace (pre ++ c :: post) with ((pre ++ [c]) ++ post) by now rewrite <- app_assoc.
    destruct n as [|[|n]]; [lia|lia|]. replace (S (S n) - 1)%nat with (S n) by lia.
    destruct (IH (pre ++ [c]) post (S n) ltac:(lia) ltac:(lia)) as (post' & -> & Hl). exists post'. replace (S n - 1)%nat with n in * by lia.
    cbn [firstn length]. rewrite length_app, <- app_assoc. cbn [length app]. split; [apply f_equal2; [reflexivity|lia]|lia].
Qed.

(** For a buffer of the size that is passed: the value is the length of both strings
    together, and the buffer holds as much of their concatenation as fits, with a
    terminator, unless it was full before. *)
Lemma strlcat_spec (s rest src : list Z) : chars s ->
  let siz := length (s ++ 0 :: rest) in
  exists tail, strlcat (s ++ 0 :: rest) src siz = Ret (Z.of_nat (length s + length src), firstn (siz - 1) (s ++ src) ++ 0 :: tail) /\
    length (firstn (siz - 1) (s ++ src) ++ 0 :: tail) = siz.
Proof.
  intros Hs siz. unfold strlcat. rewrite find_end_string by (auto; unfold siz; rewrite length_app; cbn; lia). cbn [bind].
  assert (Hsiz : siz = (length s + S (length rest))%nat) by (unfold siz; rewrite length_app; reflexivity).
  rewrite (proj2 (Nat.eqb_neq _ 0)) by lia. destruct (append_chars_spec src s (0 :: rest) (siz - length s) ltac:(lia)) as (post' & -> & Hl); [cbn; lia|].
  replace (siz - length s - 1)%nat with (length rest) in * by lia. cbn [length] in Hl.
  assert (Hf : firstn (siz - 1) (s ++ src) = s ++ firstn (length rest) src) by (rewrite firstn_app, firstn_all2 by lia; do 2 f_equal; lia).
  assert (Hfl : (length (firstn (length rest) src) <= length rest)%nat) by (rewrite length_firstn; lia).
  destruct post' as [|x post']; [cbn in Hl; lia|]. rewrite (proj2 (Nat.ltb_lt _ _)) by (rewrite !length_app; cbn; lia).
  exists post'. rewrite <- (length_app s (firstn (length rest) src)), (app_assoc s), set_app_at, Hf. split; [reflexivity|]. rewrite !length_app. cbn [length] in *. lia.
Qed.

(** The last place where the second string starts. *)
Lemma search_back_spec string find k r : search_back string find k = Some r <->
  (r <= k)%nat /\ firstn (length find) (skipn r string) = find /\ forall j, (r < j <= k)%nat -> firstn (length find) (skipn j string) <> find.
Proof.
  induction k as [|k IH]; cbn [search_back]; case_bool_decide as Hd.
  - split; [intros [= <-]; repeat split; auto; lia|]. intros (Hr & _). f_equal. lia.
  - split; [discriminate|]. intros (Hr & E & _). replace r with O in E by lia. contradiction.
  - split; [intros [= <-]; repeat split; auto; lia|]. intros (Hr & E & Hl). f_equal. destruct (Nat.eq_dec r (S k)); [auto|]. exfalso. eapply (Hl (S k)); [lia|exact Hd].
  - rewrite IH. split; intros (Hr & E & Hl).
    + split; [lia|]. split; [exact E|]. intros j Hj. destruct (Nat.eq_dec j (S k)) as [->|]; [exact Hd|apply Hl; lia].
    + split; [destruct (Nat.eq_dec r (S k)); [subst; contradiction|lia]|]. split; [exact E|]. intros j Hj. apply Hl. lia.
Qed.

Lemma strrstr_last string find r : strrstr string find = Some r <->
  firstn (length find) (skipn r string) = find /\ (r + length find <= length string)%nat /\
  forall j, (r < j)%nat -> (j + length find <= length string)%nat -> firstn (length find) (skipn j string) <> find.
Proof.
  unfold strrstr. destruct (Nat.ltb_spec (length string) (length find)).
  - split; [discriminate|]. intros (_ & Hl & _). lia.
  - rewrite search_back_spec. split; intros (A & B & C); repeat split; auto; try lia; intros j; try intros; apply C; lia.
Qed.

(** The address 255.255.255.255 is refused. *)
Lemma broadcast_refused cp inet_addr : inet_addr cp = 2 ^ 32 - 1 -> fst (inet_aton inet_addr cp) = 0.
Proof. intros E. unfold inet_aton. now rewrite E. Qed.
