(* ===== verification/Fnmatch.v ===== *)
(** Matching of file names: src/libtar/compat/fnmatch.c.

    Patterns and names are lists of characters without the terminator; reading past the
    last one gives [EOS].  One unit of fuel is one turn of the loop of [fnmatch]. *)
From Stdlib Require Import String.
From stdpp Require Import list.
From S2P Require Import Prelude CString.

Definition FNM_NOMATCH : Z := 1.
Definition FNM_NOESCAPE : Z := 1.
Definition FNM_PATHNAME : Z := 2.
Definition FNM_PERIOD : Z := 4.
Definition FNM_LEADING_DIR : Z := 8.
Definition FNM_CASEFOLD : Z := 16.

Definition EOS : Z := 0.
Definition DOT : Z := 46.
Definition STAR : Z := 42.
Definition QUESTION : Z := 63.
Definition LBRACKET : Z := 91.
Definition RBRACKET : Z := 93.
Definition BACKSLASH : Z := 92.
Definition DASH : Z := 45.
Definition BANG : Z := 33.
Definition CARET : Z := 94.

(** [flags & bit] as a condition. *)
Definition has (flags bit : Z) : bool := negb (Z.land flags bit =? 0).

(** [*s] *)
Definition at_ (s : list Z) : Z := match s with c :: _ => c | [] => EOS end.

(** [tolower] in the locale "C". *)
Definition tolower (c : Z) : Z := if (65 <=? c) && (c <=? 90) then c + 32 else c.

Section Fnmatch.

(** Whether [char] is signed. *)
Context (char_signed : bool).
Definition char_value (c : Z) : Z := if char_signed && (128 <=? c) then c - 256 else c.

Definition fold_case (flags c : Z) : Z := if has flags FNM_CASEFOLD then tolower c else c.

(** [c = *pattern++], and once more after a backslash. *)
Definition unescape (flags c : Z) (p : list Z) : Z * list Z :=
  if (c =? BACKSLASH) && negb (has flags FNM_NOESCAPE) then (at_ p, tl p) else (c, p).

Inductive range := RANGE_ERROR | RANGE_NOMATCH | RANGE_MATCH (newp : list Z).

(** The loop over the elements: [c] has been read, [p] is left. *)
Fixpoint range_loop (fuel : nat) (flags test : Z) (negate ok : bool) (c : Z) (p : list Z) : option range :=
  match fuel with
  | O => None
  | S fuel =>
      let next ok p :=
        if at_ p =? RBRACKET then Some (if Bool.eqb ok negate then RANGE_NOMATCH else RANGE_MATCH (tl p))
        else range_loop fuel flags test negate ok (at_ p) (tl p) in
      let '(c, p) := unescape flags c p in
      if c =? EOS then Some RANGE_ERROR
      else if (c =? SLASH) && has flags FNM_PATHNAME then Some RANGE_NOMATCH
      else
        let c := fold_case flags c in
        let c2 := at_ (tl p) in
        if (at_ p =? DASH) && negb (c2 =? EOS) && negb (c2 =? RBRACKET) then
          let '(c2, p) := unescape flags c2 (tl (tl p)) in
          if c2 =? EOS then Some RANGE_ERROR
          else
            let c2 := fold_case flags c2 in
            next (ok || ((char_value c <=? char_value test) && (char_value test <=? char_value c2))) p
        else next (ok || (c =? test)) p
  end.

Definition rangematch (pattern : list Z) (test flags : Z) : option range :=
  let negate := (at_ pattern =? BANG) || (at_ pattern =? CARET) in
  let p := if negate then tl pattern else pattern in
  range_loop (S (length pattern)) flags (fold_case flags test) negate false (at_ p) (tl p).

(** A period at the start, which has to be matched by a period; [prev] is the character
    before the string, unless the string is at its start. *)
Definition leading_period (flags : Z) (prev : option Z) (string : list Z) : bool :=
  (at_ string =? DOT) && has flags FNM_PERIOD &&
  match prev with None => true | Some c => has flags FNM_PATHNAME && (c =? SLASH) end.

Fixpoint skip_stars (p : list Z) : list Z := match p with c :: t => if c =? STAR then skip_stars t else p | [] => [] end.

(** [strchr(string, '/')], with the character before it. *)
Fixpoint to_slash (prev : option Z) (s : list Z) : option (option Z * list Z) :=
  match s with [] => None | c :: t => if c =? SLASH then Some (prev, s) else to_slash (Some c) t end.

(** The loop over the places where the rest of the pattern can match. *)
Fixpoint star_loop (match_here : list Z -> option Z) (flags : Z) (string : list Z) : option Z :=
  match string with
  | [] => Some FNM_NOMATCH
  | test :: rest =>
      match match_here string with
      | None => None
      | Some r => if r =? 0 then Some 0
                  else if (test =? SLASH) && has flags FNM_PATHNAME then Some FNM_NOMATCH
                  else star_loop match_here flags rest
      end
  end.

Definition same_char (flags c d : Z) : bool := (c =? d) || has flags FNM_CASEFOLD && (tolower c =? tolower d).

Fixpoint fnmatch_at (fuel : nat) (pattern : list Z) (prev : option Z) (string : list Z) (flags : Z) : option Z :=
  match fuel with
  | O => None
  | S fuel =>
      let advance pattern := fnmatch_at fuel pattern (Some (at_ string)) (tl string) flags in
      let normal c pattern := if negb (same_char flags c (at_ string)) then Some FNM_NOMATCH else advance pattern in
      let refused := (at_ string =? EOS) || (at_ string =? SLASH) && has flags FNM_PATHNAME || leading_period flags prev string in
      match pattern with
      | [] => Some (if has flags FNM_LEADING_DIR && (at_ string =? SLASH) then 0 else if at_ string =? EOS then 0 else FNM_NOMATCH)
      | c :: pattern =>
          if c =? QUESTION then if refused then Some FNM_NOMATCH else advance pattern
          else if c =? STAR then
            let pattern := skip_stars pattern in
            if leading_period flags prev string then Some FNM_NOMATCH
            else match pattern with
                 | [] => Some (if has flags FNM_PATHNAME
                               then if has flags FNM_LEADING_DIR || match strchr string SLASH with None => true | Some _ => false end then 0 else FNM_NOMATCH
                               else 0)
                 | c :: _ =>
                     if (c =? SLASH) && has flags FNM_PATHNAME then
                       match to_slash prev string with
                       | None => Some FNM_NOMATCH
                       | Some (prev, string) => fnmatch_at fuel pattern prev string flags
                       end
                     else star_loop (fun string => fnmatch_at fuel pattern None string (Z.ldiff flags FNM_PERIOD)) flags string
                 end
          else if c =? LBRACKET then
            if refused then Some FNM_NOMATCH
            else match rangematch pattern (at_ string) flags with
                 | None => None
                 | Some RANGE_ERROR => normal c pattern
                 | Some (RANGE_MATCH newp) => advance newp
                 | Some RANGE_NOMATCH => Some FNM_NOMATCH
                 end
          else if c =? BACKSLASH then
            if negb (has flags FNM_NOESCAPE)
            then match pattern with [] => normal BACKSLASH [] | c :: pattern => normal c pattern end
            else normal c pattern
          else normal c pattern
      end
  end.

Definition fnmatch (pattern string : list Z) (flags : Z) : option Z := fnmatch_at (S (length pattern)) pattern None string flags.
End Fnmatch.

(** * What a pattern means *)

(** A pattern as a sequence of elements: a character, any character, any string, a set
    given by ranges and perhaps complemented, and a set that matches nothing. *)
Inductive atom := ALit (c : Z) | AAny | AStar | ASet (negate : bool) (ranges : list (Z * Z)) | ANever.

Inductive set_parse := SetError | SetNever | SetOk (ranges : list (Z * Z)) (rest : list Z).
Definition add_range (r : Z * Z) (s : option set_parse) : option set_parse :=
  match s with Some (SetOk rs rest) => Some (SetOk (r :: rs) rest) | _ => s end.

(** The ranges of a bracket expression of which [c] has been read. *)
Fixpoint set_ranges (fuel : nat) (flags c : Z) (p : list Z) : option set_parse :=
  match fuel with
  | O => None
  | S fuel =>
      let next p := if at_ p =? RBRACKET then Some (SetOk [] (tl p)) else set_ranges fuel flags (at_ p) (tl p) in
      let '(c, p) := unescape flags c p in
      if c =? EOS then Some SetError
      else if (c =? SLASH) && has flags FNM_PATHNAME then Some SetNever
      else
        let c := fold_case flags c in
        let c2 := at_ (tl p) in
        if (at_ p =? DASH) && negb (c2 =? EOS) && negb (c2 =? RBRACKET) then
          let '(c2, p) := unescape flags c2 (tl (tl p)) in
          if c2 =? EOS then Some SetError else add_range (c, fold_case flags c2) (next p)
        else add_range (c, c) (next p)
  end.

Definition negated (p : list Z) : bool := (at_ p =? BANG) || (at_ p =? CARET).
Definition set_at (flags : Z) (p : list Z) : option set_parse :=
  let q := if negated p then tl p else p in set_ranges (S (length p)) flags (at_ q) (tl q).

Fixpoint parse (fuel : nat) (flags : Z) (p : list Z) : list atom :=
  match fuel, p with
  | S fuel, c :: p =>
      if c =? QUESTION then AAny :: parse fuel flags p
      else if c =? STAR then AStar :: parse fuel flags p
      else if c =? LBRACKET then
        match set_at flags p with
        | Some (SetOk rs rest) => ASet (negated p) rs :: parse fuel flags rest
        | Some SetNever => [ANever]
        | _ => ALit c :: parse fuel flags p
        end
      else if (c =? BACKSLASH) && negb (has flags FNM_NOESCAPE) then
        match p with [] => [ALit BACKSLASH] | c :: p => ALit c :: parse fuel flags p end
      else ALit c :: parse fuel flags p
  | _, _ => []
  end.
Definition atoms (flags : Z) (p : list Z) : list atom := parse (S (length p)) flags p.

Section Meaning.
Context (char_signed : bool) (flags : Z).

(** With [FNM_PATHNAME] a slash is only matched by a slash. *)
Definition crosses (d : Z) : bool := negb ((d =? SLASH) && has flags FNM_PATHNAME).

Definition in_ranges (rs : list (Z * Z)) (d : Z) : bool :=
  existsb (fun '(lo, hi) => (char_value char_signed lo <=? char_value char_signed d) && (char_value char_signed d <=? char_value char_signed hi)) rs.

Inductive matches : list atom -> list Z -> Prop :=
| m_end : matches [] []
| m_dir s : has flags FNM_LEADING_DIR = true -> matches [] (SLASH :: s)
| m_lit c d p s : same_char flags c d = true -> matches p s -> matches (ALit c :: p) (d :: s)
| m_any d p s : crosses d = true -> matches p s -> matches (AAny :: p) (d :: s)
| m_set neg rs d p s : crosses d = true -> in_ranges rs (fold_case flags d) <> neg -> matches p s -> matches (ASet neg rs :: p) (d :: s)
| m_star_end p s : matches p s -> matches (AStar :: p) s
| m_star_more d p s : crosses d = true -> matches (AStar :: p) s -> matches (AStar :: p) (d :: s).
End Meaning.

(** * Sets *)

Section Sets.
Context (char_signed : bool).

Lemma char_value_inj c d : 0 <= c < 256 -> 0 <= d < 256 -> (char_value char_signed c <=? char_value char_signed d) && (char_value char_signed d <=? char_value char_signed c) = (c =? d).
Proof.
  intros Hc Hd. unfold char_value. destruct char_signed, (Z.leb_spec 128 c), (Z.leb_spec 128 d); cbn [andb];
    repeat match goal with |- context [?a <=? ?b] => destruct (Z.leb_spec a b) end; destruct (Z.eqb_spec c d); cbn; lia.
Qed.

Definition as_range (neg ok : bool) (test : Z) (s : set_parse) : range :=
  match s with
  | SetError => RANGE_ERROR
  | SetNever => RANGE_NOMATCH
  | SetOk rs rest => if Bool.eqb (ok || in_ranges char_signed rs test) neg then RANGE_NOMATCH else RANGE_MATCH rest
  end.

Lemma as_range_add neg ok test lo hi s :
  option_map (as_range neg ok test) (add_range (lo, hi) s) =
  option_map (as_range neg (ok || ((char_value char_signed lo <=? char_value char_signed test) && (char_value char_signed test <=? char_value char_signed hi))) test) s.
Proof. destruct s as [[| |rs rest]|]; try reflexivity. cbn. now rewrite orb_assoc. Qed.

Lemma fold_case_byte flags c : 0 <= c < 256 -> 0 <= fold_case flags c < 256.
Proof. intros Hc. unfold fold_case, tolower. destruct (has flags FNM_CASEFOLD); [|exact Hc]. destruct (Z.leb_spec 65 c), (Z.leb_spec c 90); cbn; lia. Qed.

Lemma at_byte p : bytes p -> 0 <= at_ p < 256 /\ bytes (tl p).
Proof. intros Hp. destruct Hp as [|c p Hc Hp]; [split; [unfold at_, EOS; lia|constructor]|]. split; assumption. Qed.

Lemma unescape_byte flags c p c' p' : unescape flags c p = (c', p') -> 0 <= c < 256 -> bytes p -> 0 <= c' < 256 /\ bytes p'.
Proof. unfold unescape. intros E Hc Hp. destruct (_ && _); injection E as <- <-; [now apply at_byte|now split]. Qed.

Lemma range_loop_spec fuel : forall flags test neg ok c p, 0 <= test < 256 -> 0 <= c < 256 -> bytes p ->
  range_loop char_signed fuel flags test neg ok c p = option_map (as_range neg ok test) (set_ranges fuel flags c p).
Proof.
  induction fuel as [|fuel IH]; intros flags test neg ok c p Ht Hc Hp; [reflexivity|]. cbn [range_loop set_ranges].
  assert (Hnext : forall ok p, bytes p ->
    (if at_ p =? RBRACKET then Some (if Bool.eqb ok neg then RANGE_NOMATCH else RANGE_MATCH (tl p)) else range_loop char_signed fuel flags test neg ok (at_ p) (tl p)) =
    option_map (as_range neg ok test) (if at_ p =? RBRACKET then Some (SetOk [] (tl p)) else set_ranges fuel flags (at_ p) (tl p))).
  { intros ok' q Hq. destruct (at_byte q Hq) as [Ha Htl]. destruct (at_ q =? RBRACKET); [cbn; now rewrite orb_false_r|]. now apply IH. }
  destruct (unescape flags c p) as [c1 p1] eqn:E1. destruct (unescape_byte _ _ _ _ _ E1 Hc Hp) as [Hc1 Hp1].
  destruct (c1 =? EOS); [reflexivity|]. destruct (_ && has flags FNM_PATHNAME); [reflexivity|].
  destruct (at_byte p1 Hp1) as [_ Ht1]. destruct (at_byte _ Ht1) as [Ha2 Ht2].
  destruct (_ && negb (at_ (tl p1) =? RBRACKET)).
  - destruct (unescape flags (at_ (tl p1)) (tl (tl p1))) as [c2 p2] eqn:E2. destruct (unescape_byte _ _ _ _ _ E2 Ha2 Ht2) as [Hc2 Hp2].
    destruct (c2 =? EOS); [reflexivity|]. rewrite as_range_add. now apply Hnext.
  - rewrite as_range_add, char_value_inj by (auto using fold_case_byte). now apply Hnext.
Qed.

Lemma rangematch_spec p d flags : bytes p -> 0 <= d < 256 ->
  rangematch char_signed p d flags = option_map (as_range (negated p) false (fold_case flags d)) (set_at flags p).
Proof.
  intros Hp Hd. unfold rangematch, set_at. fold (negated p). destruct (at_byte p Hp) as [Ha Ht]. destruct (at_byte _ Ht) as [Ha' Ht'].
  destruct (negated p); apply range_loop_spec; auto using fold_case_byte.
Qed.

(** A set is read completely, and something is left out of what follows it. *)
Lemma unescape_length flags c p c' p' : unescape flags c p = (c', p') -> (length p' <= length p)%nat.
Proof. unfold unescape. intros E. destruct (_ && _); injection E as <- <-; [destruct p; cbn; lia|lia]. Qed.

Lemma set_ranges_total fuel : forall flags c p, (length p + 2 <= fuel)%nat \/ (c = EOS /\ fuel <> O) ->
  exists s, set_ranges fuel flags c p = Some s /\ forall rs rest, s = SetOk rs rest -> (length rest < length p)%nat.
Proof.
  induction fuel as [|fuel IH]; intros flags c p Hf; [lia|]. cbn [set_ranges].
  destruct (unescape flags c p) as [c1 p1] eqn:E1. pose proof (unescape_length _ _ _ _ _ E1) as L1.
  destruct (Z.eqb_spec c1 EOS) as [_|Hc1]; [eexists; split; [reflexivity|discriminate]|].
  assert (Hlen : (length p + 1 <= fuel)%nat).
  { destruct Hf as [Hf|[-> _]]; [lia|]. exfalso. unfold unescape in E1. cbn in E1. injection E1 as <- _. now apply Hc1. }
  destruct (_ && has flags FNM_PATHNAME); [eexists; split; [reflexivity|discriminate]|].
  assert (Hnext : forall q r, (length q <= length p)%nat -> exists s, add_range r (if at_ q =? RBRACKET then Some (SetOk [] (tl q)) else set_ranges fuel flags (at_ q) (tl q)) = Some s /\
    forall rs rest, s = SetOk rs rest -> (length rest < length p)%nat).
  { intros q r Hq. assert (Hs : exists s, (if at_ q =? RBRACKET then Some (SetOk [] (tl q)) else set_ranges fuel flags (at_ q) (tl q)) = Some s /\
      forall rs rest, s = SetOk rs rest -> (length rest < length p)%nat).
    { destruct q as [|x q]; cbn [at_ tl length] in *.
      - change (EOS =? RBRACKET) with false. cbv iota. destruct (IH flags EOS []) as (s & -> & Hs); [right; split; [reflexivity|lia]|]. exists s. split; [reflexivity|].
        intros rs rest E. specialize (Hs _ _ E). cbn in Hs. lia.
      - destruct (x =? RBRACKET); [eexists; split; [reflexivity|]; intros rs rest [= _ <-]; lia|].
        destruct (IH flags x q) as (s & -> & Hs); [lia|]. exists s. split; [reflexivity|]. intros rs rest E. specialize (Hs _ _ E). lia. }
    destruct Hs as (s & -> & Hs). destruct s as [| |rs rest]; (eexists; split; [reflexivity|]); try discriminate. intros ? ? [= _ <-]. eapply Hs; reflexivity. }
  assert (Htl : (length (tl (tl p1)) <= length p)%nat) by (destruct p1 as [|? [|? ?]]; cbn in *; lia).
  destruct (_ && negb (at_ (tl p1) =? RBRACKET)); [|apply Hnext; lia].
  destruct (unescape flags (at_ (tl p1)) (tl (tl p1))) as [c2 p2] eqn:E2. pose proof (unescape_length _ _ _ _ _ E2) as L2.
  destruct (c2 =? EOS); [eexists; split; [reflexivity|discriminate]|]. apply Hnext. lia.
Qed.

Lemma set_at_total flags p : exists s, set_at flags p = Some s /\ forall rs rest, s = SetOk rs rest -> (length rest <= length p)%nat.
Proof.
  unfold set_at. set (q := if negated p then tl p else p).
  assert (Hq : (length (tl q) <= length p)%nat /\ ((length (tl q) + 2 <= S (length p))%nat \/ at_ q = EOS)).
  { unfold q. destruct (negated p), p as [|x [|y p]]; cbn; lia. }
  destruct (set_ranges_total (S (length p)) flags (at_ q) (tl q)) as (s & E & Hs); [destruct Hq as [_ [Hq|Hq]]; [left; exact Hq|right; split; [exact Hq|lia]]|].
  exists s. split; [exact E|]. intros rs rest Er. specialize (Hs _ _ Er). lia.
Qed.
End Sets.

(** * Matching *)

Definition char_ok (c : Z) : Prop := 0 < c < 256.

Lemma chars_bytes p : Forall char_ok p -> bytes p.
Proof. intros Hp. eapply Forall_impl; [exact Hp|]. unfold char_ok, word. cbn. lia. Qed.

Lemma Forall_tl {A} (P : A -> Prop) l : Forall P l -> Forall P (tl l).
Proof. now destruct 1. Qed.

Lemma set_ranges_Forall P fuel : forall flags c p rs rest, Forall P p -> set_ranges fuel flags c p = Some (SetOk rs rest) -> Forall P rest.
Proof.
  induction fuel as [|fuel IH]; intros flags c p rs rest Hp; [discriminate|]. cbn [set_ranges].
  assert (Hu : forall c q c' q', unescape flags c q = (c', q') -> Forall P q -> Forall P q') by (unfold unescape; intros ? ? ? ? E Hq; destruct (_ && _); injection E as _ <-; [now apply Forall_tl|exact Hq]).
  assert (Hnext : forall q r, Forall P q -> add_range r (if at_ q =? RBRACKET then Some (SetOk [] (tl q)) else set_ranges fuel flags (at_ q) (tl q)) = Some (SetOk rs rest) -> Forall P rest).
  { intros q r Hq. destruct (at_ q =? RBRACKET); [intros [= _ <-]; now apply Forall_tl|].
    destruct (set_ranges fuel flags (at_ q) (tl q)) as [[| |rs' rest']|] eqn:E; try discriminate. intros [= _ <-]. eapply IH; [|exact E]. now apply Forall_tl. }
  destruct (unescape flags c p) as [c1 p1] eqn:E1. pose proof (Hu _ _ _ _ E1 Hp) as Hp1.
  destruct (c1 =? EOS); [discriminate|]. destruct (_ && has flags FNM_PATHNAME); [discriminate|].
  destruct (_ && negb (at_ (tl p1) =? RBRACKET)); [|now apply Hnext].
  destruct (unescape flags (at_ (tl p1)) (tl (tl p1))) as [c2 p2] eqn:E2. pose proof (Hu _ _ _ _ E2 (Forall_tl _ _ (Forall_tl _ _ Hp1))) as Hp2.
  destruct (c2 =? EOS); [discriminate|]. now apply Hnext.
Qed.

Lemma set_at_Forall P flags p rs rest : Forall P p -> set_at flags p = Some (SetOk rs rest) -> Forall P rest.
Proof. intros Hp. unfold set_at. apply set_ranges_Forall. destruct (negated p); repeat apply Forall_tl; exact Hp. Qed.

Lemma parse_fuel flags : forall n f1 f2 p, (length p <= n)%nat -> (length p < f1)%nat -> (length p < f2)%nat -> parse f1 flags p = parse f2 flags p.
Proof.
  induction n as [|n IH]; intros [|f1] [|f2] [|c p] Hn H1 H2; try reflexivity; cbn [length] in *; try lia. cbn [parse].
  assert (E : forall q, (length q <= length p)%nat -> parse f1 flags q = parse f2 flags q) by (intros; apply IH; lia).
  destruct (c =? QUESTION); [now rewrite E|]. destruct (c =? STAR); [now rewrite E|]. destruct (c =? LBRACKET).
  - destruct (set_at_total flags p) as (s & -> & Hs). destruct s as [| |rs rest]; [now rewrite E|reflexivity|]. rewrite E; [reflexivity|]. eapply Hs; reflexivity.
  - destruct (_ && _); [|now rewrite E]. destruct p as [|d p]; [reflexivity|]. rewrite E; [reflexivity|cbn; lia].
Qed.

Lemma atoms_eq flags c p : atoms flags (c :: p) =
  if c =? QUESTION then AAny :: atoms flags p
  else if c =? STAR then AStar :: atoms flags p
  else if c =? LBRACKET then
    match set_at flags p with
    | Some (SetOk rs rest) => ASet (negated p) rs :: atoms flags rest
    | Some SetNever => [ANever]
    | _ => ALit c :: atoms flags p
    end
  else if (c =? BACKSLASH) && negb (has flags FNM_NOESCAPE) then
    match p with [] => [ALit BACKSLASH] | c :: p => ALit c :: atoms flags p end
  else ALit c :: atoms flags p.
Proof.
  unfold atoms at 1. cbn [length]. remember (S (length p)) as n eqn:En. cbn [parse].
  assert (E : forall q, (length q <= length p)%nat -> parse n flags q = atoms flags q) by (intros q Hq; apply (parse_fuel flags (length p)); lia).
  rewrite E by lia. destruct (c =? QUESTION); [reflexivity|]. destruct (c =? STAR); [reflexivity|]. destruct (c =? LBRACKET).
  - destruct (set_at_total flags p) as (s & -> & Hs). destruct s as [| |rs rest]; [reflexivity|reflexivity|]. rewrite E; [reflexivity|]. eapply Hs; reflexivity.
  - destruct (_ && _); [|reflexivity]. destruct p as [|d p]; [reflexivity|]. rewrite E; [reflexivity|cbn; lia].
Qed.

Section Matching.
Context (char_signed : bool) (flags : Z).
Abbreviation M := (matches char_signed flags).

Lemma matches_nil s : M [] s <-> s = [] \/ (has flags FNM_LEADING_DIR = true /\ exists t, s = SLASH :: t).
Proof. split; [inversion 1; subst; eauto|]. intros [->|[Hd [t ->]]]; [constructor|now constructor]. Qed.

Lemma matches_lit c a s : M (ALit c :: a) s <-> exists d t, s = d :: t /\ same_char flags c d = true /\ M a t.
Proof. split; [inversion 1; subst; eauto|]. intros (d & t & -> & H1 & H2). now constructor. Qed.

Lemma matches_any a s : M (AAny :: a) s <-> exists d t, s = d :: t /\ crosses flags d = true /\ M a t.
Proof. split; [inversion 1; subst; eauto|]. intros (d & t & -> & H1 & H2). now constructor. Qed.

Lemma matches_set neg rs a s : M (ASet neg rs :: a) s <-> exists d t, s = d :: t /\ crosses flags d = true /\ in_ranges char_signed rs (fold_case flags d) <> neg /\ M a t.
Proof. split; [inversion 1; subst; eauto 8|]. intros (d & t & -> & H1 & H2 & H3). now constructor. Qed.

Lemma matches_star a s : M (AStar :: a) s <-> M a s \/ exists d t, s = d :: t /\ crosses flags d = true /\ M (AStar :: a) t.
Proof. split; [inversion 1; subst; eauto 8|]. intros [Ha|(d & t & -> & H1 & H2)]; [now apply m_star_end|now apply m_star_more]. Qed.

Lemma matches_stars a : forall s, M (AStar :: AStar :: a) s <-> M (AStar :: a) s.
Proof.
  induction s as [|d s IH]; rewrite (matches_star (AStar :: a)); [split; [intros [H|(? & ? & [=] & _)]; exact H|auto]|].
  split; [|auto]. intros [H|(? & ? & [= <- <-] & Hc & H)]; [exact H|]. apply m_star_more; [exact Hc|now apply IH].
Qed.

Lemma skip_stars_matches p s : M (AStar :: atoms flags p) s <-> M (AStar :: atoms flags (skip_stars p)) s.
Proof.
  induction p as [|c p IH]; [reflexivity|]. cbn [skip_stars]. destruct (Z.eqb_spec c STAR) as [->|]; [|reflexivity].
  rewrite <- IH, atoms_eq. change (STAR =? QUESTION) with false. change (STAR =? STAR) with true. cbv iota. apply matches_stars.
Qed.

Lemma atoms_need_a_char c p : c <> STAR -> ~ M (atoms flags (c :: p)) [].
Proof.
  intros Hc. rewrite atoms_eq. rewrite (proj2 (Z.eqb_neq c STAR)) by exact Hc. intros Hm.
  repeat case_match; inversion Hm.
Qed.

Lemma star_end s : Forall char_ok s ->
  M [AStar] s <-> has flags FNM_PATHNAME = false \/ has flags FNM_LEADING_DIR = true \/ strchr s SLASH = None.
Proof.
  induction 1 as [|d s Hd Hs IH]; rewrite matches_star, matches_nil.
  - split; [auto|]. left. now left.
  - cbn [strchr]. unfold crosses. destruct (Z.eqb_spec d SLASH) as [->|Hne]; cbn [andb negb].
    + split.
      * intros [[?|[Hl _]]|(? & ? & [= <- <-] & Hc & _)]; [discriminate|auto|]. left. change (SLASH =? SLASH) with true in Hc. now destruct (has flags FNM_PATHNAME).
      * intros [Hp|[Hl|?]]; [|left; right; eauto|discriminate]. right. do 2 eexists. split; [reflexivity|]. rewrite Hp, andb_false_r. split; [reflexivity|]. apply IH. auto.
    + split.
      * intros [[?|[? [? [= ? ?]]]]|(? & ? & [= <- <-] & _ & Hm)]; [discriminate|contradiction|]. apply IH in Hm as [?|[?|E]]; auto. rewrite E. auto.
      * intros Hc. right. do 2 eexists. split; [reflexivity|]. rewrite (proj2 (Z.eqb_neq d SLASH)) by exact Hne. split; [reflexivity|]. apply IH. destruct Hc as [?|[?|E]]; auto. destruct (strchr s SLASH); [discriminate|auto].
Qed.

Lemma same_slash d : 0 < d < 256 -> same_char flags SLASH d = true <-> d = SLASH.
Proof.
  intros Hd. unfold same_char. change (tolower SLASH) with SLASH. unfold tolower, SLASH. destruct (Z.eqb_spec 47 d); cbn [orb]; [split; auto|].
  split; [|intros; lia]. intros [_ E%Z.eqb_eq]%andb_true_iff. destruct (_ && _) eqn:Eb; [apply andb_true_iff in Eb as [?%Z.leb_le ?%Z.leb_le]|]; lia.
Qed.

Lemma star_slash a : has flags FNM_PATHNAME = true -> forall s prev, Forall char_ok s ->
  M (AStar :: ALit SLASH :: a) s <-> match to_slash prev s with None => False | Some (_, t) => M (ALit SLASH :: a) t end.
Proof.
  intros Hp. induction s as [|d s IH]; intros prev Hs; rewrite matches_star.
  - cbn. rewrite matches_lit. split; [intros [(? & ? & [=] & _)|(? & ? & [=] & _)]|tauto].
  - inversion Hs as [|? ? Hd Hs']; subst. cbn [to_slash]. destruct (Z.eqb_spec d SLASH) as [->|Hne].
    + split; [|auto]. intros [H|(? & ? & [= <- <-] & Hc & _)]; [exact H|]. unfold crosses in Hc. rewrite Hp in Hc. discriminate.
    + rewrite <- IH by exact Hs'. split.
      * intros [H|(? & ? & [= <- <-] & _ & H)]; [|exact H]. apply matches_lit in H as (? & ? & [= <- <-] & E & _). apply same_slash in E; [contradiction|exact Hd].
      * intros H. right. do 2 eexists. split; [reflexivity|]. unfold crosses. rewrite (proj2 (Z.eqb_neq d SLASH)) by exact Hne. now split.
Qed.

Lemma star_general a rec : ~ M a [] -> forall s, Forall char_ok s ->
  (forall t, Forall char_ok t -> exists b : bool, rec t = Some (if b then 0 else FNM_NOMATCH) /\ (b = true <-> M a t)) ->
  exists b : bool, star_loop rec flags s = Some (if b then 0 else FNM_NOMATCH) /\ (b = true <-> M (AStar :: a) s).
Proof.
  intros Hn s Hs Hrec. induction Hs as [|d s Hd Hs IH]; cbn [star_loop].
  - exists false. split; [reflexivity|]. rewrite matches_star. split; [discriminate|]. intros [?|(? & ? & [=] & _)]. contradiction.
  - destruct (Hrec (d :: s)) as (b & -> & Hb); [now constructor|]. destruct b; cbn.
    + exists true. split; [reflexivity|]. rewrite matches_star. split; [|auto]. left. now apply Hb.
    + change (FNM_NOMATCH =? 0) with false. cbv iota. destruct (_ && _) eqn:Ec.
      * exists false. split; [reflexivity|]. rewrite matches_star. split; [discriminate|]. intros [Ha|(? & ? & [= <- <-] & Hc & _)]; [now apply Hb|].
        unfold crosses in Hc. rewrite Ec in Hc. discriminate.
      * destruct IH as (b & -> & Hb'). exists b. split; [reflexivity|]. rewrite Hb', (matches_star a (d :: s)). split.
        -- intros H. right. do 2 eexists. split; [reflexivity|]. unfold crosses. rewrite Ec. now split.
        -- intros [Ha|(? & ? & [= <- <-] & _ & H)]; [|exact H]. apply Hb in Ha. discriminate.
Qed.
End Matching.

(** * The function *)

Section Correct.
Context (char_signed : bool) (flags : Z) (Hperiod : has flags FNM_PERIOD = false).
Abbreviation M := (matches char_signed flags).

(** A result, and that it is 0 just if the name matches. *)
Definition decides (r : option Z) (a : list atom) (s : list Z) : Prop :=
  exists b : bool, r = Some (if b then 0 else FNM_NOMATCH) /\ (b = true <-> M a s).

Lemma decides_no a s : ~ M a s -> decides (Some FNM_NOMATCH) a s.
Proof. intros Hn. exists false. split; [reflexivity|]. split; [discriminate|contradiction]. Qed.

Lemma decides_iff r a a' s s' : (M a s <-> M a' s') -> decides r a s -> decides r a' s'.
Proof. intros E (b & Hr & Hb). exists b. split; [exact Hr|]. now rewrite Hb. Qed.

Lemma no_period prev s : leading_period flags prev s = false.
Proof. unfold leading_period. now rewrite Hperiod, andb_false_r. Qed.

Lemma clear_period : Z.ldiff flags FNM_PERIOD = flags.
Proof.
  unfold has in Hperiod. apply negb_false_iff, Z.eqb_eq in Hperiod. rewrite <- (Z.lor_ldiff_and flags FNM_PERIOD) at 2.
  now rewrite Hperiod, Z.lor_0_r.
Qed.

Lemma skip_stars_spec p : Forall char_ok p -> Forall char_ok (skip_stars p) /\ (length (skip_stars p) <= length p)%nat /\ at_ (skip_stars p) <> STAR.
Proof.
  induction 1 as [|c p Hc Hp IH]; cbn [skip_stars]; [repeat split; auto; discriminate|].
  destruct (Z.eqb_spec c STAR); [destruct IH as (? & ? & ?); repeat split; auto; cbn; lia|]. repeat split; auto.
Qed.

Lemma to_slash_chars prev s q t : Forall char_ok s -> to_slash prev s = Some (q, t) -> Forall char_ok t.
Proof.
  intros Hs. revert prev. induction Hs as [|c s Hc Hs IH]; intros prev; cbn [to_slash]; [discriminate|].
  destruct (c =? SLASH); [intros [= _ <-]; now constructor|apply IH].
Qed.

(** A character of the name, and what remains of both. *)
Lemma decides_step (here : Z -> bool) (elem : atom) a s k :
  (M (elem :: a) s <-> exists d t, s = d :: t /\ here d = true /\ M a t) -> here EOS = false ->
  (s <> [] -> decides k a (tl s)) -> decides (if negb (here (at_ s)) then Some FNM_NOMATCH else k) (elem :: a) s.
Proof.
  intros E H0 Hk. destruct s as [|d s]; cbn [at_].
  - rewrite H0. apply decides_no. rewrite E. intros (? & ? & [=] & _).
  - destruct (here d) eqn:Hd; cbn [negb].
    + eapply decides_iff; [|apply Hk; discriminate]. cbn [tl]. rewrite E. split; [intros H; eauto|]. intros (? & ? & [= <- <-] & _ & H). exact H.
    + apply decides_no. rewrite E. intros (? & ? & [= <- <-] & H & _). congruence.
Qed.

(** A bracket expression, given how its parts are decided. *)
Lemma decides_bracket p s lit adv : bytes p -> Forall char_ok s -> decides lit (ALit LBRACKET :: atoms flags p) s ->
  (forall rs rest, set_at flags p = Some (SetOk rs rest) -> s <> [] -> decides (adv rest) (atoms flags rest) (tl s)) ->
  decides (if (at_ s =? EOS) || (at_ s =? SLASH) && has flags FNM_PATHNAME then Some FNM_NOMATCH
           else match rangematch char_signed p (at_ s) flags with
                | None => None
                | Some RANGE_ERROR => lit
                | Some (RANGE_MATCH newp) => adv newp
                | Some RANGE_NOMATCH => Some FNM_NOMATCH
                end)
    (match set_at flags p with
     | Some (SetOk rs rest) => ASet (negated p) rs :: atoms flags rest
     | Some SetNever => [ANever]
     | _ => ALit LBRACKET :: atoms flags p
     end) s.
Proof.
  intros Hp Hs Hlit Hadv. destruct (set_at_total flags p) as (st & Est & _). rewrite Est in *.
  destruct Hs as [|d s Hd Hs]; cbn [at_ tl] in *; [apply decides_no; destruct st; inversion 1|].
  assert (Hd0 : (d =? EOS) = false) by (unfold char_ok, EOS in *; apply Z.eqb_neq; lia). rewrite Hd0. cbn [orb].
  destruct ((d =? SLASH) && has flags FNM_PATHNAME) eqn:Ec.
  - apply decides_no. apply andb_true_iff in Ec as [->%Z.eqb_eq Hpn]. destruct st as [| |rs rest].
    + rewrite matches_lit. intros (? & ? & [= <- <-] & E & _). revert E. unfold same_char. change (LBRACKET =? SLASH) with false. cbn [orb]. change (tolower LBRACKET =? tolower SLASH) with false.
      now rewrite andb_false_r.
    + inversion 1.
    + rewrite matches_set. intros (? & ? & [= <- <-] & E & _). unfold crosses in E. rewrite Hpn in E. discriminate.
  - rewrite rangematch_spec, Est by (auto; unfold char_ok in Hd; lia). destruct st as [| |rs rest]; cbn [option_map as_range]; [exact Hlit|apply decides_no; inversion 1|].
    cbn [orb]. destruct (Bool.eqb _ (negated p)) eqn:Eb.
    + apply eqb_prop in Eb. apply decides_no. rewrite matches_set. intros (? & ? & [= <- <-] & _ & E & _). congruence.
    + apply eqb_false_iff in Eb. eapply decides_iff; [|apply (Hadv rs rest eq_refl); discriminate]. rewrite matches_set. split.
      * intros H. exists d, s. split; [reflexivity|]. unfold crosses. rewrite Ec. auto.
      * intros (? & ? & [= <- <-] & _ & _ & H). exact H.
Qed.

Lemma fnmatch_at_spec fuel : forall p prev s, Forall char_ok p -> Forall char_ok s -> (length p < fuel)%nat ->
  decides (fnmatch_at char_signed fuel p prev s flags) (atoms flags p) s.
Proof.
  induction fuel as [|fuel IH]; intros p prev s Hp Hs Hf; [lia|]. cbn [fnmatch_at]. rewrite no_period, orb_false_r.
  assert (Hadv : forall q, Forall char_ok q -> (length q < fuel)%nat -> s <> [] -> decides (fnmatch_at char_signed fuel q (Some (at_ s)) (tl s) flags) (atoms flags q) (tl s))
    by (intros q Hq Hl _; apply IH; auto using Forall_tl).
  assert (Hlit : forall c q, c <> EOS -> Forall char_ok q -> (length q < fuel)%nat ->
    decides (if negb (same_char flags c (at_ s)) then Some FNM_NOMATCH else fnmatch_at char_signed fuel q (Some (at_ s)) (tl s) flags) (ALit c :: atoms flags q) s).
  { intros c q Hc Hq Hl. apply (decides_step (same_char flags c)); [apply matches_lit| |auto]. unfold same_char, EOS, tolower in *. rewrite (proj2 (Z.eqb_neq c 0)) by exact Hc. cbn [orb].
    destruct (Z.leb_spec 65 c), (Z.leb_spec c 90); cbn [andb]; rewrite (proj2 (Z.eqb_neq _ _)) by (cbn; lia); apply andb_false_r. }
  set (refused := (at_ s =? EOS) || (at_ s =? SLASH) && has flags FNM_PATHNAME).
  assert (Hrefused : refused = negb ((fun d => negb (d =? EOS) && crosses flags d) (at_ s))) by (unfold refused, crosses; now destruct (at_ s =? EOS), (_ && _)).
  assert (Hnz : forall d t, s = d :: t -> (d =? EOS) = false) by (intros d t ->; inversion Hs; unfold char_ok, EOS in *; subst; apply Z.eqb_neq; lia).
  destruct p as [|c p].
  - change (atoms flags []) with (@nil atom). destruct s as [|d s]; cbn [at_]; [exists true; rewrite andb_false_r; split; [reflexivity|]; rewrite matches_nil; tauto|].
    rewrite (Hnz d s eq_refl). destruct (has flags FNM_LEADING_DIR && (d =? SLASH)) eqn:E; [exists true|apply decides_no; rewrite matches_nil].
    + split; [reflexivity|]. rewrite matches_nil. apply andb_true_iff in E as [Hl ->%Z.eqb_eq]. split; [right; eauto|auto].
    + intros [?|[Hl [t [= -> ->]]]]; [discriminate|]. rewrite Hl in E. discriminate.
  - inversion Hp as [|? ? Hc Hp']; subst. cbn [length] in Hf. assert (Hc0 : c <> EOS) by (unfold char_ok, EOS in *; lia). rewrite atoms_eq.
    destruct (c =? QUESTION).
    { rewrite Hrefused. apply (decides_step (fun d => negb (d =? EOS) && crosses flags d)); [|reflexivity|intros; apply Hadv; auto; lia]. rewrite matches_any.
      split; intros (d & t & E & H1 & H2); exists d, t; split; auto; [rewrite (Hnz d t E); auto|]. apply andb_true_iff in H1 as [_ H1]. auto. }
    destruct (c =? STAR).
    { apply (decides_iff _ (AStar :: atoms flags (skip_stars p)) _ s); [symmetry; apply skip_stars_matches|]. destruct (skip_stars_spec p Hp') as (Hq & Hql & Hqs).
      destruct (skip_stars p) as [|x q] eqn:Eq.
      - change (atoms flags []) with (@nil atom).
        exists (if has flags FNM_PATHNAME then has flags FNM_LEADING_DIR || match strchr s SLASH with None => true | Some _ => false end else true).
        split; [now destruct (has flags FNM_PATHNAME)|]. rewrite star_end by exact Hs.
        destruct (has flags FNM_PATHNAME), (has flags FNM_LEADING_DIR), (strchr s SLASH); cbn; split; auto; intros [?|[?|?]]; discriminate.
      - destruct ((x =? SLASH) && has flags FNM_PATHNAME) eqn:Ex.
        + apply andb_true_iff in Ex as [->%Z.eqb_eq Hpn].
          assert (Ea : atoms flags (SLASH :: q) = ALit SLASH :: atoms flags q) by (rewrite atoms_eq; reflexivity).
          pose proof (star_slash char_signed flags (atoms flags q) Hpn s prev Hs) as E. rewrite Ea. destruct (to_slash prev s) as [[prev' t]|] eqn:Et.
          * apply (decides_iff _ (atoms flags (SLASH :: q)) _ t); [rewrite Ea; symmetry; exact E|]. apply IH; [exact Hq|exact (to_slash_chars prev s prev' t Hs Et)|cbn in *; lia].
          * apply decides_no. now rewrite E.
        + rewrite clear_period. apply star_general; [now apply atoms_need_a_char|exact Hs|]. intros t Ht. apply IH; [exact Hq|exact Ht|cbn in *; lia]. }
    destruct (Z.eqb_spec c LBRACKET) as [->|_].
    { apply (decides_bracket p s _ (fun newp => fnmatch_at char_signed fuel newp (Some (at_ s)) (tl s) flags)); [now apply chars_bytes|exact Hs|apply Hlit; auto; lia|]. intros rs rest Er. destruct (set_at_total flags p) as (st & Est & Hst).
      apply Hadv; [exact (set_at_Forall char_ok flags p rs rest Hp' Er)|]. assert (length rest <= length p)%nat by (apply (Hst rs rest); congruence). lia. }
    destruct (Z.eqb_spec c BACKSLASH) as [->|_]; cbn [andb]; [|apply Hlit; auto; lia].
    destruct (has flags FNM_NOESCAPE); cbn [negb]; [apply Hlit; auto; lia|]. destruct p as [|x p]; [apply (Hlit BACKSLASH []); auto; cbn; lia|].
    inversion Hp' as [|? ? Hx Hp'']; subst. apply Hlit; auto; [unfold char_ok, EOS in *; lia|cbn in *; lia].
Qed.
End Correct.

(** C14: Without [FNM_PERIOD] the function decides whether a name matches a pattern, for
    every pattern and every combination of the other flags: it always returns, with 0 just
    if the name can be cut into pieces that the elements of the pattern match one after
    the other (a star any string, which does not cross a slash with [FNM_PATHNAME]; with
    [FNM_LEADING_DIR] a rest that starts with a slash is left over), and with
    [FNM_NOMATCH] otherwise. *)
Theorem fnmatch_correct char_signed pattern string flags :
  Forall char_ok pattern -> Forall char_ok string -> has flags FNM_PERIOD = false ->
  exists r, fnmatch char_signed pattern string flags = Some r /\ (r = 0 \/ r = FNM_NOMATCH) /\
    (r = 0 <-> matches char_signed flags (atoms flags pattern) string).
Proof.
  intros Hp Hs Hf. destruct (fnmatch_at_spec char_signed flags Hf (S (length pattern)) pattern None string Hp Hs ltac:(lia)) as (b & E & Hb).
  exists (if b then 0 else FNM_NOMATCH). split; [exact E|]. split; [destruct b; auto|]. rewrite <- Hb. destruct b; split; auto; discriminate.
Qed.

Lemma fnmatch_correct_witness :
  let pattern := str "*.[ch]" in
  exists r, fnmatch true pattern (str "src/md5.c") (Z.lor FNM_PATHNAME FNM_LEADING_DIR) = Some r /\ (r = 0 \/ r = FNM_NOMATCH) /\
    (r = 0 <-> matches true (Z.lor FNM_PATHNAME FNM_LEADING_DIR) [AStar; ALit DOT; ASet false [(99, 99); (104, 104)]] (str "src/md5.c")).
Proof.
  apply (fnmatch_correct true (str "*.[ch]") (str "src/md5.c") (Z.lor FNM_PATHNAME FNM_LEADING_DIR)).
  - unfold char_ok. repeat constructor; cbn; lia.
  - unfold char_ok. repeat constructor; cbn; lia.
  - reflexivity.
Defined.

(** After a star the rule for leading periods is lost for the rest of the pattern: a
    hidden file in a directory is matched by a star. *)
Lemma star_forgets_period : fnmatch true (str "a*b/*") (str "axb/.hidden") (Z.lor FNM_PATHNAME FNM_PERIOD) = Some 0 /\
  fnmatch true (str "axb/*") (str "axb/.hidden") (Z.lor FNM_PATHNAME FNM_PERIOD) = Some FNM_NOMATCH.
Proof. split; reflexivity. Qed.
