(* ===== verification/TarHeader.v ===== *)
(** Headers of tar archives: src/libtar/lib/libtar.h, encode.c, decode.c and the
    conversions of util.c.

    The 512 bytes of a header block are one list; the members of [struct tar_header]
    are windows into it, so that a C string or a number that runs over the end of
    its member continues in the next one, as it does in C.  [Fault] is a read
    outside the block, or of a variable that was not set.  The buffers the three
    pointer members refer to are lists of bytes. *)
From Stdlib Require Import ZArith List Lia Bool.
From S2P Require Import Prelude CString.
Import ListNotations.

(** * The target and the C library *)

(** What differs between the targets the library is built for: the width of
    [unsigned long] (and [mode_t]), and whether [char] is signed. *)
Class Target := {
  long_bits : Z;
  char_signed : bool;
  long_bits_cases : long_bits = 32 \/ long_bits = 64
}.

#[export] Instance arm32 : Target.
Proof. refine {| long_bits := 32; char_signed := false |}. now left. Defined.

Definition arm64 : Target.
Proof. refine {| long_bits := 64; char_signed := false |}. now right. Defined.

Definition x86 : Target.
Proof. refine {| long_bits := 32; char_signed := true |}. now left. Defined.

(** The user and group databases and the device numbers. *)
Class Libc := {
  getpwnam : list Z -> option Z;
  getpwuid : Z -> option (list Z);
  getgrnam : list Z -> option Z;
  getgrgid : Z -> option (list Z);
  major : Z -> Z;
  minor : Z -> Z
}.

(** ** Octal numbers *)

Fixpoint octal_loop (fuel : nat) (z : Z) (acc : list Z) : list Z :=
  match fuel with
  | O => acc
  | S f => let acc := 48 + z mod 8 :: acc in if z / 8 =? 0 then acc else octal_loop f (z / 8) acc
  end.

(** [%lo]: 22 digits are enough for 64 bits. *)
Definition octal (z : Z) : list Z := octal_loop 22 z [].

Definition SPACE : Z := 32.
Definition pad_left (width : nat) (s : list Z) : list Z := repeat SPACE (width - length s) ++ s.

Definition ulong `{Target} (z : Z) : Z := z mod 2 ^ long_bits.

Definition is_space (c : Z) : bool := (c =? 32) || ((9 <=? c) && (c <=? 13)).
Definition is_octal (c : Z) : bool := (48 <=? c) && (c <=? 55).

Fixpoint skip_spaces (l : list Z) : outcome (list Z) :=
  match l with
  | [] => Fault
  | c :: t => if is_space c then skip_spaces t else Ret l
  end.

Definition UINTMAX : Z := 2 ^ 64 - 1.

Fixpoint octal_digits (acc : Z) (l : list Z) : outcome Z :=
  match l with
  | [] => Fault
  | c :: t => if is_octal c then octal_digits (Z.min (acc * 8 + (c - 48)) UINTMAX) t else Ret acc
  end.

(** [sscanf(l, "%o", &i)]: white space, a sign, digits; the low 32 bits are stored
    when there is a digit. *)
Definition sscanf_o (l : list Z) : outcome (option Z) :=
  let! l := skip_spaces l in
  let '(neg, l) :=
    match l with c :: t => if (c =? 45) || (c =? 43) then (c =? 45, t) else (false, l) | [] => (false, l) end in
  match l with
  | [] => Fault
  | c :: _ =>
      if is_octal c then
        let! v := octal_digits 0 l in Ret (Some (i32 (if neg then - v else v)))
      else Ret None
  end.

(** * The header *)

Definition T_BLOCKSIZE : nat := 512.
Definition T_NAMELEN : nat := 100.

Inductive member :=
| name | mode | uid | gid | size | mtime | chksum | typeflag | linkname | magic | version
| uname | gname | devmajor | devminor | prefix | padding.

Definition members : list member :=
  [name; mode; uid; gid; size; mtime; chksum; typeflag; linkname; magic; version;
   uname; gname; devmajor; devminor; prefix; padding].

Definition sizeof (m : member) : nat :=
  match m with
  | name | linkname => 100 | mode | uid | gid | chksum | devmajor | devminor => 8
  | size | mtime | padding => 12 | typeflag => 1 | magic => 6 | version => 2
  | uname | gname => 32 | prefix => 155
  end.

Definition member_eq_dec (m m' : member) : {m = m'} + {m <> m'}.
Proof. decide equality. Defined.

(** The members lie one after the other. *)
Fixpoint offset_in (ms : list member) (m : member) : nat :=
  match ms with
  | [] => 0
  | m' :: t => if member_eq_dec m' m then 0 else sizeof m' + offset_in t m
  end.
Definition offset (m : member) : nat := offset_in members m.

Record tar_header := {
  blk : list Z;
  gnu_longname : option (list Z);
  gnu_longlink : option (list Z);
  selinux_context : option (list Z)
}.

(** The pointer to a member, the bytes of a member, and a store into it. *)
Definition at_member (h : tar_header) (m : member) : list Z := skipn (offset m) (blk h).
Definition field (h : tar_header) (m : member) : list Z := firstn (sizeof m) (at_member h m).
Definition put (h : tar_header) (m : member) (bs : list Z) : tar_header :=
  {| blk := blit (blk h) (offset m) bs; gnu_longname := gnu_longname h;
     gnu_longlink := gnu_longlink h; selinux_context := selinux_context h |}.
Definition type_of (h : tar_header) : Z := get (blk h) (offset typeflag).
Definition set_longname (h : tar_header) (s : option (list Z)) : tar_header :=
  {| blk := blk h; gnu_longname := s; gnu_longlink := gnu_longlink h; selinux_context := selinux_context h |}.
Definition set_longlink (h : tar_header) (s : option (list Z)) : tar_header :=
  {| blk := blk h; gnu_longname := gnu_longname h; gnu_longlink := s; selinux_context := selinux_context h |}.

Definition REGTYPE : Z := 48.
Definition AREGTYPE : Z := 0.
Definition LNKTYPE : Z := 49.
Definition SYMTYPE : Z := 50.
Definition CHRTYPE : Z := 51.
Definition BLKTYPE : Z := 52.
Definition DIRTYPE : Z := 53.
Definition FIFOTYPE : Z := 54.
Definition CONTTYPE : Z := 55.
Definition GNU_LONGNAME_TYPE : Z := 76.
Definition GNU_LONGLINK_TYPE : Z := 75.
Definition TH_EXT_TYPE : Z := 120.

(** The options of a handle that concern headers, and a test of one. *)
Definition TAR_GNU : Z := 1.
Definition TAR_IGNORE_EOT : Z := 8.
Definition TAR_CHECK_MAGIC : Z := 16.
Definition TAR_CHECK_VERSION : Z := 32.
Definition TAR_IGNORE_CRC : Z := 64.
Definition TAR_STORE_SELINUX : Z := 128.
Definition TAR_USE_NUMERIC_ID : Z := 256.
Definition opt (options bit : Z) : bool := negb (options .& bit =? 0).

(** ** File modes *)

Definition mode_t `{Target} (z : Z) : Z := z mod 2 ^ (long_bits / 2).
Definition S_IFMT : Z := 0xf000.
Definition S_IFSOCK : Z := 0xc000.
Definition S_IFLNK : Z := 0xa000.
Definition S_IFREG : Z := 0x8000.
Definition S_IFBLK : Z := 0x6000.
Definition S_IFDIR : Z := 0x4000.
Definition S_IFCHR : Z := 0x2000.
Definition S_IFIFO : Z := 0x1000.
Definition is_type (ty m : Z) : bool := m .& S_IFMT =? ty.

(** * Decoding *)

Definition oct_to_int (oct : list Z) : outcome Z :=
  let! r := sscanf_o oct in Ret (match r with Some i => i | None => 0 end).

Definition th_get_crc (h : tar_header) : outcome Z := oct_to_int (at_member h chksum).
Definition th_get_size (h : tar_header) : outcome Z := oct_to_int (at_member h size).
Definition th_get_mtime (h : tar_header) : outcome Z := oct_to_int (at_member h mtime).
Definition th_get_devmajor (h : tar_header) : outcome Z := oct_to_int (at_member h devmajor).
Definition th_get_devminor (h : tar_header) : outcome Z := oct_to_int (at_member h devminor).
Definition th_get_linkname (h : tar_header) : outcome (list Z) :=
  match gnu_longlink h with Some l => c_string l | None => c_string (at_member h linkname) end.

(** [a || b], where [b] may fault. *)
Definition orr (a : bool) (b : outcome bool) : outcome bool := if a then Ret true else b.

Definition mode_is `{Target} (ty : Z) (h : tar_header) : outcome bool :=
  let! m := oct_to_int (at_member h mode) in Ret (is_type ty (mode_t m)).

Definition name_chars (h : tar_header) : list Z := c_string_n T_NAMELEN (at_member h name).
Definition ends_with_slash (s : list Z) : bool := last s 0 =? SLASH.

Definition TH_ISREG `{Target} (h : tar_header) : outcome bool :=
  orr (type_of h =? REGTYPE) (orr (type_of h =? AREGTYPE) (orr (type_of h =? CONTTYPE)
    (let! r := mode_is S_IFREG h in Ret (r && negb (type_of h =? LNKTYPE))))).
Definition TH_ISLNK (h : tar_header) : bool := type_of h =? LNKTYPE.
Definition TH_ISSYM `{Target} (h : tar_header) : outcome bool := orr (type_of h =? SYMTYPE) (mode_is S_IFLNK h).
Definition TH_ISCHR `{Target} (h : tar_header) : outcome bool := orr (type_of h =? CHRTYPE) (mode_is S_IFCHR h).
Definition TH_ISBLK `{Target} (h : tar_header) : outcome bool := orr (type_of h =? BLKTYPE) (mode_is S_IFBLK h).
Definition TH_ISDIR `{Target} (h : tar_header) : outcome bool :=
  orr (type_of h =? DIRTYPE) (let! d := mode_is S_IFDIR h in
    Ret (d || (type_of h =? AREGTYPE) && negb (length (name_chars h) =? 0)%nat && ends_with_slash (name_chars h))).
Definition TH_ISFIFO `{Target} (h : tar_header) : outcome bool := orr (type_of h =? FIFOTYPE) (mode_is S_IFIFO h).
Definition TH_ISLONGNAME (h : tar_header) : bool := type_of h =? GNU_LONGNAME_TYPE.
Definition TH_ISLONGLINK (h : tar_header) : bool := type_of h =? GNU_LONGLINK_TYPE.
Definition TH_ISEXTHEADER (h : tar_header) : bool := type_of h =? TH_EXT_TYPE.

Definition th_get_pathname (h : tar_header) : outcome (list Z) :=
  match gnu_longname h with
  | Some l => c_string l
  | None =>
      if negb (get (blk h) (offset prefix) =? 0)
      then Ret (c_string_n 155 (at_member h prefix) ++ [SLASH] ++ name_chars h)
      else Ret (name_chars h)
  end.

(** [sscanf] leaves the variable unset when there is no number; ids are unsigned. *)
Definition scan_id (l : list Z) : outcome Z :=
  let! r := sscanf_o l in match r with Some i => Ret (u32 i) | None => Fault end.

Definition th_get_uid `{Libc} (options : Z) (h : tar_header) : outcome Z :=
  if opt options TAR_USE_NUMERIC_ID then scan_id (at_member h uid)
  else
    let! s := c_string (at_member h uname) in
    match getpwnam s with Some pw_uid => Ret pw_uid | None => scan_id (at_member h uid) end.

Definition th_get_gid `{Libc} (options : Z) (h : tar_header) : outcome Z :=
  if opt options TAR_USE_NUMERIC_ID then scan_id (at_member h gid)
  else
    let! s := c_string (at_member h gname) in
    match getgrnam s with Some gr_gid => Ret gr_gid | None => scan_id (at_member h gid) end.

(** For the type AREGTYPE the last character of the name is read, which an empty
    name does not have. *)
Definition th_get_mode `{Target} (h : tar_header) : outcome Z :=
  let! m := oct_to_int (at_member h mode) in
  let m := mode_t m in
  if negb (m .& S_IFMT =? 0) then Ret m
  else
    let ty := type_of h in
    if ty =? SYMTYPE then Ret (m .| S_IFLNK)
    else if ty =? CHRTYPE then Ret (m .| S_IFCHR)
    else if ty =? BLKTYPE then Ret (m .| S_IFBLK)
    else if ty =? DIRTYPE then Ret (m .| S_IFDIR)
    else if ty =? FIFOTYPE then Ret (m .| S_IFIFO)
    else if ty =? AREGTYPE then
      match name_chars h with
      | [] => Fault
      | s => if ends_with_slash s then Ret (m .| S_IFDIR) else Ret (m .| S_IFREG)
      end
    else Ret (m .| S_IFREG).

(** * Encoding *)

(** [%*lo ] into a member of [octlen] bytes, and [%*lo] with the terminator replaced
    by a blank; the latter takes an [int]. *)
Definition int_to_oct `{Target} (num : Z) (octlen : nat) : list Z :=
  snprintf octlen (pad_left (octlen - 2) (octal (ulong num)) ++ [SPACE]).

Definition int_to_oct_nonull `{Target} (num : Z) (octlen : nat) : list Z :=
  set (snprintf octlen (pad_left (octlen - 1) (octal (ulong (i32 num))))) (octlen - 1) SPACE.

(** [char] and [unsigned char] at a byte, and sums of the whole block with the
    checksum member counted as blanks (the sums stay far below 2^31). *)
Definition char `{Target} (c : Z) : Z := if char_signed && (128 <=? c) then c - 256 else c.
Definition sum_bytes (f : Z -> Z) (l : list Z) : Z := fold_left (fun sum c => sum + f c) l 0.
Definition blank_out (f : Z -> Z) (sum : Z) (chk : list Z) : Z :=
  fold_left (fun sum c => sum + (SPACE - f c)) chk sum.

Definition th_crc_calc (h : tar_header) : Z :=
  blank_out (fun c => c) (sum_bytes (fun c => c) (blk h)) (field h chksum).

Definition th_crc_ok (h : tar_header) : outcome bool :=
  let! crc := th_get_crc h in Ret (crc =? th_crc_calc h).

Definition USTAR : list Z := [117; 115; 116; 97; 114].

Definition th_finish `{Target} (options : Z) (h : tar_header) : tar_header :=
  let h :=
    if opt options TAR_GNU
    then put (put h magic (USTAR ++ [SPACE])) version [SPACE; 0]
    else put (put h version (strncpy [48; 48] 2)) magic (strncpy USTAR 6) in
  let sum := blank_out char (sum_bytes char (blk h)) (field h chksum) in
  put h chksum (int_to_oct sum 8).

(** Every test is made; the types exclude each other. *)
Definition th_set_type (h : tar_header) (m : Z) : tar_header :=
  let set_if (b : bool) ty h := if b then put h typeflag [ty] else h in
  let h := set_if (is_type S_IFLNK m) SYMTYPE h in
  let h := set_if (is_type S_IFREG m) REGTYPE h in
  let h := set_if (is_type S_IFDIR m) DIRTYPE h in
  let h := set_if (is_type S_IFCHR m) CHRTYPE h in
  let h := set_if (is_type S_IFBLK m) BLKTYPE h in
  set_if (is_type S_IFIFO m || is_type S_IFSOCK m) FIFOTYPE h.

(** [pathname] is the characters of the string; its last one is read first, which an
    empty string does not have. *)
Definition th_set_path `{Target} (options : Z) (h : tar_header) (pathname : list Z) : outcome tar_header :=
  let pathname_len := length pathname in
  let h := set_longname h None in
  if (pathname_len =? 0)%nat then Fault
  else
    let! isdir := if ends_with_slash pathname then Ret false else TH_ISDIR h in
    let suffix := if isdir then [SLASH] else [] in
    if (T_NAMELEN <=? pathname_len)%nat && opt options TAR_GNU then
      let h := set_longname h (Some (strdup pathname)) in
      Ret (put h name (strncpy pathname T_NAMELEN))
    else if (T_NAMELEN <=? pathname_len)%nat then
      match strchr (skipn (pathname_len - T_NAMELEN) pathname) SLASH with
      | None => Ret h
      | Some before =>
          let split := (pathname_len - T_NAMELEN + length before)%nat in
          let tail_path := firstn T_NAMELEN (skipn (S split) pathname ++ suffix) in
          let h := put h name (strncpy tail_path T_NAMELEN) in
          if (155 <=? split)%nat
          then Ret (put h prefix (strncpy pathname 155))
          else Ret (put h prefix (snprintf (split + 1) pathname))
      end
    else Ret (put h name (snprintf T_NAMELEN (pathname ++ suffix))).

(** The characters of "././@LongLink". *)
Definition LongLink : list Z := [46; 47; 46; 47; 64; 76; 111; 110; 103; 76; 105; 110; 107].

Definition th_set_link (options : Z) (h : tar_header) (linkname_ : list Z) : tar_header :=
  if (T_NAMELEN <=? length linkname_)%nat && opt options TAR_GNU then
    put (set_longlink h (Some (strdup linkname_))) linkname (strdup LongLink)
  else if (T_NAMELEN <=? length linkname_)%nat then
    set_longlink (put h linkname (strncpy linkname_ T_NAMELEN)) None
  else set_longlink (put h linkname (snprintf T_NAMELEN linkname_)) None.

Definition th_set_device `{Target} `{Libc} (h : tar_header) (device : Z) : tar_header :=
  put (put h devmajor (int_to_oct (major device) 8)) devminor (int_to_oct (minor device) 8).

Definition th_set_user `{Target} `{Libc} (options : Z) (h : tar_header) (id : Z) : tar_header :=
  let h :=
    if opt options TAR_USE_NUMERIC_ID then h
    else match getpwuid id with Some pw_name => put h uname (fst (strlcpy pw_name 32)) | None => h end in
  put h uid (int_to_oct id 8).

Definition th_set_group `{Target} `{Libc} (options : Z) (h : tar_header) (id : Z) : tar_header :=
  let h :=
    if opt options TAR_USE_NUMERIC_ID then h
    else match getgrgid id with Some gr_name => put h gname (fst (strlcpy gr_name 32)) | None => h end in
  put h gid (int_to_oct id 8).

Definition th_set_mode `{Target} (h : tar_header) (fmode : Z) : tar_header :=
  let fmode := if is_type S_IFSOCK fmode then Z.ldiff fmode S_IFSOCK .| S_IFIFO else fmode in
  put h mode (int_to_oct fmode 8).

Definition th_set_mtime `{Target} (h : tar_header) (fmtime : Z) : tar_header :=
  put h mtime (int_to_oct_nonull fmtime 12).
Definition th_set_size `{Target} (h : tar_header) (fsize : Z) : tar_header :=
  put h size (int_to_oct_nonull fsize 12).

Record stat := { st_dev : Z; st_ino : Z; st_mode : Z; st_rdev : Z; st_uid : Z; st_gid : Z; st_mtime : Z; st_size : Z }.

Definition th_set_from_stat `{Target} `{Libc} (options : Z) (h : tar_header) (s : stat) : tar_header :=
  let h := th_set_type h (st_mode s) in
  let h := if is_type S_IFCHR (st_mode s) || is_type S_IFBLK (st_mode s)
           then th_set_device h (st_rdev s) else h in
  let h := th_set_user options h (st_uid s) in
  let h := th_set_group options h (st_gid s) in
  let h := th_set_mode h (st_mode s) in
  let h := th_set_mtime h (st_mtime s) in
  if is_type S_IFREG (st_mode s) then th_set_size h (st_size s) else th_set_size h 0.

(** * Members *)

Lemma firstn_blit_before d o s k n :
  (k + n <= o)%nat -> (o <= length d)%nat -> firstn n (skipn k (blit d o s)) = firstn n (skipn k d).
Proof.
  intros Hk Hd. unfold blit. rewrite skipn_app, length_firstn, firstn_app, length_skipn, length_firstn.
  replace (n - (min o (length d) - k))%nat with O by lia. rewrite firstn_O, app_nil_r.
  rewrite skipn_firstn_comm, firstn_firstn. f_equal. lia.
Qed.

Lemma skipn_blit_at d o s : (o <= length d)%nat -> skipn o (blit d o s) = s ++ skipn (o + length s) d.
Proof.
  intros Hd. unfold blit. rewrite skipn_app, length_firstn, skipn_all2 by (rewrite length_firstn; lia).
  replace (o - min o (length d))%nat with O by lia. reflexivity.
Qed.

Lemma members_apart m m' :
  m <> m' -> (offset m + sizeof m <= offset m' \/ offset m' + sizeof m' <= offset m)%nat.
Proof. intros H. destruct m, m'; try contradiction; cbv; lia. Qed.

Lemma member_inside m : (offset m + sizeof m <= T_BLOCKSIZE)%nat.
Proof. destruct m; cbv; lia. Qed.

(** A header as the library keeps it: a block of 512 bytes. *)
Definition th_wf (h : tar_header) : Prop := length (blk h) = T_BLOCKSIZE /\ bytes (blk h).

Section Members.
Variable h : tar_header.
Hypothesis Hlen : length (blk h) = T_BLOCKSIZE.

Lemma put_length m bs : (length bs <= sizeof m)%nat -> length (blk (put h m bs)) = T_BLOCKSIZE.
Proof. intros Hb. pose proof (member_inside m). cbn [put blk]. rewrite blit_length; lia. Qed.

Lemma at_member_put m bs :
  (length bs <= sizeof m)%nat -> at_member (put h m bs) m = bs ++ skipn (offset m + length bs) (blk h).
Proof. intros Hb. pose proof (member_inside m). unfold at_member. cbn [put blk]. apply skipn_blit_at. lia. Qed.

Lemma field_put m bs : length bs = sizeof m -> field (put h m bs) m = bs.
Proof.
  intros Hb. unfold field. rewrite at_member_put, <- Hb by lia.
  rewrite firstn_app, Nat.sub_diag, firstn_all, firstn_O. apply app_nil_r.
Qed.

Lemma field_put_other m m' bs : m <> m' -> (length bs <= sizeof m)%nat -> field (put h m bs) m' = field h m'.
Proof.
  intros Hm Hb. pose proof (member_inside m). pose proof (member_inside m'). unfold field, at_member. cbn [put blk].
  destruct (members_apart m m' Hm); [rewrite skipn_blit_after by lia|apply firstn_blit_before; lia]. reflexivity.
Qed.

Lemma type_field : field h typeflag = [type_of h].
Proof.
  unfold field, type_of, at_member, get. change (sizeof typeflag) with 1%nat.
  pose proof (member_inside typeflag) as Hi. change (sizeof typeflag) with 1%nat in Hi.
  assert (Hl : (1 <= length (skipn (offset typeflag) (blk h)))%nat) by (rewrite length_skipn; lia).
  rewrite <- (firstn_skipn (offset typeflag) (blk h)) at 2. rewrite app_nth2 by (rewrite length_firstn; lia).
  rewrite length_firstn. replace (offset typeflag - min (offset typeflag) (length (blk h)))%nat with O by lia.
  destruct (skipn (offset typeflag) (blk h)) as [|c t]; [cbn in Hl; lia|reflexivity].
Qed.
End Members.

Lemma type_of_put h m bs :
  length (blk h) = T_BLOCKSIZE -> m <> typeflag -> (length bs <= sizeof m)%nat -> type_of (put h m bs) = type_of h.
Proof.
  intros Hl Hm Hb. assert (E : [type_of (put h m bs)] = [type_of h]); [|congruence].
  rewrite <- !type_field by (auto using put_length). now apply field_put_other.
Qed.

Lemma type_of_put_type h c : length (blk h) = T_BLOCKSIZE -> type_of (put h typeflag [c]) = c.
Proof.
  intros Hl. assert (E : [type_of (put h typeflag [c])] = [c]); [|congruence].
  rewrite <- type_field by (now apply put_length). now apply field_put.
Qed.

Lemma put_wf h m bs : th_wf h -> (length bs <= sizeof m)%nat -> bytes bs -> th_wf (put h m bs).
Proof.
  intros [Hl Hb] Hs Hbs. split; [now apply put_length|]. cbn [put blk]. unfold blit, bytes in *. auto with words.
Qed.

(** * Octal text *)

Definition oct_val (acc : Z) (s : list Z) : Z := fold_left (fun a c => a * 8 + (c - 48)) s acc.
Definition octals (s : list Z) : Prop := Forall (fun c => 48 <= c <= 55) s.

Lemma octals_bytes s : octals s -> bytes s.
Proof. intros H. eapply Forall_impl; [|exact H]. cbv beta. intros c Hc. unfold word. lia. Qed.

Lemma is_octal_true c : 48 <= c <= 55 -> is_octal c = true.
Proof. intros H. unfold is_octal. rewrite andb_true_iff, !Z.leb_le. lia. Qed.

Lemma octal_loop_app fuel : forall z acc, octal_loop fuel z acc = octal_loop fuel z [] ++ acc.
Proof.
  induction fuel as [|f IH]; intros z acc; [reflexivity|]. cbn [octal_loop]. destruct (z / 8 =? 0); [reflexivity|].
  rewrite IH, (IH (z / 8) [_]), <- app_assoc. reflexivity.
Qed.

Lemma octal_loop_S f z acc :
  octal_loop (S f) z acc = if z / 8 =? 0 then 48 + z mod 8 :: acc else octal_loop f (z / 8) (48 + z mod 8 :: acc).
Proof. reflexivity. Qed.

Lemma octal_loop_spec k : forall z,
  0 <= z < 8 ^ Z.of_nat (S k) ->
  let s := octal_loop (S k) z [] in octals s /\ (1 <= length s <= S k)%nat /\ oct_val 0 s = z.
Proof.
  induction k as [|k IH]; intros z Hz; cbv zeta.
  - change (8 ^ Z.of_nat 1) with 8 in Hz. cbn [octal_loop].
    rewrite Z.div_small, Z.mod_small by lia. cbn [Z.eqb oct_val fold_left length].
    split; [constructor; [lia|constructor]|]. split; [lia|lia].
  - rewrite (Nat2Z.inj_succ (S k)), Z.pow_succ_r in Hz by lia.
    rewrite octal_loop_S. pose proof (Z.div_mod z 8 ltac:(lia)). pose proof (Z.mod_pos_bound z 8 ltac:(lia)).
    destruct (Z.eqb_spec (z / 8) 0) as [E|E].
    + cbn [oct_val fold_left length]. split; [constructor; [lia|constructor]|]. split; lia.
    + rewrite octal_loop_app.
      destruct (IH (z / 8)) as (H1 & H2 & H3).
      { split; [apply Z.div_pos; lia|apply Z.div_lt_upper_bound; lia]. }
      split; [apply Forall_app; split; [exact H1|constructor; [lia|constructor]]|].
      rewrite length_app. cbn [length]. split; [lia|]. unfold oct_val in *. rewrite fold_left_app, H3. cbn [fold_left]. lia.
Qed.

Lemma octal_loop_more k d : forall z, 0 <= z < 8 ^ Z.of_nat (S k) -> octal_loop (S k + d) z [] = octal_loop (S k) z [].
Proof.
  induction k as [|k IH]; intros z Hz; cbn [Nat.add].
  - rewrite (octal_loop_S d), (octal_loop_S 0). change (8 ^ Z.of_nat 1) with 8 in Hz. rewrite Z.div_small by lia. reflexivity.
  - rewrite (octal_loop_S (S (k + d))), (octal_loop_S (S k)). destruct (Z.eqb_spec (z / 8) 0) as [E|E]; [reflexivity|].
    rewrite octal_loop_app, (octal_loop_app (S k)). f_equal. apply IH.
    rewrite (Nat2Z.inj_succ (S k)), Z.pow_succ_r in Hz by lia.
    split; [apply Z.div_pos; lia|apply Z.div_lt_upper_bound; lia].
Qed.

(** The digits of a number below [8^k]. *)
Lemma octal_spec k z :
  (k < 22)%nat -> 0 <= z < 8 ^ Z.of_nat (S k) ->
  octals (octal z) /\ (1 <= length (octal z) <= S k)%nat /\ oct_val 0 (octal z) = z.
Proof.
  intros Hk Hz. unfold octal. replace 22%nat with (S k + (21 - k))%nat by lia. rewrite octal_loop_more by exact Hz.
  now apply octal_loop_spec.
Qed.

Lemma ulong_range `{Target} z : 0 <= ulong z < 2 ^ 64.
Proof.
  unfold ulong. pose proof (Z.mod_pos_bound z (2 ^ long_bits)) as H0.
  destruct long_bits_cases as [E|E]; rewrite E in *; lia.
Qed.

Lemma ulong_small `{Target} z : 0 <= z < 2 ^ 32 -> ulong z = z.
Proof. intros Hz. unfold ulong. apply Z.mod_small. destruct long_bits_cases as [E|E]; rewrite E; lia. Qed.

Lemma octal_long `{Target} z :
  octals (octal (ulong z)) /\ (1 <= length (octal (ulong z)))%nat /\ oct_val 0 (octal (ulong z)) = ulong z.
Proof.
  pose proof (ulong_range z) as Hr. destruct (octal_spec 21 (ulong z)) as (H1 & H2 & H3); [lia| |].
  - change (8 ^ Z.of_nat 22) with (2 ^ 66). lia.
  - split; [exact H1|]. split; [lia|exact H3].
Qed.

Lemma pad_left_length w s : length (pad_left w s) = Nat.max w (length s).
Proof. unfold pad_left. rewrite length_app, repeat_length. lia. Qed.

Lemma space_byte : word 8 SPACE.
Proof. unfold word, SPACE. lia. Qed.

Lemma pad_left_bytes w s : bytes s -> bytes (pad_left w s).
Proof.
  intros H. apply words_app; [|exact H]. apply Forall_repeat. unfold word, SPACE. lia.
Qed.

(** ** Scanning *)

Lemma oct_val_le s : forall acc, octals s -> 0 <= acc -> acc <= oct_val acc s.
Proof.
  induction s as [|c s IH]; intros acc H Ha; cbn [oct_val fold_left]; [lia|]. inversion H; subst.
  fold (oct_val (acc * 8 + (c - 48)) s). specialize (IH (acc * 8 + (c - 48)) ltac:(assumption) ltac:(lia)). lia.
Qed.

Lemma octal_digits_spec s c rest : forall acc,
  octals s -> is_octal c = false -> 0 <= acc -> oct_val acc s <= UINTMAX ->
  octal_digits acc (s ++ c :: rest) = Ret (oct_val acc s).
Proof.
  induction s as [|d s IH]; intros acc Hs Hc Ha Hm; cbn [app octal_digits]; [now rewrite Hc|].
  inversion Hs; subst. rewrite is_octal_true by assumption. cbn [oct_val fold_left] in Hm |- *.
  fold (oct_val (acc * 8 + (d - 48)) s) in *. pose proof (oct_val_le s (acc * 8 + (d - 48)) ltac:(assumption) ltac:(lia)).
  rewrite Z.min_l by lia. apply IH; auto; lia.
Qed.

Lemma skip_spaces_pad n c rest : is_space c = false -> skip_spaces (repeat SPACE n ++ c :: rest) = Ret (c :: rest).
Proof. intros H. induction n as [|n IH]; cbn [repeat app skip_spaces]; [now rewrite H|exact IH]. Qed.

Lemma sscanf_octal w s c rest :
  octals s -> (1 <= length s)%nat -> is_octal c = false -> oct_val 0 s <= UINTMAX ->
  sscanf_o (pad_left w s ++ c :: rest) = Ret (Some (i32 (oct_val 0 s))).
Proof.
  intros Hs Hl Hc Hm. unfold sscanf_o, pad_left. rewrite <- app_assoc.
  destruct s as [|d s]; [cbn in Hl; lia|]. inversion Hs; subst. cbn [app].
  assert (E1 : is_space d = false).
  { unfold is_space. rewrite orb_false_iff, andb_false_iff, Z.eqb_neq, !Z.leb_nle. lia. }
  rewrite skip_spaces_pad by exact E1. cbn [bind].
  destruct (Z.eqb_spec d 45); [lia|]. destruct (Z.eqb_spec d 43); [lia|]. cbn [orb].
  rewrite is_octal_true by assumption.
  change (d :: s ++ c :: rest) with ((d :: s) ++ c :: rest).
  rewrite (octal_digits_spec (d :: s) c rest 0) by (auto; lia). reflexivity.
Qed.

(** ** The numeric members *)

Section Numbers.
Context `{Target}.

Lemma int_to_oct_length num n : (2 <= n)%nat -> length (int_to_oct num n) = n.
Proof.
  intros Hn. unfold int_to_oct. destruct n as [|k]; [lia|]. cbn [snprintf]. rewrite length_app, length_firstn, length_app.
  rewrite pad_left_length. cbn [length]. lia.
Qed.

Lemma int_to_oct_bytes num n : bytes (int_to_oct num n).
Proof.
  unfold int_to_oct. destruct n as [|k]; [constructor|]. cbn [snprintf].
  assert (B : bytes (octal (ulong num))) by (apply octals_bytes; apply octal_long).
  apply snoc_bytes; [|exact nul_byte]. apply words_firstn, snoc_bytes; [now apply pad_left_bytes|exact space_byte].
Qed.

(** A number that fits in the width is stored in full. *)
Lemma int_to_oct_fits k num :
  (k < 20)%nat -> 0 <= num < 8 ^ Z.of_nat (S k) -> num < 2 ^ 32 ->
  int_to_oct num (S k + 2) = pad_left (S k) (octal num) ++ [SPACE; 0].
Proof.
  intros Hk Hn H32. unfold int_to_oct. rewrite ulong_small by lia. replace (S k + 2 - 2)%nat with (S k) by lia.
  replace (S k + 2)%nat with (S (S (S k))) by lia. cbn [snprintf].
  destruct (octal_spec k num ltac:(lia) Hn) as (_ & Hl & _).
  rewrite firstn_all2 by (rewrite length_app, pad_left_length; cbn [length]; lia).
  rewrite <- app_assoc. reflexivity.
Qed.

Lemma int_to_oct_nonull_shape num n :
  (1 <= n)%nat ->
  int_to_oct_nonull num n = firstn (n - 1) (pad_left (n - 1) (octal (ulong (i32 num)))) ++ [SPACE].
Proof.
  intros Hn. unfold int_to_oct_nonull. destruct n as [|k]; [lia|]. cbn [snprintf].
  replace (S k - 1)%nat with k by lia. set (a := firstn k _).
  assert (La : length a = k) by (unfold a; rewrite length_firstn, pad_left_length; lia).
  clearbody a. rewrite <- La. apply set_app_exact.
Qed.

Lemma int_to_oct_nonull_length num n : (1 <= n)%nat -> length (int_to_oct_nonull num n) = n.
Proof.
  intros Hn. rewrite int_to_oct_nonull_shape by exact Hn. rewrite length_app, length_firstn, pad_left_length. cbn [length]. lia.
Qed.

Lemma int_to_oct_nonull_bytes num n : (1 <= n)%nat -> bytes (int_to_oct_nonull num n).
Proof.
  intros Hn. rewrite int_to_oct_nonull_shape by exact Hn.
  assert (B : bytes (octal (ulong (i32 num)))) by (apply octals_bytes; apply octal_long).
  apply snoc_bytes; [|exact space_byte]. apply words_firstn. now apply pad_left_bytes.
Qed.

Lemma int_to_oct_nonull_fits num :
  0 <= num < 2 ^ 31 -> int_to_oct_nonull num 12 = pad_left 11 (octal num) ++ [SPACE].
Proof.
  intros Hn. rewrite int_to_oct_nonull_shape by lia. rewrite i32_small, ulong_small by lia. cbn [Nat.sub].
  destruct (octal_spec 10 num ltac:(lia)) as (_ & Hl & _); [change (8 ^ Z.of_nat 11) with (2 ^ 33); lia|].
  rewrite firstn_all2 by (rewrite pad_left_length; lia). reflexivity.
Qed.

(** Reading back a number that was stored in full. *)
Lemma scan_number num w c rest :
  0 <= num < 2 ^ 32 -> is_octal c = false -> sscanf_o (pad_left w (octal num) ++ c :: rest) = Ret (Some (i32 num)).
Proof.
  intros Hn Hc. destruct (octal_spec 10 num ltac:(lia)) as (H1 & H2 & H3); [change (8 ^ Z.of_nat 11) with (2 ^ 33); lia|].
  rewrite sscanf_octal; [now rewrite H3|exact H1|lia|exact Hc|unfold UINTMAX; lia].
Qed.

Lemma oct_to_int_number num w c rest :
  0 <= num < 2 ^ 32 -> is_octal c = false -> oct_to_int (pad_left w (octal num) ++ c :: rest) = Ret (i32 num).
Proof. intros Hn Hc. unfold oct_to_int. now rewrite scan_number. Qed.
End Numbers.

(** A member that was stored as a number of six digits (the [int_to_oct] members). *)
Lemma scan_put_int `{Target} h m num :
  length (blk h) = T_BLOCKSIZE -> sizeof m = 8%nat -> 0 <= num < 8 ^ 6 ->
  sscanf_o (at_member (put h m (int_to_oct num 8)) m) = Ret (Some num).
Proof.
  intros Hl Hm Hn. rewrite at_member_put by (auto; rewrite int_to_oct_length; lia).
  rewrite (int_to_oct_fits 5) by lia. rewrite <- app_assoc. cbn [app].
  rewrite scan_number by (try reflexivity; lia). now rewrite i32_small by lia.
Qed.

Lemma scan_put_nonull `{Target} h m num :
  length (blk h) = T_BLOCKSIZE -> sizeof m = 12%nat -> 0 <= num < 2 ^ 31 ->
  oct_to_int (at_member (put h m (int_to_oct_nonull num 12)) m) = Ret num.
Proof.
  intros Hl Hm Hn. rewrite at_member_put by (auto; rewrite int_to_oct_nonull_length; lia).
  rewrite int_to_oct_nonull_fits by lia. rewrite <- app_assoc. cbn [app].
  rewrite oct_to_int_number by (try reflexivity; lia). now rewrite i32_small by lia.
Qed.

(** * The checksum *)

Lemma sum_bytes_acc f l : forall acc, fold_left (fun sum c => sum + f c) l acc = acc + sum_bytes f l.
Proof.
  unfold sum_bytes. induction l as [|c l IH]; intros acc; cbn [fold_left]; [lia|]. rewrite IH, (IH (0 + f c)). lia.
Qed.

Lemma sum_bytes_app f a c : sum_bytes f (a ++ c) = sum_bytes f a + sum_bytes f c.
Proof. unfold sum_bytes at 1. rewrite fold_left_app, sum_bytes_acc. reflexivity. Qed.

Lemma sum_bytes_cons f c l : sum_bytes f (c :: l) = f c + sum_bytes f l.
Proof. exact (sum_bytes_app f [c] l). Qed.

Lemma blank_out_sum f l : forall sum, blank_out f sum l = sum + SPACE * Z.of_nat (length l) - sum_bytes f l.
Proof.
  unfold blank_out. induction l as [|c l IH]; intros sum; cbn [fold_left length]; [cbn; lia|].
  rewrite IH, sum_bytes_cons. lia.
Qed.

Lemma sum_bytes_ext f g l : Forall (fun c => f c = g c) l -> sum_bytes f l = sum_bytes g l.
Proof. induction 1; [reflexivity|]. rewrite !sum_bytes_cons. congruence. Qed.

Lemma sum_bytes_bound l : bytes l -> 0 <= sum_bytes (fun c => c) l <= 255 * Z.of_nat (length l).
Proof.
  induction 1 as [|c l Hc Hl IH]; [cbn; lia|]. rewrite sum_bytes_cons. cbn [length]. unfold word in Hc. lia.
Qed.

(** The bytes around the checksum member. *)
Definition around (h : tar_header) : list Z :=
  firstn (offset chksum) (blk h) ++ skipn (offset chksum + 8) (blk h).

Lemma split_block h :
  length (blk h) = T_BLOCKSIZE ->
  blk h = firstn (offset chksum) (blk h) ++ field h chksum ++ skipn (offset chksum + 8) (blk h).
Proof.
  intros Hl. unfold field, at_member. rewrite <- (firstn_skipn (offset chksum) (blk h)) at 1. f_equal.
  rewrite <- (firstn_skipn 8 (skipn (offset chksum) (blk h))) at 1. rewrite skipn_skipn. reflexivity.
Qed.

Lemma field_length h m : length (blk h) = T_BLOCKSIZE -> length (field h m) = sizeof m.
Proof.
  intros Hl. pose proof (member_inside m). unfold field, at_member. rewrite length_firstn, length_skipn. lia.
Qed.

Lemma checksum_value f h :
  length (blk h) = T_BLOCKSIZE ->
  blank_out f (sum_bytes f (blk h)) (field h chksum) = sum_bytes f (around h) + 256.
Proof.
  intros Hl. rewrite blank_out_sum, field_length by exact Hl. change (sizeof chksum) with 8%nat.
  rewrite (split_block h Hl) at 1. unfold around. rewrite !sum_bytes_app. unfold SPACE. lia.
Qed.

Lemma around_put h bs : length (blk h) = T_BLOCKSIZE -> length bs = 8%nat -> around (put h chksum bs) = around h.
Proof.
  intros Hl Hb. unfold around. cbn [put blk]. f_equal.
  - pose proof (firstn_blit_before (blk h) (offset chksum) bs 0 (offset chksum)) as E. cbn [skipn] in E.
    apply E; [lia|]. rewrite Hl. cbv. lia.
  - apply skipn_blit_after; [lia|]. rewrite Hl, Hb. cbv. lia.
Qed.

Lemma around_length h : length (blk h) = T_BLOCKSIZE -> length (around h) = 504%nat.
Proof. intros Hl. unfold around. rewrite length_app, length_firstn, length_skipn, Hl. reflexivity. Qed.

(** A header whose characters mean the same signed and unsigned. *)
Definition plain_chars `{Target} (h : tar_header) : Prop := char_signed = true -> Forall (fun c => c < 128) (blk h).

Lemma plain_put `{Target} h m bs : plain_chars h -> Forall (fun c => c < 128) bs -> plain_chars (put h m bs).
Proof.
  intros Hp Hb Hs. specialize (Hp Hs). cbn [put blk]. unfold blit. apply Forall_app. split; [now apply Forall_firstn|].
  apply Forall_app. split; [exact Hb|now apply Forall_skipn].
Qed.

Lemma plain_char `{Target} h : plain_chars h -> Forall (fun c => char c = c) (around h).
Proof.
  intros Hp. unfold char. destruct char_signed eqn:E.
  - specialize (Hp E). cbn [andb].
    assert (G : Forall (fun c => (if 128 <=? c then c - 256 else c) = c) (blk h)).
    { eapply Forall_impl; [|exact Hp]. intros c Hc. cbv beta in Hc. destruct (Z.leb_spec 128 c); [lia|reflexivity]. }
    apply Forall_app. split; [now apply Forall_firstn|now apply Forall_skipn].
  - apply Forall_forall. reflexivity.
Qed.

(** Magic and version, as [th_finish] sets them. *)
Definition stamp (options : Z) (h : tar_header) : tar_header :=
  if opt options TAR_GNU
  then put (put h magic (USTAR ++ [SPACE])) version [SPACE; 0]
  else put (put h version (strncpy [48; 48] 2)) magic (strncpy USTAR 6).

Lemma th_finish_stamp `{Target} options h :
  th_finish options h =
  put (stamp options h) chksum
    (int_to_oct (blank_out char (sum_bytes char (blk (stamp options h))) (field (stamp options h) chksum)) 8).
Proof. reflexivity. Qed.

Lemma bytes_literal l : forallb (fun c => (0 <=? c) && (c <? 128)) l = true -> bytes l /\ Forall (fun c => c < 128) l.
Proof.
  intros H. rewrite forallb_forall in H. split; apply Forall_forall; intros c Hc; specialize (H c Hc);
    rewrite andb_true_iff, Z.leb_le, Z.ltb_lt in H; unfold word; lia.
Qed.

Lemma stamp_wf options h : th_wf h -> th_wf (stamp options h).
Proof.
  intros Hw. unfold stamp. destruct (opt options TAR_GNU); repeat apply put_wf; try exact Hw; try (cbn; lia);
    now apply bytes_literal.
Qed.

Lemma stamp_plain `{Target} options h : plain_chars h -> plain_chars (stamp options h).
Proof.
  intros Hp. unfold stamp. destruct (opt options TAR_GNU); repeat apply plain_put; try exact Hp; now apply bytes_literal.
Qed.

Lemma th_finish_wf `{Target} options h : th_wf h -> th_wf (th_finish options h).
Proof.
  intros Hw. rewrite th_finish_stamp. apply put_wf; [now apply stamp_wf|now rewrite int_to_oct_length by lia|].
  apply int_to_oct_bytes.
Qed.

(** The checksum [th_finish] stores is the one [th_crc_calc] computes. *)
Lemma th_finish_crc `{Target} options h :
  th_wf h -> plain_chars h ->
  th_get_crc (th_finish options h) = Ret (th_crc_calc (th_finish options h)).
Proof.
  intros Hw Hp. rewrite th_finish_stamp. set (g := stamp options h).
  assert (Hg : th_wf g) by now apply stamp_wf. assert (Pg : plain_chars g) by now apply stamp_plain.
  destruct Hg as [Lg Bg]. rewrite checksum_value, (sum_bytes_ext _ _ _ (plain_char g Pg)) by exact Lg.
  assert (Ba : bytes (around g)) by (unfold around, bytes in *; auto with words).
  pose proof (sum_bytes_bound (around g) Ba) as Bs. rewrite around_length in Bs by exact Lg.
  set (sum := sum_bytes (fun c => c) (around g) + 256).
  assert (Hs : 0 <= sum < 8 ^ 6) by (unfold sum; change (8 ^ 6) with 262144; lia).
  unfold th_get_crc, oct_to_int. rewrite scan_put_int by (auto; lia). cbn [bind]. unfold th_crc_calc.
  rewrite checksum_value by (apply put_length; [exact Lg|now rewrite int_to_oct_length by lia]).
  rewrite around_put; [reflexivity|exact Lg|apply int_to_oct_length; lia].
Qed.

(** * Numbers in members *)

(** The member holds the number, in octal and followed by a separator inside the
    member, so that nothing behind it is read. *)
Definition stores (h : tar_header) (m : member) (num : Z) : Prop :=
  exists w c t, field h m = pad_left w (octal num) ++ c :: t /\ is_octal c = false.

Lemma at_member_field h m : at_member h m = field h m ++ skipn (sizeof m) (at_member h m).
Proof. symmetry. apply firstn_skipn. Qed.

Lemma stores_scan h m num : stores h m num -> 0 <= num < 2 ^ 32 -> sscanf_o (at_member h m) = Ret (Some (i32 num)).
Proof.
  intros (w & c & t & E & Hc) Hn. rewrite at_member_field, E, <- app_assoc. cbn [app]. now apply scan_number.
Qed.

Lemma stores_oct h m num : stores h m num -> 0 <= num < 2 ^ 31 -> oct_to_int (at_member h m) = Ret num.
Proof.
  intros Hs Hn. unfold oct_to_int. rewrite (stores_scan h m num Hs) by lia. cbn [bind]. now rewrite i32_small by lia.
Qed.

Lemma stores_other h m m' num bs :
  length (blk h) = T_BLOCKSIZE -> stores h m num -> m' <> m -> (length bs <= sizeof m')%nat -> stores (put h m' bs) m num.
Proof.
  intros Hl (w & c & t & E & Hc) Hm Hb. exists w, c, t. split; [|exact Hc]. rewrite field_put_other by auto. exact E.
Qed.

Lemma stores_int `{Target} h m num :
  length (blk h) = T_BLOCKSIZE -> sizeof m = 8%nat -> 0 <= num < 8 ^ 6 -> stores (put h m (int_to_oct num 8)) m num.
Proof.
  intros Hl Hm Hn. exists 6%nat, SPACE, [0]. split; [|reflexivity].
  rewrite field_put by (auto; rewrite int_to_oct_length; lia). apply (int_to_oct_fits 5); lia.
Qed.

Lemma stores_nonull `{Target} h m num :
  length (blk h) = T_BLOCKSIZE -> sizeof m = 12%nat -> 0 <= num < 2 ^ 31 -> stores (put h m (int_to_oct_nonull num 12)) m num.
Proof.
  intros Hl Hm Hn. exists 11%nat, SPACE, []. split; [|reflexivity].
  rewrite field_put by (auto; rewrite int_to_oct_nonull_length; lia). now apply int_to_oct_nonull_fits.
Qed.

(** ** The setters keep the header well formed *)

Create HintDb tar discriminated.
#[export] Hint Resolve snprintf_bytes strncpy_bytes int_to_oct_bytes put_wf words_firstn words_skipn words_app space_byte nul_byte : tar.

Ltac member_length :=
  cbn [sizeof]; first
  [ rewrite int_to_oct_length by lia; lia | rewrite int_to_oct_nonull_length by lia; lia
  | rewrite strncpy_length; lia | cbn [length]; lia
  | eapply Nat.le_trans; [apply snprintf_length|lia] ].

Section Setters.
Context `{Target} `{Libc}.
(** User and group names are bytes. *)
Hypothesis users_bytes : forall i s, getpwuid i = Some s -> bytes s.
Hypothesis groups_bytes : forall i s, getgrgid i = Some s -> bytes s.

Lemma th_set_type_wf h m : th_wf h -> th_wf (th_set_type h m).
Proof.
  intros Hw. unfold th_set_type. cbv zeta beta.
  repeat match goal with |- context [if ?b then _ else _] => destruct b end;
    repeat (apply put_wf; [|member_length|now apply bytes_literal]); exact Hw.
Qed.

Lemma th_set_mode_wf h m : th_wf h -> th_wf (th_set_mode h m).
Proof. intros Hw. apply put_wf; [exact Hw|member_length|apply int_to_oct_bytes]. Qed.

Lemma th_set_mtime_wf h z : th_wf h -> th_wf (th_set_mtime h z).
Proof. intros Hw. apply put_wf; [exact Hw|member_length|apply int_to_oct_nonull_bytes; lia]. Qed.

Lemma th_set_size_wf h z : th_wf h -> th_wf (th_set_size h z).
Proof. intros Hw. apply put_wf; [exact Hw|member_length|apply int_to_oct_nonull_bytes; lia]. Qed.

Lemma th_set_device_wf h d : th_wf h -> th_wf (th_set_device h d).
Proof. intros Hw. repeat (apply put_wf; [|member_length|apply int_to_oct_bytes]). exact Hw. Qed.

Lemma th_set_user_wf options h i : th_wf h -> th_wf (th_set_user options h i).
Proof.
  intros Hw. unfold th_set_user. apply put_wf; [|member_length|apply int_to_oct_bytes].
  destruct (opt options TAR_USE_NUMERIC_ID); [exact Hw|]. destruct (getpwuid i) as [s|] eqn:E; [|exact Hw].
  apply put_wf; [exact Hw|rewrite strlcpy_snprintf; member_length|rewrite strlcpy_snprintf; apply snprintf_bytes, (users_bytes i s E)].
Qed.

Lemma th_set_group_wf options h i : th_wf h -> th_wf (th_set_group options h i).
Proof.
  intros Hw. unfold th_set_group. apply put_wf; [|member_length|apply int_to_oct_bytes].
  destruct (opt options TAR_USE_NUMERIC_ID); [exact Hw|]. destruct (getgrgid i) as [s|] eqn:E; [|exact Hw].
  apply put_wf; [exact Hw|rewrite strlcpy_snprintf; member_length|rewrite strlcpy_snprintf; apply snprintf_bytes, (groups_bytes i s E)].
Qed.

Lemma th_set_from_stat_wf options h s : th_wf h -> th_wf (th_set_from_stat options h s).
Proof.
  intros Hw. unfold th_set_from_stat. cbv zeta.
  assert (H1 := th_set_type_wf h (st_mode s) Hw). revert H1. generalize (th_set_type h (st_mode s)). intros g Hg.
  destruct (is_type S_IFREG (st_mode s)), (is_type S_IFCHR (st_mode s) || is_type S_IFBLK (st_mode s));
    auto 10 using th_set_size_wf, th_set_mtime_wf, th_set_mode_wf, th_set_group_wf, th_set_user_wf, th_set_device_wf.
Qed.

Lemma set_longname_wf h s : th_wf (set_longname h s) <-> th_wf h.
Proof. reflexivity. Qed.

Lemma th_set_path_wf options h s g : th_wf h -> bytes s -> th_set_path options h s = Ret g -> th_wf g.
Proof.
  intros Hw Hb. unfold th_set_path. cbv zeta. apply (proj2 (set_longname_wf h None)) in Hw. revert Hw.
  generalize (set_longname h None). intros h0 Hw. destruct (length s =? 0)%nat; [discriminate|].
  destruct (if ends_with_slash s then Ret false else TH_ISDIR h0) as [|d]; [discriminate|]. cbn [bind].
  assert (Hsuf : bytes (if d then [SLASH] else [])) by (destruct d; now apply bytes_literal).
  unfold T_NAMELEN. destruct (_ && _).
  { intros E. apply Ret_inj in E as <-. apply put_wf; [now rewrite set_longname_wf|member_length|auto with tar]. }
  destruct (_ <=? _)%nat.
  - destruct (strchr _ _) as [p|]; intros E; [|now apply Ret_inj in E as <-].
    assert (Hn : th_wf (put h0 name (strncpy (firstn 100 (skipn (S (length s - 100 + length p)) s ++ (if d then [SLASH] else []))) 100))).
    { apply put_wf; [exact Hw|member_length|]. apply strncpy_bytes. unfold bytes in *. auto with words. }
    destruct (Nat.leb_spec 155 (length s - 100 + length p)); apply Ret_inj in E as <-;
      (apply put_wf; [exact Hn|member_length|auto with tar]).
  - intros E. apply Ret_inj in E as <-. apply put_wf; [exact Hw|member_length|].
    apply snprintf_bytes. unfold bytes in *. auto with words.
Qed.
End Setters.

(** ** What the setters leave alone *)

(** A change of the header that only touches the members of [ms]. *)
Definition touches (ms : list member) (h g : tar_header) : Prop :=
  length (blk g) = T_BLOCKSIZE /\ forall m, ~ In m ms -> field g m = field h m.

Lemma touches_refl ms h : length (blk h) = T_BLOCKSIZE -> touches ms h h.
Proof. intros Hl. split; [exact Hl|reflexivity]. Qed.

Lemma touches_put ms h g m bs :
  touches ms h g -> In m ms -> (length bs <= sizeof m)%nat -> touches ms h (put g m bs).
Proof.
  intros [Hl Hf] Hm Hb. split; [now apply put_length|]. intros m' Hm'.
  rewrite field_put_other; [now apply Hf|exact Hl| |exact Hb]. intros ->. contradiction.
Qed.

Lemma touches_trans ms ms' h g k : touches ms h g -> touches ms' g k -> touches (ms ++ ms') h k.
Proof.
  intros [_ H1] [Hl H2]. split; [exact Hl|]. intros m Hm. rewrite in_app_iff in Hm.
  rewrite H2, H1; [reflexivity|tauto|tauto].
Qed.

Lemma stores_touches ms h g m num : touches ms h g -> ~ In m ms -> stores h m num -> stores g m num.
Proof. intros [_ Hf] Hm (w & c & t & E & Hc). exists w, c, t. split; [|exact Hc]. now rewrite Hf. Qed.

Lemma type_touches ms h g :
  length (blk h) = T_BLOCKSIZE -> touches ms h g -> ~ In typeflag ms -> type_of g = type_of h.
Proof.
  intros Hl [Hg Hf] Hm. specialize (Hf typeflag Hm). rewrite !type_field in Hf by assumption. congruence.
Qed.

Section Stat.
Context `{Target} `{Libc}.

Lemma set_user_touches options h i : length (blk h) = T_BLOCKSIZE -> touches [uid; uname] h (th_set_user options h i).
Proof.
  intros Hl. unfold th_set_user. apply touches_put; [|cbn; auto|member_length].
  destruct (opt options TAR_USE_NUMERIC_ID); [now apply touches_refl|]. destruct (getpwuid i); [|now apply touches_refl].
  apply touches_put; [now apply touches_refl|cbn; auto|rewrite strlcpy_snprintf; member_length].
Qed.

Lemma set_group_touches options h i : length (blk h) = T_BLOCKSIZE -> touches [gid; gname] h (th_set_group options h i).
Proof.
  intros Hl. unfold th_set_group. apply touches_put; [|cbn; auto|member_length].
  destruct (opt options TAR_USE_NUMERIC_ID); [now apply touches_refl|]. destruct (getgrgid i); [|now apply touches_refl].
  apply touches_put; [now apply touches_refl|cbn; auto|rewrite strlcpy_snprintf; member_length].
Qed.

Lemma set_device_touches h d : length (blk h) = T_BLOCKSIZE -> touches [devmajor; devminor] h (th_set_device h d).
Proof.
  intros Hl. unfold th_set_device. repeat (apply touches_put; [|cbn; auto|member_length]). now apply touches_refl.
Qed.

(** The tail of [th_set_from_stat], from the user on. *)
Definition stat_numbers options (h : tar_header) (s : stat) : tar_header :=
  let h := th_set_user options h (st_uid s) in
  let h := th_set_group options h (st_gid s) in
  let h := th_set_mode h (st_mode s) in
  let h := th_set_mtime h (st_mtime s) in
  th_set_size h (if is_type S_IFREG (st_mode s) then st_size s else 0).

(** A socket is recorded as a fifo. *)
Definition recorded_mode (m : Z) : Z := if is_type S_IFSOCK m then Z.ldiff m S_IFSOCK .| S_IFIFO else m.

Lemma stat_numbers_spec options h s :
  length (blk h) = T_BLOCKSIZE ->
  0 <= st_uid s < 8 ^ 6 -> 0 <= st_gid s < 8 ^ 6 -> 0 <= recorded_mode (st_mode s) < 8 ^ 6 ->
  0 <= st_mtime s < 2 ^ 31 -> 0 <= st_size s < 2 ^ 31 ->
  let g := stat_numbers options h s in
  touches [uid; uname; gid; gname; mode; mtime; size] h g /\
  stores g uid (st_uid s) /\ stores g gid (st_gid s) /\ stores g mode (recorded_mode (st_mode s)) /\
  stores g mtime (st_mtime s) /\ stores g size (if is_type S_IFREG (st_mode s) then st_size s else 0).
Proof.
  intros Hl Hu Hg Hm Ht Hz g. unfold g, stat_numbers.
  set (h1 := th_set_user options h (st_uid s)). set (h2 := th_set_group options h1 (st_gid s)).
  set (h3 := th_set_mode h2 (st_mode s)). set (h4 := th_set_mtime h3 (st_mtime s)).
  set (h5 := th_set_size h4 _).
  assert (T1 : touches [uid; uname] h h1) by now apply set_user_touches.
  assert (T2 : touches [gid; gname] h1 h2) by (apply set_group_touches; apply T1).
  assert (T3 : touches [mode] h2 h3) by (apply touches_put; [apply touches_refl; apply T2|cbn; auto|member_length]).
  assert (T4 : touches [mtime] h3 h4) by (apply touches_put; [apply touches_refl; apply T3|cbn; auto|member_length]).
  assert (T5 : touches [size] h4 h5) by (apply touches_put; [apply touches_refl; apply T4|cbn; auto|member_length]).
  pose proof (touches_trans _ _ _ _ _ T4 T5) as T45. pose proof (touches_trans _ _ _ _ _ T3 T45) as T35.
  pose proof (touches_trans _ _ _ _ _ T2 T35) as T25. pose proof (touches_trans _ _ _ _ _ T1 T25) as T15.
  assert (L1 : length (blk (if opt options TAR_USE_NUMERIC_ID then h
    else match getpwuid (st_uid s) with Some n => put h uname (fst (strlcpy n 32)) | None => h end)) = T_BLOCKSIZE).
  { destruct (opt options TAR_USE_NUMERIC_ID); [exact Hl|]. destruct (getpwuid _); [|exact Hl].
    apply put_length; [exact Hl|rewrite strlcpy_snprintf; member_length]. }
  assert (L2 : length (blk (if opt options TAR_USE_NUMERIC_ID then h1
    else match getgrgid (st_gid s) with Some n => put h1 gname (fst (strlcpy n 32)) | None => h1 end)) = T_BLOCKSIZE).
  { destruct T1 as [L _]. destruct (opt options TAR_USE_NUMERIC_ID); [exact L|]. destruct (getgrgid _); [|exact L].
    apply put_length; [exact L|rewrite strlcpy_snprintf; member_length]. }
  split; [exact T15|]. split; [|split; [|split; [|split]]].
  - eapply stores_touches; [exact T25|cbn; intuition discriminate|]. now apply stores_int.
  - eapply stores_touches; [exact T35|cbn; intuition discriminate|]. now apply stores_int.
  - eapply stores_touches; [exact T45|cbn; intuition discriminate|]. apply stores_int; [apply T2|reflexivity|exact Hm].
  - eapply stores_touches; [exact T5|cbn; intuition discriminate|]. apply stores_nonull; [apply T3|reflexivity|exact Ht].
  - apply stores_nonull; [apply T4|reflexivity|]. destruct (is_type S_IFREG (st_mode s)); [exact Hz|lia].
Qed.
End Stat.

(** ** File types *)

Definition known_types : list Z := [S_IFLNK; S_IFREG; S_IFDIR; S_IFCHR; S_IFBLK; S_IFIFO; S_IFSOCK].

(** The typeflag of a file type, sockets being recorded as fifos. *)
Definition flag_of (ty : Z) : Z :=
  if ty =? S_IFLNK then SYMTYPE else if ty =? S_IFREG then REGTYPE else if ty =? S_IFDIR then DIRTYPE
  else if ty =? S_IFCHR then CHRTYPE else if ty =? S_IFBLK then BLKTYPE else FIFOTYPE.

Ltac each_type H :=
  cbn [known_types In] in H;
  destruct H as [H|[H|[H|[H|[H|[H|[H|[]]]]]]]]; symmetry in H.

Lemma th_set_type_flag h m :
  length (blk h) = T_BLOCKSIZE -> In (m .& S_IFMT) known_types ->
  type_of (th_set_type h m) = flag_of (m .& S_IFMT) /\ touches [typeflag] h (th_set_type h m).
Proof.
  intros Hl Hm. unfold th_set_type, is_type. cbv zeta.
  each_type Hm; rewrite Hm; cbn [Z.eqb S_IFLNK S_IFREG S_IFDIR S_IFCHR S_IFBLK S_IFIFO S_IFSOCK Pos.eqb orb];
    (split; [now rewrite type_of_put_type|apply touches_put; [now apply touches_refl|cbn; auto|cbn; lia]]).
Qed.

Lemma recorded_type m :
  In (m .& S_IFMT) known_types ->
  recorded_mode m .& S_IFMT = if m .& S_IFMT =? S_IFSOCK then S_IFIFO else m .& S_IFMT.
Proof.
  intros Hm. unfold recorded_mode, is_type. destruct (Z.eqb_spec (m .& S_IFMT) S_IFSOCK) as [E|E]; [|reflexivity].
  transitivity (Z.ldiff (m .& S_IFMT) S_IFSOCK .| (S_IFIFO .& S_IFMT)); [bitwise_eq|]. now rewrite E.
Qed.

Lemma ldiff_word w a c : 0 <= w -> word w a -> word w (Z.ldiff a c).
Proof.
  intros Hw Ha. apply word_of_bits; [exact Hw|apply Z.ldiff_nonneg; left; apply Ha|].
  intros i Hi. rewrite Z.ldiff_spec, (word_testbit_high w a i) by (auto; lia). reflexivity.
Qed.

Lemma recorded_range m : word 16 m -> word 16 (recorded_mode m).
Proof.
  intros Hm. unfold recorded_mode. destruct (is_type S_IFSOCK m); [|exact Hm].
  apply lor_word; [lia|now apply ldiff_word; [lia|]|split; [discriminate|reflexivity]].
Qed.

Lemma mode_t_small `{Target} z : word 16 z -> mode_t z = z.
Proof.
  intros Hz. unfold mode_t. apply Z.mod_small. unfold word in Hz. destruct long_bits_cases as [E|E]; rewrite E;
    [change (32 / 2) with 16|change (64 / 2) with 32]; lia.
Qed.

Lemma th_set_from_stat_split `{Target} `{Libc} options h s :
  th_set_from_stat options h s =
  stat_numbers options
    (if is_type S_IFCHR (st_mode s) || is_type S_IFBLK (st_mode s)
     then th_set_device (th_set_type h (st_mode s)) (st_rdev s) else th_set_type h (st_mode s)) s.
Proof. unfold th_set_from_stat, stat_numbers. destruct (is_type S_IFREG (st_mode s)); reflexivity. Qed.

(** ** Paths *)

Lemma name_chars_field h : name_chars h = c_string_n T_NAMELEN (field h name).
Proof. unfold name_chars, field. change (sizeof name) with T_NAMELEN. symmetry. apply c_string_n_firstn. Qed.

Lemma firstn_hd n (s : list Z) d : (1 <= n)%nat -> hd d (firstn n s) = hd d s.
Proof. destruct n; [lia|]. destruct s; reflexivity. Qed.

Lemma get_offset h m : length (blk h) = T_BLOCKSIZE -> get (blk h) (offset m) = hd 0 (field h m).
Proof.
  intros Hl. unfold field, at_member, get. rewrite firstn_hd by (destruct m; cbn; lia).
  rewrite <- (firstn_skipn (offset m) (blk h)) at 1. pose proof (member_inside m).
  rewrite app_nth2; rewrite length_firstn; [|lia]. replace (offset m - Nat.min (offset m) (length (blk h)))%nat with O by lia.
  destruct (skipn (offset m) (blk h)); reflexivity.
Qed.

Lemma name_chars_put h s :
  length (blk h) = T_BLOCKSIZE -> chars s -> (length s <= T_NAMELEN)%nat ->
  name_chars (put h name (strncpy s T_NAMELEN)) = s.
Proof.
  intros Hl Hs Hn. rewrite name_chars_field, field_put by (auto; apply strncpy_length). unfold strncpy.
  rewrite c_string_n_firstn. apply c_string_n_chars; [exact Hs|].
  destruct (Nat.eq_dec (length s) T_NAMELEN); [now left|right]. split; [lia|reflexivity].
Qed.

(** The path fits the format that is written. *)
Definition path_fits (options : Z) (s suffix : list Z) : bool :=
  if (T_NAMELEN <=? length s)%nat then
    opt options TAR_GNU ||
    match strchr (skipn (length s - T_NAMELEN) s) SLASH with
    | None => false
    | Some p => let split := (length s - T_NAMELEN + length p)%nat in (1 <=? split)%nat && (split <? 155)%nat
    end
  else (length s + length suffix <? T_NAMELEN)%nat.
(** The split form: the prefix and the name. *)
Lemma split_path s p :
  (T_NAMELEN <= length s)%nat -> strchr (skipn (length s - T_NAMELEN) s) SLASH = Some p ->
  let split := (length s - T_NAMELEN + length p)%nat in
  s = firstn split s ++ SLASH :: skipn (S split) s /\ (length (skipn (S split) s) < T_NAMELEN)%nat.
Proof.
  intros Hl E split. apply strchr_split in E. set (k := (length s - T_NAMELEN)%nat) in *.
  rewrite skipn_skipn in E. replace (S (length p) + k)%nat with (S split) in E by (unfold split; lia).
  assert (Es : s = (firstn k s ++ p) ++ SLASH :: skipn (S split) s).
  { rewrite <- app_assoc, <- E. symmetry. apply firstn_skipn. }
  assert (Lk : length (firstn k s) = k) by (rewrite length_firstn; lia).
  assert (Ef : firstn split s = firstn k s ++ p).
  { rewrite Es at 1. rewrite firstn_app, firstn_all2 by (rewrite length_app; unfold split; lia).
    rewrite length_app, Lk. replace (split - (k + length p))%nat with O by (unfold split; lia). apply app_nil_r. }
  split; [rewrite Ef; exact Es|]. rewrite length_skipn. unfold split, k, T_NAMELEN in *. lia.
Qed.

(** What is read back from a prefix and a name. *)
Lemma pathname_split h pre tl :
  length (blk h) = T_BLOCKSIZE -> gnu_longname h = None -> chars pre -> chars tl ->
  (1 <= length pre < 155)%nat -> (length tl <= T_NAMELEN)%nat ->
  th_get_pathname (put (put h name (strncpy tl T_NAMELEN)) prefix (pre ++ [0])) = Ret (pre ++ SLASH :: tl).
Proof.
  intros Hl Hg Cp Ct Lp Lt. set (hn := put h name (strncpy tl T_NAMELEN)).
  assert (Ln : length (blk hn) = T_BLOCKSIZE) by (apply put_length; [exact Hl|rewrite strncpy_length; reflexivity]).
  assert (Lb : (length (pre ++ [0%Z]) <= sizeof prefix)%nat) by (rewrite length_app; cbn [length sizeof]; lia).
  unfold th_get_pathname. change (gnu_longname (put hn prefix (pre ++ [0]))) with (gnu_longname h). rewrite Hg.
  rewrite get_offset by (now apply put_length). unfold field. rewrite at_member_put, <- app_assoc by assumption.
  rewrite firstn_hd by (cbn; lia). destruct pre as [|c0 f]; [cbn in Lp; lia|].
  cbn [hd app]. inversion Cp as [|? ? Hc0 _]; subst. destruct (Z.eqb_spec c0 0); [contradiction|]. cbn [negb]. f_equal.
  change (c0 :: f ++ 0 :: ?r) with ((c0 :: f) ++ 0 :: r).
  rewrite (c_string_n_chars 155 (c0 :: f)); [|exact Cp|right; split; [apply Lp|reflexivity]].
  rewrite name_chars_field, field_put_other; [|exact Ln|discriminate|exact Lb].
  rewrite <- name_chars_field. unfold hn. now rewrite name_chars_put.
Qed.

(** What is read back from a short name. *)
Lemma pathname_short h s :
  length (blk h) = T_BLOCKSIZE -> gnu_longname h = None -> get (blk h) (offset prefix) = 0 ->
  chars s -> (length s < T_NAMELEN)%nat ->
  th_get_pathname (put h name (snprintf T_NAMELEN s)) = Ret s.
Proof.
  intros Hl Hg Hp Cs Ls. set (bs := snprintf T_NAMELEN s).
  assert (Lb : (length bs <= sizeof name)%nat) by apply snprintf_length.
  unfold th_get_pathname. change (gnu_longname (put h name bs)) with (gnu_longname h). rewrite Hg.
  rewrite get_offset, field_put_other, <- get_offset, Hp by (try discriminate; try assumption; now apply put_length).
  cbn [Z.eqb negb]. f_equal. unfold name_chars. rewrite at_member_put by assumption.
  assert (Eb : bs = s ++ [0]) by (unfold bs, T_NAMELEN, snprintf in *; rewrite firstn_all2 by lia; reflexivity).
  rewrite Eb, <- app_assoc. apply c_string_n_chars; [exact Cs|]. right. split; [exact Ls|reflexivity].
Qed.

(** * Theorems *)

(** What [th_set_from_stat] leaves in a header. *)
Lemma stat_stores `{Target} `{Libc} options h s :
  length (blk h) = T_BLOCKSIZE -> word 16 (st_mode s) -> In (st_mode s .& S_IFMT) known_types ->
  0 <= st_uid s < 8 ^ 6 -> 0 <= st_gid s < 8 ^ 6 -> 0 <= st_mtime s < 2 ^ 31 -> 0 <= st_size s < 2 ^ 31 ->
  let g := th_set_from_stat options h s in
  type_of g = flag_of (st_mode s .& S_IFMT) /\
  touches [typeflag; devmajor; devminor; uid; uname; gid; gname; mode; mtime; size] h g /\
  stores g uid (st_uid s) /\ stores g gid (st_gid s) /\ stores g mode (recorded_mode (st_mode s)) /\
  stores g mtime (st_mtime s) /\ stores g size (if is_type S_IFREG (st_mode s) then st_size s else 0).
Proof.
  intros Hl Hm Ht Hu Hg Hmt Hz g. destruct (th_set_type_flag h (st_mode s) Hl Ht) as [F T0].
  set (h1 := if is_type S_IFCHR (st_mode s) || is_type S_IFBLK (st_mode s)
     then th_set_device (th_set_type h (st_mode s)) (st_rdev s) else th_set_type h (st_mode s)).
  assert (L1 : touches [typeflag; devmajor; devminor] h h1 /\ type_of h1 = flag_of (st_mode s .& S_IFMT)).
  { unfold h1. destruct (_ || _).
    - pose proof (set_device_touches (th_set_type h (st_mode s)) (st_rdev s) (proj1 T0)) as T1.
      split; [exact (touches_trans _ _ _ _ _ T0 T1)|].
      rewrite <- F. apply (type_touches _ _ _ (proj1 T0) T1). cbn. intuition discriminate.
    - split; [|exact F]. destruct T0 as [L0 F0]. split; [exact L0|]. intros m Hin. apply F0. cbn in *. tauto. }
  destruct L1 as [L1 F1]. pose proof (recorded_range _ Hm) as Hr. unfold word in Hr.
  assert (Eg : g = stat_numbers options h1 s) by apply th_set_from_stat_split. clearbody g. subst g.
  destruct (stat_numbers_spec options h1 s (proj1 L1) Hu Hg ltac:(change (8 ^ 6) with 262144; lia) Hmt Hz)
    as (T & S). split; [|split; [exact (touches_trans _ _ _ _ _ L1 T)|exact S]].
  rewrite <- F1. apply (type_touches _ _ _ (proj1 L1) T). cbn. intuition discriminate.
Qed.

(** C27: what [th_set_from_stat] writes into a header, the decoding functions read
    back: size (of regular files, 0 otherwise), modification time, mode with the
    file type (a socket becomes a fifo), numeric owner and group, and the type
    tests; for ids of at most six octal digits and sizes and times below 2^31. *)
Theorem stat_roundtrip `{Target} `{Libc} options h s :
  length (blk h) = T_BLOCKSIZE -> word 16 (st_mode s) -> In (st_mode s .& S_IFMT) known_types ->
  0 <= st_uid s < 8 ^ 6 -> 0 <= st_gid s < 8 ^ 6 -> 0 <= st_mtime s < 2 ^ 31 -> 0 <= st_size s < 2 ^ 31 ->
  opt options TAR_USE_NUMERIC_ID = true ->
  let g := th_set_from_stat options h s in
  th_get_size g = Ret (if is_type S_IFREG (st_mode s) then st_size s else 0) /\
  th_get_mtime g = Ret (st_mtime s) /\ th_get_mode g = Ret (recorded_mode (st_mode s)) /\
  th_get_uid options g = Ret (st_uid s) /\ th_get_gid options g = Ret (st_gid s) /\
  TH_ISREG g = Ret (is_type S_IFREG (st_mode s)) /\ TH_ISDIR g = Ret (is_type S_IFDIR (st_mode s)) /\
  TH_ISSYM g = Ret (is_type S_IFLNK (st_mode s)).
Proof.
  intros Hl Hm Ht Hu Hg Hmt Hz Ho g.
  destruct (stat_stores options h s Hl Hm Ht Hu Hg Hmt Hz) as (Fg & _ & Su & Sg & Sm & St & Ss).
  fold g in Fg, Su, Sg, Sm, St, Ss. pose proof (recorded_range _ Hm) as Hr. unfold word in Hr.
  change (8 ^ 6) with 262144 in Hu, Hg.
  assert (Om : oct_to_int (at_member g mode) = Ret (recorded_mode (st_mode s))) by (apply stores_oct; [exact Sm|lia]).
  assert (Ot : forall ty, mode_is ty g = Ret (is_type ty (recorded_mode (st_mode s)))).
  { intros ty. unfold mode_is. rewrite Om. cbn [bind]. now rewrite mode_t_small by exact Hr. }
  split; [apply stores_oct; [exact Ss|destruct (is_type S_IFREG (st_mode s)); lia]|].
  split; [now apply stores_oct|].
  split. { unfold th_get_mode. rewrite Om. cbn [bind]. rewrite mode_t_small, recorded_type by assumption.
           each_type Ht; rewrite Ht; reflexivity. }
  split. { unfold th_get_uid, scan_id. rewrite Ho, (stores_scan _ _ _ Su) by lia. cbn [bind].
           rewrite i32_small, u32_small by lia. reflexivity. }
  split. { unfold th_get_gid, scan_id. rewrite Ho, (stores_scan _ _ _ Sg) by lia. cbn [bind].
           rewrite i32_small, u32_small by lia. reflexivity. }
  unfold TH_ISREG, TH_ISDIR, TH_ISSYM. rewrite !Ot, Fg. unfold is_type. rewrite recorded_type by exact Ht.
  each_type Ht; rewrite Ht; repeat split; reflexivity.
Qed.

Lemma path_read_back `{Target} options h s isdir :
  length (blk h) = T_BLOCKSIZE -> get (blk h) (offset prefix) = 0 -> chars s -> s <> [] ->
  TH_ISDIR h = Ret isdir ->
  let suffix := if negb (ends_with_slash s) && isdir then [SLASH] else [] in
  path_fits options s suffix = true ->
  exists g, th_set_path options h s = Ret g /\
    th_get_pathname g = Ret (s ++ if (T_NAMELEN <=? length s)%nat && opt options TAR_GNU then [] else suffix).
Proof.
  intros Hl Hp Hs Hne Hd suffix Hfit. unfold th_set_path.
  assert (Hd' : TH_ISDIR (set_longname h None) = Ret isdir) by exact Hd.
  destruct (Nat.eqb_spec (length s) 0) as [E0|_]; [now apply length_zero_iff_nil in E0|].
  set (h0 := set_longname h None) in *. assert (L0 : length (blk h0) = T_BLOCKSIZE) by exact Hl.
  replace (if ends_with_slash s then Ret false else TH_ISDIR h0) with (Ret (negb (ends_with_slash s) && isdir))
    by (destruct (ends_with_slash s); [reflexivity|now rewrite Hd']).
  cbn [bind]. fold suffix. assert (Hsuf : chars suffix /\ (length suffix <= 1)%nat).
  { unfold suffix. destruct (_ && _); [split; [constructor; [discriminate|constructor]|cbn; lia]|split; [constructor|cbn; lia]]. }
  destruct Hsuf as [Cs Ls]. unfold path_fits in Hfit.
  destruct (Nat.leb_spec T_NAMELEN (length s)) as [Hlen|Hlen]; cbn [andb].
  - destruct (opt options TAR_GNU); cbn [andb orb] in *.
    { eexists. split; [reflexivity|]. rewrite app_nil_r. now apply c_string_chars. }
    destruct (strchr _ _) as [p|] eqn:Ep; [|discriminate Hfit].
    destruct (split_path s p Hlen Ep) as [Es Lt]. set (split := (length s - T_NAMELEN + length p)%nat) in *.
    apply andb_true_iff in Hfit as [H1 H2]. apply Nat.leb_le in H1. apply Nat.ltb_lt in H2.
    destruct (Nat.leb_spec 155 split) as [|_]; [lia|]. eexists. split; [reflexivity|].
    rewrite firstn_all2 by (rewrite length_app; unfold T_NAMELEN in *; lia).
    replace (snprintf (split + 1) s) with (firstn split s ++ [0]) by (rewrite Nat.add_comm; reflexivity).
    rewrite Es in Hs. apply Forall_app in Hs as [Cf Ct]. inversion Ct; subst.
    rewrite pathname_split; try assumption; try reflexivity.
    + rewrite Es at 3. rewrite <- app_assoc. reflexivity.
    + apply Forall_app. split; assumption.
    + rewrite length_firstn. unfold T_NAMELEN in *. lia.
    + rewrite length_app. unfold T_NAMELEN in *. lia.
  - apply Nat.ltb_lt in Hfit. eexists. split; [reflexivity|]. apply pathname_short; try assumption; try reflexivity.
    + apply Forall_app. split; assumption.
    + rewrite length_app. exact Hfit.
Qed.

(** What [th_set_path] changes besides. *)
Lemma th_set_path_touches `{Target} options h s g :
  length (blk h) = T_BLOCKSIZE -> th_set_path options h s = Ret g ->
  touches [name; prefix] h g /\ gnu_longlink g = gnu_longlink h /\ selinux_context g = selinux_context h /\
  (gnu_longname g = None \/ gnu_longname g = Some (strdup s) /\ opt options TAR_GNU = true).
Proof.
  intros Hl. unfold th_set_path. cbv zeta. set (h0 := set_longname h None).
  assert (T0 : touches [name; prefix] h h0) by (split; [exact Hl|reflexivity]).
  destruct (length s =? 0)%nat; [discriminate|].
  destruct (if ends_with_slash s then Ret false else TH_ISDIR h0) as [|d]; [discriminate|]. cbn [bind].
  unfold T_NAMELEN. destruct (100 <=? length s)%nat; cbn [andb].
  - destruct (opt options TAR_GNU).
    { intros E. apply Ret_inj in E as <-. split; [|repeat split; right; split; reflexivity].
      apply touches_put; [split; [exact Hl|reflexivity]|now left|member_length]. }
    destruct (strchr _ _) as [p|]; intros E.
    + assert (Tn : forall tl, touches [name; prefix] h (put h0 name (strncpy tl 100))).
      { intros tl. apply touches_put; [exact T0|now left|member_length]. }
      destruct (Nat.leb_spec 155 (length s - 100 + length p)); apply Ret_inj in E as <-;
        (split; [apply touches_put; [apply Tn|right; now left|member_length]|repeat split; now left]).
    + apply Ret_inj in E as <-. split; [exact T0|repeat split; now left].
  - intros E. apply Ret_inj in E as <-. split; [|repeat split; now left].
    apply touches_put; [exact T0|now left|member_length].
Qed.

(** The name member of a path that does not end in a slash is not empty. *)
Lemma th_set_path_named `{Target} options h s g :
  length (blk h) = T_BLOCKSIZE -> chars s -> s <> [] -> ends_with_slash s = false -> TH_ISDIR h = Ret false ->
  path_fits options s [] = true -> th_set_path options h s = Ret g -> hd 0 (field g name) <> 0.
Proof.
  intros Hl Hs Hne Hsl Hd Hfit. unfold th_set_path. cbv zeta. set (h0 := set_longname h None).
  destruct (length s =? 0)%nat; [discriminate|]. rewrite Hsl.
  replace (TH_ISDIR h0) with (Ret false) by (symmetry; exact Hd). cbn [bind].
  assert (L0 : length (blk h0) = T_BLOCKSIZE) by exact Hl.
  assert (Hhd : forall u n, chars u -> u <> [] -> (0 < n)%nat -> hd 0 (strncpy u n) <> 0).
  { intros [|c u] [|n] Cu Hu Hn; [contradiction|contradiction|lia|]. inversion Cu; subst. assumption. }
  unfold path_fits in Hfit. destruct (Nat.leb_spec T_NAMELEN (length s)) as [Hlen|Hlen]; cbn [andb].
  - destruct (opt options TAR_GNU); cbn [orb] in Hfit.
    { intros E. apply Ret_inj in E as <-. rewrite field_put; [|exact L0|apply strncpy_length]. apply Hhd; [assumption|assumption|unfold T_NAMELEN; lia]. }
    destruct (strchr _ _) as [p|] eqn:Ep; [|discriminate Hfit].
    destruct (split_path s p Hlen Ep) as [Es Lt]. set (split := (length s - T_NAMELEN + length p)%nat) in *.
    apply andb_true_iff in Hfit as [H1 H2]. apply Nat.leb_le in H1. apply Nat.ltb_lt in H2.
    destruct (Nat.leb_spec 155 split) as [|_]; [lia|]. rewrite app_nil_r, firstn_all2 by lia. intros E. apply Ret_inj in E as <-.
    set (tl := skipn (S split) s) in *.
    rewrite field_put_other; [|apply put_length; [exact L0|rewrite strncpy_length; reflexivity]|discriminate|pose proof (snprintf_length (split + 1) s); cbn; lia].
    rewrite field_put; [|exact L0|apply strncpy_length]. rewrite Es in Hs. apply Forall_app in Hs as [_ Ct]. inversion Ct; subst.
    apply Hhd; [assumption| |unfold T_NAMELEN; lia]. intros E. rewrite Es, E in Hsl. unfold ends_with_slash in Hsl.
    rewrite last_last in Hsl. discriminate Hsl.
  - intros E. apply Ret_inj in E as <-. rewrite app_nil_r. apply Nat.ltb_lt in Hfit. unfold field.
    rewrite at_member_put; [|exact L0|apply snprintf_length].
    destruct s as [|c s]; [contradiction|]. inversion Hs; subst. exact H2.
Qed.

(** Without a long name the path is in the name and prefix members. *)
Lemma pathname_fields h g :
  length (blk h) = T_BLOCKSIZE -> length (blk g) = T_BLOCKSIZE ->
  field g name = field h name -> field g prefix = field h prefix -> gnu_longname h = None -> gnu_longname g = None ->
  th_get_pathname g = th_get_pathname h.
Proof.
  intros Lh Lg Fn Fp Gh Gg. unfold th_get_pathname. rewrite Gh, Gg, !get_offset, Fp, !name_chars_field, Fn by assumption.
  assert (E : forall k, c_string_n 155 (at_member k prefix) = c_string_n 155 (field k prefix))
    by (intros k; unfold field; symmetry; apply c_string_n_firstn).
  now rewrite !E, Fp.
Qed.

(** C13: A path survives the header: for a path that is not empty and fits the format
    ([path_fits]), set in a header whose prefix member is empty (as it is after the header
    was cleared), [th_get_pathname] returns the path, whichever format [th_set_path]
    chooses (the name member, the GNU long name, or prefix and name).  The name of a
    directory that lacks it comes back with a slash at its end, except for a GNU long
    name, which is kept as it was given. *)
Theorem path_roundtrip `{Target} options h s isdir :
  length (blk h) = T_BLOCKSIZE -> get (blk h) (offset prefix) = 0 -> chars s -> s <> [] ->
  TH_ISDIR h = Ret isdir ->
  let suffix := if negb (ends_with_slash s) && isdir then [SLASH] else [] in
  path_fits options s suffix = true ->
  exists g, th_set_path options h s = Ret g /\
    th_get_pathname g = Ret (s ++ if (T_NAMELEN <=? length s)%nat && opt options TAR_GNU then [] else suffix).
Proof. apply path_read_back. Qed.

(** ** Concrete headers *)

Definition empty_header : tar_header :=
  {| blk := repeat 0 T_BLOCKSIZE; gnu_longname := None; gnu_longlink := None; selinux_context := None |}.

Lemma empty_header_wf : th_wf empty_header.
Proof. split; [apply repeat_length|]. apply Forall_repeat. exact nul_byte. Qed.

(** A C library without users, with eight bits for the minor number. *)
Definition no_users : Libc :=
  {| getpwnam := fun _ => None; getpwuid := fun _ => None; getgrnam := fun _ => None; getgrgid := fun _ => None;
     major := fun d => d / 256; minor := fun d => d mod 256 |}.

Definition demo_stat : stat :=
  {| st_dev := 1; st_ino := 42; st_mode := S_IFREG + 420; st_rdev := 0; st_uid := 1000; st_gid := 1000; st_mtime := 1400000000; st_size := 123456 |}.

Lemma stat_roundtrip_witness :
  let g := @th_set_from_stat arm32 no_users 256 empty_header demo_stat in
  th_get_size g = Ret (if is_type S_IFREG (st_mode demo_stat) then st_size demo_stat else 0) /\
  th_get_mtime g = Ret (st_mtime demo_stat) /\ th_get_mode g = Ret (recorded_mode (st_mode demo_stat)) /\
  @th_get_uid no_users 256 g = Ret (st_uid demo_stat) /\ @th_get_gid no_users 256 g = Ret (st_gid demo_stat) /\
  TH_ISREG g = Ret (is_type S_IFREG (st_mode demo_stat)) /\ TH_ISDIR g = Ret (is_type S_IFDIR (st_mode demo_stat)) /\
  TH_ISSYM g = Ret (is_type S_IFLNK (st_mode demo_stat)).
Proof.
  apply (@stat_roundtrip arm32 no_users 256 empty_header demo_stat);
    [apply empty_header_wf|split; [discriminate|reflexivity]|cbn; auto|split; [discriminate|reflexivity]..|reflexivity].
Defined.

(** Ninety bytes, a slash and twenty bytes. *)
Definition demo_path : list Z := repeat 97 90 ++ [SLASH] ++ repeat 98 20.

Lemma path_roundtrip_witness :
  exists g, @th_set_path arm32 0 empty_header demo_path = Ret g /\ th_get_pathname g = Ret (demo_path ++ []).
Proof.
  apply (@path_roundtrip arm32 0 empty_header demo_path false).
  - apply empty_header_wf.
  - reflexivity.
  - apply Forall_app. split; [now apply Forall_repeat|constructor; [discriminate|now apply Forall_repeat]].
  - discriminate.
  - vm_compute. reflexivity.
  - vm_compute. reflexivity.
Defined.

(** C35: [th_finish] leaves a header that passes its own check: the checksum it
    stores is the one [th_crc_calc] computes, so [th_crc_ok] holds (on targets whose
    [char] is signed, for headers of 7-bit characters). *)
Theorem th_finish_checks `{Target} options h :
  th_wf h -> plain_chars h -> th_crc_ok (th_finish options h) = Ret true.
Proof. intros Hw Hp. unfold th_crc_ok. rewrite th_finish_crc by assumption. cbn [bind]. now rewrite Z.eqb_refl. Qed.

Lemma th_finish_checks_witness : th_crc_ok (@th_finish arm32 TAR_GNU empty_header) = Ret true.
Proof. apply (@th_finish_checks arm32 TAR_GNU empty_header empty_header_wf). discriminate. Defined.

(** ** Each encoding function writes its own members *)

(** Only the members of [ms] change, and none of the strings outside the block. *)
Definition sets (ms : list member) (h g : tar_header) : Prop :=
  touches ms h g /\ gnu_longname g = gnu_longname h /\ gnu_longlink g = gnu_longlink h /\ selinux_context g = selinux_context h.

Lemma sets_refl ms h : length (blk h) = T_BLOCKSIZE -> sets ms h h.
Proof. intros Hl. split; [now apply touches_refl|auto]. Qed.

Lemma sets_put ms h g m bs : sets ms h g -> In m ms -> (length bs <= sizeof m)%nat -> sets ms h (put g m bs).
Proof. intros (T & E) Hm Hb. split; [now apply touches_put|exact E]. Qed.

Lemma sets_trans ms ms' h g k : sets ms h g -> sets ms' g k -> sets (ms ++ ms') h k.
Proof. intros (T & A & B & C) (T' & A' & B' & C'). split; [eapply touches_trans; eassumption|]. repeat split; congruence. Qed.

(** The string of a member into which a name was copied. *)
Lemma put_name h m k s : length (blk h) = T_BLOCKSIZE -> chars s -> (S k <= sizeof m)%nat ->
  exists t, field (put h m (snprintf (S k) s)) m = firstn k s ++ 0 :: t.
Proof.
  intros Hl Hs Hk. unfold field. rewrite at_member_put; [|exact Hl|eapply Nat.le_trans; [apply snprintf_length|exact Hk]].
  cbn [snprintf]. rewrite <- app_assoc, firstn_app, firstn_all2 by (rewrite length_firstn; lia).
  destruct (sizeof m - length (firstn k s))%nat as [|n] eqn:E; [rewrite length_firstn in E; lia|]. cbn [app firstn]. eauto.
Qed.

Lemma name_read g m s t : chars s -> field g m = s ++ 0 :: t -> c_string (at_member g m) = Ret s.
Proof. intros Hs E. rewrite at_member_field, E, <- app_assoc. cbn [app]. now apply c_string_chars. Qed.

Lemma chars_firstn k s : chars s -> chars (firstn k s).
Proof. intros Hs. rewrite <- (firstn_skipn k s) in Hs. apply Forall_app in Hs. tauto. Qed.

Section Frames.
Context `{Target} `{Libc}.

(** An id in [m] and, unless ids are to be numeric or it has none, its name in [m']. *)
Definition owner_put (numeric : bool) (found : option (list Z)) (m m' : member) (id : Z) (h : tar_header) : tar_header :=
  put (if numeric then h else match found with Some u => put h m' (fst (strlcpy u 32)) | None => h end) m (int_to_oct id 8).

Lemma owner_put_spec numeric found m m' id h : length (blk h) = T_BLOCKSIZE -> m <> m' -> sizeof m = 8%nat -> sizeof m' = 32%nat ->
  let g := owner_put numeric found m m' id h in
  sets [m; m'] h g /\ (0 <= id < 8 ^ 6 -> stores g m id) /\
  match found with
  | Some u => if numeric then field g m' = field h m' else chars u -> c_string (at_member g m') = Ret (firstn 31 u)
  | None => field g m' = field h m'
  end.
Proof.
  intros Hl Hne Hs Hs' g. unfold g, owner_put. set (h1 := if numeric then h else _).
  assert (S1 : sets [m; m'] h h1).
  { unfold h1. destruct numeric; [now apply sets_refl|]. destruct found as [u|]; [|now apply sets_refl].
    apply sets_put; [now apply sets_refl|cbn; auto|rewrite strlcpy_snprintf, Hs'; apply snprintf_length]. }
  assert (L1 : length (blk h1) = T_BLOCKSIZE) by apply S1. assert (Hi : (length (int_to_oct id 8) <= sizeof m)%nat) by (rewrite Hs, int_to_oct_length; lia).
  split; [apply sets_put; [exact S1|cbn; auto|exact Hi]|]. split; [intros Hid; now apply stores_int|].
  destruct found as [u|]; destruct numeric; try (rewrite field_put_other by assumption; reflexivity). intros Hu. unfold h1 in *.
  destruct (put_name h m' 31 u Hl Hu ltac:(lia)) as [t Et]. eapply name_read; [now apply chars_firstn|].
  rewrite field_put_other by assumption. rewrite strlcpy_snprintf. exact Et.
Qed.

Lemma set_type_sets h m : length (blk h) = T_BLOCKSIZE -> sets [typeflag] h (th_set_type h m).
Proof.
  intros Hl. unfold th_set_type. cbv zeta beta.
  repeat match goal with |- context [if ?b then _ else _] => destruct b end;
    repeat (apply sets_put; [|now left|member_length]); now apply sets_refl.
Qed.

Lemma set_link_spec options h l : length (blk h) = T_BLOCKSIZE -> let g := th_set_link options h l in
  touches [linkname] h g /\ gnu_longname g = gnu_longname h /\ selinux_context g = selinux_context h /\
  (chars l -> (length l < T_NAMELEN)%nat \/ opt options TAR_GNU = true -> th_get_linkname g = Ret l).
Proof.
  intros Hl g. unfold g, th_set_link. destruct (Nat.leb_spec T_NAMELEN (length l)) as [Hlen|Hlen]; cbn [andb].
  - destruct (opt options TAR_GNU).
    + split; [apply (touches_put [linkname] h (set_longlink h (Some (strdup l)))); [split; [exact Hl|reflexivity]|now left|cbn; lia]|]. repeat split. intros Hc _.
      unfold th_get_linkname. cbn [gnu_longlink put set_longlink]. now apply c_string_chars.
    + split; [apply (touches_put [linkname] h h); [now apply touches_refl|now left|cbn [sizeof]; rewrite strncpy_length; reflexivity]|]. repeat split.
      intros _ [Hx|Hx]; [lia|discriminate].
  - split; [apply (touches_put [linkname] h h); [now apply touches_refl|now left|apply snprintf_length]|]. repeat split. intros Hc _.
    unfold th_get_linkname. cbn [gnu_longlink set_longlink]. destruct (put_name h linkname 99 l Hl Hc) as [t Et]; [cbn; lia|].
    rewrite firstn_all2 in Et by (unfold T_NAMELEN in Hlen; lia). exact (name_read _ _ _ _ Hc Et).
Qed.

Lemma finish_sets options h : length (blk h) = T_BLOCKSIZE -> sets [magic; version; chksum] h (th_finish options h).
Proof.
  intros Hl. unfold th_finish. cbv zeta. apply sets_put; [|cbn; auto|member_length].
  destruct (opt options TAR_GNU); do 2 (apply sets_put; [|cbn; auto|cbn; lia]); now apply sets_refl.
Qed.

Lemma from_stat_sets options h s : length (blk h) = T_BLOCKSIZE ->
  sets [typeflag; devmajor; devminor; uid; uname; gid; gname; mode; mtime; size] h (th_set_from_stat options h s).
Proof.
  intros Hl. unfold th_set_from_stat. cbv zeta.
  pose proof (set_type_sets h (st_mode s) Hl) as T1. set (h1 := th_set_type h (st_mode s)) in *.
  set (h2 := if _ || _ then th_set_device h1 _ else h1).
  assert (T2 : sets [devmajor; devminor] h1 h2).
  { unfold h2. destruct (_ || _); [|apply sets_refl, T1]. unfold th_set_device.
    repeat (apply sets_put; [|cbn; auto|member_length]). apply sets_refl, T1. }
  set (h3 := th_set_user options h2 (st_uid s)).
  assert (T3 : sets [uid; uname] h2 h3) by (apply (owner_put_spec (opt options TAR_USE_NUMERIC_ID) (getpwuid (st_uid s)) uid uname); [apply T2|discriminate|reflexivity..]).
  set (h4 := th_set_group options h3 (st_gid s)).
  assert (T4 : sets [gid; gname] h3 h4) by (apply (owner_put_spec (opt options TAR_USE_NUMERIC_ID) (getgrgid (st_gid s)) gid gname); [apply T3|discriminate|reflexivity..]).
  set (h5 := th_set_mtime (th_set_mode h4 _) _).
  assert (T5 : sets [mode; mtime; size] h4 h5) by (do 2 (apply sets_put; [|cbn; auto|member_length]); apply sets_refl, T4).
  pose proof (sets_trans _ _ _ _ _ T1 (sets_trans _ _ _ _ _ T2 (sets_trans _ _ _ _ _ T3 (sets_trans _ _ _ _ _ T4 T5)))) as T.
  destruct (is_type S_IFREG (st_mode s)); apply sets_put; try exact T; try member_length; cbn; tauto.
Qed.
End Frames.

(** C34: Each encoding function writes its own members of the header and nothing else:
    from a header of 512 bytes it leads to one of 512 bytes in which every member that is
    not listed for it is unchanged byte for byte (magic, padding and the strings outside
    the block included), whatever its arguments and however long the names and paths
    are.  What it writes can be read back: the numbers that fit their members, the first
    31 characters of a user's or group's name in a member of 32 bytes (which stays as it
    was for numeric ids and for ids without a name), and the target of a link, of any
    length with GNU long links and of less than 100 characters without. *)
Theorem encoding_frames `{Target} `{Libc} options h : length (blk h) = T_BLOCKSIZE ->
  (forall m, sets [typeflag] h (th_set_type h m) /\ (In (m .& S_IFMT) known_types -> type_of (th_set_type h m) = flag_of (m .& S_IFMT))) /\
  (forall m, sets [mode] h (th_set_mode h m) /\ (0 <= recorded_mode m < 8 ^ 6 -> stores (th_set_mode h m) mode (recorded_mode m))) /\
  (forall z, sets [mtime] h (th_set_mtime h z) /\ (0 <= z < 2 ^ 31 -> th_get_mtime (th_set_mtime h z) = Ret z)) /\
  (forall z, sets [size] h (th_set_size h z) /\ (0 <= z < 2 ^ 31 -> th_get_size (th_set_size h z) = Ret z)) /\
  (forall d, let g := th_set_device h d in
     sets [devmajor; devminor] h g /\ (0 <= major d < 8 ^ 6 -> th_get_devmajor g = Ret (major d)) /\ (0 <= minor d < 8 ^ 6 -> th_get_devminor g = Ret (minor d))) /\
  (forall i, let g := th_set_user options h i in
     sets [uid; uname] h g /\ (0 <= i < 8 ^ 6 -> stores g uid i) /\
     match getpwuid i with
     | Some u => if opt options TAR_USE_NUMERIC_ID then field g uname = field h uname else chars u -> c_string (at_member g uname) = Ret (firstn 31 u)
     | None => field g uname = field h uname
     end) /\
  (forall i, let g := th_set_group options h i in
     sets [gid; gname] h g /\ (0 <= i < 8 ^ 6 -> stores g gid i) /\
     match getgrgid i with
     | Some u => if opt options TAR_USE_NUMERIC_ID then field g gname = field h gname else chars u -> c_string (at_member g gname) = Ret (firstn 31 u)
     | None => field g gname = field h gname
     end) /\
  (forall s, sets [typeflag; devmajor; devminor; uid; uname; gid; gname; mode; mtime; size] h (th_set_from_stat options h s)) /\
  (forall l, let g := th_set_link options h l in
     touches [linkname] h g /\ gnu_longname g = gnu_longname h /\ selinux_context g = selinux_context h /\
     (chars l -> (length l < T_NAMELEN)%nat \/ opt options TAR_GNU = true -> th_get_linkname g = Ret l)) /\
  (forall path g, th_set_path options h path = Ret g ->
     touches [name; prefix] h g /\ gnu_longlink g = gnu_longlink h /\ selinux_context g = selinux_context h /\
     (gnu_longname g = None \/ gnu_longname g = Some (strdup path) /\ opt options TAR_GNU = true)) /\
  sets [magic; version; chksum] h (th_finish options h).
Proof.
  intros Hl. assert (Hone : forall m bs, (length bs <= sizeof m)%nat -> sets [m] h (put h m bs)) by (intros; apply sets_put; [now apply sets_refl|now left|assumption]).
  split; [intros m; split; [now apply set_type_sets|intros Hm; now apply th_set_type_flag]|].
  split; [intros m; split; [apply Hone; member_length|intros Hm; now apply stores_int]|].
  split; [intros z; split; [apply Hone; member_length|intros Hz; apply stores_oct; [now apply stores_nonull|exact Hz]]|].
  split; [intros z; split; [apply Hone; member_length|intros Hz; apply stores_oct; [now apply stores_nonull|exact Hz]]|].
  split.
  { intros d g. unfold g, th_set_device. split; [repeat (apply sets_put; [|cbn; auto|member_length]); now apply sets_refl|].
    assert (Ld : forall z, length (blk (put h devmajor (int_to_oct z 8))) = T_BLOCKSIZE) by (intros; apply put_length; [exact Hl|member_length]).
    split; intros Hz; (apply stores_oct; [|lia]); [apply stores_other; [apply Ld|now apply stores_int|discriminate|member_length]|now apply stores_int]. }
  split; [intros i; exact (owner_put_spec (opt options TAR_USE_NUMERIC_ID) (getpwuid i) uid uname i h Hl ltac:(discriminate) eq_refl eq_refl)|].
  split; [intros i; exact (owner_put_spec (opt options TAR_USE_NUMERIC_ID) (getgrgid i) gid gname i h Hl ltac:(discriminate) eq_refl eq_refl)|].
  split; [intros s; now apply from_stat_sets|]. split; [intros l; now apply set_link_spec|].
  split; [intros path g; now apply th_set_path_touches|now apply finish_sets].
Qed.

(** One user, with a name of 40 characters: 31 of them are kept, and the group's name is
    not reached. *)
Definition one_user : Libc :=
  {| getpwuid i := if i =? 7 then Some (repeat 117 40) else None; getgrgid _ := None; getpwnam _ := None; getgrnam _ := None;
     major d := d / 256; minor d := d mod 256 |}.

Lemma encoding_frames_witness :
  let g := @th_set_user arm32 one_user 0 empty_header 7 in
  sets [uid; uname] empty_header g /\ c_string (at_member g uname) = Ret (repeat 117 31) /\ field g gname = repeat 0 32.
Proof.
  destruct (@encoding_frames arm32 one_user 0 empty_header (proj1 empty_header_wf)) as (_ & _ & _ & _ & _ & Hu & _). destruct (Hu 7) as (Hs & _ & Hn).
  split; [exact Hs|]. split; [exact (Hn ltac:(now apply Forall_repeat))|]. destruct Hs as ((_ & Hf) & _). rewrite Hf; [reflexivity|cbn; intuition discriminate].
Defined.

(** A name with a character above 127. *)
Definition umlaut_header : tar_header := put empty_header name [228].

(** The limits of the format as the code uses it: where [char] is signed,
    [th_finish] sums signed characters and [th_crc_calc] unsigned ones, so a header
    with a non-ASCII name fails its own check; and a size of 2^31 bytes or more,
    which would fit the twelve octal digits, does not survive [th_set_size], which
    takes an [int]. *)
Theorem header_limits :
  th_crc_ok (@th_finish x86 TAR_GNU umlaut_header) = Ret false /\
  th_get_size (@th_set_size arm32 empty_header (2 ^ 31)) = Ret (- 2 ^ 31) /\
  th_get_size (@th_set_size arm64 empty_header (2 ^ 32 + 5)) = Ret 5.
Proof. vm_compute. auto. Qed.
