(* ===== verification/TarBlock.v ===== *)
(** Reading and writing header blocks: src/libtar/lib/block.c.

    The archive is behind the read and write functions of the handle's type, an
    interface ([TarType]) over an abstract descriptor state.  [Fault] is a read
    outside a buffer; [None] is a loop that has not ended within the fuel, which
    only [th_read_internal] needs (one unit per block it reads). *)
From Stdlib Require Import ZArith List Lia Bool.
From S2P Require Import Prelude CString TarHeader.
Import ListNotations.

(** * Handles *)

(** [type->readfunc] and [type->writefunc] for one block: the value returned, the
    bytes stored in the buffer, the descriptor afterwards. *)
Class TarType (D : Type) := {
  readfunc : D -> Z * list Z * D;
  writefunc : D -> list Z -> Z * D
}.

(** Whether [malloc] has that many bytes. *)
Class Heap := { malloc_ok : Z -> bool }.

Record TAR (D : Type) := mkTAR { options : Z; th_buf : tar_header; fd : D; errno : option Z }.
Arguments mkTAR {D}. Arguments options {D}. Arguments th_buf {D}. Arguments fd {D}. Arguments errno {D}.

Definition EINVAL : Z := 22.
Definition BLOCK : Z := 512.

Definition with_header {D} (t : TAR D) (h : tar_header) : TAR D := mkTAR (options t) h (fd t) (errno t).
Definition with_fd {D} (t : TAR D) (d : D) : TAR D := mkTAR (options t) (th_buf t) d (errno t).
Definition set_errno {D} (t : TAR D) (e : Z) : TAR D := mkTAR (options t) (th_buf t) (fd t) (Some e).

Definition set_blk (h : tar_header) (b : list Z) : tar_header :=
  {| blk := b; gnu_longname := gnu_longname h; gnu_longlink := gnu_longlink h; selinux_context := selinux_context h |}.
Definition set_selinux (h : tar_header) (s : option (list Z)) : tar_header :=
  {| blk := blk h; gnu_longname := gnu_longname h; gnu_longlink := gnu_longlink h; selinux_context := s |}.

(** [if (i != -1) errno = EINVAL; return -1;] *)
Definition failed {D} (i : Z) (t : TAR D) : Z * TAR D := (-1, if i =? -1 then t else set_errno t EINVAL).

(** A part of a function either returns from it or goes on with the handle. *)
Inductive flow (D : Type) := Return (code : Z) (t : TAR D) | Go (t : TAR D).
Arguments Return {D}. Arguments Go {D}.
Definition and_then {D} (m : M (flow D)) (k : TAR D -> M (flow D)) : M (flow D) :=
  do! f := m in match f with Return c t => ret (Return c t) | Go t => k t end.

Section Block.
Context `{Target} {D : Type} `{TarType D} `{Heap}.

(** [tar_block_read(t, &(t->th_buf))] *)
Definition read_header (t : TAR D) : Z * TAR D :=
  let '(i, bs, d) := readfunc (fd t) in
  (i, with_fd (with_header t (set_blk (th_buf t) (blit (blk (th_buf t)) 0 (firstn T_BLOCKSIZE bs)))) d).

Definition read_block (t : TAR D) : Z * list Z * TAR D :=
  let '(i, bs, d) := readfunc (fd t) in (i, bs, with_fd t d).

Definition write_block (t : TAR D) (b : list Z) : Z * TAR D :=
  let '(i, d) := writefunc (fd t) b in (i, with_fd t d).

(** The tests of magic, version and checksum on the block just read. *)
Definition check_header (t : TAR D) : outcome bool :=
  let h := th_buf t in
  if opt (options t) TAR_CHECK_MAGIC && negb (if list_eq_dec Z.eq_dec (firstn 5 (at_member h magic)) USTAR then true else false)
  then Ret false
  else if opt (options t) TAR_CHECK_VERSION
          && negb (if list_eq_dec Z.eq_dec (firstn 2 (at_member h version)) [48; 48] then true else false)
  then Ret false
  else if opt (options t) TAR_IGNORE_CRC then Ret true
  else th_crc_ok h.

Fixpoint th_read_internal (fuel : nat) (num_zero_blocks : Z) (t : TAR D) : M (Z * TAR D) :=
  match fuel with
  | O => None
  | S fuel =>
      let '(i, t) := read_header t in
      if i =? BLOCK then
        if get (blk (th_buf t)) (offset name) =? 0 then
          let num_zero_blocks := num_zero_blocks + 1 in
          if negb (opt (options t) TAR_IGNORE_EOT) && (2 <=? num_zero_blocks)
          then ret (0, t)
          else th_read_internal fuel num_zero_blocks t
        else do! ok := lift (check_header t) in if ok then ret (i, t) else ret (-2, t)
      else ret (i, t)
  end.

(** [j] blocks into a buffer: whether all could be read, what has been read. *)
Fixpoint read_blocks (j : nat) (t : TAR D) : bool * Z * list Z * TAR D :=
  match j with
  | O => (true, BLOCK, [], t)
  | S j =>
      let '(i, bs, t) := read_block t in
      if i =? BLOCK then
        let '(ok, i, rest, t) := read_blocks j t in (ok, i, bs ++ rest, t)
      else (false, i, bs, t)
  end.

(** [sz / T_BLOCKSIZE + (sz % T_BLOCKSIZE ? 1 : 0)], as an [int] *)
Definition block_count (sz : Z) : Z := i32 (sz / BLOCK + (if sz mod BLOCK =? 0 then 0 else 1)).

(** After an extension: the next header. *)
Definition next_header (fuel : nat) (t : TAR D) : M (flow D) :=
  do! r := th_read_internal fuel 0 t in
  let '(i, t) := r in
  if i =? BLOCK then ret (Go t) else let '(c, t) := failed i t in ret (Return c t).

(** One long name or long link: its size, its buffer, its blocks, the next header. *)
Definition read_long (store : tar_header -> option (list Z) -> tar_header) (fuel : nat) (t : TAR D) : M (flow D) :=
  do! sz := lift (th_get_size (th_buf t)) in
  let j := block_count (ulong sz) in
  if negb (malloc_ok (ulong (i32 (j * BLOCK)))) then
    ret (Return (-1) (with_header t (store (th_buf t) None)))
  else
    let '(ok, i, buf, t) := read_blocks (Z.to_nat j) t in
    let t := with_header t (store (th_buf t) (Some buf)) in
    if ok then next_header fuel t else let '(c, t) := failed i t in ret (Return c t).

Definition read_longlink (fuel : nat) (t : TAR D) : M (flow D) :=
  if TH_ISLONGLINK (th_buf t) then read_long set_longlink fuel t else ret (Go t).

Definition read_longname (fuel : nat) (t : TAR D) : M (flow D) :=
  if TH_ISLONGNAME (th_buf t) then read_long set_longname fuel t else ret (Go t).

(** The characters of "RHT.security.selinux=". *)
Definition SELINUX_TAG : list Z :=
  [82; 72; 84; 46; 115; 101; 99; 117; 114; 105; 116; 121; 46; 115; 101; 108; 105; 110; 117; 120; 61].
Definition SELINUX_TAG_LEN : nat := 21.
Definition NEWLINE : Z := 10.

(** The context in an extended header, if there is one. *)
Definition find_context (buf : list Z) : outcome (option (list Z)) :=
  let! s := c_string buf in
  Ret (match strstr s SELINUX_TAG with
       | None => None
       | Some start =>
           if (start + SELINUX_TAG_LEN <? length s)%nat
           then strchr (skipn (start + SELINUX_TAG_LEN) s) NEWLINE
           else None
       end).

Definition read_exthdr (fuel : nat) (t : TAR D) : M (flow D) :=
  if TH_ISEXTHEADER (th_buf t) then
    do! sz := lift (th_get_size (th_buf t)) in
    if BLOCK <=? ulong sz then next_header fuel t
    else
      let '(i, buf, t) := read_block t in
      if negb (i =? BLOCK) then let '(c, t) := failed i t in ret (Return c t)
      else
        let buf := set buf (T_BLOCKSIZE - 1) 0 in
        do! ctx := lift (find_context buf) in
        let t := match ctx with
                 | None => t
                 | Some s => with_header t (set_selinux (th_buf t) (Some (strdup s)))
                 end in
        next_header fuel t
  else ret (Go t).

Definition zero_header : tar_header :=
  {| blk := repeat 0 T_BLOCKSIZE; gnu_longname := None; gnu_longlink := None; selinux_context := None |}.

Definition th_read (fuel : nat) (t : TAR D) : M (Z * TAR D) :=
  let t := with_header t zero_header in
  do! r := th_read_internal fuel 0 t in
  let '(i, t) := r in
  if i =? 0 then ret (1, t)
  else if negb (i =? BLOCK) then ret (failed i t)
  else
    do! f := and_then (and_then (read_longlink fuel t) (read_longname fuel)) (read_exthdr fuel) in
    match f with Return c t => ret (c, t) | Go t => ret (0, t) end.

(** * Writing *)

(** The header in place; whether it was written in full. *)
Definition write_header (t : TAR D) : Z * TAR D := write_block t (blk (th_buf t)).

(** The blocks of a long name: [j] of them, the last one padded with zeros. *)
Fixpoint write_blocks (j : nat) (ptr : list Z) (t : TAR D) : Z * TAR D :=
  match j with
  | S (S _ as j') =>
      let '(i, t) := write_block t (firstn T_BLOCKSIZE ptr) in
      if i =? BLOCK then write_blocks j' (skipn T_BLOCKSIZE ptr) t else (i, t)
  | _ => write_block t (strncpy ptr T_BLOCKSIZE)
  end.

(** The header under another type and size. *)
Definition fake_header (t : TAR D) (ty sz : Z) : TAR D :=
  let h := put (th_buf t) typeflag [ty] in
  with_header t (th_finish (options t) (th_set_size h sz)).

(** The original type and size again. *)
Definition restore_header (t : TAR D) (type2 sz2 : Z) : TAR D :=
  with_header t (th_set_size (put (th_buf t) typeflag [type2]) sz2).

Definition write_long (ty : Z) (buf : list Z) (t : TAR D) : outcome (flow D) :=
  let type2 := type_of (th_buf t) in
  let! sz2 := th_get_size (th_buf t) in
  let! s := c_string buf in
  let sz := Z.of_nat (length s) in
  let t := fake_header t ty sz in
  let '(i, t) := write_header t in
  if negb (i =? BLOCK) then let '(c, t) := failed i t in Ret (Return c t)
  else
    let '(i, t) := write_blocks (Z.to_nat (block_count sz)) s t in
    if negb (i =? BLOCK) then let '(c, t) := failed i t in Ret (Return c t)
    else Ret (Go (restore_header t type2 sz2)).

Definition write_longlink (t : TAR D) : outcome (flow D) :=
  match gnu_longlink (th_buf t) with
  | Some buf => if opt (options t) TAR_GNU then write_long GNU_LONGLINK_TYPE buf t else Ret (Go t)
  | None => Ret (Go t)
  end.

Definition write_longname (t : TAR D) : outcome (flow D) :=
  match gnu_longname (th_buf t) with
  | Some buf => if opt (options t) TAR_GNU then write_long GNU_LONGNAME_TYPE buf t else Ret (Go t)
  | None => Ret (Go t)
  end.

(** [%d] for the sizes that occur here. *)
Definition decimal (z : Z) : list Z :=
  (if z <? 100 then [] else [48 + z / 100]) ++ (if z <? 10 then [] else [48 + z / 10 mod 10]) ++ [48 + z mod 10].

(** The size of the record: two or three digits, a blank, the tag, the context and
    a newline. *)
Definition context_size (s : list Z) : Z :=
  let sz := Z.of_nat (SELINUX_TAG_LEN + length s + 3 + 1) in
  if 100 <=? sz then sz + 1 else sz.

(** What [snprintf] prints into the zeroed buffer. *)
Definition selinux_record (s : list Z) : list Z :=
  decimal (context_size s) ++ [SPACE] ++ SELINUX_TAG ++ s ++ [NEWLINE].
Definition context_block (s : list Z) : list Z := blit (repeat 0 T_BLOCKSIZE) 0 (snprintf T_BLOCKSIZE (selinux_record s)).

Definition write_context (t : TAR D) : outcome (flow D) :=
  match selinux_context (th_buf t) with
  | Some buf =>
      if opt (options t) TAR_STORE_SELINUX then
        let type2 := type_of (th_buf t) in
        let! sz2 := th_get_size (th_buf t) in
        let! s := c_string buf in
        let sz := context_size s in
        if BLOCK <=? sz then
          Ret (Return (-1) (set_errno (with_header t (put (th_buf t) typeflag [TH_EXT_TYPE])) EINVAL))
        else
          let t := fake_header t TH_EXT_TYPE sz in
          let '(i, t) := write_header t in
          if negb (i =? BLOCK) then let '(c, t) := failed i t in Ret (Return c t)
          else
            let '(i, t) := write_block t (context_block s) in
            if negb (i =? BLOCK) then let '(c, t) := failed i t in Ret (Return c t)
            else Ret (Go (restore_header t type2 sz2))
      else Ret (Go t)
  | None => Ret (Go t)
  end.

(** The last header and the return value. *)
Definition write_final (t : TAR D) : outcome (flow D) :=
  let t := with_header t (th_finish (options t) (th_buf t)) in
  let '(i, t) := write_header t in
  if negb (i =? BLOCK) then let '(c, t) := failed i t in Ret (Return c t) else Ret (Return 0 t).

Definition seq_flow (m : outcome (flow D)) (k : TAR D -> outcome (flow D)) : outcome (flow D) :=
  let! f := m in match f with Return c t => Ret (Return c t) | Go t => k t end.

Definition th_write (t : TAR D) : outcome (Z * TAR D) :=
  let! f := seq_flow (seq_flow (seq_flow (write_longlink t) write_longname) write_context) write_final in
  match f with Return c t => Ret (c, t) | Go t => Ret (0, t) end.
End Block.

(** * The options of a handle *)

Section Options.
Context `{Target} {D : Type} `{TarType D} `{Heap}.
Implicit Types t : TAR D.

(** The outcome of a part of a function, if there is one, satisfies [P]. *)
Definition holds {A} (P : A -> Prop) (m : M A) : Prop := forall x, m = ret x -> P x.

Lemma holds_ret {A} (P : A -> Prop) x : P x -> holds P (ret x).
Proof. intros Hx y E. injection E as <-. exact Hx. Qed.

Lemma holds_bind {A B} (P : A -> Prop) (Q : B -> Prop) (m : M A) (f : A -> M B) :
  holds P m -> (forall x, P x -> holds Q (f x)) -> holds Q (bindM m f).
Proof.
  intros Hm Hf y. destruct m as [[|x]|]; cbn [bindM]; try discriminate. apply Hf, Hm. reflexivity.
Qed.

Lemma holds_any {A} (m : M A) : holds (fun _ => True) m.
Proof. intros x _. exact I. Qed.

Definition keeps (o : Z) (f : flow D) : Prop := match f with Return _ t | Go t => options t = o end.

Lemma failed_options i t : options (snd (failed i t)) = options t.
Proof. unfold failed. cbn. destruct (i =? -1); reflexivity. Qed.

Lemma read_internal_options fuel : forall n t, holds (fun r => options (snd r) = options t) (th_read_internal fuel n t).
Proof.
  induction fuel as [|fuel IH]; intros n t; cbn [th_read_internal]; [intros r E; discriminate E|].
  unfold read_header. destruct (readfunc (fd t)) as [[i bs] d]. set (u := with_fd _ d).
  assert (Hu : options u = options t) by reflexivity. destruct (i =? BLOCK); [|now apply holds_ret].
  destruct (_ =? 0).
  - destruct (_ && _); [now apply holds_ret|]. rewrite <- Hu. apply IH.
  - apply (holds_bind _ _ _ _ (holds_any _)). intros [] _; now apply holds_ret.
Qed.

Lemma read_blocks_options j : forall t, options (snd (read_blocks j t)) = options t.
Proof.
  induction j as [|j IH]; intros t; cbn [read_blocks]; [reflexivity|]. unfold read_block.
  destruct (readfunc (fd t)) as [[i bs] d]. destruct (i =? BLOCK); [|reflexivity]. specialize (IH (with_fd t d)).
  destruct (read_blocks j (with_fd t d)) as [[[ok k] rest] u]. exact IH.
Qed.

Lemma return_failed i t o : options t = o -> holds (keeps o) (let '(c, t) := failed i t in ret (Return c t)).
Proof. intros <-. apply holds_ret. apply failed_options. Qed.

Lemma next_header_options fuel t : holds (keeps (options t)) (next_header fuel t).
Proof.
  apply (holds_bind _ _ _ _ (read_internal_options fuel 0 t)). intros [i r] Hr. cbn [snd] in Hr.
  destruct (i =? BLOCK); [now apply holds_ret|now apply return_failed].
Qed.

Lemma read_long_options store fuel t : holds (keeps (options t)) (read_long store fuel t).
Proof.
  unfold read_long. apply (holds_bind _ _ _ _ (holds_any _)). intros sz _. destruct (negb _); [now apply holds_ret|].
  pose proof (read_blocks_options (Z.to_nat (block_count (ulong sz))) t) as Ho.
  destruct (read_blocks _ t) as [[[ok i] buf] u]. cbn [snd] in Ho. rewrite <- Ho. destruct ok.
  - apply (next_header_options fuel (with_header u (store (th_buf u) (Some buf)))).
  - now apply return_failed.
Qed.

Lemma read_exthdr_options fuel t : holds (keeps (options t)) (read_exthdr fuel t).
Proof.
  unfold read_exthdr. destruct (TH_ISEXTHEADER _); [|now apply holds_ret].
  apply (holds_bind _ _ _ _ (holds_any _)). intros sz _. destruct (BLOCK <=? ulong sz); [apply next_header_options|].
  unfold read_block. destruct (readfunc (fd t)) as [[i buf] d]. destruct (negb _); [now apply return_failed|].
  apply (holds_bind _ _ _ _ (holds_any _)). intros [s|] _.
  - apply (next_header_options fuel (with_header (with_fd t d) _)).
  - apply (next_header_options fuel (with_fd t d)).
Qed.

Lemma and_then_options o m (k : TAR D -> M (flow D)) :
  holds (keeps o) m -> (forall t, options t = o -> holds (keeps o) (k t)) -> holds (keeps o) (and_then m k).
Proof. intros Hm Hk. apply (holds_bind _ _ _ _ Hm). intros [c t|t] Ht; [now apply holds_ret|now apply Hk]. Qed.

(** [th_read] does not change the options. *)
Lemma th_read_options fuel t : holds (fun r => options (snd r) = options t) (th_read fuel t).
Proof.
  unfold th_read. apply (holds_bind _ _ _ _ (read_internal_options fuel 0 (with_header t zero_header))). intros [i u] Hu.
  cbn [snd] in Hu. change (options (with_header t zero_header)) with (options t) in Hu.
  destruct (i =? 0); [now apply holds_ret|]. destruct (negb _); [apply holds_ret; now rewrite failed_options|].
  apply (holds_bind (keeps (options t))); [|intros [c r|r] Hr; now apply holds_ret].
  assert (Hl : forall (long : tar_header -> bool) store v, options v = options t ->
            holds (keeps (options t)) (if long (th_buf v) then read_long store fuel v else ret (Go v))).
  { intros long store v Hv. destruct (long _); [rewrite <- Hv; apply read_long_options|now apply holds_ret]. }
  apply and_then_options; [apply and_then_options|].
  - now apply (Hl TH_ISLONGLINK).
  - intros v Hv. now apply (Hl TH_ISLONGNAME).
  - intros v Hv. rewrite <- Hv. apply read_exthdr_options.
Qed.
End Options.

(** * Archives in memory *)

(** The descriptor is the bytes of the archive: writes append a block, reads take
    the next one (or what is left). *)
#[export] Instance memory_file : TarType (list Z) := {|
  readfunc d := (Z.of_nat (Nat.min T_BLOCKSIZE (length d)), firstn T_BLOCKSIZE d, skipn T_BLOCKSIZE d);
  writefunc d b := (BLOCK, d ++ b)
|}.

Lemma take_block (b rest : list Z) :
  length b = T_BLOCKSIZE ->
  readfunc (b ++ rest) = (BLOCK, b, rest).
Proof.
  intros Hb. cbn [readfunc memory_file]. rewrite length_app, Hb, <- Hb, firstn_app, skipn_app, Nat.sub_diag.
  rewrite firstn_all, skipn_all, firstn_O, app_nil_r. cbn [skipn app]. rewrite Hb.
  replace (Nat.min T_BLOCKSIZE (T_BLOCKSIZE + length rest)) with T_BLOCKSIZE by lia. reflexivity.
Qed.

Definition count (n : nat) : nat := (n / T_BLOCKSIZE + (if n mod T_BLOCKSIZE =? 0 then 0 else 1))%nat.

Lemma block_count_of_nat n :
  Z.of_nat n < 2 ^ 31 - 512 ->
  Z.to_nat (block_count (Z.of_nat n)) = count n /\ Z.of_nat (count n) * BLOCK < 2 ^ 31.
Proof.
  intros Hn. unfold block_count, count, BLOCK, T_BLOCKSIZE.
  pose proof (Z.div_mod (Z.of_nat n) 512 ltac:(lia)). pose proof (Z.mod_pos_bound (Z.of_nat n) 512 ltac:(lia)).
  assert (Ed : Z.of_nat (n / 512) = Z.of_nat n / 512) by (rewrite Nat2Z.inj_div; reflexivity).
  assert (Em : Z.of_nat (n mod 512) = Z.of_nat n mod 512) by (rewrite Nat2Z.inj_mod; reflexivity).
  assert (Eb : (n mod 512 =? 0)%nat = (Z.of_nat n mod 512 =? 0)).
  { destruct (Nat.eqb_spec (n mod 512) 0), (Z.eqb_spec (Z.of_nat n mod 512) 0); lia || reflexivity. }
  rewrite Eb. destruct (Z.of_nat n mod 512 =? 0); rewrite i32_small by lia; lia.
Qed.

Lemma count_S n : (0 < n)%nat ->
  (n <= T_BLOCKSIZE -> count n = 1)%nat /\ (T_BLOCKSIZE < n -> count n = S (count (n - T_BLOCKSIZE)))%nat.
Proof.
  unfold count, T_BLOCKSIZE. intros Hn. split; intros Hl.
  - destruct (Nat.eq_dec n 512) as [->|]; [reflexivity|]. rewrite Nat.div_small, Nat.mod_small by lia.
    destruct (Nat.eqb_spec n 0); lia.
  - replace n with (n - 512 + 1 * 512)%nat at 1 2 by lia. rewrite Nat.div_add, Nat.Div0.mod_add by lia.
    destruct (_ =? 0)%nat; lia.
Qed.

Lemma strncpy_full s n : length s = n -> strncpy s n = s.
Proof. intros <-. unfold strncpy. rewrite firstn_app, Nat.sub_diag, firstn_all, firstn_O. apply app_nil_r. Qed.

(** Padding to whole blocks, block by block. *)
Lemma strncpy_cons s k :
  (T_BLOCKSIZE <= length s)%nat ->
  strncpy s (T_BLOCKSIZE * S k) = firstn T_BLOCKSIZE s ++ strncpy (skipn T_BLOCKSIZE s) (T_BLOCKSIZE * k).
Proof.
  intros Hl. rewrite <- (firstn_skipn T_BLOCKSIZE s) at 1. set (a := firstn T_BLOCKSIZE s). set (c := skipn T_BLOCKSIZE s).
  assert (La : length a = T_BLOCKSIZE) by (unfold a; rewrite length_firstn; lia). unfold strncpy.
  rewrite <- app_assoc, firstn_app, firstn_all2 by (rewrite La; lia). f_equal.
  replace (T_BLOCKSIZE * S k - length a)%nat with (T_BLOCKSIZE * k)%nat by lia.
  replace (T_BLOCKSIZE * S k)%nat with (T_BLOCKSIZE * k + T_BLOCKSIZE)%nat by lia.
  rewrite repeat_app, app_assoc, firstn_app.
  replace (T_BLOCKSIZE * k - length (c ++ repeat 0%Z (T_BLOCKSIZE * k)))%nat with O
    by (rewrite length_app, repeat_length; lia).
  rewrite firstn_O. apply app_nil_r.
Qed.

Lemma write_blocks_SS k ptr (t : TAR (list Z)) :
  write_blocks (S (S k)) ptr t =
  write_blocks (S k) (skipn T_BLOCKSIZE ptr) (with_fd t (fd t ++ firstn T_BLOCKSIZE ptr)).
Proof. reflexivity. Qed.

Lemma write_blocks_file (s : list Z) : forall (t : TAR (list Z)),
  (0 < length s)%nat ->
  write_blocks (count (length s)) s t = (BLOCK, with_fd t (fd t ++ strncpy s (T_BLOCKSIZE * count (length s)))).
Proof.
  induction s as [s IH] using (well_founded_induction (Wf_nat.well_founded_ltof _ (@length Z))). intros t Hs.
  destruct (count_S (length s) Hs) as [H1 H2]. destruct (Nat.le_gt_cases (length s) T_BLOCKSIZE) as [Hl|Hl].
  - rewrite H1 by exact Hl. cbn [write_blocks]. rewrite Nat.mul_1_r. reflexivity.
  - assert (Hs' : (0 < length (skipn T_BLOCKSIZE s))%nat) by (rewrite length_skipn; lia).
    rewrite H2 by exact Hl. rewrite <- length_skipn. set (r := skipn T_BLOCKSIZE s) in *.
    assert (Hc : exists c, count (length r) = S c).
    { destruct (count_S (length r) Hs') as [G1 G2].
      destruct (Nat.le_gt_cases (length r) T_BLOCKSIZE); eexists; [apply G1|apply G2]; assumption. }
    destruct Hc as [c Hc]. rewrite Hc, write_blocks_SS. fold r. rewrite <- Hc, IH; [|unfold Wf_nat.ltof, r; rewrite length_skipn; unfold T_BLOCKSIZE in *; lia|exact Hs'].
    rewrite strncpy_cons by lia. fold r. unfold with_fd. cbn [fd options th_buf errno]. now rewrite app_assoc.
Qed.

(** ** Blocks that are read as headers *)

(** What [th_read_internal] accepts under the options [ro]. *)
Definition readable (ro : Z) (b : list Z) : Prop :=
  length b = T_BLOCKSIZE /\ get b (offset name) <> 0 /\
  check_header (mkTAR ro (set_blk zero_header b) (@nil Z) None) = Ret true.

(** The handle holds the first block of the stream and has the rest before it. *)
Definition at_stream (t : TAR (list Z)) (stream : list Z) : Prop :=
  length (blk (th_buf t)) = T_BLOCKSIZE /\ stream = blk (th_buf t) ++ fd t.

Definition header_type (b : list Z) : Z := get b (offset typeflag).

Lemma check_header_blk ro b (t : TAR (list Z)) :
  options t = ro -> blk (th_buf t) = b ->
  check_header t = check_header (mkTAR ro (set_blk zero_header b) (@nil Z) None).
Proof.
  intros <- <-. unfold check_header. cbn [options th_buf]. unfold th_crc_ok, th_get_crc, th_crc_calc, field, at_member.
  reflexivity.
Qed.

(** Reading one readable block. *)
Lemma read_internal_readable fuel z (t : TAR (list Z)) b rest :
  readable (options t) b -> fd t = b ++ rest -> length (blk (th_buf t)) = T_BLOCKSIZE ->
  th_read_internal (S fuel) z t = ret (BLOCK, with_fd (with_header t (set_blk (th_buf t) b)) rest).
Proof.
  intros (Lb & Hn & Hc) Hf Hl. cbn [th_read_internal]. unfold read_header. rewrite Hf, take_block by exact Lb.
  assert (Eb : blit (blk (th_buf t)) 0 (firstn T_BLOCKSIZE b) = b).
  { unfold blit. cbn [firstn app Nat.add]. rewrite firstn_all2 by lia. rewrite skipn_all2 by lia. apply app_nil_r. }
  rewrite Eb. change (BLOCK =? BLOCK) with true. cbv iota. cbn [th_buf with_fd with_header set_blk blk].
  destruct (Z.eqb_spec (get b (offset name)) 0) as [|_]; [contradiction|].
  rewrite (check_header_blk (options t) b) by reflexivity. rewrite Hc. reflexivity.
Qed.

Lemma next_header_readable fuel (t : TAR (list Z)) b rest :
  readable (options t) b -> fd t = b ++ rest -> length (blk (th_buf t)) = T_BLOCKSIZE ->
  next_header (S fuel) t = ret (Go (with_fd (with_header t (set_blk (th_buf t) b)) rest)).
Proof. intros Hr Hf Hl. unfold next_header. rewrite (read_internal_readable fuel 0 t b rest Hr Hf Hl). reflexivity. Qed.

Lemma read_blocks_file j : forall (t : TAR (list Z)) bs rest,
  length bs = (T_BLOCKSIZE * j)%nat -> fd t = bs ++ rest ->
  read_blocks j t = (true, BLOCK, bs, with_fd t rest).
Proof.
  induction j as [|j IH]; intros t bs rest Hl Hf.
  - rewrite Nat.mul_0_r in Hl. apply length_zero_iff_nil in Hl. subst bs. cbn [read_blocks]. destruct t. cbn in Hf. now subst.
  - rewrite <- (firstn_skipn T_BLOCKSIZE bs) in Hf. rewrite <- app_assoc in Hf.
    assert (L1 : length (firstn T_BLOCKSIZE bs) = T_BLOCKSIZE) by (rewrite length_firstn; lia).
    cbn [read_blocks]. unfold read_block. rewrite Hf, take_block by exact L1. change (BLOCK =? BLOCK) with true. cbv iota.
    rewrite (IH (with_fd t (skipn T_BLOCKSIZE bs ++ rest)) (skipn T_BLOCKSIZE bs) rest); [|rewrite length_skipn; lia|reflexivity].
    rewrite firstn_skipn. reflexivity.
Qed.

Section ReadStages.
Context `{Target} `{Heap}.
(** Memory does not run out. *)
Hypothesis memory : forall n, malloc_ok n = true.

(** A long name or link of the characters [s]: its header, its blocks. *)
Definition long_segment (b s : list Z) : list Z := b ++ strncpy s (T_BLOCKSIZE * count (length s)).

Lemma read_long_segment store fuel (t : TAR (list Z)) s b rest :
  (forall h o, blk (store h o) = blk h) ->
  (0 < length s)%nat -> Z.of_nat (length s) < 2 ^ 31 - 512 ->
  stores (th_buf t) size (Z.of_nat (length s)) -> length (blk (th_buf t)) = T_BLOCKSIZE ->
  fd t = strncpy s (T_BLOCKSIZE * count (length s)) ++ b ++ rest -> readable (options t) b ->
  read_long store (S fuel) t =
  ret (Go (with_fd (with_header t (set_blk (store (th_buf t) (Some (strncpy s (T_BLOCKSIZE * count (length s))))) b)) rest)).
Proof.
  intros Hst Hs Hs31 Hsz Hl Hf Hr. destruct (block_count_of_nat (length s) Hs31) as [Ec Hc].
  unfold read_long, th_get_size. rewrite (stores_oct _ _ _ Hsz) by lia. cbn [lift bindM].
  rewrite (ulong_small (Z.of_nat (length s))) by lia. rewrite memory. cbn [negb]. rewrite Ec.
  rewrite (read_blocks_file _ t (strncpy s (T_BLOCKSIZE * count (length s))) (b ++ rest)); [|apply strncpy_length|exact Hf].
  rewrite (next_header_readable fuel _ b rest); [reflexivity|exact Hr|reflexivity|].
  cbn [th_buf with_header with_fd]. now rewrite Hst.
Qed.

Lemma at_stream_cons t b rest : length b = T_BLOCKSIZE -> at_stream t (b ++ rest) -> blk (th_buf t) = b /\ fd t = rest.
Proof.
  intros Lb [Hl E]. apply app_inj_len in E as [-> ->]; [auto|congruence].
Qed.
End ReadStages.

(** ** What is written can be read *)

Section Finish.
Context `{Target}.

Lemma stamp_touches wo h : length (blk h) = T_BLOCKSIZE -> touches [magic; version] h (stamp wo h).
Proof.
  intros Hl. unfold stamp. destruct (opt wo TAR_GNU);
    (repeat apply touches_put; [now apply touches_refl|cbn; auto|cbn; lia|cbn; auto|cbn; lia]).
Qed.

Lemma th_finish_touches wo h : length (blk h) = T_BLOCKSIZE -> touches [magic; version; chksum] h (th_finish wo h).
Proof.
  intros Hl. rewrite th_finish_stamp. apply (touches_trans [magic; version] [chksum] h (stamp wo h)); [now apply stamp_touches|].
  apply touches_put; [apply touches_refl; now apply stamp_touches|cbn; auto|member_length].
Qed.

Lemma th_finish_magic wo h :
  length (blk h) = T_BLOCKSIZE ->
  firstn 5 (field (th_finish wo h) magic) = USTAR /\
  (opt wo TAR_GNU = false -> field (th_finish wo h) version = [48; 48]).
Proof.
  intros Hl. rewrite th_finish_stamp. set (g := stamp wo h). assert (Lg : length (blk g) = T_BLOCKSIZE) by now apply stamp_touches.
  rewrite !field_put_other by (try discriminate; try assumption; member_length).
  unfold g, stamp. destruct (opt wo TAR_GNU) eqn:E; (split; [|try discriminate]).
  - rewrite field_put_other; [|apply put_length; [exact Hl|cbn; lia]|discriminate|cbn; lia]. now rewrite field_put.
  - now rewrite field_put by (reflexivity || (apply put_length; [exact Hl|cbn; lia])).
  - intros _. rewrite field_put_other; [|apply put_length; [exact Hl|cbn; lia]|discriminate|cbn; lia]. now rewrite field_put.
Qed.

Lemma int_to_oct_plain num n : Forall (fun c => c < 128) (int_to_oct num n).
Proof.
  assert (Hp : forall w, Forall (fun c => c < 128) (pad_left w (octal (ulong num)))).
  { intros w. apply Forall_app. split; [apply Forall_repeat; reflexivity|].
    eapply Forall_impl; [|exact (proj1 (octal_long num))]. cbv beta. intros. lia. }
  unfold int_to_oct. destruct n as [|k]; [constructor|]. cbn [snprintf]. apply Forall_app.
  split; [|now constructor]. apply Forall_firstn, Forall_app. split; [apply Hp|now constructor].
Qed.

Lemma int_to_oct_nonull_plain num n : (1 <= n)%nat -> Forall (fun c => c < 128) (int_to_oct_nonull num n).
Proof.
  intros Hn. rewrite int_to_oct_nonull_shape by exact Hn. apply Forall_app. split; [|now constructor].
  apply Forall_firstn, Forall_app. split; [apply Forall_repeat; reflexivity|].
  eapply Forall_impl; [|exact (proj1 (octal_long (i32 num)))]. cbv beta. intros. lia.
Qed.

Lemma th_finish_plain wo h : plain_chars h -> plain_chars (th_finish wo h).
Proof. intros Hp. rewrite th_finish_stamp. apply plain_put; [now apply stamp_plain|apply int_to_oct_plain]. Qed.

(** The version is only checked where the writer sets the one that is checked. *)
Definition compatible (wo ro : Z) : Prop := opt ro TAR_CHECK_VERSION = true -> opt wo TAR_GNU = false.

Definition named (h : tar_header) : Prop := hd 0 (field h name) <> 0.

Lemma finish_readable wo ro h :
  th_wf h -> plain_chars h -> named h -> compatible wo ro -> readable ro (blk (th_finish wo h)).
Proof.
  intros Hw Hp Hn Hv. destruct (th_finish_wf wo h Hw) as [Lf _]. destruct Hw as [Lh Bh].
  pose proof (th_finish_touches wo h Lh) as [_ T]. destruct (th_finish_magic wo h Lh) as [Hm Hver].
  split; [exact Lf|]. split.
  - rewrite get_offset by exact Lf. rewrite T by (cbn; intuition discriminate). exact Hn.
  - set (g := th_finish wo h) in *. unfold check_header. cbn [options th_buf].
    assert (Em : firstn 5 (at_member (set_blk zero_header (blk g)) magic) = USTAR).
    { rewrite <- Hm. unfold field. rewrite firstn_firstn. reflexivity. }
    assert (Ev : opt ro TAR_CHECK_VERSION = true -> firstn 2 (at_member (set_blk zero_header (blk g)) version) = [48; 48]).
    { intros E. rewrite <- (Hver (Hv E)). reflexivity. }
    rewrite Em. destruct (list_eq_dec Z.eq_dec USTAR USTAR) as [_|]; [|contradiction]. cbn [negb]. rewrite andb_false_r.
    destruct (opt ro TAR_CHECK_VERSION); [rewrite Ev by reflexivity|]; cbn [negb andb];
      (destruct (opt ro TAR_IGNORE_CRC); [reflexivity|]).
    + change (negb (if list_eq_dec Z.eq_dec [48; 48] [48; 48] then true else false)) with false. cbv iota.
      change (th_crc_ok (set_blk zero_header (blk g))) with (th_crc_ok g). unfold th_crc_ok, g.
      rewrite (th_finish_crc wo h (conj Lh Bh) Hp). cbn [bind]. now rewrite Z.eqb_refl.
    + change (th_crc_ok (set_blk zero_header (blk g))) with (th_crc_ok g). unfold th_crc_ok, g.
      rewrite (th_finish_crc wo h (conj Lh Bh) Hp). cbn [bind]. now rewrite Z.eqb_refl.
Qed.
End Finish.

(** ** The stages of a write *)

(** A header that can be written: its size member holds [n]. *)
Record ready `{Target} (n : Z) (h : tar_header) : Prop := {
  ready_wf : th_wf h;
  ready_plain : plain_chars h;
  ready_named : named h;
  ready_size : stores h size n;
  ready_range : 0 <= n < 2 ^ 31
}.

(** A block of the given type and size that is read as a header. *)
Definition finished (ro ty n : Z) (b : list Z) : Prop :=
  readable ro b /\ header_type b = ty /\ stores (set_blk zero_header b) size n.

(** The bytes a long name takes in the archive: none, or a header and its blocks. *)
Definition seg_ok (ro ty : Z) (want : option (list Z)) (seg : list Z) : Prop :=
  match want with
  | None => seg = []
  | Some buf => exists s b, buf = strdup s /\ finished ro ty (Z.of_nat (length s)) b /\ seg = long_segment b s
  end.

(** A pointer of the header to a string of acceptable length. *)
Definition long_string (p : option (list Z)) : Prop :=
  forall buf, p = Some buf ->
  exists s, buf = strdup s /\ chars s /\ (0 < length s)%nat /\ Z.of_nat (length s) < 2 ^ 31 - 512.

Definition pointers (h : tar_header) : option (list Z) * option (list Z) * option (list Z) :=
  (gnu_longlink h, gnu_longname h, selinux_context h).

(** What a stage of [th_write] leaves as it was. *)
Definition rewritten : list member := [typeflag; size; magic; version; chksum].

Definition same_file {D} (t t' : TAR D) : Prop :=
  options t' = options t /\ pointers (th_buf t') = pointers (th_buf t) /\ type_of (th_buf t') = type_of (th_buf t) /\
  touches rewritten (th_buf t) (th_buf t').

Section WriteStages.
Context `{Target}.

Lemma named_touches ms h g : touches ms h g -> ~ In name ms -> named h -> named g.
Proof. intros [_ T] Hm Hn. unfold named. now rewrite T. Qed.

Lemma ready_type n h ty : ready n h -> word 7 ty -> ready n (put h typeflag [ty]) /\ type_of (put h typeflag [ty]) = ty.
Proof.
  intros [Hw Hp Hn Hs Hr] Ht. pose proof (proj1 Hw) as Hl. unfold word in Ht.
  assert (T : touches [typeflag] h (put h typeflag [ty])) by (apply touches_put; [now apply touches_refl|cbn; auto|cbn; lia]).
  split; [|now apply type_of_put_type]. split; [apply put_wf; [exact Hw|cbn; lia|]| | | |exact Hr].
  - constructor; [unfold word; lia|constructor].
  - apply plain_put; [exact Hp|]. constructor; [lia|constructor].
  - eapply named_touches; [exact T|cbn; intuition discriminate|exact Hn].
  - eapply stores_touches; [exact T|cbn; intuition discriminate|exact Hs].
Qed.

Lemma ready_resize n h z :
  ready n h -> 0 <= z < 2 ^ 31 -> ready z (th_set_size h z) /\ type_of (th_set_size h z) = type_of h.
Proof.
  intros [Hw Hp Hn Hs Hr] Hz. pose proof (proj1 Hw) as Hl.
  assert (T : touches [size] h (th_set_size h z)) by (apply touches_put; [now apply touches_refl|cbn; auto|member_length]).
  split; [|apply (type_touches _ _ _ Hl T); cbn; intuition discriminate].
  split; [now apply th_set_size_wf| | |now apply stores_nonull|exact Hz].
  - apply plain_put; [exact Hp|apply int_to_oct_nonull_plain; lia].
  - eapply named_touches; [exact T|cbn; intuition discriminate|exact Hn].
Qed.

Lemma ready_finish n h wo : ready n h -> ready n (th_finish wo h) /\ type_of (th_finish wo h) = type_of h.
Proof.
  intros [Hw Hp Hn Hs Hr]. pose proof (proj1 Hw) as Hl. pose proof (th_finish_touches wo h Hl) as T.
  split; [|apply (type_touches _ _ _ Hl T); cbn; intuition discriminate].
  split; [now apply th_finish_wf|now apply th_finish_plain| | |exact Hr].
  - eapply named_touches; [exact T|cbn; intuition discriminate|exact Hn].
  - eapply stores_touches; [exact T|cbn; intuition discriminate|exact Hs].
Qed.

Lemma finish_finished n h wo ro :
  ready n h -> compatible wo ro -> finished ro (type_of h) n (blk (th_finish wo h)).
Proof.
  intros Hr Hc. destruct (ready_finish n h wo Hr) as [Hf Ht]. split.
  - apply finish_readable; [apply Hr|apply Hr|apply Hr|exact Hc].
  - split; [exact Ht|exact (ready_size _ _ Hf)].
Qed.

(** The header in disguise, and itself again. *)
Lemma fake_header_spec {D} n (t : TAR D) ty z ro :
  ready n (th_buf t) -> word 7 ty -> 0 <= z < 2 ^ 31 -> compatible (options t) ro ->
  finished ro ty z (blk (th_buf (fake_header t ty z))) /\ ready z (th_buf (fake_header t ty z)).
Proof.
  intros Hr Hty Hz Hc. destruct (ready_type n _ ty Hr Hty) as [H1 T1]. destruct (ready_resize n _ z H1 Hz) as [H2 T2].
  pose proof (finish_finished z _ (options t) ro H2 Hc) as F. rewrite T2, T1 in F.
  split; [exact F|]. apply (ready_finish z _ (options t) H2).
Qed.

Lemma restore_header_spec {D} n z (t : TAR D) type2 :
  ready z (th_buf t) -> word 7 type2 -> 0 <= n < 2 ^ 31 ->
  ready n (th_buf (restore_header t type2 n)) /\ type_of (th_buf (restore_header t type2 n)) = type2.
Proof.
  intros Hr Hty Hn. destruct (ready_type z _ type2 Hr Hty) as [H1 T1]. destruct (ready_resize z _ n H1 Hn) as [H2 T2].
  split; [exact H2|exact (eq_trans T2 T1)].
Qed.

Lemma touches_incl ms ms' h g : incl ms ms' -> touches ms h g -> touches ms' h g.
Proof. intros Hi [Hl T]. split; [exact Hl|]. intros m Hm. apply T. intros Hin. apply Hm, Hi, Hin. Qed.

Lemma touches_blk ms h g k : blk k = blk g -> touches ms h g -> touches ms h k.
Proof. intros E [Hl T]. split; [congruence|]. intros m Hm. rewrite <- T by exact Hm. unfold field, at_member. now rewrite E. Qed.

Lemma rewritten_finish wo h g : touches rewritten h g -> touches rewritten h (th_finish wo g).
Proof.
  intros T. pose proof (touches_trans _ _ _ _ _ T (th_finish_touches wo g (proj1 T))) as T'.
  revert T'. apply touches_incl. intros m Hm. cbn in *. tauto.
Qed.

(** The disguise and its removal only touch these members. *)
Lemma disguise_touches {D} (t t1 : TAR D) ty z type2 n :
  length (blk (th_buf t)) = T_BLOCKSIZE -> th_buf t1 = th_buf (fake_header t ty z) ->
  touches rewritten (th_buf t) (th_buf (restore_header t1 type2 n)).
Proof.
  intros Hl E. cbn [restore_header th_buf with_header]. rewrite E. unfold th_set_size.
  apply touches_put; [apply touches_put; [|cbn; tauto|cbn; lia]|cbn; tauto|member_length].
  apply rewritten_finish. unfold th_set_size.
  apply touches_put; [apply touches_put; [now apply touches_refl|cbn; tauto|cbn; lia]|cbn; tauto|member_length].
Qed.

Lemma pointers_finish wo h : pointers (th_finish wo h) = pointers h.
Proof. rewrite th_finish_stamp. unfold stamp. destruct (opt wo TAR_GNU); reflexivity. Qed.

Lemma write_long_file n ty (t : TAR (list Z)) s ro :
  ready n (th_buf t) -> word 7 ty -> word 7 (type_of (th_buf t)) -> compatible (options t) ro ->
  chars s -> (0 < length s)%nat -> Z.of_nat (length s) < 2 ^ 31 - 512 ->
  exists t' seg, write_long ty (strdup s) t = Ret (Go t') /\ fd t' = fd t ++ seg /\
    seg_ok ro ty (Some (strdup s)) seg /\ ready n (th_buf t') /\ same_file t t'.
Proof.
  intros Hr Hty Ht2 Hc Cs Hs Hs31. unfold write_long, th_get_size.
  rewrite (stores_oct _ _ _ (ready_size _ _ Hr)) by (apply Hr). cbn [bind].
  unfold strdup at 1. rewrite (c_string_chars s []) by exact Cs. cbn [bind].
  destruct (fake_header_spec n t ty (Z.of_nat (length s)) ro Hr Hty ltac:(lia) Hc) as [Hf Hfr].
  set (t1 := fake_header t ty (Z.of_nat (length s))) in *.
  cbn [write_header write_block writefunc memory_file]. change (BLOCK =? BLOCK) with true. cbn [negb].
  rewrite (proj1 (block_count_of_nat _ Hs31)), write_blocks_file by exact Hs.
  change (BLOCK =? BLOCK) with true. cbn [negb]. eexists. exists (long_segment (blk (th_buf t1)) s).
  split; [reflexivity|]. split; [|split; [|split; [|split; [|split; [|split]]]]].
  - cbn [fd restore_header with_header with_fd]. change (fd t1) with (fd t). unfold long_segment. now rewrite app_assoc.
  - exists s, (blk (th_buf t1)). auto.
  - eapply restore_header_spec; [exact Hfr|exact Ht2|apply Hr].
  - reflexivity.
  - exact (pointers_finish (options t) (th_set_size (put (th_buf t) typeflag [ty]) (Z.of_nat (length s)))).
  - eapply restore_header_spec; [exact Hfr|exact Ht2|apply Hr].
  - eapply disguise_touches; [apply Hr|reflexivity].
Qed.

(** The two stages for long names: nothing is written without the option. *)
Definition wanted (t : TAR (list Z)) (p : option (list Z)) (bit : Z) : option (list Z) :=
  if opt (options t) bit then p else None.

Lemma long_string_wanted t p bit : long_string p -> long_string (wanted t p bit).
Proof. intros Hp. unfold wanted. destruct (opt (options t) bit); [exact Hp|]. intros buf E. discriminate E. Qed.

Lemma same_file_refl (t : TAR (list Z)) : length (blk (th_buf t)) = T_BLOCKSIZE -> same_file t t.
Proof. intros Hl. split; [reflexivity|]. split; [reflexivity|]. split; [reflexivity|now apply touches_refl]. Qed.

Lemma skipped_stage n (t : TAR (list Z)) ro ty :
  ready n (th_buf t) ->
  exists t' seg, Ret (Go t) = Ret (Go t') /\ fd t' = fd t ++ seg /\ seg_ok ro ty None seg /\ ready n (th_buf t') /\ same_file t t'.
Proof.
  intros Hr. exists t, []. rewrite app_nil_r. split; [reflexivity|]. split; [reflexivity|]. split; [reflexivity|].
  split; [exact Hr|apply same_file_refl, Hr].
Qed.

Lemma write_stage n (t : TAR (list Z)) ty p ro (stage : TAR (list Z) -> outcome (flow (list Z))) :
  stage t = match p with
            | Some buf => if opt (options t) TAR_GNU then write_long ty buf t else Ret (Go t)
            | None => Ret (Go t)
            end ->
  ready n (th_buf t) -> word 7 ty -> word 7 (type_of (th_buf t)) -> compatible (options t) ro -> long_string p ->
  exists t' seg, stage t = Ret (Go t') /\ fd t' = fd t ++ seg /\ seg_ok ro ty (wanted t p TAR_GNU) seg /\
    ready n (th_buf t') /\ same_file t t'.
Proof.
  intros -> Hr Hty Ht2 Hc Hp. unfold wanted.
  destruct p as [buf|].
  - destruct (opt (options t) TAR_GNU).
    + destruct (Hp buf eq_refl) as (s & -> & Cs & Hs & Hs31). exact (write_long_file n ty t s ro Hr Hty Ht2 Hc Cs Hs Hs31).
    + exact (skipped_stage n t ro ty Hr).
  - destruct (opt (options t) TAR_GNU); exact (skipped_stage n t ro ty Hr).
Qed.
End WriteStages.

(** ** The SELinux context *)

(** A context that fits one block and can be told from what follows it. *)
Definition context_string (s : list Z) : Prop :=
  chars s /\ (0 < length s)%nat /\ Forall (fun c => c <> NEWLINE) s /\ context_size s < BLOCK.

Lemma context_size_bounds s :
  context_size s < BLOCK ->
  (context_size s = Z.of_nat (25 + length s) /\ 25 <= context_size s < 100) \/
  (context_size s = Z.of_nat (26 + length s) /\ 100 <= context_size s < 512).
Proof.
  unfold context_size, SELINUX_TAG_LEN, BLOCK. destruct (Z.leb_spec 100 (Z.of_nat (21 + length s + 3 + 1))); lia.
Qed.

(** The record says its own length. *)
Lemma selinux_record_length s :
  context_size s < BLOCK -> Z.of_nat (length (selinux_record s)) = context_size s.
Proof.
  intros Hs. unfold selinux_record, decimal. rewrite !length_app. cbn [length].
  change (length SELINUX_TAG) with 21%nat.
  destruct (context_size_bounds s Hs) as [[E B]|[E B]];
    destruct (Z.ltb_spec (context_size s) 100); try lia; destruct (Z.ltb_spec (context_size s) 10); try lia;
    cbn [length]; lia.
Qed.

Lemma decimal_digits z : 10 <= z < 512 -> Forall (fun c => 48 <= c <= 57) (decimal z).
Proof.
  intros Hz. unfold decimal.
  pose proof (Z.mod_pos_bound z 10 ltac:(lia)). pose proof (Z.mod_pos_bound (z / 10) 10 ltac:(lia)).
  assert (0 <= z / 100 < 6) by (split; [apply Z.div_pos; lia|apply Z.div_lt_upper_bound; lia]).
  apply Forall_app. split; [destruct (z <? 100); repeat constructor; lia|].
  apply Forall_app. split; [destruct (z <? 10); repeat constructor; lia|repeat constructor; lia].
Qed.

Lemma selinux_record_chars s : context_string s -> chars (selinux_record s).
Proof.
  intros (Cs & _ & _ & Hs). unfold selinux_record, chars.
  assert (Hd : Forall (fun c => 48 <= c <= 57) (decimal (context_size s))).
  { apply decimal_digits. destruct (context_size_bounds s Hs); lia. }
  apply Forall_app. split; [eapply Forall_impl; [|exact Hd]; cbv beta; intros; lia|].
  constructor; [discriminate|]. apply Forall_app. split; [repeat constructor; discriminate|].
  apply Forall_app. split; [exact Cs|repeat constructor; discriminate].
Qed.

Lemma context_block_shape s :
  context_size s < BLOCK ->
  context_block s = selinux_record s ++ repeat 0 (T_BLOCKSIZE - length (selinux_record s)) /\
  length (context_block s) = T_BLOCKSIZE /\ (length (selinux_record s) < T_BLOCKSIZE)%nat.
Proof.
  intros Hs. pose proof (selinux_record_length s Hs) as El. unfold BLOCK, T_BLOCKSIZE in *.
  assert (E : context_block s = selinux_record s ++ repeat 0 (512 - length (selinux_record s))).
  { unfold context_block, T_BLOCKSIZE, snprintf. set (r := selinux_record s) in *. rewrite firstn_all2 by lia.
    unfold blit. cbn [firstn app Nat.add]. rewrite <- app_assoc. f_equal.
    rewrite skipn_repeat, length_app. cbn [length app]. replace (512 - length r)%nat with (S (512 - (length r + 1))) by lia. reflexivity. }
  split; [exact E|]. rewrite E, length_app, repeat_length. lia.
Qed.

Lemma strstr_skip a s tag :
  Forall (fun c => c <> hd 0 tag) a -> (0 < length tag)%nat ->
  strstr (a ++ tag ++ s) tag = Some (length a).
Proof.
  intros Ha Ht. induction Ha as [|c a Hc Ha IH].
  - cbn [app length]. destruct tag as [|d tag]; [cbn in Ht; lia|]. cbn [strstr app].
    destruct (list_eq_dec Z.eq_dec (firstn (length (d :: tag)) (d :: tag ++ s)) (d :: tag)) as [|Hn]; [reflexivity|].
    exfalso. apply Hn. cbn [length firstn]. f_equal. rewrite firstn_app, Nat.sub_diag, firstn_all, firstn_O. apply app_nil_r.
  - cbn [app strstr length]. destruct (list_eq_dec _ _ _) as [E|_]; [|now rewrite IH].
    exfalso. destruct tag as [|d tag]; [cbn in Ht; lia|]. cbn [length firstn] in E. injection E as E _. cbn in Hc. congruence.
Qed.

Lemma strchr_end s c rest : Forall (fun x => x <> c) s -> strchr (s ++ c :: rest) c = Some s.
Proof.
  induction 1 as [|x s Hx Hs IH]; cbn [app strchr]; [now rewrite Z.eqb_refl|].
  destruct (Z.eqb_spec x c); [contradiction|]. now rewrite IH.
Qed.

Lemma set_same l i v : get l i = v -> set l i v = l.
Proof.
  unfold get. revert i. induction l as [|h l IH]; intros [|i] E; cbn in *; try reflexivity; [congruence|]. now rewrite IH.
Qed.

(** The context is found where it was put. *)
Lemma find_context_block s :
  context_string s -> find_context (set (context_block s) (T_BLOCKSIZE - 1) 0) = Ret (Some s).
Proof.
  intros Hc. pose proof Hc as (Cs & Ps & Ns & Hs). destruct (context_block_shape s Hs) as (E & Lc & Lr).
  set (r := selinux_record s) in *. rewrite set_same.
  2: { rewrite E. unfold get. rewrite app_nth2, nth_repeat by (unfold T_BLOCKSIZE in *; lia). reflexivity. }
  unfold find_context. rewrite E. replace (T_BLOCKSIZE - length r)%nat with (S (T_BLOCKSIZE - length r - 1)) by lia.
  cbn [repeat]. rewrite c_string_chars by (now apply selinux_record_chars). cbn [bind].
  set (d := decimal (context_size s) ++ [SPACE]).
  assert (Er : r = d ++ SELINUX_TAG ++ s ++ [NEWLINE]) by (unfold r, selinux_record, d; now rewrite <- app_assoc).
  assert (Hd : strstr r SELINUX_TAG = Some (length d)).
  { rewrite Er. apply strstr_skip; [|cbn; lia]. apply Forall_app. split; [|repeat constructor; discriminate].
    eapply Forall_impl; [|apply decimal_digits; destruct (context_size_bounds s Hs); lia]. cbv beta. cbn [hd SELINUX_TAG]. intros. lia. }
  rewrite Hd. assert (Lr' : length r = (length d + 21 + length s + 1)%nat).
  { rewrite Er, !length_app. change (length SELINUX_TAG) with 21%nat. cbn [length]. lia. }
  unfold SELINUX_TAG_LEN. destruct (Nat.ltb_spec (length d + 21) (length r)) as [_|]; [|lia]. do 2 f_equal.
  rewrite Er, app_assoc, skipn_app, skipn_all2 by (rewrite length_app; cbn; lia).
  rewrite length_app. change (length SELINUX_TAG) with 21%nat. rewrite Nat.sub_diag. cbn [skipn app]. now apply strchr_end.
Qed.

(** The bytes of the context in the archive. *)
Definition context_ok (ro : Z) (want : option (list Z)) (seg : list Z) : Prop :=
  match want with
  | None => seg = []
  | Some buf => exists s b, buf = strdup s /\ context_string s /\ finished ro TH_EXT_TYPE (context_size s) b /\ seg = b ++ context_block s
  end.

Definition context_pointer (p : option (list Z)) : Prop :=
  forall buf, p = Some buf -> exists s, buf = strdup s /\ context_string s.

Lemma write_context_file `{Target} n (t : TAR (list Z)) ro :
  ready n (th_buf t) -> word 7 (type_of (th_buf t)) -> compatible (options t) ro ->
  context_pointer (selinux_context (th_buf t)) ->
  exists t' seg, write_context t = Ret (Go t') /\ fd t' = fd t ++ seg /\
    context_ok ro (wanted t (selinux_context (th_buf t)) TAR_STORE_SELINUX) seg /\
    ready n (th_buf t') /\ same_file t t'.
Proof.
  intros Hr Ht2 Hc Hp. unfold write_context, wanted.
  assert (Hnone : exists t' seg, Ret (Go t) = Ret (Go t') /\ fd t' = fd t ++ seg /\ context_ok ro None seg /\
    ready n (th_buf t') /\ same_file t t').
  { exact (skipped_stage n t ro TH_EXT_TYPE Hr). }
  destruct (selinux_context (th_buf t)) as [buf|] eqn:Eb; [|destruct (opt _ _); exact Hnone].
  destruct (opt (options t) TAR_STORE_SELINUX); [|exact Hnone]. clear Hnone.
  destruct (Hp buf eq_refl) as (s & -> & Hs). pose proof Hs as (Cs & _ & _ & Hz).
  unfold th_get_size. rewrite (stores_oct _ _ _ (ready_size _ _ Hr)) by (apply Hr). cbn [bind].
  unfold strdup at 1. rewrite (c_string_chars s []) by exact Cs. cbn [bind].
  destruct (Z.leb_spec BLOCK (context_size s)) as [|_]; [lia|].
  assert (Bz : 0 <= context_size s < 2 ^ 31) by (unfold BLOCK in Hz; destruct (context_size_bounds s Hz); lia).
  destruct (fake_header_spec n t TH_EXT_TYPE (context_size s) ro Hr ltac:(split; [discriminate|reflexivity]) Bz Hc) as [Hf Hfr].
  set (t1 := fake_header t TH_EXT_TYPE (context_size s)) in *.
  cbn [write_header write_block writefunc memory_file]. change (BLOCK =? BLOCK) with true. cbn [negb].
  eexists. exists (blk (th_buf t1) ++ context_block s).
  split; [reflexivity|]. split; [|split; [|split; [|split; [|split; [|split]]]]].
  - cbn [fd restore_header with_header with_fd]. change (fd t1) with (fd t). now rewrite app_assoc.
  - exists s, (blk (th_buf t1)). auto.
  - eapply restore_header_spec; [exact Hfr|exact Ht2|apply Hr].
  - reflexivity.
  - exact (pointers_finish (options t) (th_set_size (put (th_buf t) typeflag [TH_EXT_TYPE]) (context_size s))).
  - eapply restore_header_spec; [exact Hfr|exact Ht2|apply Hr].
  - eapply disguise_touches; [apply Hr|reflexivity].
Qed.

(** ** The stages of a read *)

(** What a long name becomes in the reader's buffer: padded to whole blocks. *)
Definition padded (buf : list Z) : list Z :=
  let s := removelast buf in strncpy s (T_BLOCKSIZE * count (length s)).

Lemma padded_strdup s : padded (strdup s) = strncpy s (T_BLOCKSIZE * count (length s)).
Proof. unfold padded, strdup. now rewrite removelast_last. Qed.

(** The stream goes on with a header whose type is none of [tys]. *)
Definition continues (ro : Z) (tys : list Z) (stream : list Z) : Prop :=
  exists b rest, stream = b ++ rest /\ readable ro b /\ ~ In (header_type b) tys.

Lemma continues_segment ro tys ty n b rest :
  finished ro ty n b -> ~ In ty tys -> continues ro tys (b ++ rest).
Proof. intros (Hr & Ht & _) Hty. exists b, rest. rewrite Ht. auto. Qed.

Lemma continues_mono ro tys tys' stream : incl tys' tys -> continues ro tys stream -> continues ro tys' stream.
Proof. intros Hi (b & rest & E & Hr & Ht). exists b, rest. split; [exact E|]. split; [exact Hr|]. intros Hin. apply Ht, Hi, Hin. Qed.

Section Reading.
Context `{Target} `{Heap}.
Hypothesis memory : forall n, malloc_ok n = true.

Lemma read_stage fuel ty (store : tar_header -> option (list Z) -> tar_header) (t : TAR (list Z)) want seg stream :
  (forall h o, blk (store h o) = blk h) -> long_string want ->
  seg_ok (options t) ty want seg -> continues (options t) [ty] stream -> at_stream t (seg ++ stream) ->
  exists t', (if type_of (th_buf t) =? ty then read_long store (S fuel) t else ret (Go t)) = ret (Go t') /\
    at_stream t' stream /\ options t' = options t /\
    pointers (th_buf t') = pointers (match want with None => th_buf t | Some buf => store (th_buf t) (Some (padded buf)) end).
Proof.
  intros Hst Hw Hseg (b' & rest & -> & Hr & Hty) Hat. destruct want as [buf|].
  - destruct Hseg as (s & b & -> & (Hb & Tb & Sb) & ->). unfold long_segment in Hat. rewrite <- app_assoc in Hat.
    destruct (at_stream_cons t b _ (proj1 Hb) Hat) as [Eb Ef]. pose proof (proj1 Hat) as Hl.
    assert (Et : type_of (th_buf t) = ty) by (unfold type_of; rewrite Eb; exact Tb). rewrite Et, Z.eqb_refl.
    destruct (Hw _ eq_refl) as (s' & E & _ & Hs & Hs31). apply app_inj_tail in E as [<- _].
    assert (Sz : stores (th_buf t) size (Z.of_nat (length s))).
    { destruct Sb as (w & c & r & E & Hc). exists w, c, r. split; [|exact Hc]. rewrite <- E. unfold field, at_member. now rewrite Eb. }
    rewrite (read_long_segment memory store fuel t s b' rest Hst Hs Hs31 Sz Hl Ef Hr).
    eexists. split; [reflexivity|]. split; [split; [apply Hr|reflexivity]|]. split; [reflexivity|].
    now rewrite padded_strdup.
  - cbn [seg_ok] in Hseg. subst seg. cbn [app] in Hat. destruct (at_stream_cons t b' rest (proj1 Hr) Hat) as [Eb Ef].
    destruct (Z.eqb_spec (type_of (th_buf t)) ty) as [E|_].
    { exfalso. apply Hty. left. rewrite <- E. unfold type_of. now rewrite Eb. }
    exists t. split; [reflexivity|]. split; [exact Hat|]. auto.
Qed.

Lemma read_context_stage fuel (t : TAR (list Z)) want seg stream :
  context_ok (options t) want seg -> continues (options t) [TH_EXT_TYPE] stream -> at_stream t (seg ++ stream) ->
  exists t', read_exthdr (S fuel) t = ret (Go t') /\ at_stream t' stream /\ options t' = options t /\
    pointers (th_buf t') = pointers (match want with None => th_buf t | Some buf => set_selinux (th_buf t) (Some buf) end).
Proof.
  intros Hseg (b' & rest & -> & Hr & Hty) Hat. unfold read_exthdr, TH_ISEXTHEADER. destruct want as [buf|].
  - destruct Hseg as (s & b & -> & Hs & (Hb & Tb & Sb) & ->). rewrite <- app_assoc in Hat.
    destruct (at_stream_cons t b _ (proj1 Hb) Hat) as [Eb Ef]. pose proof (proj1 Hat) as Hl.
    assert (Et : type_of (th_buf t) = TH_EXT_TYPE) by (unfold type_of; rewrite Eb; exact Tb). rewrite Et, Z.eqb_refl.
    pose proof Hs as (_ & _ & _ & Hz).
    assert (Sz : stores (th_buf t) size (context_size s)).
    { destruct Sb as (w & c & r & E & Hc). exists w, c, r. split; [|exact Hc]. rewrite <- E. unfold field, at_member. now rewrite Eb. }
    assert (Bz : 0 <= context_size s < 2 ^ 31) by (unfold BLOCK in Hz; destruct (context_size_bounds s Hz); lia).
    unfold th_get_size. rewrite (stores_oct _ _ _ Sz) by exact Bz. cbn [lift bindM]. rewrite ulong_small by lia.
    destruct (Z.leb_spec BLOCK (context_size s)) as [|_]; [lia|]. unfold read_block.
    rewrite Ef, take_block by (now apply context_block_shape). change (BLOCK =? BLOCK) with true. cbn [negb].
    rewrite find_context_block by exact Hs. cbn [lift bindM].
    rewrite (next_header_readable fuel _ b' rest); [|exact Hr|reflexivity|exact Hl].
    eexists. split; [reflexivity|]. split; [split; [apply Hr|reflexivity]|]. split; reflexivity.
  - cbn [context_ok] in Hseg. subst seg. cbn [app] in Hat. destruct (at_stream_cons t b' rest (proj1 Hr) Hat) as [Eb Ef].
    destruct (Z.eqb_spec (type_of (th_buf t)) TH_EXT_TYPE) as [E|_].
    { exfalso. apply Hty. left. rewrite <- E. unfold type_of. now rewrite Eb. }
    exists t. split; [reflexivity|]. split; [exact Hat|]. auto.
Qed.
End Reading.

(** A typeflag that none of the extensions uses. *)
Definition ordinary (ty : Z) : Prop := word 7 ty /\ ~ In ty [GNU_LONGLINK_TYPE; GNU_LONGNAME_TYPE; TH_EXT_TYPE].

Lemma continues_seg ro tys ty want seg stream :
  seg_ok ro ty want seg -> ~ In ty tys -> continues ro tys stream -> continues ro tys (seg ++ stream).
Proof.
  intros Hs Hty Hc. destruct want as [buf|]; [|now rewrite Hs]. destruct Hs as (s & b & _ & Hb & ->).
  unfold long_segment. rewrite <- app_assoc. eapply continues_segment; eassumption.
Qed.

Lemma continues_context ro tys want seg stream :
  context_ok ro want seg -> ~ In TH_EXT_TYPE tys -> continues ro tys stream -> continues ro tys (seg ++ stream).
Proof.
  intros Hs Hty Hc. destruct want as [buf|]; [|now rewrite Hs]. destruct Hs as (s & b & _ & _ & Hb & ->).
  rewrite <- app_assoc. eapply continues_segment; eassumption.
Qed.

(** The three stages together. *)
Lemma pointers_read h0 h1 h2 h3 w1 w2 w3 :
  pointers h0 = (None, None, None) ->
  pointers h1 = pointers (match w1 with None => h0 | Some buf => set_longlink h0 (Some (padded buf)) end) ->
  pointers h2 = pointers (match w2 with None => h1 | Some buf => set_longname h1 (Some (padded buf)) end) ->
  pointers h3 = pointers (match w3 with None => h2 | Some buf => set_selinux h2 (Some buf) end) ->
  pointers h3 = (option_map padded w1, option_map padded w2, w3).
Proof.
  intros P0 P1 P2 ->. unfold pointers in *. destruct w1, w2, w3;
    cbn [set_longlink set_longname set_selinux gnu_longlink gnu_longname selinux_context option_map] in *; congruence.
Qed.

(** [th_read] on the segments of one entry. *)
Lemma th_read_segments `{Target} `{Heap} (memory : forall z, malloc_ok z = true) fuel h e ro w1 w2 w3 seg1 seg2 seg3 ty n b rest :
  long_string w1 -> long_string w2 -> seg_ok ro GNU_LONGLINK_TYPE w1 seg1 -> seg_ok ro GNU_LONGNAME_TYPE w2 seg2 ->
  context_ok ro w3 seg3 -> finished ro ty n b -> ~ In ty [GNU_LONGLINK_TYPE; GNU_LONGNAME_TYPE; TH_EXT_TYPE] ->
  exists r, th_read (S fuel) (mkTAR ro h (seg1 ++ seg2 ++ seg3 ++ b ++ rest) e) = ret (0, r) /\
    fd r = rest /\ blk (th_buf r) = b /\ pointers (th_buf r) = (option_map padded w1, option_map padded w2, w3).
Proof.
  intros L1 L2 S1 S2 S3 Hb Hty.
  assert (C3 : continues ro [GNU_LONGLINK_TYPE; GNU_LONGNAME_TYPE; TH_EXT_TYPE] (b ++ rest)) by (eapply continues_segment; eassumption).
  assert (C2 : continues ro [GNU_LONGLINK_TYPE; GNU_LONGNAME_TYPE] (seg3 ++ b ++ rest)).
  { eapply continues_context; [exact S3|cbn; intuition discriminate|]. revert C3. apply continues_mono. intros x Hx; cbn in *; tauto. }
  assert (C1 : continues ro [GNU_LONGLINK_TYPE] (seg2 ++ seg3 ++ b ++ rest)).
  { eapply continues_seg; [exact S2|cbn; intuition discriminate|]. revert C2. apply continues_mono. intros x Hx; cbn in *; tauto. }
  assert (C0 : continues ro [] (seg1 ++ seg2 ++ seg3 ++ b ++ rest)).
  { eapply continues_seg; [exact S1|exact (fun x => x)|]. revert C1. apply continues_mono. intros x []. }
  assert (C2' : continues ro [GNU_LONGNAME_TYPE] (seg3 ++ b ++ rest))
    by (revert C2; apply continues_mono; intros x Hx; cbn in *; tauto).
  assert (C3' : continues ro [TH_EXT_TYPE] (b ++ rest)) by (revert C3; apply continues_mono; intros x Hx; cbn in *; tauto).
  destruct C0 as (b0 & rest0 & E0 & R0 & _). unfold th_read, with_header. cbn [options fd errno].
  rewrite (read_internal_readable fuel 0 _ b0 rest0) by (try assumption; reflexivity). cbn [bindM ret].
  change (BLOCK =? 0) with false. change (BLOCK =? BLOCK) with true. cbn [negb].
  set (t0 := with_fd _ _). assert (A0 : at_stream t0 (seg1 ++ seg2 ++ seg3 ++ b ++ rest)) by (split; [apply R0|exact E0]).
  assert (P0 : pointers (th_buf t0) = (None, None, None)) by reflexivity.
  assert (O0 : options t0 = ro) by reflexivity. clearbody t0. subst ro.
  destruct (read_stage memory fuel GNU_LONGLINK_TYPE set_longlink t0 w1 seg1 _ (fun _ _ => eq_refl) L1 S1 C1 A0)
    as (t1 & E1 & A1 & O1 & P1).
  destruct (read_stage memory fuel GNU_LONGNAME_TYPE set_longname t1 w2 seg2 (seg3 ++ b ++ rest) (fun _ _ => eq_refl) L2)
    as (t2 & E2 & A2 & O2 & P2); [rewrite O1; exact S2|rewrite O1; exact C2'|exact A1|].
  destruct (read_context_stage fuel t2 w3 seg3 (b ++ rest)) as (t3 & E3 & A3 & O3 & P3);
    [rewrite O2, O1; exact S3|rewrite O2, O1; exact C3'|exact A2|].
  exists t3. unfold read_longlink, read_longname, TH_ISLONGLINK, TH_ISLONGNAME, and_then. rewrite E1. cbn [bindM ret].
  rewrite E2. cbn [bindM ret]. rewrite E3. split; [reflexivity|].
  destruct (at_stream_cons t3 b rest (proj1 (proj1 Hb)) A3) as [-> ->]. split; [reflexivity|]. split; [reflexivity|].
  exact (pointers_read _ _ _ _ w1 w2 w3 P0 P1 P2 P3).
Qed.

(** * Theorems *)

Lemma write_read_back `{Target} `{Heap} n (t : TAR (list Z)) ro :
  (forall z, malloc_ok z = true) -> ready n (th_buf t) -> ordinary (type_of (th_buf t)) -> compatible (options t) ro ->
  long_string (gnu_longlink (th_buf t)) -> long_string (gnu_longname (th_buf t)) ->
  context_pointer (selinux_context (th_buf t)) ->
  exists t' out, th_write t = Ret (0, t') /\ fd t' = fd t ++ out /\
    (options t' = options t /\ type_of (th_buf t') = type_of (th_buf t) /\ th_get_size (th_buf t') = Ret n /\
     touches rewritten (th_buf t) (th_buf t')) /\
    forall fuel h e rest, exists r, th_read (S fuel) (mkTAR ro h (out ++ rest) e) = ret (0, r) /\
      fd r = rest /\ type_of (th_buf r) = type_of (th_buf t) /\ th_get_size (th_buf r) = Ret n /\
      touches rewritten (th_buf t) (th_buf r) /\
      pointers (th_buf r) =
        (option_map padded (wanted t (gnu_longlink (th_buf t)) TAR_GNU),
         option_map padded (wanted t (gnu_longname (th_buf t)) TAR_GNU),
         wanted t (selinux_context (th_buf t)) TAR_STORE_SELINUX).
Proof.
  intros Hmem Hr [Hty Hord] Hc Hl Hn Hx.
  destruct (write_stage n t GNU_LONGLINK_TYPE (gnu_longlink (th_buf t)) ro write_longlink eq_refl Hr
    ltac:(split; [discriminate|reflexivity]) Hty Hc Hl) as (t1 & seg1 & E1 & F1 & S1 & R1 & O1 & P1 & T1 & C1).
  injection P1 as P1a P1b P1c.
  destruct (write_stage n t1 GNU_LONGNAME_TYPE (gnu_longname (th_buf t1)) ro write_longname eq_refl R1
    ltac:(split; [discriminate|reflexivity]) ltac:(now rewrite T1) ltac:(now rewrite O1) ltac:(now rewrite P1b))
    as (t2 & seg2 & E2 & F2 & S2 & R2 & O2 & P2 & T2 & C2).
  injection P2 as P2a P2b P2c.
  destruct (write_context_file n t2 ro R2 ltac:(now rewrite T2, T1) ltac:(now rewrite O2, O1) ltac:(now rewrite P2c, P1c))
    as (t3 & seg3 & E3 & F3 & S3 & R3 & O3 & P3 & T3 & C3).
  pose proof (finish_finished n (th_buf t3) (options t3) ro R3 ltac:(now rewrite O3, O2, O1)) as Hfin.
  rewrite T3, T2, T1 in Hfin. set (b := blk (th_finish (options t3) (th_buf t3))) in *.
  unfold wanted in S2, S3. rewrite O1, P1b in S2. rewrite O2, O1, P2c, P1c in S3. fold (wanted t (gnu_longname (th_buf t)) TAR_GNU) in S2.
  fold (wanted t (selinux_context (th_buf t)) TAR_STORE_SELINUX) in S3.
  assert (Ht : touches rewritten (th_buf t) (th_finish (options t3) (th_buf t3))).
  { apply rewritten_finish. pose proof (touches_trans _ _ _ _ _ C1 (touches_trans _ _ _ _ _ C2 C3)) as C. revert C.
    apply touches_incl. intros m Hm. rewrite !in_app_iff in Hm. tauto. }
  pose proof Hfin as (Hb & Tb & Sb).
  eexists. exists (seg1 ++ seg2 ++ seg3 ++ b). split; [|split; [|split]].
  - unfold th_write, seq_flow. rewrite E1. cbn [bind]. rewrite E2. cbn [bind]. rewrite E3. reflexivity.
  - cbn [fd with_fd with_header]. now rewrite F3, F2, F1, <- !app_assoc.
  - cbn [options th_buf with_fd with_header]. split; [congruence|]. split; [exact Tb|]. split; [|exact Ht].
    apply (stores_oct _ size n Sb). apply Hr.
  - intros fuel h e rest. rewrite <- !app_assoc.
    destruct (th_read_segments Hmem fuel h e ro _ _ _ seg1 seg2 seg3 (type_of (th_buf t)) n b rest
      (long_string_wanted t _ TAR_GNU Hl) (long_string_wanted t _ TAR_GNU Hn) S1 S2 S3 Hfin Hord) as (r & Er & Fr & Br & Pr).
    exists r. split; [exact Er|]. split; [exact Fr|].
    split; [unfold type_of; rewrite Br; exact Tb|]. split; [|split; [|exact Pr]].
    + unfold th_get_size, at_member. rewrite Br. apply (stores_oct _ size n Sb). apply Hr.
    + now apply (touches_blk _ _ (th_finish (options t3) (th_buf t3))).
Qed.

(** C5: what [th_write] writes, [th_read] reads back: for a header with a name and
    an ordinary type, whatever combination of long link, long name and SELinux
    context it has, [th_write] returns 0, and [th_read] on the bytes it wrote
    returns 0, takes exactly these bytes, and finds the type, the size and every
    other member of the header, the long link and the long name (padded with zeros
    to whole blocks, when the GNU option was set) and the context (when it was to be
    stored). *)
Theorem th_write_read `{Target} `{Heap} n (t : TAR (list Z)) ro :
  (forall z, malloc_ok z = true) -> ready n (th_buf t) -> ordinary (type_of (th_buf t)) -> compatible (options t) ro ->
  long_string (gnu_longlink (th_buf t)) -> long_string (gnu_longname (th_buf t)) ->
  context_pointer (selinux_context (th_buf t)) ->
  exists t' out, th_write t = Ret (0, t') /\ fd t' = fd t ++ out /\
    forall fuel h e rest, exists r, th_read (S fuel) (mkTAR ro h (out ++ rest) e) = ret (0, r) /\
      fd r = rest /\ type_of (th_buf r) = type_of (th_buf t) /\ th_get_size (th_buf r) = Ret n /\
      touches rewritten (th_buf t) (th_buf r) /\
      pointers (th_buf r) =
        (option_map padded (wanted t (gnu_longlink (th_buf t)) TAR_GNU),
         option_map padded (wanted t (gnu_longname (th_buf t)) TAR_GNU),
         wanted t (selinux_context (th_buf t)) TAR_STORE_SELINUX).
Proof.
  intros Hmem Hr Hord Hc Hl Hn Hx. destruct (write_read_back n t ro Hmem Hr Hord Hc Hl Hn Hx) as (t' & out & E & F & _ & R).
  now exists t', out.
Qed.

Definition always : Heap := {| malloc_ok := fun _ => true |}.

(** A regular file of five bytes with a long name and a context. *)
Definition demo_header : tar_header :=
  let h := th_set_size (put (put empty_header name [97]) typeflag [REGTYPE]) 5 in
  set_selinux (set_longname h (Some (strdup (repeat 97 150)))) (Some (strdup [117; 58; 114])).

Definition demo_tar : TAR (list Z) := mkTAR (TAR_GNU + TAR_STORE_SELINUX) demo_header [] None.

Lemma demo_ready : ready 5 demo_header.
Proof.
  assert (Hw : th_wf (put (put empty_header name [97]) typeflag [REGTYPE])).
  { apply put_wf; [apply put_wf; [exact empty_header_wf|cbn; lia|now apply bytes_literal]|cbn; lia|now apply bytes_literal]. }
  split.
  - exact (th_set_size_wf _ 5 Hw).
  - discriminate.
  - discriminate.
  - exact (stores_nonull _ size 5 (proj1 Hw) eq_refl ltac:(lia)).
  - lia.
Qed.

Lemma th_write_read_witness :
  exists t' out, th_write demo_tar = Ret (0, t') /\ fd t' = fd demo_tar ++ out /\
    forall fuel h e rest, exists r, @th_read arm32 _ _ always (S fuel) (mkTAR 0 h (out ++ rest) e) = ret (0, r) /\
      fd r = rest /\ type_of (th_buf r) = type_of (th_buf demo_tar) /\ th_get_size (th_buf r) = Ret 5 /\
      touches rewritten (th_buf demo_tar) (th_buf r) /\
      pointers (th_buf r) =
        (option_map padded (wanted demo_tar (gnu_longlink (th_buf demo_tar)) TAR_GNU),
         option_map padded (wanted demo_tar (gnu_longname (th_buf demo_tar)) TAR_GNU),
         wanted demo_tar (selinux_context (th_buf demo_tar)) TAR_STORE_SELINUX).
Proof.
  apply (@th_write_read arm32 always 5 demo_tar 0).
  - reflexivity.
  - exact demo_ready.
  - split; [split; [discriminate|reflexivity]|]. change (type_of (th_buf demo_tar)) with REGTYPE. cbn. intuition discriminate.
  - discriminate.
  - discriminate.
  - intros buf E. injection E as <-. exists (repeat 97 150). split; [reflexivity|].
    split; [now apply Forall_repeat|]. split; [cbn; lia|reflexivity].
  - intros buf E. injection E as <-. exists [117; 58; 114]. split; [reflexivity|].
    repeat split; try (cbn; lia); repeat constructor; discriminate.
Defined.

Lemma long_name_read h s :
  chars s -> (0 < length s)%nat ->
  th_get_pathname (set_longname h (Some (padded (strdup s)))) =
  if (length s mod T_BLOCKSIZE =? 0)%nat then Fault else Ret s.
Proof.
  intros Cs Hs. cbn [th_get_pathname set_longname gnu_longname]. rewrite padded_strdup. unfold count.
  pose proof (Nat.div_mod (length s) T_BLOCKSIZE ltac:(discriminate)) as Ed.
  destruct (Nat.eqb_spec (length s mod T_BLOCKSIZE) 0) as [E|E].
  - rewrite Nat.add_0_r, strncpy_full by lia. clear Ed Hs E. induction Cs as [|c s Hc Cs IH]; [reflexivity|].
    cbn [c_string]. unfold is_nul. destruct (Z.eqb_spec c 0); [contradiction|]. now rewrite IH.
  - pose proof (Nat.mod_upper_bound (length s) T_BLOCKSIZE ltac:(discriminate)) as Hm.
    set (k := (T_BLOCKSIZE * (length s / T_BLOCKSIZE + 1))%nat). assert (Hk : (length s < k)%nat) by (unfold k; lia).
    unfold strncpy. rewrite firstn_app, firstn_all2 by lia.
    replace (k - length s)%nat with (S (k - length s - 1)) by lia. replace k with (S (k - 1)) at 2 by lia.
    cbn [repeat firstn]. now apply c_string_chars.
Qed.

(** A long name read from an archive is a C string exactly when its length is
    not a multiple of the block size: otherwise the blocks leave no room for the
    terminator, and [th_get_pathname] reads beyond the buffer. *)
Theorem long_name_termination h s :
  chars s -> (0 < length s)%nat ->
  th_get_pathname (set_longname h (Some (padded (strdup s)))) =
  if (length s mod T_BLOCKSIZE =? 0)%nat then Fault else Ret s.
Proof. apply long_name_read. Qed.

Lemma long_name_termination_witness :
  th_get_pathname (set_longname empty_header (Some (padded (strdup (repeat 97 512))))) =
  if (length (repeat 97 512) mod T_BLOCKSIZE =? 0)%nat then Fault else Ret (repeat 97 512).
Proof. apply (long_name_termination empty_header (repeat 97 512)); [now apply Forall_repeat|rewrite repeat_length; lia]. Defined.
