(* ===== verification/LinkedList.v ===== *)
(** Doubly linked lists: src/libtar/listhash/libtar_list.c.

    Nodes live in a store of addresses, which the operations read and write through
    pointers; following a null or a freed pointer, or freeing twice, is a [Fault].
    The structure that holds the ends of a list is a value that the operations take
    and return.  Walks along a list take fuel, one unit per node and one for the end.

    [rep m L l] is the abstraction: in the store [m] the structure [L] holds the nodes
    and data [l], in this order. *)
From Stdlib Require Import Sorting.Sorted.
From stdpp Require Import gmap list.
From S2P Require Import Prelude CString.

(** * Nodes and lists *)

Abbreviation ptr := (option nat).

Record node (A : Type) := Node { data : A; next : ptr; prev : ptr }.
Arguments Node {A}. Arguments data {A}. Arguments next {A}. Arguments prev {A}.

Abbreviation store A := (gmap nat (node A)).

Record libtar_list (A : Type) := mkList { first : ptr; last : ptr; cmpfunc : A -> A -> Z; flags : Z; nents : Z }.
Arguments mkList {A}. Arguments first {A}. Arguments last {A}. Arguments cmpfunc {A}. Arguments flags {A}.
Arguments nents {A}.

Definition LIST_USERFUNC : Z := 0.
Definition LIST_STACK : Z := 1.
Definition LIST_QUEUE : Z := 2.

(** [malloc] of a node (an address that is not in use, or none; what the memory
    holds is arbitrary) and whether [calloc] of a structure succeeds. *)
Class Allocator (A : Type) := {
  malloc : store A -> ptr;
  garbage : store A -> ptr;
  calloc_ok : store A -> bool;
  malloc_fresh m a : malloc m = Some a -> m !! a = None
}.

(** [strcmp] on what two data pointers refer to: the default comparison. *)
Class StrCmp (K A : Type) := { strcmp : K -> A -> Z }.

Section List.
Context {A : Type} `{Allocator A} `{StrCmp A A}.

Definition set_ends (l : libtar_list A) (f e : ptr) : libtar_list A := mkList f e (cmpfunc l) (flags l) (nents l).
Definition set_nents (l : libtar_list A) (n : Z) : libtar_list A := mkList (first l) (last l) (cmpfunc l) (flags l) n.

Definition deref (m : store A) (p : ptr) : outcome (node A) :=
  match p with
  | None => Fault
  | Some a => match m !! a with None => Fault | Some n => Ret n end
  end.

Definition update (m : store A) (p : ptr) (f : node A -> node A) : outcome (store A) :=
  match p with
  | None => Fault
  | Some a => match m !! a with None => Fault | Some n => Ret (<[a := f n]> m) end
  end.

(** [p->next = q] and [p->prev = q] *)
Definition set_next (m : store A) (p q : ptr) : outcome (store A) := update m p (fun n => Node (data n) q (prev n)).
Definition set_prev (m : store A) (p q : ptr) : outcome (store A) := update m p (fun n => Node (data n) (next n) q).

Definition free (m : store A) (a : nat) : outcome (store A) :=
  match m !! a with None => Fault | Some _ => Ret (delete a m) end.

Definition libtar_listptr_reset : ptr := None.
Definition libtar_listptr_data (m : store A) (lp : ptr) : outcome A := let! n := deref m lp in Ret (data n).

(** [None] is the null pointer; the structure is written to without a test whether
    there was memory for it. *)
Definition libtar_list_new (m : store A) (flags : Z) (cmpfunc : option (A -> A -> Z)) : outcome (option (libtar_list A)) :=
  if negb (flags =? LIST_USERFUNC) && negb (flags =? LIST_STACK) && negb (flags =? LIST_QUEUE) then Ret None
  else if calloc_ok m
  then Ret (Some (mkList None None (match cmpfunc with Some f => f | None => strcmp end) flags 0))
  else Fault.

Fixpoint iterate_from {S : Type} (fuel : nat) (m : store A) (n : ptr) (plugin : A -> S -> Z * S) (state : S) : M (Z * S) :=
  match fuel with
  | O => None
  | Datatypes.S fuel =>
      match n with
      | None => ret (0, state)
      | Some _ =>
          do! nd := lift (deref m n) in
          let '(r, state) := plugin (data nd) state in
          if r =? -1 then ret (-1, state) else iterate_from fuel m (next nd) plugin state
      end
  end.

Definition libtar_list_iterate {S : Type} (fuel : nat) (m : store A) (l : option (libtar_list A))
    (plugin : A -> S -> Z * S) (state : S) : M (Z * S) :=
  match l with
  | None => ret (-1, state)
  | Some l => iterate_from fuel m (first l) plugin state
  end.

(** [freefunc] acts on a state of its own. *)
Definition release {S : Type} (freefunc : option (A -> S -> S)) (x : A) (s : S) : S :=
  match freefunc with None => s | Some f => f x s end.

Fixpoint empty_loop {S : Type} (fuel : nat) (m : store A) (l : libtar_list A) (freefunc : option (A -> S -> S)) (s : S)
    : M (store A * libtar_list A * S) :=
  match fuel with
  | O => None
  | Datatypes.S fuel =>
      match first l with
      | None => ret (m, l, s)
      | Some a =>
          do! n := lift (deref m (Some a)) in
          let l := set_ends l (next n) (last l) in
          let s := release freefunc (data n) s in
          do! m := lift (free m a) in
          empty_loop fuel m l freefunc s
      end
  end.

Definition libtar_list_empty {S : Type} (fuel : nat) (m : store A) (l : libtar_list A) (freefunc : option (A -> S -> S)) (s : S)
    : M (store A * libtar_list A * S) :=
  do! r := empty_loop fuel m l freefunc s in
  let '(m, l, s) := r in ret (m, set_nents l 0, s).

Definition libtar_list_free {S : Type} (fuel : nat) (m : store A) (l : libtar_list A) (freefunc : option (A -> S -> S)) (s : S)
    : M (store A * S) :=
  do! r := libtar_list_empty fuel m l freefunc s in
  let '(m, _, s) := r in ret (m, s).

Definition libtar_list_nents (l : libtar_list A) : Z := nents l.

(** The first node whose data is bigger. *)
Fixpoint find_bigger (fuel : nat) (m : store A) (cmp : A -> A -> Z) (x : A) (p : ptr) : M ptr :=
  match fuel with
  | O => None
  | S fuel =>
      match p with
      | None => ret None
      | Some _ =>
          do! n := lift (deref m p) in
          if cmp x (data n) <? 0 then ret p else find_bigger fuel m cmp x (next n)
      end
  end.

(** Insertion of the node [n] before the node [p], which is first or not. *)
Definition insert_before (m : store A) (l : libtar_list A) (n p : ptr) : outcome (store A * libtar_list A) :=
  if decide (p = first l) then
    let! m := set_prev m n None in
    let! m := set_prev m p n in
    let! m := set_next m n p in
    Ret (m, set_ends l n (last l))
  else
    let! nd := deref m p in
    let! m := set_next m (prev nd) n in
    let! m := set_prev m n (prev nd) in
    let! m := set_prev m p n in
    let! m := set_next m n p in
    Ret (m, l).

Definition add_stack (m : store A) (l : libtar_list A) (n : ptr) : outcome (store A * libtar_list A) :=
  let! m := set_prev m n None in
  let! m := set_next m n (first l) in
  let! m := match first l with None => Ret m | Some _ => set_prev m (first l) n end in
  Ret (m, set_ends l n (last l)).

Definition add_queue (m : store A) (l : libtar_list A) (n : ptr) : outcome (store A * libtar_list A) :=
  let! m := set_prev m n (last l) in
  let! m := set_next m n None in
  let! m := match last l with None => Ret m | Some _ => set_next m (last l) n end in
  Ret (m, set_ends l (first l) n).

Definition add_end (m : store A) (l : libtar_list A) (n : ptr) : outcome (store A * libtar_list A) :=
  let! m := set_next m (last l) n in
  let! m := set_prev m n (last l) in
  let! m := set_next m n None in
  Ret (m, set_ends l (first l) n).

Definition libtar_list_add (fuel : nat) (m : store A) (l : libtar_list A) (x : A) : M (Z * store A * libtar_list A) :=
  match malloc m with
  | None => ret (-1, m, l)
  | Some a =>
      let n := Some a in
      let m := <[a := Node x (garbage m) (garbage m)]> m in
      let l := set_nents l (u32 (nents l + 1)) in
      do! r :=
        match first l with
        | None =>
            lift (let l := set_ends l n n in
                  let! m := set_prev m n None in let! m := set_next m n None in Ret (m, l))
        | Some _ =>
            if flags l =? LIST_STACK then lift (add_stack m l n)
            else if flags l =? LIST_QUEUE then lift (add_queue m l n)
            else
              do! p := find_bigger fuel m (cmpfunc l) x (first l) in
              lift (match p with None => add_end m l n | Some _ => insert_before m l n p end)
        end in
      let '(m, l) := r in ret (0, m, l)
  end.

(** The node before, or the start of the list, gets the node after, and conversely. *)
Definition del_forward (m : store A) (l : libtar_list A) (nd : node A) : outcome (store A * libtar_list A) :=
  match prev nd with
  | Some _ => let! m := set_next m (prev nd) (next nd) in Ret (m, l)
  | None => Ret (m, set_ends l (next nd) (last l))
  end.
Definition del_backward (m : store A) (l : libtar_list A) (nd : node A) : outcome (store A * libtar_list A) :=
  match next nd with
  | Some _ => let! m := set_prev m (next nd) (prev nd) in Ret (m, l)
  | None => Ret (m, set_ends l (first l) (prev nd))
  end.

(** The store, the list and the pointer afterwards. *)
Definition libtar_list_del (m : store A) (l : libtar_list A) (n : ptr) : outcome (store A * libtar_list A * ptr) :=
  let l := set_nents l (u32 (nents l - 1)) in
  let! nd := deref m n in
  let! r := del_forward m l nd in
  let '(m, l) := r in
  let! r := del_backward m l nd in
  let '(m, l) := r in
  match n with
  | None => Fault
  | Some a => let! m := free m a in Ret (m, l, next nd)
  end.

Definition libtar_list_next (m : store A) (l : libtar_list A) (n : ptr) : outcome (Z * ptr) :=
  let! n := match n with
            | None => Ret (first l)
            | Some _ => let! nd := deref m n in Ret (next nd)
            end in
  Ret (match n with None => 0 | Some _ => 1 end, n).

Definition libtar_list_prev (m : store A) (l : libtar_list A) (n : ptr) : outcome (Z * ptr) :=
  let! n := match n with
            | None => Ret (last l)
            | Some _ => let! nd := deref m n in Ret (prev nd)
            end in
  Ret (match n with None => 0 | Some _ => 1 end, n).

Definition libtar_str_match {K : Type} `{StrCmp K A} (check : K) (x : A) : Z := if strcmp check x =? 0 then 1 else 0.

Fixpoint search_from {K : Type} (fuel : nat) (m : store A) (n : ptr) (key : K) (matchfunc : K -> A -> Z) : M (Z * ptr) :=
  match fuel with
  | O => None
  | S fuel =>
      match n with
      | None => ret (0, None)
      | Some _ =>
          do! nd := lift (deref m n) in
          if negb (matchfunc key (data nd) =? 0) then ret (1, n) else search_from fuel m (next nd) key matchfunc
      end
  end.

Definition libtar_list_search {K : Type} `{StrCmp K A} (fuel : nat) (m : store A) (l : libtar_list A) (n : ptr) (key : K)
    (matchfunc : option (K -> A -> Z)) : M (Z * ptr) :=
  let matchfunc := match matchfunc with Some f => f | None => libtar_str_match end in
  do! n := lift (match n with
                 | None => Ret (first l)
                 | Some _ => let! nd := deref m n in Ret (next nd)
                 end) in
  search_from fuel m n key matchfunc.

(** [libtar_list_add] through a pointer that may be null. *)
Definition add_to (fuel : nat) (m : store A) (l : option (libtar_list A)) (x : A) : M (Z * store A * option (libtar_list A)) :=
  match l with
  | None => match malloc m with None => ret (-1, m, None) | Some _ => lift Fault end
  | Some l => do! r := libtar_list_add fuel m l x in let '(i, m, l) := r in ret (i, m, Some l)
  end.

(** The data from a node on, added to another list; what [libtar_list_add] returns
    is not looked at. *)
Fixpoint add_all (fuel steps : nat) (m : store A) (n : ptr) (newlist : option (libtar_list A))
    : M (store A * option (libtar_list A)) :=
  match steps with
  | O => None
  | S steps =>
      match n with
      | None => ret (m, newlist)
      | Some _ =>
          do! nd := lift (deref m n) in
          do! r := add_to fuel m newlist (data nd) in
          let '(_, m, newlist) := r in
          do! nd := lift (deref m n) in
          add_all fuel steps m (next nd) newlist
      end
  end.

Definition libtar_list_dup (fuel : nat) (m : store A) (l : libtar_list A) : M (store A * option (libtar_list A)) :=
  do! newlist := lift (libtar_list_new m (flags l) (Some (cmpfunc l))) in
  add_all fuel fuel m (first l) newlist.

Definition libtar_list_merge (fuel : nat) (m : store A) (cmpfunc : option (A -> A -> Z)) (flags : Z)
    (list1 list2 : libtar_list A) : M (store A * option (libtar_list A)) :=
  do! newlist := lift (libtar_list_new m flags cmpfunc) in
  do! r := add_all fuel fuel m (first list1) newlist in
  let '(m, newlist) := r in
  add_all fuel fuel m (first list2) newlist.
End List.

(** A list of strings: the tokens of a string, copied to a buffer first, that are not
    empty.  (There is memory for the copies of the tokens.) *)
Section Strings.
Context `{Allocator (list Z)}.

Fixpoint add_tokens (fuel steps : nat) (m : store (list Z)) (l : libtar_list (list Z)) (nextp : option (list Z)) (delim : list Z)
    : M (Z * store (list Z) * libtar_list (list Z)) :=
  match steps with
  | O => None
  | S steps =>
      match nextp with
      | None => ret (0, m, l)
      | Some s =>
          let '(tokp, nextp) := strsep s delim in
          match tokp with
          | [] => add_tokens fuel steps m l nextp delim
          | _ =>
              do! r := libtar_list_add fuel m l tokp in
              let '(i, m, l) := r in
              if negb (i =? 0) then ret (-1, m, l) else add_tokens fuel steps m l nextp delim
          end
      end
  end.

Definition libtar_list_add_str (fuel : nat) (m : store (list Z)) (l : libtar_list (list Z)) (str delim : list Z)
    : M (Z * store (list Z) * libtar_list (list Z)) :=
  let tmp := c_string_n 10240 (strlcpy str 10240).1 in
  add_tokens fuel fuel m l (Some tmp) delim.
End Strings.

(** * What a list represents *)

Section Rep.
Context {A : Type}.
Implicit Types (m : store A) (l : list (nat * A)) (L : libtar_list A).

(** The address of the first node, or what follows; of the last one, or what precedes. *)
Definition hd_ptr l (q : ptr) : ptr := match l with [] => q | (a, _) :: _ => Some a end.
Fixpoint end_ptr (p : ptr) l : ptr := match l with [] => p | (a, _) :: l => end_ptr (Some a) l end.

(** The nodes [l], linked in both directions, between [p] and [q]. *)
Fixpoint seg m (p : ptr) l (q : ptr) : Prop :=
  match l with
  | [] => True
  | (a, x) :: l => m !! a = Some (Node x (hd_ptr l q) p) /\ seg m (Some a) l q
  end.

Record rep m L l : Prop := {
  rep_seg : seg m None l None;
  rep_nodup : NoDup l.*1;
  rep_first : first L = hd_ptr l None;
  rep_last : l <> [] -> last L = end_ptr None l;
  rep_nents : nents L = u32 (Z.of_nat (length l))
}.

Lemma hd_ptr_app l1 l2 q : hd_ptr (l1 ++ l2) q = hd_ptr l1 (hd_ptr l2 q).
Proof. by destruct l1 as [|[]]. Qed.

Lemma end_ptr_app l1 l2 p : end_ptr p (l1 ++ l2) = end_ptr (end_ptr p l1) l2.
Proof. revert p. induction l1 as [|[a x] l1 IH]; intros p; [done|]. apply IH. Qed.

Lemma seg_app m l1 l2 p q :
  seg m p (l1 ++ l2) q <-> seg m p l1 (hd_ptr l2 q) /\ seg m (end_ptr p l1) l2 q.
Proof.
  revert p. induction l1 as [|[a x] l1 IH]; intros p; simpl; [tauto|].
  rewrite hd_ptr_app, IH. tauto.
Qed.

Lemma seg_frame m m' l p q :
  (forall a, a ∈ l.*1 -> m' !! a = m !! a) -> seg m p l q -> seg m' p l q.
Proof.
  revert p. induction l as [|[a x] l IH]; intros p Hm; [done|]. intros [Ha Hs]. split.
  - rewrite Hm; [done|]. simpl. set_solver.
  - apply IH; [|done]. intros b Hb. apply Hm. simpl. set_solver.
Qed.

Lemma seg_lookup m p l q a x l2 : seg m p (l ++ (a, x) :: l2) q -> m !! a = Some (Node x (hd_ptr l2 q) (end_ptr p l)).
Proof. intros [_ Hs]%seg_app. apply Hs. Qed.

Lemma seg_dom m p l q a : seg m p l q -> a ∈ l.*1 -> is_Some (m !! a).
Proof.
  revert p. induction l as [|[b y] l IH]; simpl; intros p; [set_solver|].
  intros [Hb Hs] [->|Ha]%elem_of_cons; eauto.
Qed.

Lemma end_ptr_in p l : l <> [] -> exists a, end_ptr p l = Some a /\ a ∈ l.*1.
Proof.
  revert p. induction l as [|[a x] [|y l] IH]; intros p Hl; [done| |].
  - exists a. simpl. split; [done|set_solver].
  - destruct (IH (Some a)) as (b & Hb & Hin); [done|]. exists b. simpl in *. split; [done|set_solver].
Qed.

(** ** Changing one link *)

Definition anext (p q : ptr) m : store A :=
  match p with None => m | Some a => alter (fun n => Node (data n) q (prev n)) a m end.
Definition aprev (p q : ptr) m : store A :=
  match p with None => m | Some a => alter (fun n => Node (data n) (next n) q) a m end.

Lemma anext_ne p q m b : p <> Some b -> anext p q m !! b = m !! b.
Proof. destruct p as [a|]; [|done]. intros Hb. apply lookup_alter_ne. congruence. Qed.

Lemma aprev_ne p q m b : p <> Some b -> aprev p q m !! b = m !! b.
Proof. destruct p as [a|]; [|done]. intros Hb. apply lookup_alter_ne. congruence. Qed.

Lemma seg_anext m l q v : NoDup l.*1 -> seg m None l q -> seg (anext (end_ptr None l) v m) None l v.
Proof.
  destruct l as [|[a x] l _] using rev_ind; [done|]. rewrite fmap_app, NoDup_app. simpl. intros (_ & Ha & _).
  rewrite end_ptr_app. intros [Hs [Hl _]]%seg_app. simpl in *. apply seg_app. split; simpl.
  - apply (seg_frame m); [|done]. intros b Hb. apply lookup_alter_ne. intros ->. apply (Ha b Hb). set_solver.
  - rewrite lookup_alter_eq, Hl. done.
Qed.

Lemma seg_aprev m p l v : NoDup l.*1 -> seg m p l None -> seg (aprev (hd_ptr l None) v m) v l None.
Proof.
  destruct l as [|[a x] l]; [done|]. simpl. intros [Ha _]%NoDup_cons [Hl Hs]. split.
  - rewrite lookup_alter_eq, Hl. done.
  - apply (seg_frame m); [|done]. intros b Hb. apply lookup_alter_ne. by intros ->.
Qed.

(** ** Linking and unlinking a node *)

Definition linked m l1 l2 (a : nat) (x : A) : store A :=
  anext (end_ptr None l1) (Some a)
    (aprev (hd_ptr l2 None) (Some a) (<[a := Node x (hd_ptr l2 None) (end_ptr None l1)]> m)).

Definition unlinked m l1 l2 (a : nat) : store A :=
  delete a (aprev (hd_ptr l2 None) (end_ptr None l1) (anext (end_ptr None l1) (hd_ptr l2 None) m)).

Lemma end_ptr_notin l (a : nat) : a ∉ l.*1 -> end_ptr None l <> Some a.
Proof.
  destruct l as [|y l']; [done|]. intros Ha He.
  destruct (end_ptr_in None (y :: l')) as (b & Hb & Hin); [done|]. congruence.
Qed.

Lemma hd_ptr_notin l (a : nat) : a ∉ l.*1 -> hd_ptr l None <> Some a.
Proof. destruct l as [|[b y] l]; [done|]. simpl. intros Ha [= ->]. set_solver. Qed.

#[local] Hint Resolve end_ptr_notin hd_ptr_notin : core.

Lemma link_other m l1 l2 a x b : b ∉ a :: (l1 ++ l2).*1 -> linked m l1 l2 a x !! b = m !! b.
Proof.
  rewrite not_elem_of_cons, fmap_app, not_elem_of_app. intros (Hab & H1 & H2). unfold linked.
  rewrite anext_ne, aprev_ne by auto. apply lookup_insert_ne. done.
Qed.

Lemma unlink_other m l1 l2 a b : b ∉ a :: (l1 ++ l2).*1 -> unlinked m l1 l2 a !! b = m !! b.
Proof.
  rewrite not_elem_of_cons, fmap_app, not_elem_of_app. intros (Hab & H1 & H2). unfold unlinked.
  rewrite lookup_delete_ne, aprev_ne, anext_ne by auto. done.
Qed.

Lemma link_seg m l1 l2 a x :
  NoDup (l1 ++ l2).*1 -> a ∉ (l1 ++ l2).*1 -> seg m None (l1 ++ l2) None ->
  seg (linked m l1 l2 a x) None (l1 ++ (a, x) :: l2) None.
Proof.
  rewrite fmap_app, NoDup_app, not_elem_of_app. intros (N1 & Hd & N2) [Ha1 Ha2] [S1 S2]%seg_app. apply seg_app.
  unfold linked. split; [|split].
  - apply (seg_anext _ _ (hd_ptr l2 None)); [done|]. apply (seg_frame m); [|done]. intros b Hb.
    rewrite aprev_ne by (apply hd_ptr_notin; set_solver). apply lookup_insert_ne. set_solver.
  - rewrite anext_ne, aprev_ne by auto. apply lookup_insert_eq.
  - apply (seg_frame (aprev (hd_ptr l2 None) (Some a) m)); [|by eapply seg_aprev]. intros b Hb.
    rewrite anext_ne by (apply end_ptr_notin; set_solver).
    destruct (hd_ptr l2 None) as [c|]; simpl; [|apply lookup_insert_ne; set_solver].
    rewrite !lookup_alter. case_decide; [f_equal|]; apply lookup_insert_ne; set_solver.
Qed.

Lemma unlink_seg m l1 l2 a x :
  NoDup (l1 ++ (a, x) :: l2).*1 -> seg m None (l1 ++ (a, x) :: l2) None ->
  seg (unlinked m l1 l2 a) None (l1 ++ l2) None.
Proof.
  rewrite fmap_app, NoDup_app. simpl. intros (N1 & Hd & [Ha N2]%NoDup_cons) [S1 [_ S2]]%seg_app. apply seg_app.
  unfold unlinked. split.
  - apply (seg_frame (anext (end_ptr None l1) (hd_ptr l2 None) m)); [|by eapply seg_anext]. intros b Hb.
    rewrite lookup_delete_ne by set_solver. apply aprev_ne, hd_ptr_notin. set_solver.
  - apply (seg_frame (aprev (hd_ptr l2 None) (end_ptr None l1) m)); [|by eapply seg_aprev]. intros b Hb.
    rewrite lookup_delete_ne by set_solver. destruct (hd_ptr l2 None) as [c|] eqn:Hc; simpl.
    + rewrite !lookup_alter. case_decide; [f_equal|]; apply anext_ne, end_ptr_notin; set_solver.
    + apply anext_ne, end_ptr_notin; set_solver.
Qed.
End Rep.

(** * The operations on represented lists *)

Section Operations.
Context {A : Type} `{Allocator A} `{StrCmp A A}.
Implicit Types (m : store A) (l : list (nat * A)) (L : libtar_list A).

Lemma deref_seg m p l q a x l2 :
  seg m p (l ++ (a, x) :: l2) q -> deref m (Some a) = Ret (Node x (hd_ptr l2 q) (end_ptr p l)).
Proof. intros Hs. unfold deref. by rewrite (seg_lookup _ _ _ _ _ _ _ Hs). Qed.

Lemma update_ret m a f : is_Some (m !! a) -> update m (Some a) f = Ret (alter f a m).
Proof.
  intros [n Hn]. unfold update. rewrite Hn. f_equal. apply map_eq. intros b.
  rewrite lookup_insert, lookup_alter. case_decide; subst; [by rewrite Hn|done].
Qed.

(** A pointer that can be followed. *)
Definition live m (p : ptr) : Prop := match p with None => False | Some a => is_Some (m !! a) end.

Lemma set_next_ret m p q : live m p -> set_next m p q = Ret (anext p q m).
Proof. destruct p as [a|]; [|done]. apply update_ret. Qed.

Lemma set_prev_ret m p q : live m p -> set_prev m p q = Ret (aprev p q m).
Proof. destruct p as [a|]; [|done]. apply update_ret. Qed.

(** Setting the links of the new node, which is not in the list. *)
Lemma set_next_new m a n q : set_next (<[a := n]> m) (Some a) q = Ret (<[a := Node (data n) q (prev n)]> m).
Proof. unfold set_next, update. by rewrite lookup_insert_eq, insert_insert_eq. Qed.

Lemma set_prev_new m a n q : set_prev (<[a := n]> m) (Some a) q = Ret (<[a := Node (data n) (next n) q]> m).
Proof. unfold set_prev, update. by rewrite lookup_insert_eq, insert_insert_eq. Qed.

Lemma anext_insert p q m a n : p <> Some a -> anext p q (<[a := n]> m) = <[a := n]> (anext p q m).
Proof. destruct p as [b|]; [|done]. intros Hp. apply alter_insert_ne. congruence. Qed.

Lemma aprev_insert p q m a n : p <> Some a -> aprev p q (<[a := n]> m) = <[a := n]> (aprev p q m).
Proof. destruct p as [b|]; [|done]. intros Hp. apply alter_insert_ne. congruence. Qed.

Lemma anext_aprev p q p' q' m : anext p q (aprev p' q' m) = aprev p' q' (anext p q m).
Proof.
  destruct p as [a|], p' as [b|]; try done. apply map_eq. intros c. simpl. rewrite !lookup_alter.
  repeat (case_decide; simplify_eq); try done. by destruct (m !! _).
Qed.

Lemma aprev_some p q m a : live m (Some a) -> live (aprev p q m) (Some a).
Proof. destruct p as [b|]; [|done]. simpl. rewrite lookup_alter. case_decide; [|done]. subst. intros [n Hn]. rewrite Hn. by eexists. Qed.

Lemma anext_some p q m a : live m (Some a) -> live (anext p q m) (Some a).
Proof. destruct p as [b|]; [|done]. simpl. rewrite lookup_alter. case_decide; [|done]. subst. intros [n Hn]. rewrite Hn. by eexists. Qed.

(** An end of a list that is not empty can be written to. *)
Lemma end_some m l p q : l <> [] -> seg m p l q -> live m (end_ptr p l).
Proof. unfold live. intros Hl Hs. destruct (end_ptr_in p l Hl) as (a & Ha & Hin). rewrite Ha. by eapply seg_dom. Qed.

Lemma hd_some m l p q : l <> [] -> seg m p l q -> live m (hd_ptr l q).
Proof. destruct l as [|[a x] l]; [done|]. intros _ [Ha _]. by eexists. Qed.

Lemma insert_some m a n p : live m p -> live (<[a := n]> m) p.
Proof. unfold live. destruct p as [b|]; [|done]. rewrite lookup_insert. case_decide; [by eexists|done]. Qed.

(** ** Adding *)

#[local] Arguments set_next : simpl never.
#[local] Arguments set_prev : simpl never.

Lemma add_stack_link m L l a x g :
  a ∉ l.*1 -> l <> [] -> seg m None l None -> first L = hd_ptr l None ->
  add_stack (<[a := Node x g g]> m) L (Some a) = Ret (linked m [] l a x, set_ends L (Some a) (last L)).
Proof.
  intros Ha Hl Hs Hf. unfold add_stack, linked. rewrite set_prev_new. simpl. rewrite set_next_new. simpl.
  rewrite Hf. pose proof (hd_some m l None None Hl Hs) as Hh. destruct (hd_ptr l None) as [b|] eqn:Hb; [|done].
  rewrite set_prev_ret by by apply insert_some. done.
Qed.

Lemma add_queue_link m L l a x g :
  a ∉ l.*1 -> l <> [] -> seg m None l None -> last L = end_ptr None l ->
  add_queue (<[a := Node x g g]> m) L (Some a) = Ret (linked m l [] a x, set_ends L (first L) (Some a)).
Proof.
  intros Ha Hl Hs Hf. unfold add_queue, linked. rewrite set_prev_new. simpl. rewrite set_next_new. simpl.
  rewrite Hf. pose proof (end_some m l None None Hl Hs) as Hh. destruct (end_ptr None l) as [b|] eqn:Hb; [|done].
  rewrite set_next_ret by by apply insert_some. done.
Qed.

Lemma add_end_link m L l a x g :
  a ∉ l.*1 -> l <> [] -> seg m None l None -> last L = end_ptr None l ->
  add_end (<[a := Node x g g]> m) L (Some a) = Ret (linked m l [] a x, set_ends L (first L) (Some a)).
Proof.
  intros Ha Hl Hs Hf. unfold add_end, linked. simpl. rewrite Hf. pose proof (end_some m l None None Hl Hs) as Hh.
  pose proof (end_ptr_notin l a Ha) as Hn.
  rewrite set_next_ret by by apply insert_some. simpl. rewrite anext_insert by done.
  rewrite set_prev_new. simpl. rewrite set_next_new. simpl. by rewrite anext_insert.
Qed.

Lemma insert_before_link m L l1 b y l2 a x g :
  let l := l1 ++ (b, y) :: l2 in
  NoDup l.*1 -> a ∉ l.*1 -> seg m None l None -> first L = hd_ptr l None ->
  insert_before (<[a := Node x g g]> m) L (Some a) (Some b)
  = Ret (linked m l1 ((b, y) :: l2) a x, set_ends L (hd_ptr l1 (Some a)) (last L)).
Proof.
  intros l Hn Ha Hs Hf. unfold l in *. rewrite fmap_app, not_elem_of_app in Ha. destruct Ha as [Ha1 Ha2].
  assert (Hab : a <> b) by (simpl in Ha2; set_solver).
  pose proof (deref_seg m _ _ _ _ _ _ Hs) as Hd. pose proof (seg_lookup _ _ _ _ _ _ _ Hs) as Hb.
  assert (Hsome : live m (Some b)) by by eexists.
  unfold insert_before. rewrite Hf, hd_ptr_app. unfold linked. destruct l1 as [|[c z] l1].
  - simpl. case_decide; [|done]. rewrite set_prev_new. simpl.
    rewrite set_prev_ret by by apply insert_some. simpl. rewrite alter_insert_ne by done.
    rewrite set_next_new. simpl. by rewrite alter_insert_ne.
  - simpl hd_ptr. case_decide as E; [exfalso; simplify_eq; rewrite fmap_app in Hn; apply NoDup_app in Hn; simpl in Hn; set_solver|].
    unfold deref at 1. rewrite lookup_insert_ne, Hb by done. simpl prev.
    set (e := end_ptr None ((c, z) :: l1)) in *. simpl bind.
    assert (He : e <> Some a) by by apply end_ptr_notin.
    assert (Hes : live m e).
    { apply seg_app in Hs as [S1 _]. by apply (end_some m _ None (hd_ptr ((b, y) :: l2) None)). }
    rewrite set_next_ret by by apply insert_some. simpl. rewrite anext_insert by done.
    rewrite set_prev_new. simpl. rewrite set_prev_ret by by apply insert_some, anext_some. simpl.
    rewrite alter_insert_ne by done. rewrite set_next_new. simpl.
    rewrite alter_insert_ne, anext_insert by done. f_equal. f_equal; [|by destruct L; simpl in *; subst].
    f_equal. symmetry. apply (anext_aprev _ _ (Some b) (Some a)).
Qed.

(** Where an element goes. *)
Fixpoint before_bigger (cmp : A -> A -> Z) (x : A) l : list (nat * A) :=
  match l with [] => [] | (a, y) :: l => if cmp x y <? 0 then [] else (a, y) :: before_bigger cmp x l end.
Fixpoint from_bigger (cmp : A -> A -> Z) (x : A) l : list (nat * A) :=
  match l with [] => [] | (a, y) :: l' => if cmp x y <? 0 then l else from_bigger cmp x l' end.

Lemma split_bigger cmp x l : before_bigger cmp x l ++ from_bigger cmp x l = l.
Proof. induction l as [|[a y] l IH]; [done|]. simpl. destruct (cmp x y <? 0); [done|]. simpl. by rewrite IH. Qed.

Lemma find_bigger_spec m cmp x l : forall fuel p,
  seg m p l None -> (length l < fuel)%nat ->
  find_bigger fuel m cmp x (hd_ptr l None) = ret (hd_ptr (from_bigger cmp x l) None).
Proof.
  induction l as [|[a y] l IH]; intros [|fuel] p Hs Hf; simpl in *; try lia; [done|].
  destruct Hs as [Ha Hs]. rewrite Ha. simpl. destruct (cmp x y <? 0); [done|]. eapply IH; [done|lia].
Qed.

Definition place (L : libtar_list A) (x : A) l : list (nat * A) * list (nat * A) :=
  if flags L =? LIST_STACK then ([], l)
  else if flags L =? LIST_QUEUE then (l, [])
  else (before_bigger (cmpfunc L) x l, from_bigger (cmpfunc L) x l).

Lemma place_app L x l : (place L x l).1 ++ (place L x l).2 = l.
Proof.
  unfold place. destruct (_ =? _); [done|]. destruct (_ =? _); simpl; [apply app_nil_r|apply split_bigger].
Qed.

Lemma fresh_notin m p l q a : malloc m = Some a -> seg m p l q -> a ∉ l.*1.
Proof. intros Hm Hs Ha. apply malloc_fresh in Hm. destruct (seg_dom _ _ _ _ _ Hs Ha) as [n Hn]. congruence. Qed.

(** The structure after an insertion. *)
Lemma link_rep m L L' l1 l2 a x :
  rep m L (l1 ++ l2) -> a ∉ (l1 ++ l2).*1 ->
  first L' = hd_ptr (l1 ++ (a, x) :: l2) None -> last L' = end_ptr None (l1 ++ (a, x) :: l2) ->
  nents L' = u32 (nents L + 1) ->
  rep (linked m l1 l2 a x) L' (l1 ++ (a, x) :: l2).
Proof.
  intros [Hs Hn Hf Hl He] Ha Hf' Hl' He'. split; try done.
  - by apply link_seg.
  - rewrite fmap_app in *. apply not_elem_of_app in Ha as [Ha1 Ha2]. apply NoDup_app in Hn as (N1 & Hd & N2).
    apply NoDup_app. simpl. split_and!; [done|set_solver|by apply NoDup_cons].
  - rewrite He', He. rewrite !length_app. simpl. unfold u32. rewrite Zplus_mod_idemp_l. f_equal. lia.
Qed.

Lemma list_add_spec fuel m L l x :
  rep m L l -> (length l < fuel)%nat ->
  match malloc m with
  | None => libtar_list_add fuel m L x = ret (-1, m, L)
  | Some a =>
      let '(l1, l2) := place L x l in
      exists L', libtar_list_add fuel m L x = ret (0, linked m l1 l2 a x, L') /\
        rep (linked m l1 l2 a x) L' (l1 ++ (a, x) :: l2) /\ flags L' = flags L /\ cmpfunc L' = cmpfunc L
  end.
Proof.
  intros Hr Hf. unfold libtar_list_add. destruct (malloc m) as [a|] eqn:Hm; [|done].
  pose proof (place_app L x l) as Hp. destruct (place L x l) as [l1 l2] eqn:Hpl. simpl in Hp.
  pose proof (fresh_notin m _ _ _ _ Hm (rep_seg _ _ _ Hr)) as Ha.
  assert (Hn : forall q r, nents (set_ends (set_nents L (u32 (nents L + 1))) q r) = u32 (nents L + 1)) by done.
  assert (Hset : forall L', L' = L' -> rep m L (l1 ++ l2)) by by rewrite Hp.
  specialize (Hset L eq_refl). destruct Hr as [Hs Hnd Hfi Hla He].
  simpl first. simpl flags. simpl cmpfunc. rewrite Hfi. destruct l as [|[b y] l'].
  { apply app_eq_nil in Hp as [-> ->]. simpl hd_ptr. cbv iota.
    rewrite set_prev_new. simpl. rewrite set_next_new. simpl. eexists. split; [done|].
    split_and!; [|done|done]. by apply (link_rep m L). }
  set (l := (b, y) :: l') in *. assert (Hne : l <> []) by done. specialize (Hla Hne).
  assert (Hhd : hd_ptr l None = Some b) by done. clearbody l. rewrite Hhd. cbv iota.
  unfold place in Hpl. destruct (flags L =? LIST_STACK).
  { injection Hpl as <- <-. rewrite add_stack_link with (l := l) by done. simpl. eexists. split; [done|].
    split_and!; [|done|done]. apply (link_rep m L); try done. simpl. rewrite Hla. by destruct l as [|[]]. }
  destruct (flags L =? LIST_QUEUE).
  { injection Hpl as <- <-. rewrite add_queue_link with (l := l) by done. simpl. eexists. split; [done|].
    split_and!; [|done|done].
    apply (link_rep m L); rewrite ?app_nil_r, ?hd_ptr_app, ?end_ptr_app, ?Hhd; try done. simpl. rewrite Hfi. by destruct l as [|[]]. }
  assert (Hs' : seg (<[a := Node x (garbage m) (garbage m)]> m) None l None).
  { apply (seg_frame m); [|done]. intros c Hc. apply lookup_insert_ne. set_solver. }
  rewrite <- Hhd, (find_bigger_spec _ (cmpfunc L) x l fuel None Hs' Hf). clear Hs'.
  injection Hpl as Hl1 Hl2. rewrite Hl2. simpl bindM at 1. destruct l2 as [|[c z] l2].
  { rewrite app_nil_r in Hp. rewrite Hp in *. simpl hd_ptr. cbv iota. rewrite add_end_link with (l := l) by done.
    simpl. eexists. split; [done|]. split_and!; [|done|done].
    apply (link_rep m L); rewrite ?app_nil_r, ?hd_ptr_app, ?end_ptr_app, ?Hhd; try done. simpl. rewrite Hfi. by destruct l as [|[]]. }
  simpl hd_ptr. cbv iota. rewrite insert_before_link with (y := z) (l1 := l1) (l2 := l2); rewrite ?Hp; try done.
  simpl. eexists. split; [done|]. split_and!; [|done|done]. apply (link_rep m L); rewrite ?Hp; try done.
  - by rewrite hd_ptr_app.
  - simpl. rewrite Hla, <- Hp, !end_ptr_app. done.
Qed.

(** ** Removing *)

Lemma del_forward_spec m L l1 a x l2 q :
  seg m None (l1 ++ (a, x) :: l2) None -> first L = hd_ptr (l1 ++ (a, x) :: l2) None ->
  del_forward m L (Node x q (end_ptr None l1)) = Ret (anext (end_ptr None l1) q m, set_ends L (hd_ptr l1 q) (last L)).
Proof.
  intros Hs Hf. unfold del_forward. cbn [prev next]. destruct l1 as [|[b y] l1]; [done|].
  apply seg_app in Hs as [S1 _]. pose proof (end_some m ((b, y) :: l1) None _ ltac:(done) S1) as Hlive.
  destruct (end_ptr None ((b, y) :: l1)) as [c|]; [|done]. rewrite set_next_ret by done. cbn [bind].
  simpl in Hf |- *. rewrite <- Hf. by destruct L.
Qed.

Lemma del_backward_spec m L l1 x l2 :
  live m (hd_ptr l2 None) \/ l2 = [] -> (l2 <> [] -> last L = end_ptr None (l1 ++ l2)) ->
  del_backward m L (Node x (hd_ptr l2 None) (end_ptr None l1))
  = Ret (aprev (hd_ptr l2 None) (end_ptr None l1) m, set_ends L (first L) (end_ptr None (l1 ++ l2))).
Proof.
  intros Hlive Hl. unfold del_backward. cbn [prev next]. destruct l2 as [|[b y] l2].
  - rewrite app_nil_r. done.
  - destruct Hlive as [Hlive|]; [|done]. rewrite set_prev_ret by done. rewrite <- Hl by done. by destruct L.
Qed.

Lemma live_anext p q m r : live m r -> live (anext p q m) r.
Proof. destruct r as [a|]; [|done]. apply anext_some. Qed.

Lemma live_aprev p q m r : live m r -> live (aprev p q m) r.
Proof. destruct r as [a|]; [|done]. apply aprev_some. Qed.

Lemma list_del_spec m L l1 a x l2 :
  rep m L (l1 ++ (a, x) :: l2) ->
  exists L', libtar_list_del m L (Some a) = Ret (unlinked m l1 l2 a, L', hd_ptr l2 None) /\
    rep (unlinked m l1 l2 a) L' (l1 ++ l2) /\ flags L' = flags L /\ cmpfunc L' = cmpfunc L.
Proof.
  intros [Hs Hn Hf Hl He]. specialize (Hl ltac:(by destruct l1)). unfold libtar_list_del.
  rewrite (deref_seg _ _ _ _ _ _ _ Hs). cbn [bind].
  rewrite (del_forward_spec _ _ _ a _ l2) by done. cbn [bind].
  rewrite del_backward_spec.
  2: { destruct l2 as [|[b y] l2]; [by right|left]. apply live_anext.
       apply seg_app in Hs as [_ [_ S2]]. by apply (hd_some m _ (Some a) None). }
  2: { intros Hne. simpl. rewrite Hl, !end_ptr_app. destruct l2 as [|[b y] l2]; done. }
  cbn [bind next]. unfold free.
  assert (Hlive : live (aprev (hd_ptr l2 None) (end_ptr None l1) (anext (end_ptr None l1) (hd_ptr l2 None) m)) (Some a)).
  { apply live_aprev, live_anext. eexists. by apply (seg_lookup _ _ _ _ _ _ _ Hs). }
  destruct Hlive as [nd Hnd]. rewrite Hnd. cbn [bind]. eexists. split; [done|]. split_and!; [|done|done]. split; try done.
  - by eapply unlink_seg.
  - rewrite fmap_app in *. apply NoDup_app in Hn as (N1 & Hd & N2). simpl in *. apply NoDup_cons in N2 as [_ N2].
    apply NoDup_app. split_and!; [done|set_solver|done].
  - simpl. by rewrite hd_ptr_app.
  - simpl. rewrite He, !length_app. simpl. unfold u32. rewrite Zminus_mod_idemp_l. f_equal. lia.
Qed.

(** ** Walking *)

(** [libtar_list_next] and [libtar_list_prev] step through the list, and start
    again after the end. *)
Lemma list_next_spec m L l1 a x l2 :
  rep m L (l1 ++ (a, x) :: l2) ->
  libtar_list_next m L (Some a) = Ret (match l2 with [] => 0 | _ => 1 end, hd_ptr l2 None) /\
  libtar_list_prev m L (Some a) = Ret (match l1 with [] => 0 | _ => 1 end, end_ptr None l1).
Proof.
  intros Hr. unfold libtar_list_next, libtar_list_prev.
  rewrite (deref_seg _ _ _ _ _ _ _ (rep_seg _ _ _ Hr)). cbn [bind next prev].
  split; [by destruct l2 as [|[]]|]. destruct l1 as [|y l1]; [done|].
  by destruct (end_ptr_in None (y :: l1)) as (b & -> & _).
Qed.

Lemma list_next_start m L l : rep m L l -> libtar_list_next m L None = Ret (match l with [] => 0 | _ => 1 end, hd_ptr l None).
Proof. intros Hr. unfold libtar_list_next. rewrite (rep_first _ _ _ Hr). by destruct l as [|[]]. Qed.

(** A pointer that walks the list: after the nodes [pre] comes the first of [post]. *)
Lemma list_next_after m L pre post : rep m L (pre ++ post) ->
  libtar_list_next m L (end_ptr None pre) = Ret (match post with [] => 0 | _ => 1 end, hd_ptr post None).
Proof.
  intros Hr. destruct pre as [|[a x] pre _] using rev_ind; [by apply list_next_start|]. rewrite end_ptr_app. simpl.
  rewrite <- app_assoc in Hr. by apply (list_next_spec m L pre a x post).
Qed.

Lemma list_data_at m L pre a x post : rep m L (pre ++ (a, x) :: post) -> libtar_listptr_data m (Some a) = Ret x.
Proof. intros Hr. unfold libtar_listptr_data. by rewrite (deref_seg _ _ _ _ _ _ _ (rep_seg _ _ _ Hr)). Qed.

Lemma list_prev_start m L l : rep m L l -> l <> [] -> libtar_list_prev m L None = Ret (1, end_ptr None l).
Proof.
  intros Hr Hl. unfold libtar_list_prev. rewrite (rep_last _ _ _ Hr Hl). by destruct (end_ptr_in None l Hl) as (b & -> & _).
Qed.

Fixpoint visit {S : Type} (plugin : A -> S -> Z * S) (xs : list A) (s : S) : Z * S :=
  match xs with
  | [] => (0, s)
  | x :: xs => let '(r, s) := plugin x s in if r =? -1 then (-1, s) else visit plugin xs s
  end.

Lemma iterate_from_spec {S : Type} m (plugin : A -> S -> Z * S) l : forall fuel p s,
  seg m p l None -> (length l < fuel)%nat ->
  iterate_from fuel m (hd_ptr l None) plugin s = ret (visit plugin l.*2 s).
Proof.
  induction l as [|[a x] l IH]; intros [|fuel] p s Hs Hf; simpl in *; try lia; [done|].
  destruct Hs as [Ha Hs]. rewrite Ha. simpl. destruct (plugin x s) as [r s']. destruct (r =? -1); [done|].
  eapply IH; [done|lia].
Qed.

(** The nodes from the first match on. *)
Fixpoint from_match {K : Type} (matchfunc : K -> A -> Z) (key : K) l : list (nat * A) :=
  match l with
  | [] => []
  | (a, x) :: l' => if negb (matchfunc key x =? 0) then l else from_match matchfunc key l'
  end.

Lemma search_from_spec {K : Type} m (matchfunc : K -> A -> Z) key l : forall fuel p,
  seg m p l None -> (length l < fuel)%nat ->
  search_from fuel m (hd_ptr l None) key matchfunc
  = ret (match from_match matchfunc key l with [] => 0 | _ => 1 end, hd_ptr (from_match matchfunc key l) None).
Proof.
  induction l as [|[a x] l IH]; intros [|fuel] p Hs Hf; simpl in *; try lia; [done|].
  destruct Hs as [Ha Hs]. rewrite Ha. simpl. destruct (negb _); [done|]. eapply IH; [done|lia].
Qed.

(** ** Emptying *)

Fixpoint remove_nodes l m : store A := match l with [] => m | (a, _) :: l => remove_nodes l (delete a m) end.

Lemma remove_nodes_lookup l : forall m b, remove_nodes l m !! b = if decide (b ∈ l.*1) then None else m !! b.
Proof.
  induction l as [|[a x] l IH]; intros m b; simpl; [done|]. rewrite IH, lookup_delete.
  repeat case_decide; set_solver.
Qed.

Lemma empty_loop_spec {S : Type} (freefunc : option (A -> S -> S)) l : forall fuel m L p s,
  NoDup l.*1 -> seg m p l None -> first L = hd_ptr l None -> (length l < fuel)%nat ->
  empty_loop fuel m L freefunc s
  = ret (remove_nodes l m, set_ends L None (last L), fold_left (fun s x => release freefunc x s) l.*2 s).
Proof.
  induction l as [|[a x] l IH]; intros [|fuel] m L p s Hn Hs Hfi Hf; simpl in *; try lia; rewrite Hfi.
  { destruct L; simpl in *; by subst. }
  destruct Hs as [Ha Hs]. apply NoDup_cons in Hn as [Hna Hn]. cbn [deref]. rewrite Ha. cbn [lift bindM]. unfold free.
  rewrite Ha. cbn [lift bindM]. rewrite (IH _ _ _ (Some a)); [done|done| |done|lia].
  apply (seg_frame m); [|done]. intros b Hb. apply lookup_delete_ne. by intros ->.
Qed.

(** ** The abstract list *)

(** Insertion before the first bigger element, and what a list does with a new one. *)
Fixpoint insert_data (cmp : A -> A -> Z) (x : A) (xs : list A) : list A :=
  match xs with [] => [x] | y :: ys => if cmp x y <? 0 then x :: xs else y :: insert_data cmp x ys end.

Definition add_data (fl : Z) (cmp : A -> A -> Z) (xs : list A) (x : A) : list A :=
  if fl =? LIST_STACK then x :: xs else if fl =? LIST_QUEUE then xs ++ [x] else insert_data cmp x xs.

Lemma place_data L x l a :
  ((place L x l).1 ++ (a, x) :: (place L x l).2).*2 = add_data (flags L) (cmpfunc L) l.*2 x.
Proof.
  unfold place, add_data. destruct (_ =? _); [done|]. destruct (_ =? _); simpl; [by rewrite fmap_app|].
  induction l as [|[b y] l IH]; [done|]. simpl. destruct (_ <? 0); [done|]. simpl. f_equal. apply IH.
Qed.

(** The nodes [k] of a list have become [k']: only new nodes were added, and nothing
    else in the store has changed. *)
Record grows m (k : list (nat * A)) m' (k' : list (nat * A)) : Prop := {
  grows_other b : b ∉ k'.*1 -> m' !! b = m !! b;
  grows_new b : b ∈ k'.*1 -> b ∈ k.*1 \/ m !! b = None;
  grows_old b : b ∈ k.*1 -> b ∈ k'.*1
}.

Lemma grows_refl m k : grows m k m k.
Proof. split; auto. Qed.

Lemma grows_trans m1 k1 m2 k2 m3 k3 : grows m1 k1 m2 k2 -> grows m2 k2 m3 k3 -> grows m1 k1 m3 k3.
Proof.
  intros [O1 N1 P1] [O2 N2 P2]. split; intros b Hb; [|..|auto].
  - rewrite O2 by done. apply O1. auto.
  - destruct (decide (b ∈ k2.*1)) as [Hk|Hk]; [auto|]. destruct (N2 b Hb) as [|Hm]; [done|]. right. rewrite <- O1; done.
Qed.

(** Another part of the store stays as it is. *)
Lemma grows_owned m k m' k' : grows m k m' k' ->
  (forall a, is_Some (m !! a) -> a ∈ k.*1) -> forall a, is_Some (m' !! a) -> a ∈ k'.*1.
Proof.
  intros Hg Ho a Ha. destruct (decide (a ∈ k'.*1)) as [|Hn]; [done|]. rewrite (grows_other _ _ _ _ Hg) in Ha by done.
  by apply (grows_old _ _ _ _ Hg), Ho.
Qed.

Lemma grows_seg m k m' k' l p q :
  grows m k m' k' -> seg m p l q -> l.*1 ## k.*1 -> seg m' p l q /\ l.*1 ## k'.*1.
Proof.
  intros [O N P] Hs Hd. assert (Hd' : l.*1 ## k'.*1).
  { intros b Hb Hk. destruct (N b Hk) as [|Hm]; [by apply (Hd b)|].
    destruct (seg_dom _ _ _ _ _ Hs Hb) as [n Hn]. congruence. }
  split; [|done]. apply (seg_frame m); [|done]. intros b Hb. apply O. intros Hk. by apply (Hd' b).
Qed.

Lemma grows_rep m k m' k' L l : grows m k m' k' -> rep m L l -> l.*1 ## k.*1 -> rep m' L l /\ l.*1 ## k'.*1.
Proof. intros Hg [Hs ? ? ? ?] Hd. destruct (grows_seg _ _ _ _ _ _ _ Hg Hs Hd). by split. Qed.

Lemma list_add_ok fuel m L l x :
  rep m L l -> (length l < fuel)%nat -> malloc m <> None ->
  exists m' L' l', libtar_list_add fuel m L x = ret (0, m', L') /\ rep m' L' l' /\
    l'.*2 = add_data (flags L) (cmpfunc L) l.*2 x /\ grows m l m' l' /\ length l' = S (length l) /\
    flags L' = flags L /\ cmpfunc L' = cmpfunc L.
Proof.
  intros Hr Hf Hm. pose proof (list_add_spec fuel m L l x Hr Hf) as Hs. destruct (malloc m) as [a|] eqn:Ha; [|done].
  pose proof (place_app L x l) as Hp. pose proof (place_data L x l a) as Hd. destruct (place L x l) as [l1 l2]. simpl in *.
  destruct Hs as (L' & Hadd & Hrep & Hfl & Hcmp). exists (linked m l1 l2 a x), L', (l1 ++ (a, x) :: l2).
  split_and!; try done; [|subst l; rewrite !length_app; simpl; lia].
  apply malloc_fresh in Ha. subst l. split; rewrite !fmap_app; simpl; intros b.
  - intros Hb. apply link_other. rewrite fmap_app. set_solver.
  - rewrite elem_of_app, elem_of_cons. intros [|[->|]]; set_solver.
  - set_solver.
Qed.

Lemma list_add_fails fuel m L l x :
  rep m L l -> (length l < fuel)%nat -> malloc m = None -> libtar_list_add fuel m L x = ret (-1, m, L).
Proof. intros Hr Hf Hm. pose proof (list_add_spec fuel m L l x Hr Hf) as Hs. by rewrite Hm in Hs. Qed.

(** Copying the data of one list into another one. *)
Lemma add_all_spec fuel : (forall m, malloc m <> None) -> forall l steps m p N k,
  seg m p l None -> rep m N k -> l.*1 ## k.*1 -> (length l < steps)%nat -> (length k + length l < fuel)%nat ->
  exists m' N' k', add_all fuel steps m (hd_ptr l None) (Some N) = ret (m', Some N') /\ rep m' N' k' /\
    k'.*2 = fold_left (add_data (flags N) (cmpfunc N)) l.*2 k.*2 /\ grows m k m' k' /\
    length k' = (length k + length l)%nat /\ flags N' = flags N /\ cmpfunc N' = cmpfunc N.
Proof.
  intros Hm l. induction l as [|[a x] l IH]; intros [|steps] m p N k Hs Hr Hd Hst Hf; simpl in *; try lia.
  { exists m, N, k. split_and!; try done; try lia; apply grows_refl. }
  destruct Hs as [Ha Hs]. rewrite Ha. simpl.
  destruct (list_add_ok fuel m N k x Hr ltac:(lia) (Hm m)) as (m1 & N1 & k1 & -> & Hr1 & Hk1 & Hg1 & Hl1 & Hf1 & Hc1). simpl.
  destruct (grows_seg m k m1 k1 ((a, x) :: l) p None Hg1) as [[Ha1 Hs1] Hd1]; [done|done|].
  rewrite Ha1. simpl in *.
  destruct (IH steps m1 (Some a) N1 k1) as (m2 & N2 & k2 & -> & Hr2 & Hk2 & Hg2 & Hl2 & Hf2 & Hc2);
    [done|done|set_solver|lia|lia|].
  exists m2, N2, k2. split_and!; try done; try congruence; try lia; [by rewrite Hk2, Hf1, Hc1, Hk1|by eapply grows_trans].
Qed.
End Operations.

(** * Properties *)

Section Properties.
Context {A : Type} `{Allocator A} `{StrCmp A A}.
Implicit Types (m : store A) (l : list (nat * A)) (L : libtar_list A).

(** The order of a list with a comparison function: no element is smaller than its
    predecessor. *)
Definition ordered (cmp : A -> A -> Z) : list A -> Prop := Sorted (fun x y => 0 <= cmp y x).

Lemma insert_data_perm (cmp : A -> A -> Z) x xs : insert_data cmp x xs ≡ₚ x :: xs.
Proof.
  induction xs as [|y ys IH]; [done|]. simpl. destruct (_ <? 0); [done|]. rewrite IH. apply Permutation_swap.
Qed.

Lemma insert_data_ordered (cmp : A -> A -> Z) x xs :
  (forall x y, cmp x y < 0 -> 0 <= cmp y x) -> ordered cmp xs -> ordered cmp (insert_data cmp x xs).
Proof.
  intros Hc. induction xs as [|y ys IH]; intros Hs; simpl; [by repeat constructor|].
  destruct (Z.ltb_spec (cmp x y) 0) as [Hlt|Hge]; [by constructor; [|constructor; auto]|].
  inversion Hs as [|? ? Hys Hhd]; subst. constructor; [by apply IH|].
  destruct ys as [|z zs]; simpl; [by constructor|]. destruct (_ <? 0); constructor; [done|]. by inversion Hhd.
Qed.

Lemma fold_add_perm fl (cmp : A -> A -> Z) xs : forall ys, fold_left (add_data fl cmp) xs ys ≡ₚ xs ++ ys.
Proof.
  induction xs as [|x xs IH]; intros ys; [done|]. simpl. rewrite IH. unfold add_data.
  destruct (_ =? _); [by rewrite <- Permutation_middle|]. destruct (_ =? _); [|rewrite insert_data_perm];
    rewrite ?(Permutation_app_comm ys [x]); simpl; by rewrite <- Permutation_middle.
Qed.

Lemma fold_add_ordered (cmp : A -> A -> Z) xs : forall ys,
  (forall x y, cmp x y < 0 -> 0 <= cmp y x) -> ordered cmp ys ->
  ordered cmp (fold_left (add_data LIST_USERFUNC cmp) xs ys).
Proof. induction xs as [|x xs IH]; intros ys Hc Hy; [done|]. simpl. apply IH; [done|]. by apply insert_data_ordered. Qed.

Lemma fold_add_queue (cmp : A -> A -> Z) xs : forall ys, fold_left (add_data LIST_QUEUE cmp) xs ys = ys ++ xs.
Proof. induction xs as [|x xs IH]; intros ys; simpl; [by rewrite app_nil_r|]. rewrite IH. change (add_data _ _ ys x) with (ys ++ [x]). by rewrite <- app_assoc. Qed.

Lemma fold_add_stack (cmp : A -> A -> Z) xs : forall ys, fold_left (add_data LIST_STACK cmp) xs ys = reverse xs ++ ys.
Proof. induction xs as [|x xs IH]; intros ys; [done|]. simpl. rewrite IH. change (add_data _ _ ys x) with (x :: ys). by rewrite reverse_cons, <- app_assoc. Qed.

Lemma new_list_rep m fl (cmp : A -> A -> Z) :
  calloc_ok m = true -> In fl [LIST_USERFUNC; LIST_STACK; LIST_QUEUE] ->
  exists L, libtar_list_new m fl (Some cmp) = Ret (Some L) /\ rep m L [] /\ flags L = fl /\ cmpfunc L = cmp.
Proof.
  intros Hc Hf. exists (mkList None None cmp fl 0). unfold libtar_list_new. rewrite Hc.
  destruct Hf as [<-|[<-|[<-|[]]]]; (split; [done|]; split; [|done]; split; done || constructor).
Qed.

(** C30: [libtar_list_add] implements insertion.  On a represented list it returns 0
    with a list that represents the new element in front (stack), at the end (queue)
    or before the first bigger element (comparison function); every other list in the
    store is untouched.  Without memory it returns -1 and changes nothing. *)
Theorem list_add_refines fuel m L l x :
  rep m L l -> (length l < fuel)%nat ->
  match malloc m with
  | None => libtar_list_add fuel m L x = ret (-1, m, L)
  | Some a =>
      exists m' L' l', libtar_list_add fuel m L x = ret (0, m', L') /\ rep m' L' l' /\
        l'.*2 = add_data (flags L) (cmpfunc L) l.*2 x /\ a ∈ l'.*1 /\
        forall L2 l2, rep m L2 l2 -> l2.*1 ## l.*1 -> rep m' L2 l2 /\ l2.*1 ## l'.*1
  end.
Proof.
  intros Hr Hf. pose proof (list_add_spec fuel m L l x Hr Hf) as Hs. destruct (malloc m) as [a|] eqn:Ha; [|done].
  destruct (list_add_ok fuel m L l x Hr Hf) as (m' & L' & l' & E & Hr' & Hd & Hg & _); [congruence|].
  exists m', L', l'. split_and!; try done; [|intros L2 l2; by apply grows_rep].
  destruct (place L x l) as [l1 l2]. destruct Hs as (L2 & E2 & Hr2 & _). rewrite E in E2.
  injection E2 as -> ->. destruct (decide (a ∈ l'.*1)) as [|Hn]; [done|].
  pose proof (grows_other _ _ _ _ Hg a Hn) as Hn'. rewrite (malloc_fresh _ _ Ha) in Hn'.
  rewrite (seg_lookup _ _ _ _ _ _ _ (rep_seg _ _ _ Hr2)) in Hn'. done.
Qed.

(** [libtar_list_del] removes the node it is given and no other: the list
    represents the elements before and after, the pointer has moved to the next node,
    the node is freed, and every other list is untouched. *)
Theorem list_del_refines m L l1 a x l2 :
  rep m L (l1 ++ (a, x) :: l2) ->
  exists m' L', libtar_list_del m L (Some a) = Ret (m', L', hd_ptr l2 None) /\ rep m' L' (l1 ++ l2) /\
    m' !! a = None /\ flags L' = flags L /\ cmpfunc L' = cmpfunc L /\
    forall L2 k, rep m L2 k -> k.*1 ## (l1 ++ (a, x) :: l2).*1 -> rep m' L2 k.
Proof.
  intros Hr. destruct (list_del_spec m L l1 a x l2 Hr) as (L' & E & Hr' & Hf & Hc).
  exists (unlinked m l1 l2 a), L'. split_and!; try done; [apply lookup_delete_eq|].
  intros L2 k [Hs ? ? ? ?] Hd. split; try done. apply (seg_frame m); [|done]. intros b Hb. apply unlink_other.
  rewrite fmap_app in *. simpl in *. set_solver.
Qed.

(** [libtar_list_merge] with a comparison function sorts: the new list is
    ordered and holds exactly the elements of the two lists, which stay as they are. *)
Theorem list_merge_sorts fuel m cmp L1 l1 L2 l2 :
  (forall m, malloc m <> None) -> calloc_ok m = true ->
  (forall x y, cmp x y < 0 -> 0 <= cmp y x) ->
  rep m L1 l1 -> rep m L2 l2 -> (length l1 + length l2 < fuel)%nat ->
  exists m' N k, libtar_list_merge fuel m (Some cmp) LIST_USERFUNC L1 L2 = ret (m', Some N) /\ rep m' N k /\
    ordered cmp k.*2 /\ k.*2 ≡ₚ l1.*2 ++ l2.*2 /\ rep m' L1 l1 /\ rep m' L2 l2.
Proof.
  intros Hm Hc Hcmp Hr1 Hr2 Hf. unfold libtar_list_merge.
  destruct (new_list_rep m LIST_USERFUNC cmp Hc) as (N & -> & HN & HNf & HNc); [by left|]. cbn [lift bindM].
  rewrite (rep_first _ _ _ Hr1).
  destruct (add_all_spec fuel Hm l1 fuel m None N []) as (m1 & N1 & k1 & -> & HN1 & Hk1 & Hg1 & Hl1 & Hf1 & Hc1);
    [apply Hr1|done|set_solver|lia|simpl; lia|]. simpl.
  destruct (grows_rep _ _ _ _ _ _ Hg1 Hr1) as [Hr1' Hd1]; [set_solver|].
  destruct (grows_rep _ _ _ _ _ _ Hg1 Hr2) as [Hr2' Hd2]; [set_solver|].
  rewrite (rep_first _ _ _ Hr2).
  destruct (add_all_spec fuel Hm l2 fuel m1 None N1 k1) as (m2 & N2 & k2 & -> & HN2 & Hk2 & Hg2 & _);
    [apply Hr2'|done|done|lia|simpl in *; lia|].
  destruct (grows_rep _ _ _ _ _ _ Hg2 Hr1') as [Hr1'' _]; [done|].
  destruct (grows_rep _ _ _ _ _ _ Hg2 Hr2') as [Hr2'' _]; [done|].
  exists m2, N2, k2. rewrite Hk2, Hf1, Hc1, Hk1, HNf, HNc. split_and!; try done.
  - apply fold_add_ordered; [done|]. apply fold_add_ordered; [done|constructor].
  - rewrite fold_add_perm, fold_add_perm. simpl. rewrite app_nil_r. apply Permutation_app_comm.
Qed.

(** [libtar_list_dup], described as copying a list, copies a queue but reverses
    a stack, because it adds the elements from the first to the last; the original
    stays as it is. *)
Theorem list_dup_order fuel m L l :
  (forall m, malloc m <> None) -> calloc_ok m = true ->
  rep m L l -> (length l < fuel)%nat -> flags L = LIST_STACK \/ flags L = LIST_QUEUE ->
  exists m' N k, libtar_list_dup fuel m L = ret (m', Some N) /\ rep m' N k /\ rep m' L l /\
    k.*2 = if flags L =? LIST_STACK then reverse l.*2 else l.*2.
Proof.
  intros Hm Hc Hr Hf Hfl. unfold libtar_list_dup.
  destruct (new_list_rep m (flags L) (cmpfunc L) Hc) as (N & -> & HN & HNf & HNc); [simpl; destruct Hfl as [-> | ->]; tauto|].
  cbn [lift bindM]. rewrite (rep_first _ _ _ Hr).
  destruct (add_all_spec fuel Hm l fuel m None N []) as (m1 & N1 & k1 & -> & HN1 & Hk1 & Hg1 & _);
    [apply Hr|done|set_solver|lia|simpl; lia|].
  destruct (grows_rep _ _ _ _ _ _ Hg1 Hr) as [Hr' _]; [set_solver|].
  exists m1, N1, k1. split_and!; try done. rewrite Hk1, HNf, HNc.
  destruct Hfl as [-> | ->]; [rewrite fold_add_stack; apply app_nil_r|apply fold_add_queue].
Qed.

(** [libtar_list_empty] frees every node once, after handing its data to
    [freefunc], in order, and leaves an empty list and every other list alone.  It
    does not reset [last]: the old last node, now freed, is what
    [libtar_list_prev] returns next. *)
Theorem list_empty_frees {S : Type} fuel m L l (freefunc : option (A -> S -> S)) s :
  rep m L l -> (length l < fuel)%nat ->
  exists m' L', libtar_list_empty fuel m L freefunc s
      = ret (m', L', fold_left (fun s x => release freefunc x s) l.*2 s) /\
    rep m' L' [] /\ (forall a, m' !! a = if decide (a ∈ l.*1) then None else m !! a) /\
    (l <> [] -> exists a, libtar_list_prev m' L' None = Ret (1, Some a) /\ m' !! a = None).
Proof.
  intros Hr Hf. unfold libtar_list_empty.
  rewrite (empty_loop_spec freefunc l fuel m L None s) by (done || apply Hr). cbn [bindM].
  eexists _, _. split; [done|]. split_and!; [split; done || constructor|apply remove_nodes_lookup|].
  intros Hl. destruct (end_ptr_in None l Hl) as (a & Ha & Hin). exists a. unfold libtar_list_prev. simpl.
  rewrite (rep_last _ _ _ Hr Hl), Ha, remove_nodes_lookup, decide_True by done. done.
Qed.
End Properties.

(** * Witnesses *)

(** The lowest address above all others. *)
Definition next_address {X} (m : gmap nat X) : nat := fold_right (fun p n => Nat.max (S p.1) n) O (map_to_list m).

Lemma next_address_fresh {X} (m : gmap nat X) : m !! next_address m = None.
Proof.
  assert (Hlt : forall a n, m !! a = Some n -> (a < next_address m)%nat).
  { intros a n Ha. apply elem_of_map_to_list, list_elem_of_In in Ha. unfold next_address.
    induction (map_to_list m) as [|[b k] l IH]; simpl in *; [done|]. destruct Ha as [[= -> ->]|Ha]; [lia|].
    specialize (IH Ha). lia. }
  destruct (m !! next_address m) as [n|] eqn:E; [|done]. apply Hlt in E. lia.
Qed.

#[export] Instance bump_allocator A : Allocator A.
Proof.
  refine {| malloc m := Some (next_address m); garbage m := Some 77%nat; calloc_ok m := true |}.
  intros m a [= <-]. apply next_address_fresh.
Defined.

Lemma bump_malloc A (m : store A) : malloc m <> None.
Proof. cbv [malloc bump_allocator]. done. Qed.

#[export] Instance Z_strcmp : StrCmp Z Z := {| strcmp := Z.sub |}.

(** Two lists in one store: a stack with 5 and 7, a queue with 6. *)
Definition demo_store : store Z :=
  <[0%nat := Node 5 (Some 1%nat) None]> (<[1%nat := Node 7 None (Some 0%nat)]> (<[2%nat := Node 6 None None]> ∅)).
Definition demo_stack : libtar_list Z := mkList (Some 0%nat) (Some 1%nat) Z.sub LIST_STACK 2.
Definition demo_queue : libtar_list Z := mkList (Some 2%nat) (Some 2%nat) Z.sub LIST_QUEUE 1.

Lemma demo_stack_rep : rep demo_store demo_stack [(0%nat, 5); (1%nat, 7)].
Proof. split; try done. by repeat constructor; set_solver. Qed.

Lemma demo_queue_rep : rep demo_store demo_queue [(2%nat, 6)].
Proof. split; try done. by repeat constructor; set_solver. Qed.

Lemma list_add_refines_witness :
  exists m' L' l', libtar_list_add 3 demo_store demo_stack 9 = ret (0, m', L') /\ rep m' L' l' /\ l'.*2 = [9; 5; 7].
Proof.
  pose proof (list_add_refines 3 demo_store demo_stack _ 9 demo_stack_rep ltac:(simpl; lia)) as Hw.
  change (malloc demo_store) with (Some (next_address demo_store)) in Hw. cbv iota in Hw.
  destruct Hw as (m' & L' & l' & E & Hr & Hd & _). by exists m', L', l'.
Defined.

Lemma list_del_refines_witness :
  exists m' L', libtar_list_del demo_store demo_stack (Some 0%nat) = Ret (m', L', Some 1%nat) /\ rep m' L' [(1%nat, 7)].
Proof.
  destruct (list_del_refines demo_store demo_stack [] 0 5 [(1%nat, 7)] demo_stack_rep) as (m' & L' & E & Hr & _).
  by exists m', L'.
Defined.

Lemma list_merge_sorts_witness :
  exists m' N k, libtar_list_merge 4 demo_store (Some Z.sub) LIST_USERFUNC demo_stack demo_queue = ret (m', Some N) /\
    rep m' N k /\ ordered Z.sub k.*2 /\ k.*2 ≡ₚ [5; 7; 6].
Proof.
  destruct (list_merge_sorts 4 demo_store Z.sub demo_stack _ demo_queue _ (bump_malloc Z) eq_refl ltac:(lia)
              demo_stack_rep demo_queue_rep ltac:(simpl; lia)) as (m' & N & k & E & Hr & Ho & Hp & _).
  by exists m', N, k.
Defined.

Lemma list_dup_order_witness :
  exists m' N k, libtar_list_dup 3 demo_store demo_stack = ret (m', Some N) /\ rep m' N k /\ k.*2 = [7; 5].
Proof.
  destruct (list_dup_order 3 demo_store demo_stack _ (bump_malloc Z) eq_refl demo_stack_rep ltac:(simpl; lia) (or_introl eq_refl))
    as (m' & N & k & E & Hr & _ & Hk).
  by exists m', N, k.
Defined.

Lemma list_empty_frees_witness :
  exists m' L', libtar_list_empty 3 demo_store demo_stack (Some (fun x s => s ++ [x])) [] = ret (m', L', [5; 7]) /\
    m' !! 0%nat = None /\ m' !! 2%nat = Some (Node 6 None None).
Proof.
  destruct (list_empty_frees 3 demo_store demo_stack _ (Some (fun x s => s ++ [x])) [] demo_stack_rep ltac:(simpl; lia))
    as (m' & L' & E & _ & Hm & _).
  exists m', L'. split; [exact E|]. by rewrite !Hm.
Defined.
