(* ===== verification/HashTable.v ===== *)
(** Hash tables: src/libtar/listhash/libtar_hash.c.

    The table is a list of buckets, each a null pointer or a linked list in the store
    of [LinkedList]; an index outside the table is a [Fault]. *)
From stdpp Require Import gmap list.
From S2P Require Import Prelude LinkedList.

(** * Hash tables *)

(** [K] is what a hash function reads at the address it is given: a key, or the
    first member of an element. *)
Class Keyed (A K : Type) := { key_of : A -> K; first_char : K -> Z }.

Record libtar_hashptr := mkHashptr { bucket : Z; hp_node : ptr }.

Record libtar_hash (A K : Type) := mkHash {
  numbuckets : Z;
  table : list (option (libtar_list A));
  hashfunc : K -> Z -> Z;
  h_nents : Z
}.
Arguments mkHash {A K}. Arguments numbuckets {A K}. Arguments table {A K}. Arguments hashfunc {A K}. Arguments h_nents {A K}.

Section HashTable.
Context {A K : Type} `{Allocator A} `{StrCmp A A} `{StrCmp K A} `{Keyed A K}.

(** [h->table[b]]; outside the table there is nothing to read. *)
Definition bucket_at (h : libtar_hash A K) (b : Z) : outcome (option (libtar_list A)) :=
  if b <? 0 then Fault else match table h !! Z.to_nat b with None => Fault | Some l => Ret l end.

Definition set_bucket (h : libtar_hash A K) (b : Z) (l : option (libtar_list A)) : libtar_hash A K :=
  mkHash (numbuckets h) (<[Z.to_nat b := l]> (table h)) (hashfunc h) (h_nents h).
Definition set_h_nents (h : libtar_hash A K) (n : Z) : libtar_hash A K :=
  mkHash (numbuckets h) (table h) (hashfunc h) n.

Definition libtar_hashptr_reset : libtar_hashptr := mkHashptr (-1) libtar_listptr_reset.
Definition libtar_hashptr_data (m : store A) (hp : libtar_hashptr) : outcome A := libtar_listptr_data m (hp_node hp).
Definition libtar_hash_nents (h : libtar_hash A K) : Z := h_nents h.

Definition libtar_str_hashfunc (key : option K) (num_buckets : Z) : Z :=
  match key with None => 0 | Some key => u32 (first_char key) mod num_buckets end.

(** There is never memory for a negative number of buckets, which is a huge one. *)
Definition libtar_hash_new (m : store A) (num : Z) (hash : option (K -> Z -> Z)) : option (libtar_hash A K) :=
  if negb (calloc_ok m) || (num <? 0) then None
  else Some (mkHash num (replicate (Z.to_nat num) None)
               (match hash with Some f => f | None => fun key n => libtar_str_hashfunc (Some key) n end) 0).

(** The buckets from [hp->bucket] on: the first one that has an element. *)
Fixpoint next_bucket (steps : nat) (m : store A) (h : libtar_hash A K) (hp : libtar_hashptr) : outcome (Z * libtar_hashptr) :=
  match steps with
  | O =>
      Ret (0, if bucket hp =? numbuckets h then mkHashptr (-1) None else hp)
  | S steps =>
      let! l := bucket_at h (bucket hp) in
      let! r := match l with
                | None => Ret (0, None)
                | Some l => libtar_list_next m l None
                end in
      let '(found, n) := r in
      if negb (found =? 0) then Ret (1, mkHashptr (bucket hp) n)
      else next_bucket steps m h (mkHashptr (bucket hp + 1) n)
  end.

Definition libtar_hash_next (m : store A) (h : libtar_hash A K) (hp : libtar_hashptr) : outcome (Z * libtar_hashptr) :=
  let! r :=
    match hp_node hp with
    | Some _ =>
        if 0 <=? bucket hp then
          let! l := bucket_at h (bucket hp) in
          let! nd := deref m (hp_node hp) in
          Ret (match next nd with None => 0 | Some _ => 1 end, next nd)
        else Ret (0, hp_node hp)
    | None => Ret (0, None)
    end in
  let '(found, n) := r in
  if negb (found =? 0) then Ret (1, mkHashptr (bucket hp) n)
  else
    let b := bucket hp + 1 in
    next_bucket (Z.to_nat (numbuckets h - b)) m h (mkHashptr b n).

Definition libtar_hash_del (m : store A) (h : libtar_hash A K) (hp : libtar_hashptr)
    : outcome (Z * store A * libtar_hash A K * libtar_hashptr) :=
  if (bucket hp <? 0) || (numbuckets h <=? bucket hp) then Ret (-1, m, h, hp)
  else
    let! l := bucket_at h (bucket hp) in
    match l, hp_node hp with
    | Some l, Some _ =>
        let! r := libtar_list_del m l (hp_node hp) in
        let '(m, l, n) := r in
        Ret (0, m, set_h_nents (set_bucket h (bucket hp) (Some l)) (u32 (h_nents h - 1)), mkHashptr (bucket hp) n)
    | _, _ => Ret (-1, m, h, hp)
    end.

(** The lists of the buckets one after the other. *)
Fixpoint empty_buckets {S : Type} (fuel : nat) (m : store A) (ls : list (option (libtar_list A)))
    (freefunc : option (A -> S -> S)) (s : S) : M (store A * list (option (libtar_list A)) * S) :=
  match ls with
  | [] => ret (m, [], s)
  | None :: ls => do! r := empty_buckets fuel m ls freefunc s in let '(m, ls, s) := r in ret (m, None :: ls, s)
  | Some l :: ls =>
      do! r := libtar_list_empty fuel m l freefunc s in
      let '(m, l, s) := r in
      do! r := empty_buckets fuel m ls freefunc s in
      let '(m, ls, s) := r in ret (m, Some l :: ls, s)
  end.

Definition libtar_hash_empty {S : Type} (fuel : nat) (m : store A) (h : libtar_hash A K) (freefunc : option (A -> S -> S)) (s : S)
    : M (store A * libtar_hash A K * S) :=
  do! r := empty_buckets fuel m (table h) freefunc s in
  let '(m, ls, s) := r in ret (m, mkHash (numbuckets h) ls (hashfunc h) 0, s).

Fixpoint free_buckets {S : Type} (fuel : nat) (m : store A) (ls : list (option (libtar_list A)))
    (freefunc : option (A -> S -> S)) (s : S) : M (store A * S) :=
  match ls with
  | [] => ret (m, s)
  | None :: ls => free_buckets fuel m ls freefunc s
  | Some l :: ls =>
      do! r := libtar_list_free fuel m l freefunc s in
      let '(m, s) := r in free_buckets fuel m ls freefunc s
  end.

Definition libtar_hash_free {S : Type} (fuel : nat) (m : store A) (h : libtar_hash A K) (freefunc : option (A -> S -> S)) (s : S)
    : M (store A * S) := free_buckets fuel m (table h) freefunc s.

Fixpoint libtar_hash_search {D : Type} (fuel : nat) (m : store A) (h : libtar_hash A K) (hp : libtar_hashptr) (x : D)
    (matchfunc : D -> A -> Z) : M (Z * libtar_hashptr) :=
  match fuel with
  | O => None
  | S fuel =>
      do! r := lift (libtar_hash_next m h hp) in
      let '(found, hp) := r in
      if found =? 0 then ret (0, hp)
      else
        do! y := lift (libtar_listptr_data m (hp_node hp)) in
        if negb (matchfunc x y =? 0) then ret (1, hp) else libtar_hash_search fuel m h hp x matchfunc
  end.

Definition libtar_hash_getkey (fuel : nat) (m : store A) (h : libtar_hash A K) (hp : libtar_hashptr) (key : K)
    (matchfunc : option (K -> A -> Z)) : M (Z * libtar_hashptr) :=
  let b := if bucket hp =? -1 then i32 (hashfunc h key (numbuckets h)) else bucket hp in
  do! l := lift (bucket_at h b) in
  match l with
  | None => ret (0, mkHashptr (-1) (hp_node hp))
  | Some l =>
      do! r := libtar_list_search fuel m l (hp_node hp) key matchfunc in
      let '(i, n) := r in ret (i, mkHashptr b n)
  end.

Definition libtar_hash_add (fuel : nat) (m : store A) (h : libtar_hash A K) (x : A) : M (Z * store A * libtar_hash A K) :=
  let b := i32 (hashfunc h (key_of x) (numbuckets h)) in
  do! l := lift (bucket_at h b) in
  do! l := lift (match l with
                 | None => libtar_list_new m LIST_QUEUE None
                 | Some l => Ret (Some l)
                 end) in
  do! r := add_to fuel m l x in
  let '(i, m, l) := r in
  let h := set_bucket h b l in
  ret (i, m, if i =? 0 then set_h_nents h (u32 (h_nents h + 1)) else h).
End HashTable.

(** * What a table represents *)

Section Rep.
Context {A K : Type} `{Allocator A} `{StrCmp A A} `{StrCmp K A} `{Keyed A K}.
Implicit Types (m : store A) (h : libtar_hash A K) (es : list A) (bs : list (list (nat * A))).

Definition bucket_rep m (L : option (libtar_list A)) (k : list (nat * A)) : Prop :=
  match L with None => k = [] | Some L => rep m L k /\ flags L = LIST_QUEUE end.

(** The bucket of a key. *)
Definition index_of h (key : K) : nat := Z.to_nat (hashfunc h key (numbuckets h)).

(** The table [h] holds the elements [es], in the order of their insertion; [bs] are
    the nodes of the buckets. *)
Record hash_rep m h bs es : Prop := {
  hr_size : numbuckets h = Z.of_nat (length (table h));
  hr_int : numbuckets h < 2 ^ 31;
  hr_hash key : 0 <= hashfunc h key (numbuckets h) < numbuckets h;
  hr_buckets : Forall2 (bucket_rep m) (table h) bs;
  hr_apart i j k k' : i <> j -> bs !! i = Some k -> bs !! j = Some k' -> k.*1 ## k'.*1;
  hr_data i k : bs !! i = Some k -> k.*2 = filter (fun x => index_of h (key_of x) = i) es;
  hr_nents : h_nents h = u32 (Z.of_nat (length es))
}.

Lemma hr_int_index m h bs es key : hash_rep m h bs es -> i32 (hashfunc h key (numbuckets h)) = Z.of_nat (index_of h key).
Proof.
  intros Hr. pose proof (hr_hash _ _ _ _ Hr key). pose proof (hr_int _ _ _ _ Hr). unfold index_of.
  rewrite i32_small by lia. lia.
Qed.

(** The bucket of a key exists. *)
Lemma hr_bucket m h bs es key : hash_rep m h bs es ->
  exists L k, table h !! index_of h key = Some L /\ bs !! index_of h key = Some k /\ bucket_rep m L k.
Proof.
  intros Hr. pose proof (hr_hash _ _ _ _ Hr key). pose proof (hr_size _ _ _ _ Hr) as Hs.
  pose proof (hr_buckets _ _ _ _ Hr) as HF.
  destruct (lookup_lt_is_Some_2 (table h) (index_of h key)) as [L HL]; [unfold index_of; lia|].
  destruct (Forall2_lookup_l _ _ _ _ _ HF HL) as (k & Hk & Hb). eauto.
Qed.

Lemma bucket_at_ret h (i : nat) L : table h !! i = Some L -> bucket_at h (Z.of_nat i) = Ret L.
Proof. intros HL. unfold bucket_at. destruct (Z.ltb_spec (Z.of_nat i) 0); [lia|]. by rewrite Nat2Z.id, HL. Qed.

Lemma bucket_frame m m' L k :
  (forall a, a ∈ k.*1 -> m' !! a = m !! a) -> bucket_rep m L k -> bucket_rep m' L k.
Proof. destruct L as [L|]; [|done]. intros Hm [[Hs ? ? ? ?] ?]. split; [|done]. split; try done. by eapply seg_frame. Qed.

(** One bucket replaced, the others out of the way. *)
Lemma buckets_update m m' h bs i L k k' L' :
  Forall2 (bucket_rep m) (table h) bs -> table h !! i = Some L -> bs !! i = Some k ->
  bucket_rep m' L' k' ->
  (forall j k2, j <> i -> bs !! j = Some k2 -> forall a, a ∈ k2.*1 -> m' !! a = m !! a) ->
  Forall2 (bucket_rep m') (<[i := L']> (table h)) (<[i := k']> bs).
Proof.
  intros HF HL Hk HL' Hfr. apply Forall2_same_length_lookup. split; [rewrite !length_insert; by eapply Forall2_length|].
  intros j x y. rewrite !list_lookup_insert_Some.
  intros [(-> & <- & _)|[Hj Hx]] [(Hj' & <- & _)|[Hj' Hy]]; [done|done|done|].
  eapply bucket_frame; [|by eapply Forall2_lookup_lr]. by apply (Hfr j).
Qed.

Lemma buckets_lengths m h bs es : hash_rep m h bs es -> length bs = length (table h).
Proof. intros Hr. symmetry. eapply Forall2_length, Hr. Qed.

Lemma bucket_length m h bs es i k : hash_rep m h bs es -> bs !! i = Some k -> (length k <= length es)%nat.
Proof.
  intros Hr Hk. rewrite <- (length_fmap snd k), (hr_data _ _ _ _ Hr i k Hk). apply length_filter.
Qed.

(** A bucket that grows stays apart from the others. *)
Lemma bucket_notin_grown m h bs es i j k kj m' k' a :
  hash_rep m h bs es -> j <> i -> bs !! i = Some k -> bs !! j = Some kj -> grows m k m' k' ->
  a ∈ kj.*1 -> a ∈ k'.*1 -> False.
Proof.
  intros Hr Hj Hk Hkj Hg Ha Ha'. destruct (grows_new _ _ _ _ Hg a Ha') as [Hin|Hm].
  - by apply (hr_apart _ _ _ _ Hr j i kj k Hj Hkj Hk a).
  - destruct (Forall2_lookup_r _ _ _ _ _ (hr_buckets _ _ _ _ Hr) Hkj) as (L & _ & Hb).
    destruct L as [L|]; [|simpl in Hb; subst; set_solver]. destruct Hb as [Hb _].
    destruct (seg_dom _ _ _ _ _ (rep_seg _ _ _ Hb) Ha) as [n Hn]. congruence.
Qed.

(** The nodes of a table are those of its buckets. *)
Lemma elem_concat bs a : a ∈ (concat bs).*1 <-> exists i k, bs !! i = Some k /\ a ∈ k.*1.
Proof.
  induction bs as [|k bs IH]; cbn [concat]; [split; [set_solver|intros (i & k & Hk & _); done]|].
  rewrite fmap_app, elem_of_app, IH. split.
  - intros [Ha|(i & k' & Hk & Ha)]; [by exists O, k|by exists (S i), k'].
  - intros ([|i] & k' & Hk & Ha); [left; by simplify_eq/=|right; by exists i, k'].
Qed.

Lemma grows_bucket m m' bs i k k' :
  bs !! i = Some k -> grows m k m' k' -> grows m (concat bs) m' (concat (<[i := k']> bs)).
Proof.
  intros Hk [Ho Hn Hold]. pose proof (lookup_lt_Some _ _ _ Hk) as Hi. split; intros b; rewrite !elem_concat.
  - intros Hb. apply Ho. intros Hb'. apply Hb. exists i, k'. by rewrite list_lookup_insert_eq.
  - intros (j & kj & Hj & Hb). rewrite list_lookup_insert_Some in Hj. destruct Hj as [(-> & -> & _)|[Hne Hj]]; [|left; by exists j, kj].
    destruct (Hn b Hb) as [Hk'|Hm]; [left; by exists j, k|by right].
  - intros (j & kj & Hj & Hb). destruct (decide (i = j)) as [<-|Hne].
    + exists i, k'. rewrite list_lookup_insert_eq by done. split; [done|]. apply Hold. congruence.
    + exists j, kj. by rewrite list_lookup_insert_ne.
Qed.

Lemma hash_rep_frame m m' h bs es :
  (forall a, a ∈ (concat bs).*1 -> m' !! a = m !! a) -> hash_rep m h bs es -> hash_rep m' h bs es.
Proof.
  intros Hm Hr. split; try apply Hr. apply Forall2_same_length_lookup. split; [eapply Forall2_length, Hr|].
  intros i L k HL Hk. apply (bucket_frame m); [|by eapply Forall2_lookup_lr; [apply Hr|..]].
  intros a Ha. apply Hm, elem_concat. by exists i, k.
Qed.

(** Another table stays as it is. *)
Lemma grows_hash m k m' k' h bs es :
  grows m k m' k' -> hash_rep m h bs es -> (concat bs).*1 ## k.*1 -> hash_rep m' h bs es /\ (concat bs).*1 ## k'.*1.
Proof.
  intros Hg Hr Hd. assert (Hd' : (concat bs).*1 ## k'.*1).
  { intros a Ha Hk. destruct (grows_new _ _ _ _ Hg a Hk) as [|Hm]; [by apply (Hd a)|].
    apply elem_concat in Ha as (i & kb & Hb & Ha).
    destruct (Forall2_lookup_r _ _ _ _ _ (hr_buckets _ _ _ _ Hr) Hb) as ([L|] & _ & HL); [|simpl in HL; subst; set_solver].
    destruct HL as [HL _]. destruct (seg_dom _ _ _ _ _ (rep_seg _ _ _ HL) Ha) as [n Hn]. congruence. }
  split; [|done]. destruct Hr as [? ? ? HF ? ? ?]. split; try done. apply Forall2_same_length_lookup.
  split; [by eapply Forall2_length|]. intros i L kb HL Hb. eapply bucket_frame; [|by eapply Forall2_lookup_lr].
  intros a Ha. apply (grows_other _ _ _ _ Hg). intros Hk. apply (Hd' a); [|done]. apply elem_concat. by exists i, kb.
Qed.

Lemma filter_snoc (P : A -> Prop) `{forall x, Decision (P x)} es x :
  filter P (es ++ [x]) = filter P es ++ (if decide (P x) then [x] else []).
Proof. by rewrite filter_app. Qed.

Lemma hash_add_spec fuel m h bs es x :
  hash_rep m h bs es -> (length es < fuel)%nat -> malloc m <> None -> calloc_ok m = true ->
  exists m' h' bs', libtar_hash_add fuel m h x = ret (0, m', h') /\ hash_rep m' h' bs' (es ++ [x]) /\
    hashfunc h' = hashfunc h /\ numbuckets h' = numbuckets h /\ grows m (concat bs) m' (concat bs').
Proof.
  intros Hr Hf Hm Hc. unfold libtar_hash_add. rewrite (hr_int_index _ _ _ _ _ Hr).
  destruct (hr_bucket _ _ _ _ (key_of x) Hr) as (L & k & HL & Hk & Hb). set (i := index_of h (key_of x)) in *.
  rewrite (bucket_at_ret _ _ _ HL). cbn [lift bindM].
  assert (Hlist : exists L0, match L with None => libtar_list_new m LIST_QUEUE None | Some l => Ret (Some l) end = Ret (Some L0)
            /\ rep m L0 k /\ flags L0 = LIST_QUEUE).
  { destruct L as [L|]; [by exists L|]. simpl in Hb. subst k. exists (mkList None None strcmp LIST_QUEUE 0).
    unfold libtar_list_new. rewrite Hc. split_and!; [done| |done]. split; done || constructor. }
  destruct Hlist as (L0 & -> & Hr0 & Hq). cbn [bindM add_to].
  pose proof (bucket_length _ _ _ _ _ _ Hr Hk) as Hlk.
  destruct (list_add_ok fuel m L0 k x Hr0) as (m' & L' & k' & -> & Hr' & Hd & Hg & _ & Hfl & _); [lia|done|]. cbn [bindM Z.eqb].
  eexists m', _, (<[i := k']> bs). split; [done|]. split; [|split; [done|split; [done|by eapply grows_bucket]]].
  pose proof (buckets_lengths _ _ _ _ Hr) as Hlb. pose proof (lookup_lt_Some _ _ _ Hk) as Hi.
  split; simpl; rewrite ?length_insert; try apply Hr.
  - rewrite Nat2Z.id. eapply buckets_update; [apply Hr|done|done|split; [done|congruence]|].
    intros j k2 Hj Hk2 a Ha. apply (grows_other _ _ _ _ Hg). intros Ha'.
    eapply (bucket_notin_grown _ _ _ _ i j); eauto.
  - intros j1 j2 k1 k2 Hne. rewrite !list_lookup_insert_Some.
    assert (Hfar : forall j kj, j <> i -> bs !! j = Some kj -> kj.*1 ## k'.*1).
    { intros j kj Hj Hkj a Ha Ha'. eapply (bucket_notin_grown _ _ _ _ i j); eauto. }
    intros [(-> & <- & _)|[Hj1 Hk1]] [(-> & <- & _)|[Hj2 Hk2]]; [done| | |].
    + intros a Ha Ha'. by apply (Hfar j2 k2 ltac:(done) Hk2 a).
    + by apply (Hfar j1).
    + by eapply (hr_apart _ _ _ _ Hr j1 j2).
  - intros j kj. rewrite list_lookup_insert_Some. rewrite filter_snoc. intros [(<- & <- & _)|[Hj Hkj]].
    + rewrite Hd, Hq, (hr_data _ _ _ _ Hr i k Hk). rewrite decide_True by done. done.
    + rewrite decide_False by (intros E; by apply Hj). rewrite app_nil_r. exact (hr_data _ _ _ _ Hr j kj Hkj).
  - rewrite (hr_nents _ _ _ _ Hr), length_app. simpl. unfold u32. rewrite Zplus_mod_idemp_l. f_equal. lia.
Qed.

(** ** Looking up a key *)

Definition matches {D : Type} (f : D -> A -> Z) (key : D) (x : A) : bool := negb (f key x =? 0).

Lemma from_match_find {D : Type} (f : D -> A -> Z) key (k : list (nat * A)) :
  (exists pre, k = pre ++ from_match f key k) /\
  find (matches f key) k.*2 = match from_match f key k with [] => None | (_, x) :: _ => Some x end.
Proof.
  induction k as [|[a x] k [[pre IH1] IH2]]; simpl; [by split; [exists []|]|]. unfold matches at 1.
  destruct (negb _); [by split; [exists []|]|]. split; [|done]. exists ((a, x) :: pre). simpl. congruence.
Qed.

Lemma find_filter (P : A -> Prop) `{forall x, Decision (P x)} (f : A -> bool) (xs : list A) :
  (forall x, x ∈ xs -> f x = true -> P x) -> find f (filter P xs) = find f xs.
Proof.
  induction xs as [|x xs IH]; intros Hf; [done|]. assert (IH' := IH (fun y Hy => Hf y ltac:(by right))). clear IH.
  rewrite filter_cons. case_decide as Hx; simpl; [by rewrite IH'|].
  rewrite IH'. destruct (f x) eqn:E; [|done]. destruct Hx. apply Hf; [by left|done].
Qed.

Lemma hash_getkey_spec fuel m h bs es key (f : K -> A -> Z) :
  hash_rep m h bs es -> (length es < fuel)%nat ->
  (forall x, x ∈ es -> matches f key x = true -> index_of h (key_of x) = index_of h key) ->
  exists found hp, libtar_hash_getkey fuel m h libtar_hashptr_reset key (Some f) = ret (found, hp) /\
    match find (matches f key) es with
    | None => found = 0
    | Some x => found = 1 /\ libtar_hashptr_data m hp = Ret x
    end.
Proof.
  intros Hr Hf Hm. unfold libtar_hash_getkey. change (bucket libtar_hashptr_reset =? -1) with true. cbv iota. rewrite (hr_int_index _ _ _ _ _ Hr).
  destruct (hr_bucket _ _ _ _ key Hr) as (L & k & HL & Hk & Hb). rewrite (bucket_at_ret _ _ _ HL). cbn [lift bindM].
  pose proof (hr_data _ _ _ _ Hr _ k Hk) as Hd. pose proof (bucket_length _ _ _ _ _ _ Hr Hk) as Hl.
  assert (Hfind : find (matches f key) es = find (matches f key) k.*2) by (rewrite Hd; symmetry; by apply find_filter).
  rewrite Hfind. destruct L as [L|]; [|simpl in Hb; subst k; by eexists _, _]. destruct Hb as [Hb _].
  unfold libtar_list_search. change (hp_node libtar_hashptr_reset) with (None : ptr). cbv iota. cbn [lift bindM].
  rewrite (rep_first _ _ _ Hb).
  erewrite search_from_spec by (apply Hb || lia). cbn [bindM ret].
  destruct (from_match_find f key k) as [[pre Hpre] ->]. eexists _, _. split; [done|].
  destruct (from_match f key k) as [|[a x] k']; [done|]. split; [done|].
  pose proof (rep_seg _ _ _ Hb) as Hs. rewrite Hpre in Hs.
  unfold libtar_hashptr_data, libtar_listptr_data. simpl hp_node. by rewrite (deref_seg _ _ _ _ _ _ _ Hs).
Qed.

(** ** Walking through the table *)

(** The nodes of the buckets from the [i]th on, with the number of their bucket. *)
Fixpoint flat (i : nat) bs : list (nat * (nat * A)) :=
  match bs with [] => [] | k :: bs => map (pair i) k ++ flat (S i) bs end.

(** The pointer at a node, or after the last one. *)
Definition hp_of (c : option (nat * (nat * A))) : libtar_hashptr :=
  match c with None => libtar_hashptr_reset | Some (i, (a, _)) => mkHashptr (Z.of_nat i) (Some a) end.

Definition found (l : list (nat * (nat * A))) : Z * libtar_hashptr :=
  (match l with [] => 0 | _ => 1 end, hp_of (head l)).

Lemma flat_split bs : forall i pre j a x post,
  flat i bs = pre ++ (j, (a, x)) :: post ->
  exists l1 l2, bs !! (j - i)%nat = Some (l1 ++ (a, x) :: l2) /\ (i <= j)%nat /\
    post = map (pair j) l2 ++ flat (S j) (drop (S (j - i)) bs).
Proof.
  induction bs as [|k bs IH]; intros i pre j a x post Hf; simpl in *; [by destruct pre|].
  apply app_eq_inv in Hf as [(q & Hk & Hf)|(q & Hk & Hf)].
  - destruct q as [|c q].
    + rewrite app_nil_r in Hk. destruct (IH (S i) [] j a x post ltac:(done)) as (l1 & l2 & Hb & Hij & Hp).
      exists l1, l2. replace (j - i)%nat with (S (j - S i)) by lia. split_and!; [done|lia|done].
    + injection Hf as <- ->. apply map_eq_app in Hk as (k1 & k2 & -> & _ & Hk2).
      destruct k2 as [|y k2]; [done|]. simpl in Hk2. injection Hk2 as <- -> <-. exists k1, k2. rewrite Nat.sub_diag. done.
  - destruct (IH (S i) q j a x post Hf) as (l1 & l2 & Hb & Hij & Hp).
    exists l1, l2. replace (j - i)%nat with (S (j - S i)) by lia. split_and!; [done|lia|done].
Qed.

Lemma next_bucket_spec m h bs es : hash_rep m h bs es -> forall steps i n,
  (i + steps = length bs)%nat ->
  next_bucket steps m h (mkHashptr (Z.of_nat i) n) = Ret (found (flat i (drop i bs))).
Proof.
  intros Hr. pose proof (buckets_lengths _ _ _ _ Hr) as Hlb. pose proof (hr_size _ _ _ _ Hr) as Hsz.
  induction steps as [|steps IH]; intros i n Hi; cbn [next_bucket bucket].
  - rewrite drop_ge by lia. destruct (Z.eqb_spec (Z.of_nat i) (numbuckets h)); [done|lia].
  - destruct (lookup_lt_is_Some_2 bs i ltac:(lia)) as [k Hk]. rewrite (drop_S _ k) by done.
    destruct (Forall2_lookup_r _ _ _ _ _ (hr_buckets _ _ _ _ Hr) Hk) as (L & HL & Hb).
    rewrite (bucket_at_ret _ _ _ HL). cbn [bind]. specialize (IH (S i)).
    rewrite Nat2Z.inj_succ in IH. unfold Z.succ in IH. cbn [flat].
    destruct L as [L|]; [|simpl in Hb; subst k; cbn [bind]; apply IH; lia]. destruct Hb as [Hb _].
    rewrite (list_next_start _ _ _ Hb). cbn [bind]. destruct k as [|[a x] k]; [apply IH; lia|done].
Qed.

(** [libtar_hash_next] goes from each node to the following one. *)
Lemma hash_next_spec m h bs es pre c post :
  hash_rep m h bs es -> flat 0 bs = pre ++ c :: post -> libtar_hash_next m h (hp_of (Some c)) = Ret (found post).
Proof.
  intros Hr Hf. destruct c as [j [a x]]. apply flat_split in Hf as (l1 & l2 & Hk & _ & ->).
  rewrite Nat.sub_0_r in *. pose proof (buckets_lengths _ _ _ _ Hr) as Hlb. pose proof (hr_size _ _ _ _ Hr) as Hsz.
  pose proof (lookup_lt_Some _ _ _ Hk) as Hj.
  destruct (Forall2_lookup_r _ _ _ _ _ (hr_buckets _ _ _ _ Hr) Hk) as (L & HL & Hb).
  destruct L as [L|]; [|simpl in Hb; by destruct l1]. destruct Hb as [Hb _].
  unfold libtar_hash_next. cbn [hp_of hp_node bucket]. destruct (Z.leb_spec 0 (Z.of_nat j)); [|lia].
  rewrite (bucket_at_ret _ _ _ HL). cbn [bind]. rewrite (deref_seg _ _ _ _ _ _ _ (rep_seg _ _ _ Hb)). cbn [bind next].
  destruct l2 as [|[b y] l2]; [|done]. cbn [hd_ptr negb Z.eqb map app].
  replace (Z.of_nat j + 1) with (Z.of_nat (S j)) by lia. eapply next_bucket_spec; [done|]. lia.
Qed.

Lemma hash_next_start m h bs es : hash_rep m h bs es -> libtar_hash_next m h libtar_hashptr_reset = Ret (found (flat 0 bs)).
Proof.
  intros Hr. pose proof (buckets_lengths _ _ _ _ Hr) as Hlb. pose proof (hr_size _ _ _ _ Hr) as Hsz.
  unfold libtar_hash_next. cbn [libtar_hashptr_reset hp_node bucket libtar_listptr_reset bind negb Z.eqb].
  apply (next_bucket_spec _ _ _ _ Hr _ 0). lia.
Qed.

Lemma node_data m h bs es pre i a x post :
  hash_rep m h bs es -> flat 0 bs = pre ++ (i, (a, x)) :: post -> libtar_listptr_data m (Some a) = Ret x.
Proof.
  intros Hr Hf. apply flat_split in Hf as (l1 & l2 & Hk & _ & _).
  destruct (Forall2_lookup_r _ _ _ _ _ (hr_buckets _ _ _ _ Hr) Hk) as ([L|] & HL & Hb); [|simpl in Hb; by destruct l1].
  destruct Hb as [Hb _]. unfold libtar_listptr_data. by rewrite (deref_seg _ _ _ _ _ _ _ (rep_seg _ _ _ Hb)).
Qed.

Lemma hash_search_from {D : Type} m h bs es (f : D -> A -> Z) key : hash_rep m h bs es -> forall post pre hp fuel,
  flat 0 bs = pre ++ post -> libtar_hash_next m h hp = Ret (found post) -> (length post < fuel)%nat ->
  exists i hp', libtar_hash_search fuel m h hp key f = ret (i, hp') /\
    match find (fun c => matches f key c.2.2) post with
    | None => i = 0
    | Some (j, (a, x)) => i = 1 /\ hp' = mkHashptr (Z.of_nat j) (Some a)
    end.
Proof.
  intros Hr post. induction post as [|[j [a x]] post IH]; intros pre hp [|fuel] Hf Hn Hl; simpl in Hl; try lia;
    cbn [libtar_hash_search]; rewrite Hn; cbn [lift bindM found head hp_of Z.eqb hp_node].
  - by eexists _, _.
  - rewrite (node_data _ _ _ _ _ _ _ _ _ Hr Hf). cbn [lift bindM find snd]. fold (matches f key x).
    destruct (matches f key x); [by eexists _, _|].
    apply (IH (pre ++ [(j, (a, x))])); [by rewrite <- app_assoc| |lia].
    apply (hash_next_spec _ _ _ _ _ _ _ Hr Hf).
Qed.

(** Every element is in exactly one bucket. *)
Lemma filters_skip (f : A -> nat) x xs js : f x ∉ js ->
  map (fun i => filter (fun y => f y = i) (x :: xs)) js = map (fun i => filter (fun y => f y = i) xs) js.
Proof.
  intros Hx. apply map_ext_in. intros i Hi%list_elem_of_In. rewrite filter_cons, decide_False; [done|]. by intros <-.
Qed.

Lemma filters_perm (f : A -> nat) xs : forall js, NoDup js -> (forall x, x ∈ xs -> f x ∈ js) ->
  concat (map (fun i => filter (fun x => f x = i) xs) js) ≡ₚ xs.
Proof.
  induction xs as [|x xs IH]; intros js Hn Hin; [clear; induction js; done|].
  transitivity (x :: concat (map (fun i => filter (fun x => f x = i) xs) js)); [|rewrite IH; [done|done|set_solver]].
  assert (Hx : f x ∈ js) by set_solver. clear IH Hin.
  apply list_elem_of_split in Hx as (i1 & i2 & ->). apply NoDup_app in Hn as (_ & H1' & [H2' _]%NoDup_cons).
  rewrite !map_app, !concat_app. cbn [map concat]. rewrite !filters_skip by set_solver.
  rewrite filter_cons, decide_True by done. cbn [app]. by rewrite <- Permutation_middle.
Qed.

Lemma flat_data bs : forall i, map (fun c => c.2.2) (flat i bs) = concat (map (fun k => k.*2) bs).
Proof.
  induction bs as [|k bs IH]; intros i; [done|]. cbn [flat map concat]. rewrite map_app, IH, map_map. done.
Qed.

Lemma flat_perm m h bs es : hash_rep m h bs es -> map (fun c => c.2.2) (flat 0 bs) ≡ₚ es.
Proof.
  intros Hr. rewrite flat_data. set (f := fun x => index_of h (key_of x)).
  assert (Hb : map (fun k => k.*2) bs = map (fun i => filter (fun x => f x = i) es) (seq 0 (length bs))).
  { apply list_eq. intros i. rewrite !list_lookup_fmap. destruct (bs !! i) as [k|] eqn:Hk.
    - rewrite lookup_seq_lt by by eapply lookup_lt_Some. simpl. f_equal. by apply (hr_data _ _ _ _ Hr).
    - rewrite lookup_seq_ge by by apply lookup_ge_None. done. }
  rewrite Hb. apply filters_perm; [apply NoDup_seq|]. intros x _. apply elem_of_seq. unfold f, index_of.
  pose proof (hr_hash _ _ _ _ Hr (key_of x)). rewrite (buckets_lengths _ _ _ _ Hr). pose proof (hr_size _ _ _ _ Hr). lia.
Qed.

(** ** Freeing *)

Lemma remove_apart (k k' : list (nat * A)) m a : k.*1 ## k'.*1 -> a ∈ k'.*1 -> remove_nodes k m !! a = m !! a.
Proof. intros Hd Ha. rewrite remove_nodes_lookup, decide_False; [done|]. intros Hk. by apply (Hd a). Qed.

Lemma remove_nodes_app (k k' : list (nat * A)) : forall m, remove_nodes (k ++ k') m = remove_nodes k' (remove_nodes k m).
Proof. induction k as [|[a x] k IH]; intros m; [done|]. apply IH. Qed.

Definition apart_buckets bs : Prop :=
  forall i j k k', i <> j -> bs !! i = Some k -> bs !! j = Some k' -> k.*1 ## k'.*1.

Lemma apart_tail k bs : apart_buckets (k :: bs) ->
  apart_buckets bs /\ forall k', k' ∈ bs -> k.*1 ## k'.*1.
Proof.
  intros Ha. split.
  - intros i j k1 k2 Hne H1' H2'. apply (Ha (S i) (S j)); [lia|done|done].
  - intros k' [j Hj]%list_elem_of_lookup. apply (Ha O (S j)); [lia|done|done].
Qed.

Lemma free_buckets_spec {S : Type} (freefunc : option (A -> S -> S)) fuel ls : forall bs m s,
  Forall2 (bucket_rep m) ls bs -> apart_buckets bs -> (forall k, k ∈ bs -> (length k < fuel)%nat) ->
  free_buckets fuel m ls freefunc s
  = ret (remove_nodes (concat bs) m, fold_left (fun s x => release freefunc x s) (concat bs).*2 s).
Proof.
  induction ls as [|L ls IH]; intros bs m s HF Ha Hl; inversion HF as [|? k ? bs' Hb HF']; subst; [done|].
  apply apart_tail in Ha as [Ha Hk]. cbn [concat]. rewrite remove_nodes_app, fmap_app, fold_left_app.
  destruct L as [L|]; cbn [free_buckets]; simpl in Hb; [|subst k; apply IH; [done|done|set_solver]].
  destruct Hb as [Hb _]. unfold libtar_list_free, libtar_list_empty.
  rewrite (empty_loop_spec freefunc k fuel m L None s) by (apply Hb || (apply Hl; set_solver)). cbn [bindM ret].
  apply IH; [|done|set_solver].
  apply Forall2_same_length_lookup. split; [by eapply Forall2_length|]. intros i L' k' HL' Hk'.
  apply (bucket_frame m); [|by eapply Forall2_lookup_lr]. intros a Ha'. apply (remove_apart _ k'); [|done].
  apply Hk. by eapply list_elem_of_lookup_2.
Qed.

(** ** Deleting *)

Lemma filter_split (P : A -> Prop) `{forall x, Decision (P x)} (xs l1 l2 : list A) x :
  filter P xs = l1 ++ x :: l2 -> exists e1 e2, xs = e1 ++ x :: e2 /\ filter P e1 = l1 /\ filter P e2 = l2 /\ P x.
Proof.
  revert l1. induction xs as [|y xs IH]; intros l1 Hf; [by destruct l1|]. rewrite filter_cons in Hf. case_decide as Hy.
  - destruct l1 as [|z l1]; injection Hf as -> Hf; [by exists [], xs|].
    destruct (IH l1 Hf) as (e1 & e2 & -> & H1' & H2' & Hx). exists (z :: e1), e2. rewrite filter_cons, decide_True by done.
    by rewrite H1'.
  - destruct (IH l1 Hf) as (e1 & e2 & -> & H1' & H2' & Hx). exists (y :: e1), e2. by rewrite filter_cons, decide_False.
Qed.

Lemma filter_drop (P : A -> Prop) `{forall x, Decision (P x)} (e1 e2 : list A) x :
  ~ P x -> filter P (e1 ++ x :: e2) = filter P (e1 ++ e2).
Proof. intros Hx. by rewrite !filter_app, filter_cons, decide_False. Qed.

Lemma hash_del_spec m h bs es i l1 a x l2 :
  hash_rep m h bs es -> bs !! i = Some (l1 ++ (a, x) :: l2) ->
  exists m' h' e1 e2, libtar_hash_del m h (mkHashptr (Z.of_nat i) (Some a))
      = Ret (0, m', h', mkHashptr (Z.of_nat i) (hd_ptr l2 None)) /\
    es = e1 ++ x :: e2 /\ hash_rep m' h' (<[i := l1 ++ l2]> bs) (e1 ++ e2) /\ m' !! a = None.
Proof.
  intros Hr Hk. pose proof (lookup_lt_Some _ _ _ Hk) as Hi. pose proof (buckets_lengths _ _ _ _ Hr) as Hlb.
  pose proof (hr_size _ _ _ _ Hr) as Hsz.
  destruct (Forall2_lookup_r _ _ _ _ _ (hr_buckets _ _ _ _ Hr) Hk) as ([L|] & HL & Hb); [|simpl in Hb; by destruct l1].
  destruct Hb as [Hb Hq]. unfold libtar_hash_del. cbn [bucket hp_node].
  destruct (Z.ltb_spec (Z.of_nat i) 0), (Z.leb_spec (numbuckets h) (Z.of_nat i)); [lia..|]. cbn [orb].
  rewrite (bucket_at_ret _ _ _ HL). cbn [bind].
  destruct (list_del_spec m L l1 a x l2 Hb) as (L' & -> & Hb' & Hfl & _). cbn [bind].
  pose proof (hr_data _ _ _ _ Hr i _ Hk) as Hd. rewrite fmap_app in Hd. simpl in Hd. symmetry in Hd.
  apply filter_split in Hd as (e1 & e2 & -> & He1 & He2 & Hx).
  assert (Hfar : forall j kj c, j <> i -> bs !! j = Some kj -> c ∈ kj.*1 -> c ∉ a :: (l1 ++ l2).*1).
  { intros j kj c Hj Hkj Hc Hin. apply (hr_apart _ _ _ _ Hr j i kj _ Hj Hkj Hk c Hc).
    rewrite fmap_app in *. simpl. set_solver. }
  eexists _, _, e1, e2. split; [done|]. split; [done|]. split; [|apply lookup_delete_eq].
  split; simpl; rewrite ?length_insert; try apply Hr.
  - rewrite Nat2Z.id. eapply buckets_update; [apply Hr|done|done|split; [done|congruence]|].
    intros j k2 Hj Hk2 c Hc. apply unlink_other. by apply (Hfar j k2).
  - intros j1 j2 k1 k2 Hne. rewrite !list_lookup_insert_Some.
    intros [(<- & <- & _)|[Hj1 Hk1]] [(<- & <- & _)|[Hj2 Hk2]]; [done| | |by eapply (hr_apart _ _ _ _ Hr j1 j2)].
    + intros c Hc Hc2. apply (Hfar j2 k2 c); [done|done|done|by right].
    + intros c Hc Hc2. apply (Hfar j1 k1 c); [done|done|done|by right].
  - intros j kj. rewrite list_lookup_insert_Some. intros [(<- & <- & _)|[Hj Hkj]].
    + rewrite fmap_app, filter_app. f_equal; done.
    + rewrite (hr_data _ _ _ _ Hr j kj Hkj). rewrite filter_drop; [done|]. congruence.
  - rewrite (hr_nents _ _ _ _ Hr), !length_app. simpl. unfold u32. rewrite Zminus_mod_idemp_l. f_equal. lia.
Qed.
End Rep.

(** * Properties *)

Section Properties.
Context {A K : Type} `{Allocator A} `{StrCmp A A} `{StrCmp K A} `{Keyed A K}.
Implicit Types (m : store A) (h : libtar_hash A K) (es : list A) (bs : list (list (nat * A))).

Lemma hash_new_rep m num (f : K -> Z -> Z) :
  calloc_ok m = true -> 0 <= num < 2 ^ 31 -> (forall key, 0 <= f key num < num) ->
  exists h, libtar_hash_new m num (Some f) = Some h /\ hash_rep m h (replicate (Z.to_nat num) []) [] /\
    hashfunc h = f /\ numbuckets h = num.
Proof.
  intros Hc Hn Hf. exists (mkHash num (replicate (Z.to_nat num) None) f 0). unfold libtar_hash_new. rewrite Hc.
  destruct (Z.ltb_spec num 0); [lia|]. split; [done|]. split; [|done]. split; simpl; try done.
  - rewrite length_replicate. lia.
  - lia.
  - apply Forall2_replicate; done.
  - intros i j k k' _ [-> _]%lookup_replicate. set_solver.
  - by intros i k [-> _]%lookup_replicate.
Qed.

(** A function that only matches elements of the key's own bucket. *)
Definition respects h (f : K -> A -> Z) (key : K) : Prop :=
  forall x, matches f key x = true -> index_of h (key_of x) = index_of h key.

(** C31: a hash table is a list of elements with lookup by key: [libtar_hash_add]
    appends an element to the abstract list, and [libtar_hash_getkey], which looks
    into one bucket only, finds the first element of the whole list that matches the
    key, or reports 0 when there is none; for a comparison under which elements that match
    the key have the hash of the key, and memory for the new element. *)
Theorem hash_refines_list fuel m h bs es x :
  hash_rep m h bs es -> (S (length es) < fuel)%nat -> malloc m <> None -> calloc_ok m = true ->
  exists m' h' bs', libtar_hash_add fuel m h x = ret (0, m', h') /\ hash_rep m' h' bs' (es ++ [x]) /\
    forall key f, respects h f key ->
      exists found hp, libtar_hash_getkey fuel m' h' libtar_hashptr_reset key (Some f) = ret (found, hp) /\
        match find (matches f key) (es ++ [x]) with
        | None => found = 0
        | Some y => found = 1 /\ libtar_hashptr_data m' hp = Ret y
        end.
Proof.
  intros Hr Hf Hm Hc. destruct (hash_add_spec fuel m h bs es x Hr ltac:(lia) Hm Hc) as (m' & h' & bs' & E & Hr' & Hh & Hn & _).
  exists m', h', bs'. split; [done|]. split; [done|]. intros key f Hk.
  apply (hash_getkey_spec fuel m' h' bs'); [done|rewrite length_app; simpl; lia|].
  intros y _. unfold index_of. rewrite Hh, Hn. exact (Hk y).
Qed.

(** The search through all buckets and the search by key agree: from a reset
    pointer [libtar_hash_search] finds an element exactly when one of the elements
    matches, and so does [libtar_hash_getkey] if matching elements have the hash of
    the key. *)
Theorem hash_search_agrees fuel m h bs es key (f : K -> A -> Z) :
  hash_rep m h bs es -> (length es < fuel)%nat -> respects h f key ->
  exists found hp hp',
    libtar_hash_search fuel m h libtar_hashptr_reset key f = ret (found, hp) /\
    libtar_hash_getkey fuel m h libtar_hashptr_reset key (Some f) = ret (found, hp') /\
    (found = 1 <-> exists x, x ∈ es /\ matches f key x = true) /\ (found = 0 \/ found = 1).
Proof.
  intros Hr Hf Hk. pose proof (flat_perm _ _ _ _ Hr) as Hp.
  destruct (hash_search_from m h bs es f key Hr (flat 0 bs) [] libtar_hashptr_reset fuel eq_refl) as (i & hp & Es & Hs).
  { by eapply hash_next_start. } { apply Permutation_length in Hp. rewrite length_map in Hp. lia. }
  destruct (hash_getkey_spec fuel m h bs es key f Hr Hf (fun x _ => Hk x)) as (j & hp' & Eg & Hg).
  assert (Hi : (i = 1 <-> exists x, x ∈ es /\ matches f key x = true) /\ (i = 0 \/ i = 1)).
  { setoid_rewrite <- Hp. destruct (find _ (flat 0 bs)) as [[b [a x]]|] eqn:Ef.
    - destruct Hs as [-> _]. split; [|by right]. split; [intros _|done]. apply find_some in Ef as [Hin Hx].
      exists x. split; [|done]. apply list_elem_of_In, in_map_iff. by exists (b, (a, x)).
    - subst i. split; [|by left]. split; [done|]. intros (x & Hx & Hm). apply list_elem_of_In, in_map_iff in Hx as (c & <- & Hc).
      by rewrite (find_none _ _ Ef c Hc) in Hm. }
  assert (Hj : (j = 1 <-> exists x, x ∈ es /\ matches f key x = true) /\ (j = 0 \/ j = 1)).
  { destruct (find _ es) as [x|] eqn:Ef.
    - destruct Hg as [-> _]. split; [|by right]. split; [intros _|done]. apply find_some in Ef as [Hin Hx].
      exists x. by rewrite list_elem_of_In.
    - subst j. split; [|by left]. split; [done|]. intros (x & Hx%list_elem_of_In & Hm). by rewrite (find_none _ _ Ef x Hx) in Hm. }
  assert (Hij : i = 1 <-> j = 1) by (rewrite (proj1 Hi), (proj1 Hj); done).
  assert (i = j) as -> by (destruct Hi as [_ Hi], Hj as [_ Hj']; lia). by exists j, hp, hp'.
Qed.
(** Freeing a table calls [freefunc] for each element and frees the nodes. *)
Lemma hash_free_spec {S : Type} fuel m h bs es (freefunc : option (A -> S -> S)) s :
  hash_rep m h bs es -> (length es < fuel)%nat ->
  libtar_hash_free fuel m h freefunc s
  = ret (remove_nodes (concat bs) m, fold_left (fun s x => release freefunc x s) (concat bs).*2 s) /\
  (concat bs).*2 ≡ₚ es.
Proof.
  intros Hr Hf. split; [|rewrite <- (flat_perm _ _ _ _ Hr), flat_data, <- concat_map; done].
  unfold libtar_hash_free. apply free_buckets_spec; [apply Hr|exact (hr_apart _ _ _ _ Hr)|].
  intros k [i Hk]%list_elem_of_lookup. pose proof (bucket_length _ _ _ _ _ _ Hr Hk). lia.
Qed.

Lemma remove_all m (k : list (nat * A)) : (forall a, is_Some (m !! a) -> a ∈ k.*1) -> remove_nodes k m = ∅.
Proof.
  intros Hall. apply map_eq. intros a. rewrite remove_nodes_lookup, lookup_empty. case_decide as Hin; [done|].
  destruct (m !! a) as [n|] eqn:E; [|done]. destruct Hin. apply Hall. by rewrite E.
Qed.

(** [libtar_hash_free] releases everything: every node of the table is freed
    (nothing else is), and [freefunc] is called once for each element; so a store
    that held only the table is empty afterwards. *)
Theorem hash_free_releases fuel m h bs es :
  hash_rep m h bs es -> (length es < fuel)%nat ->
  exists m' freed, libtar_hash_free fuel m h (Some (fun x s => s ++ [x])) [] = ret (m', freed) /\ freed ≡ₚ es /\
    (forall a, m' !! a = if decide (a ∈ (concat bs).*1) then None else m !! a) /\
    ((forall a, is_Some (m !! a) -> a ∈ (concat bs).*1) -> m' = ∅).
Proof.
  intros Hr Hf. destruct (hash_free_spec fuel m h bs es (Some (fun x s => s ++ [x])) [] Hr Hf) as [-> Hp].
  assert (Hacc : forall xs s, fold_left (fun s x => release (Some (fun x s => s ++ [x])) x s) xs s = s ++ xs :> list A).
  { induction xs as [|x xs IH]; intros s; simpl; [by rewrite app_nil_r|]. by rewrite IH, <- app_assoc. }
  eexists _, _. split; [done|]. rewrite Hacc. split; [done|]. split; [intros a; apply remove_nodes_lookup|apply remove_all].
Qed.
End Properties.

(** * Witnesses *)

#[export] Instance Z_keyed : Keyed Z Z := {| key_of x := x; first_char x := x |}.

(** Four buckets, with the element 6 in the third one. *)
Definition demo_nodes : store Z := <[0%nat := Node 6 None None]> ∅.
Definition demo_buckets : list (list (nat * Z)) := [[]; []; [(0%nat, 6)]; []].
Definition demo_hash : libtar_hash Z Z :=
  mkHash 4 [None; None; Some (mkList (Some 0%nat) (Some 0%nat) strcmp LIST_QUEUE 1); None] (fun key n => key mod n) 1.
Definition same (key x : Z) : Z := if key =? x then 1 else 0.

Lemma demo_hash_rep : hash_rep demo_nodes demo_hash demo_buckets [6].
Proof.
  split; try done.
  - intros key. apply Z.mod_pos_bound. done.
  - repeat constructor; simpl; try done. set_solver.
  - intros [|[|[|[|i]]]] [|[|[|[|j]]]] k k' Hne; simpl; intros; simplify_eq; done || set_solver.
  - intros [|[|[|[|i]]]] k; simpl; intros; simplify_eq; done.
Qed.

Lemma same_respects key : respects demo_hash same key.
Proof. intros x. unfold matches, same. destruct (Z.eqb_spec key x); [by subst|done]. Qed.

Lemma hash_refines_list_witness :
  exists m' h' bs' hp, libtar_hash_add 3 demo_nodes demo_hash 10 = ret (0, m', h') /\ hash_rep m' h' bs' [6; 10] /\
    libtar_hash_getkey 3 m' h' libtar_hashptr_reset 10 (Some same) = ret (1, hp) /\ libtar_hashptr_data m' hp = Ret 10.
Proof.
  destruct (hash_refines_list 3 demo_nodes demo_hash _ _ 10 demo_hash_rep ltac:(simpl; lia) (bump_malloc Z _) eq_refl)
    as (m' & h' & bs' & E & Hr & Hg).
  destruct (Hg 10 same (same_respects 10)) as (found & hp & Eg & [-> Hd]). by exists m', h', bs', hp.
Defined.

Lemma hash_search_agrees_witness :
  exists hp hp', libtar_hash_search 2 demo_nodes demo_hash libtar_hashptr_reset 6 same = ret (1, hp) /\
    libtar_hash_getkey 2 demo_nodes demo_hash libtar_hashptr_reset 6 (Some same) = ret (1, hp').
Proof.
  destruct (hash_search_agrees 2 demo_nodes demo_hash _ _ 6 same demo_hash_rep ltac:(simpl; lia) (same_respects 6))
    as (found & hp & hp' & Es & Eg & Hf & _).
  assert (found = 1) as -> by (apply Hf; exists 6; split; [by left|done]). by exists hp, hp'.
Defined.

Lemma hash_free_releases_witness : libtar_hash_free 2 demo_nodes demo_hash (Some (fun x s => s ++ [x])) [] = ret (∅, [6]).
Proof.
  destruct (hash_free_releases 2 demo_nodes demo_hash _ _ demo_hash_rep ltac:(simpl; lia)) as (m' & freed & E & Hp & _ & Hm).
  apply Permutation_singleton_r in Hp as ->. rewrite Hm in E; [done|]. intros a [n Hn]. unfold demo_nodes in Hn.
  rewrite lookup_insert in Hn. case_decide; [|done]. subst. by left.
Defined.
