(* ===== verification/TarUtil.v ===== *)
(** The system calls of the tar library and its utilities: src/libtar/lib/util.c (the
    hash and match functions and [mkdirhier]).

    The calls are an interface ([FileSystem]) over the state of the file system, which
    each of them takes and returns; [None] is success and [Some e] is -1 with [errno] set
    to [e] where the caller looks at it. *)
From Stdlib Require Import ZArith List Lia Bool.
From S2P Require Import Prelude CString TarHeader TarBlock.
Import ListNotations.

Definition TAR_VERBOSE : Z := 2.
Definition TAR_NOOVERWRITE : Z := 4.
Definition ENOENT : Z := 2.
Definition EEXIST : Z := 17.
Definition ENOTDIR : Z := 20.

Class FileSystem (W : Type) := {
  lstat : list Z -> W -> stat + Z;
  readlink : list Z -> nat -> W -> option (list Z);
  lgetfilecon : list Z -> W -> option (list Z);
  geteuid : W -> Z;
  opendir : list Z -> W -> list (list Z) + Z;
  open_rdonly : list Z -> W -> option Z * W;
  open_creat : list Z -> Z -> W -> option Z * W;
  read : Z -> nat -> W -> Z * list Z * W;
  write : Z -> list Z -> W -> Z * W;
  close : Z -> W -> Z * W;
  mkdir : list Z -> Z -> W -> option Z * W;
  unlink : list Z -> W -> option Z * W;
  link : list Z -> list Z -> W -> Z * W;
  symlink : list Z -> list Z -> W -> Z * W;
  mknod : list Z -> Z -> Z -> W -> Z * W;
  mkfifo : list Z -> Z -> W -> Z * W;
  chmod : list Z -> Z -> W -> Z * W;
  lchown : list Z -> Z -> Z -> W -> Z * W;
  utime : list Z -> Z -> W -> Z * W;
  lsetfilecon : list Z -> list Z -> W -> Z * W
}.

(** * Keys of the hash tables *)

Definition dev_match (dev1 dev2 : Z) : Z := if dev1 =? dev2 then 1 else 0.
Definition ino_match (ino1 ino2 : Z) : Z := if ino1 =? ino2 then 1 else 0.

(** They are called with the number of buckets too, and do not look at it. *)
Definition dev_hash (dev : Z) : Z := dev mod 16.
Definition ino_hash (inode : Z) : Z := inode mod 256.

(** The first character of the last component; the key is copied to a buffer of
    [MAXPATHLEN] bytes without a test. *)
Definition path_hashfunc `{Target} (key : list Z) (numbuckets : Z) : outcome Z :=
  if (MAXPATHLEN <=? length key)%nat then Fault
  else
    let! p := openbsd_basename (Some key) in
    match p with
    | None => Fault
    | Some p => Ret (u32 (char (get (p ++ [0]) 0)) mod numbuckets)
    end.

(** * Creating directories *)

Section Mkdirhier.
Context {W : Type} `{FileSystem W}.

(** [strcat] onto a buffer of [MAXPATHLEN] bytes. *)
Definition strcat (dst s : list Z) : outcome (list Z) :=
  if (length dst + length s <? MAXPATHLEN)%nat then Ret (dst ++ s) else Fault.

Fixpoint mkdir_loop (fuel : nat) (nextp : option (list Z)) (dst : list Z) (retval : Z) (w : W) : M (Z * W) :=
  match fuel with
  | O => None
  | S fuel =>
      match nextp with
      | None => ret (retval, w)
      | Some s =>
          let '(dirp, nextp) := strsep s [SLASH] in
          match dirp with
          | [] => mkdir_loop fuel nextp dst retval w
          | _ =>
              do! dst := lift (match dst with [] => Ret dst | _ => strcat dst [SLASH] end) in
              do! dst := lift (strcat dst dirp) in
              let '(e, w) := mkdir dst 511 w in
              match e with
              | Some e => if negb (e =? EEXIST) then ret (-1, w) else mkdir_loop fuel nextp dst retval w
              | None => mkdir_loop fuel nextp dst 0 w
              end
          end
      end
  end.

Definition mkdirhier (fuel : nat) (path : list Z) (w : W) : M (Z * W) :=
  let '(src, len) := strlcpy path MAXPATHLEN in
  if Z.of_nat MAXPATHLEN <? len then ret (-1, w)
  else
    let dst := if is_slash (get (path ++ [0]) 0) then [SLASH] else [] in
    mkdir_loop fuel (Some (c_string_n MAXPATHLEN src)) dst 1 w.
End Mkdirhier.

(** An absolute path of [MAXPATHLEN - 1] characters passes the test on its length, but
    the second slash that is put before its first component makes it overrun the
    buffer. *)
Lemma mkdirhier_overruns {W : Type} `{FileSystem W} (w : W) : mkdirhier 3 (SLASH :: repeat 97 4094) w = lift Fault.
Proof. vm_compute. reflexivity. Qed.

(** * Files as streams of bytes *)

(** A descriptor that reads the bytes of a file to the end: each call returns as many
    as were asked for, as long as they last ([left r w]: in [w] the bytes [r] are left). *)
Definition reads {W} `{FileSystem W} (filefd : Z) (left : list Z -> W -> Prop) : Prop :=
  forall n r w, left r w ->
  exists w', read filefd n w = (Z.of_nat (Nat.min n (length r)), firstn n r, w') /\ left (skipn n r) w'.

(** A descriptor that takes all bytes it is given ([got g w]: in [w] it has taken [g]). *)
Definition writes {W} `{FileSystem W} (fdout : Z) (got : list Z -> W -> Prop) : Prop :=
  forall bs g w, got g w -> exists w', write fdout bs w = (Z.of_nat (length bs), w') /\ got (g ++ bs) w'.

(** The blocks of a file in an archive. *)
Definition pad (c : list Z) : list Z := strncpy c (T_BLOCKSIZE * count (length c)).

Lemma pad_nil : pad [] = [].
Proof. reflexivity. Qed.

Lemma pad_last c : (0 < length c <= T_BLOCKSIZE)%nat -> pad c = c ++ repeat 0 (T_BLOCKSIZE - length c).
Proof.
  intros Hc. unfold pad. rewrite (proj1 (count_S _ (proj1 Hc))) by lia. rewrite Nat.mul_1_r. unfold strncpy.
  rewrite firstn_app, firstn_all2 by lia. f_equal. rewrite <- (firstn_skipn (T_BLOCKSIZE - length c) (repeat 0 T_BLOCKSIZE)).
  rewrite firstn_app, length_firstn, repeat_length, firstn_firstn, Nat.min_id, (Nat.min_l _ T_BLOCKSIZE) by lia.
  rewrite Nat.sub_diag, firstn_O, app_nil_r. replace T_BLOCKSIZE with (T_BLOCKSIZE - length c + length c)%nat at 2 by lia.
  rewrite repeat_app, firstn_app, repeat_length, Nat.sub_diag, firstn_O, app_nil_r.
  apply firstn_all2. rewrite repeat_length. lia.
Qed.

Lemma strncpy_app a b n : strncpy (a ++ b) (length a + n) = a ++ strncpy b n.
Proof.
  unfold strncpy. rewrite <- app_assoc, firstn_app, firstn_all2 by lia. f_equal.
  replace (length a + n - length a)%nat with n by lia. rewrite !firstn_app. f_equal.
  rewrite Nat.add_comm, repeat_app, firstn_app, repeat_length.
  replace (n - length b - n)%nat with O by lia. rewrite firstn_O, app_nil_r. reflexivity.
Qed.

Lemma pad_block a c : length a = T_BLOCKSIZE -> c <> [] -> pad (a ++ c) = a ++ pad c.
Proof.
  intros Ha Hc. assert (Hl : (0 < length c)%nat) by (destruct c; [contradiction|cbn; lia]). unfold pad.
  destruct (count_S (length (a ++ c))) as [_ E]; [rewrite length_app; lia|].
  rewrite E by (rewrite length_app; lia). rewrite length_app, Ha.
  replace (T_BLOCKSIZE + length c - T_BLOCKSIZE)%nat with (length c) by lia.
  rewrite Nat.mul_succ_r, Nat.add_comm, <- Ha at 1. apply strncpy_app.
Qed.

Lemma pad_length c : length (pad c) = (T_BLOCKSIZE * count (length c))%nat.
Proof. apply strncpy_length. Qed.

(** Fewer blocks than [fuel]: fewer bytes than [fuel] blocks have. *)
Lemma count_bound n fuel : (count n < fuel)%nat -> (n < T_BLOCKSIZE * fuel)%nat.
Proof.
  unfold count, T_BLOCKSIZE. pose proof (Nat.div_mod n 512 ltac:(lia)). pose proof (Nat.mod_upper_bound n 512 ltac:(lia)).
  destruct (Nat.eqb_spec (n mod 512) 0); lia.
Qed.
