(* ===== verification/TarOutput.v ===== *)
(** Listings: src/libtar/lib/output.c and src/libtar/compat/strmode.c.

    What the functions print is the list of the characters. *)
From Stdlib Require Import String Ascii.
From stdpp Require Import list sets.
From S2P Require Import Prelude CString TarHeader TarBlock TarUtil.

(** The characters of a format string. *)
Fixpoint text (s : string) : list Z :=
  match s with EmptyString => [] | String c s => Z.of_N (N_of_ascii c) :: text s end.

(** * Modes *)

Definition S_ISUID : Z := 2048.
Definition S_ISGID : Z := 1024.
Definition S_ISVTX : Z := 512.

Definition type_char (mode : Z) : Z :=
  let ty := mode .& S_IFMT in
  if ty =? S_IFDIR then 100 else if ty =? S_IFCHR then 99 else if ty =? S_IFBLK then 98
  else if ty =? S_IFREG then 45 else if ty =? S_IFLNK then 108 else if ty =? S_IFSOCK then 115
  else if ty =? S_IFIFO then 112 else 63.

Definition flag_char (mode bit c : Z) : Z := if mode .& bit =? 0 then 45 else c.

(** The switch on the execute bit and the bit above it. *)
Definition exec_char (mode x_bit s_bit upper lower : Z) : Z :=
  let v := mode .& (x_bit .| s_bit) in
  if v =? 0 then 45 else if v =? x_bit then 120 else if v =? s_bit then upper else lower.

Definition strmode (mode : Z) : list Z :=
  [type_char mode;
   flag_char mode 256 114; flag_char mode 128 119; exec_char mode 64 S_ISUID 83 115;
   flag_char mode 32 114; flag_char mode 16 119; exec_char mode 8 S_ISGID 83 115;
   flag_char mode 4 114; flag_char mode 2 119; exec_char mode 1 S_ISVTX 84 116;
   SPACE; 0].

(** * Numbers and columns *)

Fixpoint decimal_loop (fuel : nat) (z : Z) (acc : list Z) : list Z :=
  match fuel with
  | O => acc
  | S f => let acc := 48 + z mod 10 :: acc in if z / 10 =? 0 then acc else decimal_loop f (z / 10) acc
  end.

(** [%d] of an [int]: 10 digits are enough. *)
Definition print_int (z : Z) : list Z := if z <? 0 then 45 :: decimal_loop 10 (- z) [] else decimal_loop 10 z [].

Definition pad_right (width : nat) (s : list Z) : list Z := s ++ repeat SPACE (width - length s).

Section Output.
Context `{Target} `{Libc}.
(** [localtime] and [strftime] with the format "%h %e %H:%M %Y" into 18 bytes *)
Context (date : Z -> list Z).

(** The names of users and groups are cut to 8 characters. *)
Definition LOGIN_NAME_MAX : nat := 9.
Definition owner_name (options id : Z) (entry : option (list Z)) : list Z :=
  let buf := match entry with
             | Some n => if opt options TAR_USE_NUMERIC_ID then snprintf LOGIN_NAME_MAX (print_int (i32 id)) else (strlcpy n LOGIN_NAME_MAX).1
             | None => snprintf LOGIN_NAME_MAX (print_int (i32 id))
             end in
  c_string_n LOGIN_NAME_MAX buf.

(** [" -> "] or [" link to "] and the target. *)
Definition print_link (options : Z) (h : tar_header) : outcome (list Z) :=
  let! sym := TH_ISSYM h in
  if sym || TH_ISLNK h then
    let! target := match gnu_longlink h with
                   | Some l => if opt options TAR_GNU then c_string l else Ret (c_string_n 100 (at_member h linkname))
                   | None => Ret (c_string_n 100 (at_member h linkname))
                   end in
    Ret (text (if sym then " -> " else " link to ") ++ target)
  else Ret [].

Definition th_print_long_ls {D : Type} (t : TAR D) : outcome (list Z) :=
  let h := th_buf t in
  let! u := th_get_uid (options t) h in
  let username := owner_name (options t) u (getpwuid u) in
  let! g := th_get_gid (options t) h in
  let groupname := owner_name (options t) g (getgrgid g) in
  let! m := th_get_mode h in
  let who := c_string_n 10 (strmode m) ++ [SPACE] ++ pad_right 8 (firstn 8 username) ++ [SPACE]
             ++ pad_right 8 (firstn 8 groupname) ++ [SPACE] in
  let! chr := TH_ISCHR h in
  let! dev := orr chr (TH_ISBLK h) in
  let! what :=
    if dev then
      let! maj := th_get_devmajor h in
      let! min := th_get_devminor h in
      Ret ([SPACE] ++ pad_left 3 (print_int (i32 maj)) ++ text ", " ++ pad_left 3 (print_int (i32 min)) ++ [SPACE])
    else
      let! sz := th_get_size h in Ret (pad_left 9 (print_int (i32 sz)) ++ [SPACE]) in
  let! mt := th_get_mtime h in
  let! pathname := th_get_pathname h in
  let! link := print_link (options t) h in
  Ret (who ++ what ++ date mt ++ [SPACE] ++ pathname ++ link ++ [NEWLINE]).

Definition th_print {D : Type} (t : TAR D) : outcome (list Z) :=
  let h := th_buf t in
  let quoted label s := text label ++ [34] ++ s ++ [34; NEWLINE] in
  let field_of label n m := quoted label (c_string_n n (at_member h m)) in
  let pointer label p := let! s := match p with Some s => c_string s | None => Ret (text "[NULL]") end in Ret (quoted label s) in
  let! ln := pointer "  gnu_longname = "%string (gnu_longname h) in
  let! ll := pointer "  gnu_longlink = "%string (gnu_longlink h) in
  Ret ([NEWLINE] ++ text "Printing tar header:" ++ [NEWLINE]
       ++ field_of "  name     = "%string 100%nat name ++ field_of "  mode     = "%string 8%nat mode
       ++ field_of "  uid      = "%string 8%nat uid ++ field_of "  gid      = "%string 8%nat gid
       ++ field_of "  size     = "%string 12%nat size ++ field_of "  mtime    = "%string 12%nat mtime
       ++ field_of "  chksum   = "%string 8%nat chksum ++ text "  typeflag = '" ++ [type_of h] ++ [39; NEWLINE]
       ++ field_of "  linkname = "%string 100%nat linkname ++ field_of "  magic    = "%string 6%nat magic
       ++ text "  version[0] = '" ++ firstn 1 (at_member h version) ++ text "',version[1] = '"
       ++ firstn 1 (skipn 1 (at_member h version)) ++ [39; NEWLINE]
       ++ field_of "  uname    = "%string 32%nat uname ++ field_of "  gname    = "%string 32%nat gname
       ++ field_of "  devmajor = "%string 8%nat devmajor ++ field_of "  devminor = "%string 8%nat devminor
       ++ field_of "  prefix   = "%string 155%nat prefix ++ field_of "  padding  = "%string 12%nat padding ++ ln ++ ll).
End Output.

(** * Reading a mode string back *)

Definition types : list Z := [S_IFDIR; S_IFCHR; S_IFBLK; S_IFREG; S_IFLNK; S_IFSOCK; S_IFIFO].

(** The bits a character stands for: the letter itself, and the special bit. *)
Definition char_bits (bit s_bit c : Z) : Z :=
  if (c =? 83) || (c =? 84) then s_bit else if (c =? 115) || (c =? 116) then bit .| s_bit
  else if c =? 45 then 0 else bit.

Definition read_mode (s : list Z) : option Z :=
  match s with
  | [ty; ur; uw; ux; gr; gw; gx; r; w; x; _; _] =>
      match find (fun t => type_char t =? ty) types with
      | Some t => Some (t .| char_bits 256 0 ur .| char_bits 128 0 uw .| char_bits 64 S_ISUID ux
                        .| char_bits 32 0 gr .| char_bits 16 0 gw .| char_bits 8 S_ISGID gx
                        .| char_bits 4 0 r .| char_bits 2 0 w .| char_bits 1 S_ISVTX x)
      | None => None
      end
  | _ => None
  end.

Lemma land_bit m k : 0 <= k -> m .& 2 ^ k = 0 \/ m .& 2 ^ k = 2 ^ k.
Proof.
  intros Hk. destruct (Z.testbit m k) eqn:E; [right|left]; apply Z.bits_inj'; intros n Hn; rewrite Z.land_spec, Z.pow2_bits_eqb by lia;
    [|rewrite Z.bits_0]; destruct (Z.eqb_spec k n) as [<-|]; rewrite ?andb_false_r, ?andb_true_r; done.
Qed.

(** The bits are those of the mode. *)
Lemma flag_bits m k c : 0 <= k -> c ∈ [114; 119] -> char_bits (2 ^ k) 0 (flag_char m (2 ^ k) c) = m .& 2 ^ k.
Proof.
  intros Hk Hc. pose proof (Z.pow_pos_nonneg 2 k). unfold flag_char.
  assert (char_bits (2 ^ k) 0 c = 2 ^ k) by (repeat (apply elem_of_cons in Hc as [->|Hc]; [done|]); by apply elem_of_nil in Hc).
  destruct (land_bit m k Hk) as [-> | ->]; [done|]. destruct (Z.eqb_spec (2 ^ k) 0); [lia|done].
Qed.

Lemma exec_bits m x y upper lower : 0 <= x < y -> (upper, lower) ∈ [(83, 115); (84, 116)] ->
  char_bits (2 ^ x) (2 ^ y) (exec_char m (2 ^ x) (2 ^ y) upper lower) = m .& (2 ^ x .| 2 ^ y).
Proof.
  intros Hxy Hc. pose proof (Z.pow_pos_nonneg 2 x). pose proof (Z.pow_lt_mono_r 2 x y).
  assert (Hs : 2 ^ x .| 2 ^ y = 2 ^ x + 2 ^ y).
  { rewrite <- Z.lxor_lor, Z.add_nocarry_lxor; try done; apply Z.bits_inj'; intros n Hn;
      rewrite Z.land_spec, !Z.pow2_bits_eqb, Z.bits_0 by lia; destruct (Z.eqb_spec x n), (Z.eqb_spec y n); lia || done. }
  assert (Hu : char_bits (2 ^ x) (2 ^ y) upper = 2 ^ y /\ char_bits (2 ^ x) (2 ^ y) lower = 2 ^ x .| 2 ^ y)
    by (repeat (apply elem_of_cons in Hc as [[= -> ->]|Hc]; [done|]); by apply elem_of_nil in Hc).
  destruct Hu as [Hu Hl]. unfold exec_char. rewrite Z.land_lor_distr_r.
  destruct (land_bit m x ltac:(lia)) as [-> | ->], (land_bit m y ltac:(lia)) as [-> | ->]; rewrite ?Z.lor_0_l, ?Z.lor_0_r.
  - done.
  - destruct (Z.eqb_spec (2 ^ y) 0), (Z.eqb_spec (2 ^ y) (2 ^ x)); try lia. by rewrite Z.eqb_refl.
  - destruct (Z.eqb_spec (2 ^ x) 0); [lia|]. by rewrite Z.eqb_refl.
  - rewrite Hs. destruct (Z.eqb_spec (2 ^ x + 2 ^ y) 0), (Z.eqb_spec (2 ^ x + 2 ^ y) (2 ^ x)), (Z.eqb_spec (2 ^ x + 2 ^ y) (2 ^ y)); lia.
Qed.

Lemma type_found m : m .& S_IFMT ∈ types -> find (fun t => type_char t =? type_char m) types = Some (m .& S_IFMT).
Proof.
  unfold type_char at 2. intros Hin. repeat (apply elem_of_cons in Hin as [-> | Hin]; [done|]). by apply elem_of_nil in Hin.
Qed.

Lemma strmode_read m : word 16 m -> m .& S_IFMT ∈ types -> read_mode (strmode m) = Some m.
Proof.
  intros Hw Hin. unfold strmode, read_mode. rewrite type_found by done. f_equal.
  rewrite (flag_bits m 8), (flag_bits m 7), (exec_bits m 6 11), (flag_bits m 5), (flag_bits m 4), (exec_bits m 3 10),
    (flag_bits m 2), (flag_bits m 1), (exec_bits m 0 9) by (lia || set_solver).
  rewrite <- !Z.land_lor_distr_r. transitivity (m .& Z.ones 16); [done|]. rewrite Z.land_ones by lia.
  apply Z.mod_small. exact Hw.
Qed.

(** The mode string of a listing is lossless: for every 16-bit mode of one of the
    seven file types, [strmode] writes 12 bytes from which the type, the nine
    permissions and the three special bits can be read back, so that different modes
    never have the same string. *)
Theorem strmode_lossless mode :
  word 16 mode -> mode .& S_IFMT ∈ types ->
  length (strmode mode) = 12%nat /\ read_mode (strmode mode) = Some mode /\
  forall mode', word 16 mode' -> mode' .& S_IFMT ∈ types -> strmode mode' = strmode mode -> mode' = mode.
Proof.
  intros Hw Hin. split; [done|]. split; [by apply strmode_read|].
  intros m' Hw' Hin' E. pose proof (strmode_read _ Hw' Hin') as E'. rewrite E, strmode_read in E' by done. congruence.
Qed.

(** A set-user-id program: "-rwsr-xr-x". *)
Lemma strmode_lossless_witness :
  strmode 35309 = text "-rwsr-xr-x " ++ [0] /\ read_mode (strmode 35309) = Some 35309.
Proof.
  split; [reflexivity|]. apply (strmode_lossless 35309); [unfold word; lia|]. change (35309 .& S_IFMT) with S_IFREG. do 3 right. left.
Defined.
