(* ===== verification/TarAppend.v ===== *)
(** Writing archives: src/libtar/lib/append.c and [tar_append_tree] of wrapper.c.

    The handle is the one of [TarBlock] together with the cache of inodes: the hash table
    [t->h] of devices, each with a hash table of the inodes seen on it.  A device is
    its number and the address of its table; the tables are kept by address. *)
From stdpp Require Import gmap list.
From S2P Require Import Prelude CString TarHeader TarBlock TarUtil LinkedList HashTable.

Record tar_ino := mkIno { ti_ino : Z; ti_name : list Z }.
Record tar_dev := mkDev { td_dev : Z; td_h : nat }.

#[export] Instance tar_dev_eq_dec : EqDecision tar_dev.
Proof. solve_decision. Defined.

#[export] Instance ino_keyed : Keyed tar_ino Z := {| key_of := ti_ino; first_char ino := ino mod 256 |}.
#[export] Instance dev_keyed : Keyed tar_dev Z := {| key_of := td_dev; first_char dev := dev mod 256 |}.

Record cache := mkCache {
  dev_nodes : store tar_dev;
  devices : libtar_hash tar_dev Z;
  ino_nodes : store tar_ino;
  inode_tables : gmap nat (libtar_hash tar_ino Z)
}.

(** What the default comparison reads is of no use here: all lists are queues, and
    every search has a function of its own. *)
Class Comparisons := {
  dev_strcmp :: StrCmp tar_dev tar_dev;
  dev_key_strcmp :: StrCmp Z tar_dev;
  ino_strcmp :: StrCmp tar_ino tar_ino;
  ino_key_strcmp :: StrCmp Z tar_ino
}.

(** The contents of a local buffer of one block that has not been written to. *)
Class Stack := { stack_block : list Z; stack_block_length : length stack_block = T_BLOCKSIZE }.

Section Append.
Context `{Target} `{Libc} {D : Type} `{TarType D} {W : Type} `{FileSystem W}.
Context `{Allocator tar_dev} `{Allocator tar_ino} `{Comparisons} `{Stack}.

(** ** The contents of a file *)

(** The full blocks: the value of [i] after the loop, or [None] for the return of -1. *)
Fixpoint append_blocks (fuel : nat) (filefd : Z) (block : list Z) (i : Z) (t : TAR D) (w : W)
    : option (option (Z * list Z) * TAR D * W) :=
  match fuel with
  | O => None
  | S fuel =>
      if BLOCK <? i then
        let '(j, bs, w) := read filefd T_BLOCKSIZE w in
        let block := blit block 0 (firstn T_BLOCKSIZE bs) in
        if negb (j =? BLOCK) then Some (None, (failed j t).2, w)
        else
          let '(k, t) := write_block t block in
          if k =? -1 then Some (None, t, w)
          else append_blocks fuel filefd block (i - BLOCK) t w
      else Some (Some (i, block), t, w)
  end.

Definition tar_append_regfile (fuel : nat) (t : TAR D) (realname : list Z) (w : W) : M (Z * TAR D * W) :=
  let '(filefd, w) := open_rdonly realname w in
  match filefd with
  | None => ret (-1, t, w)
  | Some filefd =>
      do! sz := lift (th_get_size (th_buf t)) in
      match append_blocks fuel filefd stack_block (i32 sz) t w with
      | None => None
      | Some (None, t, w) => ret (-1, t, w)
      | Some (Some (i, block), t, w) =>
          if 0 <? i then
            let '(j, bs, w) := read filefd (Z.to_nat i) w in
            if j =? -1 then ret (-1, t, w)
            else
              let block := blit block 0 (firstn (Z.to_nat i) bs) in
              let block := blit block (Z.to_nat i) (repeat 0 (T_BLOCKSIZE - Z.to_nat i)) in
              let '(k, t) := write_block t block in
              if k =? -1 then ret (-1, t, w)
              else let '(_, w) := close filefd w in ret (0, t, w)
          else let '(_, w) := close filefd w in ret (0, t, w)
      end
  end.

(** ** The end of the archive *)

Fixpoint append_zeros (j : nat) (t : TAR D) : Z * TAR D :=
  match j with
  | O => (0, t)
  | S j =>
      let '(i, t) := write_block t (repeat 0 T_BLOCKSIZE) in
      if negb (i =? BLOCK) then failed i t else append_zeros j t
  end.

Definition tar_append_eof (t : TAR D) : Z * TAR D := append_zeros 2 t.

(** ** The cache of inodes *)

(** The table of a device, made and added when the device is new; [None] is a return
    of -1. *)
Definition device_table (fuel : nat) (c : cache) (st_dev : Z) : M (option nat * cache) :=
  do! r := libtar_hash_getkey fuel (dev_nodes c) (devices c) libtar_hashptr_reset st_dev
             (Some (fun key td => dev_match key (td_dev td))) in
  let '(i, hp) := r in
  if negb (i =? 0) then
    do! td := lift (libtar_hashptr_data (dev_nodes c) hp) in ret (Some (td_h td), c)
  else if negb (calloc_ok (dev_nodes c)) then lift Fault
  else
    match libtar_hash_new (ino_nodes c) 256 (Some (fun ino _ => ino_hash ino)) with
    | None => ret (None, c)
    | Some h =>
        let a := next_address (inode_tables c) in
        let c := mkCache (dev_nodes c) (devices c) (ino_nodes c) (<[a := h]> (inode_tables c)) in
        do! r := libtar_hash_add fuel (dev_nodes c) (devices c) (mkDev st_dev a) in
        let '(i, m, h) := r in
        let c := mkCache m h (ino_nodes c) (inode_tables c) in
        ret (if i =? -1 then None else Some a, c)
    end.

(** The name under which an inode has been saved, if it has; otherwise it is added. *)
Definition inode_entry (fuel : nat) (c : cache) (td : nat) (st_ino : Z) (name : list Z) : M (option (option (list Z)) * cache) :=
  match inode_tables c !! td with
  | None => lift Fault
  | Some h =>
      do! r := libtar_hash_getkey fuel (ino_nodes c) h libtar_hashptr_reset st_ino
                 (Some (fun key ti => ino_match key (ti_ino ti))) in
      let '(i, hp) := r in
      if negb (i =? 0) then
        do! ti := lift (libtar_hashptr_data (ino_nodes c) hp) in ret (Some (Some (ti_name ti)), c)
      else if negb (calloc_ok (ino_nodes c)) then ret (None, c)
      else
        let ti := mkIno st_ino (c_string_n MAXPATHLEN (snprintf MAXPATHLEN name)) in
        do! r := libtar_hash_add fuel (ino_nodes c) h ti in
        let '(_, m, h) := r in
        ret (Some None, mkCache (dev_nodes c) (devices c) m (<[td := h]> (inode_tables c)))
  end.

(** ** A file *)

(** The header: type, owner and so on, the path, the SELinux context. *)
Definition append_header (t : TAR D) (s : stat) (realname name : list Z) (w : W) : outcome (TAR D) :=
  let h := th_set_from_stat (options t) zero_header s in
  let! h := th_set_path (options t) h name in
  let h := if opt (options t) TAR_STORE_SELINUX
           then set_selinux h (match lgetfilecon realname w with Some c => Some (strdup c) | None => None end)
           else h in
  Ret (with_header t h).

(** The hard link to a file that is in the archive already. *)
Definition link_header (t : TAR D) (linkname : list Z) : TAR D :=
  with_header t (th_set_link (options t) (put (th_buf t) typeflag [LNKTYPE]) linkname).

(** The target of a symbolic link; [None] is a return of -1. *)
Definition symlink_header (t : TAR D) (realname : list Z) (w : W) : outcome (option (TAR D)) :=
  let! sym := TH_ISSYM (th_buf t) in
  if sym then
    match readlink realname MAXPATHLEN w with
    | None => Ret None
    | Some path => Ret (Some (with_header t (th_set_link (options t) (th_buf t)
                       (c_string_n MAXPATHLEN (firstn (MAXPATHLEN - 1) path ++ [0])))))
    end
  else Ret (Some t).

(** The header and the contents are written. *)
Definition append_write (fuel : nat) (t : TAR D) (realname : list Z) (w : W) : M (Z * TAR D * W) :=
  do! _ := lift (if opt (options t) TAR_VERBOSE then th_get_pathname (th_buf t) else Ret []) in
  do! r := lift (th_write t) in
  let '(i, t) := r in
  if negb (i =? 0) then ret (-1, t, w)
  else
    do! reg := lift (TH_ISREG (th_buf t)) in
    if reg then
      do! r := tar_append_regfile fuel t realname w in
      let '(i, t, w) := r in ret (if negb (i =? 0) then -1 else 0, t, w)
    else ret (0, t, w).

Definition tar_append_file (fuel : nat) (t : TAR D) (c : cache) (realname : list Z) (savename : option (list Z)) (w : W)
    : M (Z * TAR D * cache * W) :=
  match lstat realname w with
  | inr _ => ret (-1, t, c, w)
  | inl s =>
      let name := match savename with Some n => n | None => realname end in
      do! t := lift (append_header t s realname name w) in
      do! r := device_table fuel c (st_dev s) in
      let '(td, c) := r in
      match td with
      | None => ret (-1, t, c, w)
      | Some td =>
          do! r := inode_entry fuel c td (st_ino s) name in
          let '(seen, c) := r in
          match seen with
          | None => ret (-1, t, c, w)
          | Some seen =>
              let t := match seen with Some ti_name => link_header t ti_name | None => t end in
              do! r := lift (symlink_header t realname w) in
              match r with
              | None => ret (-1, t, c, w)
              | Some t =>
                  do! r := append_write fuel t realname w in
                  let '(i, t, w) := r in ret (i, t, c, w)
              end
          end
      end
  end.

(** ** A tree *)

(** [snprintf(buf, MAXPATHLEN, "%s/%s", dir, name)] *)
Definition join_path (dir name : list Z) : list Z := firstn (MAXPATHLEN - 1) (dir ++ SLASH :: name).

(** The entries of a directory other than [.] and [..]; [tree] appends a directory. *)
Fixpoint append_entries (tree : TAR D -> cache -> list Z -> option (list Z) -> W -> M (Z * TAR D * cache * W))
    (fuel : nat) (entries : list (list Z)) (t : TAR D) (c : cache) (realdir : list Z) (savedir : option (list Z)) (w : W)
    : M (Z * TAR D * cache * W) :=
  match entries with
  | [] => ret (0, t, c, w)
  | d_name :: entries =>
      if (strcmp_chars d_name [DOT] =? 0) || (strcmp_chars d_name [DOT; DOT] =? 0)
      then append_entries tree fuel entries t c realdir savedir w
      else
        let realpath := join_path realdir d_name in
        let savepath := match savedir with Some d => Some (join_path d d_name) | None => None end in
        match lstat realpath w with
        | inr _ => ret (-1, t, c, w)
        | inl s =>
            do! r := if is_type S_IFDIR (st_mode s) then tree t c realpath savepath w
                     else tar_append_file fuel t c realpath savepath w in
            let '(i, t, c, w) := r in
            if negb (i =? 0) then ret (-1, t, c, w) else append_entries tree fuel entries t c realdir savedir w
        end
  end.

(** [depth] bounds the nesting of directories. *)
Fixpoint tar_append_tree (depth fuel : nat) (t : TAR D) (c : cache) (realdir : list Z) (savedir : option (list Z)) (w : W)
    : M (Z * TAR D * cache * W) :=
  match depth with
  | O => None
  | S depth =>
      do! r := tar_append_file fuel t c realdir savedir w in
      let '(i, t, c, w) := r in
      if negb (i =? 0) then ret (-1, t, c, w)
      else
        match opendir realdir w with
        | inr e => ret (if e =? ENOTDIR then 0 else -1, t, c, w)
        | inl entries => append_entries (tar_append_tree depth fuel) fuel entries t c realdir savedir w
        end
  end.
End Append.

(** * The contents of regular files *)

Section Contents.
Context `{Target} {W : Type} `{FileSystem W} `{Stack}.
Implicit Types (t : TAR (list Z)).

Lemma blit_whole (block bs : list Z) : length bs = length block -> blit block 0 bs = bs.
Proof. intros Hl. unfold blit. rewrite Hl, firstn_O, app_nil_l, Nat.add_0_l, skipn_all. apply app_nil_r. Qed.

(** The last block: the bytes read, and zeros. *)
Lemma blit_last (block r : list Z) : length block = T_BLOCKSIZE -> (length r <= T_BLOCKSIZE)%nat ->
  blit (blit block 0 r) (length r) (repeat 0 (T_BLOCKSIZE - length r)) = r ++ repeat 0 (T_BLOCKSIZE - length r).
Proof.
  intros Hb Hr. unfold blit at 1. rewrite repeat_length.
  assert (Hl : length (blit block 0 r) = T_BLOCKSIZE) by (rewrite blit_length; lia).
  rewrite (skipn_all2 (blit block 0 r)) by lia. rewrite app_nil_r. f_equal.
  unfold blit. rewrite firstn_O, app_nil_l, firstn_app, firstn_all, Nat.sub_diag, firstn_O. apply app_nil_r.
Qed.

Lemma write_block_memory t b : write_block t b = (BLOCK, with_fd t (fd t ++ b)).
Proof. reflexivity. Qed.

(** The loop writes all blocks but the last one. *)
Lemma append_blocks_spec filefd left : reads filefd left -> forall fuel c block t w,
  left c w -> length block = T_BLOCKSIZE -> (length c < T_BLOCKSIZE * fuel)%nat ->
  exists q r block' w', append_blocks fuel filefd block (Z.of_nat (length c)) t w
      = Some (Some (Z.of_nat (length r), block'), with_fd t (fd t ++ q), w') /\
    left r w' /\ pad c = q ++ pad r /\ (length r <= T_BLOCKSIZE)%nat /\ length block' = T_BLOCKSIZE.
Proof.
  intros Hrd fuel. induction fuel as [|fuel IH]; intros c block t w Hc Hb Hf; [lia|]. cbn [append_blocks].
  destruct (Z.ltb_spec BLOCK (Z.of_nat (length c))) as [Hlt|Hge].
  - assert (Hl : (T_BLOCKSIZE < length c)%nat) by (unfold BLOCK, T_BLOCKSIZE in *; lia).
    destruct (Hrd T_BLOCKSIZE c w Hc) as (w1 & -> & Hr1). rewrite Nat.min_l by lia.
    change (negb (Z.of_nat T_BLOCKSIZE =? BLOCK)) with false. cbv iota.
    assert (La : length (firstn T_BLOCKSIZE c) = T_BLOCKSIZE) by (rewrite length_firstn; lia).
    rewrite firstn_firstn, Nat.min_id, blit_whole, write_block_memory by congruence. change (BLOCK =? -1) with false. cbv iota.
    pose proof (length_skipn T_BLOCKSIZE c) as Hlen.
    replace (Z.of_nat (length c) - BLOCK) with (Z.of_nat (length (skipn T_BLOCKSIZE c))) by (rewrite Hlen; unfold BLOCK, T_BLOCKSIZE in *; lia).
    destruct (IH (skipn T_BLOCKSIZE c) (firstn T_BLOCKSIZE c) (with_fd t (fd t ++ firstn T_BLOCKSIZE c)) w1 Hr1 La)
      as (q & r & block' & w' & -> & Hr & Hp & Hlr & Hlb); [lia|].
    exists (firstn T_BLOCKSIZE c ++ q), r, block', w'. cbn [with_fd fd]. rewrite <- !app_assoc, <- Hp.
    split; [done|]. split; [done|]. split; [|done].
    rewrite <- pad_block, firstn_skipn; [done|done|]. intros E. rewrite E in Hlen. simpl in Hlen. lia.
  - exists [], c, block, w. rewrite app_nil_r. destruct t. split_and!; try done. unfold BLOCK, T_BLOCKSIZE in *. lia.
Qed.

(** [tar_append_regfile] writes the contents of the file, padded to blocks. *)
Lemma append_regfile_spec fuel t realname w filefd w0 left c :
  open_rdonly realname w = (Some filefd, w0) -> reads filefd left -> left c w0 ->
  th_get_size (th_buf t) = Ret (Z.of_nat (length c)) -> Z.of_nat (length c) < 2 ^ 31 ->
  (length c < T_BLOCKSIZE * fuel)%nat ->
  exists r w', tar_append_regfile fuel t realname w = ret (0, with_fd t (fd t ++ pad c), (close filefd w').2) /\ left r w'.
Proof.
  intros Ho Hrd Hc Hs Hmax Hf. unfold tar_append_regfile. rewrite Ho, Hs. cbn [lift bindM]. rewrite i32_small by lia.
  destruct (append_blocks_spec filefd left Hrd fuel c stack_block t w0 Hc stack_block_length Hf)
    as (q & r & block & w1 & -> & Hr & Hp & Hlr & Hlb). rewrite Hp.
  destruct (Z.ltb_spec 0 (Z.of_nat (length r))) as [Hpos|Hz].
  - rewrite Nat2Z.id. destruct (Hrd (length r) r w1 Hr) as (w2 & -> & Hr2). rewrite Nat.min_id.
    destruct (Z.eqb_spec (Z.of_nat (length r)) (-1)); [lia|]. rewrite firstn_all, firstn_all.
    rewrite blit_last, <- pad_last, write_block_memory by (done || lia). change (BLOCK =? -1) with false. cbv iota.
    exists (skipn (length r) r), w2. split; [|exact Hr2]. cbn [with_fd fd]. destruct (close filefd w2). by rewrite <- app_assoc.
  - destruct r; [|simpl in Hz; lia]. rewrite pad_nil, app_nil_r. exists [], w1. split; [|exact Hr]. by destruct (close filefd w1).
Qed.
End Contents.

(** * The cache of inodes *)

Section Cache.
Context `{Allocator tar_dev} `{Allocator tar_ino} `{Comparisons}.
Hypothesis dev_memory : forall m : store tar_dev, malloc m <> None /\ calloc_ok m = true.
Hypothesis ino_memory : forall m : store tar_ino, malloc m <> None /\ calloc_ok m = true.

(** The files recorded for a device. *)
Definition on_device (dev : Z) (seen : list (Z * tar_ino)) : list tar_ino := (filter (fun e => e.1 = dev) seen).*2.

(** The cache holds the files [seen], each with its device, in the order in which they
    were added; [ds] are the devices and [T] gives the nodes of their tables.  Nothing
    else is allocated. *)
Record cache_rep (c : cache) bs (ds : list tar_dev) (T : nat -> list (list (nat * tar_ino))) (seen : list (Z * tar_ino)) : Prop := {
  cr_devs : hash_rep (dev_nodes c) (devices c) bs ds;
  cr_hash : hashfunc (devices c) = fun dev _ => dev_hash dev;
  cr_unique : NoDup (map td_dev ds);
  cr_addresses : NoDup (map td_h ds);
  cr_table td : td ∈ ds -> exists h, inode_tables c !! td_h td = Some h /\ hashfunc h = (fun ino _ => ino_hash ino) /\
    hash_rep (ino_nodes c) h (T (td_h td)) (on_device (td_dev td) seen);
  cr_apart td td' : td ∈ ds -> td' ∈ ds -> td <> td' -> (concat (T (td_h td))).*1 ## (concat (T (td_h td'))).*1;
  cr_all e : e ∈ seen -> exists td, td ∈ ds /\ td_dev td = e.1;
  cr_dev_nodes a : is_Some (dev_nodes c !! a) -> a ∈ (concat bs).*1;
  cr_ino_nodes a : is_Some (ino_nodes c !! a) -> exists td, td ∈ ds /\ a ∈ (concat (T (td_h td))).*1;
  cr_tables a : is_Some (inode_tables c !! a) -> exists td, td ∈ ds /\ td_h td = a
}.

Lemma dev_matches key td : matches (fun key td => dev_match key (td_dev td)) key td = true <-> td_dev td = key.
Proof. unfold matches, dev_match. destruct (Z.eqb_spec key (td_dev td)); simpl; split; congruence. Qed.

Lemma ino_matches key ti : matches (fun key ti => ino_match key (ti_ino ti)) key ti = true <-> ti_ino ti = key.
Proof. unfold matches, ino_match. destruct (Z.eqb_spec key (ti_ino ti)); simpl; split; congruence. Qed.

Lemma on_device_none dev seen : (forall e, e ∈ seen -> e.1 <> dev) -> on_device dev seen = [].
Proof.
  intros Hn. unfold on_device. induction seen as [|e seen IH]; [done|]. rewrite filter_cons, decide_False by (apply Hn; by left).
  apply IH. intros e' He. apply Hn. by right.
Qed.

Lemma NoDup_key_eq {X Y : Type} (f : X -> Y) (xs : list X) x y : NoDup (map f xs) -> x ∈ xs -> y ∈ xs -> f x = f y -> x = y.
Proof.
  intros Hn [i Hi]%list_elem_of_lookup [j Hj]%list_elem_of_lookup E.
  assert (i = j) as ->; [|congruence].
  apply (NoDup_lookup _ i j (f x) Hn); rewrite list_lookup_fmap; [by rewrite Hi|by rewrite Hj, E].
Qed.

Lemma new_inode_table m : exists h, libtar_hash_new m 256 (Some (fun ino _ => ino_hash ino)) = Some h /\
  hash_rep m h (replicate (Z.to_nat 256) []) [] /\ hashfunc h = (fun ino _ => ino_hash ino).
Proof.
  destruct (hash_new_rep m 256 (fun ino _ => ino_hash ino) (proj2 (ino_memory m))) as (h & E & Hr & Hf & _).
  - done.
  - intros key. by apply Z.mod_pos_bound.
  - by exists h.
Qed.

Lemma device_table_spec fuel c bs ds T seen dev :
  cache_rep c bs ds T seen -> (length ds < fuel)%nat ->
  exists c' bs' ds' T' td, device_table fuel c dev = ret (Some (td_h td), c') /\ cache_rep c' bs' ds' T' seen /\
    td ∈ ds' /\ td_dev td = dev /\ (length ds' <= S (length ds))%nat.
Proof.
  intros Hc Hf. pose proof (cr_devs _ _ _ _ _ Hc) as Hr. unfold device_table.
  destruct (hash_getkey_spec fuel _ _ bs ds dev (fun key td => dev_match key (td_dev td)) Hr Hf) as (i & hp & -> & Hg).
  { intros td _ Htd%dev_matches. simpl. by rewrite Htd. }
  cbn [bindM ret]. destruct (find _ ds) as [td|] eqn:Ef.
  { destruct Hg as [-> Hd]. rewrite Hd. cbn [negb Z.eqb lift bindM ret]. apply find_some in Ef as [Hin Hm%dev_matches].
    exists c, bs, ds, T, td. split_and!; try done; [by apply list_elem_of_In|lia]. }
  subst i. destruct (dev_memory (dev_nodes c)) as [Hm Hcal]. rewrite Hcal. cbn [negb Z.eqb].
  destruct (new_inode_table (ino_nodes c)) as (h & -> & Hh & Hhf).
  set (a := next_address (inode_tables c)). cbn [dev_nodes devices ino_nodes inode_tables].
  assert (Ha : inode_tables c !! a = None) by apply next_address_fresh.
  assert (Hnew : forall td, td ∈ ds -> td_h td <> a).
  { intros td Htd E. destruct (cr_table _ _ _ _ _ Hc td Htd) as (h' & Hh' & _). congruence. }
  assert (Hdev : forall td, td ∈ ds -> td_dev td <> dev).
  { intros td Htd%list_elem_of_In E. apply (find_none _ _ Ef) in Htd. by apply dev_matches in E; congruence. }
  destruct (hash_add_spec fuel _ _ bs ds (mkDev dev a) Hr Hf Hm Hcal) as (m' & h' & bs' & -> & Hr' & Hhf' & _ & Hg').
  cbn [bindM Z.eqb ret]. eexists _, bs', (ds ++ [mkDev dev a]), (fun x => if decide (x = a) then replicate (Z.to_nat 256) [] else T x), (mkDev dev a).
  split; [done|]. split; [|split_and!; [set_solver|done|rewrite length_app; simpl; lia]].
  split; cbn [dev_nodes devices ino_nodes inode_tables].
  - done.
  - rewrite Hhf'. apply Hc.
  - rewrite map_app. apply NoDup_app. split_and!; [apply Hc| |apply NoDup_singleton].
    intros d (td & <- & Htd%list_elem_of_In)%list_elem_of_In%in_map_iff Hd. apply (Hdev td Htd). set_solver.
  - rewrite map_app. apply NoDup_app. split_and!; [apply Hc| |apply NoDup_singleton].
    intros d (td & <- & Htd%list_elem_of_In)%list_elem_of_In%in_map_iff Hd. apply (Hnew td Htd). set_solver.
  - intros td [Htd| ->%list_elem_of_singleton]%elem_of_app.
    + destruct (cr_table _ _ _ _ _ Hc td Htd) as (ht & Hht & Hf1 & Hf2). exists ht.
      rewrite lookup_insert_ne, decide_False by (by apply not_eq_sym, Hnew || by apply Hnew). done.
    + exists h. rewrite lookup_insert_eq, decide_True by done. split_and!; try done. simpl.
      rewrite on_device_none; [done|]. intros e He E. destruct (cr_all _ _ _ _ _ Hc e He) as (td & Htd & Etd). by apply (Hdev td Htd); congruence.
  - assert (Hempty : (concat (replicate (Z.to_nat 256) ([] : list (nat * tar_ino)))).*1 = []) by reflexivity.
    intros td td' [Htd| ->%list_elem_of_singleton]%elem_of_app [Htd'| ->%list_elem_of_singleton]%elem_of_app Hne; [| | |done].
    + rewrite !decide_False by by apply Hnew. by apply (cr_apart _ _ _ _ _ Hc).
    + simpl td_h. rewrite (decide_True (P := a = a)) by done. rewrite Hempty. intros x _ Hx. by apply elem_of_nil in Hx.
    + simpl td_h. rewrite (decide_True (P := a = a)) by done. rewrite Hempty. intros x Hx. by apply elem_of_nil in Hx.
  - intros e He. destruct (cr_all _ _ _ _ _ Hc e He) as (td & Htd & Etd). exists td. set_solver.
  - apply (grows_owned _ _ _ _ Hg'), Hc.
  - intros x Hx. destruct (cr_ino_nodes _ _ _ _ _ Hc x Hx) as (td & Htd & Hin). exists td.
    rewrite decide_False by by apply Hnew. set_solver.
  - intros x. rewrite lookup_insert_is_Some'. intros [<-|Hx]; [exists (mkDev dev a); set_solver|].
    destruct (cr_tables _ _ _ _ _ Hc x Hx) as (td & Htd & Eh). exists td. set_solver.
Qed.

(** The name a file has been saved under. *)
Definition saved_name (seen : list (Z * tar_ino)) (dev ino : Z) : option (list Z) :=
  match find (fun e => (e.1 =? dev) && (ti_ino e.2 =? ino)) seen with Some e => Some (ti_name e.2) | None => None end.

(** The buffer [ti_name] takes at most [MAXPATHLEN - 1] characters. *)
Definition saved_copy (name : list Z) : list Z := c_string_n MAXPATHLEN (snprintf MAXPATHLEN name).

Lemma find_on_device dev ino seen :
  match find (matches (fun key ti => ino_match key (ti_ino ti)) ino) (on_device dev seen) with
  | Some ti => Some (ti_name ti) | None => None end = saved_name seen dev ino.
Proof.
  unfold on_device, saved_name. induction seen as [|[d ti] seen IH]; [done|]. rewrite filter_cons. simpl.
  case_decide as Hd; simpl in Hd.
  - subst d. rewrite Z.eqb_refl. simpl. unfold matches at 1, ino_match. rewrite (Z.eqb_sym ino (ti_ino ti)).
    destruct (ti_ino ti =? ino); [done|]. exact IH.
  - destruct (Z.eqb_spec d dev); [done|]. exact IH.
Qed.

Lemma on_device_snoc dev seen e : on_device dev (seen ++ [e]) = on_device dev seen ++ (if decide (e.1 = dev) then [e.2] else []).
Proof. unfold on_device. rewrite filter_app, fmap_app. f_equal. rewrite filter_cons. by case_decide. Qed.

Lemma inode_entry_spec fuel c bs ds T seen td ino name :
  cache_rep c bs ds T seen -> td ∈ ds -> (length seen < fuel)%nat ->
  exists c' T', inode_entry fuel c (td_h td) ino name = ret (Some (saved_name seen (td_dev td) ino), c') /\
    cache_rep c' bs ds T' (match saved_name seen (td_dev td) ino with
                           | Some _ => seen
                           | None => seen ++ [(td_dev td, mkIno ino (saved_copy name))]
                           end).
Proof.
  intros Hc Htd Hf. destruct (cr_table _ _ _ _ _ Hc td Htd) as (h & Hh & Hhf & Hr). unfold inode_entry. rewrite Hh.
  assert (Hl : (length (on_device (td_dev td) seen) < fuel)%nat).
  { unfold on_device. rewrite length_fmap. pose proof (length_filter (fun e => e.1 = td_dev td) seen). lia. }
  destruct (hash_getkey_spec fuel _ _ _ _ ino (fun key ti => ino_match key (ti_ino ti)) Hr Hl) as (i & hp & -> & Hg).
  { intros ti _ Hti%ino_matches. simpl. by rewrite Hti. }
  cbn [bindM ret]. rewrite <- find_on_device. destruct (find _ _) as [ti|].
  { destruct Hg as [-> Hd]. rewrite Hd. cbn [negb Z.eqb lift bindM ret]. by exists c, T. }
  subst i. destruct (ino_memory (ino_nodes c)) as [Hm Hcal]. rewrite Hcal. cbn [negb Z.eqb].
  destruct (hash_add_spec fuel _ _ _ _ (mkIno ino (saved_copy name)) Hr Hl Hm Hcal) as (m' & h' & bs' & E & Hr' & Hhf' & _ & Hg').
  fold (saved_copy name). rewrite E. cbn [bindM ret].
  eexists _, (fun x => if decide (x = td_h td) then bs' else T x). split; [done|].
  assert (Hother : forall td', td' ∈ ds -> td' <> td -> td_h td' <> td_h td).
  { intros td' Htd' Hne Eh. apply Hne. by apply (NoDup_key_eq td_h ds td' td (cr_addresses _ _ _ _ _ Hc)). }
  assert (Hfar : forall td', td' ∈ ds -> td' <> td -> (concat (T (td_h td'))).*1 ## (concat bs').*1).
  { intros td' Htd' Hne. destruct (cr_table _ _ _ _ _ Hc td' Htd') as (ht & _ & _ & Hrt).
    apply (grows_hash _ _ _ _ _ _ _ Hg' Hrt). by apply (cr_apart _ _ _ _ _ Hc). }
  split; cbn [dev_nodes devices ino_nodes inode_tables]; try apply Hc.
  - intros td' Htd'. rewrite on_device_snoc. simpl. destruct (decide (td' = td)) as [->|Hne].
    + exists h'. rewrite lookup_insert_eq, !decide_True by done. split_and!; [done|congruence|done].
    + destruct (cr_table _ _ _ _ _ Hc td' Htd') as (ht & Hht & Hf1 & Hrt). exists ht.
      rewrite lookup_insert_ne by (apply not_eq_sym; auto). rewrite (decide_False (P := td_h td' = td_h td)) by auto.
      split_and!; [done|done|]. destruct (decide _) as [Ed|_].
      { destruct Hne. apply (NoDup_key_eq td_dev ds); [apply Hc|done|done|done]. }
      rewrite app_nil_r. apply (grows_hash _ _ _ _ _ _ _ Hg' Hrt). by apply (cr_apart _ _ _ _ _ Hc).
  - intros t1 t2 H1' H2' Hne. destruct (decide (t1 = td)) as [->|N1], (decide (t2 = td)) as [->|N2]; [done| | |].
    + rewrite decide_True, decide_False by auto. intros x Hx Hx'. by apply (Hfar t2 H2' N2 x).
    + rewrite decide_False, decide_True by auto. by apply Hfar.
    + rewrite !decide_False by auto. by apply (cr_apart _ _ _ _ _ Hc).
  - intros e [He| ->%list_elem_of_singleton]%elem_of_app; [by apply (cr_all _ _ _ _ _ Hc)|]. by exists td.
  - intros x Hx. destruct (decide (x ∈ (concat bs').*1)) as [Hin|Hout]; [exists td; by rewrite decide_True|].
    rewrite (grows_other _ _ _ _ Hg') in Hx by done. destruct (cr_ino_nodes _ _ _ _ _ Hc x Hx) as (td' & Htd' & Hin).
    exists td'. split; [done|]. rewrite decide_False; [done|]. intros Eh.
    assert (td' = td) as -> by by apply (NoDup_key_eq td_h ds td' td (cr_addresses _ _ _ _ _ Hc)).
    by apply Hout, (grows_old _ _ _ _ Hg').
  - intros x. rewrite lookup_insert_is_Some'. intros [<-|Hx]; [by exists td|]. by apply (cr_tables _ _ _ _ _ Hc).
Qed.

(** A cache without devices. *)
Lemma empty_cache_rep : exists h bs, libtar_hash_new ∅ 16 (Some (fun dev _ => dev_hash dev)) = Some h /\
  cache_rep (mkCache ∅ h ∅ ∅) bs [] (fun _ => []) [].
Proof.
  destruct (hash_new_rep ∅ 16 (fun dev _ => dev_hash dev) (proj2 (dev_memory ∅))) as (h & E & Hr & Hf & _).
  { done. } { intros key. by apply Z.mod_pos_bound. }
  eexists h, _. split; [done|]. split; cbn [dev_nodes devices ino_nodes inode_tables];
    [exact Hr|exact Hf|constructor|constructor|intros ? []%elem_of_nil|intros ? ? []%elem_of_nil|intros ? []%elem_of_nil|..];
    intros a; rewrite lookup_empty; by intros [].
Qed.

(** C28: the cache of inodes is a map from device and inode to the first name a file was
    saved under: for a file on device [dev] with inode [ino], the table of the device is
    found or made, and the lookup in it gives exactly the name under which that pair was
    added first, if it was (so the file becomes a hard link to it); otherwise the pair is
    added with the new name, cut to the buffer.  Other devices and inodes keep their
    names, and nothing else is allocated. *)
Theorem inode_cache_refines fuel c bs ds T seen dev ino name :
  cache_rep c bs ds T seen -> (length ds < fuel)%nat -> (length seen < fuel)%nat ->
  exists td c1 c2 bs' ds' T', device_table fuel c dev = ret (Some td, c1) /\
    inode_entry fuel c1 td ino name = ret (Some (saved_name seen dev ino), c2) /\
    cache_rep c2 bs' ds' T' (match saved_name seen dev ino with
                             | Some _ => seen
                             | None => seen ++ [(dev, mkIno ino (saved_copy name))]
                             end) /\ (length ds' <= S (length ds))%nat.
Proof.
  intros Hc Hd Hs. destruct (device_table_spec fuel c bs ds T seen dev Hc Hd) as (c1 & bs1 & ds1 & T1 & td & E1 & Hc1 & Hin & Hdev & Hl).
  destruct (inode_entry_spec fuel c1 bs1 ds1 T1 seen td ino name Hc1 Hin Hs) as (c2 & T2 & E2 & Hc2). rewrite Hdev in *.
  by exists (td_h td), c1, c2, bs1, ds1, T2.
Qed.
End Cache.

#[export] Instance no_comparisons : Comparisons := {|
  dev_strcmp := {| strcmp _ _ := 0 |}; dev_key_strcmp := {| strcmp _ _ := 0 |};
  ino_strcmp := {| strcmp _ _ := 0 |}; ino_key_strcmp := {| strcmp _ _ := 0 |}
|}.

(** The second name of inode 5 on device 1 is found to be a link to the first one. *)
Lemma inode_cache_refines_witness :
  exists h td c1 c2 td' c1' c2', libtar_hash_new (A := tar_dev) ∅ 16 (Some (fun dev _ => dev_hash dev)) = Some h /\
    device_table 2 (mkCache ∅ h ∅ ∅) 1 = ret (Some td, c1) /\ inode_entry 2 c1 td 5 [97] = ret (Some None, c2) /\
    device_table 2 c2 1 = ret (Some td', c1') /\ inode_entry 2 c1' td' 5 [98] = ret (Some (Some [97]), c2').
Proof.
  assert (Hd : forall m : store tar_dev, malloc m <> None /\ calloc_ok m = true) by (intros m; split; [apply bump_malloc|reflexivity]).
  assert (Hi : forall m : store tar_ino, malloc m <> None /\ calloc_ok m = true) by (intros m; split; [apply bump_malloc|reflexivity]).
  destruct (empty_cache_rep Hd) as (h & bs & Eh & Hc). exists h.
  destruct (inode_cache_refines Hd Hi 2 _ bs [] _ [] 1 5 [97] Hc ltac:(simpl; lia) ltac:(simpl; lia)) as (td & c1 & c2 & bs1 & ds1 & T1 & E1 & E2 & Hc2 & Hl).
  destruct (inode_cache_refines Hd Hi 2 c2 bs1 ds1 T1 _ 1 5 [98] Hc2 ltac:(simpl in *; lia) ltac:(simpl; lia)) as (td' & c1' & c2' & _ & _ & _ & E1' & E2' & _).
  exists td, c1, c2, td', c1', c2'. split; [exact Eh|]. split; [exact E1|]. split; [exact E2|]. split; [exact E1'|exact E2'].
Defined.
