(* ===== verification/TarExtract.v ===== *)
(** Reading archives: src/libtar/lib/extract.c, the extracting functions of wrapper.c.

    The handle is the one of [TarBlock] together with the hash table [t->h] of the files
    extracted so far, under the names they have in the archive; hard links are
    looked up in it. *)
From stdpp Require Import gmap list.
From S2P Require Import Prelude CString TarHeader TarBlock TarUtil TarOutput LinkedList HashTable.

Record linkname_t := mkLink { ln_save : list Z; ln_real : list Z }.

(** The address of a [linkname_t] is the address of the string [ln_save]. *)
#[export] Instance link_keyed : Keyed linkname_t (list Z) := {| key_of := ln_save; first_char s := get s 0 |}.
#[export] Instance link_strcmp : StrCmp linkname_t linkname_t :=
  {| strcmp a b := strcmp_chars (ln_save a) (ln_save b) |}.
#[export] Instance path_strcmp : StrCmp (list Z) linkname_t := {| strcmp key a := strcmp_chars key (ln_save a) |}.

Record links := mkLinks { link_nodes : store linkname_t; link_table : libtar_hash linkname_t (list Z) }.

(** The bucket of a path; where [path_hashfunc] has none, the callers below stop. *)
Definition path_bucket `{Target} (key : list Z) (n : Z) : Z :=
  match path_hashfunc key n with Ret v => v | Fault => 0 end.

(** [compat_makedev]: the numbers of a device combined. *)
Class Makedev := { compat_makedev : Z -> Z -> Z }.

Section Extract.
Context `{Target} `{Libc} {D : Type} `{TarType D} {W : Type} `{FileSystem W} `{Allocator linkname_t} `{Heap} `{Makedev}.

Definition filename (realname : option (list Z)) (pn : list Z) : list Z := match realname with Some r => r | None => pn end.

(** [mkdirhier(dirname(filename))]: whether it did not fail. *)
Definition make_parents (fuel : nat) (file : list Z) (w : W) : M (bool * W) :=
  do! d := lift (openbsd_dirname (Some file)) in
  match d with
  | None => lift Fault
  | Some d => do! r := mkdirhier fuel d w in let '(i, w) := r in ret (negb (i =? -1), w)
  end.

Definition tar_set_file_perms (t : TAR D) (realname : option (list Z)) (w : W) : outcome (Z * W) :=
  let! pn := th_get_pathname (th_buf t) in
  let file := filename realname pn in
  let! m := th_get_mode (th_buf t) in
  let! u := th_get_uid (options t) (th_buf t) in
  let! g := th_get_gid (options t) (th_buf t) in
  let! tm := th_get_mtime (th_buf t) in
  let '(i, w) := if geteuid w =? 0 then lchown file u g w else (0, w) in
  if i =? -1 then Ret (-1, w)
  else
    let! sym := TH_ISSYM (th_buf t) in
    let '(i, w) := if sym then (0, w) else utime file tm w in
    if i =? -1 then Ret (-1, w)
    else
      let '(i, w) := if sym then (0, w) else chmod file m w in
      if i =? -1 then Ret (-1, w) else Ret (0, w).

(** ** Regular files *)

(** The blocks of a file, written to [fdout]; 0 at the end, -1 otherwise. *)
Fixpoint extract_blocks (fuel : nat) (fdout i : Z) (t : TAR D) (w : W) : option (Z * TAR D * W) :=
  match fuel with
  | O => None
  | S fuel =>
      if 0 <? i then
        let '(k, buf, t) := read_block t in
        if negb (k =? BLOCK) then Some ((failed k t).1, (failed k t).2, w)
        else
          let '(j, w) := write fdout (firstn (Z.to_nat (if BLOCK <? i then BLOCK else i)) buf) w in
          if j =? -1 then Some (-1, t, w) else extract_blocks fuel fdout (i - BLOCK) t w
      else Some (0, t, w)
  end.

Definition tar_extract_regfile (fuel : nat) (t : TAR D) (realname : option (list Z)) (w : W) : M (Z * TAR D * W) :=
  do! reg := lift (TH_ISREG (th_buf t)) in
  if negb reg then ret (-1, set_errno t EINVAL, w)
  else
    do! pn := lift (th_get_pathname (th_buf t)) in
    let file := filename realname pn in
    do! sz := lift (th_get_size (th_buf t)) in
    do! r := make_parents fuel file w in
    let '(ok, w) := r in
    if negb ok then ret (-1, t, w)
    else
      let '(fdout, w) := open_creat file 438 w in
      match fdout with
      | None => ret (-1, t, w)
      | Some fdout =>
          match extract_blocks fuel fdout (i32 sz) t w with
          | None => None
          | Some (i, t, w) =>
              if negb (i =? 0) then ret (-1, t, w)
              else let '(c, w) := close fdout w in ret (if c =? -1 then -1 else 0, t, w)
          end
      end.

Fixpoint skip_blocks (fuel : nat) (i : Z) (t : TAR D) : option (Z * TAR D) :=
  match fuel with
  | O => None
  | S fuel =>
      if 0 <? i then
        let '(k, _, t) := read_block t in
        if negb (k =? BLOCK) then Some (failed k t) else skip_blocks fuel (i - BLOCK) t
      else Some (0, t)
  end.

Definition tar_skip_regfile (fuel : nat) (t : TAR D) : M (Z * TAR D) :=
  do! reg := lift (TH_ISREG (th_buf t)) in
  if negb reg then ret (-1, set_errno t EINVAL)
  else
    do! sz := lift (th_get_size (th_buf t)) in
    match skip_blocks fuel (i32 sz) t with None => None | Some r => ret r end.

(** ** Links *)

(** The name a hard link refers to: where its target was extracted to, if it was. *)
Definition link_target (fuel : nat) (k : links) (target : list Z) : M (list Z) :=
  do! _ := lift (path_hashfunc target (numbuckets (link_table k))) in
  do! r := libtar_hash_getkey fuel (link_nodes k) (link_table k) libtar_hashptr_reset target (Some libtar_str_match) in
  let '(i, hp) := r in
  if negb (i =? 0) then do! lnp := lift (libtar_hashptr_data (link_nodes k) hp) in ret (ln_real lnp)
  else ret target.

(** The start of the functions below: the test of the type, the name, the parent
    directories.  [None] is a return of -1. *)
Definition prepare (fuel : nat) (is_type : outcome bool) (t : TAR D) (realname : option (list Z)) (w : W)
    : M (option (list Z) * TAR D * W) :=
  do! ok := lift is_type in
  if negb ok then ret (None, set_errno t EINVAL, w)
  else
    do! pn := lift (th_get_pathname (th_buf t)) in
    let file := filename realname pn in
    do! r := make_parents fuel file w in
    let '(ok, w) := r in ret (if ok then Some file else None, t, w).

(** [unlink(filename) == -1 && errno != ENOENT] *)
Definition unlink_fails (file : list Z) (w : W) : bool * W :=
  let '(e, w) := unlink file w in (match e with Some e => negb (e =? ENOENT) | None => false end, w).

Definition minus_one_or_zero (i : Z) : Z := if i =? -1 then -1 else 0.

Definition tar_extract_hardlink (fuel : nat) (t : TAR D) (k : links) (realname : option (list Z)) (w : W) : M (Z * TAR D * W) :=
  do! r := prepare fuel (Ret (TH_ISLNK (th_buf t))) t realname w in
  let '(file, t, w) := r in
  match file with
  | None => ret (-1, t, w)
  | Some file =>
      let '(fails, w) := unlink_fails file w in
      if fails then ret (-1, t, w)
      else
        do! target := lift (th_get_linkname (th_buf t)) in
        do! linktgt := link_target fuel k target in
        let '(i, w) := link linktgt file w in ret (minus_one_or_zero i, t, w)
  end.

Definition tar_extract_symlink (fuel : nat) (t : TAR D) (realname : option (list Z)) (w : W) : M (Z * TAR D * W) :=
  do! r := prepare fuel (TH_ISSYM (th_buf t)) t realname w in
  let '(file, t, w) := r in
  match file with
  | None => ret (-1, t, w)
  | Some file =>
      let '(fails, w) := unlink_fails file w in
      if fails then ret (-1, t, w)
      else
        do! target := lift (th_get_linkname (th_buf t)) in
        let '(i, w) := symlink target file w in ret (minus_one_or_zero i, t, w)
  end.

(** ** Devices, directories, pipes *)

(** [mode_t] values are at most 32 bits wide. *)
Definition tar_extract_device (type_bits : Z) (is_type : outcome bool) (fuel : nat) (t : TAR D) (realname : option (list Z)) (w : W)
    : M (Z * TAR D * W) :=
  do! ok := lift is_type in
  if negb ok then ret (-1, set_errno t EINVAL, w)
  else
    do! m := lift (th_get_mode (th_buf t)) in
    do! maj := lift (th_get_devmajor (th_buf t)) in
    do! min := lift (th_get_devminor (th_buf t)) in
    do! r := prepare fuel (Ret true) t realname w in
    let '(file, t, w) := r in
    match file with
    | None => ret (-1, t, w)
    | Some file =>
        let '(i, w) := mknod file (Z.lor m type_bits) (compat_makedev (ulong maj) (ulong min)) w in
        ret (minus_one_or_zero i, t, w)
    end.

Definition tar_extract_chardev (fuel : nat) (t : TAR D) := tar_extract_device S_IFCHR (TH_ISCHR (th_buf t)) fuel t.
Definition tar_extract_blockdev (fuel : nat) (t : TAR D) := tar_extract_device S_IFBLK (TH_ISBLK (th_buf t)) fuel t.

(** 1 for a directory that was there already. *)
Definition tar_extract_dir (fuel : nat) (t : TAR D) (realname : option (list Z)) (w : W) : M (Z * TAR D * W) :=
  do! ok := lift (TH_ISDIR (th_buf t)) in
  if negb ok then ret (-1, set_errno t EINVAL, w)
  else
    do! m := lift (th_get_mode (th_buf t)) in
    do! r := prepare fuel (Ret true) t realname w in
    let '(file, t, w) := r in
    match file with
    | None => ret (-1, t, w)
    | Some file =>
        let '(e, w) := mkdir file m w in
        match e with
        | None => ret (0, t, w)
        | Some e =>
            if e =? EEXIST then let '(i, w) := chmod file m w in ret (if i =? -1 then -1 else 1, t, w)
            else ret (-1, t, w)
        end
    end.

Definition tar_extract_fifo (fuel : nat) (t : TAR D) (realname : option (list Z)) (w : W) : M (Z * TAR D * W) :=
  do! ok := lift (TH_ISFIFO (th_buf t)) in
  if negb ok then ret (-1, set_errno t EINVAL, w)
  else
    do! m := lift (th_get_mode (th_buf t)) in
    do! r := prepare fuel (Ret true) t realname w in
    let '(file, t, w) := r in
    match file with
    | None => ret (-1, t, w)
    | Some file => let '(i, w) := mkfifo file m w in ret (minus_one_or_zero i, t, w)
    end.

(** ** Any file *)

(** The switch on the type; a directory that was there is no error. *)
Definition extract_by_type (fuel : nat) (t : TAR D) (k : links) (realname : list Z) (w : W) : M (Z * TAR D * W) :=
  let real := Some realname in
  do! dir := lift (TH_ISDIR (th_buf t)) in
  if dir then
    do! r := tar_extract_dir fuel t real w in
    let '(i, t, w) := r in ret (if i =? 1 then 0 else i, t, w)
  else if TH_ISLNK (th_buf t) then tar_extract_hardlink fuel t k real w
  else
    do! sym := lift (TH_ISSYM (th_buf t)) in
    if sym then tar_extract_symlink fuel t real w
    else
      do! chr := lift (TH_ISCHR (th_buf t)) in
      if chr then tar_extract_chardev fuel t real w
      else
        do! blk := lift (TH_ISBLK (th_buf t)) in
        if blk then tar_extract_blockdev fuel t real w
        else
          do! fifo := lift (TH_ISFIFO (th_buf t)) in
          if fifo then tar_extract_fifo fuel t real w else tar_extract_regfile fuel t real w.

(** The file is remembered under the name it has in the archive. *)
Definition remember (fuel : nat) (t : TAR D) (k : links) (realname : list Z) : M (Z * links) :=
  if negb (calloc_ok (link_nodes k)) then ret (-1, k)
  else
    do! pathname := lift (th_get_pathname (th_buf t)) in
    let copy s := c_string_n MAXPATHLEN (strlcpy s MAXPATHLEN).1 in
    let lnp := mkLink (copy pathname) (copy realname) in
    do! _ := lift (path_hashfunc (ln_save lnp) (numbuckets (link_table k))) in
    do! r := libtar_hash_add fuel (link_nodes k) (link_table k) lnp in
    let '(i, m, h) := r in ret (if negb (i =? 0) then -1 else 0, mkLinks m h).

Definition restore_context (t : TAR D) (realname : list Z) (w : W) : outcome W :=
  match selinux_context (th_buf t) with
  | Some ctx =>
      if opt (options t) TAR_STORE_SELINUX then
        let! ctx := c_string ctx in Ret (lsetfilecon realname ctx w).2
      else Ret w
  | None => Ret w
  end.

(** [lstat(realname, &s) == 0 || errno != ENOENT] *)
Definition exists_already (t : TAR D) (realname : list Z) (w : W) : bool :=
  opt (options t) TAR_NOOVERWRITE && match lstat realname w with inl _ => true | inr e => negb (e =? ENOENT) end.

Definition tar_extract_file (fuel : nat) (t : TAR D) (k : links) (realname : list Z) (w : W) : M (Z * TAR D * links * W) :=
  if exists_already t realname w then ret (-1, set_errno t EEXIST, k, w)
  else
    do! r := extract_by_type fuel t k realname w in
    let '(i, t, w) := r in
    if negb (i =? 0) then ret (i, t, k, w)
    else
      do! r := lift (tar_set_file_perms t (Some realname) w) in
      let '(i, w) := r in
      if negb (i =? 0) then ret (i, t, k, w)
      else
        do! w := lift (restore_context t realname w) in
        do! r := remember fuel t k realname in
        let '(i, k) := r in ret (i, t, k, w).

(** ** All files *)

(** [snprintf(buf, sizeof(buf), "%s/%s", prefix, filename)], or a copy of [filename] *)
Definition target_path (prefix : option (list Z)) (file : list Z) : list Z :=
  firstn (MAXPATHLEN - 1) (match prefix with Some p => p ++ SLASH :: file | None => file end).

(** What is printed about a file. *)
Variable date : Z -> list Z.
Definition print_if_verbose (t : TAR D) : outcome (list Z) :=
  if opt (options t) TAR_VERBOSE then th_print_long_ls date t else Ret [].

(** [fuel] bounds the blocks of a file and the nodes of a list, [files] the files. *)
Fixpoint tar_extract_all (files fuel : nat) (t : TAR D) (k : links) (prefix : option (list Z)) (w : W)
    : M (Z * TAR D * links * W) :=
  match files with
  | O => None
  | S files =>
      do! r := th_read fuel t in
      let '(i, t) := r in
      if negb (i =? 0) then ret (if i =? 1 then 0 else -1, t, k, w)
      else
        do! file := lift (th_get_pathname (th_buf t)) in
        do! _ := lift (print_if_verbose t) in
        do! r := tar_extract_file fuel t k (target_path prefix file) w in
        let '(i, t, k, w) := r in
        if negb (i =? 0) then ret (-1, t, k, w) else tar_extract_all files fuel t k prefix w
  end.

(** [fnmatch] with [FNM_PATHNAME | FNM_PERIOD] returns 0 when a name matches. *)
Variable fnmatch : list Z -> list Z -> Z.

(** The path with the prefix is computed and not used. *)
Fixpoint tar_extract_glob (files fuel : nat) (t : TAR D) (k : links) (globname : list Z) (prefix : option (list Z)) (w : W)
    : M (Z * TAR D * links * W) :=
  match files with
  | O => None
  | S files =>
      do! r := th_read fuel t in
      let '(i, t) := r in
      if negb (i =? 0) then ret (if i =? 1 then 0 else -1, t, k, w)
      else
        do! file := lift (th_get_pathname (th_buf t)) in
        if negb (fnmatch globname file =? 0) then
          do! reg := lift (TH_ISREG (th_buf t)) in
          if reg then
            do! r := tar_skip_regfile fuel t in
            let '(i, t) := r in
            if negb (i =? 0) then ret (-1, t, k, w) else tar_extract_glob files fuel t k globname prefix w
          else tar_extract_glob files fuel t k globname prefix w
        else
          do! _ := lift (print_if_verbose t) in
          let buf := target_path prefix file in
          do! r := tar_extract_file fuel t k file w in
          let '(i, t, k, w) := r in
          if negb (i =? 0) then ret (-1, t, k, w) else tar_extract_glob files fuel t k globname prefix w
  end.
End Extract.

(** * The options of the handle *)

Section Options.
Context `{Target} `{Libc} {D : Type} `{TarType D} {W : Type} `{FileSystem W} `{Allocator linkname_t} `{Heap} `{Makedev}.
Implicit Types t : TAR D.

Definition keeps_options t {X Y : Type} (r : X * TAR D * Y) : Prop := options r.1.2 = options t.

(** One step of the proofs below: the rest of the function after a call that does not
    concern the handle, a test, a return. *)
Ltac keep_step :=
  match goal with
  | |- holds _ (match extract_blocks _ _ _ _ _ with Some _ => _ | None => _ end) => fail 1
  | |- holds _ (bindM (prepare _ _ _ _ _) _) => fail 1
  | |- holds _ (bindM _ _) => apply (holds_bind _ _ _ _ (holds_any _)); intros ? _
  | |- holds _ (ret _) => apply holds_ret; reflexivity
  | |- holds _ (let '(_, _) := ?x in _) => destruct x
  | |- holds _ (if ?b then _ else _) => destruct b
  | |- holds _ (match ?o with Some _ => _ | None => _ end) => destruct o
  end.

Lemma extract_blocks_options fuel fdout : forall i t (w : W) r, extract_blocks fuel fdout i t w = Some r -> options r.1.2 = options t.
Proof.
  induction fuel as [|fuel IH]; intros i t w r; cbn [extract_blocks]; [done|]. destruct (0 <? i); [|by intros [= <-]].
  unfold read_block. destruct (readfunc (fd t)) as [[k buf] d]. destruct (negb _); [intros [= <-]; apply (failed_options k (with_fd t d))|].
  destruct (write _ _ _) as [j w']. destruct (j =? -1); [by intros [= <-]|]. intros E. by apply IH in E.
Qed.

Lemma extract_regfile_options fuel t real (w : W) : holds (keeps_options t) (tar_extract_regfile fuel t real w).
Proof.
  unfold tar_extract_regfile. repeat keep_step.
  destruct (extract_blocks _ _ _ _ _) as [[[i u] w']|] eqn:E; [|intros r Hr; discriminate Hr].
  apply extract_blocks_options in E. cbn in E. repeat keep_step; apply holds_ret; exact E.
Qed.

Lemma prepare_options fuel is_type t real (w : W) : holds (keeps_options t) (prepare fuel is_type t real w).
Proof. unfold prepare. repeat keep_step. Qed.

(** After the common start of a handler. *)
Ltac keep_prepared :=
  repeat keep_step; apply (holds_bind _ _ _ _ (prepare_options _ _ _ _ _)); intros [[file u] w'] Hu; cbn in Hu;
  repeat (keep_step || (apply holds_ret; exact Hu)).

Lemma extract_by_type_options fuel t k real (w : W) : holds (keeps_options t) (extract_by_type fuel t k real w).
Proof.
  unfold extract_by_type. apply (holds_bind _ _ _ _ (holds_any _)). intros [] _.
  { apply (holds_bind (keeps_options t)); [|intros [[i u] w'] Hu; by apply holds_ret]. unfold tar_extract_dir. keep_prepared. }
  destruct (TH_ISLNK _); [unfold tar_extract_hardlink; keep_prepared|].
  apply (holds_bind _ _ _ _ (holds_any _)). intros [] _; [unfold tar_extract_symlink; keep_prepared|].
  apply (holds_bind _ _ _ _ (holds_any _)). intros [] _; [unfold tar_extract_chardev, tar_extract_device; keep_prepared|].
  apply (holds_bind _ _ _ _ (holds_any _)). intros [] _; [unfold tar_extract_blockdev, tar_extract_device; keep_prepared|].
  apply (holds_bind _ _ _ _ (holds_any _)). intros [] _; [unfold tar_extract_fifo; keep_prepared|apply extract_regfile_options].
Qed.

(** [tar_extract_file] does not change the options. *)
Lemma extract_file_options fuel t k real (w : W) : holds (fun r => options r.1.1.2 = options t) (tar_extract_file fuel t k real w).
Proof.
  unfold tar_extract_file. destruct (exists_already _ _ _); [by apply holds_ret|].
  apply (holds_bind _ _ _ _ (extract_by_type_options fuel t k real w)). intros [[i u] w'] Hu. cbn in Hu.
  repeat (keep_step || (apply holds_ret; exact Hu)).
Qed.
End Options.

(** * The contents of regular files *)

Section Contents.
Context `{Target} {W : Type} `{FileSystem W}.
Implicit Types (t : TAR (list Z)).

(** One block of a file is at hand, and the rest of the file after it. *)
Lemma pad_split c : c <> [] ->
  exists b, length b = T_BLOCKSIZE /\ pad c = b ++ pad (skipn T_BLOCKSIZE c) /\
    firstn (Nat.min T_BLOCKSIZE (length c)) b = firstn T_BLOCKSIZE c.
Proof.
  intros Hc. assert (Hl : (0 < length c)%nat) by (destruct c; [done|simpl; lia]).
  destruct (decide (T_BLOCKSIZE < length c)%nat) as [Hlt|Hge].
  - exists (firstn T_BLOCKSIZE c). assert (La : length (firstn T_BLOCKSIZE c) = T_BLOCKSIZE) by (rewrite length_firstn; lia).
    split; [done|]. split; [|rewrite firstn_firstn; f_equal; lia].
    rewrite <- pad_block by (done || (intros E; apply (f_equal length) in E; rewrite length_skipn in E; simpl in E; lia)).
    by rewrite firstn_skipn.
  - exists (c ++ repeat 0 (T_BLOCKSIZE - length c)). rewrite length_app, repeat_length, skipn_all2 by lia.
    split; [lia|]. split; [rewrite pad_nil, app_nil_r; apply pad_last; lia|].
    rewrite Nat.min_r, firstn_app, firstn_all, Nat.sub_diag, firstn_O, app_nil_r by lia. symmetry. apply firstn_all2. lia.
Qed.

Lemma read_block_memory t b rest : fd t = b ++ rest -> length b = T_BLOCKSIZE -> read_block t = (BLOCK, b, with_fd t rest).
Proof. intros Hf Hb. unfold read_block. by rewrite Hf, take_block. Qed.

Lemma next_length (c : list Z) : (0 < length c)%nat ->
  (0 <? Z.of_nat (length c)) = true /\
  Z.to_nat (if BLOCK <? Z.of_nat (length c) then BLOCK else Z.of_nat (length c)) = Nat.min T_BLOCKSIZE (length c).
Proof.
  intros Hc. split; [apply Z.ltb_lt; lia|]. unfold BLOCK, T_BLOCKSIZE. destruct (Z.ltb_spec 512 (Z.of_nat (length c))); lia.
Qed.

(** Beyond the end the loops stop. *)
Lemma extract_blocks_done fuel fdout i t (w : W) : i <= 0 -> (0 < fuel)%nat -> extract_blocks fuel fdout i t w = Some (0, t, w).
Proof. intros Hi Hf. destruct fuel; [lia|]. cbn [extract_blocks]. destruct (Z.ltb_spec 0 i); [lia|done]. Qed.

Lemma skip_blocks_done fuel i t : i <= 0 -> (0 < fuel)%nat -> skip_blocks fuel i t = Some (0, t).
Proof. intros Hi Hf. destruct fuel; [lia|]. cbn [skip_blocks]. destruct (Z.ltb_spec 0 i); [lia|done]. Qed.

Lemma extract_blocks_spec fdout got : writes fdout got -> forall fuel c g t w rest,
  got g w -> fd t = pad c ++ rest -> (count (length c) < fuel)%nat ->
  exists w', extract_blocks fuel fdout (Z.of_nat (length c)) t w = Some (0, with_fd t rest, w') /\ got (g ++ c) w'.
Proof.
  intros Hw fuel. induction fuel as [|fuel IH]; intros c g t w rest Hg Hfd Hf; [lia|].
  destruct c as [|x c'] eqn:Ec.
  { exists w. rewrite app_nil_r. rewrite pad_nil in Hfd. simpl in Hfd. rewrite extract_blocks_done by (simpl; lia).
    subst rest. by destruct t. }
  rewrite <- Ec in *. assert (Hne : c <> []) by congruence. assert (Hl : (0 < length c)%nat) by (rewrite Ec; simpl; lia).
  destruct (count_S _ Hl) as [Hc1 Hc2]. destruct (next_length c Hl) as [Hpos Hn].
  destruct (pad_split c Hne) as (b & Hb & Hp & Hfirst). rewrite Hp, <- app_assoc in Hfd.
  cbn [extract_blocks]. rewrite Hpos, (read_block_memory t _ _ Hfd Hb). change (negb (BLOCK =? BLOCK)) with false. cbv iota.
  rewrite Hn, Hfirst. destruct (Hw (firstn T_BLOCKSIZE c) g w Hg) as (w1 & -> & Hg1).
  destruct (Z.eqb_spec (Z.of_nat (length (firstn T_BLOCKSIZE c))) (-1)); [lia|].
  destruct (decide (length c <= T_BLOCKSIZE)%nat) as [Hle|Hgt].
  - rewrite extract_blocks_done; [|unfold BLOCK, T_BLOCKSIZE in *; lia|specialize (Hc1 Hle); lia].
    exists w1. rewrite skipn_all2, pad_nil by done. simpl. split; [by destruct t|]. by rewrite firstn_all2 in Hg1.
  - replace (Z.of_nat (length c) - BLOCK) with (Z.of_nat (length (skipn T_BLOCKSIZE c)))
      by (rewrite length_skipn; unfold BLOCK, T_BLOCKSIZE in *; lia).
    destruct (IH (skipn T_BLOCKSIZE c) (g ++ firstn T_BLOCKSIZE c) (with_fd t (pad (skipn T_BLOCKSIZE c) ++ rest)) w1 rest)
      as (w2 & -> & Hg2); [done|done|rewrite length_skipn; specialize (Hc2 ltac:(lia)); lia|].
    exists w2. split; [done|]. by rewrite <- app_assoc, firstn_skipn in Hg2.
Qed.

Lemma skip_blocks_spec fuel : forall c t rest,
  fd t = pad c ++ rest -> (count (length c) < fuel)%nat ->
  skip_blocks fuel (Z.of_nat (length c)) t = Some (0, with_fd t rest).
Proof.
  induction fuel as [|fuel IH]; intros c t rest Hfd Hf; [lia|].
  destruct c as [|x c'] eqn:Ec.
  { rewrite pad_nil in Hfd. simpl in Hfd. rewrite skip_blocks_done by (simpl; lia). subst rest. by destruct t. }
  rewrite <- Ec in *. assert (Hne : c <> []) by congruence. assert (Hl : (0 < length c)%nat) by (rewrite Ec; simpl; lia).
  destruct (count_S _ Hl) as [Hc1 Hc2]. destruct (next_length c Hl) as [Hpos _].
  destruct (pad_split c Hne) as (b & Hb & Hp & _). rewrite Hp, <- app_assoc in Hfd.
  cbn [skip_blocks]. rewrite Hpos, (read_block_memory t _ _ Hfd Hb). change (negb (BLOCK =? BLOCK)) with false. cbv iota.
  destruct (decide (length c <= T_BLOCKSIZE)%nat) as [Hle|Hgt].
  - rewrite skip_blocks_done; [|unfold BLOCK, T_BLOCKSIZE in *; lia|specialize (Hc1 Hle); lia].
    rewrite skipn_all2, pad_nil by done. by destruct t.
  - replace (Z.of_nat (length c) - BLOCK) with (Z.of_nat (length (skipn T_BLOCKSIZE c)))
      by (rewrite length_skipn; unfold BLOCK, T_BLOCKSIZE in *; lia).
    rewrite (IH _ _ rest); [done|done|rewrite length_skipn; specialize (Hc2 ltac:(lia)); lia].
Qed.
End Contents.

(** * The files extracted so far *)

Section Links.
Context `{Target} `{Allocator linkname_t}.

(** The buckets of paths. *)
Lemma path_hash_total key n : (length key < MAXPATHLEN)%nat -> exists v, path_hashfunc key n = Ret v.
Proof.
  intros Hl. unfold path_hashfunc. destruct (Nat.leb_spec MAXPATHLEN (length key)); [lia|].
  destruct (basename_total key Hl) as (p & ->). cbn [bind]. by eexists.
Qed.

Lemma copy_path s : chars s -> (length s < MAXPATHLEN)%nat -> c_string_n MAXPATHLEN (strlcpy s MAXPATHLEN).1 = s.
Proof.
  intros Hs Hl. rewrite strlcpy_snprintf. change (snprintf MAXPATHLEN s) with (firstn 4095 s ++ [0]).
  rewrite firstn_all2 by (unfold MAXPATHLEN in Hl; lia). apply c_string_n_chars; [done|]. right. by split.
Qed.

(** The table holds [es], and nothing else is allocated. *)
Definition links_rep (k : links) (es : list linkname_t) : Prop :=
  hashfunc (link_table k) = path_bucket /\
  exists bs, hash_rep (link_nodes k) (link_table k) bs es /\ forall a, is_Some (link_nodes k !! a) -> a ∈ (concat bs).*1.

Lemma path_bucket_bounds key : 0 <= path_bucket key 256 < 256.
Proof.
  unfold path_bucket, path_hashfunc. destruct (_ <=? _)%nat; [done|]. destruct (openbsd_basename _) as [|[p|]]; cbn [bind]; try done.
  by apply Z.mod_pos_bound.
Qed.

Hypothesis link_memory : forall m : store linkname_t, malloc m <> None /\ calloc_ok m = true.

Lemma empty_links_rep : exists h, libtar_hash_new ∅ 256 (Some path_bucket) = Some h /\ links_rep (mkLinks ∅ h) [].
Proof.
  destruct (hash_new_rep ∅ 256 path_bucket (proj2 (link_memory ∅))) as (h & E & Hr & Hh & _).
  { done. } { intros key. apply path_bucket_bounds. }
  exists h. split; [done|]. split; [exact Hh|]. eexists. split; [exact Hr|]. cbn [link_nodes]. intros a. rewrite lookup_empty. by intros [].
Qed.

Lemma links_add fuel k es e : links_rep k es -> (length es < fuel)%nat ->
  exists m h, libtar_hash_add fuel (link_nodes k) (link_table k) e = ret (0, m, h) /\ links_rep (mkLinks m h) (es ++ [e]).
Proof.
  intros (Hh & bs & Hk & Hown) Hf. destruct (link_memory (link_nodes k)) as [Hm Hcal].
  destruct (hash_add_spec fuel _ _ bs es e Hk Hf Hm Hcal) as (m' & h' & bs' & E & Hr & Hh' & _ & Hg).
  exists m', h'. split; [done|]. split; [cbn [link_table]; congruence|]. exists bs'. split; [done|]. exact (grows_owned _ _ _ _ Hg Hown).
Qed.

(** Where a file of that name was extracted to first. *)
Definition extracted_to (es : list linkname_t) (name : list Z) : list Z :=
  match List.find (fun e => if decide (ln_save e = name) then true else false) es with Some e => ln_real e | None => name end.

Lemma str_match_eq name e : chars name -> chars (ln_save e) ->
  matches libtar_str_match name e = if decide (ln_save e = name) then true else false.
Proof.
  intros Hn He. unfold matches, libtar_str_match. cbn [strcmp path_strcmp].
  destruct (Z.eqb_spec (strcmp_chars name (ln_save e)) 0) as [E|E]; rewrite strcmp_chars_eq in E by done; case_decide; done || congruence.
Qed.

(** The search by name.  Only entries of the table are compared. *)
Lemma hash_getkey_chars fuel k bs es target :
  hash_rep (link_nodes k) (link_table k) bs es -> (length es < fuel)%nat -> chars target -> Forall (fun e => chars (ln_save e)) es ->
  exists i hp, libtar_hash_getkey fuel (link_nodes k) (link_table k) libtar_hashptr_reset target (Some libtar_str_match) = ret (i, hp) /\
    match List.find (fun e => if decide (ln_save e = target) then true else false) es with
    | None => i = 0
    | Some e => i = 1 /\ libtar_hashptr_data (link_nodes k) hp = Ret e
    end.
Proof.
  intros Hr Hf Hc Hes.
  assert (Hm : forall e, e ∈ es -> matches libtar_str_match target e = if decide (ln_save e = target) then true else false).
  { intros e He. apply str_match_eq; [done|]. by apply (proj1 (Forall_forall _ _) Hes). }
  destruct (hash_getkey_spec fuel _ _ bs es target libtar_str_match Hr Hf) as (i & hp & E & Hg).
  { intros e He. rewrite (Hm e He). case_decide as Hd; [|done]. intros _. cbn [key_of link_keyed]. by rewrite Hd. }
  exists i, hp. split; [exact E|]. replace (List.find (fun e => if decide (ln_save e = target) then true else false) es)
    with (List.find (matches libtar_str_match target) es); [exact Hg|].
  clear -Hm. induction es as [|e es IH]; [done|]. cbn [List.find]. rewrite (Hm e) by by left. rewrite IH; [done|].
  intros e' He. apply Hm. by right.
Qed.

(** hard links are resolved by where their target went: for a link to the name
    [target], [tar_extract_hardlink] links to the place where the first file that has
    that name in the archive was extracted, and to the name itself when no file of that
    name was; the search looks into one of the 256 buckets only. *)
Theorem link_target_found fuel k es target :
  links_rep k es -> (length es < fuel)%nat -> chars target -> (length target < MAXPATHLEN)%nat ->
  Forall (fun e => chars (ln_save e)) es ->
  link_target fuel k target = ret (extracted_to es target).
Proof.
  intros (Hh & bs & Hr & _) Hf Hc Hl Hes. unfold link_target. destruct (path_hash_total target (numbuckets (link_table k)) Hl) as [v ->].
  cbn [lift bindM]. destruct (hash_getkey_chars fuel k bs es target Hr Hf Hc Hes) as (i & hp & -> & Hg). cbn [bindM ret].
  unfold extracted_to. destruct (List.find _ es) as [e|].
  - destruct Hg as [-> Hd]. rewrite Hd. done.
  - by subst i.
Qed.
End Links.

(** A file "a" that went to "d/a", and a link to it. *)
Lemma link_target_found_witness :
  exists k, links_rep k [mkLink [97] [100; 47; 97]] /\ link_target 2 k [97] = ret [100; 47; 97] /\ link_target 2 k [98] = ret [98].
Proof.
  assert (Hm : forall m : store linkname_t, malloc m <> None /\ calloc_ok m = true) by (intros m; split; [apply bump_malloc|reflexivity]).
  destruct (empty_links_rep Hm) as (h & _ & Hk).
  destruct (links_add Hm 1 _ [] (mkLink [97] [100; 47; 97]) Hk ltac:(simpl; lia)) as (m' & h' & _ & Hk').
  exists (mkLinks m' h'). split; [exact Hk'|].
  split; refine (link_target_found 2 _ _ _ Hk' _ _ _ _); (simpl; lia) || (unfold MAXPATHLEN; simpl; lia) || (repeat constructor; done).
Defined.
