(* ===== verification/TarArchive.v ===== *)
(** Whole archives: what [tar_append_file] (src/libtar/lib/append.c) writes,
    [tar_extract_all] (wrapper.c, extract.c) restores.

    The archive is in memory ([TarBlock.memory_file]); the file systems on both sides
    are any that keep the laws stated here. *)
From stdpp Require Import gmap list.
From S2P Require Import Prelude CString TarHeader TarBlock TarUtil LinkedList HashTable TarAppend TarExtract.

(** A regular file that fits the format. *)
Record plain_file (options : Z) (s : stat) (name c : list Z) : Prop := {
  pf_mode : word 16 (st_mode s);
  pf_regular : Z.land (st_mode s) S_IFMT = S_IFREG;
  pf_uid : 0 <= st_uid s < 8 ^ 6;
  pf_gid : 0 <= st_gid s < 8 ^ 6;
  pf_mtime : 0 <= st_mtime s < 2 ^ 31;
  pf_size : st_size s = Z.of_nat (length c);
  pf_max : st_size s < 2 ^ 31;
  pf_chars : chars name;
  pf_bytes : bytes name;
  pf_length : (0 < length name < 512)%nat;
  pf_slash : ends_with_slash name = false;
  pf_fits : path_fits options name [] = true
}.

(** A header that describes such a file. *)
Record describes (h : tar_header) (s : stat) (name : list Z) : Prop := {
  ds_length : length (blk h) = T_BLOCKSIZE;
  ds_type : type_of h = REGTYPE;
  ds_mode : stores h mode (st_mode s);
  ds_uid : stores h uid (st_uid s);
  ds_gid : stores h gid (st_gid s);
  ds_mtime : stores h mtime (st_mtime s);
  ds_size : th_get_size h = Ret (st_size s);
  ds_path : th_get_pathname h = Ret name
}.

Section Describes.
Context `{Target} `{Libc}.
Context (options : Z) (s : stat) (name c : list Z) (Hf : plain_file options s name c).

Lemma recorded_regular : recorded_mode (st_mode s) = st_mode s.
Proof. unfold recorded_mode, is_type. by rewrite (pf_regular _ _ _ _ Hf). Qed.

(** The tests on the type of the file. *)
Lemma describes_tests h : describes h s name ->
  TH_ISREG h = Ret true /\ TH_ISDIR h = Ret false /\ TH_ISLNK h = false /\ TH_ISSYM h = Ret false /\
  TH_ISCHR h = Ret false /\ TH_ISBLK h = Ret false /\ TH_ISFIFO h = Ret false.
Proof.
  intros Hd. pose proof (pf_mode _ _ _ _ Hf) as Hm. unfold word in Hm.
  assert (Ho : forall ty, mode_is ty h = Ret (S_IFREG =? ty)).
  { intros ty. unfold mode_is. rewrite (stores_oct _ _ _ (ds_mode _ _ _ Hd)) by lia. cbn [bind].
    rewrite mode_t_small by done. unfold is_type. by rewrite (pf_regular _ _ _ _ Hf). }
  unfold TH_ISREG, TH_ISDIR, TH_ISLNK, TH_ISSYM, TH_ISCHR, TH_ISBLK, TH_ISFIFO. rewrite (ds_type _ _ _ Hd), !Ho. done.
Qed.

(** The numbers are read without a fault. *)
Lemma describes_numbers h : describes h s name ->
  th_get_mode h = Ret (st_mode s) /\ th_get_mtime h = Ret (st_mtime s) /\
  forall opts, opt opts TAR_USE_NUMERIC_ID = true -> th_get_uid opts h = Ret (st_uid s) /\ th_get_gid opts h = Ret (st_gid s).
Proof.
  intros Hd. pose proof (pf_mode _ _ _ _ Hf) as Hm. unfold word in Hm. pose proof (pf_uid _ _ _ _ Hf) as Hu.
  pose proof (pf_gid _ _ _ _ Hf) as Hg. change (8 ^ 6) with 262144 in Hu, Hg. pose proof (pf_mtime _ _ _ _ Hf) as Ht. split_and!.
  - unfold th_get_mode. rewrite (stores_oct _ _ _ (ds_mode _ _ _ Hd)) by lia. cbn [bind].
    by rewrite mode_t_small, (pf_regular _ _ _ _ Hf).
  - apply (stores_oct _ _ _ (ds_mtime _ _ _ Hd)). lia.
  - intros opts Ho. unfold th_get_uid, th_get_gid, scan_id. rewrite Ho.
    rewrite (stores_scan _ _ _ (ds_uid _ _ _ Hd)), (stores_scan _ _ _ (ds_gid _ _ _ Hd)) by lia. cbn [bind].
    by rewrite !i32_small, !u32_small by lia.
Qed.
End Describes.

(** * The header of a file *)

Section Header.
Context `{Target} `{Libc} {W : Type} `{FileSystem W}.
Hypothesis unsigned_chars : char_signed = false.
Hypothesis users_bytes : forall i s, getpwuid i = Some s -> bytes s.
Hypothesis groups_bytes : forall i s, getgrgid i = Some s -> bytes s.

Lemma zero_header_wf : th_wf zero_header.
Proof. split; [done|]. apply Forall_repeat. split; [done|]. reflexivity. Qed.

Lemma stat_pointers options h s : pointers (th_set_from_stat options h s) = pointers h.
Proof.
  assert (Hu : forall h i, pointers (th_set_user options h i) = pointers h).
  { intros k i. unfold th_set_user. destruct (opt options TAR_USE_NUMERIC_ID); [|destruct (getpwuid i)]; reflexivity. }
  assert (Hg : forall h i, pointers (th_set_group options h i) = pointers h).
  { intros k i. unfold th_set_group. destruct (opt options TAR_USE_NUMERIC_ID); [|destruct (getgrgid i)]; reflexivity. }
  assert (Hp : forall h m bs, pointers (put h m bs) = pointers h) by reflexivity.
  assert (Ht : forall h m, pointers (th_set_type h m) = pointers h).
  { assert (Hi : forall (b : bool) k m bs, pointers (if b then put k m bs else k) = pointers k) by (intros []; reflexivity).
    intros k m. unfold th_set_type. cbv zeta beta. by rewrite !Hi. }
  rewrite th_set_from_stat_split. unfold stat_numbers, th_set_size, th_set_mtime, th_set_mode. rewrite !Hp, Hg, Hu.
  destruct (_ || _); [unfold th_set_device; rewrite !Hp|]; apply Ht.
Qed.

(** The header after [th_set_from_stat] and [th_set_path]. *)
Lemma file_header options s name c :
  plain_file options s name c ->
  exists h, th_set_path options (th_set_from_stat options zero_header s) name = Ret h /\
    ready (st_size s) h /\ describes h s name /\ gnu_longlink h = None /\ selinux_context h = None /\
    (gnu_longname h = None \/ gnu_longname h = Some (strdup name) /\ opt options TAR_GNU = true).
Proof.
  intros Hf. pose proof (pf_size _ _ _ _ Hf) as Hsz. pose proof (pf_max _ _ _ _ Hf) as Hmax. pose proof (pf_regular _ _ _ _ Hf) as Hreg.
  assert (Hne : name <> []) by (pose proof (pf_length _ _ _ _ Hf); by destruct name; [simpl in *; lia|]).
  set (h0 := th_set_from_stat options zero_header s).
  destruct (stat_stores options zero_header s) as (Fty & T0 & Su & Sg & Sm & St & Ss);
    [done|apply Hf|rewrite Hreg; simpl; tauto|apply Hf|apply Hf|apply Hf|lia|]. fold h0 in Fty, T0, Su, Sg, Sm, St, Ss.
  rewrite Hreg in Fty. change (flag_of S_IFREG) with REGTYPE in Fty. rewrite (recorded_regular _ _ _ _ Hf) in Sm.
  assert (Hty : is_type S_IFREG (st_mode s) = true) by (unfold is_type; rewrite Hreg; done). rewrite Hty in Ss.
  assert (Hw0 : th_wf h0) by (apply th_set_from_stat_wf; [done|done|apply zero_header_wf]). pose proof (proj1 T0) as L0.
  assert (Hdir : TH_ISDIR h0 = Ret false).
  { pose proof (pf_mode _ _ _ _ Hf) as Hm. unfold word in Hm. unfold TH_ISDIR, mode_is.
    rewrite Fty, (stores_oct _ _ _ Sm) by lia. cbn [orr bind]. rewrite mode_t_small by done. unfold is_type. by rewrite Hreg. }
  assert (Hpre : get (blk h0) (offset prefix) = 0).
  { rewrite get_offset by done. rewrite (proj2 T0 prefix) by (simpl; intuition discriminate). done. }
  destruct (path_read_back options h0 name false L0 Hpre (pf_chars _ _ _ _ Hf) Hne Hdir) as (h & E & Hp).
  { rewrite andb_false_r. apply Hf. }
  assert (Hp' : th_get_pathname h = Ret name) by (rewrite Hp, andb_false_r; by destruct (_ && _); rewrite app_nil_r).
  destruct (th_set_path_touches options h0 name h L0 E) as (T1 & Pl & Px & Pn).
  pose proof (stat_pointers options zero_header s) as Q. fold h0 in Q. injection Q as Ql _ Qx.
  assert (Hst : forall m n, ~ In m [TarHeader.name; prefix] -> stores h0 m n -> stores h m n).
  { intros m n Hm. apply (stores_touches _ _ _ _ _ T1 Hm). }
  assert (Hw : th_wf h) by (apply (th_set_path_wf options h0 name); [done|apply Hf|done]).
  assert (Sz : stores h size (st_size s)) by (apply Hst; [simpl; intuition discriminate|done]).
  exists h. split; [exact E|]. split; [|split; [|split; [exact (eq_trans Pl Ql)|split; [exact (eq_trans Px Qx)|exact Pn]]]].
  - split; [done| | |done|lia]; [intros Hc; congruence|].
    apply (th_set_path_named options h0 name h); try done; apply Hf.
  - assert (Hty' : type_of h = REGTYPE) by (rewrite <- Fty; apply (type_touches _ _ _ L0 T1); simpl; intuition discriminate).
    assert (Hsz' : th_get_size h = Ret (st_size s)) by (apply (stores_oct _ _ _ Sz); lia).
    exact (Build_describes h s name (proj1 T1) Hty' (Hst mode _ ltac:(simpl; intuition discriminate) Sm)
      (Hst uid _ ltac:(simpl; intuition discriminate) Su) (Hst gid _ ltac:(simpl; intuition discriminate) Sg)
      (Hst mtime _ ltac:(simpl; intuition discriminate) St) Hsz' Hp').
Qed.

Lemma append_header_ok (t : TAR (list Z)) s realname name c w :
  plain_file (options t) s name c -> (forall ctx, lgetfilecon realname w = Some ctx -> context_string ctx) ->
  exists t', append_header t s realname name w = Ret t' /\ options t' = options t /\ fd t' = fd t /\
    ready (st_size s) (th_buf t') /\ describes (th_buf t') s name /\ gnu_longlink (th_buf t') = None /\
    context_pointer (selinux_context (th_buf t')) /\
    (gnu_longname (th_buf t') = None \/ gnu_longname (th_buf t') = Some (strdup name) /\ opt (options t) TAR_GNU = true).
Proof.
  intros Hf Hctx. destruct (file_header (options t) s name c Hf) as (h & E & Hr & Hd & Hl & Hx & Hn).
  unfold append_header. rewrite E. cbn [bind]. eexists. split; [reflexivity|]. cbn [with_header options th_buf fd].
  split; [reflexivity|]. split; [reflexivity|]. destruct (opt (options t) TAR_STORE_SELINUX).
  - destruct Hr as [R1 R2 R3 R4 R5], Hd as [D1 D2 D3 D4 D5 D6 D7 D8].
    split; [split; [exact R1|exact R2|exact R3|exact R4|exact R5]|].
    split; [split; [exact D1|exact D2|exact D3|exact D4|exact D5|exact D6|exact D7|exact D8]|].
    split; [exact Hl|]. split; [|exact Hn].
    intros buf Hbuf. cbn [set_selinux selinux_context] in Hbuf. destruct (lgetfilecon realname w) as [ctx|] eqn:Ec; [|discriminate].
    injection Hbuf as <-. exists ctx. split; [reflexivity|]. by apply Hctx.
  - split; [exact Hr|]. split; [exact Hd|]. split; [exact Hl|]. split; [|exact Hn]. intros buf Hbuf. congruence.
Qed.
End Header.

(** * Appending a file *)

(** The bytes [out], whatever follows them, are read as the header of a file. *)
Definition reads_as `{Target} `{Heap} (ro : Z) (out : list Z) (s : stat) (name : list Z) : Prop :=
  forall fuel h e rest, exists r, th_read (S fuel) (mkTAR ro h (out ++ rest) e) = ret (0, r) /\
    fd r = rest /\ options r = ro /\ describes (th_buf r) s name /\ context_pointer (selinux_context (th_buf r)).

Section AppendFile.
Context `{Target} `{Libc} `{Heap} {W : Type} `{FileSystem W} `{Stack}.
Context `{Allocator tar_dev} `{Allocator tar_ino} `{Comparisons}.
Hypothesis unsigned_chars : char_signed = false.
Hypothesis users_bytes : forall i s, getpwuid i = Some s -> bytes s.
Hypothesis groups_bytes : forall i s, getgrgid i = Some s -> bytes s.
Hypothesis heap_memory : forall z, malloc_ok z = true.

(** The header a file is described by survives writing and reading. *)
Lemma describes_read_back (t r : TAR (list Z)) s name c :
  plain_file (options t) s name c -> describes (th_buf t) s name ->
  (gnu_longname (th_buf t) = None \/ gnu_longname (th_buf t) = Some (strdup name) /\ opt (options t) TAR_GNU = true) ->
  type_of (th_buf r) = type_of (th_buf t) -> th_get_size (th_buf r) = Ret (st_size s) ->
  touches rewritten (th_buf t) (th_buf r) ->
  gnu_longname (th_buf r) = option_map padded (wanted t (gnu_longname (th_buf t)) TAR_GNU) ->
  describes (th_buf r) s name.
Proof.
  intros Hf [D1 D2 D3 D4 D5 D6 D7 D8] Hn Hty Hsz Ht Hp.
  assert (Hst : forall m n, ~ In m rewritten -> stores (th_buf t) m n -> stores (th_buf r) m n).
  { intros m n Hm. apply (stores_touches _ _ _ _ _ Ht Hm). }
  split; [apply Ht|congruence| | | | |exact Hsz|].
  1-4: apply Hst; [simpl; intuition discriminate|assumption].
  destruct Hn as [Hn|[Hn Hg]]; rewrite Hn in Hp.
  - rewrite <- D8. apply pathname_fields; [exact D1|apply Ht| | |exact Hn|].
    + apply Ht. simpl. intuition discriminate.
    + apply Ht. simpl. intuition discriminate.
    + rewrite Hp. unfold wanted. by destruct (opt _ _).
  - unfold wanted in Hp. rewrite Hg in Hp. cbn [option_map] in Hp.
    pose proof (long_name_read (th_buf r) name (pf_chars _ _ _ _ Hf)) as Hl. pose proof (pf_length _ _ _ _ Hf) as [Hpos Hlt].
    rewrite (Nat.mod_small (length name)) in Hl by exact Hlt. specialize (Hl Hpos).
    destruct (Nat.eqb_spec (length name) 0); [lia|]. rewrite <- Hl. unfold th_get_pathname at 1. by rewrite Hp.
Qed.

Lemma append_write_ok fuel ro t s realname name c w filefd w0 left :
  plain_file (options t) s name c -> ready (st_size s) (th_buf t) -> describes (th_buf t) s name ->
  gnu_longlink (th_buf t) = None -> context_pointer (selinux_context (th_buf t)) ->
  (gnu_longname (th_buf t) = None \/ gnu_longname (th_buf t) = Some (strdup name) /\ opt (options t) TAR_GNU = true) ->
  compatible (options t) ro ->
  open_rdonly realname w = (Some filefd, w0) -> reads filefd left -> left c w0 -> (length c < T_BLOCKSIZE * fuel)%nat ->
  exists t' r w' out, append_write fuel t realname w = ret (0, t', (close filefd w').2) /\ left r w' /\
    fd t' = fd t ++ out ++ pad c /\ options t' = options t /\ reads_as ro out s name.
Proof.
  intros Hf Hr Hd Hll Hctx Hln Hcomp Ho Hrd Hleft Hfuel. unfold append_write.
  assert (Hv : exists p, (if opt (options t) TAR_VERBOSE then th_get_pathname (th_buf t) else Ret []) = Ret p).
  { destruct (opt (options t) TAR_VERBOSE); [exists name; apply Hd|by exists []]. }
  destruct Hv as [p ->]. cbn [lift bindM]. pose proof (pf_length _ _ _ _ Hf) as [Hpos Hlt].
  destruct (write_read_back (st_size s) t ro heap_memory Hr) as (t1 & out & -> & F1 & (O1 & T1 & S1 & _) & Rd).
  - rewrite (ds_type _ _ _ Hd). split; [split; [done|reflexivity]|]. simpl. intuition discriminate.
  - exact Hcomp.
  - intros buf Hb. congruence.
  - intros buf Hb. destruct Hln as [E|[E _]]; rewrite E in Hb; [discriminate|]. injection Hb as <-.
    exists name. split_and!; [reflexivity|apply Hf|exact Hpos|lia].
  - exact Hctx.
  - cbn [bindM lift]. change (negb (0 =? 0)) with false. cbv iota.
    assert (Hreg : TH_ISREG (th_buf t1) = Ret true) by (unfold TH_ISREG; rewrite T1, (ds_type _ _ _ Hd); reflexivity).
    rewrite Hreg. cbn [bindM lift].
    destruct (append_regfile_spec fuel t1 realname w filefd w0 left c Ho Hrd Hleft) as (left_over & w' & -> & Hw').
    + rewrite S1. f_equal. apply (pf_size _ _ _ _ Hf).
    + rewrite <- (pf_size _ _ _ _ Hf). apply (pf_max _ _ _ _ Hf).
    + exact Hfuel.
    + cbn [bindM ret]. eexists _, left_over, w', out. split; [reflexivity|]. split; [exact Hw'|]. cbn [with_fd fd options]. rewrite F1, <- app_assoc.
      split; [reflexivity|]. split; [exact O1|]. intros fuel' h e rest.
      destruct (Rd fuel' h e rest) as (r & Er & Fr & Tr & Sr & Cr & Pr). exists r.
      split; [exact Er|]. split; [exact Fr|]. split; [exact (th_read_options _ _ _ Er)|].
      injection Pr as _ Pn Px. split; [exact (describes_read_back t r s name c Hf Hd Hln Tr Sr Cr Pn)|].
      rewrite Px. unfold wanted. destruct (opt (options t) TAR_STORE_SELINUX); [exact Hctx|]. intros buf Hbuf. discriminate Hbuf.
Qed.

Hypothesis dev_memory : forall m : store tar_dev, malloc m <> None /\ calloc_ok m = true.
Hypothesis ino_memory : forall m : store tar_ino, malloc m <> None /\ calloc_ok m = true.

(** [tar_append_file] on a regular file whose inode has not been seen. *)
Lemma append_file_ok fuel ro t k bs ds T seen s realname savename c w filefd w0 left :
  let name := match savename with Some n => n | None => realname end in
  lstat realname w = inl s -> plain_file (options t) s name c -> compatible (options t) ro ->
  (forall ctx, lgetfilecon realname w = Some ctx -> context_string ctx) ->
  open_rdonly realname w = (Some filefd, w0) -> reads filefd left -> left c w0 -> (length c < T_BLOCKSIZE * fuel)%nat ->
  cache_rep k bs ds T seen -> (length ds < fuel)%nat -> (length seen < fuel)%nat ->
  saved_name seen (st_dev s) (st_ino s) = None ->
  exists t' k' bs' ds' T' r w' out,
    tar_append_file fuel t k realname savename w = ret (0, t', k', (close filefd w').2) /\ left r w' /\
    fd t' = fd t ++ out ++ pad c /\ options t' = options t /\ reads_as ro out s name /\
    cache_rep k' bs' ds' T' (seen ++ [(st_dev s, mkIno (st_ino s) (saved_copy name))]) /\
    (length ds' <= S (length ds))%nat.
Proof.
  intros name Hst Hf Hcomp Hctx Ho Hrd Hleft Hfuel Hk Hds Hseen Hnew. unfold tar_append_file. rewrite Hst. fold name.
  destruct (append_header_ok unsigned_chars users_bytes groups_bytes t s realname name c w Hf Hctx)
    as (t1 & -> & O1 & F1 & R1 & D1 & L1 & X1 & N1). cbn [lift bindM].
  destruct (device_table_spec dev_memory ino_memory fuel k bs ds T seen (st_dev s) Hk Hds) as (k1 & bs1 & ds1 & T1 & td & -> & Hk1 & Htd & Hdev & Hl1).
  cbn [bindM ret].
  destruct (inode_entry_spec ino_memory fuel k1 bs1 ds1 T1 seen td (st_ino s) name Hk1 Htd Hseen) as (k2 & T2 & -> & Hk2).
  cbn [bindM ret]. rewrite Hdev, Hnew in Hk2 |- *. rewrite <- O1 in Hf, Hcomp, N1 |- *.
  unfold symlink_header. destruct (describes_tests _ _ _ _ Hf _ D1) as (_ & _ & _ & Hsym & _). rewrite Hsym. cbn [lift bindM bind].
  destruct (append_write_ok fuel ro t1 s realname name c w filefd w0 left Hf R1 D1 L1 X1 N1 Hcomp Ho Hrd Hleft Hfuel)
    as (t2 & r & w' & out & -> & Hr & F2 & O2 & Rd). cbn [bindM ret].
  exists t2, k2, bs1, ds1, T2, r, w', out. rewrite F2, F1. split_and!; done.
Qed.
End AppendFile.

(** * Archives of several files *)

Record item := mkItem { it_real : list Z; it_name : list Z; it_stat : stat; it_data : list Z }.

(** A file system from which the files can be read: [Inv] holds of its states. *)
Definition source {W} `{FileSystem W} (Inv : W -> Prop) (it : item) : Prop :=
  forall w, Inv w -> lstat (it_real it) w = inl (it_stat it) /\ opendir (it_real it) w = inr ENOTDIR /\
    (forall ctx, lgetfilecon (it_real it) w = Some ctx -> context_string ctx) /\
    exists filefd w0 left, open_rdonly (it_real it) w = (Some filefd, w0) /\ reads filefd left /\ left (it_data it) w0 /\
      forall r w', left r w' -> Inv (close filefd w').2.

(** The bytes of an archive that holds the files. *)
Inductive archive_of `{Target} `{Heap} (ro : Z) : list item -> list Z -> Prop :=
  | archive_nil : archive_of ro [] []
  | archive_cons it items out rest :
      reads_as ro out (it_stat it) (it_name it) -> archive_of ro items rest ->
      archive_of ro (it :: items) (out ++ pad (it_data it) ++ rest).

Definition end_of_archive : list Z := repeat 0 T_BLOCKSIZE ++ repeat 0 T_BLOCKSIZE.

Lemma append_eof_ok (t : TAR (list Z)) : tar_append_eof t = (0, with_fd t (fd t ++ end_of_archive)).
Proof.
  unfold tar_append_eof, append_zeros. rewrite write_block_memory. change (negb (BLOCK =? BLOCK)) with false. cbv iota.
  rewrite write_block_memory. change (negb (BLOCK =? BLOCK)) with false. cbv iota.
  unfold with_fd, end_of_archive. cbn [options th_buf fd errno]. by rewrite <- app_assoc.
Qed.

(** What has been seen of a list of files. *)
Definition seen_of (items : list item) : list (Z * tar_ino) :=
  map (fun it => (st_dev (it_stat it), mkIno (st_ino (it_stat it)) (saved_copy (it_name it)))) items.

Definition inode_of (it : item) : Z * Z := (st_dev (it_stat it), st_ino (it_stat it)).

Lemma saved_name_none before it : inode_of it ∉ map inode_of before -> saved_name (seen_of before) (st_dev (it_stat it)) (st_ino (it_stat it)) = None.
Proof.
  intros Hn. unfold saved_name. induction before as [|b before IH]; [done|]. simpl in *. rewrite not_elem_of_cons in Hn. destruct Hn as [Hb Hn].
  destruct (Z.eqb_spec (st_dev (it_stat b)) (st_dev (it_stat it))); simpl; [|by apply IH].
  destruct (Z.eqb_spec (st_ino (it_stat b)) (st_ino (it_stat it))); [|by apply IH].
  destruct Hb. unfold inode_of. congruence.
Qed.
