(* ===== verification/TarHandle.v ===== *)
(** Handles: src/libtar/lib/handle.c and [tar_dev_free] of append.c.

    A handle is the one of [TarBlock] with its flags and its table: the files extracted
    so far when the archive is read, the cache of inodes when it is written. *)
From stdpp Require Import gmap list.
From S2P Require Import Prelude CString TarHeader TarBlock TarUtil LinkedList HashTable TarAppend TarExtract.

Definition O_RDONLY : Z := 0.
Definition O_WRONLY : Z := 1.
Definition O_RDWR : Z := 2.
Definition O_ACCMODE : Z := 3.
Definition O_CREAT : Z := 64.
Definition O_EXCL : Z := 128.

(** [openfunc] and [closefunc] of a [tartype_t]. *)
Class TarFiles (D W : Type) := {
  openfunc : list Z -> Z -> Z -> W -> option D * W;
  closefunc : D -> W -> Z * W
}.

Inductive table_h := Links (k : links) | Inodes (c : cache).

Record tar_handle (D : Type) := mkHandle { h_tar : TAR D; h_oflags : Z; h_table : table_h }.
Arguments mkHandle {D}. Arguments h_tar {D}. Arguments h_oflags {D}. Arguments h_table {D}.

(** What a table has allocated. *)
Record heap := mkHeap {
  hp_links : store linkname_t;
  hp_devs : store tar_dev;
  hp_inos : store tar_ino;
  hp_tables : gmap nat (libtar_hash tar_ino Z)
}.

Section Handle.
Context `{Target} {D W : Type} `{TarFiles D W} `{Heap}.
Context `{Allocator linkname_t} `{Allocator tar_dev} `{Allocator tar_ino} `{Comparisons}.
(** [sizeof(TAR)], and the descriptor of a handle that [calloc] has zeroed *)
Context (sizeof_TAR : Z) (no_fd : D).

(** The handle, or the error. *)
Definition tar_init (oflags options : Z) : tar_handle D + option Z :=
  if Z.land oflags O_ACCMODE =? O_RDWR then inr (Some EINVAL)
  else if negb (malloc_ok sizeof_TAR) then inr None
  else
    let t := mkTAR options zero_header no_fd None in
    if Z.land oflags O_ACCMODE =? O_RDONLY then
      match libtar_hash_new ∅ 256 (Some path_bucket) with
      | None => inr None
      | Some h => inl (mkHandle t oflags (Links (mkLinks ∅ h)))
      end
    else
      match libtar_hash_new ∅ 16 (Some (fun dev _ => dev_hash dev)) with
      | None => inr None
      | Some h => inl (mkHandle t oflags (Inodes (mkCache ∅ h ∅ ∅)))
      end.

(** [libtar_hash_free] with the inodes of a device, then the device. *)
Definition tar_dev_free (fuel : nat) (tdp : tar_dev) (s : store tar_ino * gmap nat (libtar_hash tar_ino Z))
    : M (store tar_ino * gmap nat (libtar_hash tar_ino Z)) :=
  let '(m, ts) := s in
  match ts !! td_h tdp with
  | None => lift Fault
  | Some h => do! r := libtar_hash_free fuel m h (Some (fun _ s => s)) tt in ret (r.1, delete (td_h tdp) ts)
  end.

(** [libtar_hash_free] on the table of a handle, with the given function for devices. *)
Definition free_table (fuel : nat) (free_dev : option (tar_dev -> store tar_ino * gmap nat (libtar_hash tar_ino Z)
      -> M (store tar_ino * gmap nat (libtar_hash tar_ino Z)))) (h : table_h) : M heap :=
  match h with
  | Links k =>
      do! r := libtar_hash_free fuel (link_nodes k) (link_table k) (Some (fun _ s => s)) tt in
      ret (mkHeap r.1 ∅ ∅ ∅)
  | Inodes c =>
      do! r := libtar_hash_free fuel (dev_nodes c) (devices c)
                 (option_map (fun f td s => do! s := s in f td s) free_dev) (ret (ino_nodes c, inode_tables c)) in
      let '(m, s) := r in
      do! s := s in ret (mkHeap ∅ m s.1 s.2)
  end.

Definition tar_open (fuel : nat) (pathname : list Z) (oflags mode options : Z) (w : W) : M ((tar_handle D + option Z) * W) :=
  match tar_init oflags options with
  | inr e => ret (inr e, w)
  | inl t =>
      let flags := if opt options TAR_NOOVERWRITE && opt oflags O_CREAT then Z.lor oflags O_EXCL else oflags in
      let '(fd, w) := openfunc pathname flags mode w in
      match fd with
      | None => do! _ := free_table fuel None (h_table t) in ret (inr None, w)
      | Some fd => ret (inl (mkHandle (with_fd (h_tar t) fd) (h_oflags t) (h_table t)), w)
      end
  end.

Definition tar_fdopen (fd : D) (oflags options : Z) : tar_handle D + option Z :=
  match tar_init oflags options with
  | inr e => inr e
  | inl t => inl (mkHandle (with_fd (h_tar t) fd) (h_oflags t) (h_table t))
  end.

Definition tar_fd (t : tar_handle D) : D := fd (h_tar t).

(** The result of [closefunc], and what is left allocated. *)
Definition tar_close (fuel : nat) (t : tar_handle D) (w : W) : M (Z * heap * W) :=
  let '(i, w) := closefunc (fd (h_tar t)) w in
  do! rest := free_table fuel (if Z.land (h_oflags t) O_ACCMODE =? O_RDONLY then None else Some (tar_dev_free fuel)) (h_table t) in
  ret (i, rest, w).
End Handle.

(** * Lemmas *)

(** The table of a handle, by what it holds. *)
Inductive holds_table `{Target} `{Allocator linkname_t} `{Allocator tar_dev} `{Allocator tar_ino} (oflags : Z) : table_h -> nat -> Prop :=
  | holds_links k es :
      Z.land oflags O_ACCMODE = O_RDONLY -> links_rep k es -> holds_table oflags (Links k) (length es)
  | holds_inodes c bs ds T seen :
      Z.land oflags O_ACCMODE <> O_RDONLY -> cache_rep c bs ds T seen -> holds_table oflags (Inodes c) (length ds + length seen).

Section Lemmas.
Context `{Target} {D W : Type} `{TarFiles D W} `{Heap}.
Context `{Allocator linkname_t} `{Allocator tar_dev} `{Allocator tar_ino} `{Comparisons}.
Context (sizeof_TAR : Z) (no_fd : D).
Hypothesis heap_memory : forall z, malloc_ok z = true.
Hypothesis link_memory : forall m : store linkname_t, malloc m <> None /\ calloc_ok m = true.
Hypothesis dev_memory : forall m : store tar_dev, malloc m <> None /\ calloc_ok m = true.
Hypothesis ino_memory : forall m : store tar_ino, malloc m <> None /\ calloc_ok m = true.

Lemma init_reading oflags opts : Z.land oflags O_ACCMODE = O_RDONLY ->
  exists k, tar_init sizeof_TAR no_fd oflags opts = inl (mkHandle (mkTAR opts zero_header no_fd None) oflags (Links k)) /\ links_rep k [].
Proof.
  intros Ho. unfold tar_init. rewrite Ho, heap_memory. change (O_RDONLY =? O_RDWR) with false. change (O_RDONLY =? O_RDONLY) with true.
  cbn [negb]. destruct (empty_links_rep link_memory) as (h & -> & Hk). by eexists.
Qed.

Lemma init_writing oflags opts : Z.land oflags O_ACCMODE = O_WRONLY ->
  exists c bs T, tar_init sizeof_TAR no_fd oflags opts = inl (mkHandle (mkTAR opts zero_header no_fd None) oflags (Inodes c)) /\
    cache_rep c bs [] T [].
Proof.
  intros Ho. unfold tar_init. rewrite Ho, heap_memory. change (O_WRONLY =? O_RDWR) with false. change (O_WRONLY =? O_RDONLY) with false.
  cbn [negb]. destruct (empty_cache_rep dev_memory) as (h & bs & -> & Hc). by eexists _, bs, _.
Qed.

(** Freeing the devices one after the other: every table and every inode is freed. *)
Lemma free_devices fuel T todo : forall m ts,
  NoDup (map td_h todo) ->
  (forall td, td ∈ todo -> exists h es, ts !! td_h td = Some h /\ hash_rep m h (T (td_h td)) es /\ (length es < fuel)%nat) ->
  (forall td td', td ∈ todo -> td' ∈ todo -> td <> td' -> (concat (T (td_h td))).*1 ## (concat (T (td_h td'))).*1) ->
  (forall a, is_Some (m !! a) -> exists td, td ∈ todo /\ a ∈ (concat (T (td_h td))).*1) ->
  (forall a, is_Some (ts !! a) -> exists td, td ∈ todo /\ td_h td = a) ->
  fold_left (fun s td => release (Some (fun td s => do! s := s in tar_dev_free fuel td s)) td s) todo (ret (m, ts)) = ret (∅, ∅).
Proof.
  induction todo as [|td todo IH]; intros m ts Hnd Htab Hap Hm Hts.
  { simpl. assert (m = ∅) as ->; [|assert (ts = ∅) as ->; [|done]].
    - apply map_empty. intros a. destruct (m !! a) eqn:E; [|done]. destruct (Hm a) as (? & []%elem_of_nil & _). by rewrite E.
    - apply map_empty. intros a. destruct (ts !! a) eqn:E; [|done]. destruct (Hts a) as (? & []%elem_of_nil & _). by rewrite E. }
  cbn [map] in Hnd. apply NoDup_cons in Hnd as [Hnew Hnd]. cbn [fold_left]. unfold release at 2. unfold tar_dev_free at 2.
  cbn [bindM ret]. destruct (Htab td) as (h & es & -> & Hr & Hl); [by left|].
  destruct (hash_free_spec fuel m h _ es (Some (fun (_ : tar_ino) (s : unit) => s)) tt Hr Hl) as [-> _]. cbn [bindM ret fst].
  assert (Hne : forall td', td' ∈ todo -> td_h td' <> td_h td /\ (concat (T (td_h td))).*1 ## (concat (T (td_h td'))).*1).
  { intros td' Hin. assert (Hh : td_h td' <> td_h td).
    { intros E. apply Hnew. rewrite <- E. apply list_elem_of_In, in_map, list_elem_of_In. done. }
    split; [done|]. apply Hap; [by left|by right|congruence]. }
  apply IH; [done| | | |].
  - intros td' Hin. destruct (Hne td' Hin) as [Hh Hd]. destruct (Htab td') as (h' & es' & Hts' & Hr' & Hl'); [by right|].
    exists h', es'. rewrite lookup_delete_ne by done. split; [done|]. split; [|done].
    apply (hash_rep_frame m); [|done]. intros a Ha. by apply (remove_apart _ (concat (T (td_h td')))).
  - intros t1 t2 H1' H2'. apply Hap; by right.
  - intros a. rewrite remove_nodes_lookup. case_decide as Hin; [by intros []|]. intros Ha.
    destruct (Hm a Ha) as (td' & [->|Htd']%elem_of_cons & Hin'); [done|]. by exists td'.
  - intros a [Ha Hs]%lookup_delete_is_Some. destruct (Hts a Hs) as (td' & [->|Htd']%elem_of_cons & E); [done|]. by exists td'.
Qed.

(** [tar_close] calls [closefunc] once and frees everything the table of the handle has
    allocated. *)
Lemma close_empty fuel (t : tar_handle D) n w :
  holds_table (h_oflags t) (h_table t) n -> (n < fuel)%nat ->
  tar_close fuel t w = ret ((closefunc (fd (h_tar t)) w).1, mkHeap ∅ ∅ ∅ ∅, (closefunc (fd (h_tar t)) w).2).
Proof.
  intros Ht Hf. unfold tar_close. destruct (closefunc (fd (h_tar t)) w) as [i w'].
  destruct Ht as [k es Ho (_ & bs & Hr & Hown)|c bs ds T seen Ho Hc].
  - unfold free_table. destruct (hash_free_spec fuel _ _ bs es (Some (fun (_ : linkname_t) (s : unit) => s)) tt Hr Hf) as [-> _].
    cbn [bindM ret fst snd]. by rewrite remove_all.
  - destruct (Z.eqb_spec (Z.land (h_oflags t) O_ACCMODE) O_RDONLY); [done|]. unfold free_table. cbn [option_map].
    destruct (hash_free_spec fuel (dev_nodes c) (devices c) bs ds
      (Some (fun td s => do! s := s in tar_dev_free fuel td s)) (ret (ino_nodes c, inode_tables c)) (cr_devs _ _ _ _ _ Hc)) as [E Hp]; [lia|].
    rewrite E. cbn [bindM ret]. rewrite remove_all by exact (cr_dev_nodes _ _ _ _ _ Hc). rewrite (free_devices fuel T).
    + done.
    + rewrite Hp. apply Hc.
    + intros td. rewrite Hp. intros Hin. destruct (cr_table _ _ _ _ _ Hc td Hin) as (h & Hh & _ & Hrt). eexists _, _. split; [done|].
      split; [done|]. unfold on_device. rewrite length_fmap. pose proof (length_filter (fun e => e.1 = td_dev td) seen). lia.
    + intros td td'. rewrite Hp. apply (cr_apart _ _ _ _ _ Hc).
    + intros a. setoid_rewrite Hp. apply (cr_ino_nodes _ _ _ _ _ Hc).
    + intros a. setoid_rewrite Hp. apply (cr_tables _ _ _ _ _ Hc).
Qed.

(** closing an archive releases everything.  For a handle with a valid table (the
    files extracted so far when reading, the cache of devices and inodes when writing),
    [tar_close] ends, calls [closefunc] exactly once and returns its result, and frees
    every node, every entry and every table of inodes once: nothing is left allocated
    and nothing is freed twice, which would be a fault. *)
Theorem tar_close_releases fuel (t : tar_handle D) n w :
  holds_table (h_oflags t) (h_table t) n -> (n < fuel)%nat ->
  tar_close fuel t w = ret ((closefunc (fd (h_tar t)) w).1, mkHeap ∅ ∅ ∅ ∅, (closefunc (fd (h_tar t)) w).2).
Proof. apply close_empty. Qed.
End Lemmas.

(** * Witnesses *)

#[local] Instance demo_files : TarFiles (list Z) unit := {| openfunc _ _ _ w := (Some [], w); closefunc _ w := (7, w) |}.

(** A handle that knows two files of two devices, closed. *)
Lemma tar_close_releases_witness :
  exists h c1 td c2 c3 td' c4,
    libtar_hash_new (A := tar_dev) ∅ 16 (Some (fun dev _ => dev_hash dev)) = Some h /\
    device_table 3 (mkCache ∅ h ∅ ∅) 1 = ret (Some td, c1) /\ inode_entry 3 c1 td 5 [97] = ret (Some None, c2) /\
    device_table 3 c2 17 = ret (Some td', c3) /\ inode_entry 3 c3 td' 5 [98] = ret (Some None, c4) /\
    tar_close 7 (mkHandle (mkTAR 0 zero_header [] None) O_WRONLY (Inodes c4)) tt = ret (7, mkHeap ∅ ∅ ∅ ∅, tt).
Proof.
  assert (Hd : forall m : store tar_dev, malloc m <> None /\ calloc_ok m = true) by (intros m; split; [apply bump_malloc|reflexivity]).
  assert (Hi : forall m : store tar_ino, malloc m <> None /\ calloc_ok m = true) by (intros m; split; [apply bump_malloc|reflexivity]).
  destruct (empty_cache_rep Hd) as (h & bs & Eh & Hc). exists h.
  destruct (device_table_spec Hd Hi 3 _ bs [] _ [] 1 Hc ltac:(simpl; lia)) as (c1 & bs1 & ds1 & T1 & td & E1 & Hc1 & Hin1 & Hdev1 & Hl1).
  destruct (inode_entry_spec Hi 3 c1 bs1 ds1 T1 [] td 5 [97] Hc1 Hin1 ltac:(simpl; lia)) as (c2 & T2 & E2 & Hc2). cbn [saved_name List.find] in E2, Hc2.
  destruct (device_table_spec Hd Hi 3 c2 bs1 ds1 T2 _ 17 Hc2 ltac:(simpl in *; lia)) as (c3 & bs3 & ds3 & T3 & td3 & E3 & Hc3 & Hin3 & Hdev3 & Hl3).
  destruct (inode_entry_spec Hi 3 c3 bs3 ds3 T3 _ td3 5 [98] Hc3 Hin3 ltac:(simpl; lia)) as (c4 & T4 & E4 & Hc4). rewrite Hdev1, Hdev3 in *.
  exists c1, (td_h td), c2, c3, (td_h td3), c4. split; [exact Eh|]. split; [exact E1|]. split; [exact E2|]. split; [exact E3|]. split; [exact E4|].
  refine (tar_close_releases 7 (mkHandle (mkTAR 0 zero_header [] None) O_WRONLY (Inodes c4)) _ tt
    (holds_inodes O_WRONLY c4 bs3 ds3 T4 _ _ Hc4) _); [discriminate|simpl in *; lia].
Defined.
