(* ===== verification/TarRestore.v ===== *)
(** Restoring archives: [tar_extract_all] (src/libtar/lib/wrapper.c) on the archives of
    [TarArchive], and the round trip.

    [Disk] is the interface the extraction relies on: the calls succeed, and each
    changes only what its manual says. *)
From stdpp Require Import gmap list.
From S2P Require Import Prelude CString TarHeader TarBlock TarUtil LinkedList HashTable TarAppend TarExtract TarArchive.

(** * A file system with room *)

(** A regular file: its bytes, permission bits, owner and time. *)
Record file_t := mkFile { f_data : list Z; f_mode : Z; f_uid : Z; f_gid : Z; f_mtime : Z }.

Class Disk (W : Type) `{FileSystem W} := {
  (** the regular file at a path *)
  file_at : list Z -> W -> option file_t;
  (** the path a descriptor was opened with *)
  opened : Z -> W -> list Z;
  (** paths that do not lead to the same file *)
  apart : list Z -> list Z -> Prop;
  root_law w : geteuid w = 0;
  mkdir_law p m w : exists e w', mkdir p m w = (e, w') /\ (e = None \/ e = Some EEXIST) /\ forall q, file_at q w' = file_at q w;
  open_law p m w : exists fd w' f, open_creat p m w = (Some fd, w') /\ opened fd w' = p /\
    file_at p w' = Some f /\ f_data f = [] /\ forall q, apart p q -> file_at q w' = file_at q w;
  write_law fd bs w f : file_at (opened fd w) w = Some f ->
    exists w' f', write fd bs w = (Z.of_nat (length bs), w') /\ opened fd w' = opened fd w /\
      file_at (opened fd w) w' = Some f' /\ f_data f' = f_data f ++ bs /\
      forall q, apart (opened fd w) q -> file_at q w' = file_at q w;
  close_law fd w : exists w', close fd w = (0, w') /\ forall q, file_at q w' = file_at q w;
  lchown_law p u g w f : file_at p w = Some f ->
    exists w' m t, lchown p u g w = (0, w') /\ file_at p w' = Some (mkFile (f_data f) m u g t) /\
      forall q, apart p q -> file_at q w' = file_at q w;
  utime_law p t w f : file_at p w = Some f ->
    exists w', utime p t w = (0, w') /\ file_at p w' = Some (mkFile (f_data f) (f_mode f) (f_uid f) (f_gid f) t) /\
      forall q, apart p q -> file_at q w' = file_at q w;
  chmod_law p m w f : file_at p w = Some f ->
    exists w', chmod p m w = (0, w') /\ file_at p w' = Some (mkFile (f_data f) (Z.land m 4095) (f_uid f) (f_gid f) (f_mtime f)) /\
      forall q, apart p q -> file_at q w' = file_at q w;
  lsetfilecon_law p c w : forall q, file_at q (lsetfilecon p c w).2 = file_at q w
}.

Section Restore.
Context {W : Type} `{Disk W}.

Definition same_contents (w w' : W) : Prop := forall q, file_at q w' = file_at q w.

(** Only the file at [p] may have changed. *)
Definition frame (p : list Z) (w w' : W) : Prop := forall q, apart p q -> file_at q w' = file_at q w.

Lemma same_contents_trans w1 w2 w3 : same_contents w1 w2 -> same_contents w2 w3 -> same_contents w1 w3.
Proof. intros H1 H2 q. by rewrite H2, H1. Qed.

Lemma frame_same p w w' : same_contents w w' -> frame p w w'.
Proof. intros Hs q _. apply Hs. Qed.

Lemma frame_trans p w1 w2 w3 : frame p w1 w2 -> frame p w2 w3 -> frame p w1 w3.
Proof. intros H1 H2 q Hq. by rewrite H2, H1. Qed.

(** ** Directories *)

Lemma strsep_length s delim : forall tok rest, strsep s delim = (tok, Some rest) -> (length tok + S (length rest) = length s)%nat.
Proof.
  induction s as [|c s IH]; intros tok rest; simpl; [done|]. destruct (existsb _ _); [intros [= <- <-]; done|].
  destruct (strsep s delim) as [tok' rest'] eqn:E. intros [= <- ->]. specialize (IH _ _ eq_refl). simpl. lia.
Qed.

Lemma strsep_token s delim : forall tok rest, strsep s delim = (tok, rest) -> (length tok <= length s)%nat.
Proof.
  induction s as [|c s IH]; intros tok rest; simpl; [intros [= <- <-]; done|]. destruct (existsb _ _); [intros [= <- <-]; simpl; lia|].
  destruct (strsep s delim) as [tok' rest'] eqn:E. intros [= <- <-]. specialize (IH _ _ eq_refl). simpl. lia.
Qed.

(** The loop ends, makes every directory and leaves the files alone. *)
Lemma mkdir_loop_ok fuel : forall nextp dst retval w,
  retval <> -1 -> match nextp with None => True | Some s => (length dst + 1 + length s < MAXPATHLEN)%nat end ->
  (match nextp with None => 0 | Some s => S (length s) end < fuel)%nat ->
  exists i w', mkdir_loop fuel nextp dst retval w = ret (i, w') /\ i <> -1 /\ same_contents w w'.
Proof.
  induction fuel as [|fuel IH]; intros nextp dst retval w Hr Hb Hf; [lia|]. cbn [mkdir_loop].
  destruct nextp as [s|]; [|by exists retval, w].
  destruct (strsep s [SLASH]) as [tok rest] eqn:Es. pose proof (strsep_token _ _ _ _ Es) as Ht.
  assert (Hrest : (match rest with None => 0 | Some s' => S (length s') end < fuel)%nat).
  { destruct rest as [s'|]; [|destruct fuel; lia]. apply strsep_length in Es. lia. }
  destruct tok as [|c tok].
  { apply IH; [done| |done]. destruct rest as [s'|]; [|done]. apply strsep_length in Es. simpl in Es. lia. }
  assert (Hcat : exists dst1, match dst with [] => Ret dst | _ => strcat dst [SLASH] end = Ret dst1 /\ (length dst1 <= length dst + 1)%nat).
  { destruct dst as [|d dst]; [exists []; split; [done|simpl; lia]|]. unfold strcat.
    destruct (Nat.ltb_spec (length (d :: dst) + length [SLASH]) MAXPATHLEN); [|simpl in *; lia].
    eexists. split; [done|]. rewrite length_app. simpl. lia. }
  destruct Hcat as (dst1 & -> & Hd1). cbn [lift bindM]. unfold strcat.
  destruct (Nat.ltb_spec (length dst1 + length (c :: tok)) MAXPATHLEN); [|lia]. cbn [lift bindM].
  assert (Hnext : match rest with None => True | Some s' => (length (dst1 ++ c :: tok) + 1 + length s' < MAXPATHLEN)%nat end).
  { destruct rest as [s'|]; [|done]. apply strsep_length in Es. rewrite length_app. lia. }
  destruct (mkdir_law (dst1 ++ c :: tok) 511 w) as (e & w1 & -> & He & Hw1).
  assert (Hgo : exists i w', mkdir_loop fuel rest (dst1 ++ c :: tok) (match e with None => 0 | Some _ => retval end) w1 = ret (i, w') /\
    i <> -1 /\ same_contents w1 w') by (apply IH; [destruct e; done|done|done]).
  destruct Hgo as (i & w' & E & Hi & Hw'). exists i, w'. destruct He as [-> | ->].
  - split; [exact E|]. split; [done|]. by eapply same_contents_trans.
  - change (negb (EEXIST =? EEXIST)) with false. split; [exact E|]. split; [done|]. by eapply same_contents_trans.
Qed.

Lemma mkdirhier_ok fuel path w :
  chars path -> (length path + 2 < MAXPATHLEN)%nat -> (S (length path) < fuel)%nat ->
  exists i w', mkdirhier fuel path w = ret (i, w') /\ i <> -1 /\ same_contents w w'.
Proof.
  intros Hc Hl Hf. unfold mkdirhier. rewrite strlcpy_spec.
  destruct (Z.ltb_spec (Z.of_nat MAXPATHLEN) (Z.of_nat (length path))); [lia|].
  assert (E : c_string_n MAXPATHLEN (snprintf MAXPATHLEN path) = path).
  { change (snprintf MAXPATHLEN path) with (firstn 4095 path ++ [0]). rewrite firstn_all2 by (unfold MAXPATHLEN in Hl; lia).
    apply c_string_n_chars; [done|right; split; [lia|done]]. }
  rewrite E. apply mkdir_loop_ok; [done| |done]. destruct (is_slash _); simpl; lia.
Qed.

(** ** One file *)

Context `{Target} `{Libc} `{Allocator linkname_t} `{Heap}.

Lemma make_parents_ok fuel d b w :
  dir_path d b -> chars d -> (length d + 2 < MAXPATHLEN)%nat -> (S (length d) < fuel)%nat ->
  exists w', make_parents fuel (d ++ SLASH :: b) w = ret (true, w') /\ same_contents w w'.
Proof.
  intros Hp Hc Hl Hf. unfold make_parents. rewrite dirname_join by (done || lia). cbn [lift bindM].
  destruct (mkdirhier_ok fuel d w Hc Hl Hf) as (i & w' & -> & Hi & Hs). cbn [bindM ret].
  destruct (Z.eqb_spec i (-1)); [done|]. by exists w'.
Qed.

(** The descriptor of a file that is being extracted takes all bytes. *)
Lemma disk_writes fdout p w0 : writes fdout (fun g w => opened fdout w = p /\ frame p w0 w /\
  exists f, file_at p w = Some f /\ f_data f = g).
Proof.
  intros bs g w (Ho & Hfr & f & Hf & <-). rewrite <- Ho in Hf.
  destruct (write_law fdout bs w f Hf) as (w' & f' & -> & Ho' & Hf' & Hd & Hq). rewrite Ho in *.
  exists w'. split; [done|]. split; [done|]. split; [by eapply frame_trans|]. by exists f'.
Qed.

(** Where a file goes: a directory and a name that fit the buffers. *)
Definition placed (p : list Z) : Prop := exists d b, p = d ++ SLASH :: b /\ dir_path d b /\ chars p /\ (length p < MAXPATHLEN)%nat.

Lemma placed_parents fuel p w : placed p -> (MAXPATHLEN < fuel)%nat ->
  exists w', make_parents fuel p w = ret (true, w') /\ same_contents w w'.
Proof.
  intros (d & b & -> & Hp & Hc & Hl) Hf. rewrite length_app in Hl. simpl in Hl. apply Forall_app in Hc as [Hc _].
  assert (0 < length b)%nat by (destruct Hp as (_ & _ & Hb & _); destruct b; [done|simpl; lia]).
  apply make_parents_ok; try done; lia.
Qed.

Lemma extract_regfile_ok wo fuel (t : TAR (list Z)) s name c rest p w :
  plain_file wo s name c -> describes (th_buf t) s name -> placed p ->
  fd t = pad c ++ rest -> (MAXPATHLEN < fuel)%nat -> (count (length c) < fuel)%nat ->
  exists w' f, tar_extract_regfile fuel t (Some p) w = ret (0, with_fd t rest, w') /\
    file_at p w' = Some f /\ f_data f = c /\ frame p w w'.
Proof.
  intros Hpf Hd Hp Hfd Hf Hf2. destruct (describes_tests _ _ _ _ Hpf _ Hd) as (Hreg & _).
  unfold tar_extract_regfile. rewrite Hreg, (ds_path _ _ _ Hd), (ds_size _ _ _ Hd). cbn [lift bindM negb filename].
  destruct (placed_parents fuel p w Hp Hf) as (w1 & -> & Hs1). cbn [bindM ret negb].
  destruct (open_law p 438 w1) as (fdout & w2 & f2 & -> & Ho & Hf2' & Hd2 & Hfr2).
  rewrite (pf_size _ _ _ _ Hpf), i32_small by (pose proof (pf_max _ _ _ _ Hpf); rewrite (pf_size _ _ _ _ Hpf) in *; lia).
  destruct (extract_blocks_spec fdout _ (disk_writes fdout p w2) fuel c [] t w2 rest) as (w3 & -> & _ & Hfr3 & f3 & Hf3 & Hd3).
  - split; [done|]. split; [by intros q _|]. by exists f2.
  - done.
  - done.
  - change (negb (0 =? 0)) with false. cbv iota. destruct (close_law fdout w3) as (w4 & -> & Hs4).
    exists w4, f3. split; [done|]. split; [by rewrite Hs4|]. split; [done|].
    apply (frame_trans _ _ w1); [by apply frame_same|]. apply (frame_trans _ _ w2); [done|].
    apply (frame_trans _ _ w3); [done|]. by apply frame_same.
Qed.

Lemma set_perms_ok wo (t : TAR (list Z)) s name c p w f :
  plain_file wo s name c -> describes (th_buf t) s name -> opt (options t) TAR_USE_NUMERIC_ID = true ->
  file_at p w = Some f ->
  exists w', tar_set_file_perms t (Some p) w = Ret (0, w') /\ frame p w w' /\
    file_at p w' = Some (mkFile (f_data f) (Z.land (st_mode s) 4095) (st_uid s) (st_gid s) (st_mtime s)).
Proof.
  intros Hpf Hd Ho Hf. destruct (describes_tests _ _ _ _ Hpf _ Hd) as (_ & _ & _ & Hsym & _).
  destruct (describes_numbers _ _ _ _ Hpf _ Hd) as (Hm & Ht & Hid). destruct (Hid _ Ho) as [Hu Hg].
  unfold tar_set_file_perms. rewrite (ds_path _ _ _ Hd), Hm, Hu, Hg, Ht. cbn [bind filename]. rewrite root_law, Z.eqb_refl.
  destruct (lchown_law p (st_uid s) (st_gid s) w f Hf) as (w1 & m1 & t1 & -> & Hf1 & Hq1).
  change (0 =? -1) with false. cbv iota. rewrite Hsym. cbn [bind].
  destruct (utime_law p (st_mtime s) w1 _ Hf1) as (w2 & -> & Hf2 & Hq2). change (0 =? -1) with false. cbv iota.
  destruct (chmod_law p (st_mode s) w2 _ Hf2) as (w3 & -> & Hf3 & Hq3). change (0 =? -1) with false. cbv iota.
  exists w3. split; [done|]. split; [|exact Hf3]. apply (frame_trans _ _ w1); [done|]. by apply (frame_trans _ _ w2).
Qed.

Lemma restore_context_ok (t : TAR (list Z)) p w : context_pointer (selinux_context (th_buf t)) ->
  exists w', restore_context t p w = Ret w' /\ same_contents w w'.
Proof.
  intros Hx. unfold restore_context. destruct (selinux_context (th_buf t)) as [ctx|]; [|by exists w].
  destruct (opt _ _); [|by exists w]. destruct (Hx ctx eq_refl) as (s & -> & Hs & _).
  unfold strdup. rewrite c_string_chars by done. cbn [bind]. eexists. split; [done|]. intros q. apply lsetfilecon_law.
Qed.

Hypothesis link_memory : forall m : store linkname_t, malloc m <> None /\ calloc_ok m = true.

Lemma remember_ok wo fuel (t : TAR (list Z)) s name c p k es :
  plain_file wo s name c -> describes (th_buf t) s name -> placed p -> links_rep k es -> (length es < fuel)%nat ->
  exists k', remember fuel t k p = ret (0, k') /\ links_rep k' (es ++ [mkLink name p]).
Proof.
  intros Hpf Hd (d & b & _ & _ & Hc & Hl) Hk Hf. unfold remember. rewrite (proj2 (link_memory (link_nodes k))), (ds_path _ _ _ Hd).
  cbn [negb lift bindM]. cbv zeta. cbn [ln_save].
  assert (Hn : (length name < MAXPATHLEN)%nat) by (pose proof (pf_length _ _ _ _ Hpf); unfold MAXPATHLEN; lia).
  rewrite (copy_path name) by (done || apply Hpf). rewrite (copy_path p) by done.
  destruct (path_hash_total name (numbuckets (link_table k)) Hn) as [v ->]. cbn [lift bindM].
  destruct (links_add link_memory fuel k es (mkLink name p) Hk Hf) as (m' & h' & -> & Hk'). cbn [bindM ret]. by eexists.
Qed.

Context `{Makedev}.

(** What a file becomes. *)
Definition image (s : stat) (c : list Z) : file_t := mkFile c (Z.land (st_mode s) 4095) (st_uid s) (st_gid s) (st_mtime s).

Lemma extract_file_ok wo fuel (t : TAR (list Z)) s name c rest p w k es :
  plain_file wo s name c -> describes (th_buf t) s name -> context_pointer (selinux_context (th_buf t)) ->
  opt (options t) TAR_USE_NUMERIC_ID = true -> opt (options t) TAR_NOOVERWRITE = false ->
  placed p -> fd t = pad c ++ rest -> links_rep k es ->
  (MAXPATHLEN < fuel)%nat -> (count (length c) < fuel)%nat -> (length es < fuel)%nat ->
  exists k' w', tar_extract_file fuel t k p w = ret (0, with_fd t rest, k', w') /\ links_rep k' (es ++ [mkLink name p]) /\
    file_at p w' = Some (image s c) /\ frame p w w'.
Proof.
  intros Hpf Hd Hx Hnum Hno Hp Hfd Hk Hf1 Hf2 Hf3. unfold tar_extract_file, exists_already. rewrite Hno. cbn [andb].
  destruct (describes_tests _ _ _ _ Hpf _ Hd) as (_ & Hdir & Hlnk & Hsym & Hchr & Hblk & Hfifo).
  unfold extract_by_type. rewrite Hdir, Hlnk, Hsym, Hchr, Hblk, Hfifo. cbn [lift bindM].
  destruct (extract_regfile_ok wo fuel t s name c rest p w Hpf Hd Hp Hfd Hf1 Hf2) as (w1 & f & -> & Hf & Hc & Hfr1).
  cbn [bindM ret]. change (negb (0 =? 0)) with false. cbv iota.
  destruct (set_perms_ok wo (with_fd t rest) s name c p w1 f Hpf Hd Hnum Hf) as (w2 & -> & Hfr2 & Hf').
  cbn [lift bindM]. change (negb (0 =? 0)) with false. cbv iota.
  destruct (restore_context_ok (with_fd t rest) p w2 Hx) as (w3 & -> & Hs3). cbn [lift bindM].
  destruct (remember_ok wo fuel (with_fd t rest) s name c p k es Hpf Hd Hp Hk Hf3) as (k' & -> & Hk'). cbn [bindM ret].
  exists k', w3. split; [done|]. split; [done|]. split; [by rewrite Hs3, Hf', Hc|].
  apply (frame_trans _ _ w1); [done|]. apply (frame_trans _ _ w2); [done|]. by apply frame_same.
Qed.

(** ** All files *)

(** The two zero blocks end the archive, whatever follows them. *)
Lemma read_end fuel ro h e junk : opt ro TAR_IGNORE_EOT = false ->
  exists t', th_read (S (S fuel)) (mkTAR ro h (end_of_archive ++ junk) e) = ret (1, t').
Proof.
  intros Ho. set (z := repeat 0 T_BLOCKSIZE). assert (Hz : length z = T_BLOCKSIZE) by apply repeat_length.
  assert (Hread : forall rest, read_header (mkTAR ro zero_header (z ++ rest) e) = (BLOCK, mkTAR ro zero_header rest e)).
  { intros rest. unfold read_header. cbn [fd]. rewrite take_block by exact Hz. reflexivity. }
  unfold th_read, with_header, end_of_archive. cbn [options fd errno]. cbn [th_read_internal]. fold z.
  rewrite <- app_assoc.
  rewrite Hread. change (BLOCK =? BLOCK) with true. change (get (blk (th_buf _)) (offset name) =? 0) with true at 1. cbv iota zeta.
  cbn [options]. rewrite Ho. change (negb false && (2 <=? 0 + 1)) with false. cbv iota.
  rewrite Hread. change (BLOCK =? BLOCK) with true. cbn [th_buf options].
  change (get (blk zero_header) (offset name) =? 0) with true. cbv iota. rewrite Ho.
  change (negb false && (2 <=? 0 + 1 + 1)) with true. cbv iota. cbn [bindM ret]. change (0 =? 0) with true. cbv iota. by eexists.
Qed.

Definition target (prefix : option (list Z)) (it : item) : list Z := target_path prefix (it_name it).

(** A file and where it goes. *)
Record restorable (wo : Z) (prefix : option (list Z)) (fuel : nat) (it : item) : Prop := {
  rs_plain : plain_file wo (it_stat it) (it_name it) (it_data it);
  rs_placed : placed (target prefix it);
  rs_fuel : (count (length (it_data it)) < fuel)%nat
}.

Definition restored (prefix : option (list Z)) (w : W) (it : item) : Prop :=
  file_at (target prefix it) w = Some (image (it_stat it) (it_data it)).

Definition link_of (prefix : option (list Z)) (it : item) : linkname_t := mkLink (it_name it) (target prefix it).
End Restore.
