(* ===== verification/MiniTar.v ===== *)
(** The tar command: src/libtar/minitar/minitar.c.

    The global variables are the record [settings]; the options of the command line come
    from [getopt_long] as a list of letters with their arguments.  Archives are read and
    written through the descriptors of [Descriptors]: plain ones, and those of zlib. *)
From stdpp Require Import gmap list.
From S2P Require Import Prelude CString TarHeader TarBlock TarUtil LinkedList HashTable TarAppend TarExtract TarArchive TarOutput TarHandle.

(** The calls that open and close archives; the state of the open file is a [D]. *)
Class Descriptors (D W : Type) := {
  sys_open : list Z -> Z -> Z -> W -> option Z * W;
  fchmod : Z -> Z -> W -> Z * W;
  gzdopen : Z -> bool -> W -> option D * W;
  plain_fd : Z -> W -> D;
  gz_fd : Z -> W -> D;
  close_fd : D -> W -> Z * W;
  gzclose : D -> W -> Z * W;
  fopen : list Z -> W -> option (list Z);
  fnmatch : list Z -> list Z -> Z -> Z
}.

Record settings := mkSettings {
  verbose : Z;
  use_gnu : Z;
  store_selinux_ctx : Z;
  use_numeric_id : Z;
  use_zlib : Z;
  exclude_list : list (list Z)
}.

Definition nonzero (z : Z) : bool := negb (z =? 0).

(** The options of a handle. *)
Definition handle_options (s : settings) : Z :=
  (if verbose s =? 1 then TAR_VERBOSE else 0)
  .| (if nonzero (store_selinux_ctx s) then TAR_STORE_SELINUX else 0)
  .| (if nonzero (use_numeric_id s) then TAR_USE_NUMERIC_ID else 0)
  .| (if nonzero (use_gnu s) then TAR_GNU else 0).

Definition set_verbose (s : settings) (v : Z) : settings :=
  mkSettings v (use_gnu s) (store_selinux_ctx s) (use_numeric_id s) (use_zlib s) (exclude_list s).

(** [strnlen(tarfile,2) == 1 && !strncmp(tarfile,"-",1)] *)
Definition is_dash (tarfile : list Z) : bool := match tarfile with [c] => c =? 45 | _ => false end.

Definition FNM_PATHNAME : Z := 2.
Definition FNM_LEADING_DIR : Z := 8.

Section Archives.
Context {D W : Type} `{Descriptors D W}.

Definition gzopen_frontend (pathname : list Z) (oflags mode : Z) (w : W) : option D * W :=
  let acc := Z.land oflags O_ACCMODE in
  if (acc =? O_WRONLY) || (acc =? O_RDONLY) then
    let '(fd, w) := sys_open pathname oflags mode w in
    match fd with
    | None => (None, w)
    | Some fd =>
        let '(bad, w) := if opt oflags O_CREAT then let '(i, w) := fchmod fd mode w in (nonzero i, w) else (false, w) in
        if bad then (None, w) else gzdopen fd (acc =? O_WRONLY) w
    end
  else (None, w).

(** [default_type] and [gztype] *)
Definition default_type : TarFiles D W := {|
  openfunc p o m w := let '(fd, w) := sys_open p o m w in (match fd with Some n => Some (plain_fd n w) | None => None end, w);
  closefunc := close_fd
|}.
Definition gztype : TarFiles D W := {| openfunc := gzopen_frontend; closefunc := gzclose |}.
Definition type_in_use (s : settings) : TarFiles D W := if nonzero (use_zlib s) then gztype else default_type.

(** The descriptor of a stream, as the type in use takes it. *)
Definition stream_fd (s : settings) (n : Z) (w : W) : D := if nonzero (use_zlib s) then gz_fd n w else plain_fd n w.

(** A name that matches one of the excluded patterns; patterns with a slash are matched
    against the path. *)
Definition excluded (s : settings) (path name : list Z) : bool :=
  existsb (fun pattern => fnmatch pattern (match strchr pattern SLASH with Some _ => path | None => name end)
                            (Z.lor FNM_PATHNAME FNM_LEADING_DIR) =? 0) (exclude_list s).

Context `{Target} `{Libc} `{TarType D} `{FileSystem W} `{Heap} `{Stack} `{Makedev}.
Context `{Allocator linkname_t} `{Allocator tar_dev} `{Allocator tar_ino} `{Comparisons} `{Allocator (list Z)} `{StrCmp (list Z) (list Z)}.
Context (sizeof_TAR : Z) (no_fd : D) (date : Z -> list Z).

(** [tar_fdopen] on a stream for "-", otherwise [tar_open]. *)
Definition open_archive (fuel : nat) (s : settings) (tarfile : list Z) (oflags mode stream : Z) (w : W)
    : M ((tar_handle D + option Z) * W) :=
  if is_dash tarfile then ret (tar_fdopen sizeof_TAR no_fd (stream_fd s stream w) oflags (handle_options s), w)
  else @tar_open _ D W (type_in_use s) _ _ _ sizeof_TAR no_fd fuel tarfile oflags mode (handle_options s) w.

Definition close_archive (fuel : nat) (s : settings) (t : tar_handle D) (w : W) : M (Z * heap * W) :=
  @tar_close D W (type_in_use s) fuel t w.

Definition no_heap : heap := mkHeap ∅ ∅ ∅ ∅.

(** ** Creating *)

Fixpoint append_entries_with_exceptions (s : settings)
    (tree : TAR D -> cache -> list Z -> option (list Z) -> W -> M (Z * TAR D * cache * W))
    (fuel : nat) (entries : list (list Z)) (t : TAR D) (c : cache) (realdir : list Z) (savedir : option (list Z)) (w : W)
    : M (Z * TAR D * cache * W) :=
  match entries with
  | [] => ret (0, t, c, w)
  | d_name :: entries =>
      if (strcmp_chars d_name [DOT] =? 0) || (strcmp_chars d_name [DOT; DOT] =? 0)
      then append_entries_with_exceptions s tree fuel entries t c realdir savedir w
      else
        let realpath := join_path realdir d_name in
        let savepath := match savedir with Some d => Some (join_path d d_name) | None => None end in
        match lstat realpath w with
        | inr _ => ret (-1, t, c, w)
        | inl st =>
            if excluded s realpath d_name then append_entries_with_exceptions s tree fuel entries t c realdir savedir w
            else
              do! r := if is_type S_IFDIR (st_mode st) then tree t c realpath savepath w
                       else
                         do! _ := lift (if verbose s =? 2 then th_get_pathname (th_buf t) else Ret []) in
                         tar_append_file fuel t c realpath savepath w in
              let '(i, t, c, w) := r in
              if negb (i =? 0) then ret (-1, t, c, w) else append_entries_with_exceptions s tree fuel entries t c realdir savedir w
        end
  end.

(** [depth] bounds the nesting of directories. *)
Fixpoint tar_append_tree_with_exceptions (depth fuel : nat) (s : settings) (t : TAR D) (c : cache) (realdir : list Z)
    (savedir : option (list Z)) (w : W) : M (Z * TAR D * cache * W) :=
  match depth with
  | O => None
  | S depth =>
      do! r := tar_append_file fuel t c realdir savedir w in
      let '(i, t, c, w) := r in
      if negb (i =? 0) then ret (-1, t, c, w)
      else
        match opendir realdir w with
        | inr e => ret (if e =? ENOTDIR then 0 else -1, t, c, w)
        | inl entries =>
            append_entries_with_exceptions s (tar_append_tree_with_exceptions depth fuel s) fuel entries t c realdir savedir w
        end
  end.

(** Where a file named on the command line is. *)
Definition real_path (rootdir : option (list Z)) (pathname : list Z) : list Z :=
  match rootdir with
  | Some root => if is_slash (get (pathname ++ [0]) 0) then firstn (MAXPATHLEN - 1) pathname else join_path root pathname
  | None => firstn (MAXPATHLEN - 1) pathname
  end.

(** The files of the list [l], whose nodes are in [m]. *)
Fixpoint create_files (steps depth fuel : nat) (s : settings) (m : store (list Z)) (l : libtar_list (list Z)) (lp : ptr)
    (rootdir : option (list Z)) (t : TAR D) (c : cache) (w : W) : M (Z * TAR D * cache * W) :=
  match steps with
  | O => None
  | S steps =>
      do! r := lift (libtar_list_next m l lp) in
      let '(i, lp) := r in
      if i =? 0 then ret (0, t, c, w)
      else
        do! pathname := lift (libtar_listptr_data m lp) in
        do! r := tar_append_tree_with_exceptions depth fuel s t c (real_path rootdir pathname) (Some pathname) w in
        let '(i, t, c, w) := r in
        if negb (i =? 0) then ret (-1, t, c, w) else create_files steps depth fuel s m l lp rootdir t c w
  end.

(** The result, what is left allocated, and the state of the files. *)
Definition create (depth fuel : nat) (s : settings) (tarfile : list Z) (rootdir : option (list Z))
    (m : store (list Z)) (l : libtar_list (list Z)) (w : W) : M (Z * heap * W) :=
  let s := if is_dash tarfile && nonzero (verbose s) then set_verbose s 2 else s in
  do! r := open_archive fuel s tarfile (Z.lor O_WRONLY O_CREAT) 420 1 w in
  let '(t, w) := r in
  match t with
  | inr _ => ret (-1, no_heap, w)
  | inl t =>
      match h_table t with
      | Links _ => lift Fault
      | Inodes c =>
          do! r := create_files fuel depth fuel s m l libtar_listptr_reset rootdir (h_tar t) c w in
          let '(i, u, c, w) := r in
          let close u w := close_archive fuel s (mkHandle u (h_oflags t) (Inodes c)) w in
          if negb (i =? 0) then do! r := close u w in let '(_, h, w) := r in ret (-1, h, w)
          else
            let '(i, u) := tar_append_eof u in
            do! r := close u w in
            let '(j, h, w) := r in ret (if negb (i =? 0) then -1 else if negb (j =? 0) then -1 else 0, h, w)
      end
  end.

(** ** Listing *)

(** The lines printed; 0 when the end was reached or a header could not be read, -1
    when a file could not be skipped. *)
Fixpoint list_files (files fuel : nat) (t : TAR D) : M (Z * list (list Z) * TAR D) :=
  match files with
  | O => None
  | S files =>
      do! r := th_read fuel t in
      let '(i, t) := r in
      if negb (i =? 0) then ret (0, [], t)
      else
        do! line := lift (th_print_long_ls date t) in
        do! reg := lift (TH_ISREG (th_buf t)) in
        do! r := if reg then tar_skip_regfile fuel t else ret (0, t) in
        let '(j, t) := r in
        if negb (j =? 0) then ret (-1, [line], t)
        else do! r := list_files files fuel t in let '(i, lines, t) := r in ret (i, line :: lines, t)
  end.

(** The handle is not closed when a file cannot be skipped. *)
Definition list_archive (files fuel : nat) (s : settings) (tarfile : list Z) (w : W) : M (Z * list (list Z) * W) :=
  do! r := open_archive fuel s tarfile O_RDONLY 0 0 w in
  let '(t, w) := r in
  match t with
  | inr _ => ret (-1, [], w)
  | inl t =>
      do! r := list_files files fuel (h_tar t) in
      let '(i, lines, u) := r in
      if negb (i =? 0) then ret (-1, lines, w)
      else
        do! r := close_archive fuel s (mkHandle u (h_oflags t) (h_table t)) w in
        let '(j, _, w) := r in ret (if negb (j =? 0) then -1 else 0, lines, w)
  end.

(** ** Extracting *)

Fixpoint tar_extract_all_with_exceptions (files fuel : nat) (s : settings) (t : TAR D) (k : links) (prefix : option (list Z)) (w : W)
    : M (Z * TAR D * links * W) :=
  match files with
  | O => None
  | S files =>
      do! r := th_read fuel t in
      let '(i, t) := r in
      if negb (i =? 0) then ret (if i =? 1 then 0 else -1, t, k, w)
      else
        do! file := lift (th_get_pathname (th_buf t)) in
        let buf := target_path prefix file in
        if excluded s buf file then
          do! r := tar_skip_regfile fuel t in
          tar_extract_all_with_exceptions files fuel s r.2 k prefix w
        else
          do! r := tar_extract_file fuel t k buf w in
          let '(i, t, k, w) := r in
          if negb (i =? 0) then ret (-1, t, k, w) else tar_extract_all_with_exceptions files fuel s t k prefix w
  end.

Definition extract (files fuel : nat) (s : settings) (tarfile : list Z) (rootdir : option (list Z)) (w : W) : M (Z * heap * W) :=
  do! r := open_archive fuel s tarfile O_RDONLY 0 0 w in
  let '(t, w) := r in
  match t with
  | inr _ => ret (-1, no_heap, w)
  | inl t =>
      match h_table t with
      | Inodes _ => lift Fault
      | Links k =>
          do! r := tar_extract_all_with_exceptions files fuel s (h_tar t) k rootdir w in
          let '(i, u, k, w) := r in
          do! r := close_archive fuel s (mkHandle u (h_oflags t) (Links k)) w in
          let '(j, h, w) := r in ret (if negb (i =? 0) then -1 else if negb (j =? 0) then -1 else 0, h, w)
      end
  end.

(** ** The command line *)

Record command := mkCommand {
  c_set : settings;
  tarfile : option (list Z);
  rootdir : option (list Z);
  file_list_path : option (list Z);
  c_mode : Z;
  c_ret : Z
}.

Definition MODE_LIST : Z := 1.
Definition MODE_CREATE : Z := 2.
Definition MODE_EXTRACT : Z := 3.
Definition EXCLUDES_MAX : nat := 16.

Definition initial : command := mkCommand (mkSettings 0 1 0 0 0 []) None None None 0 0.

Definition with_set (c : command) (s : settings) : command := mkCommand s (tarfile c) (rootdir c) (file_list_path c) (c_mode c) (c_ret c).
Definition with_ret (c : command) (r : Z) : command := mkCommand (c_set c) (tarfile c) (rootdir c) (file_list_path c) (c_mode c) r.
Definition with_mode (c : command) (m : Z) : command :=
  if nonzero (c_mode c) then with_ret c 2
  else mkCommand (c_set c) (tarfile c) (rootdir c) (file_list_path c) m (c_ret c).

(** "gnu" and "ustar" *)
Definition GNU : list Z := [103; 110; 117].

Definition set_format (c : command) (optarg : list Z) : command :=
  let s := c_set c in
  let put g := with_set c (mkSettings (verbose s) g (store_selinux_ctx s) (use_numeric_id s) (use_zlib s) (exclude_list s)) in
  if strcmp_chars optarg GNU =? 0 then put 1 else if strcmp_chars optarg USTAR =? 0 then put 0 else with_ret c 2.

Definition add_exclusion (c : command) (optarg : list Z) : command :=
  let s := c_set c in
  if (length (exclude_list s) <? EXCLUDES_MAX - 1)%nat
  then with_set c (mkSettings (verbose s) (use_gnu s) (store_selinux_ctx s) (use_numeric_id s) (use_zlib s) (exclude_list s ++ [optarg]))
  else with_ret c 2.

(** The switch on the letter of an option. *)
Definition parse_option (c : command) (letter : Z) (optarg : list Z) : command :=
  let s := c_set c in
  if letter =? 86 (* V *) then c
  else if letter =? 67 (* C *) then mkCommand s (tarfile c) (Some optarg) (file_list_path c) (c_mode c) (c_ret c)
  else if letter =? 118 (* v *) then with_set c (set_verbose s 1)
  else if letter =? 72 (* H *) then set_format c optarg
  else if letter =? 99 (* c *) then with_mode c MODE_CREATE
  else if letter =? 84 (* T *) then mkCommand s (tarfile c) (rootdir c) (Some optarg) (c_mode c) (c_ret c)
  else if letter =? 102 (* f *) then mkCommand s (Some optarg) (rootdir c) (file_list_path c) (c_mode c) (c_ret c)
  else if letter =? 120 (* x *) then with_mode c MODE_EXTRACT
  else if letter =? 110 (* n *) then with_set c (mkSettings (verbose s) (use_gnu s) (store_selinux_ctx s) 1 (use_zlib s) (exclude_list s))
  else if letter =? 116 (* t *) then with_mode c MODE_LIST
  else if letter =? 112 (* p *) then with_set c (mkSettings (verbose s) (use_gnu s) 1 (use_numeric_id s) (use_zlib s) (exclude_list s))
  else if letter =? 88 (* X *) then add_exclusion c optarg
  else if letter =? 122 (* z *) then with_set c (mkSettings (verbose s) (use_gnu s) (store_selinux_ctx s) (use_numeric_id s) 1 (exclude_list s))
  else with_ret c 2.

(** The loop stops at the first bad option. *)
Fixpoint parse_options (c : command) (opts : list (Z * list Z)) : command :=
  match opts with
  | [] => c
  | (letter, optarg) :: opts => if negb (c_ret c =? 0) then c else parse_options (parse_option c letter optarg) opts
  end.

(** The tests after the loop; [operands] are the arguments that are no options. *)
Definition refuse_if (b : bool) (c : command) : command := if b then with_ret c 2 else c.

Definition check_command (c : command) (operands : list (list Z)) : command :=
  let extra := match operands with [] => false | _ => true end in
  let c := match file_list_path c with
           | Some _ => refuse_if extra (refuse_if (negb (c_mode c =? MODE_CREATE)) c)
           | None => c
           end in
  let c := refuse_if (c_mode c =? 0) c in
  refuse_if (extra && negb (c_mode c =? MODE_CREATE)) c.

(** ** Lists of files *)

(** [fgets] on the bytes left of a file: a line, with its newline when it fits. *)
Fixpoint fgets (n : nat) (s : list Z) : list Z * list Z :=
  match n, s with
  | S n, c :: s => if c =? NEWLINE then ([c], s) else let '(line, rest) := fgets n s in (c :: line, rest)
  | _, _ => ([], s)
  end.

Fixpoint lines (fuel : nat) (s : list Z) : list (list Z) :=
  match fuel, s with
  | S fuel, _ :: _ => let '(line, rest) := fgets 4095 s in line :: lines fuel rest
  | _, _ => []
  end.

(** The name on a line, [None] for an empty line.  The character before the terminator is
    looked at, which a line that starts with a null character does not have. *)
Definition line_name (line : list Z) : outcome (option (list Z)) :=
  if get line 0 =? NEWLINE then Ret None
  else
    match c_string_n (length line) line with
    | [] => Fault
    | s => Ret (Some (if get s (length s - 1) =? NEWLINE then removelast s else s))
    end.

Fixpoint count_names (ls : list (list Z)) : outcome nat :=
  match ls with
  | [] => Ret O
  | line :: ls => let! e := line_name line in let! n := count_names ls in Ret (match e with Some _ => S n | None => n end)
  end.

(** The second pass: [i] of [count] names have been added. *)
Fixpoint add_names (fuel : nat) (ls : list (list Z)) (i count : nat) (m : store (list Z)) (l : libtar_list (list Z))
    : M (store (list Z) * libtar_list (list Z) * list (list Z)) :=
  match ls with
  | [] => ret (m, l, [])
  | line :: ls =>
      if (i <? count)%nat then
        do! e := lift (line_name line) in
        match e with
        | None => add_names fuel ls i count m l
        | Some s =>
            do! r := libtar_list_add fuel m l s in
            let '(_, m, l) := r in
            do! r := add_names fuel ls (S i) count m l in
            let '(m, l, es) := r in ret (m, l, s :: es)
        end
      else ret (m, l, [])
  end.

(** The strings of an array are freed, and after each the next one is read. *)
Fixpoint free_strings (steps i : nat) (array : list (list Z)) : outcome unit :=
  match steps with
  | O => Ret tt
  | S steps => match array !! S i with None => Fault | Some _ => free_strings steps (S i) array end
  end.
Definition free_string_array (array : list (list Z)) : outcome unit :=
  match array with [] => Ret tt | _ => free_strings (length array) 0 array end.

Fixpoint add_operands (fuel : nat) (operands : list (list Z)) (m : store (list Z)) (l : libtar_list (list Z))
    : M (store (list Z) * libtar_list (list Z)) :=
  match operands with
  | [] => ret (m, l)
  | arg :: operands => do! r := libtar_list_add fuel m l arg in let '(_, m, l) := r in add_operands fuel operands m l
  end.

(** The list to archive, and the names read from a file; [None] where the program gives up. *)
Definition file_list (fuel : nat) (c : command) (operands : list (list Z)) (l : libtar_list (list Z)) (w : W)
    : M (option (store (list Z) * libtar_list (list Z) * list (list Z))) :=
  match file_list_path c with
  | None => do! r := add_operands fuel operands ∅ l in let '(m, l) := r in ret (Some (m, l, []))
  | Some path =>
      match fopen path w with
      | None => ret None
      | Some text =>
          let ls := lines (length text) text in
          do! n := lift (count_names ls) in
          if (n =? 0)%nat then ret None
          else if negb (malloc_ok (Z.of_nat n * (long_bits / 8))) then lift Fault
          else do! r := add_names fuel ls 0 n ∅ l in ret (Some r)
      end
  end.

Definition dash_if_none (t : option (list Z)) : list Z := match t with Some t => t | None => [45] end.

Definition create_mode (depth fuel : nat) (c : command) (operands : list (list Z)) (w : W) : M (Z * W) :=
  do! l := lift (libtar_list_new ∅ LIST_QUEUE None) in
  match l with
  | None => lift Fault
  | Some l =>
      do! r := file_list fuel c operands l w in
      match r with
      | None => ret (2, w)
      | Some (m, l, names) =>
          do! r := create depth fuel (c_set c) (dash_if_none (tarfile c)) (rootdir c) m l w in
          let '(i, _, w) := r in
          do! _ := libtar_list_free fuel m l (None : option (list Z -> unit -> unit)) tt in
          do! _ := lift (free_string_array names) in
          ret (i, w)
      end
  end.

Definition minitar_main (depth fuel files : nat) (opts : list (Z * list Z)) (operands : list (list Z)) (w : W) : M (Z * W) :=
  let c := check_command (parse_options initial opts) operands in
  if negb (c_ret c =? 0) then ret (c_ret c, w)
  else if c_mode c =? MODE_EXTRACT then
    do! r := extract files fuel (c_set c) (dash_if_none (tarfile c)) (rootdir c) w in let '(i, _, w) := r in ret (i, w)
  else if c_mode c =? MODE_CREATE then create_mode depth fuel c operands w
  else if c_mode c =? MODE_LIST then
    do! r := list_archive files fuel (c_set c) (dash_if_none (tarfile c)) w in let '(i, _, w) := r in ret (i, w)
  else ret (2, w).
End Archives.

(** * The command line *)

(** The letters that choose what to do. *)
Definition is_mode (letter : Z) : bool := (letter =? 99) || (letter =? 120) || (letter =? 116).
Definition modes_given (opts : list (Z * list Z)) : nat := length (List.filter (fun o => is_mode o.1) opts).

Record command_wf (seen : nat) (c : command) : Prop := {
  cw_exclusions : (length (exclude_list (c_set c)) < EXCLUDES_MAX)%nat;
  cw_mode : 0 <= c_mode c <= 3;
  cw_ret : c_ret c = 0 \/ c_ret c = 2;
  cw_one : c_ret c = 0 -> seen = if nonzero (c_mode c) then 1%nat else 0%nat
}.

Lemma bad_wf seen n c : command_wf seen c -> command_wf n (with_ret c 2).
Proof. intros [He Hm _ _]. split; cbn [with_ret c_set c_mode c_ret]; [done|done|by right|intros E; discriminate E]. Qed.

Lemma same_wf seen c c' : command_wf seen c -> exclude_list (c_set c') = exclude_list (c_set c) -> c_mode c' = c_mode c ->
  c_ret c' = c_ret c -> command_wf seen c'.
Proof. intros [] E1 E2 E3. split; by rewrite ?E1, ?E2, ?E3. Qed.

Lemma with_mode_wf seen c m : command_wf seen c -> c_ret c = 0 -> 1 <= m <= 3 -> command_wf (S seen) (with_mode c m).
Proof.
  intros Hw Hc Hb. pose proof Hw as [He Hm Hr Ho]. unfold with_mode, nonzero in *. destruct (Z.eqb_spec (c_mode c) 0) as [E|E]; cbn [negb] in *.
  - split; cbn [c_set c_mode c_ret]; [done|lia|done|]. intros _. rewrite (Ho Hc). unfold nonzero. destruct (Z.eqb_spec m 0); [lia|done].
  - by apply (bad_wf seen).
Qed.

Lemma parse_option_wf seen c letter optarg : command_wf seen c -> c_ret c = 0 ->
  command_wf (if is_mode letter then S seen else seen) (parse_option c letter optarg).
Proof.
  intros Hc Hr. unfold parse_option, is_mode.
  destruct (Z.eqb_spec letter 86) as [->|]; [exact Hc|]. destruct (Z.eqb_spec letter 67) as [->|]; [by apply (same_wf seen c)|].
  destruct (Z.eqb_spec letter 118) as [->|]; [by apply (same_wf seen c)|].
  destruct (Z.eqb_spec letter 72) as [->|].
  { unfold set_format. destruct (_ =? 0); [by apply (same_wf seen c)|]. destruct (_ =? 0); [by apply (same_wf seen c)|by apply (bad_wf seen)]. }
  destruct (Z.eqb_spec letter 99) as [->|]; [by apply with_mode_wf|]. destruct (Z.eqb_spec letter 84) as [->|]; [by apply (same_wf seen c)|].
  destruct (Z.eqb_spec letter 102) as [->|]; [by apply (same_wf seen c)|]. destruct (Z.eqb_spec letter 120) as [->|]; [by apply with_mode_wf|].
  destruct (Z.eqb_spec letter 110) as [->|]; [by apply (same_wf seen c)|]. destruct (Z.eqb_spec letter 116) as [->|]; [by apply with_mode_wf|].
  destruct (Z.eqb_spec letter 112) as [->|]; [by apply (same_wf seen c)|].
  destruct (Z.eqb_spec letter 88) as [->|].
  { unfold add_exclusion. destruct (Nat.ltb_spec (length (exclude_list (c_set c))) (EXCLUDES_MAX - 1)); [|by apply (bad_wf seen)].
    destruct Hc. split; try done. cbn [with_set c_set exclude_list]. rewrite length_app. simpl. lia. }
  destruct (Z.eqb_spec letter 122) as [->|]; [by apply (same_wf seen c)|by apply (bad_wf seen)].
Qed.

Lemma parse_options_wf opts : forall seen c, command_wf seen c ->
  command_wf (if c_ret (parse_options c opts) =? 0 then (seen + modes_given opts)%nat else O) (parse_options c opts).
Proof.
  induction opts as [|[letter optarg] opts IH]; intros seen c Hc; cbn [parse_options].
  { unfold modes_given. simpl. rewrite Nat.add_0_r. destruct Hc as [He Hm [Hr|Hr] Ho]; rewrite Hr; split; try done; lia. }
  destruct (Z.eqb_spec (c_ret c) 0) as [Hr|Hr]; cbn [negb].
  - specialize (IH _ _ (parse_option_wf _ _ letter optarg Hc Hr)). unfold modes_given in *. cbn [List.filter fst].
    destruct (is_mode letter); cbn [length]; [|exact IH]. by rewrite <- plus_n_Sm.
  - destruct (Z.eqb_spec (c_ret c) 0); [done|]. destruct Hc. by split.
Qed.

Lemma refuse_if_same b c : c_set (refuse_if b c) = c_set c /\ c_mode (refuse_if b c) = c_mode c /\
  file_list_path (refuse_if b c) = file_list_path c /\ c_ret (refuse_if b c) = if b then 2 else c_ret c.
Proof. by destruct b. Qed.

Lemma check_command_spec c operands :
  let d := check_command c operands in
  c_set d = c_set c /\ c_mode d = c_mode c /\ file_list_path d = file_list_path c /\ (c_ret d = c_ret c \/ c_ret d = 2) /\
  (c_ret d = 0 -> c_ret c = 0 /\ c_mode c <> 0 /\ (file_list_path c <> None -> c_mode c = MODE_CREATE /\ operands = []) /\
     (operands <> [] -> c_mode c = MODE_CREATE)).
Proof.
  unfold check_command. set (extra := match operands with [] => false | _ => true end).
  set (e := match file_list_path c with Some _ => _ | None => c end).
  assert (He : c_set e = c_set c /\ c_mode e = c_mode c /\ file_list_path e = file_list_path c /\
    c_ret e = match file_list_path c with
              | Some _ => if extra || negb (c_mode c =? MODE_CREATE) then 2 else c_ret c
              | None => c_ret c
              end).
  { unfold e. destruct (file_list_path c) as [path|] eqn:El; [|done].
    destruct (refuse_if_same (negb (c_mode c =? MODE_CREATE)) c) as (S1 & M1 & F1 & R1).
    destruct (refuse_if_same extra (refuse_if (negb (c_mode c =? MODE_CREATE)) c)) as (S2 & M2 & F2 & R2).
    split; [congruence|]. split; [congruence|]. split; [congruence|]. rewrite R2, R1. by destruct extra. }
  destruct He as (S1 & M1 & F1 & R1). destruct (refuse_if_same (c_mode e =? 0) e) as (S2 & M2 & F2 & R2).
  destruct (refuse_if_same (extra && negb (c_mode (refuse_if (c_mode e =? 0) e) =? MODE_CREATE)) (refuse_if (c_mode e =? 0) e)) as (S3 & M3 & F3 & R3).
  split; [congruence|]. split; [congruence|]. split; [congruence|]. rewrite R3, M2, R2, M1, R1.
  assert (Hx : extra = false -> operands = []) by (unfold extra; by destruct operands).
  destruct (Z.eqb_spec (c_mode c) MODE_CREATE) as [E|E], (Z.eqb_spec (c_mode c) 0) as [E0|E0], extra, (file_list_path c); cbn [andb orb negb];
    (split; [first [left; reflexivity | right; reflexivity]|]); (intros Hr; try discriminate Hr); (split; [exact Hr|]); (split; [exact E0|]); split; intros Hn; try done;
    try (by rewrite Hx in Hn); split; [exact E|by apply Hx].
Qed.

Section Main.
Context {D W : Type} `{Descriptors D W} `{Target} `{Libc} `{TarType D} `{FileSystem W} `{Heap} `{Stack} `{Makedev}.
Context `{Allocator linkname_t} `{Allocator tar_dev} `{Allocator tar_ino} `{Comparisons} `{Allocator (list Z)} `{StrCmp (list Z) (list Z)}.
Context (sizeof_TAR : Z) (no_fd : D) (date : Z -> list Z).

(** Every command line is handled: the table of 16 excluded patterns is never
    overrun, however many -X there are; a command line that is accepted has exactly one
    of -c, -x and -t, and operands only with -c and without -T; and one that is not
    makes the program return 2 without touching a file. *)
Theorem command_line_checked opts operands :
  let c := check_command (parse_options initial opts) operands in
  (length (exclude_list (c_set c)) < EXCLUDES_MAX)%nat /\
  (c_ret c = 0 -> modes_given opts = 1%nat /\ 1 <= c_mode c <= 3 /\
     (operands <> [] -> c_mode c = MODE_CREATE /\ file_list_path c = None) /\
     (file_list_path c <> None -> c_mode c = MODE_CREATE)) /\
  (c_ret c <> 0 -> forall depth fuel files (w : W), minitar_main sizeof_TAR no_fd date depth fuel files opts operands w = ret (2, w)).
Proof.
  intros c. assert (Hi : command_wf 0 initial) by (split; simpl; unfold EXCLUDES_MAX; done || lia || auto).
  pose proof (parse_options_wf opts 0 initial Hi) as Hp. set (p := parse_options initial opts) in *.
  destruct (check_command_spec p operands) as (E1 & E2 & E3 & E4' & E5).
  change (check_command p operands) with c in E1, E2, E3, E4', E5.
  assert (E4 : c_ret c = 0 \/ c_ret c = 2) by (pose proof (cw_ret _ _ Hp); destruct E4' as [E4' | E4']; rewrite E4'; auto).
  rewrite E1, E2, E3. split; [apply Hp|]. split.
  - intros Hr. destruct (E5 Hr) as (Hrp & Hm & Hl & Ho). pose proof (cw_one _ _ Hp Hrp) as Hone. pose proof (cw_mode _ _ Hp) as Hmode.
    rewrite Hrp in Hone. simpl in Hone. unfold nonzero in Hone. destruct (Z.eqb_spec (c_mode p) 0); [done|]. simpl in Hone.
    split; [done|]. split; [lia|]. split.
    + intros Hop. split; [by apply Ho|]. destruct (file_list_path p) eqn:El; [|done]. destruct (Hl ltac:(done)) as [_ ->]. done.
    + intros Hf. by apply Hl.
  - intros Hr depth fuel files w. unfold minitar_main. fold p. fold c. destruct E4 as [E4|E4]; [done|]. by rewrite E4.
Qed.
End Main.

(** * Lists of files that are read from a file *)

(** Freeing the names reads one entry past the end of the array. *)
Lemma free_string_array_overreads array : array <> [] -> free_string_array array = Fault.
Proof.
  intros Ha. assert (Hs : forall steps i, (i + S steps = length array)%nat -> free_strings (S steps) i array = Fault).
  { induction steps as [|steps IH]; intros i Hi; cbn [free_strings].
    - by rewrite lookup_ge_None_2 by lia.
    - destruct (lookup_lt_is_Some_2 array (S i)) as [x ->]; [lia|]. apply IH. lia. }
  unfold free_string_array. destruct array as [|x array]; [done|]. apply Hs. done.
Qed.
