(* ===== verification/TarExclude.v ===== *)
(** The exclusions of the tar command (src/libtar/minitar/minitar.c) with the matching of
    names of src/libtar/compat/fnmatch.c: what the option for exclusions leaves out. *)
From stdpp Require Import list.
From S2P Require Import Prelude CString Fnmatch MiniTar.

Section Exclude.
Context {D W : Type} `{Descriptors D W} (char_signed : bool).

(** The command is linked with the matching of names of the library. *)
Context (Hlinked : forall p t flags, Fnmatch.fnmatch char_signed p t flags = Some (MiniTar.fnmatch (D := D) (W := W) p t flags)).

Definition exclude_flags : Z := Z.lor Fnmatch.FNM_PATHNAME Fnmatch.FNM_LEADING_DIR.

(** What a pattern is compared with. *)
Definition subject (pattern path name : list Z) : list Z := match strchr pattern SLASH with Some _ => path | None => name end.

(** A file is left out just if its path, or its name for a pattern without a slash,
    matches one of the patterns: stars do not cross slashes, and what lies below a
    directory that matches is left out with it. *)
Lemma excluded_matches s path name : Forall (Forall char_ok) (exclude_list s) -> Forall char_ok path -> Forall char_ok name ->
  excluded (D := D) (W := W) s path name = true <->
  exists pattern, In pattern (exclude_list s) /\ matches char_signed exclude_flags (atoms exclude_flags pattern) (subject pattern path name).
Proof.
  intros Hl Hp Hn. unfold excluded. rewrite existsb_exists. apply exist_proper. intros pattern.
  assert (Hd : In pattern (exclude_list s) ->
    (MiniTar.fnmatch pattern (subject pattern path name) exclude_flags =? 0) = true <-> matches char_signed exclude_flags (atoms exclude_flags pattern) (subject pattern path name));
    [|split; intros [Hin Hm]; (split; [exact Hin|]); now apply (Hd Hin)]. intros Hin.
  assert (Hpat : Forall char_ok pattern) by (rewrite List.Forall_forall in Hl; now apply Hl).
  assert (Hsub : Forall char_ok (subject pattern path name)) by (unfold subject; destruct (strchr pattern SLASH); assumption).
  destruct (fnmatch_at_spec char_signed exclude_flags eq_refl (S (length pattern)) pattern None _ Hpat Hsub ltac:(lia)) as (b & E & Hb).
  rewrite <- Hb. pose proof (Hlinked pattern (subject pattern path name) exclude_flags) as El. unfold Fnmatch.fnmatch in El. rewrite E in El. injection El as El.
  rewrite <- El. now destruct b.
Qed.
End Exclude.
