(* ===== verification/TarRoundTrip.v ===== *)
(** What the tar command (src/libtar/minitar/minitar.c) archives, it restores. *)
From Stdlib Require Import String.
From stdpp Require Import gmap list.
From S2P Require Import Prelude CString TarHeader TarBlock TarUtil LinkedList HashTable TarAppend TarExtract TarArchive TarOutput TarHandle.
From S2P Require Import TarRestore MiniTar.

(** * The options of the command *)

Lemma handle_options_bits s :
  opt (handle_options s) TAR_CHECK_VERSION = false /\ opt (handle_options s) TAR_NOOVERWRITE = false /\
  opt (handle_options s) TAR_IGNORE_EOT = false /\ opt (handle_options s) TAR_USE_NUMERIC_ID = nonzero (use_numeric_id s).
Proof.
  unfold handle_options. destruct (verbose s =? 1), (nonzero (store_selinux_ctx s)), (nonzero (use_numeric_id s)), (nonzero (use_gnu s)); done.
Qed.

(** * Opening archives *)

Section Open.
Context `{Target} `{Heap} {W : Type} `{Descriptors (list Z) W} `{Allocator linkname_t} `{Allocator tar_dev} `{Allocator tar_ino}.
Context (sizeof_TAR : Z) (no_fd : list Z).
Hypothesis heap_memory : forall z, malloc_ok z = true.

Lemma open_writing fuel s file w d w' : (forall m : store tar_dev, malloc m <> None /\ calloc_ok m = true) ->
  is_dash file = false -> @openfunc _ _ (type_in_use s) file (Z.lor O_WRONLY O_CREAT) 420 w = (Some d, w') ->
  exists c bs T, open_archive sizeof_TAR no_fd fuel s file (Z.lor O_WRONLY O_CREAT) 420 1 w
      = ret (inl (mkHandle (mkTAR (handle_options s) zero_header d None) (Z.lor O_WRONLY O_CREAT) (Inodes c)), w') /\
    cache_rep c bs [] T [].
Proof.
  intros Hm Hd Ho. unfold open_archive. rewrite Hd. unfold tar_open.
  destruct (init_writing sizeof_TAR no_fd heap_memory Hm (Z.lor O_WRONLY O_CREAT) (handle_options s)) as (c & bs & T & -> & Hc); [done|].
  destruct (handle_options_bits s) as (_ & -> & _). cbn [andb]. rewrite Ho. by exists c, bs, T.
Qed.

Lemma open_reading fuel s file w d w' : (forall m : store linkname_t, malloc m <> None /\ calloc_ok m = true) ->
  is_dash file = false -> @openfunc _ _ (type_in_use s) file O_RDONLY 0 w = (Some d, w') ->
  exists k, open_archive sizeof_TAR no_fd fuel s file O_RDONLY 0 0 w
      = ret (inl (mkHandle (mkTAR (handle_options s) zero_header d None) O_RDONLY (Links k)), w') /\ links_rep k [].
Proof.
  intros Hm Hd Ho. unfold open_archive. rewrite Hd. unfold tar_open.
  destruct (init_reading sizeof_TAR no_fd heap_memory Hm O_RDONLY (handle_options s)) as (k & -> & Hk); [done|].
  destruct (handle_options_bits s) as (_ & -> & _). cbn [andb]. rewrite Ho. by exists k.
Qed.
End Open.

(** * Creating an archive *)

Section Create.
Context `{Target} `{Libc} `{Heap} {W : Type} `{FileSystem W} `{Descriptors (list Z) W} `{Stack}.
Context `{Allocator linkname_t} `{Allocator tar_dev} `{Allocator tar_ino} `{Comparisons}.
Context (sizeof_TAR : Z) (no_fd : list Z).
Hypothesis unsigned_chars : char_signed = false.
Hypothesis users_bytes : forall i s, getpwuid i = Some s -> bytes s.
Hypothesis groups_bytes : forall i s, getgrgid i = Some s -> bytes s.
Hypothesis heap_memory : forall z, malloc_ok z = true.
Hypothesis dev_memory : forall m : store tar_dev, malloc m <> None /\ calloc_ok m = true.
Hypothesis ino_memory : forall m : store tar_ino, malloc m <> None /\ calloc_ok m = true.

(** One file of the command line: the tree is the file alone. *)
Lemma append_tree_file depth fuel ro s Inv it before t c bs ds T w :
  source Inv it -> plain_file (options t) (it_stat it) (it_name it) (it_data it) -> (length (it_data it) < T_BLOCKSIZE * fuel)%nat ->
  inode_of it ∉ map inode_of before -> compatible (options t) ro -> Inv w ->
  cache_rep c bs ds T (seen_of before) -> (length ds < fuel)%nat -> (length before < fuel)%nat ->
  exists t' c' bs' ds' T' w' out,
    tar_append_tree_with_exceptions (S depth) fuel s t c (it_real it) (Some (it_name it)) w = ret (0, t', c', w') /\ Inv w' /\
    fd t' = fd t ++ out ++ pad (it_data it) /\ options t' = options t /\ reads_as ro out (it_stat it) (it_name it) /\
    cache_rep c' bs' ds' T' (seen_of (before ++ [it])) /\ (length ds' <= S (length ds))%nat.
Proof.
  intros Hs Hp Hl Hnew Hcomp Hw Hk Hds Hbf. cbn [tar_append_tree_with_exceptions].
  destruct (Hs w Hw) as (Hst & _ & Hctx & filefd & w0 & left & Ho & Hrd & Hleft & Hclose).
  destruct (append_file_ok unsigned_chars users_bytes groups_bytes heap_memory dev_memory ino_memory fuel ro t c bs ds T (seen_of before)
    (it_stat it) (it_real it) (Some (it_name it)) (it_data it) w filefd w0 left Hst Hp Hcomp Hctx Ho Hrd Hleft Hl Hk Hds)
    as (t1 & k1 & bs1 & ds1 & T1 & r & w1 & out & -> & Hr & F1 & O1 & Rd & Hk1 & Hl1); [|by apply saved_name_none|].
  { unfold seen_of. rewrite length_map. exact Hbf. }
  cbn [bindM ret]. change (negb (0 =? 0)) with false. cbv iota. pose proof (Hclose r w1 Hr) as Hw1.
  destruct (Hs _ Hw1) as (_ & -> & _). change (ENOTDIR =? ENOTDIR) with true. cbv iota.
  exists t1, k1, bs1, ds1, T1, (close filefd w1).2, out. split; [done|]. split; [done|]. split; [done|]. split; [done|]. split; [done|].
  split; [|done]. unfold seen_of in *. by rewrite map_app.
Qed.

Lemma create_files_ok depth fuel ro s Inv m l rootdir items : forall steps pre post before t c bs ds T w,
  rep m l (pre ++ post) -> post.*2 = map it_name items -> Forall (fun it => it_real it = real_path rootdir (it_name it)) items ->
  Forall (source Inv) items -> Forall (fun it => plain_file (options t) (it_stat it) (it_name it) (it_data it)) items ->
  Forall (fun it => (length (it_data it) < T_BLOCKSIZE * fuel)%nat) items ->
  NoDup (map inode_of (before ++ items)) -> compatible (options t) ro -> Inv w -> cache_rep c bs ds T (seen_of before) ->
  (length items < steps)%nat -> (length ds + length items < fuel)%nat -> (length (before ++ items) < fuel)%nat ->
  exists t' c' bs' ds' T' w' out,
    create_files steps (S depth) fuel s m l (end_ptr None pre) rootdir t c w = ret (0, t', c', w') /\ Inv w' /\
    fd t' = fd t ++ out /\ options t' = options t /\ archive_of ro items out /\
    cache_rep c' bs' ds' T' (seen_of (before ++ items)) /\ (length ds' <= length ds + length items)%nat.
Proof.
  induction items as [|it items IH]; intros steps pre post before t c bs ds T w Hrep Hpost Hreal Hsrc Hpf Hlen Hnd Hcomp Hw Hk Hsteps Hds Hbf;
    (destruct steps as [|steps]; [simpl in Hsteps; lia|]); cbn [create_files].
  { destruct post; [|done]. rewrite (list_next_after m l pre []) by done. cbn [lift bindM]. change (0 =? 0) with true. cbv iota.
    exists t, c, bs, ds, T, w, []. rewrite !app_nil_r. split; [done|]. split; [done|]. split; [done|]. split; [done|].
    split; [constructor|]. split; [done|]. simpl. lia. }
  destruct post as [|[a x] post]; [done|]. injection Hpost as -> Hpost.
  rewrite (list_next_after m l pre ((a, it_name it) :: post)) by done. cbn [lift bindM hd_ptr]. change (1 =? 0) with false. cbv iota.
  rewrite (list_data_at m l pre a (it_name it) post) by done. cbn [lift bindM].
  apply Forall_cons in Hreal as [Hre Hreal]. apply Forall_cons in Hsrc as [Hs Hsrc]. apply Forall_cons in Hpf as [Hp Hpf].
  apply Forall_cons in Hlen as [Hl Hlen]. rewrite <- Hre. cbn [length] in *. rewrite length_app in Hbf. cbn [length] in Hbf.
  assert (Hnew : inode_of it ∉ map inode_of before).
  { rewrite map_app in Hnd. apply NoDup_app in Hnd as (_ & Hd & _). intros Hin. apply (Hd _ Hin). by left. }
  destruct (append_tree_file depth fuel ro s Inv it before t c bs ds T w Hs Hp Hl Hnew Hcomp Hw Hk)
    as (t1 & c1 & bs1 & ds1 & T1 & w1 & out & -> & Hw1 & F1 & O1 & Rd & Hk1 & Hl1); [lia|lia|].
  cbn [bindM ret]. change (negb (0 =? 0)) with false. cbv iota. rewrite <- O1 in Hpf, Hcomp.
  assert (Hlp : Some a = end_ptr None (pre ++ [(a, it_name it)])) by (by rewrite end_ptr_app).
  rewrite Hlp.
  destruct (IH steps (pre ++ [(a, it_name it)]) post (before ++ [it]) t1 c1 bs1 ds1 T1 w1)
    as (t2 & c2 & bs2 & ds2 & T2 & w2 & out2 & -> & Hw2 & F2 & O2 & A2 & Hk2 & Hl2);
    try done; rewrite <- ?app_assoc; try done; rewrite ?length_app; cbn [length]; try lia.
  exists t2, c2, bs2, ds2, T2, w2, (out ++ pad (it_data it) ++ out2). split; [done|]. split; [done|].
  split; [by rewrite F2, F1, <- !app_assoc|]. split; [congruence|]. split; [by constructor|].
  rewrite <- app_assoc in Hk2. split; [exact Hk2|lia].
Qed.

(** [create] with a list of plain files: 0, nothing left allocated, and an archive of the
    files with its end. *)
Lemma create_ok depth fuel ro s Inv m l k tarfile rootdir items w w' :
  rep m l k -> k.*2 = map it_name items -> Forall (fun it => it_real it = real_path rootdir (it_name it)) items ->
  Forall (source Inv) items -> Forall (fun it => plain_file (handle_options s) (it_stat it) (it_name it) (it_data it)) items ->
  Forall (fun it => (length (it_data it) < T_BLOCKSIZE * fuel)%nat) items -> NoDup (map inode_of items) ->
  opt ro TAR_CHECK_VERSION = false -> (2 * length items < fuel)%nat ->
  is_dash tarfile = false -> @openfunc _ _ (type_in_use s) tarfile (Z.lor O_WRONLY O_CREAT) 420 w = (Some [], w') -> Inv w' ->
  (forall d w, (@closefunc _ _ (type_in_use s) d w).1 = 0) ->
  exists out w1, create sizeof_TAR no_fd (S depth) fuel s tarfile rootdir m l w
      = ret (0, no_heap, (@closefunc _ _ (type_in_use s) (out ++ end_of_archive) w1).2) /\ Inv w1 /\ archive_of ro items out.
Proof.
  intros Hrep Hk Hreal Hsrc Hpf Hlen Hnd Hro Hf Hd Ho Hw Hcl. unfold create. rewrite Hd. cbn [andb].
  destruct (open_writing sizeof_TAR no_fd heap_memory fuel s tarfile w [] w' dev_memory Hd Ho) as (c & bs & T & -> & Hc).
  cbn [bindM ret h_table h_tar h_oflags].
  destruct (create_files_ok depth fuel ro s Inv m l rootdir items fuel [] k [] (mkTAR (handle_options s) zero_header [] None) c bs [] T w')
    as (t1 & c1 & bs1 & ds1 & T1 & w1 & out & E1 & Hw1 & F1 & O1 & A1 & Hk1 & Hl1);
    try done; try (simpl; lia). { intros Hv. congruence. }
  change libtar_listptr_reset with (end_ptr None ([] : list (nat * list Z))). rewrite E1. cbn [bindM ret].
  change (negb (0 =? 0)) with false. cbv iota. rewrite append_eof_ok. change (negb (0 =? 0)) with false. cbv iota.
  unfold close_archive. rewrite (close_empty fuel _ (length ds1 + length (seen_of ([] ++ items)))).
  - cbn [bindM ret h_tar fd with_fd]. rewrite F1, Hcl. cbn [fd app]. change (negb (0 =? 0)) with false. cbv iota. by exists out, w1.
  - cbn [h_oflags h_table]. by econstructor.
  - unfold seen_of. rewrite length_map. simpl in *. lia.
Qed.
End Create.

(** * Extracting an archive *)

Section Extract.
Context `{Target} `{Libc} `{Heap} {W : Type} `{Disk W} `{Descriptors (list Z) W} `{Makedev}.
Context `{Allocator linkname_t} `{Allocator tar_dev} `{Allocator tar_ino}.
Context (sizeof_TAR : Z) (no_fd : list Z).
Hypothesis heap_memory : forall z, malloc_ok z = true.
Hypothesis link_memory : forall m : store linkname_t, malloc m <> None /\ calloc_ok m = true.

(** The files that are not excluded. *)
Definition wanted_items (s : settings) (prefix : option (list Z)) (items : list item) : list item :=
  List.filter (fun it => negb (excluded s (target prefix it) (it_name it))) items.

Lemma skip_regfile_ok wo fuel (t : TAR (list Z)) s name c rest :
  plain_file wo s name c -> describes (th_buf t) s name -> fd t = pad c ++ rest -> (count (length c) < fuel)%nat ->
  tar_skip_regfile fuel t = ret (0, with_fd t rest).
Proof.
  intros Hp Hd Hfd Hf. destruct (describes_tests _ _ _ _ Hp _ Hd) as (Hreg & _). unfold tar_skip_regfile.
  rewrite Hreg, (ds_size _ _ _ Hd). cbn [lift bindM negb]. pose proof (pf_max _ _ _ _ Hp) as Hm. rewrite (pf_size _ _ _ _ Hp) in *.
  rewrite i32_small by lia. by rewrite (skip_blocks_spec fuel c t rest).
Qed.

Lemma extract_all_ok wo ro s prefix fuel junk items bytes : archive_of ro items bytes -> forall files h e k es w,
  opt ro TAR_USE_NUMERIC_ID = true -> opt ro TAR_NOOVERWRITE = false -> opt ro TAR_IGNORE_EOT = false ->
  Forall (restorable wo prefix fuel) items -> ForallOrdPairs (fun a b => apart (target prefix b) (target prefix a)) items ->
  links_rep k es -> (length items < files)%nat -> (MAXPATHLEN < fuel)%nat -> (length es + length items < fuel)%nat ->
  exists t' k' es' w',
    tar_extract_all_with_exceptions files fuel s (mkTAR ro h (bytes ++ end_of_archive ++ junk) e) k prefix w = ret (0, t', k', w') /\
    links_rep k' es' /\ (length es' <= length es + length items)%nat /\ Forall (restored prefix w') (wanted_items s prefix items) /\
    forall q, Forall (fun it => apart (target prefix it) q) (wanted_items s prefix items) -> file_at q w' = file_at q w.
Proof.
  induction 1 as [|it items out rest Hr Ha IH]; intros files h e k es w Hnum Hno Heot Hit Hap Hk Hfl Hfu Hes;
    (destruct files as [|files]; [simpl in Hfl; lia|]); (destruct fuel as [|[|fuel]]; [lia|unfold MAXPATHLEN in Hfu; lia|]).
  { destruct (read_end fuel ro h e junk Heot) as [t' E]. exists t', k, es, w. cbn [tar_extract_all_with_exceptions app]. rewrite E. cbn [bindM ret].
    split; [done|]. split; [done|]. split; [lia|]. split; [constructor|done]. }
  apply Forall_cons in Hit as [[Hp Hpl Hc] Hit]. inversion Hap as [|? ? Hap1 Hap2]; subst. clear Hap.
  rewrite <- !app_assoc. cbn [tar_extract_all_with_exceptions length] in *.
  destruct (Hr (S fuel) h e (pad (it_data it) ++ rest ++ end_of_archive ++ junk)) as (r & -> & Fr & Or & Dr & Xr).
  cbn [bindM ret]. change (negb (0 =? 0)) with false. cbv iota. rewrite (ds_path _ _ _ Dr). cbn [lift bindM].
  fold (target prefix it). unfold wanted_items. cbn [List.filter]. destruct (excluded s (target prefix it) (it_name it)); cbn [negb].
  - rewrite (skip_regfile_ok wo _ r _ _ _ _ Hp Dr Fr Hc). cbn [bindM ret snd]. unfold with_fd. rewrite Or.
    destruct (IH files (th_buf r) (errno r) k es w Hnum Hno Heot Hit Hap2 Hk) as (t2 & k2 & es2 & w2 & -> & Hk2 & Hl2 & Hf2 & Hq);
      [lia|done|lia|]. exists t2, k2, es2, w2. split; [done|]. split; [done|]. split; [lia|]. split; done.
  - rewrite <- Or in Hnum, Hno.
    destruct (extract_file_ok link_memory wo (S (S fuel)) r (it_stat it) (it_name it) (it_data it) (rest ++ end_of_archive ++ junk) (target prefix it) w k es
      Hp Dr Xr Hnum Hno Hpl Fr Hk Hfu Hc) as (k1 & w1 & -> & Hk1 & Hf1 & Hfr1); [lia|].
    cbn [bindM ret]. change (negb (0 =? 0)) with false. cbv iota. unfold with_fd. rewrite Or in Hnum, Hno |- *.
    destruct (IH files (th_buf r) (errno r) k1 (es ++ [link_of prefix it]) w1 Hnum Hno Heot Hit Hap2 Hk1) as (t2 & k2 & es2 & w2 & -> & Hk2 & Hl2 & Hf2 & Hq);
      [lia|done|rewrite length_app; simpl; lia|]. rewrite length_app in Hl2. simpl in Hl2.
    exists t2, k2, es2, w2. split; [done|]. split; [done|]. split; [lia|]. split.
    + constructor; [|done]. unfold restored. rewrite Hq; [done|]. apply Forall_forall. intros x [Hx _]%list_elem_of_In%filter_In.
      exact (proj1 (List.Forall_forall _ _) Hap1 x Hx).
    + intros q [Hq1 Hq2]%Forall_cons. rewrite Hq by done. by apply Hfr1.
Qed.

(** [extract] on such an archive: 0, nothing left allocated, and the files that are not
    excluded are back. *)
Lemma extract_ok wo s file prefix files fuel junk items bytes w w' :
  archive_of (handle_options s) items bytes -> nonzero (use_numeric_id s) = true ->
  Forall (restorable wo prefix fuel) items -> ForallOrdPairs (fun a b => apart (target prefix b) (target prefix a)) items ->
  (length items < files)%nat -> (MAXPATHLEN < fuel)%nat -> (length items < fuel)%nat ->
  is_dash file = false -> @openfunc _ _ (type_in_use s) file O_RDONLY 0 w = (Some (bytes ++ end_of_archive ++ junk), w') ->
  (forall d w, (@closefunc _ _ (type_in_use s) d w).1 = 0 /\ same_contents w (@closefunc _ _ (type_in_use s) d w).2) ->
  exists w1, extract sizeof_TAR no_fd files fuel s file prefix w = ret (0, no_heap, w1) /\
    Forall (restored prefix w1) (wanted_items s prefix items) /\
    forall q, Forall (fun it => apart (target prefix it) q) (wanted_items s prefix items) -> file_at q w1 = file_at q w'.
Proof.
  intros Ha Hnum Hit Hap Hfl Hfu Hes Hd Ho Hcl. unfold extract. destruct (handle_options_bits s) as (_ & B1 & B2 & B3). rewrite Hnum in B3.
  destruct (open_reading sizeof_TAR no_fd heap_memory fuel s file w _ w' link_memory Hd Ho) as (k & -> & Hk).
  cbn [bindM ret h_table h_tar h_oflags].
  destruct (extract_all_ok wo _ s prefix fuel junk items bytes Ha files zero_header None k [] w' B3 B1 B2 Hit Hap Hk Hfl Hfu Hes)
    as (t1 & k1 & es1 & w1 & -> & Hk1 & Hl1 & Hf1 & Hq1). cbn [bindM ret].
  unfold close_archive. rewrite (close_empty fuel _ (length es1)); [|by constructor|simpl in Hl1; lia].
  cbn [bindM ret h_tar]. destruct (Hcl (fd t1) w1) as [-> Hs]. change (negb (0 =? 0)) with false. cbv iota.
  eexists. split; [done|]. split.
  - eapply List.Forall_impl; [|exact Hf1]. intros it Hr. unfold restored. by rewrite Hs.
  - intros q Hq. rewrite Hs. by apply Hq1.
Qed.
End Extract.

(** * The round trip *)

Section RoundTrip.
Context `{Target} `{Libc} `{Heap} `{Stack} `{Makedev} `{Allocator linkname_t} `{Allocator tar_dev} `{Allocator tar_ino} `{Comparisons}.
(** the files that are archived, and the disk they are restored to *)
Context {V : Type} `{FileSystem V} `{Descriptors (list Z) V} {W : Type} `{Disk W} `{Descriptors (list Z) W}.
Context (sizeof_TAR : Z) (no_fd : list Z).

(** Memory does not run out, [char] is unsigned and names of users are bytes. *)
Record environment_ok : Prop := {
  env_chars : char_signed = false;
  env_users i s : getpwuid i = Some s -> bytes s;
  env_groups i s : getgrgid i = Some s -> bytes s;
  env_heap z : malloc_ok z = true;
  env_links (m : store linkname_t) : malloc m <> None /\ calloc_ok m = true;
  env_devs (m : store tar_dev) : malloc m <> None /\ calloc_ok m = true;
  env_inos (m : store tar_ino) : malloc m <> None /\ calloc_ok m = true
}.

(** [create], then [extract]. *)
Lemma create_extract depth fuel files s1 s2 file1 file2 root1 root2 m l k items Inv v v' :
  environment_ok ->
  rep m l k -> k.*2 = map it_name items -> Forall (fun it => it_real it = real_path root1 (it_name it)) items ->
  Forall (source Inv) items -> NoDup (map inode_of items) ->
  Forall (restorable (handle_options s1) root2 fuel) items ->
  ForallOrdPairs (fun a b => apart (target root2 b) (target root2 a)) items ->
  nonzero (use_numeric_id s2) = true -> is_dash file1 = false -> is_dash file2 = false ->
  (length items < files)%nat -> (2 * length items < fuel)%nat -> (MAXPATHLEN < fuel)%nat ->
  @openfunc _ _ (type_in_use (W := V) s1) file1 (Z.lor O_WRONLY O_CREAT) 420 v = (Some [], v') -> Inv v' ->
  (forall d v, (@closefunc _ _ (type_in_use (W := V) s1) d v).1 = 0) ->
  (forall d w, (@closefunc _ _ (type_in_use (W := W) s2) d w).1 = 0 /\ same_contents w (@closefunc _ _ (type_in_use s2) d w).2) ->
  exists archive v1,
    create sizeof_TAR no_fd (S depth) fuel s1 file1 root1 m l v
    = ret (0, no_heap, (@closefunc _ _ (type_in_use s1) archive v1).2) /\
    forall w w' junk, @openfunc _ _ (type_in_use s2) file2 O_RDONLY 0 w = (Some (archive ++ junk), w') ->
    exists w1, extract sizeof_TAR no_fd files fuel s2 file2 root2 w = ret (0, no_heap, w1) /\
      Forall (restored root2 w1) (wanted_items s2 root2 items) /\
      forall q, Forall (fun it => apart (target root2 it) q) (wanted_items s2 root2 items) -> file_at q w1 = file_at q w'.
Proof.
  intros Henv Hrep Hk Hreal Hsrc Hnd Hit Hap Hnum Hd1 Hd2 Hfl Hf Hfu Ho Hv Hc1 Hc2. pose proof Henv as [E1 E2 E3 E4 E5 E6 E7].
  assert (Hpf : Forall (fun it => plain_file (handle_options s1) (it_stat it) (it_name it) (it_data it)) items)
    by (eapply List.Forall_impl; [|exact Hit]; intros it []; done).
  assert (Hlen : Forall (fun it => (length (it_data it) < T_BLOCKSIZE * fuel)%nat) items)
    by (eapply List.Forall_impl; [|exact Hit]; intros it [_ _ Hc]; by apply count_bound).
  destruct (create_ok sizeof_TAR no_fd E1 E2 E3 E4 E6 E7 depth fuel (handle_options s2) s1 Inv m l k file1 root1 items v v'
    Hrep Hk Hreal Hsrc Hpf Hlen Hnd (proj1 (handle_options_bits s2)) Hf Hd1 Ho Hv Hc1) as (out & v1 & Ec & _ & Ha).
  exists (out ++ end_of_archive), v1. split; [exact Ec|]. intros w w' junk Hopen. rewrite <- app_assoc in Hopen.
  exact (extract_ok sizeof_TAR no_fd E4 E5 (handle_options s1) s2 file2 root2 files fuel junk items out w w'
    Ha Hnum Hit Hap Hfl Hfu ltac:(lia) Hd2 Hopen Hc2).
Qed.

Context `{Allocator (list Z)} `{StrCmp (list Z) (list Z)} (date : Z -> list Z).
Hypothesis name_memory : forall m : store (list Z), malloc m <> None /\ calloc_ok m = true.

(** The operands are queued in their order. *)
Lemma add_operands_ok fuel operands : forall m (l : libtar_list (list Z)) k,
  rep m l k -> flags l = LIST_QUEUE -> (length k + length operands < fuel)%nat ->
  exists m' l' k', add_operands fuel operands m l = ret (m', l') /\ rep m' l' k' /\ k'.*2 = k.*2 ++ operands.
Proof.
  induction operands as [|x operands IH]; intros m l k Hr Hq Hf; cbn [add_operands].
  { exists m, l, k. by rewrite app_nil_r. }
  cbn [length] in Hf. pose proof (list_add_spec fuel m l k x Hr ltac:(lia)) as Hadd. destruct (name_memory m) as [Hm _].
  destruct (malloc m) as [a|]; [|done]. unfold place in Hadd. rewrite Hq in Hadd.
  change (LIST_QUEUE =? LIST_STACK) with false in Hadd. change (LIST_QUEUE =? LIST_QUEUE) with true in Hadd. cbv iota in Hadd.
  destruct Hadd as (l1 & -> & Hr1 & Hq1 & _). cbn [bindM ret].
  destruct (IH _ l1 _ Hr1) as (m2 & l2 & k2 & -> & Hr2 & Hk2); [congruence|rewrite length_app; simpl; lia|].
  exists m2, l2, k2. split; [done|]. split; [done|]. rewrite Hk2, fmap_app, <- app_assoc. done.
Qed.

(** C1: the tar command restores what it archives.  A run with -c on any list of plain
    files (of any number and size up to 2 GB, under names of any length below 512 that
    the format takes) returns 0 and writes an archive; a run with -x and -n on that
    archive, even with other bytes after its end, returns 0, and every file that is not
    excluded is back under the target directory with its bytes, its permissions, its
    owner and its time, while files elsewhere are as before.  No call of the system fails
    ([environment_ok], [source] and the laws of [Disk]: memory, room on the disk, a privileged user), no two
    files are the same inode, user and group ids have at most six octal digits, the targets
    are apart from each other, and the lists are given as operands. *)
Theorem minitar_roundtrip depth fuel files opts1 opts2 file1 file2 items Inv v v' :
  let c1 := check_command (parse_options initial opts1) (map it_name items) in
  let c2 := check_command (parse_options initial opts2) [] in
  environment_ok ->
  c_ret c1 = 0 -> c_mode c1 = MODE_CREATE -> file_list_path c1 = None -> tarfile c1 = Some file1 ->
  c_ret c2 = 0 -> c_mode c2 = MODE_EXTRACT -> tarfile c2 = Some file2 -> nonzero (use_numeric_id (c_set c2)) = true ->
  is_dash file1 = false -> is_dash file2 = false ->
  Forall (fun it => it_real it = real_path (rootdir c1) (it_name it)) items ->
  Forall (source Inv) items -> NoDup (map inode_of items) ->
  Forall (restorable (handle_options (c_set c1)) (rootdir c2) fuel) items ->
  ForallOrdPairs (fun a b => apart (target (rootdir c2) b) (target (rootdir c2) a)) items ->
  (length items < files)%nat -> (2 * length items < fuel)%nat -> (MAXPATHLEN < fuel)%nat ->
  @openfunc _ _ (type_in_use (W := V) (c_set c1)) file1 (Z.lor O_WRONLY O_CREAT) 420 v = (Some [], v') -> Inv v' ->
  (forall d v, (@closefunc _ _ (type_in_use (W := V) (c_set c1)) d v).1 = 0) ->
  (forall d w, (@closefunc _ _ (type_in_use (W := W) (c_set c2)) d w).1 = 0 /\
    same_contents w (@closefunc _ _ (type_in_use (c_set c2)) d w).2) ->
  exists archive v1,
    minitar_main sizeof_TAR no_fd date (S depth) fuel files opts1 (map it_name items) v
    = ret (0, (@closefunc _ _ (type_in_use (c_set c1)) archive v1).2) /\
    forall w w' junk, @openfunc _ _ (type_in_use (c_set c2)) file2 O_RDONLY 0 w = (Some (archive ++ junk), w') ->
    exists w1, minitar_main sizeof_TAR no_fd date (S depth) fuel files opts2 [] w = ret (0, w1) /\
      Forall (restored (rootdir c2) w1) (wanted_items (c_set c2) (rootdir c2) items) /\
      forall q, Forall (fun it => apart (target (rootdir c2) it) q) (wanted_items (c_set c2) (rootdir c2) items) ->
        file_at q w1 = file_at q w'.
Proof.
  intros c1 c2 Henv R1 M1 L1 T1 R2 M2 T2 Hnum Hd1 Hd2 Hreal Hsrc Hnd Hit Hap Hfl Hf Hfu Ho Hv Hc1 Hc2.
  unfold minitar_main. fold c1 c2. rewrite R1, M1, R2, M2. change (negb (0 =? 0)) with false.
  change (MODE_CREATE =? MODE_EXTRACT) with false. change (MODE_CREATE =? MODE_CREATE) with true.
  change (MODE_EXTRACT =? MODE_EXTRACT) with true. cbv iota.
  unfold create_mode, file_list, libtar_list_new. rewrite L1, (proj2 (name_memory ∅)), T1. cbn [lift bindM ret dash_if_none].
  change (negb (LIST_QUEUE =? LIST_USERFUNC) && negb (LIST_QUEUE =? LIST_STACK) && negb (LIST_QUEUE =? LIST_QUEUE)) with false. cbv iota.
  cbn [lift bindM].
  destruct (add_operands_ok fuel (map it_name items) ∅ (mkList None None strcmp LIST_QUEUE 0) [])
    as (m & l & k & -> & Hrep & Hk); [split; [done|constructor|done|by intros []|done]|done|rewrite length_map; simpl; lia|]. cbn [bindM ret].
  destruct (create_extract depth fuel files (c_set c1) (c_set c2) file1 file2 (rootdir c1) (rootdir c2) m l k items Inv v v'
    Henv Hrep Hk Hreal Hsrc Hnd Hit Hap Hnum Hd1 Hd2 Hfl Hf Hfu Ho Hv Hc1 Hc2) as (archive & v1 & -> & Hx).
  exists archive, v1. cbn [bindM ret]. unfold libtar_list_free, libtar_list_empty.
  assert (Hlk : length k = length items) by (rewrite <- (length_fmap snd k), Hk; apply length_map).
  rewrite (empty_loop_spec _ k fuel m l None tt) by (apply Hrep || lia).
  cbn [bindM ret lift free_string_array]. split; [done|]. intros w w' junk Hopen.
  destruct (Hx w w' junk Hopen) as (w1 & E & Hr & Hq). rewrite T2. cbn [dash_if_none]. rewrite E. cbn [bindM ret]. by exists w1.
Qed.
End RoundTrip.

(** * Listing an archive *)

Section Listing.
Context `{Target} `{Libc} `{Heap} {W : Type} `{Descriptors (list Z) W} `{Allocator linkname_t} `{Allocator tar_dev} `{Allocator tar_ino}.
Context (sizeof_TAR : Z) (no_fd : list Z) (date : Z -> list Z).

(** The line of a file: mode, owner, size, date and name. *)
Definition line_of (options : Z) (it : item) : list Z :=
  let s := it_stat it in
  firstn 10 (strmode (st_mode s)) ++ [SPACE]
  ++ pad_right 8 (firstn 8 (owner_name options (st_uid s) (getpwuid (st_uid s)))) ++ [SPACE]
  ++ pad_right 8 (firstn 8 (owner_name options (st_gid s) (getgrgid (st_gid s)))) ++ [SPACE]
  ++ pad_left 9 (print_int (st_size s)) ++ [SPACE] ++ date (st_mtime s) ++ [SPACE] ++ it_name it ++ [NEWLINE].

Lemma mode_chars m : c_string_n 10 (strmode m) = firstn 10 (strmode m).
Proof.
  assert (Hn : forall n s, chars (firstn n s) -> c_string_n n s = firstn n s).
  { induction n as [|n IH]; intros [|c s] Hs; try done. cbn [firstn] in *. apply Forall_cons in Hs as [Hc Hs]. cbn [c_string_n].
    unfold is_nul. destruct (Z.eqb_spec c 0); [done|]. by rewrite IH. }
  apply Hn. unfold strmode. cbn [firstn]. unfold type_char, flag_char, exec_char.
  repeat constructor; cbv zeta; repeat match goal with |- context [if ?b then _ else _] => destruct b end; done.
Qed.

Lemma print_line wo (t : TAR (list Z)) it :
  plain_file wo (it_stat it) (it_name it) (it_data it) -> describes (th_buf t) (it_stat it) (it_name it) ->
  opt (options t) TAR_USE_NUMERIC_ID = true -> th_print_long_ls date t = Ret (line_of (options t) it).
Proof.
  intros Hp Hd Ho. destruct (describes_tests _ _ _ _ Hp _ Hd) as (_ & _ & Hlnk & Hsym & Hchr & Hblk & _).
  destruct (describes_numbers _ _ _ _ Hp _ Hd) as (Hm & Ht & Hid). destruct (Hid _ Ho) as [Hu Hg].
  unfold th_print_long_ls, print_link. rewrite Hu, Hg, Hm, Hchr, Hblk, Ht, (ds_size _ _ _ Hd), (ds_path _ _ _ Hd), Hsym, Hlnk.
  cbn [bind orr]. pose proof (pf_max _ _ _ _ Hp) as Hmax. pose proof (pf_size _ _ _ _ Hp) as Hsz. rewrite i32_small by lia.
  cbn [orb bind]. unfold line_of. cbv zeta. rewrite mode_chars, app_nil_l. f_equal. by rewrite <- !app_assoc.
Qed.

Lemma list_files_ok wo ro fuel junk items bytes : archive_of ro items bytes -> forall files h e,
  opt ro TAR_USE_NUMERIC_ID = true -> opt ro TAR_IGNORE_EOT = false ->
  Forall (fun it => plain_file wo (it_stat it) (it_name it) (it_data it) /\ (S (count (length (it_data it))) < fuel)%nat) items ->
  (length items < files)%nat -> (1 < fuel)%nat ->
  exists t', list_files date files fuel (mkTAR ro h (bytes ++ end_of_archive ++ junk) e) = ret (0, map (line_of ro) items, t').
Proof.
  induction 1 as [|it items out rest Hr Ha IH]; intros files h e Hnum Heot Hit Hfl Hf;
    (destruct files as [|files]; [simpl in Hfl; lia|]); (destruct fuel as [|[|fuel]]; [lia|lia|]); cbn [list_files].
  { rewrite app_nil_l. destruct (read_end fuel ro h e junk Heot) as [t' ->]. by exists t'. }
  apply Forall_cons in Hit as [[Hp Hc] Hit]. rewrite <- !app_assoc.
  destruct (Hr (S fuel) h e (pad (it_data it) ++ rest ++ end_of_archive ++ junk)) as (r & -> & Fr & Or & Dr & _).
  cbn [bindM ret]. change (negb (0 =? 0)) with false. cbv iota. rewrite (print_line wo r it Hp Dr) by (by rewrite Or).
  destruct (describes_tests _ _ _ _ Hp _ Dr) as (Hreg & _). rewrite Hreg. cbn [lift bindM].
  rewrite (skip_regfile_ok wo _ r _ _ _ _ Hp Dr Fr) by lia. cbn [bindM ret]. change (negb (0 =? 0)) with false. cbv iota.
  unfold with_fd. rewrite Or. cbn [length] in Hfl.
  destruct (IH files (th_buf r) (errno r) Hnum Heot Hit ltac:(lia) Hf) as (t' & ->). cbn [bindM ret map]. by exists t'.
Qed.

Hypothesis heap_memory : forall z, malloc_ok z = true.
Hypothesis link_memory : forall m : store linkname_t, malloc m <> None /\ calloc_ok m = true.

(** C39: listing an archive of plain files with -t and -n ends, returns 0 and prints one
    line for each file, in the order of the archive: its mode, owner, size, date and
    name as they were when it was archived; the contents are skipped, also when other
    bytes follow the end of the archive.  A line is made of the texts that the code's own
    strmode and owner lookup give for the archived mode and ids. *)
Theorem list_prints_all wo s file files fuel junk items bytes w w' :
  archive_of (handle_options s) items bytes -> nonzero (use_numeric_id s) = true ->
  Forall (fun it => plain_file wo (it_stat it) (it_name it) (it_data it) /\ (S (count (length (it_data it))) < fuel)%nat) items ->
  (length items < files)%nat -> (1 < fuel)%nat -> is_dash file = false ->
  @openfunc _ _ (type_in_use (W := W) s) file O_RDONLY 0 w = (Some (bytes ++ end_of_archive ++ junk), w') ->
  (forall d w, (@closefunc _ _ (type_in_use (W := W) s) d w).1 = 0) ->
  exists d, list_archive sizeof_TAR no_fd date files fuel s file w
    = ret (0, map (line_of (handle_options s)) items, (@closefunc _ _ (type_in_use s) d w').2).
Proof.
  intros Ha Hnum Hit Hfl Hf Hd Ho Hcl. unfold list_archive. destruct (handle_options_bits s) as (_ & _ & B2 & B3). rewrite Hnum in B3.
  destruct (open_reading sizeof_TAR no_fd heap_memory fuel s file w _ w' link_memory Hd Ho) as (k & -> & Hk).
  cbn [bindM ret h_tar h_oflags h_table].
  destruct (list_files_ok wo _ fuel junk items bytes Ha files zero_header None B3 B2 Hit Hfl Hf) as (t' & ->).
  cbn [bindM ret]. change (negb (0 =? 0)) with false. cbv iota. unfold close_archive.
  rewrite (close_empty fuel _ 0); [|by apply (holds_links _ k [])|lia]. cbn [bindM ret h_tar]. rewrite Hcl. by exists (fd t').
Qed.

(** A header that cannot be read ends the list without an error. *)
Lemma list_hides_errors s file fuel w w' d i t' : th_read fuel (mkTAR (handle_options s) zero_header d None) = ret (i, t') -> i <> 0 ->
  (0 < fuel)%nat -> is_dash file = false -> @openfunc _ _ (type_in_use (W := W) s) file O_RDONLY 0 w = (Some d, w') ->
  (forall d w, (@closefunc _ _ (type_in_use (W := W) s) d w).1 = 0) ->
  exists w1, list_archive sizeof_TAR no_fd date 1 fuel s file w = ret (0, [], w1).
Proof.
  intros Hr Hi Hf Hd Ho Hcl. unfold list_archive.
  destruct (open_reading sizeof_TAR no_fd heap_memory fuel s file w _ w' link_memory Hd Ho) as (k & -> & Hk).
  cbn [bindM ret h_tar h_oflags h_table list_files]. rewrite Hr. cbn [bindM ret]. destruct (Z.eqb_spec i 0); [done|]. cbn [negb].
  cbn [bindM ret]. change (negb (0 =? 0)) with false. cbv iota. unfold close_archive.
  rewrite (close_empty fuel _ 0); [|by apply (holds_links _ k [])|lia]. cbn [bindM ret h_tar]. rewrite Hcl. by eexists.
Qed.
End Listing.

(** * Copies of library functions *)

Lemma bindM_ext {A B : Type} (m : M A) (f g : A -> M B) : (forall a, m = ret a -> f a = g a) -> bindM m f = bindM m g.
Proof. intros Hfg. destruct m as [[|a]|]; simpl; [done|by apply Hfg|done]. Qed.

Section Copies.
Context {D W : Type} `{Descriptors D W} `{Target} `{Libc} `{TarType D} `{FileSystem W} `{Heap} `{Stack} `{Makedev}.
Context `{Allocator linkname_t} `{Allocator tar_dev} `{Allocator tar_ino} `{Comparisons}.

Lemma none_excluded s path name : exclude_list s = [] -> excluded (W := W) s path name = false.
Proof. intros He. unfold excluded. by rewrite He. Qed.

Lemma entries_agree s fuel tree1 tree2 : exclude_list s = [] -> verbose s <> 2 ->
  (forall t c r p w, tree1 t c r p w = tree2 t c r p w) -> forall entries t c realdir savedir (w : W),
  append_entries_with_exceptions s tree1 fuel entries t c realdir savedir w = append_entries tree2 fuel entries t c realdir savedir w.
Proof.
  intros He Hv Htree entries. induction entries as [|e entries IH]; intros t c realdir savedir w; [done|].
  cbn [append_entries_with_exceptions append_entries]. destruct (_ || _); [apply IH|].
  destruct (lstat (join_path realdir e) w) as [st|]; [|done]. rewrite none_excluded by done.
  destruct (Z.eqb_spec (verbose s) 2); [done|]. cbn [lift bindM]. rewrite Htree.
  apply bindM_ext. intros [[[i t'] c'] w'] _. destruct (negb _); [done|apply IH].
Qed.

(** the command's own copies of library functions ("modified copy of
    tar_extract_all that deals with exclusions") agree with the originals on every tree
    and every archive, for good and for bad results, when nothing is excluded and
    nothing is printed. *)
Theorem exceptions_agree date depth files fuel s :
  exclude_list s = [] -> verbose s <> 2 ->
  (forall (t : TAR D) c realdir savedir (w : W),
     tar_append_tree_with_exceptions depth fuel s t c realdir savedir w = tar_append_tree depth fuel t c realdir savedir w) /\
  (forall (t : TAR D) k prefix (w : W), opt (options t) TAR_VERBOSE = false ->
     tar_extract_all_with_exceptions files fuel s t k prefix w = tar_extract_all date files fuel t k prefix w).
Proof.
  intros He Hv. split.
  - induction depth as [|depth IH]; intros t c realdir savedir w; [done|].
    cbn [tar_append_tree_with_exceptions tar_append_tree]. apply bindM_ext. intros [[[i t'] c'] w'] _. destruct (negb _); [done|].
    destruct (opendir realdir w'); [|done]. by apply entries_agree.
  - induction files as [|files IH]; intros t k prefix w Ho; [done|].
    cbn [tar_extract_all_with_exceptions tar_extract_all]. apply bindM_ext. intros [i t'] Ht. destruct (negb _); [done|].
    apply th_read_options in Ht. cbn in Ht. rewrite <- Ht in Ho.
    apply bindM_ext. intros file _. rewrite none_excluded by done. unfold print_if_verbose. rewrite Ho. cbn [lift bindM].
    apply bindM_ext. intros [[[j t2] k2] w2] H2'. apply extract_file_options in H2'. cbn in H2'. rewrite <- H2' in Ho.
    destruct (negb _); [done|by apply IH].
Qed.
End Copies.

(** * Concrete file systems *)

(** Two files to archive; the state is the bytes left of the open file, and after [close]
    of an archive the archive. *)
Definition file_a : item := mkItem [115; 47; 97] [97]
  {| st_dev := 1; st_ino := 2; st_mode := S_IFREG + 420; st_rdev := 0; st_uid := 7; st_gid := 9; st_mtime := 100; st_size := 3 |} [1; 0; 255].
Definition file_b : item := mkItem [115; 47; 98] [98]
  {| st_dev := 1; st_ino := 3; st_mode := S_IFREG + 448; st_rdev := 0; st_uid := 0; st_gid := 0; st_mtime := 5; st_size := 0 |} [].

Definition find_file (p : list Z) : option item := List.find (fun it => if decide (it_real it = p) then true else false) [file_a; file_b].

#[local] Instance small_files : FileSystem (list Z) := {|
  lstat p _ := match find_file p with Some it => inl (it_stat it) | None => inr ENOENT end;
  readlink _ _ _ := None;
  lgetfilecon _ _ := None;
  geteuid _ := 0;
  opendir _ _ := inr ENOTDIR;
  open_rdonly p _ := match find_file p with Some it => (Some 3, it_data it) | None => (None, []) end;
  open_creat _ _ v := (None, v);
  read _ n v := (Z.of_nat (Nat.min n (length v)), firstn n v, skipn n v);
  write _ _ v := (-1, v);
  close _ v := (0, v);
  mkdir _ _ v := (Some ENOENT, v);
  unlink _ v := (Some ENOENT, v);
  link _ _ v := (-1, v);
  symlink _ _ v := (-1, v);
  mknod _ _ _ v := (-1, v);
  mkfifo _ _ v := (-1, v);
  chmod _ _ v := (-1, v);
  lchown _ _ _ v := (-1, v);
  utime _ _ v := (-1, v);
  lsetfilecon _ _ v := (-1, v)
|}.

(** A disk in memory: its files, the file that was opened last, an archive. *)
Record mem_disk := mkMem { mem_files : gmap (list Z) file_t; current : list Z; mem_archive : list Z }.

Definition with_files (w : mem_disk) (f : gmap (list Z) file_t) : mem_disk := mkMem f (current w) (mem_archive w).
Definition change (p : list Z) (f : file_t -> file_t) (w : mem_disk) : Z * mem_disk :=
  match mem_files w !! p with Some x => (0, with_files w (<[p := f x]> (mem_files w))) | None => (-1, w) end.

#[local] Instance mem_calls : FileSystem mem_disk := {|
  lstat _ _ := inr ENOENT;
  readlink _ _ _ := None;
  lgetfilecon _ _ := None;
  geteuid _ := 0;
  opendir _ _ := inr ENOENT;
  open_rdonly _ w := (None, w);
  open_creat p m w := (Some 3, mkMem (<[p := mkFile [] m 0 0 0]> (mem_files w)) p (mem_archive w));
  read _ _ w := (0, [], w);
  write _ bs w := (Z.of_nat (length bs), (change (current w) (fun f => mkFile (f_data f ++ bs) (f_mode f) (f_uid f) (f_gid f) (f_mtime f)) w).2);
  close _ w := (0, w);
  mkdir _ _ w := (None, w);
  unlink _ w := (Some ENOENT, w);
  link _ _ w := (-1, w);
  symlink _ _ w := (-1, w);
  mknod _ _ _ w := (-1, w);
  mkfifo _ _ w := (-1, w);
  chmod p m w := change p (fun f => mkFile (f_data f) (Z.land m 4095) (f_uid f) (f_gid f) (f_mtime f)) w;
  lchown p u g w := change p (fun f => mkFile (f_data f) (f_mode f) u g (f_mtime f)) w;
  utime p t w := change p (fun f => mkFile (f_data f) (f_mode f) (f_uid f) (f_gid f) t) w;
  lsetfilecon _ _ w := (-1, w)
|}.

Lemma change_spec p f w x : mem_files w !! p = Some x ->
  exists w', change p f w = (0, w') /\ current w' = current w /\ mem_files w' !! p = Some (f x) /\
    forall q, p <> q -> mem_files w' !! q = mem_files w !! q.
Proof.
  intros Hp. unfold change. rewrite Hp. eexists. split; [done|]. cbn [with_files mem_files current]. split; [done|].
  rewrite lookup_insert_eq. split; [done|]. intros q Hq. by rewrite lookup_insert_ne.
Qed.

#[local] Instance mem_laws : Disk mem_disk.
Proof.
  refine {| file_at p w := mem_files w !! p; opened _ w := current w; apart p q := p <> q |}; try done.
  - intros p m w. eexists _, _. split; [done|]. split; [by left|done].
  - intros p m w. eexists _, _, _. split; [done|]. cbn [mem_files current]. rewrite lookup_insert_eq. split; [done|]. split; [done|].
    split; [done|]. intros q Hq. by rewrite lookup_insert_ne.
  - intros fd bs w f Hf. cbn [write mem_calls].
    destruct (change_spec (current w) (fun f => mkFile (f_data f ++ bs) (f_mode f) (f_uid f) (f_gid f) (f_mtime f)) w f Hf) as (w' & -> & Hc & Hp & Hq).
    exists w'. eexists. done.
  - intros fd w. by exists w.
  - intros p u g w f Hf. destruct (change_spec p (fun f => mkFile (f_data f) (f_mode f) u g (f_mtime f)) w f Hf) as (w' & E & _ & Hp & Hq).
    exists w', (f_mode f), (f_mtime f). done.
  - intros p t w f Hf. destruct (change_spec p (fun f => mkFile (f_data f) (f_mode f) (f_uid f) (f_gid f) t) w f Hf) as (w' & E & _ & Hp & Hq).
    by exists w'.
  - intros p m w f Hf. destruct (change_spec p (fun f => mkFile (f_data f) (Z.land m 4095) (f_uid f) (f_gid f) (f_mtime f)) w f Hf) as (w' & E & _ & Hp & Hq).
    by exists w'.
Defined.

Definition same_name (pattern name : list Z) (_ : Z) : Z := if decide (pattern = name) then 0 else 1.

#[local] Instance small_descriptors : Descriptors (list Z) (list Z) := {|
  sys_open _ _ _ v := (Some 3, v);
  fchmod _ _ v := (0, v);
  gzdopen _ _ v := (None, v);
  plain_fd _ _ := [];
  gz_fd _ _ := [];
  close_fd d _ := (0, d);
  gzclose d _ := (0, d);
  fopen _ _ := None;
  fnmatch := same_name
|}.

#[local] Instance mem_descriptors : Descriptors (list Z) mem_disk := {|
  sys_open _ _ _ w := (Some 4, w);
  fchmod _ _ w := (0, w);
  gzdopen _ _ w := (None, w);
  plain_fd _ w := mem_archive w;
  gz_fd _ w := mem_archive w;
  close_fd _ w := (0, w);
  gzclose _ w := (0, w);
  fopen _ _ := None;
  fnmatch := same_name
|}.

#[local] Instance some_stack : Stack := {| stack_block := repeat 170 T_BLOCKSIZE; stack_block_length := repeat_length 170 T_BLOCKSIZE |}.
#[local] Instance some_makedev : Makedev := {| compat_makedev a b := Z.lor (Z.shiftl a 8) b |}.
#[local] Existing Instance no_users.
#[local] Existing Instance always.

Lemma demo_environment : environment_ok.
Proof. split; done. Qed.

#[local] Instance list_strcmp : StrCmp (list Z) (list Z) := {| strcmp := strcmp_chars |}.

Lemma small_source it : it ∈ [file_a; file_b] -> source (fun _ : list Z => True) it.
Proof.
  intros Hin v _. assert (Hf : find_file (it_real it) = Some it)
    by (repeat (apply elem_of_cons in Hin as [->|Hin]; [reflexivity|]); by apply elem_of_nil in Hin).
  cbn [lstat opendir open_rdonly small_files lgetfilecon]. rewrite Hf. split; [done|]. split; [done|]. split; [done|].
  exists 3, (it_data it), (fun r w => w = r). split; [done|]. split; [|done]. intros n r w ->. by eexists.
Qed.

(** "tar -c -n -C s -f t a b", then "tar -x -n -X b -C d -f t" *)
Definition opts_c : list (Z * list Z) := [(99, []); (110, []); (67, [115]); (102, [116])].
Definition opts_x : list (Z * list Z) := [(120, []); (110, []); (88, [98]); (67, [100]); (102, [116])].
Definition fuel_rt : nat := S MAXPATHLEN.

Lemma demo_restorable it : it ∈ [file_a; file_b] -> restorable (handle_options (c_set (parse_options initial opts_c))) (Some [100]) fuel_rt it.
Proof.
  intros Hin. split.
  - repeat (apply elem_of_cons in Hin as [->|Hin]; [by repeat split; (reflexivity || (repeat constructor; done) || (simpl; lia))|]). by apply elem_of_nil in Hin.
  - exists [100], (it_name it).
    repeat (apply elem_of_cons in Hin as [->|Hin]; [split; [reflexivity|]; split; [repeat split; try done; repeat constructor; done|]; split; [repeat constructor; done|unfold MAXPATHLEN; simpl; lia]|]).
    by apply elem_of_nil in Hin.
  - unfold fuel_rt. repeat (apply elem_of_cons in Hin as [->|Hin]; [unfold MAXPATHLEN; vm_compute; lia|]). by apply elem_of_nil in Hin.
Qed.

Lemma minitar_roundtrip_witness :
  exists archive, minitar_main 0 [] (fun _ => []) 1 fuel_rt 3 opts_c [[97]; [98]] ([] : list Z) = ret (0, archive) /\
    exists w1, minitar_main 0 [] (fun _ => []) 1 fuel_rt 3 opts_x [] (mkMem ∅ [] archive) = ret (0, w1) /\
      mem_files w1 !! [100; 47; 97] = Some (mkFile [1; 0; 255] 420 7 9 100) /\ mem_files w1 !! [100; 47; 98] = None.
Proof.
  assert (Hm : forall m : store (list Z), malloc m <> None /\ calloc_ok m = true) by (intros m; split; [apply bump_malloc|reflexivity]).
  destruct (minitar_roundtrip (V := list Z) (W := mem_disk) 0 [] (fun _ => []) Hm 0 fuel_rt 3 opts_c opts_x [116] [116]
    [file_a; file_b] (fun _ => True) [] [] demo_environment) as (archive & v1 & Ec & Hx).
  1-10: reflexivity.
  - repeat constructor.
  - apply Forall_forall. exact small_source.
  - apply NoDup_cons. split; [|apply NoDup_singleton]. intros Hin%list_elem_of_singleton. discriminate Hin.
  - apply Forall_forall. exact demo_restorable.
  - repeat constructor. discriminate.
  - simpl. lia.
  - unfold fuel_rt, MAXPATHLEN. simpl. lia.
  - unfold fuel_rt. lia.
  - reflexivity.
  - exact I.
  - reflexivity.
  - intros d w. split; [reflexivity|]. intros q. reflexivity.
  - exists archive. split; [exact Ec|].
    destruct (Hx (mkMem ∅ [] archive) (mkMem ∅ [] archive) []) as (w1 & Ex & Hr & Hq); [by rewrite app_nil_r|].
    exists w1. split; [exact Ex|]. change (wanted_items _ _ _) with [file_a] in Hr, Hq.
    apply Forall_cons in Hr as [Hr _]. split; [exact Hr|]. apply (Hq [100; 47; 98]). repeat constructor. discriminate.
Defined.

(** The listing of the two files. *)
Lemma list_prints_all_witness :
  let set := mkSettings 0 1 0 1 0 [] in
  let day := fun _ : Z => text "today" in
  exists bytes w1, archive_of (handle_options set) [file_a; file_b] bytes /\
    list_archive 0 [] day 3 fuel_rt set [116] (mkMem ∅ [] (bytes ++ end_of_archive ++ []))
    = ret (0, [text "-rw-r--r-- 7        9                3 today a" ++ [NEWLINE];
               text "-rwx------ 0        0                0 today b" ++ [NEWLINE]], w1).
Proof.
  intros set day.
  assert (Hm : forall A (m : store A), malloc m <> None /\ calloc_ok m = true) by (intros A m; split; [apply bump_malloc|reflexivity]).
  assert (Hin : forall it, it ∈ [file_a; file_b] -> plain_file (handle_options set) (it_stat it) (it_name it) (it_data it) /\
    (S (count (length (it_data it))) < fuel_rt)%nat).
  { intros it Hin. split; [exact (rs_plain _ _ _ _ (demo_restorable it Hin))|].
    repeat (apply elem_of_cons in Hin as [->|Hin]; [unfold fuel_rt, MAXPATHLEN; vm_compute; lia|]). by apply elem_of_nil in Hin. }
  destruct demo_environment as [E1 E2 E3 E4 E5 E6 E7].
  destruct (add_operands_ok (Hm (list Z)) fuel_rt [[97]; [98]] ∅ (mkList None None strcmp LIST_QUEUE 0) []) as (m & l & k & _ & Hrep & Hk);
    [split; [done|constructor|done|by intros []|done]|done|unfold fuel_rt, MAXPATHLEN; simpl; lia|].
  destruct (create_ok 0 [] E1 E2 E3 E4 E6 E7 0 fuel_rt (handle_options set) set (fun _ => True) m l k [116] (Some [115]) [file_a; file_b] [] [])
    as (bytes & v1 & _ & _ & Ha); try done.
  - repeat constructor.
  - apply Forall_forall. exact small_source.
  - apply Forall_forall. intros it Hit. apply Hin. done.
  - apply Forall_forall. intros it Hit. apply count_bound. destruct (Hin it Hit). lia.
  - apply NoDup_cons. split; [|apply NoDup_singleton]. intros Hx%list_elem_of_singleton. discriminate Hx.
  - unfold fuel_rt, MAXPATHLEN. simpl. lia.
  - exists bytes. destruct (list_prints_all (W := mem_disk) 0 [] day E4 E5 (handle_options set) set [116] 3 fuel_rt [] [file_a; file_b] bytes
      (mkMem ∅ [] (bytes ++ end_of_archive ++ [])) (mkMem ∅ [] (bytes ++ end_of_archive ++ []))) as (d & E).
    + exact Ha.
    + reflexivity.
    + apply Forall_forall. exact Hin.
    + simpl. lia.
    + unfold fuel_rt, MAXPATHLEN. lia.
    + reflexivity.
    + reflexivity.
    + reflexivity.
    + eexists. split; [exact Ha|exact E].
Defined.

Lemma exceptions_agree_witness :
  let set := mkSettings 0 1 0 0 0 [] in let w := mkMem ∅ [] [1; 2; 3] in
  let t := mkTAR 0 zero_header [1; 2; 3] None in
  let c := mkCache ∅ (mkHash 16 (replicate 16 None) (fun dev _ => dev_hash dev) 0) ∅ ∅ in
  let k := mkLinks ∅ (mkHash 256 (replicate 256 None) path_bucket 0) in
  tar_append_tree_with_exceptions 2 5 set t c [97] None w = tar_append_tree 2 5 t c [97] None w /\
  tar_extract_all_with_exceptions 2 5 set t k None w = tar_extract_all (fun _ => []) 2 5 t k None w.
Proof.
  intros set w t c k. destruct (exceptions_agree (D := list Z) (W := mem_disk) (fun _ => []) 2 2 5 set eq_refl ltac:(discriminate)) as [Ha He].
  split; [apply Ha|by apply He].
Defined.
