(* ===== verification/Mtd.v ===== *)
(** Flash partitions: src/mtdutils/mtdutils.c (reading and writing of partitions).

    A partition is accessed through one descriptor, whose state together with the device
    is [W]; the system calls on it are the class [Device].  Blocks that are bad or that
    fail are skipped, so that the readable data of a partition is the sequence of its
    good blocks. *)
From stdpp Require Import list.
From S2P Require Import Prelude.

Record MtdPartition := mkPartition { device_index : Z; size : Z; erase_size : Z; name : option (list Z) }.

Definition EOPNOTSUPP : Z := 95.

(** The calls on a partition: opening [/dev/mtd/mtd<n>], for writing too or not, and
    [MEMGETINFO] (total size, erase size and write size); then, on the descriptor, the
    position, seeking to an offset, reading and writing, the number of uncorrectable
    errors so far (or an error), whether a block is bad (the result, and [errno] when it
    is -1), erasing. *)
Class Device (W : Type) := {
  open_mtd : Z -> bool -> W -> bool * W;
  mem_info : W -> option (Z * Z * Z);
  seek_cur : W -> Z;
  seek_set : Z -> W -> Z * W;
  read : nat -> W -> Z * list Z * W;
  write : list Z -> W -> Z * W;
  ecc_failed : W -> option Z;
  bad_block : Z -> W -> Z * Z;
  erase : Z -> Z -> W -> Z * W;
  close : W -> Z * W
}.

Record MtdReadContext := mkRead { r_partition : MtdPartition; r_buffer : list Z; consumed : Z }.
Record MtdWriteContext := mkWrite {
  w_partition : MtdPartition;
  w_buffer : list Z;
  stored : Z;
  bad_block_offsets : list Z;
  bad_block_alloc : Z
}.

Section Mtd.
Context {W : Type} `{Device W}.

(** * Reading *)

(** The next good block into [data]; the position is compared with the size as an
    [int].  0, or -1 when there is none. *)
Fixpoint read_loop (fuel : nat) (p : MtdPartition) (before pos : Z) (data : list Z) (w : W) : option (Z * list Z * W) :=
  match fuel with
  | O => None
  | S fuel =>
      if pos + i32 (erase_size p) <=? i32 (size p) then
        let '(at_pos, w) := seek_set pos w in
        let '(n, bs, w) := if at_pos =? pos then read (Z.to_nat (erase_size p)) w else (-1, [], w) in
        let data := blit data 0 (firstn (length data) bs) in
        if negb (n =? i32 (erase_size p)) then read_loop fuel p before (pos + erase_size p) data w
        else
          match ecc_failed w with
          | None => Some (-1, data, w)
          | Some after =>
              if negb (after =? before) then read_loop fuel p after (pos + erase_size p) data w
              else if negb ((bad_block pos w).1 =? 0) then read_loop fuel p before (pos + erase_size p) data w
              else Some (0, data, w)
          end
      else Some (-1, data, w)
  end.

Definition read_block (fuel : nat) (p : MtdPartition) (data : list Z) (w : W) : option (Z * list Z * W) :=
  match ecc_failed w with
  | None => Some (-1, data, w)
  | Some before => read_loop fuel p before (seek_cur w) data w
  end.

Definition mtd_read_skip_to (offset : Z) (w : W) : W := (seek_set offset w).2.

(** Complete blocks into the caller's buffer, of which [out] has been filled; [None] for
    the return of -1. *)
Fixpoint read_blocks (fuel : nat) (ctx : MtdReadContext) (len : Z) (out : list Z) (w : W) : option (option (list Z) * W) :=
  match fuel with
  | O => None
  | S fuel' =>
      let e := erase_size (r_partition ctx) in
      if (consumed ctx =? e) && (e <=? len - Z.of_nat (length out)) then
        match read_block fuel (r_partition ctx) (repeat 0 (Z.to_nat e)) w with
        | None => None
        | Some (r, bs, w) => if negb (r =? 0) then Some (None, w) else read_blocks fuel' ctx len (out ++ bs) w
        end
      else Some (Some out, w)
  end.

(** The bytes that are left in the buffer. *)
Definition from_buffer (ctx : MtdReadContext) (len : Z) (out : list Z) : list Z * MtdReadContext :=
  let e := erase_size (r_partition ctx) in
  if consumed ctx <? e then
    let avail := e - consumed ctx in
    let copy := if len - Z.of_nat (length out) <? avail then len - Z.of_nat (length out) else avail in
    (out ++ firstn (Z.to_nat copy) (skipn (Z.to_nat (consumed ctx)) (r_buffer ctx)),
     mkRead (r_partition ctx) (r_buffer ctx) (consumed ctx + copy))
  else (out, ctx).

(** The result, the bytes read, the context and the device. *)
Fixpoint read_data_loop (fuel : nat) (ctx : MtdReadContext) (len : Z) (out : list Z) (w : W)
    : option (Z * list Z * MtdReadContext * W) :=
  match fuel with
  | O => None
  | S fuel' =>
      if Z.of_nat (length out) <? len then
        let '(out, ctx) := from_buffer ctx len out in
        match read_blocks fuel ctx len out w with
        | None => None
        | Some (None, w) => Some (-1, out, ctx, w)
        | Some (Some out, w) =>
            if len <=? Z.of_nat (length out) then Some (Z.of_nat (length out), out, ctx, w)
            else if consumed ctx =? erase_size (r_partition ctx) then
              match read_block fuel (r_partition ctx) (r_buffer ctx) w with
              | None => None
              | Some (r, bs, w) =>
                  let ctx := mkRead (r_partition ctx) bs (consumed ctx) in
                  if negb (r =? 0) then Some (-1, out, ctx, w)
                  else read_data_loop fuel' (mkRead (r_partition ctx) bs 0) len out w
              end
            else read_data_loop fuel' ctx len out w
        end
      else Some (Z.of_nat (length out), out, ctx, w)
  end.

Definition mtd_read_data (fuel : nat) (ctx : MtdReadContext) (len : Z) (w : W) : option (Z * list Z * MtdReadContext * W) :=
  read_data_loop fuel ctx len [] w.

(** * Writing *)

(** The array grows to twice its size and one; [realloc] is taken to succeed. *)
Definition add_bad_block_offset (ctx : MtdWriteContext) (pos : Z) : MtdWriteContext :=
  let count := Z.of_nat (length (bad_block_offsets ctx)) in
  mkWrite (w_partition ctx) (w_buffer ctx) (stored ctx) (bad_block_offsets ctx ++ [pos])
    (if bad_block_alloc ctx <? count + 1 then bad_block_alloc ctx * 2 + 1 else bad_block_alloc ctx).

(** Erase, write, read back and compare, [retry] times at most: whether it worked. *)
Fixpoint try_write (retry : nat) (p : MtdPartition) (pos : Z) (data : list Z) (w : W) : bool * W :=
  match retry with
  | O => (false, w)
  | S retry =>
      let n := erase_size p in
      let '(r, w) := erase pos n w in
      if r <? 0 then try_write retry p pos data w
      else
        let '(at_pos, w) := seek_set pos w in
        let '(_, w) := if at_pos =? pos then write data w else (-1, w) in
        let '(at_pos, w) := seek_set pos w in
        let '(m, verify, w) := if at_pos =? pos then read (Z.to_nat n) w else (-1, [], w) in
        if negb (m =? i32 n) then try_write retry p pos data w
        else if decide (verify = data) then (true, w) else try_write retry p pos data w
  end.

(** Whether [MEMGETBADBLOCK] says that the block must not be written. *)
Definition known_bad (pos : Z) (w : W) : bool :=
  let '(ret, errno) := bad_block pos w in negb (ret =? 0) && negb ((ret =? -1) && (errno =? EOPNOTSUPP)).

Fixpoint write_loop (fuel : nat) (ctx : MtdWriteContext) (pos : Z) (data : list Z) (w : W) : option (Z * MtdWriteContext * W) :=
  match fuel with
  | O => None
  | S fuel =>
      let p := w_partition ctx in
      if pos + i32 (erase_size p) <=? i32 (size p) then
        if known_bad pos w then write_loop fuel (add_bad_block_offset ctx pos) (pos + erase_size p) data w
        else
          let '(ok, w) := try_write 2 p pos data w in
          if ok then Some (0, ctx, w)
          else
            let '(_, w) := erase pos (erase_size p) w in
            write_loop fuel (add_bad_block_offset ctx pos) (pos + erase_size p) data w
      else Some (-1, ctx, w)
  end.

(** [data] is one block; the memory for the comparison is taken to be there. *)
Definition write_block (fuel : nat) (ctx : MtdWriteContext) (data : list Z) (w : W) : option (Z * MtdWriteContext * W) :=
  let pos := seek_cur w in
  if pos =? -1 then Some (1, ctx, w) else write_loop fuel ctx pos data w.

Definition with_stored (ctx : MtdWriteContext) (buffer : list Z) (n : Z) : MtdWriteContext :=
  mkWrite (w_partition ctx) buffer n (bad_block_offsets ctx) (bad_block_alloc ctx).

(** Complete blocks from the caller's data, of which [data] is left. *)
Fixpoint write_blocks (fuel : nat) (ctx : MtdWriteContext) (data : list Z) (w : W) : option (bool * list Z * MtdWriteContext * W) :=
  match fuel with
  | O => None
  | S fuel' =>
      let e := erase_size (w_partition ctx) in
      if (stored ctx =? 0) && (e <=? Z.of_nat (length data)) then
        match write_block fuel ctx (firstn (Z.to_nat e) data) w with
        | None => None
        | Some (r, ctx, w) =>
            if negb (r =? 0) then Some (false, data, ctx, w) else write_blocks fuel' ctx (skipn (Z.to_nat e) data) w
        end
      else Some (true, data, ctx, w)
  end.

(** A partial block is collected in the buffer. *)
Definition collect (ctx : MtdWriteContext) (data : list Z) : list Z * MtdWriteContext :=
  let e := erase_size (w_partition ctx) in
  if (0 <? stored ctx) || (Z.of_nat (length data) <? e) then
    let avail := e - stored ctx in
    let copy := if Z.of_nat (length data) <? avail then Z.of_nat (length data) else avail in
    (skipn (Z.to_nat copy) data,
     with_stored ctx (blit (w_buffer ctx) (Z.to_nat (stored ctx)) (firstn (Z.to_nat copy) data)) (stored ctx + copy))
  else (data, ctx).

Fixpoint write_data_loop (fuel : nat) (ctx : MtdWriteContext) (len : Z) (data : list Z) (w : W) : option (Z * MtdWriteContext * W) :=
  match fuel with
  | O => None
  | S fuel' =>
      match data with
      | [] => Some (len, ctx, w)
      | _ =>
          let '(data, ctx) := collect ctx data in
          match (if stored ctx =? erase_size (w_partition ctx) then write_block fuel ctx (w_buffer ctx) w else Some (0, ctx, w)) with
          | None => None
          | Some (r, ctx', w) =>
              if negb (r =? 0) then Some (-1, ctx', w)
              else
                let ctx := if stored ctx =? erase_size (w_partition ctx) then with_stored ctx' (w_buffer ctx') 0 else ctx' in
                match write_blocks fuel ctx data w with
                | None => None
                | Some (ok, data, ctx, w) => if ok then write_data_loop fuel' ctx len data w else Some (-1, ctx, w)
                end
          end
      end
  end.

Definition mtd_write_data (fuel : nat) (ctx : MtdWriteContext) (data : list Z) (w : W) : option (Z * MtdWriteContext * W) :=
  write_data_loop fuel ctx (Z.of_nat (length data)) data w.

(** * Erasing and closing *)

Fixpoint erase_loop (blocks : nat) (p : MtdPartition) (pos : Z) (w : W) : Z * W :=
  match blocks with
  | O => (pos, w)
  | S blocks =>
      if 0 <? (bad_block pos w).1 then erase_loop blocks p (pos + erase_size p) w
      else let '(_, w) := erase pos (erase_size p) w in erase_loop blocks p (pos + erase_size p) w
  end.

(** Pending data is padded with zeros and written. *)
Definition flush (fuel : nat) (ctx : MtdWriteContext) (w : W) : option (Z * MtdWriteContext * W) :=
  if 0 <? stored ctx then
    let n := Z.to_nat (stored ctx) in
    let buffer := blit (w_buffer ctx) n (repeat 0 (Z.to_nat (erase_size (w_partition ctx)) - n)) in
    match write_block fuel (with_stored ctx buffer (stored ctx)) buffer w with
    | None => None
    | Some (r, ctx, w) => if negb (r =? 0) then Some (-1, ctx, w) else Some (0, with_stored ctx (w_buffer ctx) 0, w)
    end
  else Some (0, ctx, w).

Definition mtd_erase_blocks (fuel : nat) (ctx : MtdWriteContext) (blocks : Z) (w : W) : option (Z * MtdWriteContext * W) :=
  match flush fuel ctx w with
  | None => None
  | Some (r, ctx, w) =>
      if negb (r =? 0) then Some (-1, ctx, w)
      else
        let pos := seek_cur w in
        if pos =? -1 then Some (pos, ctx, w)
        else
          let total := i32 (u32 (size (w_partition ctx) - pos) / erase_size (w_partition ctx)) in
          let blocks := if blocks <? 0 then total else blocks in
          if total <? blocks then Some (-1, ctx, w)
          else let '(pos, w) := erase_loop (Z.to_nat blocks) (w_partition ctx) pos w in Some (pos, ctx, w)
  end.

Definition mtd_write_close (fuel : nat) (ctx : MtdWriteContext) (w : W) : option (Z * W) :=
  match mtd_erase_blocks fuel ctx 0 w with
  | None => None
  | Some (pos, _, w) =>
      let r := if pos =? -1 then -1 else 0 in
      let '(c, w) := close w in Some (if negb (c =? 0) then -1 else r, w)
  end.

(** The first position at or after [pos] that is not among the bad blocks. *)
Fixpoint find_start (offsets : list Z) (e pos : Z) : Z :=
  match offsets with
  | [] => pos
  | o :: offsets => if o =? pos then find_start offsets e (pos + e) else if pos <? o then pos else find_start offsets e pos
  end.
Definition mtd_find_write_start (ctx : MtdWriteContext) (pos : Z) : Z :=
  find_start (bad_block_offsets ctx) (erase_size (w_partition ctx)) pos.

(** * Opening and closing *)

(** The context is [None] when the device cannot be opened; memory is taken to be there,
    and the buffer starts with what it holds. *)
Definition mtd_read_partition (p : MtdPartition) (memory : list Z) (w : W) : option MtdReadContext * W :=
  let '(ok, w) := open_mtd (device_index p) false w in
  if ok then (Some (mkRead p memory (erase_size p)), w) else (None, w).

Definition mtd_read_close (w : W) : W := (close w).2.

Definition mtd_write_partition (p : MtdPartition) (memory : list Z) (w : W) : option MtdWriteContext * W :=
  let '(ok, w) := open_mtd (device_index p) true w in
  if ok then (Some (mkWrite p memory 0 [] 0), w) else (None, w).

(** The three sizes, or [None] for the result -1; the callers pass the places they want
    them in. *)
Definition mtd_partition_info (p : MtdPartition) (w : W) : option (Z * Z * Z) * W :=
  let '(ok, w) := open_mtd (device_index p) false w in
  if ok then let info := mem_info w in let '(_, w) := close w in (info, w) else (None, w).
End Mtd.

(** * A flash memory *)

(** What is relied on of a device: [rep w bs pos ecc] says that [w] is an open descriptor
    at offset [pos] of a device with the blocks [bs], of which the bad ones are [None],
    and that [ecc] uncorrectable errors have been seen so far.  Good blocks can be read,
    erased and, when erased, written.  A bad block is reported as one, and so is an
    offset outside the device; reading a bad block may fail, or give data with or without
    errors counted, but a read that fails counts none. *)
Abbreviation flash := (list (option (list Z))).

Class Flash (W : Type) `{Device W} (p : MtdPartition) := {
  rep : W -> flash -> Z -> Z -> Prop;
  idle : W -> flash -> Prop;
  erase_size_pos : 0 < erase_size p < 2 ^ 31;
  size_small : size p < 2 ^ 31;
  rep_wf w bs pos ecc : rep w bs pos ecc ->
    size p = erase_size p * Z.of_nat (length bs) /\
    Forall (fun b => forall d, b = Some d -> Z.of_nat (length d) = erase_size p) bs;
  rep_open w bs writing : idle w bs -> exists w' ecc, open_mtd (device_index p) writing w = (true, w') /\ rep w' bs 0 ecc;
  rep_close w bs pos ecc : rep w bs pos ecc -> exists w', close w = (0, w') /\ idle w' bs;
  rep_info w bs pos ecc : rep w bs pos ecc -> exists write_size, mem_info w = Some (size p, erase_size p, write_size);
  rep_pos w bs pos ecc : rep w bs pos ecc -> seek_cur w = pos;
  rep_ecc w bs pos ecc : rep w bs pos ecc -> ecc_failed w = Some ecc;
  rep_seek w bs pos ecc o : rep w bs pos ecc -> 0 <= o <= size p ->
    exists w', seek_set o w = (o, w') /\ rep w' bs o ecc;
  rep_seek_any w bs pos ecc o : rep w bs pos ecc ->
    exists r w' pos', seek_set o w = (r, w') /\ (r = o \/ r = -1) /\ rep w' bs pos' ecc;
  rep_read w bs i ecc d : rep w bs (erase_size p * Z.of_nat i) ecc -> bs !! i = Some (Some d) ->
    exists w', read (Z.to_nat (erase_size p)) w = (erase_size p, d, w') /\ rep w' bs (erase_size p * Z.of_nat (S i)) ecc;
  rep_read_bad w bs i ecc : rep w bs (erase_size p * Z.of_nat i) ecc -> bs !! i = Some None ->
    exists n l w' pos' ecc', read (Z.to_nat (erase_size p)) w = (n, l, w') /\ rep w' bs pos' ecc' /\ (n <> erase_size p -> ecc' = ecc);
  rep_good w bs pos ecc i d : rep w bs pos ecc -> bs !! i = Some (Some d) -> (bad_block (erase_size p * Z.of_nat i) w).1 = 0;
  rep_bad w bs pos ecc i : rep w bs pos ecc -> bs !! i = Some None -> 0 < (bad_block (erase_size p * Z.of_nat i) w).1;
  rep_beyond w bs pos ecc o : rep w bs pos ecc -> o < 0 \/ size p <= o -> (bad_block o w).1 <> 0;
  rep_erase w bs pos ecc i d : rep w bs pos ecc -> bs !! i = Some (Some d) ->
    exists w' ecc', erase (erase_size p * Z.of_nat i) (erase_size p) w = (0, w') /\
      rep w' (<[i := Some (repeat 255 (Z.to_nat (erase_size p)))]> bs) pos ecc';
  rep_write w bs ecc i d : rep w bs (erase_size p * Z.of_nat i) ecc ->
    bs !! i = Some (Some (repeat 255 (Z.to_nat (erase_size p)))) -> Z.of_nat (length d) = erase_size p ->
    exists w' ecc', write d w = (erase_size p, w') /\ rep w' (<[i := Some d]> bs) (erase_size p * Z.of_nat (S i)) ecc'
}.

(** The good blocks. *)
Definition goods (bs : flash) : list (list Z) := omap id bs.

Lemma goods_app a b : goods (a ++ b) = goods a ++ goods b.
Proof. apply omap_app. Qed.

Lemma goods_length bs : (length (goods bs) <= length bs)%nat.
Proof. induction bs as [|[d|] bs IH]; [reflexivity|change (S (length (goods bs)) <= S (length bs))%nat; lia|change (length (goods bs) <= S (length bs))%nat; lia]. Qed.

(** A buffer that is overwritten as a whole. *)
Lemma blit_over buf d : length d = length buf -> blit buf 0 (firstn (length buf) d) = d.
Proof. intros Hl. rewrite <- Hl, firstn_all. unfold blit. cbn [firstn app Nat.add]. rewrite skipn_all2 by lia. apply app_nil_r. Qed.

Section Flash.
Context {W : Type} `{Flash W p}.
Abbreviation e := (erase_size p).
Abbreviation off i := (e * Z.of_nat i).

Lemma size_i32 w bs pos ecc : rep w bs pos ecc -> i32 (size p) = off (length bs).
Proof.
  intros R. destruct (rep_wf _ _ _ _ R) as [E _]. pose proof size_small. pose proof erase_size_pos.
  assert (0 <= off (length bs)) by nia. rewrite i32_small; lia.
Qed.

Lemma erase_size_i32 : i32 e = e.
Proof. pose proof erase_size_pos. apply i32_small. lia. Qed.

(** The next block is inside the partition exactly when the position is. *)
Lemma inside w bs pos ecc i : rep w bs pos ecc -> (off i + i32 e <=? i32 (size p)) = (i <? length bs)%nat.
Proof.
  intros R. rewrite (size_i32 _ _ _ _ R), erase_size_i32. pose proof erase_size_pos.
  destruct (Nat.ltb_spec i (length bs)); [apply Z.leb_le|apply Z.leb_gt]; nia.
Qed.

Lemma rep_block w bs pos ecc i d : rep w bs pos ecc -> bs !! i = Some (Some d) -> Z.of_nat (length d) = e.
Proof. intros R Hi. destruct (rep_wf _ _ _ _ R) as [_ F]. rewrite Forall_lookup in F. exact (F i _ Hi d eq_refl). Qed.

Lemma rep_seek_block w bs pos ecc i : rep w bs pos ecc -> (i <= length bs)%nat ->
  exists w', seek_set (off i) w = (off i, w') /\ rep w' bs (off i) ecc.
Proof.
  intros R Hi. apply (rep_seek _ _ _ _ _ R). destruct (rep_wf _ _ _ _ R) as [-> _]. pose proof erase_size_pos. nia.
Qed.

(** ** Reading *)

(** The descriptor is open on a device with the blocks [bs]. *)
Definition held (w : W) (bs : flash) : Prop := exists pos ecc, rep w bs pos ecc.

(** The descriptor stands where the good blocks [ds] follow. *)
Definition reads (w : W) (bs : flash) (ds : list (list Z)) : Prop :=
  exists pre suf ecc, bs = pre ++ suf /\ goods suf = ds /\ rep w bs (off (length pre)) ecc.

Lemma read_loop_spec suf : forall fuel pre data w pos ecc,
  (length suf < fuel)%nat -> rep w (pre ++ suf) pos ecc -> Z.of_nat (length data) = e ->
  exists r data' w', read_loop fuel p ecc (off (length pre)) data w = Some (r, data', w') /\ Z.of_nat (length data') = e /\
    match goods suf with
    | [] => r = -1 /\ held w' (pre ++ suf)
    | d :: ds => r = 0 /\ data' = d /\ reads w' (pre ++ suf) ds
    end.
Proof.
  induction suf as [|b suf IH]; intros [|fuel] pre data w pos ecc Hf R Hd; cbn [length] in Hf; try lia.
  - cbn [read_loop]. rewrite (inside _ _ _ _ _ R), app_nil_r, Nat.ltb_irrefl. rewrite app_nil_r in R.
    do 3 eexists. split; [reflexivity|]. split; [exact Hd|]. split; [reflexivity|]. do 2 eexists. exact R.
  - cbn [read_loop]. rewrite (inside _ _ _ _ _ R), length_app. cbn [length].
    destruct (Nat.ltb_spec (length pre) (length pre + S (length suf))) as [_|]; [|lia].
    destruct (rep_seek_block w _ _ _ (length pre) R) as (w1 & -> & R1); [rewrite length_app; lia|].
    rewrite Z.eqb_refl, erase_size_i32.
    assert (Hb : (pre ++ b :: suf) !! length pre = Some b) by now rewrite list_lookup_middle.
    assert (Hnext : off (length pre) + e = off (length (pre ++ [b]))) by (rewrite length_app; cbn [length]; lia).
    rewrite Hnext. change (b :: suf) with ([b] ++ suf) in *. rewrite app_assoc in *.
    destruct b as [d|].
    + destruct (rep_read _ _ _ _ _ R1 Hb) as (w2 & -> & R2). rewrite Z.eqb_refl. cbn [negb].
      rewrite (rep_ecc _ _ _ _ R2), Z.eqb_refl. cbn [negb]. rewrite (rep_good _ _ _ _ _ _ R2 Hb). cbn [negb Z.eqb].
      pose proof (rep_block _ _ _ _ _ _ R2 Hb) as Ld.
      rewrite blit_over by lia. do 3 eexists. split; [reflexivity|]. split; [exact Ld|]. cbn [goods omap list_omap id app].
      split; [reflexivity|split; [reflexivity|]]. exists (pre ++ [Some d]), suf, ecc. rewrite length_app.
      cbn [length]. rewrite Nat.add_1_r. auto.
    + destruct (rep_read_bad _ _ _ _ R1 Hb) as (n & l & w2 & pos' & ecc' & -> & R2 & He).
      assert (Hl : Z.of_nat (length (blit data 0 (firstn (length data) l))) = e).
      { rewrite blit_length; [exact Hd|]. rewrite length_firstn. lia. }
      cbn [goods omap list_omap id app]. destruct (Z.eqb_spec n e) as [->|Hn]; cbn [negb].
      * rewrite (rep_ecc _ _ _ _ R2). destruct (Z.eqb_spec ecc' ecc) as [->|]; cbn [negb].
        -- pose proof (rep_bad _ _ _ _ _ R2 Hb). destruct (Z.eqb_spec (bad_block (off (length pre)) w2).1 0); [lia|].
           eapply IH; eauto; lia.
        -- eapply IH; eauto; lia.
      * rewrite (He Hn) in R2. eapply IH; eauto; lia.
Qed.

Lemma read_block_spec fuel w bs ds data :
  reads w bs ds -> (length bs < fuel)%nat -> Z.of_nat (length data) = e ->
  exists r data' w', read_block fuel p data w = Some (r, data', w') /\ Z.of_nat (length data') = e /\
    match ds with
    | [] => r = -1 /\ held w' bs
    | d :: ds => r = 0 /\ data' = d /\ reads w' bs ds
    end.
Proof.
  intros (pre & suf & ecc & -> & <- & R) Hf Hd. unfold read_block. rewrite (rep_ecc _ _ _ _ R), (rep_pos _ _ _ _ R).
  rewrite length_app in Hf. eapply read_loop_spec; eauto. lia.
Qed.

(** What a reader still has before it: what is left in the buffer, then the good blocks
    that follow. *)
Definition readable (ctx : MtdReadContext) (w : W) (bs : flash) (rest : list Z) : Prop :=
  r_partition ctx = p /\ Z.of_nat (length (r_buffer ctx)) = e /\ 0 <= consumed ctx <= e /\
  exists ds, reads w bs ds /\ rest = skipn (Z.to_nat (consumed ctx)) (r_buffer ctx) ++ concat ds.

(** Each step moves bytes from [rest] to the end of [out]. *)
Lemma from_buffer_spec ctx w bs rest len out :
  readable ctx w bs rest -> Z.of_nat (length out) <= len ->
  exists out' ctx' rest', from_buffer ctx len out = (out', ctx') /\ readable ctx' w bs rest' /\
    out' ++ rest' = out ++ rest /\ Z.of_nat (length out') <= len /\
    (Z.of_nat (length out') = len \/
     Z.of_nat (length out') < len /\ consumed ctx' = e /\ e - consumed ctx <= len - Z.of_nat (length out)).
Proof.
  intros (Hp & Hb & Hc & ds & Hr & ->) Ho. unfold from_buffer. rewrite Hp.
  destruct (Z.ltb_spec (consumed ctx) e) as [Hlt|Hge].
  - set (copy := if _ <? _ then _ else _). set (tail := skipn (Z.to_nat (consumed ctx)) (r_buffer ctx)).
    assert (Hcopy : 0 <= copy <= e - consumed ctx /\ copy <= len - Z.of_nat (length out) /\
                    (copy = e - consumed ctx \/ copy = len - Z.of_nat (length out))).
    { unfold copy. destruct (Z.ltb_spec (len - Z.of_nat (length out)) (e - consumed ctx)); lia. }
    assert (Hl : length (firstn (Z.to_nat copy) tail) = Z.to_nat copy).
    { rewrite length_firstn. unfold tail. rewrite length_skipn. lia. }
    do 3 eexists. split; [reflexivity|]. split.
    { repeat split; cbn; try lia. exists ds. split; [exact Hr|reflexivity]. }
    cbn [r_buffer consumed]. rewrite length_app, Hl. split; [|lia].
    rewrite Z2Nat.inj_add, Nat.add_comm, <- skipn_skipn by lia. fold tail.
    rewrite <- app_assoc. f_equal. rewrite app_assoc. f_equal. apply firstn_skipn.
  - exists out, ctx. eexists. split; [reflexivity|]. split; [|split; [reflexivity|lia]].
    repeat split; try assumption; try lia. eauto.
Qed.

Lemma reads_blocks w bs ds : reads w bs ds -> Forall (fun d => Z.of_nat (length d) = e) ds /\ (length ds <= length bs)%nat.
Proof.
  intros (pre & suf & ecc & -> & <- & R). split.
  - destruct (rep_wf _ _ _ _ R) as [_ F]. apply Forall_app in F as [_ F]. clear R.
    induction F as [|[d|] suf Hd _ IH]; [apply Forall_nil_2|apply Forall_cons; split; [now apply Hd|exact IH]|exact IH].
  - rewrite length_app. pose proof (goods_length suf). lia.
Qed.

Lemma read_blocks_spec ds : forall fuel ctx len out w bs,
  reads w bs ds -> r_partition ctx = p -> consumed ctx = e -> (length bs + length ds < fuel)%nat -> Z.of_nat (length out) <= len ->
  exists res w', read_blocks fuel ctx len out w = Some (res, w') /\
    match res with
    | None => Z.of_nat (length (out ++ concat ds)) < len /\ held w' bs
    | Some out' => exists ds', reads w' bs ds' /\ out' ++ concat ds' = out ++ concat ds /\
        Z.of_nat (length out') <= len < Z.of_nat (length out') + e
    end.
Proof.
  pose proof erase_size_pos as He.
  induction ds as [|d ds IH]; intros [|fuel] ctx len out w bs Hr Hp Hc Hf Ho; cbn [length] in Hf; try lia.
  all: cbn [read_blocks]; rewrite Hp, Hc, Z.eqb_refl; cbn [andb]; destruct (Z.leb_spec e (len - Z.of_nat (length out))) as [Hle|Hgt].
  all: try (do 2 eexists; split; [reflexivity|]; eexists; repeat split; [exact Hr|lia|lia]).
  - destruct (read_block_spec (S fuel) w bs [] (repeat 0 (Z.to_nat e)) Hr) as (r & d' & w' & -> & _ & -> & Hh);
      [lia|rewrite repeat_length; lia|].
    cbn [negb Z.eqb]. do 2 eexists. split; [reflexivity|]. cbn [concat]. rewrite app_nil_r. split; [lia|exact Hh].
  - destruct (read_block_spec (S fuel) w bs (d :: ds) (repeat 0 (Z.to_nat e)) Hr) as (r & d' & w' & -> & Hl & -> & -> & Hr');
      [lia|rewrite repeat_length; lia|].
    cbn [negb Z.eqb]. destruct (IH fuel ctx len (out ++ d) w' bs Hr' Hp Hc) as (res & w'' & -> & Hres);
      [lia|rewrite length_app; lia|].
    do 2 eexists. split; [reflexivity|]. cbn [concat]. rewrite app_assoc. exact Hres.
Qed.

(** Once the buffer holds enough, one round ends the loop. *)
Lemma read_last fuel ctx len out w bs rest :
  readable ctx w bs rest -> Z.of_nat (length out) < len -> len - Z.of_nat (length out) < e - consumed ctx ->
  exists out' ctx' rest', read_data_loop (S fuel) ctx len out w = Some (len, out', ctx', w) /\
    readable ctx' w bs rest' /\ out' ++ rest' = out ++ rest /\ Z.of_nat (length out') = len.
Proof.
  intros Hr Ho Hlen. cbn [read_data_loop]. destruct (Z.ltb_spec (Z.of_nat (length out)) len) as [_|]; [|lia].
  destruct (from_buffer_spec ctx w bs rest len out Hr) as (out' & ctx' & rest' & E & Hr' & Happ & Hle & Hdone); [lia|].
  rewrite E. assert (Hd : Z.of_nat (length out') = len) by lia.
  cbn [read_blocks]. destruct Hr' as (Hp & Hr'). rewrite Hp.
  pose proof erase_size_pos. replace (e <=? len - Z.of_nat (length out')) with false by (symmetry; apply Z.leb_gt; lia).
  rewrite andb_false_r. rewrite Hd, Z.leb_refl. exists out', ctx', rest'. repeat split; tauto.
Qed.

Lemma read_data_cases fuel ctx len w bs rest :
  readable ctx w bs rest -> 0 <= len -> (2 * length bs + 1 < fuel)%nat ->
  exists r out ctx' w', read_data_loop fuel ctx len [] w = Some (r, out, ctx', w') /\
    (r = -1 /\ Z.of_nat (length rest) < len /\ held w' bs \/
     r = len /\ exists rest', readable ctx' w' bs rest' /\ out ++ rest' = rest /\ Z.of_nat (length out) = len).
Proof.
  intros Hr Hlen Hf.
  destruct fuel as [|[|fuel]]; [lia..|]. cbn [read_data_loop length]. destruct (Z.ltb_spec (Z.of_nat 0) len) as [Hpos|].
  2:{ exists 0, [], ctx, w. split; [reflexivity|]. right. split; [lia|]. exists rest. split; [exact Hr|]. split; [reflexivity|cbn; lia]. }
  destruct (from_buffer_spec ctx w bs rest len [] Hr) as (out1 & ctx1 & rest1 & -> & Hr1 & Happ & Hle & Hdone); [cbn; lia|].
  pose proof Hr1 as (Hp & Hb & Hc & ds & Hds & ->). cbn [app] in Happ. pose proof erase_size_pos as He.
  destruct Hdone as [Hdone|(Hlt & Hc1 & _)].
  { cbn [read_blocks]. rewrite Hp. replace (e <=? len - Z.of_nat (length out1)) with false by (symmetry; apply Z.leb_gt; lia).
    rewrite andb_false_r, Hdone, Z.leb_refl. do 4 eexists. split; [reflexivity|]. right. split; [reflexivity|]. eauto. }
  assert (Hnil : skipn (Z.to_nat (consumed ctx1)) (r_buffer ctx1) = []) by (apply skipn_all2; lia).
  rewrite Hnil in *. cbn [app] in *. destruct (reads_blocks _ _ _ Hds) as [_ Hcount].
  destruct (read_blocks_spec ds (S (S fuel)) ctx1 len out1 w bs Hds Hp Hc1) as (res & w2 & -> & Hres); [lia|lia|].
  destruct res as [out2|].
  2:{ rewrite Happ in Hres. do 4 eexists. split; [reflexivity|]. left. now split. }
  destruct Hres as (ds2 & Hds2 & Happ2 & Hle2). rewrite Happ in Happ2. destruct (Z.leb_spec len (Z.of_nat (length out2))) as [Hge|Hlt2].
  { do 4 eexists. split; [reflexivity|]. right. split; [lia|]. exists (concat ds2).
    split; [|split; [exact Happ2|lia]]. repeat split; try assumption; try lia. exists ds2. now rewrite Hnil. }
  rewrite Hp, Hc1, Z.eqb_refl. destruct (reads_blocks _ _ _ Hds2) as [Hall _].
  destruct (read_block_spec (S (S fuel)) w2 bs ds2 (r_buffer ctx1) Hds2) as (r3 & buf & w3 & -> & Hbuf & Hcase); [lia|exact Hb|].
  destruct ds2 as [|d ds2]; cbn [concat] in Happ2.
  { destruct Hcase as [-> Hh]. cbn [negb Z.eqb]. do 4 eexists. split; [reflexivity|]. left. split; [reflexivity|].
    rewrite <- Happ2, app_nil_r. split; [exact Hlt2|exact Hh]. }
  destruct Hcase as (-> & -> & Hds3). cbn [negb Z.eqb r_partition].
  destruct (read_last fuel (mkRead p d 0) len out2 w3 bs (d ++ concat ds2)) as (out4 & ctx4 & rest4 & E4 & Hr4 & Happ4 & Hl4).
  { repeat split; cbn; try lia. exists ds2. auto. }
  { exact Hlt2. }
  { cbn [consumed]. lia. }
  do 4 eexists. split; [exact E4|]. right. split; [reflexivity|]. exists rest4. rewrite <- Happ2. auto.
Qed.

(** Reading gives the next bytes of the stream, or fails when there are not enough. *)
Lemma mtd_read_data_spec fuel ctx len w bs rest :
  readable ctx w bs rest -> 0 <= len -> (2 * length bs + 1 < fuel)%nat ->
  exists r out ctx' w', mtd_read_data fuel ctx len w = Some (r, out, ctx', w') /\
    (if len <=? Z.of_nat (length rest)
     then r = len /\ out = firstn (Z.to_nat len) rest /\ readable ctx' w' bs (skipn (Z.to_nat len) rest)
     else r = -1 /\ held w' bs).
Proof.
  intros Hr Hlen Hf. destruct (read_data_cases fuel ctx len w bs rest Hr Hlen Hf) as (r & out & ctx' & w' & E & Hcase).
  exists r, out, ctx', w'. split; [exact E|]. destruct (Z.leb_spec len (Z.of_nat (length rest))) as [Hle|Hgt];
    (destruct Hcase as [(? & ? & ?)|(-> & rest' & Hr' & <- & Ho)]; [first [lia | now split]|]).
  - rewrite <- Ho, Nat2Z.id. now rewrite firstn_app, skipn_app, Nat.sub_diag, firstn_all, skipn_all, firstn_O, app_nil_r.
  - rewrite length_app in Hgt. lia.
Qed.

(** ** Writing *)

(** Which blocks are good, how many, and the offsets of the others. *)
Definition pattern (bs : flash) : list bool := map (fun b => match b with Some _ => true | None => false end) bs.
Definition total (pat : list bool) : nat := length (filter (fun b => b = true) pat).
Fixpoint bad_offsets (k : nat) (bs : flash) : list Z :=
  match bs with
  | [] => []
  | None :: bs => off k :: bad_offsets (S k) bs
  | Some _ :: bs => bad_offsets (S k) bs
  end.

Lemma pattern_length bs : length (pattern bs) = length bs.
Proof. apply length_map. Qed.

Lemma pattern_total bs : total (pattern bs) = length (goods bs).
Proof.
  induction bs as [|[d|] bs IH]; [reflexivity| |exact IH].
  change (pattern (Some d :: bs)) with (true :: pattern bs). unfold total in *. rewrite filter_cons_True by reflexivity.
  cbn [length]. now rewrite IH.
Qed.

Lemma bad_offsets_app a b : forall k, bad_offsets k (a ++ b) = bad_offsets k a ++ bad_offsets (k + length a) b.
Proof.
  induction a as [|[d|] a IH]; intros k; cbn [app bad_offsets length]; rewrite ?Nat.add_0_r, ?IH, ?Nat.add_succ_r; reflexivity.
Qed.

Lemma try_write_spec w bs pos ecc i old data retry :
  rep w bs pos ecc -> bs !! i = Some (Some old) -> Z.of_nat (length data) = e ->
  exists w' ecc', try_write (S retry) p (off i) data w = (true, w') /\ rep w' (<[i := Some data]> bs) (off (S i)) ecc'.
Proof.
  intros R Hi Hd. pose proof (lookup_lt_Some _ _ _ Hi) as Hlt. cbn [try_write].
  destruct (rep_erase _ _ _ _ _ _ R Hi) as (w1 & ecc1 & -> & R1). cbn [Z.ltb Z.compare].
  set (erased := Some (repeat 255 (Z.to_nat e))) in *.
  destruct (rep_seek_block w1 _ _ _ i R1) as (w2 & -> & R2); [rewrite length_insert; lia|]. rewrite Z.eqb_refl.
  destruct (rep_write _ _ _ _ data R2) as (w3 & ecc3 & -> & R3); [now apply list_lookup_insert_eq|exact Hd|].
  rewrite list_insert_insert_eq in R3.
  destruct (rep_seek_block w3 _ _ _ i R3) as (w4 & -> & R4); [rewrite length_insert; lia|]. rewrite Z.eqb_refl.
  destruct (rep_read _ _ _ _ data R4) as (w5 & -> & R5); [now apply list_lookup_insert_eq|].
  rewrite erase_size_i32, Z.eqb_refl. cbn [negb]. rewrite decide_True by reflexivity. eauto.
Qed.

(** The device and the offsets collected, with the blocks before the position and after. *)
Definition positioned (ctx : MtdWriteContext) (w : W) (pre suf : flash) : Prop :=
  bad_block_offsets ctx = bad_offsets 0 pre /\ exists ecc, rep w (pre ++ suf) (off (length pre)) ecc.

Definition same_buffer (ctx ctx' : MtdWriteContext) : Prop :=
  w_partition ctx' = w_partition ctx /\ w_buffer ctx' = w_buffer ctx /\ stored ctx' = stored ctx.

Lemma write_loop_spec suf : forall fuel pre ctx data w pos ecc,
  (length suf < fuel)%nat -> rep w (pre ++ suf) pos ecc -> Z.of_nat (length data) = e -> w_partition ctx = p ->
  bad_block_offsets ctx = bad_offsets 0 pre ->
  exists r ctx' w', write_loop fuel ctx (off (length pre)) data w = Some (r, ctx', w') /\ same_buffer ctx ctx' /\
    (r = -1 /\ goods suf = [] \/
     r = 0 /\ exists old pre' suf', goods suf = old :: goods suf' /\ goods pre' = goods pre ++ [data] /\
       positioned ctx' w' pre' suf' /\ pattern (pre' ++ suf') = pattern (pre ++ suf)).
Proof.
  induction suf as [|b suf IH]; intros [|fuel] pre ctx data w pos ecc Hf R Hd Hp Hbad; cbn [length] in Hf; try lia; cbn [write_loop].
  - rewrite Hp, (inside _ _ _ _ _ R), app_nil_r, Nat.ltb_irrefl. do 3 eexists. split; [reflexivity|].
    split; [repeat split|]. now left.
  - rewrite Hp, (inside _ _ _ _ _ R), length_app. cbn [length].
    destruct (Nat.ltb_spec (length pre) (length pre + S (length suf))) as [_|]; [|lia].
    assert (Hb : (pre ++ b :: suf) !! length pre = Some b) by now rewrite list_lookup_middle.
    unfold known_bad. destruct (bad_block (off (length pre)) w) as [ret errno] eqn:Eb. destruct b as [old|].
    + pose proof (rep_good _ _ _ _ _ _ R Hb) as Hg. rewrite Eb in Hg. cbn in Hg. subst ret. cbn [Z.eqb negb andb].
      destruct (try_write_spec w _ _ _ _ old data 1 R Hb Hd) as (w' & ecc' & -> & R').
      rewrite insert_app_r_alt, Nat.sub_diag in R' by lia. cbn [insert list_insert] in R'.
      do 3 eexists. split; [reflexivity|]. split; [repeat split|]. right. split; [reflexivity|].
      exists old, (pre ++ [Some data]), suf. split; [reflexivity|]. rewrite goods_app. split; [reflexivity|]. split.
      * split; [rewrite bad_offsets_app, Hbad; cbn; now rewrite app_nil_r|]. exists ecc'.
        rewrite <- app_assoc, length_app, Nat.add_1_r. exact R'.
      * unfold pattern. rewrite <- app_assoc, !map_app. reflexivity.
    + pose proof (rep_bad _ _ _ _ _ R Hb) as Hg. rewrite Eb in Hg. cbn in Hg.
      replace (ret =? 0) with false by (symmetry; apply Z.eqb_neq; lia).
      replace (ret =? -1) with false by (symmetry; apply Z.eqb_neq; lia). cbn [negb andb].
      replace (off (length pre) + e) with (off (length (pre ++ [None : option (list Z)]))) by (rewrite length_app; cbn [length]; lia).
      change (None :: suf) with ([None] ++ suf) in *. rewrite app_assoc in *.
      destruct (IH fuel (pre ++ [None]) (add_bad_block_offset ctx (off (length pre))) data w pos ecc) as (r & ctx' & w' & -> & Hs & Hc);
        try assumption; [lia|cbn; now rewrite Hbad, bad_offsets_app|].
      do 3 eexists. split; [reflexivity|]. split; [exact Hs|]. now rewrite goods_app, app_nil_r in Hc.
Qed.

(** What a writer has taken: the good blocks before the position, then what is pending
    in the buffer.  [n] bytes are pending. *)
Definition writable (ctx : MtdWriteContext) (w : W) (pat : list bool) (n : Z) (out : list Z) : Prop :=
  w_partition ctx = p /\ Z.of_nat (length (w_buffer ctx)) = e /\ stored ctx = n /\ 0 <= n <= e /\
  exists pre suf, pattern (pre ++ suf) = pat /\ positioned ctx w pre suf /\
    out = concat (goods pre) ++ firstn (Z.to_nat n) (w_buffer ctx).

Lemma goods_bytes (bs : flash) : Forall (fun b => forall d, b = Some d -> Z.of_nat (length d) = e) bs ->
  Z.of_nat (length (concat (goods bs))) = e * Z.of_nat (length (goods bs)).
Proof.
  induction 1 as [|[d|] bs Hd _ IH]; [cbn; lia| |exact IH].
  change (goods (Some d :: bs)) with (d :: goods bs). cbn [concat length]. rewrite length_app, Nat2Z.inj_add, IH, (Hd d eq_refl). lia.
Qed.

Lemma positioned_bytes ctx w pre suf : positioned ctx w pre suf ->
  Z.of_nat (length (concat (goods pre))) = e * Z.of_nat (length (goods pre)).
Proof. intros (_ & ecc & R). apply goods_bytes. now destruct (rep_wf _ _ _ _ R) as [_ [F _]%Forall_app]. Qed.

(** One block [data] that follows what has been written: pending bytes are taken to be
    part of it. *)
Lemma write_block_spec fuel ctx w pat pre suf data :
  w_partition ctx = p -> pattern (pre ++ suf) = pat -> positioned ctx w pre suf ->
  (length pat < fuel)%nat -> Z.of_nat (length data) = e ->
  exists r ctx' w', write_block fuel ctx data w = Some (r, ctx', w') /\ same_buffer ctx ctx' /\
    (r = -1 /\ e * Z.of_nat (total pat) <= Z.of_nat (length (concat (goods pre))) \/
     r = 0 /\ exists pre' suf', pattern (pre' ++ suf') = pat /\ positioned ctx' w' pre' suf' /\ goods pre' = goods pre ++ [data]).
Proof.
  intros Hp <- Hpos Hf Hd. pose proof Hpos as (Hbad & ecc & R). unfold write_block. rewrite (rep_pos _ _ _ _ R).
  pose proof erase_size_pos as He. destruct (Z.eqb_spec (off (length pre)) (-1)); [lia|].
  unfold pattern in Hf. rewrite length_map, length_app in Hf.
  destruct (write_loop_spec suf fuel pre ctx data w _ ecc ltac:(lia) R Hd Hp Hbad) as (r & ctx' & w' & -> & Hs & Hc).
  do 3 eexists. split; [reflexivity|]. split; [exact Hs|]. destruct Hc as [[-> Hnil]|(-> & old & pre' & suf' & _ & Hg & Hpos' & Hpat)].
  - left. split; [reflexivity|]. rewrite pattern_total, goods_app, Hnil, app_nil_r. rewrite (positioned_bytes _ _ _ _ Hpos). lia.
  - right. split; [reflexivity|]. eauto.
Qed.

Lemma writable_total ctx w pat n out : writable ctx w pat n out -> Z.of_nat (length out) <= e * Z.of_nat (total pat) + n.
Proof.
  intros (_ & Hb & _ & Hn & pre & suf & <- & Hpos & ->). rewrite length_app, length_firstn, Nat2Z.inj_add, (positioned_bytes _ _ _ _ Hpos).
  rewrite pattern_total, goods_app, length_app. pose proof erase_size_pos. nia.
Qed.

Lemma write_blocks_spec k : forall fuel ctx data w pat out,
  writable ctx w pat 0 out -> (length pat + k < fuel)%nat -> (length data < k * Z.to_nat e)%nat ->
  exists ok data' ctx' w', write_blocks fuel ctx data w = Some (ok, data', ctx', w') /\
    (if ok then exists out', writable ctx' w' pat 0 out' /\ out' ++ data' = out ++ data /\
            Z.of_nat (length data') < e /\ (length data' <= length data)%nat
     else e * (Z.of_nat (total pat) + 1) <= Z.of_nat (length out + length data)).
Proof.
  pose proof erase_size_pos as He.
  induction k as [|k IH]; intros [|fuel] ctx data w pat out Hw Hf Hk; try lia.
  pose proof Hw as (Hp & Hb & Hs & _ & pre & suf & Hpat & Hpos & Hout). cbn [write_blocks]. rewrite Hp, Hs. cbn [Z.eqb andb].
  destruct (Z.leb_spec e (Z.of_nat (length data))) as [Hle|Hgt].
  2:{ do 4 eexists. split; [reflexivity|]. exists out. auto. }
  assert (Hd : Z.of_nat (length (firstn (Z.to_nat e) data)) = e) by (rewrite length_firstn; lia).
  destruct (write_block_spec (S fuel) ctx w pat pre suf _ Hp Hpat Hpos ltac:(lia) Hd) as (r & ctx' & w' & -> & (Hp' & Hb' & Hs') & Hc).
  cbn [firstn Z.to_nat] in Hout. rewrite app_nil_r in Hout. subst out.
  destruct Hc as [[-> Hfull]|(-> & pre' & suf' & Hpat' & Hpos' & Hg)]; cbn [negb Z.eqb].
  { do 4 eexists. split; [reflexivity|]. cbv iota. lia. }
  destruct (IH fuel ctx' (skipn (Z.to_nat e) data) w' pat (concat (goods pre) ++ firstn (Z.to_nat e) data))
    as (ok & data' & ctx'' & w'' & -> & Hc).
  { repeat split; try congruence; try lia. exists pre', suf'. repeat split; try assumption; try apply Hpos'.
    rewrite Hg, concat_app. cbn [concat firstn Z.to_nat]. now rewrite !app_nil_r. }
  { lia. }
  { rewrite length_skipn. lia. }
  do 4 eexists. split; [reflexivity|]. destruct ok.
  - destruct Hc as (out' & Hw' & Happ & Hl). exists out'. split; [exact Hw'|]. split; [now rewrite Happ, <- app_assoc, firstn_skipn|].
    split; [apply Hl|]. rewrite length_skipn in Hl. lia.
  - rewrite length_app in Hc. rewrite length_skipn in Hc. lia.
Qed.

Lemma collect_spec ctx w pat n out data :
  writable ctx w pat n out -> n < e -> data <> [] ->
  exists data' ctx' n' out', collect ctx data = (data', ctx') /\ writable ctx' w pat n' out' /\ out' ++ data' = out ++ data /\
    (n' = e \/ data' = [] \/ n' = 0) /\ (n + Z.of_nat (length data) < e -> data' = [] /\ n' < e).
Proof.
  intros Hw Hn Hd. pose proof Hw as (Hp & Hb & Hs & Hr & pre & suf & Hpat & Hpos & ->). unfold collect. rewrite Hp, Hs.
  assert (Hlen : (0 < length data)%nat) by (destruct data; [congruence|cbn; lia]).
  set (copy := if Z.of_nat (length data) <? e - n then _ else _).
  assert (Hcopy : 0 <= copy <= e - n /\ copy <= Z.of_nat (length data) /\ (copy = e - n \/ copy = Z.of_nat (length data)) /\
                  (n + Z.of_nat (length data) < e -> copy = Z.of_nat (length data))).
  { unfold copy. destruct (Z.ltb_spec (Z.of_nat (length data)) (e - n)); lia. }
  clearbody copy. destruct (Z.ltb_spec 0 n) as [Hz|Hz]; cbn [orb].
  2: destruct (Z.ltb_spec (Z.of_nat (length data)) e) as [Hlt|Hge].
  3:{ exists data, ctx, n. eexists. split; [reflexivity|]. split; [exact Hw|]. split; [reflexivity|]. lia. }
  all: do 2 eexists; exists (n + copy), (concat (goods pre) ++ firstn (Z.to_nat n) (w_buffer ctx) ++ firstn (Z.to_nat copy) data);
    split; [reflexivity|]; split; [|split; [rewrite <- !app_assoc, firstn_skipn; reflexivity|]].
  2, 4: split; [|intros Hsmall; split; [apply skipn_all2; lia|lia]];
    destruct Hcopy as (? & ? & [->| ->] & ?); [left; lia|right; left; apply skipn_all2; lia].
  all: assert (Hl : length (firstn (Z.to_nat copy) data) = Z.to_nat copy) by (rewrite length_firstn; lia).
  all: repeat split; cbn [w_partition w_buffer stored with_stored]; try lia; try exact Hp; [rewrite blit_length; lia|].
  all: exists pre, suf; split; [exact Hpat|]; split; [exact Hpos|]; f_equal;
    replace (Z.to_nat (n + copy)) with (Z.to_nat n + length (firstn (Z.to_nat copy) data))%nat by lia;
    rewrite blit_firstn; [reflexivity|lia].
Qed.

(** One round of the loop: it fails when the partition is full, and otherwise less than
    a block is left, nothing when it fits in the buffer. *)
Lemma write_round fuel ctx len data w pat n out :
  writable ctx w pat n out -> n < e -> data <> [] -> (length pat + S (length data) < S fuel)%nat ->
  (e * (Z.of_nat (total pat) + 1) <= Z.of_nat (length out + length data) /\
   exists ctx' w', write_data_loop (S fuel) ctx len data w = Some (-1, ctx', w')) \/
  exists data' ctx' w' n' out', write_data_loop (S fuel) ctx len data w = write_data_loop fuel ctx' len data' w' /\
    writable ctx' w' pat n' out' /\ n' < e /\ out' ++ data' = out ++ data /\ (data' = [] \/ n' = 0 /\ Z.of_nat (length data') < e) /\
    (n + Z.of_nat (length data) < e -> data' = []) /\ (length data' <= length data)%nat.
Proof.
  intros Hw Hn Hd Hf. pose proof erase_size_pos as He.
  destruct (collect_spec ctx w pat n out data Hw Hn Hd) as (d1 & ctx1 & n1 & out1 & Ec & Hw1 & Happ1 & Hcase & Hsmall).
  assert (Hl1 : (length out1 + length d1 = length out + length data)%nat) by (rewrite <- !length_app; congruence).
  assert (Hd1 : (length d1 <= length data)%nat).
  { unfold collect in Ec. destruct (_ || _); injection Ec as <- _; [rewrite length_skipn|]; lia. }
  destruct data as [|x data]; [congruence|]. cbn [write_data_loop]. rewrite Ec.
  pose proof Hw1 as (Hp1 & Hb1 & Hs1 & Hr1 & pre & suf & Hpat & Hpos & Hout1). rewrite Hp1, Hs1.
  destruct (Z.eqb_spec n1 e) as [->|Hne].
  - destruct (write_block_spec (S fuel) ctx1 w pat pre suf (w_buffer ctx1) Hp1 Hpat Hpos ltac:(lia) Hb1)
      as (r & ctx2 & w2 & -> & (Hp2 & Hb2 & Hs2) & Hc).
    destruct Hc as [[-> Hfull]|(-> & pre2 & suf2 & Hpat2 & Hpos2 & Hg)]; cbn [negb Z.eqb].
    { left. split; [|eauto]. rewrite Hout1, length_app, length_firstn in Hl1. lia. }
    assert (Hw2 : writable (with_stored ctx2 (w_buffer ctx2) 0) w2 pat 0 out1).
    { repeat split; cbn; try lia; try congruence. exists pre2, suf2. split; [exact Hpat2|]. split; [exact Hpos2|].
      cbn. rewrite Hg, concat_app. cbn [concat]. rewrite !app_nil_r, Hout1, firstn_all2 by lia. reflexivity. }
    destruct (write_blocks_spec (S (length d1)) (S fuel) _ d1 w2 pat out1 Hw2) as (ok & d3 & ctx3 & w3 & -> & Hc); [lia|nia|].
    destruct ok; [|left; split; [lia|eauto]]. destruct Hc as (out3 & Hw3 & Happ3 & Hl3 & Hm3). right.
    exists d3, ctx3, w3, 0, out3. split; [reflexivity|]. split; [exact Hw3|]. split; [lia|]. split; [congruence|]. split; [auto|].
    split; [intros Hs; destruct (Hsmall Hs); lia|lia].
  - cbn [negb Z.eqb]. destruct (decide (n1 = 0)) as [->|Hn0].
    + destruct (write_blocks_spec (S (length d1)) (S fuel) ctx1 d1 w pat out1 Hw1) as (ok & d3 & ctx3 & w3 & E3 & Hc); [lia|nia|].
      rewrite E3. destruct ok; [|left; split; [lia|eauto]]. destruct Hc as (out3 & Hw3 & Happ3 & Hl3 & Hm3). right.
      exists d3, ctx3, w3, 0, out3. split; [reflexivity|]. split; [exact Hw3|]. split; [lia|]. split; [congruence|]. split; [auto|].
      split; [|lia]. intros Hs. destruct (Hsmall Hs) as [-> _]. cbn [write_blocks] in E3. rewrite Hp1 in E3.
      replace (e <=? Z.of_nat (length [])) with false in E3 by (symmetry; apply Z.leb_gt; cbn; lia).
      rewrite andb_false_r in E3. congruence.
    + assert (d1 = []) as -> by (destruct Hcase as [|[|]]; congruence || lia). cbn [write_blocks]. rewrite Hp1, Hs1.
      replace (n1 =? 0) with false by (symmetry; apply Z.eqb_neq; lia). cbn [andb]. right.
      exists [], ctx1, w, n1, out1. split; [reflexivity|]. split; [exact Hw1|]. split; [lia|]. repeat split; auto.
Qed.

(** What writing [data] after [out] must give: [data] is appended, unless more than the
    good blocks would be full. *)
Definition appended (pat : list bool) (out data : list Z) (res : option (Z * MtdWriteContext * W)) : Prop :=
  exists r ctx' w', res = Some (r, ctx', w') /\
    if Z.of_nat (length out + length data) <? e * (Z.of_nat (total pat) + 1)
    then r = Z.of_nat (length data) /\ exists n', n' < e /\ writable ctx' w' pat n' (out ++ data)
    else r = -1.

Lemma appended_done pat out data ctx w n : writable ctx w pat n (out ++ data) -> n < e ->
  appended pat out data (Some (Z.of_nat (length data), ctx, w)).
Proof.
  intros Hw Hn. pose proof (writable_total _ _ _ _ _ Hw) as Ht. rewrite length_app in Ht. do 3 eexists. split; [reflexivity|].
  destruct (Z.ltb_spec (Z.of_nat (length out + length data)) (e * (Z.of_nat (total pat) + 1))); [|lia]. eauto.
Qed.

Lemma appended_full pat out data ctx w : e * (Z.of_nat (total pat) + 1) <= Z.of_nat (length out + length data) ->
  appended pat out data (Some (-1, ctx, w)).
Proof.
  intros Hle. do 3 eexists. split; [reflexivity|].
  destruct (Z.ltb_spec (Z.of_nat (length out + length data)) (e * (Z.of_nat (total pat) + 1))); [lia|reflexivity].
Qed.

Lemma mtd_write_data_spec fuel ctx data w pat n out :
  writable ctx w pat n out -> n < e -> (length pat + length data + 3 < fuel)%nat ->
  appended pat out data (mtd_write_data fuel ctx data w).
Proof.
  intros Hw Hn Hf. unfold mtd_write_data. set (len := Z.of_nat (length data)). destruct fuel as [|[|[|fuel]]]; [lia..|].
  destruct (decide (data = [])) as [E|Hd].
  { replace (write_data_loop _ _ _ _ _) with (Some (len, ctx, w)) by (rewrite E; reflexivity).
    eapply appended_done; [|exact Hn]. now rewrite E, app_nil_r. }
  destruct (write_round (S (S fuel)) ctx len data w pat n out Hw Hn Hd ltac:(lia))
    as [[Hle (? & ? & ->)]|(d1 & ctx1 & w1 & n1 & out1 & -> & Hw1 & Hn1 & Happ1 & Hcase & _ & Hl)]; [now apply appended_full|].
  destruct (decide (d1 = [])) as [->|Hd1].
  { cbn [write_data_loop]. eapply appended_done; [|exact Hn1]. now rewrite <- Happ1, app_nil_r. }
  destruct Hcase as [|[-> Hd1l]]; [congruence|].
  assert (Hlen1 : (length out1 + length d1 = length out + length data)%nat) by (rewrite <- !length_app; congruence).
  destruct (write_round (S fuel) ctx1 len d1 w1 pat 0 out1 Hw1 Hn1 Hd1 ltac:(lia))
    as [[Hle (? & ? & ->)]|(d2 & ctx2 & w2 & n2 & out2 & -> & Hw2 & Hn2 & Happ2 & _ & Hnil & _)]; [apply appended_full; lia|].
  rewrite (Hnil ltac:(lia)) in *. eapply appended_done; [|exact Hn2]. now rewrite <- Happ1, <- Happ2, app_nil_r.
Qed.

(** ** Closing *)

(** The zeros that fill the last block. *)
Definition padding (n : Z) : list Z := if 0 <? n then repeat 0 (Z.to_nat (e - n)) else [].

(** The pending bytes are written with zeros after them, when there is a good block. *)
Lemma flush_spec fuel ctx w pat n out :
  writable ctx w pat n out -> (length pat < fuel)%nat ->
  exists r ctx' w', flush fuel ctx w = Some (r, ctx', w') /\
    (if Z.of_nat (length out) <=? e * Z.of_nat (total pat) then r = 0 /\ writable ctx' w' pat 0 (out ++ padding n) else r = -1).
Proof.
  intros Hw Hf. pose proof Hw as (Hp & Hb & Hs & Hr & pre & suf & Hpat & Hpos & Hout).
  pose proof (positioned_bytes _ _ _ _ Hpos) as Hpre. pose proof erase_size_pos as He.
  unfold flush, padding. rewrite Hs, Hp. destruct (Z.ltb_spec 0 n) as [Hn|Hn].
  - set (buffer := blit _ _ _). assert (Hlr : (Z.to_nat n + length (repeat 0%Z (Z.to_nat e - Z.to_nat n)) = Z.to_nat e)%nat)
      by (rewrite repeat_length; lia).
    assert (Hbl : length buffer = Z.to_nat e) by (unfold buffer; rewrite blit_length; lia).
    assert (Hbuf : buffer = firstn (Z.to_nat n) (w_buffer ctx) ++ repeat 0 (Z.to_nat (e - n))).
    { rewrite Z2Nat.inj_sub by lia. etransitivity; [symmetry; apply firstn_all|]. rewrite Hbl. rewrite <- Hlr at 1. apply blit_firstn. lia. }
    destruct (write_block_spec fuel (with_stored ctx buffer n) w pat pre suf buffer Hp Hpat Hpos ltac:(lia) ltac:(lia))
      as (r & ctx' & w' & -> & (Hp' & Hb' & Hs') & Hc).
    assert (Hlo : Z.of_nat (length out) = Z.of_nat (length (concat (goods pre))) + n).
    { rewrite Hout, length_app, length_firstn. lia. }
    destruct Hc as [[-> Hfull]|(-> & pre' & suf' & Hpat' & Hpos' & Hg)]; cbn [negb Z.eqb]; do 3 eexists; (split; [reflexivity|]).
    + destruct (Z.leb_spec (Z.of_nat (length out)) (e * Z.of_nat (total pat))); [lia|reflexivity].
    + pose proof (positioned_bytes _ _ _ _ Hpos') as Hpre'. rewrite Hg, length_app in Hpre'. cbn [length] in Hpre'.
      assert (Ht : Z.of_nat (length (goods pre)) + 1 <= Z.of_nat (total pat)).
      { rewrite <- Hpat', pattern_total, goods_app, Hg, !length_app. cbn [length]. lia. }
      destruct (Z.leb_spec (Z.of_nat (length out)) (e * Z.of_nat (total pat))); [|nia]. split; [reflexivity|].
      repeat split; cbn; try lia; [rewrite Hp'; exact Hp|rewrite Hb'; cbn; lia|]. exists pre', suf'. split; [exact Hpat'|]. split; [exact Hpos'|].
      rewrite Hg, concat_app, Hout, Hbuf. cbn [concat firstn]. now rewrite !app_nil_r, <- app_assoc.
  - assert (n = 0) as -> by lia. do 3 eexists. split; [reflexivity|]. pose proof (writable_total _ _ _ _ _ Hw).
    destruct (Z.leb_spec (Z.of_nat (length out)) (e * Z.of_nat (total pat))); [|lia]. split; [reflexivity|]. now rewrite app_nil_r.
Qed.

Definition erased (bs : flash) : flash := map (fun b => match b with Some _ => Some (repeat 255 (Z.to_nat e)) | None => None end) bs.

Lemma erased_pattern bs : pattern (erased bs) = pattern bs.
Proof. unfold pattern, erased. rewrite map_map. apply map_ext. now intros [|]. Qed.

Lemma erase_loop_spec mid : forall pre suf w pos ecc,
  rep w (pre ++ mid ++ suf) pos ecc ->
  exists w' ecc', erase_loop (length mid) p (off (length pre)) w = (off (length pre + length mid), w') /\
    rep w' (pre ++ erased mid ++ suf) pos ecc'.
Proof.
  induction mid as [|b mid IH]; intros pre suf w pos ecc R; cbn [erase_loop length].
  { rewrite Nat.add_0_r. eauto. }
  assert (Hb : (pre ++ (b :: mid) ++ suf) !! length pre = Some b) by (cbn [app]; now rewrite list_lookup_middle).
  replace (off (length pre) + e) with (off (length (pre ++ [match b with Some _ => Some (repeat 255 (Z.to_nat e)) | None => None end])))
    by (rewrite length_app; cbn [length]; lia).
  replace (length pre + S (length mid))%nat with (length (pre ++ [b]) + length mid)%nat by (rewrite length_app; cbn [length]; lia).
  destruct b as [d|].
  - rewrite (rep_good _ _ _ _ _ _ R Hb). cbn [Z.ltb Z.compare].
    destruct (rep_erase _ _ _ _ _ _ R Hb) as (w1 & ecc1 & -> & R1).
    rewrite insert_app_r_alt, Nat.sub_diag in R1 by lia. cbn [insert list_insert app] in R1.
    rewrite (cons_middle _ pre), app_assoc in R1. destruct (IH _ _ _ _ _ R1) as (w2 & ecc2 & -> & R2).
    exists w2, ecc2. rewrite !length_app in *. split; [reflexivity|]. now rewrite <- app_assoc in R2.
  - pose proof (rep_bad _ _ _ _ _ R Hb) as Hg. destruct (Z.ltb_spec 0 (bad_block (off (length pre)) w).1); [|lia].
    cbn [app] in R. rewrite (cons_middle _ pre), app_assoc in R. destruct (IH _ _ _ _ _ R) as (w2 & ecc2 & -> & R2).
    exists w2, ecc2. split; [reflexivity|]. now rewrite <- app_assoc in R2.
Qed.

(** With nothing pending: no block is erased, or every block that follows. *)
Lemma erase_positioned fuel ctx w pre suf blocks :
  w_partition ctx = p -> stored ctx = 0 -> positioned ctx w pre suf -> blocks <= 0 ->
  exists w', let suf' := if blocks <? 0 then erased suf else suf in
    mtd_erase_blocks fuel ctx blocks w = Some (off (length pre + if blocks <? 0 then length suf else 0), ctx, w') /\
    positioned ctx w' pre suf'.
Proof.
  intros Hp Hs (Hbad & ecc & R) Hb. pose proof erase_size_pos as He. unfold mtd_erase_blocks, flush. rewrite Hs. cbn [Z.ltb Z.compare negb Z.eqb].
  rewrite (rep_pos _ _ _ _ R), Hp. destruct (Z.eqb_spec (off (length pre)) (-1)); [lia|].
  destruct (rep_wf _ _ _ _ R) as [Esz _]. pose proof size_small as Hsz. rewrite length_app in Esz.
  replace (i32 (u32 (size p - off (length pre)) / e)) with (Z.of_nat (length suf)).
  2:{ replace (size p - off (length pre)) with (off (length suf)) by lia. rewrite u32_small, Z.mul_comm, Z.div_mul by nia. rewrite i32_small; nia. }
  destruct (Z.ltb_spec blocks 0).
  - rewrite Z.ltb_irrefl, Nat2Z.id. destruct (erase_loop_spec suf pre [] w (off (length pre)) ecc) as (w' & ecc' & -> & R'); [now rewrite app_nil_r|].
    rewrite app_nil_r in R'. exists w'. split; [reflexivity|]. split; eauto.
  - assert (blocks = 0) as -> by lia. destruct (Z.ltb_spec (Z.of_nat (length suf)) 0); [lia|]. cbn [Z.to_nat erase_loop].
    exists w. rewrite Nat.add_0_r. split; [reflexivity|]. split; eauto.
Qed.

(** With nothing pending, closing leaves the blocks as they are. *)
Lemma close_positioned fuel ctx w pre suf :
  w_partition ctx = p -> stored ctx = 0 -> positioned ctx w pre suf ->
  exists w', mtd_write_close fuel ctx w = Some (0, w') /\ idle w' (pre ++ suf).
Proof.
  intros Hp Hs Hpos. unfold mtd_write_close. destruct (erase_positioned fuel ctx w pre suf 0 Hp Hs Hpos ltac:(lia)) as (w1 & -> & _ & ecc & R).
  pose proof erase_size_pos. cbn [Z.ltb Z.compare] in *. destruct (Z.eqb_spec (off (length pre + 0)) (-1)); [lia|].
  destruct (rep_close _ _ _ _ R) as (w2 & -> & Hi). exists w2. split; [reflexivity|exact Hi].
Qed.

Lemma erase_flushed fuel ctx w ctx' w' blocks : flush fuel ctx w = Some (0, ctx', w') -> stored ctx' = 0 ->
  mtd_erase_blocks fuel ctx blocks w = mtd_erase_blocks fuel ctx' blocks w'.
Proof. intros E Hs. unfold mtd_erase_blocks. rewrite E. unfold flush. now rewrite Hs. Qed.

Lemma mtd_write_close_spec fuel ctx w pat n out :
  writable ctx w pat n out -> (length pat < fuel)%nat ->
  exists r w', mtd_write_close fuel ctx w = Some (r, w') /\
    (if Z.of_nat (length out) <=? e * Z.of_nat (total pat)
     then r = 0 /\ exists bs tail, idle w' bs /\ pattern bs = pat /\ concat (goods bs) = out ++ padding n ++ tail
     else r = -1).
Proof.
  intros Hw Hf. destruct (flush_spec fuel ctx w pat n out Hw Hf) as (r & ctx1 & w1 & E & Hc).
  destruct (_ <=? _).
  - destruct Hc as [-> (Hp & _ & Hs & _ & pre & suf & Hpat & Hpos & Hout)].
    destruct (close_positioned fuel ctx1 w1 pre suf Hp Hs Hpos) as (w2 & E2 & Hi). exists 0, w2. split.
    { unfold mtd_write_close in *. now rewrite (erase_flushed fuel ctx w ctx1 w1 0 E Hs). }
    split; [reflexivity|]. exists (pre ++ suf), (concat (goods suf)). split; [exact Hi|]. split; [exact Hpat|].
    rewrite goods_app, concat_app, app_assoc, Hout. cbn [firstn Z.to_nat]. now rewrite app_nil_r.
  - subst r. unfold mtd_write_close, mtd_erase_blocks. rewrite E. cbn [negb Z.eqb]. destruct (close w1) as [c w2]. do 2 eexists.
    split; [reflexivity|]. now destruct (c =? 0).
Qed.

(** ** Opening *)

Lemma mtd_read_partition_spec w bs memory : idle w bs -> Z.of_nat (length memory) = e ->
  exists ctx w', mtd_read_partition p memory w = (Some ctx, w') /\ readable ctx w' bs (concat (goods bs)).
Proof.
  intros Hi Hm. unfold mtd_read_partition. destruct (rep_open w bs false Hi) as (w' & ecc & -> & R). pose proof erase_size_pos.
  do 2 eexists. split; [reflexivity|]. repeat split; cbn; try lia. exists (goods bs). split.
  - exists [], bs, ecc. cbn. rewrite Z.mul_0_r. auto.
  - rewrite skipn_all2 by lia. reflexivity.
Qed.

Lemma mtd_write_partition_fresh w bs memory : idle w bs -> exists w',
  mtd_write_partition p memory w = (Some (mkWrite p memory 0 [] 0), w') /\ positioned (mkWrite p memory 0 [] 0) w' [] bs.
Proof.
  intros Hi. unfold mtd_write_partition. destruct (rep_open w bs true Hi) as (w' & ecc & -> & R). exists w'. split; [reflexivity|].
  split; [reflexivity|]. exists ecc. cbn. now rewrite Z.mul_0_r.
Qed.

Lemma mtd_write_partition_spec w bs memory : idle w bs -> Z.of_nat (length memory) = e ->
  exists ctx w', mtd_write_partition p memory w = (Some ctx, w') /\ writable ctx w' (pattern bs) 0 [].
Proof.
  intros Hi Hm. destruct (mtd_write_partition_fresh w bs memory Hi) as (w' & -> & Hpos). pose proof erase_size_pos.
  do 2 eexists. split; [reflexivity|]. repeat split; cbn; try lia. exists [], bs. split; [reflexivity|]. split; [exact Hpos|reflexivity].
Qed.

Lemma readable_held ctx w bs rest : readable ctx w bs rest -> held w bs.
Proof. intros (_ & _ & _ & ds & (pre & suf & ecc & _ & _ & R) & _). do 2 eexists. exact R. Qed.

Lemma mtd_read_close_spec w bs : held w bs -> idle (mtd_read_close w) bs.
Proof. intros (pos & ecc & R). unfold mtd_read_close. now destruct (rep_close _ _ _ _ R) as (w' & -> & Hi). Qed.

Lemma mtd_partition_info_spec w bs : idle w bs -> exists write_size w',
  mtd_partition_info p w = (Some (size p, erase_size p, write_size), w') /\ idle w' bs.
Proof.
  intros Hi. unfold mtd_partition_info. destruct (rep_open w bs false Hi) as (w1 & ecc & -> & R).
  destruct (rep_info _ _ _ _ R) as [write_size ->]. destruct (rep_close _ _ _ _ R) as (w2 & -> & Hi2). eauto.
Qed.

(** ** The first good block *)

Lemma find_start_above offsets pos : Forall (fun o => pos < o) offsets -> find_start offsets e pos = pos.
Proof.
  destruct 1 as [|o offsets Ho _]; [reflexivity|]. cbn [find_start]. destruct (Z.eqb_spec o pos); [lia|].
  now destruct (Z.ltb_spec pos o); [|lia].
Qed.

Lemma bad_offsets_above bs : forall k pos, pos < off k -> Forall (fun o => pos < o) (bad_offsets k bs).
Proof.
  pose proof erase_size_pos. induction bs as [|[d|] bs IH]; intros k pos Hk; cbn [bad_offsets]; [constructor|apply IH; lia|].
  constructor; [exact Hk|]. apply IH. lia.
Qed.

Lemma find_start_spec bs : forall j k, (j <= k <= j + length bs)%nat ->
  exists m, find_start (bad_offsets j bs) e (off k) = off m /\ (k <= m <= j + length bs)%nat /\
    (forall i, (k <= i < m)%nat -> bs !! (i - j)%nat = Some None) /\
    ((m < j + length bs)%nat -> exists d, bs !! (m - j)%nat = Some (Some d)).
Proof.
  pose proof erase_size_pos as He. induction bs as [|b bs IH]; intros j k Hk; cbn [length] in *.
  { exists k. split; [reflexivity|]. repeat split; intros; lia. }
  assert (Hshift : forall i, (S j <= i)%nat -> (b :: bs) !! (i - j)%nat = bs !! (i - S j)%nat).
  { intros i Hi. now replace (i - j)%nat with (S (i - S j)) by lia. }
  assert (Hrec : forall k', (S j <= k' <= S j + length bs)%nat -> (k <= k')%nat -> (forall i, (k <= i < k')%nat -> (b :: bs) !! (i - j)%nat = Some None) ->
    find_start (bad_offsets j (b :: bs)) e (off k) = find_start (bad_offsets (S j) bs) e (off k') ->
    exists m, find_start (bad_offsets j (b :: bs)) e (off k) = off m /\ (k <= m <= j + S (length bs))%nat /\
    (forall i, (k <= i < m)%nat -> (b :: bs) !! (i - j)%nat = Some None) /\
    ((m < j + S (length bs))%nat -> exists d, (b :: bs) !! (m - j)%nat = Some (Some d))).
  { intros k' Hk' Hle Hrun ->. destruct (IH (S j) k' ltac:(lia)) as (m & -> & Hm & Hbad & Hgood). exists m. split; [reflexivity|].
    split; [lia|]. split.
    - intros i Hi. destruct (decide (i < k')%nat); [apply Hrun; lia|]. rewrite Hshift by lia. apply Hbad. lia.
    - intros Hlt. rewrite Hshift by lia. apply Hgood. lia. }
  destruct (decide (j = k)) as [<-|Hjk].
  - destruct b as [d|]; cbn [bad_offsets].
    + exists j. rewrite find_start_above by (apply bad_offsets_above; lia). repeat split; try lia.
      intros _. rewrite Nat.sub_diag. now exists d.
    + apply (Hrec (S j)); try lia.
      * intros i Hi. now replace (i - j)%nat with O by lia.
      * cbn [bad_offsets find_start]. rewrite Z.eqb_refl. f_equal. lia.
  - apply (Hrec k); try lia. destruct b as [d|]; cbn [bad_offsets find_start]; [reflexivity|].
    destruct (Z.eqb_spec (off j) (off k)); [nia|]. destruct (Z.ltb_spec (off k) (off j)); [nia|reflexivity].
Qed.
End Flash.

(** * A device in memory *)

(** The blocks, the offset and the count of errors; a bad block reads as zeros, with an
    error counted. *)
Record mem_flash := mkFlash { f_erase : Z; f_blocks : flash; f_pos : Z; f_ecc : Z }.

Definition block_at (f : mem_flash) (o : Z) : option (list Z) :=
  if (0 <=? o) && (o mod f_erase f =? 0) then mjoin (f_blocks f !! Z.to_nat (o / f_erase f)) else None.
Definition set_block (f : mem_flash) (o : Z) (d : list Z) (pos : Z) : mem_flash :=
  mkFlash (f_erase f) (<[Z.to_nat (o / f_erase f) := Some d]> (f_blocks f)) pos (f_ecc f).
Definition move (f : mem_flash) (pos ecc : Z) : mem_flash := mkFlash (f_erase f) (f_blocks f) pos ecc.

#[export] Instance mem_device : Device mem_flash := {
  open_mtd _ _ f := (true, move f 0 (f_ecc f));
  mem_info f := Some (f_erase f * Z.of_nat (length (f_blocks f)), f_erase f, f_erase f);
  seek_cur f := f_pos f;
  seek_set o f := (o, move f o (f_ecc f));
  read n f := match block_at f (f_pos f) with
              | Some d => (Z.of_nat n, firstn n d, move f (f_pos f + Z.of_nat n) (f_ecc f))
              | None => (Z.of_nat n, repeat 0 n, move f (f_pos f + Z.of_nat n) (f_ecc f + 1))
              end;
  write d f := match block_at f (f_pos f) with
               | Some old => (Z.of_nat (length d), set_block f (f_pos f) (blit old 0 d) (f_pos f + Z.of_nat (length d)))
               | None => (-1, f)
               end;
  ecc_failed f := Some (f_ecc f);
  bad_block o f := match block_at f o with Some _ => (0, 0) | None => (1, 0) end;
  erase o n f := match block_at f o with Some _ => (0, set_block f o (repeat 255 (Z.to_nat n)) (f_pos f)) | None => (-1, f) end;
  close f := (0, f)
}.

Section MemFlash.
Context (p : MtdPartition) (He : 0 < erase_size p < 2 ^ 31) (Hs : size p < 2 ^ 31).
Abbreviation e := (erase_size p).

Definition mem_wf (bs : flash) : Prop :=
  size p = e * Z.of_nat (length bs) /\ Forall (fun b => forall d, b = Some d -> Z.of_nat (length d) = e) bs.
Definition mem_rep (f : mem_flash) (bs : flash) (pos ecc : Z) : Prop := f = mkFlash e bs pos ecc /\ mem_wf bs.

Lemma block_at_index bs pos ecc i : block_at (mkFlash e bs pos ecc) (e * Z.of_nat i) = mjoin (bs !! i).
Proof.
  unfold block_at. cbn [f_erase f_blocks]. rewrite (proj2 (Z.leb_le 0 _)), Z.mul_comm, Z.mod_mul, Z.div_mul, Nat2Z.id by nia. reflexivity.
Qed.

Lemma set_block_index bs pos ecc i d pos' :
  set_block (mkFlash e bs pos ecc) (e * Z.of_nat i) d pos' = mkFlash e (<[i := Some d]> bs) pos' ecc.
Proof. unfold set_block. cbn [f_erase f_blocks f_ecc]. now rewrite Z.mul_comm, Z.div_mul, Nat2Z.id by lia. Qed.

Lemma mem_wf_insert bs i d : mem_wf bs -> Z.of_nat (length d) = e -> mem_wf (<[i := Some d]> bs).
Proof.
  intros [Hl Hf] Hd. split; [now rewrite length_insert|]. apply Forall_insert; [exact Hf|]. intros d' E. congruence.
Qed.

Lemma mem_wf_block bs i d : mem_wf bs -> bs !! i = Some (Some d) -> length d = Z.to_nat e.
Proof. intros [_ Hf] Hi. rewrite Forall_lookup in Hf. pose proof (Hf i _ Hi d eq_refl). lia. Qed.
End MemFlash.

(** It keeps the promises of a flash memory. *)
Definition mem_laws (p : MtdPartition) (He : 0 < erase_size p < 2 ^ 31) (Hs : size p < 2 ^ 31) : Flash mem_flash p.
Proof.
  refine {| rep := mem_rep p; idle f bs := exists pos ecc, mem_rep p f bs pos ecc; erase_size_pos := He; size_small := Hs |}.
  - intros w bs pos ecc [_ Hw]. exact Hw.
  - intros w bs writing (pos & ecc & -> & Hw). do 2 eexists. split; [reflexivity|]. now split.
  - intros w bs pos ecc R. exists w. split; [reflexivity|]. eauto.
  - intros w bs pos ecc [-> [Hsz _]]. eexists. cbn. now rewrite Hsz.
  - intros w bs pos ecc [-> _]. reflexivity.
  - intros w bs pos ecc [-> _]. reflexivity.
  - intros w bs pos ecc o [-> Hw] _. eexists. split; [reflexivity|]. now split.
  - intros w bs pos ecc o [-> Hw]. do 3 eexists. split; [reflexivity|]. split; [now left|]. now split.
  - intros w bs i ecc d [-> Hw] Hi. cbn [read mem_device f_pos]. rewrite block_at_index, Hi by exact He. cbn [mjoin option_join].
    assert (length d = Z.to_nat (erase_size p)) by (eapply mem_wf_block; eauto). rewrite firstn_all2, Z2Nat.id by lia. eexists. split; [reflexivity|]. split; [|exact Hw].
    unfold move. f_equal. cbn. lia.
  - intros w bs i ecc [-> Hw] Hi. cbn [read mem_device f_pos]. rewrite block_at_index, Hi by exact He. cbn [mjoin option_join].
    do 5 eexists. split; [reflexivity|]. split; [now split|]. lia.
  - intros w bs pos ecc i d [-> Hw] Hi. cbn [bad_block mem_device]. now rewrite block_at_index, Hi by exact He.
  - intros w bs pos ecc i [-> Hw] Hi. cbn [bad_block mem_device]. rewrite block_at_index, Hi by exact He. cbn. lia.
  - intros w bs pos ecc o [-> Hw] Ho. cbn [bad_block mem_device]. unfold block_at. cbn [f_erase f_blocks].
    destruct (Z.leb_spec 0 o), (Z.eqb_spec (o mod erase_size p) 0); try discriminate. cbn [andb].
    rewrite lookup_ge_None_2; [discriminate|]. destruct Hw as [Hsz _]. apply Nat2Z.inj_le. rewrite Z2Nat.id by (apply Z.div_pos; lia).
    apply Z.div_le_lower_bound; lia.
  - intros w bs pos ecc i d [-> Hw] Hi. cbn [erase mem_device]. rewrite block_at_index, Hi by exact He. cbn [mjoin option_join].
    do 2 eexists. split; [reflexivity|]. rewrite set_block_index by exact He. split; [reflexivity|]. apply mem_wf_insert; [exact Hw|].
    rewrite repeat_length. lia.
  - intros w bs ecc i d [-> Hw] Hi Hd. cbn [write mem_device f_pos]. rewrite block_at_index, Hi by exact He. cbn [mjoin option_join].
    rewrite set_block_index by exact He. do 2 eexists. split; [now rewrite Hd|].
    replace (blit _ 0 d) with d.
    + split; [f_equal; lia|]. now apply mem_wf_insert.
    + unfold blit. cbn [firstn app Nat.add]. rewrite skipn_all2, app_nil_r by (rewrite repeat_length; lia). reflexivity.
Defined.
