(* ===== verification/MtdScan.v ===== *)
(** The table of flash partitions: src/mtdutils/mtdutils.c ([mtd_scan_partitions] and
    [mtd_find_partition_by_name]).

    The table is filled from the text of [/proc/mtd].  A store outside the table, and a
    number that does not fit its type, are a [Fault]. *)
From stdpp Require Import list.
From S2P Require Import Prelude CString Mtd.

(** * [sscanf] with the format of a line *)

Definition is_space (c : Z) : bool := (c =? 32) || ((9 <=? c) && (c <=? 13)).
Fixpoint skip_space (s : list Z) : list Z :=
  match s with c :: t => if is_space c then skip_space t else s | [] => [] end.

(** Literal characters. *)
Fixpoint literal (l s : list Z) : option (list Z) :=
  match l, s with
  | [], _ => Some s
  | c :: l, d :: s => if c =? d then literal l s else None
  | _, [] => None
  end.

Definition digit (base c : Z) : option Z :=
  let v := if (48 <=? c) && (c <=? 57) then c - 48
           else if (97 <=? c) && (c <=? 102) then c - 87
           else if (65 <=? c) && (c <=? 70) then c - 55 else base in
  if v <? base then Some v else None.
Fixpoint digits (base acc : Z) (s : list Z) : Z * list Z :=
  match s with
  | c :: t => match digit base c with Some v => digits base (acc * base + v) t | None => (acc, s) end
  | [] => (acc, [])
  end.

(** A number: white space, a sign, a [0x] before hexadecimal digits, at least one
    digit. *)
Definition number (base : Z) (s : list Z) : option (Z * list Z) :=
  let s := skip_space s in
  let '(neg, s) := match s with c :: t => if c =? 45 then (true, t) else if c =? 43 then (false, t) else (false, s) | [] => (false, s) end in
  let s := match s with
           | z :: x :: t => if (base =? 16) && (z =? 48) && ((x =? 120) || (x =? 88)) then t else s
           | _ => s
           end in
  match s with
  | c :: _ => match digit base c with
              | Some _ => let '(v, s) := digits base 0 s in Some (if neg then - v else v, s)
              | None => None
              end
  | [] => None
  end.

(** [%d] into an [int] and [%x] into an [unsigned]. *)
Definition conv_d (s : list Z) : outcome (option (Z * list Z)) :=
  match number 10 s with
  | None => Ret None
  | Some (v, s) => if (- 2 ^ 31 <=? v) && (v <? 2 ^ 31) then Ret (Some (v, s)) else Fault
  end.
Definition conv_x (s : list Z) : outcome (option (Z * list Z)) :=
  match number 16 s with
  | None => Ret None
  | Some (v, s) => if Z.abs v <? 2 ^ 32 then Ret (Some (u32 v, s)) else Fault
  end.

Definition QUOTE : Z := 34.

(** The last conversion: at most [n] characters up to a quote. *)
Fixpoint until_quote (n : nat) (s : list Z) : list Z :=
  match n, s with
  | S n, c :: t => if c =? QUOTE then [] else c :: until_quote n t
  | _, _ => []
  end.

(** The four values, when there are four matches. *)
Definition sscanf_mtd (s : list Z) : outcome (option (Z * Z * Z * list Z)) :=
  match literal [109; 116; 100] s with
  | None => Ret None
  | Some s =>
      let! d := conv_d s in
      match d with
      | None => Ret None
      | Some (mtdnum, s) =>
          match literal [58] s with
          | None => Ret None
          | Some s =>
              let! x := conv_x (skip_space s) in
              match x with
              | None => Ret None
              | Some (mtdsize, s) =>
                  let! y := conv_x (skip_space s) in
                  match y with
                  | None => Ret None
                  | Some (mtderasesize, s) =>
                      match literal [QUOTE] (skip_space s) with
                      | None => Ret None
                      | Some s =>
                          match until_quote 63 s with
                          | [] => Ret None
                          | mtdname => Ret (Some (mtdnum, mtdsize, mtderasesize, mtdname))
                          end
                      end
                  end
              end
          end
      end
  end.

(** * The table *)

Record MtdState := mkState { partitions : option (list MtdPartition); partition_count : Z }.

Definition g_mtd_state : MtdState := mkState None (-1).

Definition nump : nat := 32.

(** A store into the table. *)
Definition store (parts : list MtdPartition) (i : Z) (p : MtdPartition) : outcome (list MtdPartition) :=
  if (0 <=? i) && (i <? Z.of_nat (length parts)) then Ret (<[Z.to_nat i := p]> parts) else Fault.

Fixpoint eat_line (bufp : list Z) : list Z :=
  match bufp with [] => [] | c :: t => if c =? 10 then t else eat_line t end.

(** The loop over the lines; memory for the names is taken to be there. *)
Fixpoint scan_lines (fuel : nat) (bufp : list Z) (parts : list MtdPartition) (count : Z) : M (list MtdPartition * Z) :=
  match fuel with
  | O => None
  | S fuel =>
      match bufp with
      | [] => ret (parts, count)
      | _ =>
          do! matches := lift (sscanf_mtd (c_string_n (length bufp) bufp)) in
          match matches with
          | Some (mtdnum, mtdsize, mtderasesize, mtdname) =>
              do! parts := lift (store parts mtdnum (mkPartition mtdnum mtdsize mtderasesize (Some mtdname))) in
              scan_lines fuel (eat_line bufp) parts (count + 1)
          | None => scan_lines fuel (eat_line bufp) parts count
          end
      end
  end.

(** An entry as it is before a scan: its sizes stay. *)
Definition cleared (p : MtdPartition) : MtdPartition := mkPartition (-1) (size p) (erase_size p) None.

(** The scan; [proc] is what reading [/proc/mtd] gives, [None] when it cannot be opened
    or read.  At most 2047 bytes are read.  The result and the new table. *)
Definition mtd_scan_partitions (fuel : nat) (proc : option (list Z)) (st : MtdState) : M (Z * MtdState) :=
  let parts := match partitions st with Some parts => parts | None => repeat (mkPartition 0 0 0 None) nump end in
  let parts := map cleared parts in
  match proc with
  | None => ret (-1, mkState (Some parts) (-1))
  | Some text =>
      do! r := scan_lines fuel (firstn 2047 text) parts 0 in
      let '(parts, count) := r in ret (count, mkState (Some parts) count)
  end.

Definition matches_name (wanted : list Z) (p : MtdPartition) : bool :=
  match name p with Some s => (0 <=? device_index p) && (strcmp_chars s wanted =? 0) | None => false end.

(** The first entry with the name. *)
Definition mtd_find_partition_by_name (wanted : list Z) (st : MtdState) : option MtdPartition :=
  match partitions st with None => None | Some parts => List.find (matches_name wanted) parts end.

Example scan_example :
  mtd_scan_partitions 10 (Some [100; 101; 118; 10;  109; 116; 100; 52; 58; 32; 48; 52; 48; 48; 32; 48; 48; 50; 48; 32; 34; 115; 121; 34; 10]) g_mtd_state
  = ret (1, mkState (Some (<[4%nat := mkPartition 4 1024 32 (Some [115; 121])]> (repeat (mkPartition (-1) 0 0 None) 32))) 1).
Proof. reflexivity. Qed.

(** * Lines of the file *)

(** A number with [n] digits in a base, most significant first, as it is printed. *)
Definition digit_char (v : Z) : Z := if v <? 10 then 48 + v else 87 + v.
Fixpoint printed (base : Z) (n : nat) (z : Z) : list Z :=
  match n with O => [] | S n => printed base n (z / base) ++ [digit_char (z mod base)] end.

(** The entry of a partition, and the line that the kernel prints for it; the device
    number takes one or two digits. *)
Record entry := mkEntry { index : Z; e_size : Z; e_erase : Z; e_name : list Z }.
Definition index_digits (i : Z) : nat := if i <? 10 then 1 else 2.
Definition line (x : entry) : list Z :=
  [109; 116; 100] ++ printed 10 (index_digits (index x)) (index x) ++ [58; 32] ++ printed 16 8 (e_size x) ++ [32] ++
  printed 16 8 (e_erase x) ++ [32; QUOTE] ++ e_name x ++ [QUOTE; 10].
Definition of_entry (x : entry) : MtdPartition := mkPartition (index x) (e_size x) (e_erase x) (Some (e_name x)).

(** Names are not empty, not too long, and have no quote and no newline in them. *)
Definition name_ok (s : list Z) : Prop := (0 < length s <= 63)%nat /\ Forall (fun c => c <> 0 /\ c <> 10 /\ c <> QUOTE) s.
Definition entry_ok (x : entry) : Prop :=
  0 <= index x < 32 /\ word 32 (e_size x) /\ word 32 (e_erase x) /\ name_ok (e_name x).

Lemma digit_printed base v : base = 10 \/ base = 16 -> 0 <= v < base -> digit base (digit_char v) = Some v.
Proof.
  intros Hb Hv. unfold digit, digit_char. destruct (Z.ltb_spec v 10).
  - rewrite (proj2 (Z.leb_le 48 (48 + v))), (proj2 (Z.leb_le (48 + v) 57)) by lia. cbn [andb].
    replace (48 + v - 48) with v by lia. now rewrite (proj2 (Z.ltb_lt v base)) by lia.
  - rewrite (proj2 (Z.leb_gt (87 + v) 57)) by lia. rewrite andb_false_r.
    rewrite (proj2 (Z.leb_le 97 (87 + v))), (proj2 (Z.leb_le (87 + v) 102)) by lia. cbn [andb].
    replace (87 + v - 87) with v by lia. now rewrite (proj2 (Z.ltb_lt v base)) by lia.
Qed.

Lemma digits_printed base n : forall z acc s,
  base = 10 \/ base = 16 -> 0 <= z < base ^ Z.of_nat n ->
  digits base acc (printed base n z ++ s) = digits base (acc * base ^ Z.of_nat n + z) s.
Proof.
  induction n as [|n IH]; intros z acc s Hb Hz; cbn [printed app].
  - change (base ^ Z.of_nat 0) with 1 in *. f_equal. lia.
  - rewrite Nat2Z.inj_succ, Z.pow_succ_r in * by lia. pose proof (Z.div_mod z base ltac:(lia)). pose proof (Z.mod_pos_bound z base ltac:(lia)).
    rewrite <- app_assoc, IH; [|exact Hb|split; [apply Z.div_pos; lia|apply Z.div_lt_upper_bound; lia]].
    cbn [app digits]. rewrite digit_printed by lia. f_equal. nia.
Qed.

Definition digit_like (base c : Z) : Prop := (48 <= c <= 57 \/ 97 <= c <= 102) /\ exists v, digit base c = Some v.

Lemma printed_digits base n : forall z, base = 10 \/ base = 16 -> Forall (digit_like base) (printed base n z).
Proof.
  induction n as [|n IH]; intros z Hb; cbn [printed]; [constructor|]. apply Forall_app. split; [now apply IH|]. constructor; [|constructor].
  pose proof (Z.mod_pos_bound z base ltac:(lia)). split; [|exists (z mod base); now apply digit_printed].
  unfold digit_char. destruct (Z.ltb_spec (z mod base) 10); lia.
Qed.

Lemma printed_length base n : forall z, length (printed base n z) = n.
Proof. induction n as [|n IH]; intros z; cbn [printed]; [reflexivity|]. rewrite length_app, IH. cbn. lia. Qed.

(** A delimiter ends a number. *)
Definition delim (base : Z) (s : list Z) : Prop := match s with [] => True | c :: _ => digit base c = None /\ c <> 120 /\ c <> 88 end.

Lemma skip_space_digit base c s : digit_like base c -> skip_space (c :: s) = c :: s.
Proof.
  intros [Hc _]. cbn [skip_space]. unfold is_space.
  rewrite (proj2 (Z.eqb_neq c 32)), (proj2 (Z.leb_gt c 13)), andb_false_r by lia. reflexivity.
Qed.

Lemma number_printed base n z s :
  base = 10 \/ base = 16 -> 0 <= z < base ^ Z.of_nat (S n) -> delim base s ->
  number base (printed base (S n) z ++ s) = Some (z, s).
Proof.
  intros Hb Hz Hs. pose proof (printed_digits base (S n) z Hb) as Hd. pose proof (printed_length base (S n) z) as Hl.
  pose proof (digits_printed base (S n) z 0 s Hb Hz) as Hv. destruct (printed base (S n) z) as [|c t]; [discriminate|].
  apply Forall_cons in Hd as [Hc Ht]. cbn [app] in *. unfold number. rewrite (skip_space_digit base) by exact Hc. destruct Hc as [Hc [v Hdig]].
  rewrite (proj2 (Z.eqb_neq c 45)), (proj2 (Z.eqb_neq c 43)) by lia.
  assert (Hx : match t ++ s with x :: t' => (x =? 120) || (x =? 88) = false | [] => True end).
  { destruct Ht as [|x t Hx _]; cbn [app].
    - destruct s as [|x s]; [exact I|]. destruct Hs as (_ & H1 & H2). now rewrite (proj2 (Z.eqb_neq x 120)), (proj2 (Z.eqb_neq x 88)).
    - destruct Hx as [Hx _]. now rewrite (proj2 (Z.eqb_neq x 120)), (proj2 (Z.eqb_neq x 88)) by lia. }
  assert (Hrest : forall u, match digit base c with Some _ => let '(v, s0) := digits base 0 (c :: t ++ s) in Some (v, s0) | None => u end = Some (z, s)).
  { intros u. rewrite Hdig, Hv. replace (0 * base ^ Z.of_nat (S n) + z) with z by lia.
    destruct s as [|d s]; cbn [digits]; [reflexivity|]. destruct Hs as (-> & _). reflexivity. }
  destruct (t ++ s) as [|x u]; [apply Hrest|]. rewrite Hx, andb_false_r. apply Hrest.
Qed.

Lemma until_quote_name n : forall s t, (length s <= n)%nat -> Forall (fun c => c <> 0 /\ c <> 10 /\ c <> QUOTE) s ->
  until_quote n (s ++ QUOTE :: t) = s.
Proof.
  induction n as [|n IH]; intros s t Hl Hs; [destruct s; [reflexivity|cbn in Hl; lia]|].
  destruct Hs as [|c s (_ & _ & Hq) Hs]; cbn [app until_quote]; [now rewrite Z.eqb_refl|].
  rewrite (proj2 (Z.eqb_neq c QUOTE)) by exact Hq. cbn [length] in Hl. now rewrite IH by (lia || assumption).
Qed.

Lemma conv_x_printed z s : word 32 z -> delim 16 s -> conv_x (skip_space (printed 16 8 z ++ s)) = Ret (Some (z, s)).
Proof.
  intros Hz Hs. pose proof (printed_digits 16 8 z (or_intror eq_refl)) as Hd.
  assert (E : skip_space (printed 16 8 z ++ s) = printed 16 8 z ++ s).
  { pose proof (printed_length 16 8 z) as Hl. destruct Hd as [|c t Hc _]; [discriminate|]. now apply (skip_space_digit 16). }
  unfold conv_x, word in *. rewrite E, (number_printed 16 7 z s) by (auto; exact Hz).
  rewrite Z.abs_eq, (proj2 (Z.ltb_lt z _)), u32_small by lia. reflexivity.
Qed.

Lemma conv_d_printed i s : 0 <= i < 100 -> delim 10 s -> conv_d (printed 10 (index_digits i) i ++ s) = Ret (Some (i, s)).
Proof.
  intros Hi Hs. unfold conv_d. replace (number 10 _) with (Some (i, s)).
  - now rewrite (proj2 (Z.leb_le _ _)), (proj2 (Z.ltb_lt _ _)) by lia.
  - unfold index_digits. destruct (Z.ltb_spec i 10); symmetry; apply number_printed; auto; cbn; lia.
Qed.

Lemma literal_app l s : literal l (l ++ s) = Some s.
Proof. induction l as [|c l IH]; [reflexivity|]. cbn [app literal]. now rewrite Z.eqb_refl. Qed.

Lemma skip_space_blank s : skip_space ([32] ++ s) = skip_space s.
Proof. reflexivity. Qed.

Lemma sscanf_line x t : entry_ok x -> sscanf_mtd (line x ++ t) = Ret (Some (index x, e_size x, e_erase x, e_name x)).
Proof.
  intros (Hi & Hs & He & Hl & Hn).
  replace (line x ++ t) with ([109; 116; 100] ++ printed 10 (index_digits (index x)) (index x) ++ [58] ++ [32] ++ printed 16 8 (e_size x) ++
    [32] ++ printed 16 8 (e_erase x) ++ [32] ++ [QUOTE] ++ e_name x ++ [QUOTE] ++ [10] ++ t) by (unfold line; now rewrite <- !app_assoc).
  unfold sscanf_mtd. rewrite literal_app, conv_d_printed by (try lia; repeat split; discriminate). cbn [bind].
  rewrite literal_app, skip_space_blank, conv_x_printed by (try assumption; repeat split; discriminate). cbn [bind].
  rewrite skip_space_blank, conv_x_printed by (try assumption; repeat split; discriminate). cbn [bind].
  rewrite skip_space_blank. change (skip_space ([QUOTE] ++ ?s)) with ([QUOTE] ++ s). rewrite literal_app.
  change ([QUOTE] ++ [10] ++ t) with (QUOTE :: [10] ++ t). rewrite until_quote_name by (lia || assumption).
  destruct (e_name x); [cbn in Hl; lia|reflexivity].
Qed.

Lemma c_string_n_app a : forall b, Forall (fun c => c <> 0) a -> c_string_n (length (a ++ b)) (a ++ b) = a ++ c_string_n (length b) b.
Proof.
  intros b H. induction H as [|c a Hc _ IH]; [reflexivity|]. cbn [app length c_string_n]. unfold is_nul.
  now rewrite (proj2 (Z.eqb_neq c 0)), IH by exact Hc.
Qed.

Lemma eat_line_app a t : Forall (fun c => c <> 10) a -> eat_line (a ++ 10 :: t) = t.
Proof.
  induction 1 as [|c a Hc _ IH]; [reflexivity|]. cbn [app eat_line]. now rewrite (proj2 (Z.eqb_neq c 10)) by exact Hc.
Qed.

Lemma line_split x : entry_ok x -> exists a, line x = a ++ [10] /\ Forall (fun c => c <> 0 /\ c <> 10) a.
Proof.
  intros (_ & _ & _ & _ & Hn).
  assert (Hp : forall base n z, base = 10 \/ base = 16 -> Forall (fun c => c <> 0 /\ c <> 10) (printed base n z)).
  { intros base n z Hb. eapply Forall_impl; [now apply printed_digits|]. unfold digit_like. cbv beta. intros. lia. }
  exists ([109; 116; 100] ++ printed 10 (index_digits (index x)) (index x) ++ [58; 32] ++ printed 16 8 (e_size x) ++ [32] ++
    printed 16 8 (e_erase x) ++ [32; QUOTE] ++ e_name x ++ [QUOTE]). split; [unfold line; now rewrite <- !app_assoc|].
  rewrite !Forall_app. repeat split; auto; try (repeat constructor; unfold QUOTE; lia).
  eapply Forall_impl; [exact Hn|]. cbv beta. tauto.
Qed.

(** * The scan of a file *)

Definition fill (entries : list entry) (parts : list MtdPartition) : list MtdPartition :=
  foldl (fun parts x => <[Z.to_nat (index x) := of_entry x]> parts) parts entries.

Lemma scan_lines_spec entries : forall fuel parts count,
  Forall entry_ok entries -> length parts = nump -> (length entries < fuel)%nat ->
  scan_lines fuel (concat (map line entries)) parts count = ret (fill entries parts, count + Z.of_nat (length entries)).
Proof.
  induction entries as [|x entries IH]; intros [|fuel] parts count Hok Hl Hf; cbn [length] in Hf; try lia.
  { cbn. now rewrite Z.add_0_r. }
  apply Forall_cons in Hok as [Hx Hok]. cbn [map concat fill foldl]. destruct (line_split x Hx) as (a & Ea & Ha).
  pose proof (sscanf_line x (c_string_n (length (concat (map line entries))) (concat (map line entries))) Hx) as Hscan.
  rewrite <- c_string_n_app in Hscan.
  2:{ rewrite Ea, Forall_app. split; [eapply Forall_impl; [exact Ha|cbv beta; tauto]|repeat constructor; lia]. }
  cbn [scan_lines]. destruct (line x ++ _) as [|c s] eqn:E; [rewrite Ea in E; destruct a; discriminate|]. rewrite Hscan.
  cbn [bindM lift]. unfold store. rewrite Hl. unfold entry_ok, nump in *.
  rewrite (proj2 (Z.leb_le 0 _)), (proj2 (Z.ltb_lt (index x) _)) by (cbn; lia). cbn [andb bindM lift].
  replace (eat_line (c :: s)) with (concat (map line entries)).
  2:{ rewrite <- E, Ea, <- app_assoc. symmetry. apply eat_line_app. eapply Forall_impl; [exact Ha|cbv beta; tauto]. }
  change (mkPartition (index x) (e_size x) (e_erase x) (Some (e_name x))) with (of_entry x).
  rewrite IH; [|exact Hok|now rewrite length_insert|lia].
  cbn [length]. rewrite Nat2Z.inj_succ, <- Z.add_assoc, Z.add_1_l. reflexivity.
Qed.

(** The names of the columns. *)
Definition header : list Z :=
  [100; 101; 118; 58; 32; 32; 32; 32; 115; 105; 122; 101; 32; 32; 32; 101; 114; 97; 115; 101; 115; 105; 122; 101; 32; 32; 110; 97; 109; 101; 10].
Definition proc_mtd (entries : list entry) : list Z := header ++ concat (map line entries).

(** The entries that a scan finds, and what looking for a name in them gives. *)
Definition table (entries : list entry) (st : MtdState) : Prop :=
  exists parts, partitions st = Some parts /\ length parts = nump /\
    (forall x, In x entries -> parts !! Z.to_nat (index x) = Some (of_entry x)) /\
    (forall i q, parts !! i = Some q -> device_index q = -1 /\ name q = None \/ exists x, In x entries /\ Z.to_nat (index x) = i /\ q = of_entry x).

Definition state_ok (st : MtdState) : Prop := match partitions st with Some parts => length parts = nump | None => True end.

Lemma fill_cons x entries parts : fill (x :: entries) parts = fill entries (<[Z.to_nat (index x) := of_entry x]> parts).
Proof. reflexivity. Qed.

Lemma fill_length entries : forall parts, length (fill entries parts) = length parts.
Proof. induction entries as [|x entries IH]; intros parts; [reflexivity|]. rewrite fill_cons, IH. apply length_insert. Qed.

Lemma fill_other entries : forall parts i, ~ In i (map (fun x => Z.to_nat (index x)) entries) -> fill entries parts !! i = parts !! i.
Proof.
  induction entries as [|x entries IH]; intros parts i Hi; [reflexivity|]. rewrite fill_cons. cbn [map In] in Hi.
  rewrite IH by tauto. apply list_lookup_insert_ne. tauto.
Qed.

Lemma fill_in entries : forall parts x, Forall entry_ok entries -> NoDup (map index entries) -> length parts = nump -> In x entries ->
  fill entries parts !! Z.to_nat (index x) = Some (of_entry x).
Proof.
  induction entries as [|y entries IH]; intros parts x Hok Hnd Hl Hin; [destruct Hin|]. apply Forall_cons in Hok as [Hy Hok].
  rewrite fill_cons. cbn [map] in Hnd. apply NoDup_cons in Hnd as [Hni Hnd]. destruct Hin as [->|Hin].
  - rewrite fill_other.
    + apply list_lookup_insert_eq. destruct Hy as (Hi & _). unfold nump in Hl. lia.
    + intros (z & Ez & Hz)%in_map_iff. apply Hni. apply list_elem_of_In, in_map_iff. exists z. split; [|exact Hz].
      rewrite List.Forall_forall in Hok. destruct (Hok z Hz) as (Hzi & _). destruct Hy as (Hi & _). lia.
  - apply IH; auto. now rewrite length_insert.
Qed.

Lemma fill_table entries parts count : Forall entry_ok entries -> NoDup (map index entries) -> length parts = nump ->
  Forall (fun q => device_index q = -1 /\ name q = None) parts -> table entries (mkState (Some (fill entries parts)) count).
Proof.
  intros Hok Hnd Hl Hblank. eexists. split; [reflexivity|]. split; [now rewrite fill_length|]. split.
  { intros x Hx. now apply fill_in. }
  intros i q Hq. destruct (in_dec Nat.eq_dec i (map (fun x => Z.to_nat (index x)) entries)) as [Hin|Hout].
  - apply in_map_iff in Hin as (x & <- & Hx). rewrite fill_in in Hq by assumption. injection Hq as <-. right. eauto.
  - left. rewrite fill_other in Hq by exact Hout. rewrite Forall_lookup in Hblank. eapply Hblank, Hq.
Qed.

Lemma mtd_scan_partitions_spec fuel entries st :
  state_ok st -> Forall entry_ok entries -> NoDup (map index entries) -> (length (proc_mtd entries) <= 2047)%nat -> (length entries + 1 < fuel)%nat ->
  exists st', mtd_scan_partitions fuel (Some (proc_mtd entries)) st = ret (Z.of_nat (length entries), st') /\ table entries st' /\ state_ok st'.
Proof.
  intros Hst Hok Hnd Hlen Hf. unfold mtd_scan_partitions. set (parts := map cleared _). rewrite firstn_all2 by lia.
  assert (Hl : length parts = nump).
  { unfold parts, state_ok in *. rewrite length_map. destruct (partitions st); [exact Hst|apply repeat_length]. }
  destruct fuel as [|fuel]; [lia|]. unfold proc_mtd.
  assert (Hhead : scan_lines (S fuel) (header ++ concat (map line entries)) parts 0 = scan_lines fuel (concat (map line entries)) parts 0).
  { reflexivity. }
  rewrite Hhead, scan_lines_spec by (assumption || lia). cbn [bindM ret]. eexists. split; [reflexivity|]. split.
  - apply fill_table; try assumption. apply List.Forall_forall. intros q (p & <- & _)%in_map_iff. auto.
  - cbn. now rewrite fill_length.
Qed.

(** * Names *)

Lemma name_chars s : name_ok s -> chars s.
Proof. intros (_ & Hn). eapply Forall_impl; [exact Hn|]. cbv beta. tauto. Qed.

Lemma matches_entry wanted x : entry_ok x -> chars wanted -> matches_name wanted (of_entry x) = true <-> e_name x = wanted.
Proof.
  intros (Hi & _ & _ & Hn) Hw. unfold matches_name. cbn [of_entry name device_index]. rewrite (proj2 (Z.leb_le 0 _)) by lia.
  cbn [andb]. rewrite Z.eqb_eq. apply strcmp_chars_eq; [now apply name_chars|exact Hw].
Qed.

(** What a lookup finds is an entry of the name, and it finds one if there is one. *)
Lemma find_sound entries st wanted q : Forall entry_ok entries -> table entries st -> chars wanted ->
  mtd_find_partition_by_name wanted st = Some q -> exists x, In x entries /\ e_name x = wanted /\ q = of_entry x.
Proof.
  intros Hok (parts & Hp & _ & _ & Hall) Hw. unfold mtd_find_partition_by_name. rewrite Hp. intros (Hin & Hm)%find_some.
  apply list_elem_of_In, list_elem_of_lookup in Hin as [i Hi].
  destruct (Hall i q Hi) as [[_ Hn]|(x & Hx & _ & ->)]; [unfold matches_name in Hm; now rewrite Hn in Hm|].
  exists x. split; [exact Hx|]. split; [|reflexivity]. rewrite List.Forall_forall in Hok. apply matches_entry; auto.
Qed.

Lemma find_complete entries st x : Forall entry_ok entries -> table entries st -> In x entries ->
  exists q, mtd_find_partition_by_name (e_name x) st = Some q.
Proof.
  intros Hok (parts & Hp & _ & Hin & _) Hx. unfold mtd_find_partition_by_name. rewrite Hp.
  destruct (List.find _ parts) as [q|] eqn:E; [eauto|]. exfalso. rewrite List.Forall_forall in Hok. pose proof (Hok x Hx) as Hxo.
  assert (Hm : matches_name (e_name x) (of_entry x) = true) by (apply matches_entry; auto; apply name_chars, Hxo).
  pose proof (find_none _ _ E (of_entry x)) as Hn. rewrite Hn in Hm; [discriminate|].
  apply list_elem_of_In, list_elem_of_lookup. eauto.
Qed.

Lemma entry_unique entries x y : NoDup (map e_name entries) -> In x entries -> In y entries -> e_name x = e_name y -> x = y.
Proof.
  induction entries as [|z entries IH]; intros Hnd Hx Hy E; [destruct Hx|]. cbn [map] in Hnd. apply NoDup_cons in Hnd as [Hz Hnd].
  rewrite list_elem_of_In, in_map_iff in Hz. destruct Hx as [->|Hx], Hy as [->|Hy]; auto; exfalso; apply Hz; eauto.
Qed.

(** Scanning a partition table the kernel prints (at most 32 partitions with
    different numbers and names, the text at most 2047 bytes) ends, returns the number
    of partitions, and looking up a name afterwards gives the partition of that name
    with its number and sizes, and nothing for any other name; whatever the table held
    before. *)
Theorem scan_then_find fuel entries st :
  state_ok st -> Forall entry_ok entries -> NoDup (map index entries) -> NoDup (map e_name entries) ->
  (length (proc_mtd entries) <= 2047)%nat -> (length entries + 1 < fuel)%nat ->
  exists st', mtd_scan_partitions fuel (Some (proc_mtd entries)) st = ret (Z.of_nat (length entries), st') /\
    (forall x, In x entries -> mtd_find_partition_by_name (e_name x) st' = Some (of_entry x)) /\
    (forall wanted, chars wanted -> ~ In wanted (map e_name entries) -> mtd_find_partition_by_name wanted st' = None).
Proof.
  intros Hst Hok Hi Hn Hlen Hf. destruct (mtd_scan_partitions_spec fuel entries st Hst Hok Hi Hlen Hf) as (st' & -> & Ht & _).
  exists st'. split; [reflexivity|]. split.
  - intros x Hx. destruct (find_complete entries st' x Hok Ht Hx) as [q Hq]. rewrite Hq.
    assert (Hc : chars (e_name x)) by (rewrite List.Forall_forall in Hok; apply name_chars, Hok, Hx).
    destruct (find_sound _ _ _ _ Hok Ht Hc Hq) as (y & Hy & Ey & ->). now rewrite (entry_unique entries y x).
  - intros wanted Hw Hnot. destruct (mtd_find_partition_by_name wanted st') as [q|] eqn:Hq; [|reflexivity]. exfalso. apply Hnot.
    destruct (find_sound _ _ _ _ Hok Ht Hw Hq) as (y & Hy & Ey & _). apply in_map_iff. eauto.
Qed.

Definition example_entries : list entry :=
  [mkEntry 0 524288 131072 [98; 111; 111; 116]; mkEntry 12 67108864 131072 [115; 121; 115; 116; 101; 109]].

Example example_entries_ok : Forall entry_ok example_entries.
Proof. unfold example_entries, entry_ok, name_ok, word, QUOTE. repeat constructor; cbn; lia. Qed.

Lemma scan_then_find_witness :
  exists st', mtd_scan_partitions 4 (Some (proc_mtd example_entries)) g_mtd_state = ret (2, st') /\
    mtd_find_partition_by_name [115; 121; 115; 116; 101; 109] st' = Some (mkPartition 12 67108864 131072 (Some [115; 121; 115; 116; 101; 109])) /\
    mtd_find_partition_by_name [115; 121] st' = None.
Proof.
  destruct (scan_then_find 4 example_entries g_mtd_state I example_entries_ok) as (st' & E & Hin & Hout).
  - apply (bool_decide_unpack _). vm_compute. exact I.
  - apply (bool_decide_unpack _). vm_compute. exact I.
  - apply Nat.leb_le. reflexivity.
  - cbn. lia.
  - exists st'. split; [exact E|]. split; [apply (Hin (mkEntry 12 67108864 131072 [115; 121; 115; 116; 101; 109])); cbn; auto|].
    apply Hout; [repeat constructor; lia|]. cbn. intros [|[|[]]]; discriminate.
Defined.

(** The number of a partition is used as an index without a check: a table of 33
    partitions, or a negative number, is a store outside the table. *)
Lemma scan_overflows :
  mtd_scan_partitions 3 (Some (header ++ line (mkEntry 32 131072 131072 [120]))) g_mtd_state = Some Fault /\
  mtd_scan_partitions 3 (Some [109; 116; 100; 45; 49; 58; 32; 49; 32; 49; 32; 34; 120; 34; 10]) g_mtd_state = Some Fault.
Proof. split; reflexivity. Qed.
