(* ===== verification/MtdStream.v ===== *)
(** A flash partition as a stream of bytes: sequences of the operations of
    src/mtdutils/mtdutils.c on a device whose bad blocks are skipped. *)
From stdpp Require Import list.
From S2P Require Import Prelude Mtd.

Section Sequences.
Context {W : Type} `{Device W} (fuel : nat).

(** Calls of [mtd_write_data], up to the first that does not write everything. *)
Fixpoint write_chunks (ctx : MtdWriteContext) (chunks : list (list Z)) (w : W) : option (bool * MtdWriteContext * W) :=
  match chunks with
  | [] => Some (true, ctx, w)
  | c :: chunks =>
      match mtd_write_data fuel ctx c w with
      | None => None
      | Some (r, ctx, w) => if r =? Z.of_nat (length c) then write_chunks ctx chunks w else Some (false, ctx, w)
      end
  end.

(** Calls of [mtd_read_data] and what each has read, up to the first error. *)
Fixpoint read_chunks (ctx : MtdReadContext) (lens : list nat) (w : W) : option (list (list Z) * MtdReadContext * W) :=
  match lens with
  | [] => Some ([], ctx, w)
  | n :: lens =>
      match mtd_read_data fuel ctx (Z.of_nat n) w with
      | None => None
      | Some (r, d, ctx, w) =>
          if r <? 0 then Some ([], ctx, w)
          else match read_chunks ctx lens w with None => None | Some (ds, ctx, w) => Some (firstn (Z.to_nat r) d :: ds, ctx, w) end
      end
  end.
End Sequences.

Section Stream.
Context {W : Type} `{Flash W p} (fuel : nat).
Abbreviation e := (erase_size p).

Lemma write_chunks_spec chunks : forall ctx w pat n out,
  writable ctx w pat n out -> n < e -> (length pat + length (concat chunks) + 3 < fuel)%nat ->
  Z.of_nat (length out + length (concat chunks)) < e * (Z.of_nat (total pat) + 1) ->
  exists ctx' w' n', write_chunks fuel ctx chunks w = Some (true, ctx', w') /\ writable ctx' w' pat n' (out ++ concat chunks) /\ n' < e.
Proof.
  induction chunks as [|c chunks IH]; intros ctx w pat n out Hw Hn Hf Hfit; cbn [write_chunks concat] in *.
  { rewrite app_nil_r. eauto 6. }
  rewrite length_app in *. destruct (mtd_write_data_spec fuel ctx c w pat n out Hw Hn ltac:(lia)) as (r & ctx1 & w1 & -> & Hc).
  rewrite (proj2 (Z.ltb_lt _ _)) in Hc by lia. destruct Hc as (-> & n1 & Hn1 & Hw1). rewrite Z.eqb_refl.
  destruct (IH ctx1 w1 pat n1 (out ++ c) Hw1 Hn1) as (ctx2 & w2 & n2 & E & Hw2 & Hn2); [lia|rewrite length_app; lia|].
  rewrite app_assoc. eauto 6.
Qed.

Lemma read_chunks_spec lens : forall ctx w bs rest,
  readable ctx w bs rest -> (2 * length bs + 1 < fuel)%nat -> (sum_list lens <= length rest)%nat ->
  exists ds ctx' w', read_chunks fuel ctx lens w = Some (ds, ctx', w') /\ map length ds = lens /\ concat ds = firstn (sum_list lens) rest.
Proof.
  induction lens as [|k lens IH]; intros ctx w bs rest Hr Hf Hl; [cbn in *; eauto 6|].
  change (sum_list (k :: lens)) with (k + sum_list lens)%nat in *. cbn [read_chunks].
  destruct (mtd_read_data_spec fuel ctx (Z.of_nat k) w bs rest Hr) as (r & d & ctx1 & w1 & -> & Hc); [lia|exact Hf|].
  rewrite (proj2 (Z.leb_le _ _)) in Hc by lia. destruct Hc as (-> & -> & Hr1). rewrite Nat2Z.id in *.
  rewrite (proj2 (Z.ltb_ge _ _)) by lia. destruct (IH ctx1 w1 bs _ Hr1 Hf) as (ds & ctx2 & w2 & -> & Hm & Hc).
  { rewrite length_skipn. lia. }
  do 3 eexists. split; [reflexivity|]. cbn [map concat]. rewrite Hm, Hc, firstn_firstn, Nat.min_id, length_firstn, Nat.min_l by lia.
  split; [reflexivity|]. apply take_take_drop.
Qed.

(** C16: What is written to a partition comes back: when the chunks written fit into the
    good blocks, every write and the close succeed, and a reader that opens the
    partition afterwards reads the same bytes, however it divides them into reads and
    whichever blocks are bad.  The laws of [Flash] say that a good block can be erased,
    written and read back, and that a bad one is marked as bad. *)
Theorem chunks_roundtrip w bs chunks lens memory :
  idle w bs -> Z.of_nat (length memory) = e ->
  Z.of_nat (length (concat chunks)) <= e * Z.of_nat (length (goods bs)) ->
  (sum_list lens <= length (concat chunks))%nat ->
  (2 * length bs + length (concat chunks) + 3 < fuel)%nat ->
  exists wctx w1 wctx' w2 w3 rctx w4 ds rctx' w5,
    mtd_write_partition p memory w = (Some wctx, w1) /\
    write_chunks fuel wctx chunks w1 = Some (true, wctx', w2) /\
    mtd_write_close fuel wctx' w2 = Some (0, w3) /\
    mtd_read_partition p memory w3 = (Some rctx, w4) /\
    read_chunks fuel rctx lens w4 = Some (ds, rctx', w5) /\
    map length ds = lens /\ concat ds = firstn (sum_list lens) (concat chunks).
Proof.
  intros Hi Hm Hfit Hl Hf. pose proof erase_size_pos as He.
  destruct (mtd_write_partition_spec w bs memory Hi Hm) as (wctx & w1 & E1 & Hw1).
  pose proof (pattern_length bs) as Hlp.
  destruct (write_chunks_spec chunks wctx w1 (pattern bs) 0 [] Hw1) as (wctx' & w2 & n & E2 & Hw2 & Hn);
    [lia|lia|rewrite pattern_total; cbn [length app]; lia|].
  destruct (mtd_write_close_spec fuel wctx' w2 (pattern bs) n _ Hw2 ltac:(lia)) as (r & w3 & E3 & Hc).
  rewrite (proj2 (Z.leb_le _ _)) in Hc by (rewrite pattern_total; cbn [app]; lia). destruct Hc as (-> & bs' & tail & Hi3 & Hpat & Hbytes).
  destruct (mtd_read_partition_spec w3 bs' memory Hi3 Hm) as (rctx & w4 & E4 & Hr4).
  assert (Hlb : length bs' = length bs) by (rewrite <- Hlp, <- Hpat; symmetry; apply pattern_length).
  cbn [app] in Hbytes. destruct (read_chunks_spec lens rctx w4 bs' _ Hr4) as (ds & rctx' & w5 & E5 & Hm5 & Hc5);
    [lia|rewrite Hbytes, length_app; lia|].
  exists wctx, w1, wctx', w2, w3, rctx, w4, ds, rctx', w5. repeat split; try assumption.
  rewrite Hc5, Hbytes, firstn_app. replace (sum_list lens - length (concat chunks))%nat with O by lia. now rewrite firstn_O, app_nil_r.
Qed.

(** C40: A partition takes exactly what its good blocks hold: writing data to a freshly
    opened partition and closing it succeeds if and only if the data is at most as long
    as the good blocks together; otherwise the write gives -1 or the close is not 0. *)
Theorem write_succeeds_iff_fits w bs data memory :
  idle w bs -> Z.of_nat (length memory) = e -> (length bs + length data + 3 < fuel)%nat ->
  exists ctx w1 r ctx' w2 c w3,
    mtd_write_partition p memory w = (Some ctx, w1) /\ mtd_write_data fuel ctx data w1 = Some (r, ctx', w2) /\
    (r = -1 \/ r = Z.of_nat (length data) /\ mtd_write_close fuel ctx' w2 = Some (c, w3)) /\
    (r = Z.of_nat (length data) /\ c = 0 <-> Z.of_nat (length data) <= e * Z.of_nat (length (goods bs))).
Proof.
  intros Hi Hm Hf. pose proof erase_size_pos as He. destruct (mtd_write_partition_spec w bs memory Hi Hm) as (ctx & w1 & E1 & Hw1).
  pose proof (pattern_length bs) as Hlp.
  destruct (mtd_write_data_spec fuel ctx data w1 _ 0 [] Hw1) as (r & ctx' & w2 & E2 & Hc); [lia|lia|].
  rewrite pattern_total in Hc. cbn [length app] in Hc. destruct (Z.ltb_spec (Z.of_nat (0 + length data)) (e * (Z.of_nat (length (goods bs)) + 1))).
  - destruct Hc as (-> & n & Hn & Hw2). destruct (mtd_write_close_spec fuel ctx' w2 _ n _ Hw2 ltac:(lia)) as (c & w3 & E3 & Hc).
    exists ctx, w1, (Z.of_nat (length data)), ctx', w2, c, w3. repeat split; auto.
    + intros [_ ->]. rewrite pattern_total in Hc. cbn [app] in Hc. destruct (Z.leb_spec (Z.of_nat (length data)) (e * Z.of_nat (length (goods bs)))); [lia|discriminate].
    + rewrite pattern_total in Hc. cbn [app] in Hc. now rewrite (proj2 (Z.leb_le _ _)) in Hc by assumption.
  - subst r. exists ctx, w1, (-1), ctx', w2, 0, w2. repeat split; auto; lia.
Qed.

(** [mtd_find_write_start] returns the offset of the first good block at or after a
    block that the writer has passed, or the end of what it has passed: every block
    between is bad. *)
Theorem find_write_start_first_good ctx w pre suf k :
  w_partition ctx = p -> positioned ctx w pre suf -> (k <= length pre)%nat ->
  exists m, mtd_find_write_start ctx (e * Z.of_nat k) = e * Z.of_nat m /\ (k <= m <= length pre)%nat /\
    (forall i, (k <= i < m)%nat -> pre !! i = Some None) /\ ((m < length pre)%nat -> exists d, pre !! m = Some (Some d)).
Proof.
  intros Hp (Hbad & _) Hk. unfold mtd_find_write_start. rewrite Hp, Hbad.
  destruct (find_start_spec (p := p) pre 0 k ltac:(lia)) as (m & E & Hm & Hrun & Hgood). exists m. split; [exact E|]. split; [lia|].
  split; [intros i Hi; rewrite <- (Nat.sub_0_r i); now apply Hrun|]. intros Hlt. rewrite <- (Nat.sub_0_r m). now apply Hgood.
Qed.
End Stream.

(** * A small device *)

(** Four blocks of four bytes, the second one bad. *)
Definition small : MtdPartition := mkPartition 3 16 4 (Some [115]).
Definition small_blocks : flash := [Some [1; 2; 3; 4]; None; Some [5; 6; 7; 8]; Some [9; 10; 11; 12]].
Definition small_flash : mem_flash := mkFlash 4 small_blocks 0 0.

Lemma small_wf : mem_wf small small_blocks.
Proof. split; [reflexivity|]. repeat constructor; intros d E; try discriminate; injection E as <-; reflexivity. Qed.

#[local] Instance small_laws : Flash mem_flash small := mem_laws small (conj eq_refl eq_refl) eq_refl.

Lemma chunks_roundtrip_witness :
  exists wctx w1 wctx' w2 w3 rctx w4 ds rctx' w5,
    mtd_write_partition small [0; 0; 0; 0] small_flash = (Some wctx, w1) /\
    write_chunks 30 wctx [[10; 20; 30]; [40; 50; 60; 70]] w1 = Some (true, wctx', w2) /\
    mtd_write_close 30 wctx' w2 = Some (0, w3) /\
    mtd_read_partition small [0; 0; 0; 0] w3 = (Some rctx, w4) /\
    read_chunks 30 rctx [2%nat; 5%nat] w4 = Some (ds, rctx', w5) /\
    map length ds = [2%nat; 5%nat] /\ concat ds = [10; 20; 30; 40; 50; 60; 70].
Proof.
  apply (chunks_roundtrip (p := small) 30 small_flash small_blocks [[10; 20; 30]; [40; 50; 60; 70]] [2%nat; 5%nat] [0; 0; 0; 0]);
    [do 2 eexists; split; [reflexivity|exact small_wf]|reflexivity|cbn; lia|cbn; lia|cbn; lia].
Defined.

Lemma write_succeeds_iff_fits_witness :
  exists ctx w1 r ctx' w2 c w3,
    mtd_write_partition small [0; 0; 0; 0] small_flash = (Some ctx, w1) /\ mtd_write_data 30 ctx (repeat 7 13) w1 = Some (r, ctx', w2) /\
    (r = -1 \/ r = 13 /\ mtd_write_close 30 ctx' w2 = Some (c, w3)) /\ (r = 13 /\ c = 0 <-> 13 <= 12).
Proof.
  apply (write_succeeds_iff_fits (p := small) 30 small_flash small_blocks (repeat 7 13) [0; 0; 0; 0]);
    [do 2 eexists; split; [reflexivity|exact small_wf]|reflexivity|cbn; lia].
Defined.

(** After a block has been written past the bad one. *)
Lemma find_write_start_first_good_witness :
  exists m, mtd_find_write_start (mkWrite small [] 0 [4] 1) (4 * Z.of_nat 1) = 4 * Z.of_nat m /\ (1 <= m <= 3)%nat /\
    (forall i, (1 <= i < m)%nat -> firstn 3 small_blocks !! i = Some None) /\
    ((m < 3)%nat -> exists d, firstn 3 small_blocks !! m = Some (Some d)).
Proof.
  apply (find_write_start_first_good (p := small) (mkWrite small [] 0 [4] 1) (mkFlash 4 small_blocks 12 0) (firstn 3 small_blocks) (skipn 3 small_blocks) 1).
  - reflexivity.
  - split; [reflexivity|]. exists 0. split; [reflexivity|exact small_wf].
  - cbn. lia.
Defined.

(** * Devices that keep other promises *)

(** The first block loses what is written to it but is not marked as bad; the kernel has
    no table of bad blocks; the first block cannot be read and counts an error. *)
Inductive fault := Worn | NoTable | Unreadable.
Record odd_flash := mkOdd { kind : fault; inner : mem_flash }.
Definition with_inner {A} (k : fault) (r : A * mem_flash) : A * odd_flash := (r.1, mkOdd k r.2).

#[local] Instance odd_device : Device odd_flash := {
  open_mtd i b f := with_inner (kind f) (open_mtd i b (inner f));
  mem_info f := mem_info (inner f);
  seek_cur f := seek_cur (inner f);
  seek_set o f := with_inner (kind f) (seek_set o (inner f));
  read n f := match kind f with
              | Unreadable => if f_pos (inner f) =? 0 then (-1, [], mkOdd (kind f) (move (inner f) 0 (f_ecc (inner f) + 1)))
                              else with_inner (kind f) (read n (inner f))
              | _ => with_inner (kind f) (read n (inner f))
              end;
  write d f := match kind f with
               | Worn => if f_pos (inner f) =? 0 then (Z.of_nat (length d), f) else with_inner (kind f) (write d (inner f))
               | _ => with_inner (kind f) (write d (inner f))
               end;
  ecc_failed f := ecc_failed (inner f);
  bad_block o f := match kind f with NoTable => (-1, EOPNOTSUPP) | _ => bad_block o (inner f) end;
  erase o n f := with_inner (kind f) (erase o n (inner f));
  close f := with_inner (kind f) (close (inner f))
}.

Definition good_flash (k : fault) : odd_flash :=
  mkOdd k (mkFlash 4 [Some [1; 2; 3; 4]; Some [5; 6; 7; 8]; Some [9; 10; 11; 12]] 0 0).
Definition good : MtdPartition := mkPartition 3 12 4 (Some [115]).

(** Write four bytes, close, and read four bytes. *)
Definition write_read (k : fault) : option (Z * option Z * option (Z * list Z)) :=
  match mtd_write_partition good [0; 0; 0; 0] (good_flash k) with
  | (Some ctx, w) =>
      match mtd_write_data 20 ctx [70; 71; 72; 73] w with
      | Some (r, ctx, w) =>
          match mtd_write_close 20 ctx w with
          | Some (c, w) =>
              match mtd_read_partition good [0; 0; 0; 0] w with
              | (Some ctx, w) =>
                  match mtd_read_data 20 ctx 4 w with Some (n, d, _, _) => Some (r, Some c, Some (n, d)) | None => None end
              | (None, _) => None
              end
          | None => None
          end
      | None => None
      end
  | (None, _) => None
  end.

(** A block that could not be written is passed over by the writer, but nothing tells a
    reader: it reads the erased block. *)
Lemma skipped_block_is_read : write_read Worn = Some (4, Some 0, Some (4, [255; 255; 255; 255])).
Proof. reflexivity. Qed.

(** Without a table of bad blocks, writing works and reading takes every block for a bad
    one. *)
Lemma no_table_unreadable : write_read NoTable = Some (4, Some 0, Some (-1, [])).
Proof. reflexivity. Qed.

(** After a read that fails with an error counted, the block that follows is passed over
    as well, although it is good. *)
Lemma good_block_skipped :
  match mtd_read_partition good [0; 0; 0; 0] (good_flash Unreadable) with
  | (Some ctx, w) => match mtd_read_data 20 ctx 4 w with Some (n, d, _, _) => Some (n, d) | None => None end
  | (None, _) => None
  end = Some (4, [9; 10; 11; 12]).
Proof. reflexivity. Qed.
