(* ===== verification/MtdCommands.v ===== *)
(** Commands on flash partitions: src/mtdutils/mtdutils.c ([cmd_mtd_*] and
    [mtd_mount_partition]), which put together the table of partitions and the reading
    and writing of blocks. *)
From stdpp Require Import list.
From S2P Require Import Prelude CString Mtd MtdScan.

(** The files a command uses besides the flash device: the text of [/proc/mtd]; one
    stream opened for reading; opening a file once more; one descriptor opened for
    writing ([-] is the standard output); mounting a block device, the mode of a
    directory and [chmod]. *)
Class Files (F : Type) := {
  proc_text : F -> option (list Z);
  fopen : list Z -> F -> bool * F;
  fread : nat -> F -> list Z * F;
  fclose : F -> F;
  open_rdonly : list Z -> F -> bool * F;
  creat : list Z -> F -> bool * F;
  put : list Z -> F -> Z * F;
  close_fd : F -> Z * F;
  unlink : list Z -> F -> F;
  mount : Z -> list Z -> list Z -> Z -> F -> Z * F;
  stat_mode : list Z -> F -> Z * Z;
  chmod : list Z -> Z -> F -> Z * F
}.

Definition MS_RDONLY : Z := 1.
Definition MS_NODEV : Z := 4.
Definition MS_NOATIME : Z := 1024.
Definition MS_NODIRATIME : Z := 2048.
Definition S_IX : Z := 73.
Definition BLOCK_SIZE : Z := 2048.

(** The number of decimal digits of an [int] that is not negative. *)
Fixpoint ndigits (fuel : nat) (z : Z) : nat :=
  match fuel with O => 1 | S fuel => if z <? 10 then 1 else S (ndigits fuel (z / 10)) end.

(** [/dev/block/mtdblock%d] *)
Definition block_device (i : Z) : list Z :=
  [47; 100; 101; 118; 47; 98; 108; 111; 99; 107; 47; 109; 116; 100; 98; 108; 111; 99; 107] ++
  (if i <? 0 then [45] else []) ++ printed 10 (ndigits 10 (Z.abs i)) (Z.abs i).

(** A loop that has not ended, as a computation. *)
Definition ended {A} (m : option A) : M A := match m with Some x => ret x | None => None end.

Section Commands.
Context {W F : Type} `{Device W} `{Files F}.

(** What fresh memory of a size holds, the size of the stream buffer, and fuel. *)
Context (memory : Z -> list Z) (BUFSIZ : nat) (fuel : nat).

Record sys := mkSys { state : MtdState; device : W; files : F }.

Definition scan (s : sys) : M (Z * sys) :=
  do! r := mtd_scan_partitions fuel (proc_text (files s)) (state s) in
  let '(n, st) := r in ret (n, mkSys st (device s) (files s)).

Definition set_device (s : sys) (w : W) : sys := mkSys (state s) w (files s).
Definition set_files (s : sys) (f : F) : sys := mkSys (state s) (device s) f.

(** * Restoring *)

(** Whether every chunk was written. *)
Fixpoint restore_loop (n : nat) (ctx : MtdWriteContext) (s : sys) : M (bool * MtdWriteContext * sys) :=
  match n with
  | O => None
  | S n =>
      let '(buffer, f) := fread BUFSIZ (files s) in
      let s := set_files s f in
      match buffer with
      | [] => ret (true, ctx, s)
      | _ =>
          do! r := ended (mtd_write_data fuel ctx buffer (device s)) in
          let '(wrote, ctx, w) := r in
          let s := set_device s w in
          if wrote =? Z.of_nat (length buffer) then restore_loop n ctx s else ret (false, ctx, s)
      end
  end.

Definition cmd_mtd_restore_raw_partition (partition_name filename : list Z) (s : sys) : M (Z * sys) :=
  let '(ok, f) := fopen filename (files s) in
  let s := set_files s f in
  if negb ok then ret (-1, s)
  else
    do! r := scan s in
    let '(n, s) := r in
    if n <=? 0 then ret (-1, s)
    else
      match mtd_find_partition_by_name partition_name (state s) with
      | None => ret (-1, s)
      | Some mtd =>
          let '(ok, f) := open_rdonly filename (files s) in
          let s := set_files s f in
          if negb ok then ret (-1, s)
          else
            let '(ctx, w) := mtd_write_partition mtd (memory (erase_size mtd)) (device s) in
            let s := set_device s w in
            match ctx with
            | None => ret (-1, s)
            | Some ctx =>
                do! r := restore_loop fuel ctx s in
                let '(success, ctx, s) := r in
                let s := set_files s (fclose (files s)) in
                if negb success then ret (-1, s)
                else
                  do! r := ended (mtd_erase_blocks fuel ctx (-1) (device s)) in
                  let '(_, ctx, w) := r in
                  do! r := ended (mtd_write_close fuel ctx w) in
                  let '(_, w) := r in ret (0, set_device s w)
            end
      end.

(** * Backing up *)

(** Whether every block that was read was written to the file. *)
Fixpoint backup_loop (n : nat) (ctx : MtdReadContext) (s : sys) : M (bool * sys) :=
  match n with
  | O => None
  | S n =>
      do! r := ended (mtd_read_data fuel ctx BLOCK_SIZE (device s)) in
      let '(len, buf, ctx, w) := r in
      let s := set_device s w in
      if 0 <? len then
        let '(wrote, f) := put (firstn (Z.to_nat len) buf) (files s) in
        let s := set_files s f in
        if negb (wrote =? len) then ret (false, s) else backup_loop n ctx s
      else ret (true, s)
  end.

Definition cmd_mtd_backup_raw_partition (partition_name filename : list Z) (s : sys) : M (Z * sys) :=
  do! r := scan s in
  let '(n, s) := r in
  if n <=? 0 then ret (-1, s)
  else
    match mtd_find_partition_by_name partition_name (state s) with
    | None => ret (-1, s)
    | Some partition =>
        let '(info, w) := mtd_partition_info partition (device s) in
        let s := set_device s w in
        match info with
        | None => ret (-1, s)
        | Some _ =>
            let '(ok, f) := creat filename (files s) in
            let s := set_files s f in
            if negb ok then ret (-1, s)
            else
              let '(ctx, w) := mtd_read_partition partition (memory (erase_size partition)) (device s) in
              let s := set_device s w in
              match ctx with
              | None => let '(_, f) := close_fd (files s) in ret (-1, set_files s (unlink filename f))
              | Some ctx =>
                  do! r := backup_loop fuel ctx s in
                  let '(ok, s) := r in
                  if negb ok then let '(_, f) := close_fd (files s) in ret (-1, set_files s (unlink filename f))
                  else
                    let s := set_device s (mtd_read_close (device s)) in
                    let '(c, f) := close_fd (files s) in
                    if negb (c =? 0) then ret (-1, set_files s (unlink filename f)) else ret (0, set_files s f)
              end
        end
    end.

(** * Erasing, mounting and names of devices *)

(** The value is an unsigned number, and only zero is taken for an error. *)
Definition cmd_mtd_erase_raw_partition (partition_name : list Z) (s : sys) : M (Z * sys) :=
  do! r := scan s in
  let '(n, s) := r in
  if n <=? 0 then ret (-1, s)
  else
    match mtd_find_partition_by_name partition_name (state s) with
    | None => ret (-1, s)
    | Some p =>
        let '(out, w) := mtd_write_partition p (memory (erase_size p)) (device s) in
        let s := set_device s w in
        match out with
        | None => ret (-1, s)
        | Some out =>
            do! r := ended (mtd_erase_blocks fuel out (-1) (device s)) in
            let '(erased, _, w) := r in
            ret (if u32 erased =? 0 then -1 else 0, set_device s w)
        end
    end.

Definition cmd_mtd_erase_partition (partition filesystem : list Z) (s : sys) : M (Z * sys) :=
  cmd_mtd_erase_raw_partition partition s.

Definition mtd_mount_partition (p : MtdPartition) (mount_point filesystem : list Z) (read_only : bool) (f : F) : Z * F :=
  let flags := Z.lor (Z.lor MS_NOATIME MS_NODEV) MS_NODIRATIME in
  let '(rv, f) := if read_only then (-1, f) else mount (device_index p) mount_point filesystem flags f in
  let '(rv, f) := if read_only || (rv <? 0) then mount (device_index p) mount_point filesystem (Z.lor flags MS_RDONLY) f else (rv, f) in
  if 0 <=? rv then
    let '(rv, st_mode) := stat_mode mount_point f in
    if rv <? 0 then (rv, f)
    else
      let new_mode := Z.lor st_mode S_IX in
      if negb (new_mode =? st_mode) then chmod mount_point new_mode f else (rv, f)
  else (rv, f).

Definition cmd_mtd_mount_partition (partition mount_point filesystem : list Z) (read_only : bool) (s : sys) : M (Z * sys) :=
  do! r := scan s in
  let '(_, s) := r in
  match mtd_find_partition_by_name partition (state s) with
  | None => ret (-1, s)
  | Some p => let '(rv, f) := mtd_mount_partition p mount_point filesystem read_only (files s) in ret (rv, set_files s f)
  end.

(** The result, and the string stored. *)
Definition cmd_mtd_get_partition_device (partition : list Z) (s : sys) : M (Z * option (list Z) * sys) :=
  do! r := scan s in
  let '(_, s) := r in
  match mtd_find_partition_by_name partition (state s) with
  | None => ret (-1, None, s)
  | Some p => ret (0, Some (block_device (device_index p)), s)
  end.
End Commands.
Arguments sys : clear implicits.

(** * What a file system promises *)

(** [input f d]: [d] is left to be read from the stream; [output f n o]: the descriptor
    is open on the file [n], to which [o] has been written. *)
Class FileLaws (F : Type) `{Files F} := {
  input : F -> list Z -> Prop;
  output : F -> list Z -> list Z -> Prop;
  contents : F -> list Z -> option (list Z);
  fopen_ok f n d : contents f n = Some d ->
    exists f', fopen n f = (true, f') /\ input f' d /\ proc_text f' = proc_text f /\ (forall m, contents f' m = contents f m);
  open_ok f n d x : contents f n = Some x -> input f d -> exists f', open_rdonly n f = (true, f') /\ input f' d /\ proc_text f' = proc_text f;
  fread_ok f d k : input f d -> exists f', fread k f = (firstn k d, f') /\ input f' (skipn k d) /\ proc_text f' = proc_text f;
  fclose_ok f d : input f d -> proc_text (fclose f) = proc_text f;
  put_ok f n o bs : output f n o -> exists f', put bs f = (Z.of_nat (length bs), f') /\ output f' n (o ++ bs);
  close_ok f n o : output f n o -> exists f', close_fd f = (0, f') /\ contents f' n = Some o
}.

Section Correct.
Context {W F : Type} `{FileLaws F}.
Context (x : entry) `{Flash W (of_entry x)}.
Context (memory : Z -> list Z) (BUFSIZ : nat) (fuel : nat).
Context (Hmemory : forall n, 0 <= n -> length (memory n) = Z.to_nat n) (Hbuf : (0 < BUFSIZ)%nat).
Abbreviation p := (of_entry x).
Abbreviation e := (e_erase x).

(** The partition is in the table that the kernel prints. *)
Record listed (entries : list entry) (s : sys W F) : Prop := {
  l_state : state_ok (state s);
  l_proc : proc_text (files s) = Some (proc_mtd entries);
  l_ok : Forall entry_ok entries;
  l_index : NoDup (map index entries);
  l_name : NoDup (map e_name entries);
  l_text : (length (proc_mtd entries) <= 2047)%nat;
  l_fuel : (length entries + 1 < fuel)%nat;
  l_in : In x entries
}.

Lemma scan_listed entries s : listed entries s ->
  exists s', scan fuel s = ret (Z.of_nat (length entries), s') /\ 0 < Z.of_nat (length entries) /\ device s' = device s /\ files s' = files s /\
    mtd_find_partition_by_name (e_name x) (state s') = Some p /\ listed entries s'.
Proof.
  clear Hmemory Hbuf. intros [Hst Hpr Hok Hi Hn Hl Hf Hin]. unfold scan. rewrite Hpr.
  destruct (mtd_scan_partitions_spec fuel entries (state s) Hst Hok Hi Hl Hf) as (st' & -> & Ht & Hst').
  eexists. split; [reflexivity|]. split; [destruct entries; [destruct Hin|cbn; lia]|]. repeat split; try assumption.
  destruct (find_complete entries st' x Hok Ht Hin) as [q Hq]. cbn [state]. rewrite Hq.
  assert (Hc : chars (e_name x)) by (rewrite List.Forall_forall in Hok; apply name_chars, Hok, Hin).
  destruct (find_sound _ _ _ _ Hok Ht Hc Hq) as (y & Hy & Ey & ->). now rewrite (entry_unique entries y x).
Qed.

(** The loop writes the rest of the stream. *)
Lemma restore_loop_spec n : forall ctx s pat k out d,
  writable (p := p) ctx (device s) pat k out -> k < e -> input (files s) d -> (length d < n)%nat ->
  (length pat + length d + 3 < fuel)%nat -> Z.of_nat (length out + length d) < e * (Z.of_nat (total pat) + 1) ->
  exists ctx' s' k', restore_loop BUFSIZ fuel n ctx s = ret (true, ctx', s') /\ state s' = state s /\ proc_text (files s') = proc_text (files s) /\
    input (files s') [] /\ writable (p := p) ctx' (device s') pat k' (out ++ d) /\ k' < e.
Proof.
  induction n as [|n IH]; intros ctx s pat k out d Hw Hk Hd Hn Hf Hfit; [lia|]. cbn [restore_loop].
  destruct (fread_ok (files s) d BUFSIZ Hd) as (f' & -> & Hd' & Hp'). destruct d as [|b d].
  { rewrite firstn_nil, skipn_nil in *. exists ctx, (set_files s f'), k. rewrite app_nil_r. auto 10. }
  destruct (firstn BUFSIZ (b :: d)) as [|c t] eqn:Et; [destruct BUFSIZ; [lia|discriminate]|]. rewrite <- Et. cbn [device set_files].
  pose proof (f_equal length (firstn_skipn BUFSIZ (b :: d))) as Hlen. rewrite length_app in Hlen.
  assert (Hpos : (0 < length (firstn BUFSIZ (b :: d)))%nat) by (rewrite Et; cbn; lia).
  destruct (mtd_write_data_spec fuel ctx (firstn BUFSIZ (b :: d)) (device s) pat k out Hw Hk ltac:(lia)) as (r & ctx1 & w1 & -> & Hc).
  rewrite (proj2 (Z.ltb_lt _ _)) in Hc by (cbn [erase_size of_entry]; lia). destruct Hc as (-> & k1 & Hk1 & Hw1). cbn [ended bindM ret]. rewrite Z.eqb_refl.
  destruct (IH ctx1 (set_device (set_files s f') w1) pat k1 _ _ Hw1 Hk1 Hd') as (ctx2 & s2 & k2 & E2 & Hs2 & Hp2 & Hi2 & Hw2 & Hk2).
  { lia. } { lia. } { rewrite length_app. lia. }
  rewrite <- app_assoc, firstn_skipn in Hw2. exists ctx2, s2, k2. split; [exact E2|]. split; [exact Hs2|]. split; [now rewrite Hp2|]. auto.
Qed.

(** The bytes of a partition after [data] has been written to its good blocks: zeros to
    the end of the last block, and erased blocks. *)
Definition image (cap : nat) (data : list Z) : list Z :=
  let k := Z.of_nat (length data) mod e in
  let d := data ++ (if 0 <? k then repeat 0 (Z.to_nat (e - k)) else []) in d ++ repeat 255 (cap - length d).

Lemma erased_bytes bs : concat (goods (erased (p := p) bs)) = repeat 255 (Z.to_nat e * length (goods bs)).
Proof.
  induction bs as [|[d|] bs IH]; [now rewrite Nat.mul_0_r| |exact IH].
  change (goods (Some d :: bs)) with (d :: goods bs).
  change (goods (erased (Some d :: bs))) with (repeat 255 (Z.to_nat e) :: goods (erased (p := p) bs)).
  cbn [concat length]. rewrite IH, <- repeat_app. f_equal. lia.
Qed.

Lemma pending_mod ctx w pat k out : writable (p := p) ctx w pat k out -> k < e -> Z.of_nat (length out) mod e = k.
Proof.
  intros (_ & Hb & _ & Hk & pre & suf & _ & Hpos & ->) Hlt. cbn [erase_size of_entry] in *.
  rewrite length_app, length_firstn, Nat2Z.inj_add, (positioned_bytes _ _ _ _ Hpos). cbn [erase_size of_entry].
  rewrite Z.add_comm, Z.mul_comm, Z.mod_add by lia. rewrite Z.mod_small; lia.
Qed.

(** Erasing the rest and closing leaves the image of what was written. *)
Lemma finish_spec ctx w pat k out :
  writable (p := p) ctx w pat k out -> k < e -> (length pat < fuel)%nat -> Z.of_nat (length out) <= e * Z.of_nat (total pat) ->
  exists r1 ctx1 w1 w2 bs, mtd_erase_blocks fuel ctx (-1) w = Some (r1, ctx1, w1) /\ mtd_write_close fuel ctx1 w1 = Some (0, w2) /\
    idle (p := p) w2 bs /\ pattern bs = pat /\ concat (goods bs) = image (Z.to_nat e * total pat) out.
Proof.
  intros Hw Hk Hf Hfit. destruct (flush_spec fuel ctx w pat k out Hw Hf) as (r & ctx1 & w1 & E & Hc).
  rewrite (proj2 (Z.leb_le _ _)) in Hc by exact Hfit. destruct Hc as [-> (Hp & Hb & Hs & _ & pre & suf & Hpat & Hpos & Hout)].
  destruct (erase_positioned fuel ctx1 w1 pre suf (-1) Hp Hs Hpos ltac:(lia)) as (w2 & E2 & Hpos2). cbn [Z.ltb Z.compare] in *.
  destruct (close_positioned fuel ctx1 w2 pre (erased suf) Hp Hs Hpos2) as (w3 & E3 & Hi).
  rewrite (erase_flushed fuel ctx w ctx1 w1 (-1) E Hs). do 5 eexists. split; [exact E2|]. split; [exact E3|]. split; [exact Hi|].
  assert (Hpat' : pattern (pre ++ erased (p := p) suf) = pat).
  { rewrite <- Hpat. unfold pattern. rewrite !map_app. f_equal. apply erased_pattern. }
  split; [exact Hpat'|]. cbn [Z.to_nat firstn] in Hout. rewrite app_nil_r in Hout.
  unfold image. rewrite (pending_mod _ _ _ _ _ Hw Hk). change (if 0 <? k then _ else _) with (padding (p := p) k). rewrite Hout.
  rewrite goods_app, concat_app, erased_bytes. f_equal. f_equal.
  pose proof (positioned_bytes _ _ _ _ Hpos) as Hl. cbn [erase_size of_entry] in Hl.
  rewrite <- Hpat, pattern_total, goods_app, length_app. nia.
Qed.

(** Restoring a file that fits into the good blocks succeeds and leaves its image. *)
Lemma restore_spec entries s bs n d :
  listed entries s -> idle (p := p) (device s) bs -> contents (files s) n = Some d ->
  (length bs + length d + 3 < fuel)%nat -> Z.of_nat (length d) <= e * Z.of_nat (length (goods bs)) ->
  exists s' bs', cmd_mtd_restore_raw_partition memory BUFSIZ fuel (e_name x) n s = ret (0, s') /\ listed entries s' /\
    idle (p := p) (device s') bs' /\ pattern bs' = pattern bs /\ concat (goods bs') = image (Z.to_nat e * length (goods bs)) d.
Proof.
  intros Hl Hi Hn Hf Hfit. unfold cmd_mtd_restore_raw_partition.
  destruct (fopen_ok (files s) n d Hn) as (f1 & -> & Hin1 & Hp1 & Hc1). cbn [negb].
  destruct (scan_listed entries (set_files s f1)) as (s2 & -> & Hpos & Hd2 & Hf2 & Hfind & Hl2).
  { destruct Hl. split; auto. cbn [files set_files]. now rewrite Hp1. }
  cbn [bindM ret]. rewrite (proj2 (Z.leb_gt _ _)), Hfind by exact Hpos. rewrite Hf2. cbn [files set_files].
  destruct (open_ok f1 n d d) as (f3 & -> & Hin3 & Hp3); [now rewrite Hc1|exact Hin1|]. cbn [negb device set_files]. rewrite Hd2. cbn [device set_files].
  pose proof (erase_size_pos (p := p)) as He. cbn [erase_size of_entry] in He.
  destruct (mtd_write_partition_spec (p := p) (device s) bs (memory e) Hi) as (ctx & w4 & E4 & Hw4).
  { rewrite Hmemory by lia. cbn [erase_size of_entry]. lia. }
  cbn [erase_size of_entry] in *. rewrite E4. cbn [bindM ret].
  pose proof (pattern_length bs) as Hlp.
  destruct (restore_loop_spec fuel ctx (set_device (set_files s2 f3) w4) (pattern bs) 0 [] d Hw4) as (ctx5 & s5 & k & -> & Hs5 & Hp5 & Hin5 & Hw5 & Hk).
  { lia. } { exact Hin3. } { lia. } { lia. } { cbn [length app]. rewrite pattern_total. lia. }
  cbn [bindM ret negb app device set_files] in *.
  destruct (finish_spec ctx5 (device s5) (pattern bs) k d Hw5 Hk) as (r1 & ctx6 & w6 & w7 & bs' & -> & E7 & Hi7 & Hpat & Hbytes);
    [lia|rewrite pattern_total; lia|].
  cbn [ended bindM ret]. rewrite E7. cbn [ended bindM ret]. do 2 eexists. split; [reflexivity|]. split.
  { destruct Hl2 as [Hst Hpr ? ? ? ? ? ?]. split; auto; cbn [state files set_files set_device] in *.
    - rewrite Hs5. exact Hst.
    - rewrite (fclose_ok _ [] Hin5), Hp5, Hp3. rewrite Hf2 in Hpr. exact Hpr. }
  rewrite pattern_total in Hbytes. split; [exact Hi7|]. split; [exact Hpat|exact Hbytes].
Qed.

(** The loop copies the whole blocks of 2048 bytes. *)
Definition whole (l : list Z) : list Z := firstn (2048 * (length l / 2048)) l.

Lemma whole_step l : (2048 <= length l)%nat -> whole l = firstn 2048 l ++ whole (skipn 2048 l).
Proof.
  intros Hl. unfold whole. rewrite length_skipn.
  assert (E : (length l / 2048 = S ((length l - 2048) / 2048))%nat).
  { pose proof (Nat.div_add_l 1 2048 (length l - 2048) ltac:(lia)) as Hd.
    replace (1 * 2048 + (length l - 2048))%nat with (length l) in Hd by lia. lia. }
  rewrite E, Nat.mul_succ_r, Nat.add_comm. symmetry. apply take_take_drop.
Qed.

Lemma whole_short l : (length l < 2048)%nat -> whole l = [].
Proof. intros Hl. unfold whole. now rewrite Nat.div_small. Qed.

Lemma backup_loop_spec n : forall ctx s bs rest name o,
  readable (p := p) ctx (device s) bs rest -> output (files s) name o -> (length rest < n)%nat -> (2 * length bs + 1 < fuel)%nat ->
  exists s', backup_loop fuel n ctx s = ret (true, s') /\ state s' = state s /\ held (p := p) (device s') bs /\
    output (files s') name (o ++ whole rest).
Proof.
  induction n as [|n IH]; intros ctx s bs rest nm o Hr Ho Hn Hf; [lia|]. cbn [backup_loop].
  destruct (mtd_read_data_spec fuel ctx BLOCK_SIZE (device s) bs rest Hr) as (r & out & ctx' & w' & -> & Hc); [unfold BLOCK_SIZE; lia|exact Hf|].
  cbn [ended bindM ret]. unfold BLOCK_SIZE in *. destruct (Z.leb_spec 2048 (Z.of_nat (length rest))) as [Hle|Hgt].
  - destruct Hc as (-> & -> & Hr'). cbn [Z.ltb Z.compare files set_device]. change (Z.to_nat 2048) with 2048%nat in *.
    rewrite firstn_firstn, Nat.min_id. destruct (put_ok (files s) nm o (firstn 2048 rest) Ho) as (f' & -> & Ho').
    rewrite length_firstn, Nat.min_l by lia. rewrite Z.eqb_refl. cbn [negb].
    destruct (IH ctx' (set_files (set_device s w') f') bs (skipn 2048 rest) nm _ Hr' Ho') as (s' & E & Hs & Hh & Ho2).
    { rewrite length_skipn. lia. } { exact Hf. }
    exists s'. split; [exact E|]. split; [exact Hs|]. split; [exact Hh|]. now rewrite whole_step, app_assoc by lia.
  - destruct Hc as [-> Hh]. cbn [Z.ltb Z.compare]. eexists. split; [reflexivity|]. split; [reflexivity|]. split; [exact Hh|].
    rewrite whole_short, app_nil_r by lia. exact Ho.
Qed.

(** Backing up writes the good blocks to the file, and leaves the device as it was. *)
Lemma backup_spec entries s bs n f' :
  listed entries s -> idle (p := p) (device s) bs -> creat n (files s) = (true, f') -> output f' n [] ->
  (2 * length bs + Z.to_nat e * length bs + 1 < fuel)%nat ->
  exists s', cmd_mtd_backup_raw_partition memory fuel (e_name x) n s = ret (0, s') /\
    contents (files s') n = Some (whole (concat (goods bs))) /\ idle (p := p) (device s') bs.
Proof.
  intros Hl Hi Hcr Ho Hf. unfold cmd_mtd_backup_raw_partition.
  destruct (scan_listed entries s Hl) as (s2 & -> & Hpos & Hd2 & Hf2 & Hfind & _). cbn [bindM ret].
  rewrite (proj2 (Z.leb_gt _ _)), Hfind, Hd2 by exact Hpos.
  destruct (mtd_partition_info_spec (p := p) (device s) bs Hi) as (info & w3 & -> & Hi3). cbn [files set_device]. rewrite Hf2, Hcr. cbn [negb].
  pose proof (erase_size_pos (p := p)) as He.
  destruct (mtd_read_partition_spec (p := p) w3 bs (memory e) Hi3) as (ctx & w4 & E4 & Hr4).
  { rewrite Hmemory; cbn [erase_size of_entry] in *; lia. }
  cbn [erase_size of_entry device set_device set_files] in *. rewrite E4.
  destruct (backup_loop_spec fuel ctx (set_device (set_files (set_device s2 w3) f') w4) bs _ n [] Hr4 Ho) as (s5 & -> & Hs5 & Hh & Ho5).
  { destruct Hr4 as (_ & _ & _ & ds & (pre & suf & ecc & -> & <- & R) & _). destruct (rep_wf _ _ _ _ R) as [_ Hwf].
    pose proof (goods_bytes _ Hwf) as Hb. cbn [erase_size of_entry] in Hb. pose proof (goods_length (pre ++ suf)). nia. }
  { lia. }
  cbn [bindM ret negb device set_device files]. destruct (close_ok _ _ _ Ho5) as (f6 & -> & Hc6). cbn [Z.eqb negb].
  eexists. split; [reflexivity|]. split; [exact Hc6|]. now apply mtd_read_close_spec.
Qed.

Lemma whole_all l k : length l = (2048 * k)%nat -> whole l = l.
Proof. intros Hl. unfold whole. replace (length l / 2048)%nat with k by (rewrite Hl, Nat.mul_comm, Nat.div_mul; lia). rewrite <- Hl. apply firstn_all. Qed.

(** Restoring a file to a partition and backing the partition up gives the file
    back: when the file fits into the good blocks, both commands return 0, and the
    backup is the file with zeros to the end of its last block and 0xff for the blocks
    after it, whichever blocks are bad. *)
Theorem restore_backup entries s bs n d out k :
  listed entries s -> idle (p := p) (device s) bs -> contents (files s) n = Some d ->
  Z.of_nat (length d) <= e * Z.of_nat (length (goods bs)) -> e = 2048 * Z.of_nat k ->
  (2 * length bs + Z.to_nat e * length bs + length d + 3 < fuel)%nat ->
  exists s1, cmd_mtd_restore_raw_partition memory BUFSIZ fuel (e_name x) n s = ret (0, s1) /\
    forall f', creat out (files s1) = (true, f') -> output f' out [] ->
    exists s2, cmd_mtd_backup_raw_partition memory fuel (e_name x) out s1 = ret (0, s2) /\
      contents (files s2) out = Some (image (Z.to_nat e * length (goods bs)) d).
Proof.
  intros Hl Hi Hn Hfit He Hf. destruct (restore_spec entries s bs n d Hl Hi Hn ltac:(lia) Hfit) as (s1 & bs1 & E1 & Hl1 & Hi1 & Hpat & Hbytes).
  exists s1. split; [exact E1|]. intros f' Hcr Ho.
  assert (Hlen : length bs1 = length bs) by (rewrite <- !pattern_length; congruence).
  destruct (backup_spec entries s1 _ out f' Hl1 Hi1 Hcr Ho) as (s2 & E2 & Hc2 & _); [lia|].
  exists s2. split; [exact E2|]. rewrite Hc2. f_equal. rewrite <- Hbytes.
  destruct (rep_open (p := p) _ _ false Hi1) as (w & ecc & _ & R). destruct (rep_wf _ _ _ _ R) as [_ Hwf].
  pose proof (goods_bytes _ Hwf) as Hb. cbn [erase_size of_entry] in Hb. apply (whole_all _ (k * length (goods bs1))). nia.
Qed.

(** Erasing a partition returns 0 and leaves every good block filled with 0xff and
    every bad block alone. *)
Theorem erase_command entries s bs fs :
  listed entries s -> idle (p := p) (device s) bs -> bs <> [] -> (length bs < fuel)%nat ->
  exists s', cmd_mtd_erase_partition memory fuel (e_name x) fs s = ret (0, s') /\ held (p := p) (device s') (erased (p := p) bs).
Proof.
  clear Hmemory Hbuf. intros Hl Hi Hne Hf. unfold cmd_mtd_erase_partition, cmd_mtd_erase_raw_partition.
  destruct (scan_listed entries s Hl) as (s2 & -> & Hpos & Hd2 & Hf2 & Hfind & _). cbn [bindM ret].
  rewrite (proj2 (Z.leb_gt _ _)), Hfind, Hd2 by exact Hpos. pose proof (erase_size_pos (p := p)) as He. cbn [erase_size of_entry] in *.
  destruct (mtd_write_partition_fresh (p := p) (device s) bs (memory e) Hi) as (w3 & -> & Hpos3). cbn [device set_device].
  destruct (erase_positioned (p := p) fuel (mkWrite p (memory e) 0 [] 0) w3 [] bs (-1) eq_refl eq_refl Hpos3 ltac:(lia)) as (w4 & -> & _ & ecc & R).
  cbn [Z.ltb Z.compare ended bindM ret erase_size of_entry length Nat.add app] in *. exists (set_device (set_device s2 w3) w4). split; [|do 2 eexists; exact R].
  assert (0 < length bs)%nat by (destruct bs; [congruence|cbn; lia]). destruct (rep_wf _ _ _ _ R) as [Hsz _].
  pose proof (size_small (p := p)). unfold erased in Hsz. rewrite length_map in Hsz. cbn [size erase_size of_entry] in *.
  rewrite u32_small by nia. now rewrite (proj2 (Z.eqb_neq _ 0)) by nia.
Qed.
End Correct.

(** * An example *)

(** Files as an association list, with the stream and the descriptor that are open. *)
Record mem_files := mkFiles { f_proc : list Z; stored_files : list (list Z * list Z); stream : list Z; out_name : list Z; out_data : list Z }.

Definition file_of (f : mem_files) (n : list Z) : option (list Z) :=
  match List.find (fun '(m, _) => bool_decide (m = n)) (stored_files f) with Some (_, d) => Some d | None => None end.

#[local] Instance mem_fs : Files mem_files := {
  proc_text f := Some (f_proc f);
  fopen n f := match file_of f n with
               | Some d => (true, mkFiles (f_proc f) (stored_files f) d (out_name f) (out_data f))
               | None => (false, f)
               end;
  fread k f := (firstn k (stream f), mkFiles (f_proc f) (stored_files f) (skipn k (stream f)) (out_name f) (out_data f));
  fclose f := f;
  open_rdonly n f := match file_of f n with Some _ => (true, f) | None => (false, f) end;
  creat n f := (true, mkFiles (f_proc f) (stored_files f) (stream f) n []);
  put bs f := (Z.of_nat (length bs), mkFiles (f_proc f) (stored_files f) (stream f) (out_name f) (out_data f ++ bs));
  close_fd f := (0, mkFiles (f_proc f) ((out_name f, out_data f) :: stored_files f) (stream f) (out_name f) []);
  unlink _ f := f;
  mount _ _ _ _ f := (0, f);
  stat_mode _ _ := (0, 0);
  chmod _ _ f := (0, f)
}.

#[local] Instance mem_file_laws : FileLaws mem_files.
Proof.
  refine {| input f d := stream f = d; output f n o := out_name f = n /\ out_data f = o; contents := file_of |}.
  - intros f n d Hd. cbn. rewrite Hd. eexists. repeat split; reflexivity.
  - intros f n d x Hx Hd. cbn. rewrite Hx. eauto.
  - intros f d k <-. eexists. repeat split; reflexivity.
  - reflexivity.
  - intros f n o bs [<- <-]. eexists. repeat split; reflexivity.
  - intros f n o [<- <-]. eexists. split; [reflexivity|]. unfold file_of. cbn. now rewrite bool_decide_true.
Defined.

Definition recovery : entry := mkEntry 5 8192 2048 [114; 101; 99].
Definition recovery_blocks : flash := [Some (repeat 1 2048); None; Some (repeat 2 2048); Some (repeat 3 2048)].
Definition recovery_sys : sys mem_flash mem_files :=
  mkSys g_mtd_state (mkFlash 2048 recovery_blocks 0 0)
    (mkFiles (proc_mtd [mkEntry 0 8192 2048 [98]; recovery]) [([105], repeat 9 3000)] [] [] []).

#[local] Instance recovery_laws : Flash mem_flash (of_entry recovery) := mem_laws (of_entry recovery) (conj eq_refl eq_refl) eq_refl.

Lemma repeat_block (v : Z) n d : Some (repeat v n) = Some d -> Z.of_nat (length d) = Z.of_nat n.
Proof. intros E. apply (f_equal (from_option length 0%nat)) in E. cbn [from_option] in E. now rewrite <- E, repeat_length. Qed.

Lemma recovery_idle : idle (p := of_entry recovery) (device recovery_sys) recovery_blocks.
Proof.
  do 2 eexists. split; [reflexivity|]. split; [reflexivity|].
  repeat (apply Forall_cons; split); try apply Forall_nil_2; try (intros d E; discriminate).
  all: intros d E; exact (repeat_block _ _ _ E).
Defined.

Lemma recovery_listed fuel : (3 < fuel)%nat -> listed recovery fuel [mkEntry 0 8192 2048 [98]; recovery] recovery_sys.
Proof.
  intros Hf. split; cbn [length].
  - exact I.
  - reflexivity.
  - unfold entry_ok, name_ok, word, QUOTE. repeat constructor; cbn; lia.
  - apply (bool_decide_unpack _). vm_compute. exact I.
  - apply (bool_decide_unpack _). vm_compute. exact I.
  - apply Nat.leb_le. reflexivity.
  - lia.
  - cbn. auto.
Qed.

Lemma restore_backup_witness :
  exists s1, cmd_mtd_restore_raw_partition (fun n => repeat 0 (Z.to_nat n)) 1024 (12 * 1000) [114; 101; 99] [105] recovery_sys = ret (0, s1) /\
    forall f', creat [111] (files s1) = (true, f') -> output f' [111] [] ->
    exists s2, cmd_mtd_backup_raw_partition (fun n => repeat 0 (Z.to_nat n)) (12 * 1000) [114; 101; 99] [111] s1 = ret (0, s2) /\
      contents (files s2) [111] = Some (image recovery 6144 (repeat 9 3000)).
Proof.
  apply (restore_backup recovery (fun n => repeat 0 (Z.to_nat n)) 1024 (12 * 1000))
    with (entries := [mkEntry 0 8192 2048 [98]; recovery]) (bs := recovery_blocks) (k := 1%nat).
  - intros n Hn. apply repeat_length.
  - lia.
  - apply recovery_listed. lia.
  - exact recovery_idle.
  - reflexivity.
  - vm_compute. discriminate.
  - reflexivity.
  - rewrite repeat_length. change (length recovery_blocks) with 4%nat. change (e_erase recovery) with 2048. lia.
Defined.

Lemma erase_command_witness :
  exists s', cmd_mtd_erase_partition (fun n => repeat 0 (Z.to_nat n)) 10 [114; 101; 99] [] recovery_sys = ret (0, s') /\
    held (p := of_entry recovery) (device s') (erased (p := of_entry recovery) recovery_blocks).
Proof.
  apply (erase_command recovery (fun n => repeat 0 (Z.to_nat n)) 10) with (entries := [mkEntry 0 8192 2048 [98]; recovery]).
  - apply recovery_listed. lia.
  - exact recovery_idle.
  - discriminate.
  - cbn. lia.
Defined.

(** * Errors that are taken for success *)

(** An erase that fails before it starts gives -1, which is not zero. *)
Lemma erase_error_is_success {W F} `{Device W} `{Files F} memory fuel (s s1 : sys W F) n p ctx w w' wanted :
  scan fuel s = ret (n, s1) -> 0 < n -> mtd_find_partition_by_name wanted (state s1) = Some p ->
  mtd_write_partition p (memory (erase_size p)) (device s1) = (Some ctx, w) ->
  mtd_erase_blocks fuel ctx (-1) w = Some (-1, ctx, w') ->
  cmd_mtd_erase_raw_partition memory fuel wanted s = ret (0, set_device (set_device s1 w) w').
Proof.
  intros Es Hn Ef Ew Ee. unfold cmd_mtd_erase_raw_partition. rewrite Es. cbn [bindM ret]. rewrite (proj2 (Z.leb_gt _ _)), Ef, Ew by lia.
  cbn [device set_device]. now rewrite Ee.
Qed.

(** A file that is one byte too long for the good blocks: its last byte is never
    written, and restoring it returns 0 all the same. *)
Definition full_sys : sys mem_flash mem_files :=
  mkSys g_mtd_state (mkFlash 2048 recovery_blocks 0 0)
    (mkFiles (proc_mtd [mkEntry 0 8192 2048 [98]; recovery]) [([105], repeat 9 6144 ++ [8])] [] [] []).

Lemma restore_hides_overflow :
  match cmd_mtd_restore_raw_partition (fun n => repeat 0 (Z.to_nat n)) 1024 200 [114; 101; 99] [105] full_sys with
  | Some (Ret (r, s)) => r = 0 /\ concat (goods (f_blocks (device s))) = repeat 9 6144
  | _ => False
  end.
Proof. vm_compute. split; reflexivity. Qed.
