(* ===== verification/Bml.v ===== *)
(** Flash partitions with a reservoir of spare blocks: src/mtdutils/bml_over_mtd.c.

    Bad blocks of the partition are replaced by blocks of another partition, the
    reservoir, according to a table that is kept in one of its blocks.  The two devices
    are accessed through the interface [Device]; numbers have the widths of a 32-bit
    machine.  Messages are not modelled and memory is taken to be there. *)
From stdpp Require Import list.
From S2P Require Import Prelude CString Mtd MtdScan.

Definition u16 (z : Z) : Z := z mod 2 ^ 16.
Definition UNMAPPED : Z := 65535.
Definition EXIT_CODE_BAD_BLOCKS : Z := 15.

(** The file that is dumped to or flashed from: opening, the size by [fstat], reading
    (the result is -1 for an error), closing; creating, writing and removing. *)
Class BmlFiles (F : Type) := {
  b_proc : F -> option (list Z);
  open_in : list Z -> F -> bool * F;
  fstat_size : F -> option Z;
  read_in : nat -> F -> Z * list Z * F;
  close_in : F -> Z * F;
  open_out : list Z -> F -> bool * F;
  write_out : list Z -> F -> Z * F;
  close_out : F -> Z * F;
  unlink_out : list Z -> F -> F
}.

Section Bml.
Context {W F : Type} `{Device W} `{BmlFiles F}.
Context (memory : Z -> list Z) (fuel : nat).

(** The two devices. *)
Record devices := mkDevices { src : W; res : W }.

(** When the device cannot be opened, the context is freed and then used. *)
Definition bml_over_mtd_read_partition (p : MtdPartition) (w : W) : outcome (list Z * W) :=
  let '(ok, w) := open_mtd (device_index p) false w in
  if ok then Ret (memory (erase_size p), w) else Fault.
Definition bml_over_mtd_read_close (w : W) : W := (close w).2.

Definition bml_over_mtd_write_partition (p : MtdPartition) (w : W) : option (list Z) * W :=
  let '(ok, w) := open_mtd (device_index p) true w in
  if ok then (Some (memory (erase_size p)), w) else (None, w).
Definition bml_over_mtd_write_close (w : W) : Z * W :=
  let '(c, w) := close w in (if negb (c =? 0) then -1 else 0, w).

(** * The table of mapped blocks *)

(** A quotient of unsigned numbers. *)
Definition quotient (a b : Z) : outcome Z := if b =? 0 then Fault else Ret (a / b).

Definition CreateEmptyBlockMapping (p : MtdPartition) (w : W) : outcome (option (list Z) * W) :=
  let '(info, w) := mtd_partition_info p w in
  match info with
  | None => Ret (None, w)
  | Some (srcTotal, srcErase, _) => let! n := quotient srcTotal srcErase in Ret (Some (repeat UNMAPPED (Z.to_nat n)), w)
  end.

(** A 16-bit number of the table, which starts at 0x1000 of the block. *)
Definition mapping_at (buf : list Z) (i : nat) : Z := get buf (4096 + 2 * i) + 256 * get buf (4096 + 2 * i + 1).

(** What an entry does to the mapping; [None] when the block it names is not in the
    part of the reservoir before the table. *)
Definition map_entry (srcStart resStart num erase currOffset rawSrc rawDst : Z) (m : list Z) : option (list Z) :=
  if (rawDst <? resStart) || (u32 (u32 (resStart * erase) + currOffset) <=? u32 (rawDst * erase)) then None
  else if (srcStart <=? rawSrc) && (rawSrc <=? srcStart + num - 1)
  then Some (<[Z.to_nat (u16 (rawSrc - srcStart)) := u16 (rawDst - resStart)]> m)
  else Some m.

(** The entries, up to 0xffff or a hundred numbers: whether the table is sound, and the
    mapping. *)
Fixpoint map_entries (n : nat) (srcStart resStart num erase currOffset : Z) (buf : list Z) (i : nat) (m : list Z) : bool * list Z :=
  match n with
  | O => (true, m)
  | S n =>
      if mapping_at buf i =? UNMAPPED then (true, m)
      else match map_entry srcStart resStart num erase currOffset (mapping_at buf i) (mapping_at buf (S i)) m with
           | None => (false, m)
           | Some m => map_entries n srcStart resStart num erase currOffset buf (S (S i)) m
           end
  end.

Definition is_table (buf : list Z) : bool :=
  (get buf 0 =? 85) && (get buf 1 =? 80) && (get buf 2 =? 67) && (get buf 3 =? 72) &&
  (mapping_at buf 0 =? 0) && (mapping_at buf 1 =? UNMAPPED).

(** The search from the end of the reservoir: [None] when a good block cannot be read,
    else whether a table was found and the mapping. *)
Fixpoint search_table (fuel : nat) (srcStart resStart num erase currOffset : Z) (buf m : list Z) (w : W) : M (option (bool * list Z) * W) :=
  match fuel with
  | O => None
  | S fuel =>
      if 0 <? currOffset then
        let currOffset := currOffset - erase in
        let '(pos, w) := seek_set currOffset w in
        if negb ((bad_block pos w).1 =? 0) then search_table fuel srcStart resStart num erase currOffset buf m w
        else
          let '(n, bs, w) := read (Z.to_nat erase) w in
          let buf := blit buf 0 (firstn (length buf) bs) in
          if negb (n =? erase) then ret (None, w)
          else if (8192 <=? n) && is_table buf
          then ret (Some (map_entries 49 srcStart resStart num erase currOffset buf 2 m), w)
          else search_table fuel srcStart resStart num erase currOffset buf m w
      else ret (Some (false, m), w)
  end.

(** The check of every block: a good block is not mapped, a bad one is mapped to a good
    block of the reservoir. *)
Definition check_mapped (q : MtdPartition) (erase d : Z) (w : W) : outcome (bool * W) :=
  let! r := bml_over_mtd_read_partition q w in
  let '(_, w) := r in
  let '(pos, w) := seek_set (u32 (d * erase)) w in
  let ok := (bad_block pos w).1 =? 0 in
  Ret (ok, bml_over_mtd_read_close w).

Fixpoint check_blocks (n : nat) (q : MtdPartition) (erase : Z) (m : list Z) (i : nat) (valid : bool) (ds : devices) : outcome (bool * devices) :=
  match n with
  | O => Ret (valid, ds)
  | S n =>
      let '(pos, w) := seek_set (u32 (Z.of_nat i * erase)) (src ds) in
      let ds := mkDevices w (res ds) in
      if (bad_block pos w).1 =? 0 then check_blocks n q erase m (S i) (valid && (get m i =? UNMAPPED)) ds
      else if get m i =? UNMAPPED then check_blocks n q erase m (S i) false ds
      else
        let! r := check_mapped q erase (get m i) (res ds) in
        let '(ok, w) := r in check_blocks n q erase m (S i) (valid && ok) (mkDevices (src ds) w)
  end.

Definition CreateBlockMapping (p : MtdPartition) (srcStart : Z) (q : MtdPartition) (resStart : Z) (ds : devices) : M (option (list Z) * devices) :=
  let '(info, w) := mtd_partition_info p (src ds) in
  let ds := mkDevices w (res ds) in
  match info with
  | None => ret (None, ds)
  | Some (srcTotal, srcErase, srcWrite) =>
      do! num := lift (quotient srcTotal srcErase) in
      let m := repeat UNMAPPED (Z.to_nat num) in
      let '(info, w) := mtd_partition_info q (res ds) in
      let ds := mkDevices (src ds) w in
      match info with
      | None => ret (None, ds)
      | Some (total, erase, write) =>
          if negb (erase =? srcErase) || negb (write =? srcWrite) then ret (None, ds)
          else
            do! r := lift (bml_over_mtd_read_partition q (res ds)) in
            let '(buf, w) := r in
            if (total <? erase) || (2 ^ 31 - 1 <? total) then ret (None, mkDevices (src ds) (bml_over_mtd_read_close w))
            else
              do! r := search_table fuel srcStart resStart num erase total buf m w in
              let '(found, w) := r in
              let ds := mkDevices (src ds) (bml_over_mtd_read_close w) in
              match found with
              | Some (true, m) =>
                  do! r := lift (bml_over_mtd_read_partition p (src ds)) in
                  let '(_, w) := r in
                  do! r := lift (check_blocks (Z.to_nat num) q erase m 0 true (mkDevices w (res ds))) in
                  let '(valid, ds) := r in
                  ret (if valid : bool then Some m else None, mkDevices (bml_over_mtd_read_close (src ds)) (res ds))
              | _ => ret (None, ds)
              end
      end
  end.

(** * Dumping *)

(** A block in as many reads as it takes; [None] for an error or the end. *)
Fixpoint read_whole (fuel : nat) (size : Z) (buf : list Z) (got : Z) (w : W) : option (option (list Z) * W) :=
  match fuel with
  | O => None
  | S fuel =>
      if got <? size then
        let '(len, bs, w) := read (Z.to_nat (size - got)) w in
        if len <=? 0 then Some (None, w)
        else read_whole fuel size (blit buf (Z.to_nat got) (firstn (length buf - Z.to_nat got) bs)) (got + len) w
      else Some (Some buf, w)
  end.

Fixpoint write_whole (fuel : nat) (data : list Z) (f : F) : option (bool * F) :=
  match fuel with
  | O => None
  | S fuel =>
      match data with
      | [] => Some (true, f)
      | _ => let '(len, f) := write_out data f in
             if len <=? 0 then Some (false, f) else write_whole fuel (skipn (Z.to_nat len) data) f
      end
  end.

Definition loop {A} (m : option A) : M A := match m with Some x => ret x | None => None end.

(** The device a block is on, by the mapping, and its number there. *)
Definition place (m : list Z) (i : nat) : bool * Z :=
  if get m i =? UNMAPPED then (true, Z.of_nat i) else (false, get m i).
Definition dev (ds : devices) (on_src : bool) : W := if on_src then src ds else res ds.
Definition set_dev (ds : devices) (on_src : bool) (w : W) : devices := if on_src then mkDevices w (res ds) else mkDevices (src ds) w.

(** The blocks from [i] on, whether each was read and written. *)
Fixpoint dump_blocks (n : nat) (size : Z) (m : list Z) (i : nat) (buf : list Z) (ds : devices) (f : F) : M (bool * devices * F) :=
  match n with
  | O => ret (true, ds, f)
  | S n =>
      let '(on_src, b) := place m i in
      let '(pos, w) := seek_set (u32 (b * size)) (dev ds on_src) in
      if pos =? -1 then ret (false, set_dev ds on_src w, f)
      else
        do! r := loop (read_whole fuel size buf 0 w) in
        let '(blk, w) := r in
        let ds := set_dev ds on_src w in
        match blk with
        | None => ret (false, ds, f)
        | Some buf =>
            do! r := loop (write_whole fuel buf f) in
            let '(ok, f) := r in
            if negb ok then ret (false, ds, f) else dump_blocks n size m (S i) buf ds f
        end
  end.

Definition close_readers (ds : devices) : devices := mkDevices (bml_over_mtd_read_close (src ds)) (bml_over_mtd_read_close (res ds)).

Definition dump_bml_partition (p q : MtdPartition) (m : list Z) (filename : list Z) (ds : devices) (f : F) : M (Z * devices * F) :=
  let '(ok, f) := open_out filename f in
  if negb ok then ret (-1, ds, f)
  else
    do! r := lift (bml_over_mtd_read_partition p (src ds)) in
    let '(buf, ws) := r in
    do! r := lift (bml_over_mtd_read_partition q (res ds)) in
    let '(_, wr) := r in
    do! n := lift (quotient (size p) (erase_size p)) in
    do! r := dump_blocks (Z.to_nat n) (erase_size p) m 0 buf (mkDevices ws wr) f in
    let '(ok, ds, f) := r in
    if negb ok then let '(_, f) := close_out f in ret (-1, close_readers ds, f)
    else
      let ds := close_readers ds in
      let '(c, f) := close_out f in
      if negb (c =? 0) then ret (-1, ds, unlink_out filename f) else ret (0, ds, f).

(** * Flashing *)

Definition bml_over_mtd_write_block (p : MtdPartition) (data : list Z) (w : W) : Z * W :=
  let pos := seek_cur w in
  if pos =? -1 then (-1, w)
  else if known_bad pos w then (-1, w)
  else let '(ok, w) := try_write 2 p pos data w in (if ok then erase_size p else -1, w).

(** A block of the file, the rest of it 0xff after the end of the file. *)
Fixpoint read_file (fuel : nat) (size : Z) (buf : list Z) (got : Z) (f : F) : option (option (list Z) * F) :=
  match fuel with
  | O => None
  | S fuel =>
      if got <? size then
        let '(len, bs, f) := read_in (Z.to_nat (size - got)) f in
        if len <? 0 then Some (None, f)
        else if len =? 0 then Some (Some buf, f)
        else read_file fuel size (blit buf (Z.to_nat got) (firstn (length buf - Z.to_nat got) bs)) (got + len) f
      else Some (Some buf, f)
  end.

(** The blocks of the file; the write of a block takes one call, which writes all of it
    or fails. *)
Fixpoint flash_blocks (n : nat) (p : MtdPartition) (m : list Z) (i : nat) (ds : devices) (f : F) : M (bool * devices * F) :=
  match n with
  | O => ret (true, ds, f)
  | S n =>
      do! r := loop (read_file fuel (erase_size p) (repeat 255 (Z.to_nat (erase_size p))) 0 f) in
      let '(blk, f) := r in
      match blk with
      | None => ret (false, ds, f)
      | Some buf =>
          let '(on_src, b) := place m i in
          let '(pos, w) := seek_set (u32 (b * erase_size p)) (dev ds on_src) in
          if pos =? -1 then ret (false, set_dev ds on_src w, f)
          else
            let '(len, w) := bml_over_mtd_write_block p buf w in
            let ds := set_dev ds on_src w in
            if len <=? 0 then ret (false, ds, f) else flash_blocks n p m (S i) ds f
      end
  end.

Definition close_writers (ds : devices) : devices :=
  mkDevices (bml_over_mtd_write_close (src ds)).2 (bml_over_mtd_write_close (res ds)).2.

Definition flash_bml_partition (p q : MtdPartition) (m : list Z) (filename : list Z) (ds : devices) (f : F) : M (Z * devices * F) :=
  let '(ok, f) := open_in filename f in
  if negb ok then ret (-1, ds, f)
  else
    let '(ctx, w) := bml_over_mtd_write_partition p (src ds) in
    let ds := mkDevices w (res ds) in
    match ctx with
    | None => let '(_, f) := close_in f in ret (-1, ds, f)
    | Some _ =>
        let '(ctx, w) := bml_over_mtd_write_partition q (res ds) in
        let ds := mkDevices (src ds) w in
        match ctx with
        | None => let '(_, f) := close_in f in ret (-1, mkDevices (bml_over_mtd_write_close (src ds)).2 (res ds), f)
        | Some _ =>
            match fstat_size f with
            | None => let '(_, f) := close_in f in ret (-1, close_writers ds, f)
            | Some st_size =>
                if size p <? st_size then let '(_, f) := close_in f in ret (-1, close_writers ds, f)
                else
                  do! n := lift (quotient (st_size + erase_size p - 1) (erase_size p)) in
                  do! r := flash_blocks (Z.to_nat n) p m 0 ds f in
                  let '(ok, ds, f) := r in
                  let ds := close_writers ds in
                  let '(c, f) := close_in f in
                  ret (if negb ok || negb (c =? 0) then -1 else 0, ds, f)
            end
        end
    end.

(** * The program *)

(** The number of blocks that are reported as bad decides the result. *)
Fixpoint count_bad (n : nat) (e : Z) (i : nat) (w : W) : nat :=
  match n with
  | O => O
  | S n => let bad := count_bad n e (S i) w in if (bad_block (u32 (Z.of_nat i * e)) w).1 =? 0 then bad else S bad
  end.

Definition scan_partition (p : MtdPartition) (w : W) : outcome (Z * W) :=
  let! r := bml_over_mtd_read_partition p w in
  let '(_, w) := r in
  let! n := quotient (size p) (erase_size p) in
  let bad := count_bad (Z.to_nat n) (erase_size p) 0 w in
  Ret (if (bad =? 0)%nat then 0 else -1, bml_over_mtd_read_close w).

Definition atoi (s : list Z) : Z := match number 10 s with Some (v, _) => v | None => 0 end.

Definition SCAN : list Z := [115; 99; 97; 110].
Definition DUMP : list Z := [100; 117; 109; 112].
Definition FLASH : list Z := [102; 108; 97; 115; 104].
Definition arg (argv : list (list Z)) (i : nat) : list Z := nth i argv [].
Definition same (s t : list Z) : bool := strcmp_chars s t =? 0.

(** [argv] with the name of the program; the result of [main]. *)
Definition bml_main (argv : list (list Z)) (st : MtdState) (ds : devices) (f : F) : M (Z * devices * F) :=
  let argc := length argv in
  if negb (argc =? 7)%nat && (negb (argc =? 3)%nat || negb (same (arg argv 1) SCAN)) && (negb (argc =? 6)%nat || negb (same (arg argv 1) SCAN))
  then ret (1, ds, f)
  else
    do! r := mtd_scan_partitions fuel (b_proc f) st in
    let '(_, st) := r in
    match mtd_find_partition_by_name (arg argv 2) st with
    | None => ret (1, ds, f)
    | Some p =>
        do! r := lift (scan_partition p (src ds)) in
        let '(scanResult, w) := r in
        let ds := mkDevices w (res ds) in
        if (argc =? 3)%nat && same (arg argv 1) SCAN then ret (if scanResult =? 0 then 0 else EXIT_CODE_BAD_BLOCKS, ds, f)
        else
          match mtd_find_partition_by_name (arg argv 4) st with
          | None => ret (1, ds, f)
          | Some q =>
              do! r := CreateBlockMapping p (atoi (arg argv 3)) q (atoi (arg argv 5)) ds in
              let '(m, ds) := r in
              do! r := (match m with
                        | None => if scanResult =? 0
                                  then do! r := lift (CreateEmptyBlockMapping p (src ds)) in
                                       let '(m, w) := r in ret (m, mkDevices w (res ds))
                                  else ret (None, ds)
                        | Some m => ret (Some m, ds)
                        end) in
              let '(m, ds) := r in
              let retVal := if (argc =? 6)%nat && same (arg argv 1) SCAN then (if scanResult =? 0 then 0 else EXIT_CODE_BAD_BLOCKS) else 0 in
              match m with
              | None => ret (1, ds, f)
              | Some m =>
                  if same (arg argv 1) DUMP then dump_bml_partition p q m (arg argv 6) ds f
                  else if same (arg argv 1) FLASH then flash_bml_partition p q m (arg argv 6) ds f
                  else ret (retVal, ds, f)
              end
          end
    end.
End Bml.
Arguments devices : clear implicits.

(** * The mapping *)

(** What the table in a reservoir with the blocks [rs] says, as a function of the
    blocks alone: the last good block that holds a table counts. *)
Section Spec.
Context (srcStart resStart num e : Z).

Fixpoint table_of (i : nat) (rs : flash) (m : list Z) : bool * list Z :=
  match i with
  | O => (false, m)
  | S i =>
      match rs !! i with
      | Some (Some d) =>
          if (8192 <=? e) && is_table d then map_entries 49 srcStart resStart num e (e * Z.of_nat i) d 2 m else table_of i rs m
      | _ => table_of i rs m
      end
  end.

(** The block of the reservoir that a number of the mapping stands for: offsets have 32
    bits. *)
Definition slot (d : Z) : nat := Z.to_nat (d mod (2 ^ 32 / e)).

Definition good_block (bs : flash) (i : nat) : bool := match bs !! i with Some (Some _) => true | _ => false end.

(** Good blocks are not mapped and bad blocks are mapped to good blocks. *)
Definition consistent (bs rs : flash) (m : list Z) (i : nat) : bool :=
  if good_block bs i then get m i =? UNMAPPED else negb (get m i =? UNMAPPED) && good_block rs (slot (get m i)).

Definition mapping_of (bs rs : flash) : option (list Z) :=
  let '(found, m) := table_of (length rs) rs (repeat UNMAPPED (length bs)) in
  if found && forallb (consistent bs rs m) (seq 0 (length bs)) then Some m else None.
End Spec.

Section Mapping.
Context {W F : Type} (p q : MtdPartition) `{!Device W, !Flash W p, !Flash W q}.
Context (memory : Z -> list Z) (fuel : nat).
Context (Hmemory : forall n, 0 <= n -> length (memory n) = Z.to_nat n).
Context (Hsame : erase_size p = erase_size q) (Hdiv : (erase_size q | 2 ^ 32)).
Abbreviation e := (erase_size q).

Lemma slot_offset d : u32 (d * e) = e * Z.of_nat (slot e d).
Proof.
  pose proof (erase_size_pos (p := q)) as He. destruct Hdiv as [k Hk]. unfold slot, u32.
  assert (Hk0 : 0 < k) by nia. replace (2 ^ 32 / e) with k by (rewrite Hk, Z.div_mul; lia).
  rewrite Hk, Z.mul_mod_distr_r by lia. pose proof (Z.mod_pos_bound d k ltac:(lia)). rewrite Z2Nat.id by lia. lia.
Qed.

(** Whether [MEMGETBADBLOCK] finds a block good, inside the device or not. *)
Lemma bad_block_good {r} `{!Flash W r} (w : W) (bs : flash) pos ecc i : rep (p := r) w bs pos ecc ->
  ((bad_block (erase_size r * Z.of_nat i) w).1 =? 0) = good_block bs i.
Proof.
  intros R. unfold good_block. destruct (bs !! i) as [[d|]|] eqn:E.
  - now rewrite (rep_good _ _ _ _ _ _ R E).
  - pose proof (rep_bad _ _ _ _ _ R E). apply Z.eqb_neq. lia.
  - apply Z.eqb_neq. apply (rep_beyond _ _ _ _ _ R). right. destruct (rep_wf _ _ _ _ R) as [-> _].
    apply lookup_ge_None in E. pose proof (erase_size_pos (p := r)). nia.
Qed.

Lemma search_table_spec i : forall fuel srcStart resStart num (w : W) rs pos ecc buf m,
  rep (p := q) w rs pos ecc -> (i <= length rs)%nat -> (i < fuel)%nat -> Z.of_nat (length buf) = e ->
  exists w', search_table fuel srcStart resStart num e (e * Z.of_nat i) buf m w =
    ret (Some (table_of srcStart resStart num e i rs m), w') /\ held (p := q) w' rs.
Proof.
  pose proof (erase_size_pos (p := q)) as He.
  induction i as [|i IH]; intros [|fuel'] srcStart resStart num w rs pos ecc buf m R Hi Hf Hb; try lia; cbn [search_table table_of].
  { rewrite Z.mul_0_r. eexists. split; [reflexivity|]. do 2 eexists. exact R. }
  rewrite (proj2 (Z.ltb_lt 0 _)) by lia. replace (e * Z.of_nat (S i) - e) with (e * Z.of_nat i) by lia.
  destruct (rep_seek_block w _ _ _ i R) as (w1 & -> & R1); [lia|]. rewrite (bad_block_good _ _ _ _ _ R1). unfold good_block.
  destruct (rs !! i) as [[d|]|] eqn:Ei; cbn [negb]; [|eapply IH; eauto; lia..].
  destruct (rep_read _ _ _ _ _ R1 Ei) as (w2 & -> & R2). rewrite Z.eqb_refl. cbn [negb].
  pose proof (rep_block _ _ _ _ _ _ R2 Ei) as Hd.
  rewrite blit_over by lia. destruct (_ && _); [eexists; split; [reflexivity|]; do 2 eexists; exact R2|]. eapply IH; eauto; lia.
Qed.

Lemma read_partition_spec {r} `{!Flash W r} (w : W) (bs : flash) : idle (p := r) w bs ->
  exists w' ecc, bml_over_mtd_read_partition memory r w = Ret (memory (erase_size r), w') /\ rep (p := r) w' bs 0 ecc.
Proof. intros Hi. unfold bml_over_mtd_read_partition. destruct (rep_open w bs false Hi) as (w' & ecc & -> & R). eauto. Qed.

Lemma read_close_spec {r} `{!Flash W r} (w : W) (bs : flash) : held (p := r) w bs -> idle (p := r) (bml_over_mtd_read_close w) bs.
Proof. exact (mtd_read_close_spec (p := r) w bs). Qed.

(** Seeking to a block and asking whether it is good. *)
Lemma seek_good {r} `{!Flash W r} (w : W) (bs : flash) pos ecc i : rep (p := r) w bs pos ecc ->
  exists o w', seek_set (erase_size r * Z.of_nat i) w = (o, w') /\ ((bad_block o w').1 =? 0) = good_block bs i /\ held (p := r) w' bs.
Proof.
  intros R. destruct (decide (i <= length bs)%nat) as [Hle|Hgt].
  - destruct (rep_seek_block (p := r) w bs pos ecc i R Hle) as (w' & E & R'). exists (erase_size r * Z.of_nat i), w'.
    split; [exact E|]. split; [apply (bad_block_good (r := r) _ _ _ _ _ R')|do 2 eexists; exact R'].
  - destruct (rep_seek_any w bs pos ecc (erase_size r * Z.of_nat i) R) as (o & w' & pos' & E & Ho & R'). exists o, w'. split; [exact E|].
    split; [|do 2 eexists; exact R']. unfold good_block. rewrite lookup_ge_None_2 by lia.
    apply Z.eqb_neq, (rep_beyond _ _ _ _ _ R'). destruct (rep_wf _ _ _ _ R) as [-> _]. pose proof (erase_size_pos (p := r)).
    destruct Ho as [->| ->]; [right; nia|now left].
Qed.

Lemma check_mapped_spec (w : W) rs d : idle (p := q) w rs ->
  exists w', check_mapped memory q e d w = Ret (good_block rs (slot e d), w') /\ idle (p := q) w' rs.
Proof.
  intros Hi. unfold check_mapped. destruct (read_partition_spec (r := q) w rs Hi) as (w1 & ecc & -> & R1). cbn [bind].
  rewrite slot_offset. destruct (seek_good (r := q) w1 rs 0 ecc (slot e d) R1) as (o & w2 & -> & Eg & Hh).
  rewrite Eg. eexists. split; [reflexivity|]. now apply (read_close_spec (r := q)).
Qed.

(** The check of the blocks, as a function of the blocks. *)
Lemma check_blocks_spec n : forall i m bs rs valid ds ecc pos,
  rep (p := p) (src ds) bs pos ecc -> idle (p := q) (res ds) rs -> (i + n <= length bs)%nat ->
  exists ds', check_blocks memory n q e m i valid ds = Ret (valid && forallb (consistent e bs rs m) (seq i n), ds') /\
    held (p := p) (src ds') bs /\ idle (p := q) (res ds') rs.
Proof.
  induction n as [|n IH]; intros i m bs rs valid ds ecc pos R Hi Hn; cbn [check_blocks seq forallb].
  { rewrite andb_true_r. eexists. split; [reflexivity|]. split; [do 2 eexists; exact R|exact Hi]. }
  destruct (rep_wf _ _ _ _ R) as [Hsz _]. pose proof (size_small (p := p)) as Hsm. pose proof (erase_size_pos (p := p)) as He. rewrite Hsame in *.
  replace (u32 (Z.of_nat i * e)) with (erase_size p * Z.of_nat i) by (rewrite Hsame, u32_small; nia).
  destruct (rep_seek_block (p := p) _ _ _ _ i R) as (w1 & -> & R1); [lia|].
  rewrite (bad_block_good (r := p) _ _ _ _ _ R1). unfold consistent at 1. destruct (good_block bs i).
  { destruct (IH (S i) m bs rs (valid && (get m i =? UNMAPPED)) (mkDevices w1 (res ds)) _ _ R1 Hi ltac:(lia)) as (ds' & E & Hh).
    exists ds'. rewrite E, andb_assoc. auto. }
  destruct (get m i =? UNMAPPED); cbn [negb andb].
  { destruct (IH (S i) m bs rs false (mkDevices w1 (res ds)) _ _ R1 Hi ltac:(lia)) as (ds' & E & Hh). exists ds'. rewrite E, andb_false_r. auto. }
  destruct (check_mapped_spec (res ds) rs (get m i) Hi) as (w2 & E2 & Hi2). cbn [res]. rewrite E2. cbn [bind].
  destruct (IH (S i) m bs rs (valid && good_block rs (slot e (get m i))) (mkDevices w1 w2) _ _ R1 Hi2 ltac:(lia)) as (ds' & E & Hh).
  exists ds'. cbn [src]. rewrite E, andb_assoc. auto.
Qed.

Lemma blocks_of {r} `{!Flash W r} (w : W) (bs : flash) : idle (p := r) w bs -> size r = erase_size r * Z.of_nat (length bs).
Proof. intros Hi. destruct (rep_open w bs false Hi) as (w' & ecc & _ & R). now destruct (rep_wf _ _ _ _ R). Qed.

(** The mapping that is created is the one the blocks determine, and the devices are
    left as they were. *)
Lemma CreateBlockMapping_spec srcStart resStart ds bs rs ws :
  idle (p := p) (src ds) bs -> idle (p := q) (res ds) rs -> (length rs < fuel)%nat ->
  (mtd_partition_info p (src ds)).1 = Some (size p, erase_size p, ws) -> (mtd_partition_info q (res ds)).1 = Some (size q, e, ws) ->
  exists ds', CreateBlockMapping memory fuel p srcStart q resStart ds =
    ret (mapping_of srcStart resStart (Z.of_nat (length bs)) e bs rs, ds') /\ idle (p := p) (src ds') bs /\ idle (p := q) (res ds') rs.
Proof.
  intros Hp Hq Hf Ip Iq. pose proof (erase_size_pos (p := q)) as He. pose proof (blocks_of (r := p) _ _ Hp) as Sp. pose proof (blocks_of (r := q) _ _ Hq) as Sq.
  unfold CreateBlockMapping. destruct (mtd_partition_info_spec (p := p) (src ds) bs Hp) as (ws1 & w1 & E1 & Hp1). rewrite E1 in *. injection Ip as ->.
  rewrite Hsame in *. cbn [res src]. unfold quotient. rewrite (proj2 (Z.eqb_neq e 0)) by lia. cbn [lift bindM].
  replace (size p / e) with (Z.of_nat (length bs)) by (rewrite Sp, Z.mul_comm, Z.div_mul; lia). rewrite Nat2Z.id.
  destruct (mtd_partition_info_spec (p := q) (res ds) rs Hq) as (ws2 & w2 & E2 & Hq2). rewrite E2 in *. injection Iq as ->.
  rewrite !Z.eqb_refl. cbn [negb orb res src]. destruct (read_partition_spec (r := q) w2 rs Hq2) as (w3 & ecc3 & -> & R3). cbn [lift bindM].
  unfold mapping_of. destruct (Z.ltb_spec (size q) e) as [Hz|Hz]; cbn [orb].
  { assert (Hlen : length rs = 0%nat) by nia. rewrite Hlen. cbn [table_of]. eexists. split; [reflexivity|]. split; [exact Hp1|].
    apply (read_close_spec (r := q)). do 2 eexists. exact R3. }
  pose proof (size_small (p := q)) as Hsm. rewrite (proj2 (Z.ltb_ge (2 ^ 31 - 1) (size q))) by lia. rewrite Sq.
  destruct (search_table_spec (length rs) fuel srcStart resStart (Z.of_nat (length bs)) w3 rs 0 ecc3 (memory e) (repeat UNMAPPED (length bs)) R3)
    as (w4 & -> & Hh4); [lia|lia|rewrite Hmemory; lia|].
  cbn [bindM ret]. apply (read_close_spec (r := q)) in Hh4. destruct (table_of _ _ _ _ _ _ _) as [[|] m]; cbn [andb].
  2:{ eexists. split; [reflexivity|]. auto. }
  cbn [src res]. destruct (read_partition_spec (r := p) w1 bs Hp1) as (w5 & ecc5 & -> & R5). cbn [lift bindM].
  destruct (check_blocks_spec (length bs) 0 m bs rs true (mkDevices w5 (bml_over_mtd_read_close w4)) _ _ R5 Hh4) as (ds6 & -> & Hh6 & Hi6); [lia|].
  cbn [lift bindM andb]. eexists. split; [reflexivity|]. split; [now apply (read_close_spec (r := p))|exact Hi6].
Qed.
End Mapping.
