(* ===== verification/BmlFlash.v ===== *)
(** Flashing and dumping of partitions with a reservoir (src/mtdutils/bml_over_mtd.c):
    what is flashed is what a dump gives back, with the bad blocks replaced. *)
From stdpp Require Import list.
From S2P Require Import Prelude CString Mtd MtdScan Bml.

(** What the files promise: [b_input f d] says that [d] is left to be read, [b_output f
    n o] that [o] has been written to the file [n].  A read gives at least one byte
    before the end of the file and a write takes at least one, but both may be short. *)
Class BmlFileLaws (F : Type) `{BmlFiles F} := {
  b_input : F -> list Z -> Prop;
  b_output : F -> list Z -> list Z -> Prop;
  b_contents : F -> list Z -> option (list Z);
  open_in_ok f n d : b_contents f n = Some d ->
    exists f', open_in n f = (true, f') /\ fstat_size f' = Some (Z.of_nat (length d)) /\ b_input f' d;
  read_in_ok f d k : b_input f d -> (0 < k)%nat ->
    exists j f', read_in k f = (Z.of_nat j, firstn j d, f') /\ (j <= k)%nat /\ (j <= length d)%nat /\ (d <> [] -> (0 < j)%nat) /\ b_input f' (skipn j d);
  close_in_ok f d : b_input f d -> exists f', close_in f = (0, f');
  write_out_ok f n o bs : b_output f n o -> bs <> [] ->
    exists j f', write_out bs f = (Z.of_nat j, f') /\ (0 < j <= length bs)%nat /\ b_output f' n (o ++ firstn j bs);
  close_out_ok f n o : b_output f n o -> exists f', close_out f = (0, f') /\ b_contents f' n = Some o
}.

(** * The blocks of the partition as the mapping shows them *)

Section View.
Context (e : Z).

(** The device of a block ([true] for the partition, [false] for the reservoir) and its
    number there. *)
Definition located (m : list Z) (i : nat) : bool * nat :=
  if get m i =? UNMAPPED then (true, i) else (false, slot e (get m i)).

Definition on (both : flash * flash) (b : bool) : flash := if b then both.1 else both.2.
Definition put_on (both : flash * flash) (l : bool * nat) (d : list Z) : flash * flash :=
  if l.1 then (<[l.2 := Some d]> both.1, both.2) else (both.1, <[l.2 := Some d]> both.2).

(** The contents of a block, wherever it is. *)
Definition view (both : flash * flash) (m : list Z) (i : nat) : option (list Z) := mjoin (on both (located m i).1 !! (located m i).2).

(** Every block is on a good block, and no two are on the same. *)
Definition placed (both : flash * flash) (m : list Z) (n : nat) : Prop :=
  (forall i, (i < n)%nat -> is_Some (view both m i)) /\
  (forall i j, (i < n)%nat -> (j < n)%nat -> located m i = located m j -> i = j).

Lemma view_lookup both m i d : view both m i = Some d <-> on both (located m i).1 !! (located m i).2 = Some (Some d).
Proof. unfold view. destruct (_ !! _) as [[x|]|]; cbn; split; congruence. Qed.

Lemma view_put both m n i j d : placed both m n -> (i < n)%nat -> (j < n)%nat ->
  view (put_on both (located m i) d) m j = if decide (i = j) then Some d else view both m j.
Proof.
  intros [Hv Hinj] Hi Hj. destruct (Hv i Hi) as [old Ho]. apply view_lookup in Ho. destruct (decide (i = j)) as [<-|Hne].
  - apply view_lookup. unfold put_on, on in *. destruct (located m i) as [[|] k]; cbn in *; apply list_lookup_insert_eq; eapply lookup_lt_Some, Ho.
  - assert (Hd : located m i <> located m j) by (intros E; apply Hne; now apply Hinj).
    unfold view, put_on, on. destruct (located m i) as [[|] k], (located m j) as [[|] l]; cbn; try reflexivity;
      (rewrite list_lookup_insert_ne; [reflexivity|congruence]).
Qed.

Lemma placed_put both m n i d : placed both m n -> (i < n)%nat -> placed (put_on both (located m i) d) m n.
Proof.
  intros Hp Hi. split; [|apply Hp]. intros j Hj. rewrite (view_put both m n) by assumption. destruct (decide (i = j)); [eauto|]. now apply Hp.
Qed.
End View.

Section Flash.
Context {W F : Type} (p q : MtdPartition) `{!Device W, !Flash W p, !Flash W q} `{BmlFileLaws F}.
Context (memory : Z -> list Z) (fuel : nat).
Context (Hmemory : forall n, 0 <= n -> length (memory n) = Z.to_nat n).
Context (Hsame : erase_size p = erase_size q) (Hdiv : (erase_size q | 2 ^ 32)).
Abbreviation e := (erase_size q).

(** Both devices are open, with the blocks [both]. *)
Definition opened (ds : devices W) (both : flash * flash) : Prop := held (p := p) (src ds) both.1 /\ held (p := q) (res ds) both.2.

(** Seeking to the place of a block, and what can be done there. *)
Lemma seek_place ds both m n i : opened ds both -> placed e both m n -> (i < n)%nat -> (i < length both.1)%nat ->
  exists w, seek_set (u32 ((place m i).2 * erase_size p)) (dev ds (place m i).1) = (e * Z.of_nat (located e m i).2, w) /\
    (place m i).1 = (located e m i).1 /\
    exists ecc, if (located e m i).1 then rep (p := p) w both.1 (e * Z.of_nat (located e m i).2) ecc
                else rep (p := q) w both.2 (e * Z.of_nat (located e m i).2) ecc.
Proof.
  intros [(pos1 & ecc1 & R1) (pos2 & ecc2 & R2)] [Hv _] Hi Hl. destruct (Hv i Hi) as [d Hd]. apply view_lookup in Hd.
  unfold place, located, on, dev in *. pose proof (erase_size_pos (p := p)) as He.
  destruct (get m i =? UNMAPPED); cbn [fst snd] in *.
  - destruct (rep_wf _ _ _ _ R1) as [Hsz _]. pose proof (size_small (p := p)). rewrite Hsame in *.
    replace (u32 (Z.of_nat i * e)) with (e * Z.of_nat i) by (rewrite u32_small; nia).
    destruct (rep_seek_block (p := p) _ _ _ _ i R1) as (w & E & R); [lia|]. rewrite Hsame in *. eauto.
  - rewrite Hsame, (slot_offset q Hdiv). apply lookup_lt_Some in Hd.
    destruct (rep_seek_block (p := q) _ _ _ _ (slot e (get m i)) R2) as (w & E & R); [lia|]. eauto.
Qed.

(** ** Dumping *)

Lemma read_whole_spec {r} `{!Flash W r} f (w : W) (bs : flash) i ecc d buf :
  rep (p := r) w bs (erase_size r * Z.of_nat i) ecc -> bs !! i = Some (Some d) -> length buf = length d ->
  exists w', read_whole (S (S f)) (erase_size r) buf 0 w = Some (Some d, w') /\ held (p := r) w' bs.
Proof.
  intros R Hi Hb. pose proof (erase_size_pos (p := r)) as He. pose proof (rep_block _ _ _ _ _ _ R Hi) as Hd.
  cbn [read_whole]. rewrite (proj2 (Z.ltb_lt 0 _)), Z.sub_0_r by lia.
  destruct (rep_read _ _ _ _ _ R Hi) as (w' & -> & R'). rewrite (proj2 (Z.leb_gt _ _)), Z.add_0_l, Z.ltb_irrefl by lia.
  rewrite Nat.sub_0_r, blit_over by congruence. eexists. split; [reflexivity|]. do 2 eexists. exact R'.
Qed.

Lemma write_whole_spec k : forall data f n o, b_output f n o -> (length data < k)%nat ->
  exists f', write_whole k data f = Some (true, f') /\ b_output f' n (o ++ data).
Proof.
  induction k as [|k IH]; intros data f n o Ho Hk; [lia|]. cbn [write_whole]. destruct data as [|b data].
  { exists f. now rewrite app_nil_r. }
  destruct (write_out_ok f n o (b :: data) Ho) as (j & f1 & -> & Hj & Ho1); [discriminate|].
  rewrite (proj2 (Z.leb_gt _ _)), Nat2Z.id by lia.
  destruct (IH (skipn j (b :: data)) f1 n _ Ho1) as (f2 & -> & Ho2); [rewrite length_skipn; lia|].
  exists f2. split; [reflexivity|]. now rewrite <- app_assoc, firstn_skipn in Ho2.
Qed.

Definition views (both : flash * flash) (m : list Z) (i n : nat) : list (list Z) :=
  map (fun j => default [] (view e both m j)) (seq i n).

Lemma opened_set ds both i m w : opened ds both ->
  (if (located e m i).1 then held (p := p) w both.1 else held (p := q) w both.2) -> opened (set_dev ds (located e m i).1 w) both.
Proof. intros [H1 H2] Hw. unfold set_dev, opened. destruct (located e m i).1; split; assumption. Qed.

Lemma dump_blocks_spec k : forall i n m both buf ds f name o,
  opened ds both -> placed e both m n -> (i + k <= n)%nat -> n = length both.1 -> Z.of_nat (length buf) = e ->
  b_output f name o -> (Z.to_nat e + 1 < fuel)%nat ->
  exists ds' f', dump_blocks fuel k (erase_size p) m i buf ds f = ret (true, ds', f') /\ opened ds' both /\
    b_output f' name (o ++ concat (views both m i k)).
Proof.
  induction k as [|k IH]; intros i n m both buf ds f name o Hop Hpl Hn Hl Hb Ho Hf; cbn [dump_blocks].
  { do 2 eexists. split; [reflexivity|]. split; [exact Hop|]. now rewrite app_nil_r. }
  destruct (seek_place ds both m n i Hop Hpl) as (w1 & Es & El & ecc & R); [lia|lia|].
  destruct (place m i) as [b d0]. cbn [fst snd] in *. rewrite Es. subst b. pose proof (erase_size_pos (p := q)) as He.
  rewrite (proj2 (Z.eqb_neq _ (-1))) by nia. destruct (proj1 Hpl i ltac:(lia)) as [d Hd]. pose proof Hd as Hlk. apply view_lookup in Hlk.
  assert (Hrd : exists w2, read_whole fuel (erase_size p) buf 0 w1 = Some (Some d, w2) /\ Z.of_nat (length d) = e /\
    if (located e m i).1 then held (p := p) w2 both.1 else held (p := q) w2 both.2).
  { destruct fuel as [|[|f0]]; [lia..|]. unfold on in Hlk. destruct (located e m i) as [[|] j]; cbn [fst snd] in *.
    - rewrite <- Hsame in R. pose proof (rep_block (p := p) _ _ _ _ _ _ R Hlk) as Hld.
      destruct (read_whole_spec (r := p) f0 w1 both.1 j ecc d buf R Hlk ltac:(lia)) as (w2 & -> & Hh). exists w2. split; [reflexivity|]. split; [lia|exact Hh].
    - pose proof (rep_block (p := q) _ _ _ _ _ _ R Hlk) as Hld. rewrite Hsame.
      destruct (read_whole_spec (r := q) f0 w1 both.2 j ecc d buf R Hlk ltac:(lia)) as (w2 & -> & Hh). eauto. }
  destruct Hrd as (w2 & -> & Hld & Hh). cbn [loop bindM ret].
  destruct (write_whole_spec fuel d f name o Ho ltac:(lia)) as (f2 & -> & Ho2). cbn [loop bindM ret negb].
  destruct (IH (S i) n m both d (set_dev ds (located e m i).1 w2) f2 name (o ++ d)) as (ds3 & f3 & E3 & Hop3 & Ho3);
    [now apply opened_set|exact Hpl|lia|exact Hl|exact Hld|exact Ho2|exact Hf|].
  exists ds3, f3. split; [exact E3|]. split; [exact Hop3|]. unfold views in *. cbn [seq map concat]. rewrite Hd. cbn [default]. now rewrite app_assoc.
Qed.

(** ** Flashing *)

(** The block of a file, with 0xff after its end. *)
Definition block_of (data : list Z) : list Z := firstn (Z.to_nat e) data ++ repeat 255 (Z.to_nat e - length data).

Lemma block_of_length data : length (block_of data) = Z.to_nat e.
Proof. unfold block_of. rewrite length_app, length_firstn, repeat_length. lia. Qed.

Lemma read_file_spec k : forall a data f,
  b_input f data -> (length a <= Z.to_nat e)%nat -> (Z.to_nat e - length a < k)%nat ->
  exists f', read_file k e (a ++ repeat 255 (Z.to_nat e - length a)) (Z.of_nat (length a)) f =
    Some (Some (a ++ firstn (Z.to_nat e - length a) data ++ repeat 255 (Z.to_nat e - length a - length data)), f') /\
    b_input f' (skipn (Z.to_nat e - length a) data).
Proof.
  pose proof (erase_size_pos (p := q)) as He.
  induction k as [|k IH]; intros a data f Hi Ha Hk; [lia|]. cbn [read_file].
  destruct (Z.ltb_spec (Z.of_nat (length a)) e) as [Hlt|Hge].
  2:{ exists f. replace (Z.to_nat e - length a)%nat with O by lia. cbn. auto. }
  replace (Z.to_nat (e - Z.of_nat (length a))) with (Z.to_nat e - length a)%nat by lia.
  destruct (read_in_ok f data (Z.to_nat e - length a) Hi ltac:(lia)) as (j & f1 & -> & Hj1 & Hj2 & Hj3 & Hi1).
  rewrite (proj2 (Z.ltb_ge _ _)) by lia. destruct (Z.eqb_spec (Z.of_nat j) 0) as [Hz|Hnz].
  { destruct data as [|b data]; [|specialize (Hj3 ltac:(discriminate)); lia]. exists f1. rewrite !firstn_nil, !skipn_nil in *. cbn [app length].
    now rewrite Nat.sub_0_r. }
  rewrite Nat2Z.id. set (a' := a ++ firstn j data).
  assert (Hla : length a' = (length a + j)%nat) by (unfold a'; rewrite length_app, length_firstn; lia).
  replace (blit _ _ _) with (a' ++ repeat 255 (Z.to_nat e - length a')).
  2:{ unfold blit, a'. rewrite firstn_app, firstn_all, Nat.sub_diag, firstn_O, app_nil_r, <- app_assoc. f_equal.
      rewrite (firstn_all2 (firstn j data)) by (rewrite length_firstn, length_app, repeat_length; lia). f_equal.
      rewrite length_firstn, skipn_app, skipn_all2 by lia. rewrite skipn_repeat. cbn [app]. f_equal. fold a'. lia. }
  replace (Z.of_nat (length a) + Z.of_nat j) with (Z.of_nat (length a')) by lia.
  destruct (IH a' (skipn j data) f1 Hi1) as (f2 & -> & Hi2); [lia|lia|]. exists f2. split.
  - do 3 f_equal. unfold a' at 1. rewrite <- app_assoc. f_equal. rewrite app_assoc. f_equal; [|rewrite length_skipn; f_equal; lia].
    rewrite take_take_drop. f_equal. lia.
  - rewrite skipn_skipn in Hi2. replace (Z.to_nat e - length a)%nat with (Z.to_nat e - length a' + j)%nat by lia. exact Hi2.
Qed.

Lemma try_write_size n : forall pos data (w : W), try_write n p pos data w = try_write n q pos data w.
Proof.
  induction n as [|n IH]; intros pos data w; [reflexivity|]. cbn [try_write]. rewrite Hsame.
  repeat (rewrite IH || match goal with |- context [let '(_, _) := ?x in _] => destruct x as [? ?] | |- context [if ?b then _ else _] => destruct b end); reflexivity.
Qed.

(** Writing a good block with the partition's block size. *)
Lemma write_block_good {r} `{!Flash W r} (w : W) (bs : flash) i ecc old data : erase_size r = e ->
  rep (p := r) w bs (e * Z.of_nat i) ecc -> bs !! i = Some (Some old) -> length data = Z.to_nat e ->
  (forall n pos d (w : W), try_write n p pos d w = try_write n r pos d w) ->
  exists w', bml_over_mtd_write_block p data w = (e, w') /\ held (p := r) w' (<[i := Some data]> bs).
Proof.
  intros Er R Hi Hd Ht. pose proof (erase_size_pos (p := q)) as He. unfold bml_over_mtd_write_block. rewrite (rep_pos _ _ _ _ R).
  rewrite (proj2 (Z.eqb_neq _ (-1))) by nia. unfold known_bad. rewrite <- Er in *.
  pose proof (rep_good (p := r) _ _ _ _ _ _ R Hi) as Hg. destruct (bad_block _ w) as [ret errno]. cbn [fst] in Hg. subst ret. cbn [Z.eqb negb andb].
  rewrite Ht. destruct (try_write_spec (p := r) w bs _ ecc i old data 1 R Hi ltac:(lia)) as (w' & ecc' & -> & R').
  exists w'. split; [now rewrite Hsame, Er|]. do 2 eexists. exact R'.
Qed.

Lemma flash_blocks_spec k : forall i n m both ds f data,
  opened ds both -> placed e both m n -> (i + k <= n)%nat -> n = length both.1 -> b_input f data -> (Z.to_nat e < fuel)%nat ->
  exists ds' f' both', flash_blocks fuel k p m i ds f = ret (true, ds', f') /\ opened ds' both' /\ placed e both' m n /\ length both'.1 = n /\
    (exists rest, b_input f' rest) /\
    forall j, (j < n)%nat -> view e both' m j =
      if decide (i <= j < i + k)%nat then Some (block_of (skipn (Z.to_nat e * (j - i)) data)) else view e both m j.
Proof.
  pose proof (erase_size_pos (p := q)) as He.
  induction k as [|k IH]; intros i n m both ds f data Hop Hpl Hn Hl Hi Hf; cbn [flash_blocks].
  { exists ds, f, both. split; [reflexivity|]. do 3 (split; [auto|]). split; [eauto|]. intros j Hj. rewrite decide_False by lia. reflexivity. }
  destruct (read_file_spec fuel [] data f Hi) as (f1 & E1 & Hi1); [cbn; lia|cbn; lia|]. cbn [length app] in E1, Hi1. rewrite Nat.sub_0_r in *.
  change (Z.of_nat 0) with 0 in E1. rewrite <- Hsame in E1 at 1 2. rewrite E1. cbn [loop bindM ret]. fold (block_of data).
  destruct (seek_place ds both m n i Hop Hpl) as (w1 & Es & El & ecc & R); [lia|lia|].
  destruct (place m i) as [b d0]. cbn [fst snd] in *. rewrite Es. subst b. rewrite (proj2 (Z.eqb_neq _ (-1))) by nia.
  destruct (proj1 Hpl i ltac:(lia)) as [old Hd]. apply view_lookup in Hd.
  assert (Hwr : exists w2, bml_over_mtd_write_block p (block_of data) w1 = (e, w2) /\
    opened (set_dev ds (located e m i).1 w2) (put_on both (located e m i) (block_of data))).
  { destruct Hop as [H1 H2]. unfold on, set_dev, put_on, opened in *. destruct (located e m i) as [[|] j]; cbn [fst snd src res] in *.
    - destruct (write_block_good (r := p) w1 both.1 j ecc old (block_of data) Hsame R Hd (block_of_length data) ltac:(reflexivity)) as (w2 & -> & Hh). eauto.
    - destruct (write_block_good (r := q) w1 both.2 j ecc old (block_of data) eq_refl R Hd (block_of_length data) try_write_size) as (w2 & -> & Hh). eauto. }
  destruct Hwr as (w2 & -> & Hop2). rewrite (proj2 (Z.leb_gt _ _)) by lia.
  destruct (IH (S i) n m (put_on both (located e m i) (block_of data)) (set_dev ds (located e m i).1 w2) f1 (skipn (Z.to_nat e) data))
    as (ds3 & f3 & both3 & E3 & Hop3 & Hpl3 & Hl3 & Hr3 & Hv3).
  { exact Hop2. } { apply placed_put; [exact Hpl|lia]. } { lia. }
  { unfold put_on. destruct (located e m i).1; cbn [fst]; [now rewrite length_insert|exact Hl]. } { exact Hi1. } { exact Hf. }
  exists ds3, f3, both3. split; [exact E3|]. do 4 (split; [assumption|]). intros j Hj. rewrite Hv3 by exact Hj.
  rewrite (view_put e both m n) by (assumption || lia). destruct (decide (i = j)) as [<-|Hne].
  - rewrite decide_False, decide_True by lia. now rewrite Nat.sub_diag, Nat.mul_0_r.
  - destruct (decide (S i <= j < S i + k)%nat); [rewrite decide_True by lia|now rewrite decide_False by lia].
    rewrite skipn_skipn. do 3 f_equal. replace (j - i)%nat with (S (j - S i)) by lia. lia.
Qed.

Lemma concat_blocks n : forall data, (length data <= Z.to_nat e * n)%nat ->
  concat (map (fun j => block_of (skipn (Z.to_nat e * j) data)) (seq 0 n)) = data ++ repeat 255 (Z.to_nat e * n - length data).
Proof.
  induction n as [|n IH]; intros data Hl.
  { destruct data; [|cbn in Hl; lia]. now rewrite Nat.mul_0_r. }
  cbn [seq map concat]. rewrite <- seq_shift, map_map, Nat.mul_0_r, skipn_O.
  rewrite (map_ext _ (fun j => block_of (skipn (Z.to_nat e * j) (skipn (Z.to_nat e) data)))).
  2:{ intros j. rewrite skipn_skipn. do 2 f_equal. lia. }
  rewrite IH by (rewrite length_skipn; lia). unfold block_of. rewrite <- app_assoc, length_skipn.
  destruct (Nat.le_gt_cases (Z.to_nat e) (length data)) as [Hge|Hlt].
  - replace (Z.to_nat e - length data)%nat with O by lia. cbn [repeat app]. rewrite app_assoc, firstn_skipn. do 2 f_equal. lia.
  - rewrite firstn_all2, skipn_all2 by lia. cbn [app]. rewrite <- repeat_app. do 2 f_equal. lia.
Qed.

Lemma views_split both m n N : (n <= N)%nat -> views both m 0 N = views both m 0 n ++ views both m n (N - n).
Proof. intros Hn. unfold views. rewrite <- map_app, <- seq_app. do 2 f_equal. lia. Qed.

Lemma views_flashed both both' m n N data : (n <= N)%nat ->
  (forall j, (j < N)%nat -> view e both' m j = if decide (0 <= j < 0 + n)%nat then Some (block_of (skipn (Z.to_nat e * (j - 0)) data)) else view e both m j) ->
  views both' m 0 N = map (fun j => block_of (skipn (Z.to_nat e * j) data)) (seq 0 n) ++ views both m n (N - n).
Proof.
  intros Hn Hv. rewrite (views_split both' m n N Hn). f_equal; apply map_ext_in; intros j [Hj1 Hj2]%in_seq; rewrite Hv by lia.
  - rewrite decide_True by lia. cbn [default]. now rewrite Nat.sub_0_r.
  - now rewrite decide_False by lia.
Qed.

(** The number of blocks that a file takes. *)
Definition file_blocks (data : list Z) : nat := Z.to_nat ((Z.of_nat (length data) + e - 1) / e).

Lemma file_blocks_bound data N : Z.of_nat (length data) <= e * Z.of_nat N -> (file_blocks data <= N)%nat /\ (length data <= Z.to_nat e * file_blocks data)%nat.
Proof.
  intros Hl. pose proof (erase_size_pos (p := q)) as He. unfold file_blocks. pose proof (Z.div_mod (Z.of_nat (length data) + e - 1) e ltac:(lia)) as Hd.
  pose proof (Z.mod_pos_bound (Z.of_nat (length data) + e - 1) e ltac:(lia)). set (n := (Z.of_nat (length data) + e - 1) / e) in *.
  assert (0 <= n) by (apply Z.div_pos; lia). split; nia.
Qed.

Definition idle_both (ds : devices W) (both : flash * flash) : Prop := idle (p := p) (src ds) both.1 /\ idle (p := q) (res ds) both.2.

Lemma close_both ds both : opened ds both -> idle_both (close_writers ds) both /\ idle_both (close_readers ds) both.
Proof.
  intros [(pos1 & ecc1 & R1) (pos2 & ecc2 & R2)]. unfold close_writers, close_readers, bml_over_mtd_write_close, bml_over_mtd_read_close, idle_both. cbn [src res].
  destruct (rep_close _ _ _ _ R1) as (w1 & -> & I1), (rep_close _ _ _ _ R2) as (w2 & -> & I2). cbn. auto.
Qed.

Lemma flash_spec ds both m f name data N :
  idle_both ds both -> N = length both.1 -> placed e both m N -> b_contents f name = Some data ->
  Z.of_nat (length data) <= e * Z.of_nat N -> (Z.to_nat e < fuel)%nat ->
  exists ds' f' both', flash_bml_partition memory fuel p q m name ds f = ret (0, ds', f') /\ idle_both ds' both' /\
    placed e both' m N /\ length both'.1 = N /\
    views both' m 0 N = map (fun j => block_of (skipn (Z.to_nat e * j) data)) (seq 0 (file_blocks data)) ++ views both m (file_blocks data) (N - file_blocks data).
Proof.
  intros [Hp Hq] HN Hpl Hc Hfit Hf. pose proof (erase_size_pos (p := q)) as He. pose proof (blocks_of (r := p) _ _ Hp) as Sp. rewrite Hsame in Sp.
  unfold flash_bml_partition. destruct (open_in_ok f name data Hc) as (f1 & -> & Hst & Hi1). cbn [negb].
  unfold bml_over_mtd_write_partition. destruct (rep_open (p := p) _ _ true Hp) as (w1 & ecc1 & -> & R1). cbn [res src].
  destruct (rep_open (p := q) _ _ true Hq) as (w2 & ecc2 & -> & R2). rewrite Hst.
  rewrite (proj2 (Z.ltb_ge (size p) _)) by (rewrite Sp, <- HN; lia). unfold quotient. rewrite Hsame. rewrite (proj2 (Z.eqb_neq e 0)) by lia. cbn [lift bindM].
  destruct (file_blocks_bound data N Hfit) as [Hn Hb]. fold (file_blocks data).
  destruct (flash_blocks_spec (file_blocks data) 0 N m both (mkDevices w1 w2) f1 data) as (ds3 & f3 & both3 & -> & Hop3 & Hpl3 & Hl3 & (rest & Hr3) & Hv3);
    try assumption; [split; do 2 eexists; eassumption|].
  cbn [bindM ret negb orb]. destruct (close_in_ok f3 rest Hr3) as (f4 & ->). cbn [Z.eqb negb].
  do 3 eexists. split; [reflexivity|]. split; [apply close_both, Hop3|]. split; [exact Hpl3|]. split; [exact Hl3|]. now apply views_flashed.
Qed.

Lemma dump_spec ds both m f f1 name N :
  idle_both ds both -> N = length both.1 -> placed e both m N -> open_out name f = (true, f1) -> b_output f1 name [] -> (Z.to_nat e + 1 < fuel)%nat ->
  exists ds' f', dump_bml_partition memory fuel p q m name ds f = ret (0, ds', f') /\ idle_both ds' both /\
    b_contents f' name = Some (concat (views both m 0 N)).
Proof.
  intros [Hp Hq] HN Hpl Eo Ho Hf. pose proof (erase_size_pos (p := q)) as He. pose proof (blocks_of (r := p) _ _ Hp) as Sp.
  unfold dump_bml_partition. rewrite Eo. cbn [negb].
  destruct (read_partition_spec memory (r := p) _ _ Hp) as (w1 & ecc1 & -> & R1). cbn [lift bindM].
  destruct (read_partition_spec memory (r := q) _ _ Hq) as (w2 & ecc2 & -> & R2). cbn [lift bindM].
  unfold quotient. rewrite (proj2 (Z.eqb_neq (erase_size p) 0)) by lia. cbn [lift bindM].
  replace (Z.to_nat (size p / erase_size p)) with N by (rewrite Sp, Z.mul_comm, Z.div_mul, Nat2Z.id by lia; exact HN).
  destruct (dump_blocks_spec N 0 N m both (memory (erase_size p)) (mkDevices w1 w2) f1 name []) as (ds3 & f3 & -> & Hop3 & Ho3); try assumption; try lia.
  { split; do 2 eexists; eassumption. } { rewrite Hmemory; lia. }
  cbn [bindM ret negb]. destruct (close_out_ok f3 name _ Ho3) as (f4 & -> & Hc4). cbn [Z.eqb negb].
  do 2 eexists. split; [reflexivity|]. split; [apply close_both, Hop3|exact Hc4].
Qed.

(** ** The mapping that is used *)

Lemma consistent_blocks srcStart resStart bs rs m i :
  mapping_of srcStart resStart (Z.of_nat (length bs)) e bs rs = Some m -> (i < length bs)%nat -> consistent e bs rs m i = true.
Proof.
  intros Hm Hi. unfold mapping_of in Hm. destruct (table_of _ _ _ _ _ _ _) as [[|] m']; [|discriminate]. cbn [andb] in Hm.
  destruct (forallb _ _) eqn:Ef; [|discriminate]. injection Hm as <-. rewrite forallb_forall in Ef. apply Ef, in_seq. lia.
Qed.

(** No two mapped blocks share a block of the reservoir. *)
Definition distinct (m : list Z) (n : nat) : Prop :=
  forall i j, (i < n)%nat -> (j < n)%nat -> get m i <> UNMAPPED -> get m j <> UNMAPPED -> slot e (get m i) = slot e (get m j) -> i = j.

Lemma mapping_placed srcStart resStart bs rs m :
  mapping_of srcStart resStart (Z.of_nat (length bs)) e bs rs = Some m -> distinct m (length bs) -> placed e (bs, rs) m (length bs).
Proof.
  intros Hm Hd. split.
  - intros i Hi. pose proof (consistent_blocks _ _ _ _ _ _ Hm Hi) as Hc. unfold consistent, view, located, on, good_block in *.
    destruct (get m i =? UNMAPPED); cbn [fst snd negb andb] in *.
    + destruct (bs !! i) as [[d|]|]; cbn; [eauto|discriminate..].
    + destruct (bs !! i) as [[d|]|]; [discriminate|..]; destruct (rs !! _) as [[d|]|]; cbn; eauto; discriminate.
  - intros i j Hi Hj E. unfold located in E. destruct (Z.eqb_spec (get m i) UNMAPPED), (Z.eqb_spec (get m j) UNMAPPED); try congruence.
    apply Hd; auto. congruence.
Qed.

(** C29: The block mapping is created from the table in the reservoir and checked against
    both devices: the function ends and returns the mapping that the last table in the
    good blocks of the reservoir describes, or null when there is none or it is not
    consistent; in a mapping it returns every good block stands for itself and every bad
    block for a good block of the reservoir.  The devices are not changed; they have the
    same erase size, which divides 2^32.  (What a table describes is how [map_entries]
    reads its entries.) *)
Theorem block_mapping_sound srcStart resStart ds bs rs ws :
  idle_both ds (bs, rs) -> (length rs < fuel)%nat ->
  (mtd_partition_info p (src ds)).1 = Some (size p, erase_size p, ws) -> (mtd_partition_info q (res ds)).1 = Some (size q, e, ws) ->
  exists r ds', CreateBlockMapping memory fuel p srcStart q resStart ds = ret (r, ds') /\
    r = mapping_of srcStart resStart (Z.of_nat (length bs)) e bs rs /\ idle_both ds' (bs, rs) /\
    forall m i, r = Some m -> (i < length bs)%nat ->
      match bs !! i with
      | Some (Some _) => get m i = UNMAPPED
      | _ => get m i <> UNMAPPED /\ exists d, rs !! slot e (get m i) = Some (Some d)
      end.
Proof.
  intros [Hp Hq] Hf Ip Iq. destruct (CreateBlockMapping_spec p q memory fuel Hmemory Hsame Hdiv srcStart resStart ds bs rs ws Hp Hq Hf Ip Iq) as (ds' & E & Hp' & Hq').
  do 2 eexists. split; [exact E|]. split; [reflexivity|]. split; [split; assumption|]. intros m i Hm Hi.
  pose proof (consistent_blocks _ _ _ _ _ _ Hm Hi) as Hc. unfold consistent, good_block in Hc.
  destruct (bs !! i) as [[d|]|]; [now apply Z.eqb_eq|..]; (destruct (Z.eqb_spec (get m i) UNMAPPED); [discriminate|]; cbn [negb andb] in Hc;
    split; [assumption|]; destruct (rs !! _) as [[d|]|]; [eauto|discriminate..]).
Qed.

(** C12: Flashing a file and dumping the partition gives the file back: with a mapping
    that was created for the two devices and maps no two blocks to the same one, a file
    that is not larger than the partition is flashed with result 0, and a dump after it
    returns 0 and gives the file, 0xff to the end of its last block, and the blocks after
    it as they were; whichever blocks are bad and however short the reads and writes of
    the file are.  The two devices have the same erase size, which divides 2^32, and no
    write to a good block fails. *)
Theorem flash_dump_roundtrip srcStart resStart ds bs rs m f name data out :
  idle_both ds (bs, rs) -> mapping_of srcStart resStart (Z.of_nat (length bs)) e bs rs = Some m -> distinct m (length bs) ->
  b_contents f name = Some data -> Z.of_nat (length data) <= size p -> (Z.to_nat e + 1 < fuel)%nat ->
  exists ds1 f1, flash_bml_partition memory fuel p q m name ds f = ret (0, ds1, f1) /\
    forall f2, open_out out f1 = (true, f2) -> b_output f2 out [] ->
    exists ds2 f3, dump_bml_partition memory fuel p q m out ds1 f1 = ret (0, ds2, f3) /\
      b_contents f3 out = Some (data ++ repeat 255 (Z.to_nat e * file_blocks data - length data) ++
                                concat (views (bs, rs) m (file_blocks data) (length bs - file_blocks data))).
Proof.
  intros Hi Hm Hd Hc Hsz Hf. pose proof (blocks_of (r := p) _ _ (proj1 Hi)) as Sp. rewrite Hsame in Sp. cbn [fst] in Sp.
  pose proof (mapping_placed _ _ _ _ _ Hm Hd) as Hpl.
  destruct (flash_spec ds (bs, rs) m f name data (length bs) Hi eq_refl Hpl Hc ltac:(lia) ltac:(lia)) as (ds1 & f1 & both1 & E1 & Hi1 & Hpl1 & Hl1 & Hv1).
  exists ds1, f1. split; [exact E1|]. intros f2 Eo Ho.
  destruct (dump_spec ds1 both1 m f1 f2 out (length bs) Hi1 (eq_sym Hl1) Hpl1 Eo Ho Hf) as (ds2 & f3 & E3 & _ & Hc3).
  exists ds2, f3. split; [exact E3|]. rewrite Hc3, Hv1, concat_app, concat_blocks, <- app_assoc; [reflexivity|].
  apply (file_blocks_bound data (length bs)). lia.
Qed.
End Flash.

(** * An example *)

(** The file system of the example: one file, read and written two thousand bytes at a
    time. *)
Record bml_mem := mkBml { b_files : list (list Z * list Z); b_rest : list Z; b_name : list Z; b_data : list Z }.
Definition bml_file (f : bml_mem) (n : list Z) : option (list Z) :=
  match List.find (fun '(m, _) => bool_decide (m = n)) (b_files f) with Some (_, d) => Some d | None => None end.

#[local] Instance bml_fs : BmlFiles bml_mem := {
  b_proc _ := None;
  open_in n f := match bml_file f n with Some d => (true, mkBml (b_files f) d (b_name f) (b_data f)) | None => (false, f) end;
  fstat_size f := Some (Z.of_nat (length (b_rest f)));
  read_in k f := let j := min k (min 2000 (length (b_rest f))) in
    (Z.of_nat j, firstn j (b_rest f), mkBml (b_files f) (skipn j (b_rest f)) (b_name f) (b_data f));
  close_in f := (0, f);
  open_out n f := (true, mkBml (b_files f) (b_rest f) n []);
  write_out bs f := let j := min 2000 (length bs) in (Z.of_nat j, mkBml (b_files f) (b_rest f) (b_name f) (b_data f ++ firstn j bs));
  close_out f := (0, mkBml ((b_name f, b_data f) :: b_files f) (b_rest f) (b_name f) []);
  unlink_out _ f := f
}.

#[local] Instance bml_laws : BmlFileLaws bml_mem.
Proof.
  refine {| b_input f d := b_rest f = d; b_output f n o := b_name f = n /\ b_data f = o; b_contents := bml_file |}.
  - intros f n d Hd. cbn [open_in bml_fs]. rewrite Hd. eexists. split; [reflexivity|]. split; reflexivity.
  - intros f d k <- Hk. exists (min k (min 2000 (length (b_rest f)))). eexists. split; [reflexivity|].
    split; [lia|]. split; [lia|]. split; [|reflexivity]. intros Hne. destruct (b_rest f); [congruence|]. cbn [length]. lia.
  - intros f d _. eexists. reflexivity.
  - intros f n o bs [<- <-] Hne. exists (min 2000 (length bs)). eexists. split; [reflexivity|]. split; [|split; reflexivity].
    destruct bs; [congruence|]. cbn [length]. lia.
  - intros f n o [<- <-]. eexists. split; [reflexivity|]. unfold bml_file. cbn. now rewrite bool_decide_true.
Defined.

Definition boot : MtdPartition := mkPartition 2 24576 8192 (Some [98]).
Definition reservoir : MtdPartition := mkPartition 7 16384 8192 (Some [114]).
Definition filled (v : Z) : list Z := repeat v (Z.to_nat 8192).

(** A table block with the given numbers after its mark. *)
Definition table_block (numbers : list Z) : list Z :=
  let t := concat (map (fun n => [n mod 256; n / 256]) numbers) in
  [85; 80; 67; 72] ++ repeat 0 (Z.to_nat 4092) ++ t ++ repeat 0 (Z.to_nat (4096 - Z.of_nat (length t))).

(** The second block is bad; block 11 of the flash, the second of the partition, is
    mapped to block 20, the first of the reservoir. *)
Definition boot_blocks : flash := [Some (filled 1); None; Some (filled 3)].
Definition reservoir_blocks : flash := [Some (filled 5); Some (table_block [0; UNMAPPED; 11; 20; UNMAPPED])].
Definition example_devices : devices mem_flash := mkDevices (mkFlash 8192 boot_blocks 0 0) (mkFlash 8192 reservoir_blocks 0 0).
Definition example_file : bml_mem := mkBml [([102], repeat 77 (Z.to_nat 10000))] [] [] [].
Definition fresh (n : Z) : list Z := repeat 0 (Z.to_nat n).

#[local] Instance boot_laws : Flash mem_flash boot := mem_laws boot (conj eq_refl eq_refl) eq_refl.
#[local] Instance reservoir_laws : Flash mem_flash reservoir := mem_laws reservoir (conj eq_refl eq_refl) eq_refl.

(** Lengths of concrete blocks are checked by evaluation. *)
Definition sized (e : Z) (bs : flash) : bool := forallb (fun b => match b with Some d => Z.of_nat (length d) =? e | None => true end) bs.

Lemma sized_wf r bs : size r = erase_size r * Z.of_nat (length bs) -> sized (erase_size r) bs = true -> mem_wf r bs.
Proof.
  intros Hs Hb. split; [exact Hs|]. unfold sized in Hb. rewrite forallb_forall in Hb. apply List.Forall_forall.
  intros b Hin d ->. specialize (Hb _ Hin). now apply Z.eqb_eq in Hb.
Qed.

Lemma example_idle : idle_both boot reservoir example_devices (boot_blocks, reservoir_blocks).
Proof. split; do 2 eexists; (split; [reflexivity|]); apply sized_wf; vm_compute; reflexivity. Qed.

Lemma example_memory n : 0 <= n -> length (fresh n) = Z.to_nat n.
Proof. intros _. apply repeat_length. Qed.

Lemma example_divides : (erase_size reservoir | 2 ^ 32).
Proof. exists 524288. reflexivity. Qed.

Lemma example_mapping : mapping_of 10 20 3 8192 boot_blocks reservoir_blocks = Some [UNMAPPED; 0; UNMAPPED].
Proof. vm_compute. reflexivity. Qed.

Lemma block_mapping_sound_witness :
  exists r ds', CreateBlockMapping fresh 3 boot 10 reservoir 20 example_devices = ret (r, ds') /\
    r = mapping_of 10 20 (Z.of_nat 3) 8192 boot_blocks reservoir_blocks /\ idle_both boot reservoir ds' (boot_blocks, reservoir_blocks) /\
    forall m i, r = Some m -> (i < 3)%nat ->
      match boot_blocks !! i with
      | Some (Some _) => get m i = UNMAPPED
      | _ => get m i <> UNMAPPED /\ exists d, reservoir_blocks !! slot 8192 (get m i) = Some (Some d)
      end.
Proof.
  apply (block_mapping_sound boot reservoir fresh 3 example_memory eq_refl example_divides 10 20 example_devices boot_blocks reservoir_blocks 8192);
    [exact example_idle|cbn; lia|vm_compute; reflexivity|vm_compute; reflexivity].
Defined.

Lemma flash_dump_roundtrip_witness :
  exists ds1 f1, flash_bml_partition fresh (2 * 4098) boot reservoir [UNMAPPED; 0; UNMAPPED] [102] example_devices example_file = ret (0, ds1, f1) /\
    forall f2, open_out [111] f1 = (true, f2) -> b_output f2 [111] [] ->
    exists ds2 f3, dump_bml_partition fresh (2 * 4098) boot reservoir [UNMAPPED; 0; UNMAPPED] [111] ds1 f1 = ret (0, ds2, f3) /\
      b_contents f3 [111] = Some (repeat 77 (Z.to_nat 10000) ++ repeat 255 (Z.to_nat 8192 * file_blocks reservoir (repeat 77 (Z.to_nat 10000)) - length (repeat 77 (Z.to_nat 10000))) ++
        concat (views reservoir (boot_blocks, reservoir_blocks) [UNMAPPED; 0; UNMAPPED] (file_blocks reservoir (repeat 77 (Z.to_nat 10000))) (3 - file_blocks reservoir (repeat 77 (Z.to_nat 10000))))).
Proof.
  apply (flash_dump_roundtrip boot reservoir fresh (2 * 4098) example_memory eq_refl example_divides 10 20 example_devices boot_blocks reservoir_blocks
    [UNMAPPED; 0; UNMAPPED] example_file [102] (repeat 77 (Z.to_nat 10000)) [111]).
  - exact example_idle.
  - exact example_mapping.
  - intros [|[|[|i]]] [|[|[|j]]] Hi Hj; cbn in *; try lia; intros H1 H2 _; (reflexivity || (exfalso; (apply H1 + apply H2); reflexivity)).
  - reflexivity.
  - vm_compute. discriminate.
  - unfold reservoir. cbn [erase_size]. lia.
Defined.

(** Nothing keeps a table from mapping two bad blocks to the same block: the mapping is
    accepted, both blocks are flashed, and the dump has the second one twice. *)
Definition clash_blocks : flash := [None; None; Some (filled 3)].
Definition clash_reservoir : flash := [Some (filled 5); Some (table_block [0; UNMAPPED; 10; 20; 11; 20; UNMAPPED])].

Lemma clash_accepted : mapping_of 10 20 3 8192 clash_blocks clash_reservoir = Some [0; 0; UNMAPPED].
Proof. vm_compute. reflexivity. Qed.

(** The same with blocks of four bytes. *)
Lemma clash_loses_block :
  let p := mkPartition 2 12 4 None in
  let q := mkPartition 7 4 4 None in
  let ds := mkDevices (mkFlash 4 [None; None; Some [3; 3; 3; 3]] 0 0) (mkFlash 4 [Some [5; 5; 5; 5]] 0 0) in
  let f := mkBml [([102], [1; 2; 3; 4; 5; 6; 7; 8])] [] [] [] in
  match flash_bml_partition fresh 10 p q [0; 0; UNMAPPED] [102] ds f with
  | Some (Ret (r, ds, f)) =>
      match dump_bml_partition fresh 10 p q [0; 0; UNMAPPED] [111] ds f with
      | Some (Ret (r', _, f)) => r = 0 /\ r' = 0 /\ bml_file f [111] = Some [5; 6; 7; 8; 5; 6; 7; 8; 3; 3; 3; 3]
      | _ => False
      end
  | _ => False
  end.
Proof. vm_compute. repeat split; reflexivity. Qed.
