(* ===== verification/Mounts.v ===== *)
(** The table of mounted volumes: src/mtdutils/mounts.c.

    The table has 32 entries and is filled from the text of [/proc/mounts]; a store past
    it is a [Fault].  A volume is a place in the table; a string that has been freed is
    [None]. *)
From stdpp Require Import list.
From S2P Require Import Prelude CString MtdScan.

Record MountedVolume := mkVolume { device : option (list Z); mount_point : option (list Z); filesystem : option (list Z); flags : option (list Z) }.
Record MountsState := mkMounts { volumes : option (list MountedVolume); volume_count : nat }.

Definition g_mounts_state : MountsState := mkMounts None 0.
Definition numv : nat := 32.
Definition free_volume_internals (v : MountedVolume) : MountedVolume := mkVolume None None None None.

(** * [sscanf] with four words *)

(** At most [n] characters that are not white space, after white space; at least one. *)
Fixpoint word_chars (n : nat) (s : list Z) : list Z * list Z :=
  match n, s with
  | S n, c :: t => if is_space c then ([], s) else let '(a, b) := word_chars n t in (c :: a, b)
  | _, _ => ([], s)
  end.
Definition conv_s (n : nat) (s : list Z) : option (list Z * list Z) :=
  match word_chars n (skip_space s) with ([], _) => None | r => Some r end.

Definition sscanf_mount (s : list Z) : option (list Z * list Z * list Z * list Z) :=
  match conv_s 63 s with
  | None => None
  | Some (dev, s) =>
      match conv_s 63 s with
      | None => None
      | Some (mp, s) =>
          match conv_s 63 s with
          | None => None
          | Some (fs, s) => match conv_s 127 s with None => None | Some (fl, _) => Some (dev, mp, fs, fl) end
          end
      end
  end.

(** * Scanning *)

Fixpoint mount_lines (fuel : nat) (bufp : list Z) (vs : list MountedVolume) (count : nat) : M (list MountedVolume * nat) :=
  match fuel with
  | O => None
  | S fuel =>
      match bufp with
      | [] => ret (vs, count)
      | _ =>
          match sscanf_mount (c_string_n (length bufp) bufp) with
          | Some (dev, mp, fs, fl) =>
              if (count <? length vs)%nat
              then mount_lines fuel (eat_line bufp) (<[count := mkVolume (Some dev) (Some mp) (Some fs) (Some fl)]> vs) (S count)
              else Some Fault
          | None => mount_lines fuel (eat_line bufp) vs count
          end
      end
  end.

(** [proc] is what reading [/proc/mounts] gives; at most 2047 bytes are read. *)
Definition scan_mounted_volumes (fuel : nat) (proc : option (list Z)) (st : MountsState) : M (Z * MountsState) :=
  let vs := match volumes st with
            | None => repeat (mkVolume None None None None) numv
            | Some vs => map free_volume_internals (firstn (volume_count st) vs) ++ skipn (volume_count st) vs
            end in
  match proc with
  | None => ret (-1, mkMounts (Some vs) 0)
  | Some text =>
      do! r := mount_lines fuel (firstn 2047 text) vs 0 in
      let '(vs, count) := r in ret (0, mkMounts (Some vs) count)
  end.

(** * Looking up, unmounting *)

(** The first place below the count whose string is there and equal. *)
Fixpoint find_volume (field : MountedVolume -> option (list Z)) (wanted : list Z) (vs : list MountedVolume) (i n : nat) : option nat :=
  match n, vs with
  | S n, v :: vs =>
      match field v with
      | Some s => if strcmp_chars s wanted =? 0 then Some i else find_volume field wanted vs (S i) n
      | None => find_volume field wanted vs (S i) n
      end
  | _, _ => None
  end.
Definition find_in (field : MountedVolume -> option (list Z)) (wanted : list Z) (st : MountsState) : option nat :=
  match volumes st with None => None | Some vs => find_volume field wanted vs 0 (volume_count st) end.

Definition find_mounted_volume_by_device (wanted : list Z) (st : MountsState) : option nat := find_in device wanted st.
Definition find_mounted_volume_by_mount_point (wanted : list Z) (st : MountsState) : option nat := find_in mount_point wanted st.

Definition volume_at (i : nat) (st : MountsState) : outcome MountedVolume :=
  match volumes st with Some vs => match vs !! i with Some v => Ret v | None => Fault end | None => Fault end.

(** The system calls: unmounting a mount point (null when it was unmounted before), and
    mounting again. *)
Class Mounter (K : Type) := {
  umount : option (list Z) -> K -> Z * K;
  remount : option (list Z) -> option (list Z) -> option (list Z) -> Z -> K -> Z * K
}.

Definition MS_RDONLY : Z := 1.
Definition MS_NODEV : Z := 4.
Definition MS_REMOUNT : Z := 32.
Definition MS_NOATIME : Z := 1024.
Definition MS_NODIRATIME : Z := 2048.

Definition unmount_mounted_volume {K} `{Mounter K} (i : nat) (st : MountsState) (k : K) : outcome (Z * MountsState * K) :=
  let! v := volume_at i st in
  let '(ret, k) := umount (mount_point v) k in
  if ret =? 0
  then Ret (0, mkMounts (match volumes st with Some vs => Some (<[i := free_volume_internals v]> vs) | None => None end) (volume_count st), k)
  else Ret (ret, st, k).

Definition remount_read_only {K} `{Mounter K} (i : nat) (st : MountsState) (k : K) : outcome (Z * K) :=
  let! v := volume_at i st in
  Ret (remount (device v) (mount_point v) (filesystem v)
         (Z.lor (Z.lor (Z.lor (Z.lor MS_NOATIME MS_NODEV) MS_NODIRATIME) MS_RDONLY) MS_REMOUNT) k).

(** * Lines of the file *)

Record mount_entry := mkMount { m_device : list Z; m_point : list Z; m_fs : list Z; m_flags : list Z }.
Definition of_mount (x : mount_entry) : MountedVolume := mkVolume (Some (m_device x)) (Some (m_point x)) (Some (m_fs x)) (Some (m_flags x)).
Definition mount_line (x : mount_entry) : list Z :=
  m_device x ++ [32] ++ m_point x ++ [32] ++ m_fs x ++ [32] ++ m_flags x ++ [32; 48; 32; 48; 10].

Definition word_ok (n : nat) (s : list Z) : Prop := (0 < length s <= n)%nat /\ Forall (fun c => c <> 0 /\ is_space c = false) s.
Definition mount_ok (x : mount_entry) : Prop :=
  word_ok 63 (m_device x) /\ word_ok 63 (m_point x) /\ word_ok 63 (m_fs x) /\ word_ok 127 (m_flags x).

Lemma word_chars_app n : forall s t, (length s <= n)%nat -> Forall (fun c => c <> 0 /\ is_space c = false) s -> word_chars n (s ++ 32 :: t) = (s, 32 :: t).
Proof.
  induction n as [|n IH]; intros s t Hl Hs; [destruct s; [reflexivity|cbn in Hl; lia]|].
  destruct Hs as [|c s [_ Hc] Hs]; [reflexivity|]. cbn [app word_chars]. rewrite Hc, IH by (assumption || (cbn in Hl; lia)). reflexivity.
Qed.

Lemma conv_s_word n s t : word_ok n s -> conv_s n (s ++ [32] ++ t) = Some (s, [32] ++ t).
Proof.
  intros [[H0 Hn] Hs]. unfold conv_s. assert (E : skip_space (s ++ [32] ++ t) = s ++ [32] ++ t).
  { destruct Hs as [|c s [_ Hc] _]; [cbn in H0; lia|]. cbn [app skip_space]. now rewrite Hc. }
  rewrite E. change ([32] ++ t) with (32 :: t). rewrite word_chars_app by assumption. destruct s; [cbn in H0; lia|reflexivity].
Qed.

Lemma conv_s_blank n s : conv_s n ([32] ++ s) = conv_s n s.
Proof. unfold conv_s. now rewrite skip_space_blank. Qed.

Lemma sscanf_mount_line x t : mount_ok x -> sscanf_mount (mount_line x ++ t) = Some (m_device x, m_point x, m_fs x, m_flags x).
Proof.
  intros (H1 & H2 & H3 & H4). replace (mount_line x ++ t) with (m_device x ++ [32] ++ m_point x ++ [32] ++ m_fs x ++ [32] ++ m_flags x ++ [32] ++ [48; 32; 48; 10] ++ t)
    by (unfold mount_line; now rewrite <- !app_assoc).
  unfold sscanf_mount. now rewrite conv_s_word, !conv_s_blank, conv_s_word, !conv_s_blank, conv_s_word, !conv_s_blank, conv_s_word by assumption.
Qed.

Lemma mount_line_split x : mount_ok x -> exists a, mount_line x = a ++ [10] /\ Forall (fun c => c <> 0 /\ c <> 10) a.
Proof.
  intros (H1 & H2 & H3 & H4). assert (Hw : forall n s, word_ok n s -> Forall (fun c => c <> 0 /\ c <> 10) s).
  { intros n s [_ Hs]. eapply Forall_impl; [exact Hs|]. cbv beta. intros c [Hc Hsp]. split; [exact Hc|]. intros ->. discriminate. }
  exists (m_device x ++ [32] ++ m_point x ++ [32] ++ m_fs x ++ [32] ++ m_flags x ++ [32; 48; 32; 48]).
  split; [unfold mount_line; now rewrite <- !app_assoc|]. rewrite !Forall_app. repeat split; eauto; repeat constructor; lia.
Qed.

(** * The table as a list of mounts *)

Definition blank : MountedVolume := mkVolume None None None None.
Definition volume_of (o : option mount_entry) : MountedVolume := match o with Some x => of_mount x | None => blank end.

(** [st] holds the mounts [l]; a mount that was unmounted since is [None]. *)
Definition holds (st : MountsState) (l : list (option mount_entry)) : Prop :=
  Forall (fun o => forall x, o = Some x -> mount_ok x) l /\ volume_count st = length l /\
  exists rest, volumes st = Some (map volume_of l ++ rest) /\ (length l + length rest = numv)%nat.

(** A state that scans and unmounts lead to. *)
Definition mounts_ok (st : MountsState) : Prop := volumes st = None \/ exists l, holds st l.

(** The first mount with a property. *)
Fixpoint first_with (key : mount_entry -> list Z) (wanted : list Z) (l : list (option mount_entry)) : option nat :=
  match l with
  | [] => None
  | o :: l => if decide (option_map key o = Some wanted) then Some 0%nat else S <$> first_with key wanted l
  end.

Lemma mount_lines_spec entries : forall fuel vs done,
  Forall mount_ok entries -> (length done + length entries <= length (done ++ vs))%nat -> (length entries < fuel)%nat ->
  mount_lines fuel (concat (map mount_line entries)) (done ++ vs) (length done) =
    ret (done ++ map of_mount entries ++ skipn (length entries) vs, (length done + length entries)%nat).
Proof.
  induction entries as [|x entries IH]; intros [|fuel] vs done Hok Hl Hf; cbn [length] in *; try lia.
  { cbn. now rewrite Nat.add_0_r. }
  apply Forall_cons in Hok as [Hx Hok]. cbn [map concat]. destruct (mount_line_split x Hx) as (a & Ea & Ha).
  pose proof (sscanf_mount_line x (c_string_n (length (concat (map mount_line entries))) (concat (map mount_line entries))) Hx) as Hscan.
  rewrite <- c_string_n_app in Hscan.
  2:{ rewrite Ea, Forall_app. split; [eapply Forall_impl; [exact Ha|cbv beta; tauto]|repeat constructor; lia]. }
  cbn [mount_lines]. destruct (mount_line x ++ _) as [|c s] eqn:E; [rewrite Ea in E; destruct a; discriminate|]. rewrite Hscan.
  rewrite (proj2 (Nat.ltb_lt _ _)) by lia. replace (eat_line (c :: s)) with (concat (map mount_line entries)).
  2:{ rewrite <- E, Ea, <- app_assoc. symmetry. apply eat_line_app. eapply Forall_impl; [exact Ha|cbv beta; tauto]. }
  change (mkVolume _ _ _ _) with (of_mount x). destruct vs as [|v vs]; [rewrite app_nil_r in Hl; lia|].
  rewrite insert_app_r_alt, Nat.sub_diag by lia. cbn [insert list_insert]. rewrite length_app in Hl. cbn [length] in Hl.
  change (done ++ of_mount x :: vs) with (done ++ [of_mount x] ++ vs). rewrite app_assoc.
  replace (S (length done)) with (length (done ++ [of_mount x])) by (rewrite length_app; cbn; lia).
  rewrite IH; [|exact Hok|rewrite !length_app; cbn [length]; lia|lia]. rewrite length_app, <- !app_assoc. cbn [length app skipn].
  now replace (length done + 1 + length entries)%nat with (length done + S (length entries))%nat by lia.
Qed.

Lemma find_volume_spec field key l : forall rest i wanted,
  (forall x, field (of_mount x) = Some (key x)) -> field blank = None -> chars wanted ->
  (forall x, In (Some x) l -> chars (key x)) ->
  find_volume field wanted (map volume_of l ++ rest) i (length l) =
    (fun k => i + k)%nat <$> first_with key wanted l.
Proof.
  induction l as [|o l IH]; intros rest i wanted Hf Hb Hw Hk; [now destruct rest|]. cbn [map app length find_volume first_with].
  assert (Hrec : find_volume field wanted (map volume_of l ++ rest) (S i) (length l) = (fun k => i + k)%nat <$> (S <$> first_with key wanted l)).
  { rewrite IH by (auto; intros x Hx; apply Hk; now right). destruct (first_with key wanted l); cbn; [f_equal; lia|reflexivity]. }
  destruct o as [x|]; cbn [volume_of option_map].
  - rewrite Hf. pose proof (strcmp_chars_eq (key x) wanted (Hk x ltac:(now left)) Hw) as Hs.
    destruct (Z.eqb_spec (strcmp_chars (key x) wanted) 0) as [E|E].
    + rewrite decide_True by (f_equal; tauto). cbn. f_equal. lia.
    + rewrite decide_False by (intros [= E']; tauto). exact Hrec.
  - rewrite Hb, decide_False by discriminate. exact Hrec.
Qed.

Lemma word_ok_chars n s : word_ok n s -> chars s.
Proof. intros [_ Hs]. eapply Forall_impl; [exact Hs|]. cbv beta. tauto. Qed.

Lemma holds_find st l wanted : holds st l -> chars wanted ->
  find_mounted_volume_by_device wanted st = first_with m_device wanted l /\
  find_mounted_volume_by_mount_point wanted st = first_with m_point wanted l.
Proof.
  intros (Hok & Hc & rest & Hv & _) Hw. unfold find_mounted_volume_by_device, find_mounted_volume_by_mount_point, find_in. rewrite Hv, Hc.
  assert (Hin : forall x, In (Some x) l -> mount_ok x) by (rewrite List.Forall_forall in Hok; eauto).
  split; [rewrite (find_volume_spec device m_device)|rewrite (find_volume_spec mount_point m_point)]; try reflexivity; auto;
    try (intros x Hx; destruct (Hin x Hx) as (H1 & H2 & _); eapply word_ok_chars; eassumption);
    destruct (first_with _ _ _); reflexivity.
Qed.

Lemma scan_holds fuel entries st : mounts_ok st -> Forall mount_ok entries -> (length entries <= numv)%nat ->
  (length (concat (map mount_line entries)) <= 2047)%nat -> (length entries < fuel)%nat ->
  exists st', scan_mounted_volumes fuel (Some (concat (map mount_line entries))) st = ret (0, st') /\ holds st' (map Some entries).
Proof.
  intros Hst Hok Hn Hlen Hf. unfold scan_mounted_volumes. set (vs := match volumes st with Some _ => _ | None => _ end).
  assert (Hl : length vs = numv).
  { unfold vs. destruct Hst as [->|(l & _ & Hc & rest & -> & Hl)]; [apply repeat_length|].
    rewrite length_app, length_map, length_firstn, length_skipn, length_app, length_map. lia. }
  rewrite firstn_all2 by lia. pose proof (mount_lines_spec entries fuel vs [] Hok) as Hm. cbn [app length] in Hm. rewrite Hm by lia.
  cbn [bindM ret]. eexists. split; [reflexivity|]. split; [|split].
  - apply List.Forall_forall. intros o (x & <- & Hx)%in_map_iff y [= <-]. rewrite List.Forall_forall in Hok. auto.
  - cbn. now rewrite length_map.
  - exists (skipn (length entries) vs). cbn [volumes]. rewrite map_map, length_map, length_skipn. split; [reflexivity|lia].
Qed.

Lemma unmount_holds {K} `{Mounter K} st l i x (k k' : K) : holds st l -> l !! i = Some (Some x) -> umount (Some (m_point x)) k = (0, k') ->
  exists st', unmount_mounted_volume i st k = Ret (0, st', k') /\ holds st' (<[i := None]> l).
Proof.
  intros (Hok & Hc & rest & Hv & Hl) Hi Hu. pose proof (lookup_lt_Some _ _ _ Hi) as Hlt. unfold unmount_mounted_volume, volume_at.
  rewrite Hv. assert (Ei : (map volume_of l ++ rest) !! i = Some (of_mount x)).
  { rewrite lookup_app_l by (rewrite length_map; exact Hlt). rewrite (list_lookup_fmap volume_of), Hi. reflexivity. }
  rewrite Ei. cbn [bind mount_point of_mount]. rewrite Hu. cbn [Z.eqb]. eexists. split; [reflexivity|]. split; [|split].
  - apply Forall_insert; [exact Hok|]. discriminate.
  - cbn. now rewrite length_insert.
  - exists rest. cbn [volumes]. rewrite length_insert, insert_app_l by (rewrite length_map; exact Hlt). split; [|exact Hl].
    f_equal. f_equal. symmetry. apply (list_fmap_insert volume_of).
Qed.

(** C20: The table of volumes is the list of mounts the kernel prints: after a scan of at
    most 32 mounts (fields of at most 63 characters, the options of at most 127, 2047
    bytes of text) a volume is found by its device or mount point exactly when one is
    listed, and the first one is found; unmounting a volume takes it, and only it, from
    the list, so that the next volume with the name is found after it. *)
Theorem mounts_refine {K} `{Mounter K} fuel entries st wanted i x (k k' : K) :
  mounts_ok st -> Forall mount_ok entries -> (length entries <= numv)%nat ->
  (length (concat (map mount_line entries)) <= 2047)%nat -> (length entries < fuel)%nat -> chars wanted ->
  entries !! i = Some x -> umount (Some (m_point x)) k = (0, k') ->
  exists st1 st2, scan_mounted_volumes fuel (Some (concat (map mount_line entries))) st = ret (0, st1) /\
    find_mounted_volume_by_device wanted st1 = first_with m_device wanted (map Some entries) /\
    find_mounted_volume_by_mount_point wanted st1 = first_with m_point wanted (map Some entries) /\
    unmount_mounted_volume i st1 k = Ret (0, st2, k') /\
    find_mounted_volume_by_device wanted st2 = first_with m_device wanted (<[i := None]> (map Some entries)) /\
    find_mounted_volume_by_mount_point wanted st2 = first_with m_point wanted (<[i := None]> (map Some entries)) /\ mounts_ok st2.
Proof.
  intros Hst Hok Hn Hlen Hf Hw Hi Hu. destruct (scan_holds fuel entries st Hst Hok Hn Hlen Hf) as (st1 & E1 & H1).
  assert (Hi' : map Some entries !! i = Some (Some x)) by (rewrite (list_lookup_fmap Some), Hi; reflexivity).
  destruct (unmount_holds st1 _ i x k k' H1 Hi' Hu) as (st2 & E2 & H2). exists st1, st2.
  destruct (holds_find _ _ wanted H1 Hw), (holds_find _ _ wanted H2 Hw). repeat split; try assumption. right. eauto.
Qed.

(** * Examples *)

#[local] Instance unit_mounter : Mounter unit := { umount _ k := (0, k); remount _ _ _ _ k := (0, k) }.

Definition root_fs : mount_entry := mkMount [114] [47] [114; 102] [114; 119].
Definition data_fs : mount_entry := mkMount [100] [47; 100] [101; 52] [114; 119].
Definition data_again : mount_entry := mkMount [120] [47; 100] [116] [114; 111].

Lemma mounts_refine_witness :
  exists st1 st2, scan_mounted_volumes 4 (Some (concat (map mount_line [root_fs; data_fs; data_again]))) g_mounts_state = ret (0, st1) /\
    find_mounted_volume_by_device [47; 100] st1 = None /\
    find_mounted_volume_by_mount_point [47; 100] st1 = Some 1%nat /\
    unmount_mounted_volume 1 st1 tt = Ret (0, st2, tt) /\
    find_mounted_volume_by_device [47; 100] st2 = None /\
    find_mounted_volume_by_mount_point [47; 100] st2 = Some 2%nat /\ mounts_ok st2.
Proof.
  apply (mounts_refine 4 [root_fs; data_fs; data_again] g_mounts_state [47; 100] 1 data_fs tt tt).
  - now left.
  - unfold mount_ok, word_ok. repeat constructor; cbn; lia.
  - cbn. unfold numv. lia.
  - apply Nat.leb_le. reflexivity.
  - cbn. lia.
  - repeat constructor; lia.
  - reflexivity.
  - reflexivity.
Defined.

(** Thirty-three mounts are one too many for the table. *)
Lemma mounts_overflow : scan_mounted_volumes 40 (Some (concat (map mount_line (repeat data_fs 33)))) g_mounts_state = Some Fault.
Proof. reflexivity. Qed.

(** A device of more than 63 characters is cut, and the rest of it is taken for the mount
    point. *)
Lemma long_device_shifts :
  sscanf_mount (mount_line (mkMount (repeat 97 64) [47] [102] [114])) = Some (repeat 97 63, [97], [47], [102]).
Proof. reflexivity. Qed.
