(* ===== verification/Mmc.v ===== *)
(** Partitions of memory cards: src/mmcutils/mmcutils.c (and mmcutils.h).

    The partition table of a card is a master boot record with four entries, the last of
    which may point to a chain of extended boot records.  A card is a function from
    sector numbers to the 512 bytes of a sector.  Numbers have the widths of a 32-bit
    machine.  A store outside the table of 64 partitions is a [Fault]. *)
From Stdlib Require Import String Ascii.
From stdpp Require Import list.
From S2P Require Import Prelude CString MtdScan.

Definition TABLE_ENTRY_0 : nat := 446.
Definition TABLE_ENTRY_1 : nat := 462.
Definition TABLE_SIGNATURE : nat := 510.
Definition TABLE_ENTRY_SIZE : nat := 16.
Definition OFFSET_STATUS : nat := 0.
Definition OFFSET_TYPE : nat := 4.
Definition OFFSET_FIRST_SEC : nat := 8.
Definition OFFSET_SIZE : nat := 12.
Definition MAX_PARTITIONS : nat := 64.
Definition MMC_BOOT_TYPE : Z := 72.
Definition MMC_RECOVERY_TYPE : Z := 113.
Definition MMC_EXT3_TYPE : Z := 131.
Definition MMC_VFAT_TYPE : Z := 12.

Definition GET_LWORD_FROM_BYTE (buffer : list Z) (i : nat) : Z :=
  Z.lor (Z.lor (Z.lor (get buffer i) (u32 (Z.shiftl (get buffer (i + 1)) 8))) (u32 (Z.shiftl (get buffer (i + 2)) 16)))
        (u32 (Z.shiftl (get buffer (i + 3)) 24)).

Record MmcPartition := mkMmc {
  device_index : option (list Z);
  filesystem : option (list Z);
  name : option (list Z);
  dstatus : Z;
  dtype : Z;
  dfirstsec : Z;
  dsize : Z
}.

(** The two counters of names that have been given out. *)
Record counts := mkCounts { ext3_count : nat; vfat_count : nat }.
Definition ext3_partitions : list (list Z) := [str "system"; str "userdata"; str "cache"; str "NONE"].
Definition vfat_partitions : list (list Z) := [str "modem"; str "NONE"].

Record MmcState := mkState { partitions : option (list MmcPartition); partition_count : Z; counters : counts }.
Definition g_mmc_state : MmcState := mkState None (-1) (mkCounts 0 0).

Definition MMC_DEVICENAME : list Z := str "/dev/block/mmcblk0".

(** * Reading the partition table *)

Definition set_name (p : MmcPartition) (n : option (list Z)) : MmcPartition :=
  mkMmc (device_index p) (filesystem p) n (dstatus p) (dtype p) (dfirstsec p) (dsize p).
Definition set_filesystem (p : MmcPartition) (s : list Z) : MmcPartition :=
  mkMmc (device_index p) (Some s) (name p) (dstatus p) (dtype p) (dfirstsec p) (dsize p).
Definition set_device (p : MmcPartition) (s : list Z) : MmcPartition :=
  mkMmc (Some s) (filesystem p) (name p) (dstatus p) (dtype p) (dfirstsec p) (dsize p).

(** The next name of a list, unless the list has ended. *)
Definition next_name (names : list (list Z)) (i : nat) : outcome (option (list Z)) :=
  match nth_error names i with
  | None => Fault
  | Some s => Ret (if strcmp_chars (str "NONE") s =? 0 then None else Some s)
  end.

Definition mmc_partition_name (p : MmcPartition) (type : Z) (c : counts) : outcome (MmcPartition * counts) :=
  if type =? MMC_BOOT_TYPE then Ret (set_name p (Some (str "boot")), c)
  else if type =? MMC_RECOVERY_TYPE then Ret (set_name p (Some (str "recovery")), c)
  else if type =? MMC_EXT3_TYPE then
    let! n := next_name ext3_partitions (ext3_count c) in
    let '(p, c) := match n with Some s => (set_name p (Some s), mkCounts (S (ext3_count c)) (vfat_count c)) | None => (p, c) end in
    Ret (set_filesystem p (str "ext3"), c)
  else if type =? MMC_VFAT_TYPE then
    let! n := next_name vfat_partitions (vfat_count c) in
    let '(p, c) := match n with Some s => (set_name p (Some s), mkCounts (ext3_count c) (S (vfat_count c))) | None => (p, c) end in
    Ret (set_filesystem p (str "vfat"), c)
  else Ret (p, c).

(** The decimal digits of a partition number, which has at most two. *)
Definition decimal2 (n : nat) : list Z := printed 10 (index_digits (Z.of_nat n)) (Z.of_nat n).

(** One entry of a sector into the table at [count]; the first sector is relative to
    [base]. *)
Definition store_entry (device buffer : list Z) (off : nat) (base : Z) (count : nat) (parts : list MmcPartition) (c : counts)
    : outcome (list MmcPartition * counts) :=
  match parts !! count with
  | None => Fault
  | Some p =>
      let p := mkMmc (device_index p) (filesystem p) (name p) (get buffer (off + OFFSET_STATUS)) (get buffer (off + OFFSET_TYPE))
                 (u32 (GET_LWORD_FROM_BYTE buffer (off + OFFSET_FIRST_SEC) + base)) (GET_LWORD_FROM_BYTE buffer (off + OFFSET_SIZE)) in
      let! r := mmc_partition_name p (dtype p) c in
      let '(p, c) := r in
      Ret (<[count := set_device p (device ++ [112] ++ decimal2 (S count))]> parts, c)
  end.

Definition signed (buffer : list Z) : bool := (get buffer TABLE_SIGNATURE =? 85) && (get buffer (TABLE_SIGNATURE + 1) =? 170).

(** The four entries of the master boot record, from [i] on, with room left. *)
Fixpoint read_primary (n : nat) (device buffer : list Z) (i count : nat) (parts : list MmcPartition) (c : counts) : outcome (list MmcPartition * counts) :=
  match n with
  | O => Ret (parts, c)
  | S n =>
      let! r := store_entry device buffer (TABLE_ENTRY_0 + i * TABLE_ENTRY_SIZE) 0 count parts c in
      let '(parts, c) := r in read_primary n device buffer (S i) (S count) parts c
  end.

(** The sector [fseek] leads to: the byte offset has 32 bits, and a negative one leaves
    the stream at the sector [here]. *)
Definition seek_sector (here sec : Z) : Z := let off := i32 (u32 (sec * 512)) in if off <? 0 then here else off / 512.

(** The chain of extended boot records; the result is -1 when a sector cannot be
    read. *)
Fixpoint read_ebr (fuel : nat) (disk : Z -> option (list Z)) (device buffer : list Z) (first current here : Z) (count : nat)
    (parts : list MmcPartition) (c : counts) : M (Z * list MmcPartition * counts) :=
  match fuel with
  | O => None
  | S fuel =>
      if negb (signed buffer) then ret (Z.of_nat count, parts, c)
      else
        do! r := lift (store_entry device buffer TABLE_ENTRY_0 current count parts c) in
        let '(parts, c) := r in
        let count := S count in
        if (count =? MAX_PARTITIONS)%nat then ret (Z.of_nat count, parts, c)
        else
          let next := GET_LWORD_FROM_BYTE buffer (TABLE_ENTRY_1 + OFFSET_FIRST_SEC) in
          if next =? 0 then ret (Z.of_nat count, parts, c)
          else
            let sec := seek_sector here (u32 (first + next)) in
            match disk sec with
            | None => ret (-1, parts, c)
            | Some buffer => read_ebr fuel disk device buffer first (u32 (first + next)) (sec + 1) count parts c
            end
  end.

(** [disk] is [None] when the device cannot be opened. *)
Definition mmc_read_mbr (fuel : nat) (device : list Z) (disk : option (Z -> option (list Z))) (parts : list MmcPartition) (c : counts)
    : M (Z * list MmcPartition * counts) :=
  match disk with
  | None => ret (-1, parts, c)
  | Some disk =>
      match disk 0 with
      | None => ret (-1, parts, c)
      | Some buffer =>
          if negb (signed buffer) then ret (-1, parts, c)
          else
            do! r := lift (read_primary 4 device buffer 0 0 parts c) in
            let '(parts, c) := r in
            if negb (get buffer (TABLE_ENTRY_0 + 3 * TABLE_ENTRY_SIZE + OFFSET_TYPE) =? 5) then ret (4, parts, c)
            else
              let first := GET_LWORD_FROM_BYTE buffer (TABLE_ENTRY_0 + 3 * TABLE_ENTRY_SIZE + OFFSET_FIRST_SEC) in
              let sec := seek_sector 1 first in
              match disk sec with
              | None => ret (-1, parts, c)
              | Some buffer => read_ebr fuel disk device buffer first first (sec + 1) 4 parts c
              end
      end
  end.

Definition released (p : MmcPartition) : MmcPartition := mkMmc None None None (dstatus p) (dtype p) (dfirstsec p) (dsize p).

Definition mmc_scan_partitions (fuel : nat) (disk : option (Z -> option (list Z))) (st : MmcState) : M (Z * MmcState) :=
  let parts := match partitions st with Some parts => parts | None => repeat (mkMmc None None None 0 0 0 0) MAX_PARTITIONS end in
  do! r := mmc_read_mbr fuel MMC_DEVICENAME disk (map released parts) (mkCounts 0 0) in
  let '(n, parts, c) := r in ret (n, mkState (Some parts) n c).

(** * Looking up *)

Definition named (key : MmcPartition -> option (list Z)) (wanted : list Z) (p : MmcPartition) : bool :=
  match device_index p, name p, key p with Some _, Some _, Some s => strcmp_chars s wanted =? 0 | _, _, _ => false end.

Definition mmc_find_partition_by_device_index (wanted : list Z) (st : MmcState) : option MmcPartition :=
  match partitions st with None => None | Some parts => List.find (named device_index wanted) parts end.

Definition mmc_find_partition_by_name (wanted : list Z) (st : MmcState) : option MmcPartition :=
  match wanted with
  | c :: _ => if c =? SLASH then mmc_find_partition_by_device_index wanted st
              else match partitions st with None => None | Some parts => List.find (named name wanted) parts end
  | [] => match partitions st with None => None | Some parts => List.find (named name wanted) parts end
  end.
