(* ===== verification/MmcTable.v ===== *)
(** What reading the partition table of a card gives (src/mmcutils/mmcutils.c): safety on
    every card, and the partitions of a card that was partitioned properly. *)
From Stdlib Require Import String.
From stdpp Require Import list.
From S2P Require Import Prelude CString MtdScan Mmc.

(** * Safety *)

Definition counts_ok (c : counts) : Prop := (ext3_count c <= 3)%nat /\ (vfat_count c <= 1)%nat.

Lemma next_name_ext3 i : (i <= 3)%nat -> next_name ext3_partitions i = Ret (if (i <? 3)%nat then nth_error ext3_partitions i else None).
Proof. intros Hi. destruct i as [|[|[|[|i]]]]; [reflexivity..|lia]. Qed.

Lemma next_name_vfat i : (i <= 1)%nat -> next_name vfat_partitions i = Ret (if (i <? 1)%nat then nth_error vfat_partitions i else None).
Proof. intros Hi. destruct i as [|[|i]]; [reflexivity..|lia]. Qed.

(** A name is found for every type of partition. *)
Lemma partition_name_ok p type c : counts_ok c -> exists p' c', mmc_partition_name p type c = Ret (p', c') /\ counts_ok c'.
Proof.
  intros [H1 H2]. unfold mmc_partition_name. destruct (type =? MMC_BOOT_TYPE); [unfold counts_ok; eauto|].
  destruct (type =? MMC_RECOVERY_TYPE); [unfold counts_ok; eauto|]. destruct (type =? MMC_EXT3_TYPE).
  { rewrite next_name_ext3 by exact H1. cbn [bind]. destruct (Nat.ltb_spec (ext3_count c) 3).
    - destruct (nth_error ext3_partitions (ext3_count c)); do 2 eexists; (split; [reflexivity|]); split; cbn; lia.
    - do 2 eexists. split; [reflexivity|]. now split. }
  destruct (type =? MMC_VFAT_TYPE); [|unfold counts_ok; eauto].
  rewrite next_name_vfat by exact H2. cbn [bind]. destruct (Nat.ltb_spec (vfat_count c) 1).
  - destruct (nth_error vfat_partitions (vfat_count c)); do 2 eexists; (split; [reflexivity|]); split; cbn; lia.
  - do 2 eexists. split; [reflexivity|]. now split.
Qed.

Lemma store_entry_ok device buffer off base count parts c : counts_ok c -> (count < length parts)%nat ->
  exists parts' c', store_entry device buffer off base count parts c = Ret (parts', c') /\ counts_ok c' /\ length parts' = length parts.
Proof.
  intros Hc Hl. unfold store_entry. destruct (lookup_lt_is_Some_2 parts count Hl) as [p ->]. cbv zeta.
  match goal with |- context [mmc_partition_name ?a ?b c] => destruct (partition_name_ok a b c Hc) as (p' & c' & -> & Hc') end.
  cbn [bind]. do 2 eexists. split; [reflexivity|]. split; [exact Hc'|apply length_insert].
Qed.

Lemma read_primary_ok n : forall device buffer i count parts c, counts_ok c -> (count + n <= length parts)%nat ->
  exists parts' c', read_primary n device buffer i count parts c = Ret (parts', c') /\ counts_ok c' /\ length parts' = length parts.
Proof.
  induction n as [|n IH]; intros device buffer i count parts c Hc Hl; cbn [read_primary]; [eauto|].
  destruct (store_entry_ok device buffer (TABLE_ENTRY_0 + i * TABLE_ENTRY_SIZE) 0 count parts c Hc ltac:(lia)) as (parts1 & c1 & -> & Hc1 & Hl1). cbn [bind].
  destruct (IH device buffer (S i) (S count) parts1 c1 Hc1 ltac:(lia)) as (parts2 & c2 & -> & Hc2 & Hl2). rewrite Hl1 in Hl2. eauto.
Qed.

Lemma read_ebr_ok fuel : forall disk device buffer first current here count parts c,
  counts_ok c -> length parts = MAX_PARTITIONS -> (count < MAX_PARTITIONS)%nat -> (MAX_PARTITIONS <= count + fuel)%nat ->
  exists n parts' c', read_ebr fuel disk device buffer first current here count parts c = ret (n, parts', c') /\ counts_ok c' /\
    length parts' = MAX_PARTITIONS /\ -1 <= n <= 64.
Proof.
  unfold MAX_PARTITIONS. induction fuel as [|fuel IH]; intros disk device buffer first current here count parts c Hc Hl Hn Hf; [lia|].
  cbn [read_ebr]. destruct (signed buffer); cbn [negb]; [|do 3 eexists; split; [reflexivity|]; repeat split; try apply Hc; lia].
  destruct (store_entry_ok device buffer TABLE_ENTRY_0 current count parts c Hc ltac:(lia)) as (parts1 & c1 & -> & Hc1 & Hl1). cbn [lift bindM].
  rewrite Hl in Hl1. destruct (Nat.eqb_spec (S count) MAX_PARTITIONS) as [Hmax|Hmax]; unfold MAX_PARTITIONS in Hmax;
    [do 3 eexists; split; [reflexivity|]; repeat split; try apply Hc1; lia|].
  destruct (_ =? 0); [do 3 eexists; split; [reflexivity|]; repeat split; try apply Hc1; lia|].
  destruct (disk _) as [buffer'|]; [|do 3 eexists; split; [reflexivity|]; repeat split; try apply Hc1; lia].
  apply IH; auto; lia.
Qed.

Definition state_ok (st : MmcState) : Prop := match partitions st with Some parts => length parts = MAX_PARTITIONS | None => True end.

(** C22: Reading the partition table is safe on every card: whatever the sectors hold,
    also when the extended boot records form a cycle, the scan ends, stays inside the
    table of 64 partitions and the lists of names, and returns -1 or at most 64. *)
Theorem mmc_scan_safe disk st fuel : state_ok st -> (60 <= fuel)%nat ->
  exists n st', mmc_scan_partitions fuel disk st = ret (n, st') /\ state_ok st' /\ -1 <= n <= 64.
Proof.
  intros Hst Hf. unfold mmc_scan_partitions. set (parts := map released _).
  assert (Hl : length parts = MAX_PARTITIONS).
  { unfold parts, state_ok in *. rewrite length_map. destruct (partitions st); [exact Hst|apply repeat_length]. }
  assert (Hc : counts_ok (mkCounts 0 0)) by (split; cbn; lia).
  assert (Hfail : exists n st', (do! (n, parts, c) := ret (-1, parts, mkCounts 0 0) in ret (n, mkState (Some parts) n c)) = ret (n, st') /\ state_ok st' /\ -1 <= n <= 64)
    by (do 2 eexists; split; [reflexivity|]; split; [exact Hl|lia]).
  unfold mmc_read_mbr. destruct disk as [disk|]; [|exact Hfail]. destruct (disk 0) as [buffer|]; [|exact Hfail].
  destruct (signed buffer); cbn [negb]; [|exact Hfail].
  destruct (read_primary_ok 4 MMC_DEVICENAME buffer 0 0 parts _ Hc) as (parts1 & c1 & -> & Hc1 & Hl1); [rewrite Hl; unfold MAX_PARTITIONS; lia|].
  cbn [lift bindM]. rewrite Hl in Hl1. destruct (negb _); [do 2 eexists; split; [reflexivity|]; split; [exact Hl1|lia]|].
  destruct (disk _) as [buffer'|]; [|do 2 eexists; split; [reflexivity|]; split; [exact Hl1|lia]].
  match goal with |- context [read_ebr fuel disk ?d buffer' ?a ?b ?h 4 parts1 c1] =>
    destruct (read_ebr_ok fuel disk d buffer' a b h 4 parts1 c1 Hc1 Hl1) as (n & parts2 & c2 & -> & _ & Hl2 & Hn) end;
    [unfold MAX_PARTITIONS; lia|unfold MAX_PARTITIONS; lia|].
  cbn [bindM ret]. do 2 eexists. split; [reflexivity|]. split; [exact Hl2|exact Hn].
Qed.

(** * The partitions of a card *)

(** An entry of a table, and how it is stored; the two addresses by cylinder, head and
    sector, of three bytes each, are arbitrary. *)
Record part := mkPart { status : Z; type : Z; first : Z; sectors : Z }.
Definition le4 (z : Z) : list Z := [z mod 256; z / 256 mod 256; z / 65536 mod 256; z / 16777216 mod 256].
Definition encode (chs chs' : list Z) (p : part) : list Z := [status p] ++ chs ++ [type p] ++ chs' ++ le4 (first p) ++ le4 (sectors p).
Definition holds (buffer : list Z) (off : nat) (p : part) : Prop :=
  exists pre chs chs' post, buffer = pre ++ encode chs chs' p ++ post /\ length pre = off /\ length chs = 3%nat /\ length chs' = 3%nat.

(** A boot record with the entries [ps], after arbitrary boot code. *)
Definition boot_sector (buffer : list Z) (ps : list part) : Prop :=
  (forall i p, ps !! i = Some p -> holds buffer (446 + i * 16) p) /\ buffer !! 510%nat = Some 85 /\ buffer !! 511%nat = Some 170.
Definition part_ok (p : part) : Prop := word 32 (first p) /\ word 32 (sectors p).

Lemma lword_value a b c d l i : get l i = a -> get l (i + 1) = b -> get l (i + 2) = c -> get l (i + 3) = d -> bytes [d; c; b; a] ->
  GET_LWORD_FROM_BYTE l i = a + 2 ^ 8 * b + 2 ^ 16 * c + 2 ^ 24 * d.
Proof.
  intros <- <- <- <- Hb. pose proof (be32_value _ _ _ _ Hb) as Hv.
  do 4 (inversion Hb as [|? ? ? Hb']; subst; clear Hb; rename Hb' into Hb). unfold word in *.
  unfold GET_LWORD_FROM_BYTE. rewrite !u32_small by (rewrite Z.shiftl_mul_pow2; lia). unfold be32 in Hv.
  replace (_ + _ + _ + _) with (get l (i + 3) * 2 ^ 24 + get l (i + 2) * 2 ^ 16 + get l (i + 1) * 2 ^ 8 + get l i) by lia. rewrite <- Hv.
  rewrite !(Z.lor_comm _ (get l i)), <- !Z.lor_assoc. f_equal. rewrite !Z.lor_assoc.
  rewrite (Z.lor_comm (Z.lor (Z.shiftl _ 8) _)), (Z.lor_comm (Z.shiftl _ 8)), Z.lor_assoc. reflexivity.
Qed.

Lemma le4_bytes z : word 32 z -> let l := le4 z in
  bytes [get l 3; get l 2; get l 1; get l 0] /\ get l 0 + 2 ^ 8 * get l 1 + 2 ^ 16 * get l 2 + 2 ^ 24 * get l 3 = z.
Proof.
  unfold word, le4, get. cbn [nth]. intros Hz. split.
  - repeat constructor; apply Z.mod_pos_bound; lia.
  - change (2 ^ 32) with 4294967296 in *. change (2 ^ 8) with 256. change (2 ^ 16) with 65536. change (2 ^ 24) with 16777216.
    rewrite (Z.mod_small (z / 16777216)) by (split; [apply Z.div_pos|apply Z.div_lt_upper_bound]; lia).
    replace (z / 65536) with (z / 256 / 256) by now rewrite Z.div_div.
    replace (z / 16777216) with (z / 256 / 256 / 256) by (rewrite !Z.div_div by lia; reflexivity).
    pose proof (Z.div_mod z 256 ltac:(lia)). pose proof (Z.div_mod (z / 256) 256 ltac:(lia)). pose proof (Z.div_mod (z / 256 / 256) 256 ltac:(lia)). lia.
Qed.

Lemma get_app_at a b i j : length a = i -> get (a ++ b) (i + j) = get b j.
Proof. intros <-. unfold get. rewrite app_nth2 by lia. f_equal. lia. Qed.

(** The number at an offset of a buffer that holds its bytes there. *)
Lemma lword_at pre z post i : word 32 z -> length pre = i -> GET_LWORD_FROM_BYTE (pre ++ le4 z ++ post) i = z.
Proof.
  intros Hz Hi. destruct (le4_bytes z Hz) as [Hb Hv]. rewrite <- Hv at 2.
  apply lword_value; try exact Hb; [rewrite <- (Nat.add_0_r i)|..]; rewrite (get_app_at _ _ _ _ Hi); reflexivity.
Qed.

(** What the four fields of an entry read as, wherever it is. *)
Lemma holds_fields buffer off p : part_ok p -> holds buffer off p ->
  get buffer (off + OFFSET_STATUS) = status p /\ get buffer (off + OFFSET_TYPE) = type p /\
  GET_LWORD_FROM_BYTE buffer (off + OFFSET_FIRST_SEC) = first p /\ GET_LWORD_FROM_BYTE buffer (off + OFFSET_SIZE) = sectors p.
Proof.
  intros [Hf Hs] (pre & chs & chs' & post & -> & <- & H3 & H3'). unfold OFFSET_STATUS, OFFSET_TYPE, OFFSET_FIRST_SEC, OFFSET_SIZE.
  destruct chs as [|x [|y [|z [|]]]]; try discriminate. destruct chs' as [|x' [|y' [|z' [|]]]]; try discriminate. clear H3 H3'.
  split; [now rewrite (get_app_at _ _ _ 0)|]. split; [now rewrite (get_app_at _ _ _ 4)|]. split.
  - replace (pre ++ encode [x; y; z] [x'; y'; z'] p ++ post) with ((pre ++ [status p; x; y; z; type p; x'; y'; z']) ++ le4 (first p) ++ (le4 (sectors p) ++ post))
      by (unfold encode; now rewrite <- !app_assoc).
    apply lword_at; [exact Hf|]. rewrite length_app. reflexivity.
  - replace (pre ++ encode [x; y; z] [x'; y'; z'] p ++ post) with ((pre ++ [status p; x; y; z; type p; x'; y'; z'] ++ le4 (first p)) ++ le4 (sectors p) ++ post)
      by (unfold encode; now rewrite <- !app_assoc).
    apply lword_at; [exact Hs|]. rewrite !length_app. reflexivity.
Qed.

(** The partition that an entry becomes after the entries [before]: the names of file
    systems are given out in order, one to each partition of the type. *)
Definition occurs (ty : Z) (before : list part) : nat := length (filter (fun p => type p = ty) before).
Definition spec_name (before : list part) (ty : Z) : option (list Z) :=
  if ty =? MMC_BOOT_TYPE then Some (str "boot")
  else if ty =? MMC_RECOVERY_TYPE then Some (str "recovery")
  else if ty =? MMC_EXT3_TYPE then nth_error [str "system"; str "userdata"; str "cache"] (occurs ty before)
  else if ty =? MMC_VFAT_TYPE then nth_error [str "modem"] (occurs ty before)
  else None.
Definition spec_filesystem (ty : Z) : option (list Z) :=
  if ty =? MMC_EXT3_TYPE then Some (str "ext3") else if ty =? MMC_VFAT_TYPE then Some (str "vfat") else None.
Definition expect (device : list Z) (before : list part) (p : part) : MmcPartition :=
  mkMmc (Some (device ++ [112] ++ decimal2 (S (length before)))) (spec_filesystem (type p)) (spec_name before (type p))
    (status p) (type p) (first p) (sectors p).
Fixpoint expected (device : list Z) (before ps : list part) : list MmcPartition :=
  match ps with [] => [] | p :: ps => expect device before p :: expected device (before ++ [p]) ps end.

Lemma expected_app device a : forall before b, expected device before (a ++ b) = expected device before a ++ expected device (before ++ a) b.
Proof. induction a as [|x a IH]; intros before b; cbn [app expected]; [now rewrite app_nil_r|]. now rewrite IH, <- app_assoc. Qed.

Lemma expected_length device a : forall before, length (expected device before a) = length a.
Proof. induction a as [|x a IH]; intros before; cbn [expected length]; [reflexivity|now rewrite IH]. Qed.

Definition counts_of (before : list part) : counts := mkCounts (min 3 (occurs MMC_EXT3_TYPE before)) (min 1 (occurs MMC_VFAT_TYPE before)).

Lemma occurs_app ty before p : occurs ty (before ++ [p]) = if type p =? ty then S (occurs ty before) else occurs ty before.
Proof.
  unfold occurs. rewrite filter_app, length_app. destruct (Z.eqb_spec (type p) ty).
  - rewrite filter_cons_True by assumption. cbn. lia.
  - rewrite filter_cons_False by assumption. cbn. lia.
Qed.

Lemma partition_name_spec before p d s :
  mmc_partition_name (mkMmc None None None s (type p) d (sectors p)) (type p) (counts_of before) =
    Ret (mkMmc None (spec_filesystem (type p)) (spec_name before (type p)) s (type p) d (sectors p), counts_of (before ++ [p])).
Proof.
  unfold mmc_partition_name, spec_filesystem, spec_name, counts_of. rewrite !occurs_app.
  destruct (Z.eqb_spec (type p) MMC_BOOT_TYPE) as [->|]; [reflexivity|]. destruct (Z.eqb_spec (type p) MMC_RECOVERY_TYPE) as [->|]; [reflexivity|].
  destruct (Z.eqb_spec (type p) MMC_EXT3_TYPE) as [->|].
  { cbn [ext3_count]. rewrite next_name_ext3 by lia. cbn [bind vfat_count Z.eqb]. change (MMC_EXT3_TYPE =? MMC_VFAT_TYPE) with false. cbv iota.
    destruct (occurs MMC_EXT3_TYPE before) as [|[|[|k]]]; try reflexivity. cbn. now destruct k. }
  destruct (Z.eqb_spec (type p) MMC_VFAT_TYPE) as [->|]; [|reflexivity].
  cbn [vfat_count]. rewrite next_name_vfat by lia. cbn [bind ext3_count]. destruct (occurs MMC_VFAT_TYPE before) as [|k]; [reflexivity|].
  cbn. now destruct k.
Qed.

(** An entry of a buffer is stored as the partition it describes. *)
Lemma store_entry_spec device buffer off before p base done blanks :
  part_ok p -> holds buffer off p -> length done = length before -> Forall (fun q => released q = q) blanks -> blanks <> [] ->
  store_entry device buffer off base (length before) (done ++ blanks) (counts_of before) =
    let p' := mkPart (status p) (type p) (u32 (first p + base)) (sectors p) in
    Ret ((done ++ [expect device before p']) ++ tail blanks, counts_of (before ++ [p'])).
Proof.
  intros Hp Hh Hd Hb Hne. destruct blanks as [|q blanks]; [congruence|]. apply Forall_cons in Hb as [Hq _].
  destruct (holds_fields buffer off p Hp Hh) as (E1 & E2 & E3 & E4). unfold store_entry. rewrite <- Hd, list_lookup_middle by reflexivity.
  rewrite E1, E2, E3, E4. cbv zeta. rewrite <- Hq. cbn [released device_index filesystem name dtype].
  pose proof (partition_name_spec before (mkPart (status p) (type p) (u32 (first p + base)) (sectors p)) (u32 (first p + base)) (status p)) as Hn.
  cbn [type sectors] in Hn. rewrite Hn. cbn [bind tail]. rewrite insert_app_r_alt, Nat.sub_diag, <- app_assoc by lia. rewrite Hd. reflexivity.
Qed.

Lemma read_primary_spec ps : forall device buffer before i done blanks,
  Forall part_ok ps -> (forall j p, ps !! j = Some p -> holds buffer (446 + (i + j) * 16) p) -> length done = length before ->
  Forall (fun q => released q = q) blanks -> (length ps <= length blanks)%nat ->
  read_primary (length ps) device buffer i (length before) (done ++ blanks) (counts_of before) =
    Ret ((done ++ expected device before ps) ++ skipn (length ps) blanks, counts_of (before ++ ps)).
Proof.
  induction ps as [|p ps IH]; intros device buffer before i done blanks Hok Hh Hd Hb Hl; cbn [length read_primary expected skipn].
  { now rewrite !app_nil_r. }
  apply Forall_cons in Hok as [Hp Hok]. destruct blanks as [|q blanks]; [cbn in Hl; lia|].
  pose proof (Hh 0%nat p eq_refl) as Hh0. rewrite Nat.add_0_r in Hh0. unfold TABLE_ENTRY_0, TABLE_ENTRY_SIZE.
  rewrite (store_entry_spec device buffer _ before p) by (assumption || discriminate). cbn [bind tail].
  replace (mkPart _ _ _ _) with p by (destruct p; cbn in *; f_equal; rewrite Z.add_0_r; symmetry; apply u32_small, Hp).
  replace (S (length before)) with (length (before ++ [p])) by (rewrite length_app; cbn; lia).
  rewrite (IH device buffer (before ++ [p]) (S i) (done ++ [expect device before p]) blanks).
  - now rewrite <- !app_assoc.
  - exact Hok.
  - intros j r Hj. replace (S i + j)%nat with (i + S j)%nat by lia. now apply Hh.
  - rewrite !length_app, Hd. reflexivity.
  - now apply Forall_cons in Hb as [_ Hb].
  - cbn in Hl. lia.
Qed.

(** * Extended boot records *)

(** A logical partition: where its boot record is, relative to the first one, and its
    entry, relative to the boot record. *)
Record logical := mkLogical { ebr : Z; entry : part }.

(** The record of a logical partition: its entry, and in the second entry, of which
    nothing else matters, where the next record is relative to the first one; 0 ends the
    chain. *)
Definition ebr_sector (buffer : list Z) (p : part) (next : Z) : Prop :=
  boot_sector buffer [p] /\ exists pre post, buffer = pre ++ le4 next ++ post /\ length pre = 470%nat.
Definition next_ebr (ls : list logical) : Z := match ls with l :: _ => ebr l | [] => 0 end.

(** The records of a card, whose first one is at the sector [E]. *)
Fixpoint chain (disk : Z -> option (list Z)) (E : Z) (ls : list logical) : Prop :=
  match ls with
  | [] => True
  | l :: ls =>
      (exists buffer, disk (E + ebr l) = Some buffer /\ ebr_sector buffer (entry l) (next_ebr ls)) /\
      part_ok (entry l) /\ word 32 (ebr l) /\ 0 <= E + ebr l < 2 ^ 22 /\ (match ls with l' :: _ => ebr l' <> 0 | [] => True end) /\ chain disk E ls
  end.
Definition absolute (E : Z) (l : logical) : part :=
  mkPart (status (entry l)) (type (entry l)) (u32 (first (entry l) + (E + ebr l))) (sectors (entry l)).

Lemma seek_sector_small here sec : 0 <= sec < 2 ^ 22 -> seek_sector here sec = sec.
Proof.
  intros Hs. unfold seek_sector. rewrite u32_small, i32_small by lia. rewrite (proj2 (Z.ltb_ge _ _)) by lia. apply Z.div_mul. lia.
Qed.

Lemma boot_sector_signed buffer ps : boot_sector buffer ps -> signed buffer = true.
Proof. intros (_ & H1 & H2). unfold signed, get, TABLE_SIGNATURE. change (510 + 1)%nat with 511%nat. apply nth_lookup_Some with (d := 0) in H1, H2. now rewrite H1, H2. Qed.

(** The number of the next record, in the second entry. *)
Lemma next_field buffer p ls disk E : chain disk E ls -> ebr_sector buffer p (next_ebr ls) ->
  GET_LWORD_FROM_BYTE buffer (TABLE_ENTRY_1 + OFFSET_FIRST_SEC) = next_ebr ls.
Proof.
  intros Hc (_ & pre & post & -> & Hl). apply lword_at; [|exact Hl]. destruct ls as [|l ls]; [split; cbn; lia|]. now destruct Hc as (_ & _ & Hw & _).
Qed.

Lemma read_ebr_spec disk E device ls : forall fuel l buffer before here done blanks,
  chain disk E (l :: ls) -> ebr_sector buffer (entry l) (next_ebr ls) -> 0 <= E -> length done = length before -> Forall (fun q => released q = q) blanks ->
  (length before + length blanks = MAX_PARTITIONS)%nat -> (length ls < fuel)%nat -> (S (length ls) <= length blanks)%nat ->
  read_ebr fuel disk device buffer E (E + ebr l) here (length before) (done ++ blanks) (counts_of before) =
    ret (Z.of_nat (length before + S (length ls)),
         (done ++ expected device before (map (absolute E) (l :: ls))) ++ skipn (S (length ls)) blanks, counts_of (before ++ map (absolute E) (l :: ls))).
Proof.
  induction ls as [|l' ls IH]; intros [|fuel] l buffer before here done blanks (_ & Hp & Hw & Hr & Hnz & Hc) Hebr HE Hd Hb Hlen Hf Hl; cbn [length] in Hf, Hl; try lia;
    cbn [read_ebr]; pose proof Hebr as [Hbs _]; rewrite (boot_sector_signed _ _ Hbs); cbn [negb];
    destruct blanks as [|q blanks]; try (cbn in Hl; lia);
    pose proof (proj1 Hbs 0%nat _ eq_refl) as Hh; change (446 + 0 * 16)%nat with TABLE_ENTRY_0 in Hh;
    rewrite (store_entry_spec device buffer TABLE_ENTRY_0 before (entry l)) by (assumption || discriminate); cbn [lift bindM tail].
  - fold (absolute E l). cbn [expected map length skipn]. rewrite (next_field buffer _ [] disk E I Hebr). cbn [next_ebr]. rewrite Z.eqb_refl.
    rewrite Nat.add_1_r. now destruct (S (length before) =? MAX_PARTITIONS)%nat.
  - fold (absolute E l). rewrite (next_field buffer _ (l' :: ls) disk E Hc Hebr). cbn [next_ebr].
    apply Forall_cons in Hb as [_ Hb]. cbn [length] in Hlen, Hl. pose proof Hc as ((buffer' & Hdisk & Hebr') & _ & Hw' & Hr' & _ & _).
    destruct (Nat.eqb_spec (S (length before)) MAX_PARTITIONS); [lia|]. rewrite (proj2 (Z.eqb_neq (ebr l') 0)) by exact Hnz.
    rewrite u32_small by lia. rewrite seek_sector_small by lia. rewrite Hdisk.
    replace (S (length before)) with (length (before ++ [absolute E l])) by (rewrite length_app; cbn; lia).
    rewrite (IH fuel l' buffer' (before ++ [absolute E l]) _ (done ++ [expect device before (absolute E l)]) blanks Hc Hebr' HE).
    + cbn [expected map length skipn]. rewrite <- !app_assoc, length_app. cbn [length app].
      now replace (length before + 1 + S (length ls))%nat with (length before + S (S (length ls)))%nat by lia.
    + rewrite !length_app, Hd. reflexivity.
    + exact Hb.
    + rewrite length_app. cbn. lia.
    + lia.
    + lia.
Qed.

(** The logical partitions of a card: there is a chain when the last primary partition
    is an extended one, starting at its first sector. *)
Definition logicals (disk : Z -> option (list Z)) (p3 : part) (ls : list logical) : Prop :=
  if type p3 =? 5 then first p3 < 2 ^ 22 /\ (exists l rest, ls = l :: rest /\ ebr l = 0) /\ chain disk (first p3) ls else ls = [].

Lemma released_all parts : Forall (fun q => released q = q) (map released parts).
Proof. apply List.Forall_forall. intros q (r & <- & _)%in_map_iff. reflexivity. Qed.

Lemma find_blank key wanted blanks : Forall (fun q => released q = q) blanks -> List.find (named key wanted) blanks = None.
Proof. induction 1 as [|q blanks Hq _ IH]; [reflexivity|]. cbn [List.find]. unfold named at 1. rewrite <- Hq. cbn. exact IH. Qed.

Lemma find_app {A} (f : A -> bool) a b : List.find f (a ++ b) = match List.find f a with Some x => Some x | None => List.find f b end.
Proof. induction a as [|x a IH]; [reflexivity|]. cbn [app List.find]. destruct (f x); [reflexivity|exact IH]. Qed.

Lemma mmc_read_mbr_spec fuel device disk buffer parts p0 p1 p2 p3 ls :
  disk 0 = Some buffer -> boot_sector buffer [p0; p1; p2; p3] -> Forall part_ok [p0; p1; p2; p3] -> logicals disk p3 ls ->
  length parts = MAX_PARTITIONS -> Forall (fun q => released q = q) parts -> (4 + length ls <= MAX_PARTITIONS)%nat -> (length ls <= fuel)%nat ->
  let ps := [p0; p1; p2; p3] ++ map (absolute (first p3)) ls in
  mmc_read_mbr fuel device (Some disk) parts (mkCounts 0 0) =
    ret (Z.of_nat (length ps), expected device [] ps ++ skipn (length ps) parts, counts_of ps).
Proof.
  intros Hd Hbs Hok Hls Hl Hb Hmax Hf. cbv zeta. unfold mmc_read_mbr. rewrite Hd, (boot_sector_signed _ _ Hbs). cbn [negb].
  pose proof (read_primary_spec [p0; p1; p2; p3] device buffer [] 0 [] parts Hok (proj1 Hbs) eq_refl Hb) as Hr.
  cbn [length app] in Hr. rewrite Hl in Hr.
  change (counts_of []) with (mkCounts 0 0) in Hr. rewrite Hr by (unfold MAX_PARTITIONS; lia). cbn [lift bindM]. clear Hr.
  assert (Hp3 : part_ok p3) by (rewrite !Forall_cons in Hok; tauto).
  destruct (holds_fields buffer (TABLE_ENTRY_0 + 3 * TABLE_ENTRY_SIZE) p3 Hp3 (proj1 Hbs 3%nat p3 eq_refl)) as (_ & Ety & Efi & _).
  rewrite Ety, Efi. unfold logicals in Hls. destruct (type p3 =? 5); cbn [negb].
  2:{ subst ls. cbn [map]. rewrite app_nil_r. reflexivity. }
  destruct Hls as (HE & (l & rest & -> & Hl0) & Hc). pose proof Hc as ((buffer' & Hdisk & Hebr') & _). destruct Hp3 as [Hf3 _]. unfold word in Hf3. cbn [length] in Hmax, Hf.
  rewrite seek_sector_small by lia. rewrite Hl0, Z.add_0_r in Hdisk. rewrite Hdisk.
  pose proof (read_ebr_spec disk (first p3) device rest fuel l buffer' [p0; p1; p2; p3] (first p3 + 1) (expected device [] [p0; p1; p2; p3]) (skipn 4 parts) Hc Hebr') as He.
  rewrite Hl0, Z.add_0_r in He. cbn [length] in He. rewrite He; clear He.
  - rewrite length_app. cbn [length map]. rewrite length_map.
    rewrite expected_app, skipn_skipn. now replace (S (length rest) + 4)%nat with (4 + S (length rest))%nat by lia.
  - lia.
  - reflexivity.
  - now apply Prelude.Forall_skipn.
  - rewrite length_skipn, Hl. unfold MAX_PARTITIONS in *. lia.
  - lia.
  - rewrite length_skipn, Hl. unfold MAX_PARTITIONS in *. lia.
Qed.

Lemma scan_spec fuel disk buffer st p0 p1 p2 p3 ls wanted :
  state_ok st -> disk 0 = Some buffer -> boot_sector buffer [p0; p1; p2; p3] -> Forall part_ok [p0; p1; p2; p3] -> logicals disk p3 ls ->
  (4 + length ls <= MAX_PARTITIONS)%nat -> (length ls <= fuel)%nat -> hd 0 wanted <> SLASH ->
  let ps := [p0; p1; p2; p3] ++ map (absolute (first p3)) ls in
  exists st', mmc_scan_partitions fuel (Some disk) st = ret (Z.of_nat (length ps), st') /\ state_ok st' /\
    mmc_find_partition_by_name wanted st' = List.find (named name wanted) (expected MMC_DEVICENAME [] ps).
Proof.
  intros Hst Hd Hbs Hok Hls Hmax Hf Hw. cbv zeta. set (ps := [p0; p1; p2; p3] ++ _). unfold mmc_scan_partitions. set (parts := map released _).
  assert (Hl : length parts = MAX_PARTITIONS).
  { unfold parts, state_ok in *. rewrite length_map. destruct (partitions st); [exact Hst|apply repeat_length]. }
  pose proof (released_all (match partitions st with Some parts => parts | None => repeat (mkMmc None None None 0 0 0 0) MAX_PARTITIONS end)) as Hb.
  fold parts in Hb. rewrite (mmc_read_mbr_spec fuel MMC_DEVICENAME disk buffer parts p0 p1 p2 p3 ls Hd Hbs Hok Hls Hl Hb Hmax Hf). fold ps. cbn [bindM ret].
  eexists. split; [reflexivity|]. assert (Hlen : length ps = (4 + length ls)%nat) by (unfold ps; rewrite length_app, length_map; reflexivity).
  split; [unfold state_ok; cbn [partitions]; rewrite length_app, expected_length, length_skipn, Hl; lia|].
  pose proof (Prelude.Forall_skipn _ (length ps) _ Hb) as Hblank.
  unfold mmc_find_partition_by_name. cbn [partitions]. destruct wanted as [|c wanted]; [|cbn in Hw; rewrite (proj2 (Z.eqb_neq c SLASH)) by exact Hw];
    (rewrite find_app, (find_blank name _ _ Hblank); destruct (List.find _ _); reflexivity).
Qed.

(** C18: A card is read as it is partitioned: with a master boot record of four entries
    and, when the fourth has the type 5, a chain of extended boot records from its first
    sector on (boot code, cylinder addresses and everything of the link entries but the
    number of the next record are arbitrary), the scan returns the number of partitions,
    and looking up a name finds the first partition that has it, with its place and size
    (absolute, also for logical partitions), its device, and the names given out in order
    of the types; whatever was scanned before.  The limits: at most 64 partitions, extended
    boot records below the sector 2^22 (2 GiB, where the 32-bit offset of the code's fseek
    ends), sectors that can be read, and a name that is not a path. *)
Theorem mmc_scan_finds fuel disk buffer st p0 p1 p2 p3 ls wanted :
  state_ok st -> disk 0 = Some buffer -> boot_sector buffer [p0; p1; p2; p3] -> Forall part_ok [p0; p1; p2; p3] -> logicals disk p3 ls ->
  (4 + length ls <= MAX_PARTITIONS)%nat -> (length ls <= fuel)%nat -> hd 0 wanted <> SLASH ->
  let ps := [p0; p1; p2; p3] ++ map (absolute (first p3)) ls in
  exists st', mmc_scan_partitions fuel (Some disk) st = ret (Z.of_nat (length ps), st') /\ state_ok st' /\
    mmc_find_partition_by_name wanted st' = List.find (named name wanted) (expected MMC_DEVICENAME [] ps).
Proof. exact (scan_spec fuel disk buffer st p0 p1 p2 p3 ls wanted). Qed.

(** * An example *)

(** A boot record with some code and some cylinder addresses. *)
Definition sector (ps : list part) : list Z := repeat 51 446 ++ concat (map (encode [1; 2; 3] [254; 255; 255]) ps) ++ [85; 170].

Lemma sector_holds ps q rest : holds (sector (ps ++ q :: rest)) (446 + length ps * 16) q.
Proof.
  exists (repeat 51 446 ++ concat (map (encode [1; 2; 3] [254; 255; 255]) ps)), [1; 2; 3], [254; 255; 255], (concat (map (encode [1; 2; 3] [254; 255; 255]) rest) ++ [85; 170]).
  split; [|split; [|split; reflexivity]].
  - unfold sector. rewrite map_app, concat_app. cbn [map concat]. now rewrite <- !app_assoc.
  - rewrite length_app, repeat_length. f_equal. induction ps as [|p ps IH]; [reflexivity|]. cbn [map concat length]. rewrite length_app, IH. reflexivity.
Qed.

Lemma sector_ok a b c d : boot_sector (sector [a; b; c; d]) [a; b; c; d].
Proof.
  split; [|split; reflexivity]. intros [|[|[|[|i]]]] p Hp; cbn in Hp; try discriminate; injection Hp as <-;
    [apply (sector_holds [] a [b; c; d])|apply (sector_holds [a] b [c; d])|apply (sector_holds [a; b] c [d])|apply (sector_holds [a; b; c] d [])].
Qed.

Lemma sector_ebr a b c d : ebr_sector (sector [a; b; c; d]) a (first b).
Proof.
  split.
  - destruct (sector_ok a b c d) as (Hh & Hs). split; [|exact Hs]. intros [|i] p Hp; [|discriminate]. now apply Hh.
  - exists (repeat 51 446 ++ encode [1; 2; 3] [254; 255; 255] a ++ [status b; 1; 2; 3; type b; 254; 255; 255]),
      (le4 (sectors b) ++ encode [1; 2; 3] [254; 255; 255] c ++ encode [1; 2; 3] [254; 255; 255] d ++ [85; 170]).
    split; [reflexivity|]. now rewrite !length_app, repeat_length.
Qed.

(** A card with a boot partition, two of type 0x83, and an extended partition with two
    logical ones. *)
Definition empty_part : part := mkPart 0 0 0 0.
Definition card_parts : list part := [mkPart 128 72 1 9; mkPart 0 131 10 20; mkPart 0 131 30 20; mkPart 0 5 50 100].
Definition card_logicals : list logical := [mkLogical 0 (mkPart 0 131 1 30); mkLogical 40 (mkPart 0 12 1 50)].
Definition card (s : Z) : option (list Z) :=
  if s =? 0 then Some (sector card_parts)
  else if s =? 50 then Some (sector [mkPart 0 131 1 30; mkPart 0 5 40 60; empty_part; empty_part])
  else if s =? 90 then Some (sector [mkPart 0 12 1 50; empty_part; empty_part; empty_part])
  else None.

Lemma card_chain : logicals card (mkPart 0 5 50 100) card_logicals.
Proof.
  split; [cbn; lia|]. split; [do 2 eexists; split; reflexivity|]. cbn [chain card_logicals first].
  split; [eexists; split; [reflexivity|apply sector_ebr]|]. split; [split; split; cbn; lia|]. split; [split; cbn; lia|]. split; [cbn; lia|]. split; [discriminate|].
  split; [eexists; split; [reflexivity|apply sector_ebr]|]. split; [split; split; cbn; lia|]. split; [split; cbn; lia|]. split; [cbn; lia|]. now split.
Qed.

Lemma mmc_scan_finds_witness :
  exists st', mmc_scan_partitions 60 (Some card) g_mmc_state = ret (6, st') /\ state_ok st' /\
    mmc_find_partition_by_name (str "cache") st' =
      Some (mkMmc (Some (str "/dev/block/mmcblk0p5")) (Some (str "ext3")) (Some (str "cache")) 0 131 51 30).
Proof.
  apply (mmc_scan_finds 60 card (sector card_parts) g_mmc_state (mkPart 128 72 1 9) (mkPart 0 131 10 20) (mkPart 0 131 30 20) (mkPart 0 5 50 100) card_logicals (str "cache")).
  - exact I.
  - reflexivity.
  - apply sector_ok.
  - repeat constructor; cbn; lia.
  - exact card_chain.
  - cbn. unfold MAX_PARTITIONS. lia.
  - cbn. lia.
  - discriminate.
Defined.

(** A chain that leads back to its first record. *)
Definition looping (s : Z) : option (list Z) :=
  if s =? 0 then Some (sector [mkPart 0 131 1 9; mkPart 0 131 10 20; mkPart 0 131 30 20; mkPart 0 5 50 100])
  else Some (sector [mkPart 0 131 1 1; mkPart 0 5 40 0; empty_part; empty_part]).

Lemma mmc_scan_safe_witness : exists n st', mmc_scan_partitions 60 (Some looping) g_mmc_state = ret (n, st') /\ state_ok st' /\ -1 <= n <= 64.
Proof. apply (mmc_scan_safe (Some looping) g_mmc_state 60); [exact I|lia]. Defined.
