(* ===== verification/MmcCommands.v ===== *)
(** Copying, formatting and mounting of partitions of memory cards:
    src/mmcutils/mmcutils.c.

    Standard streams, the programs that are run and [mount] are the interface
    [CardSystem]; the build without [BOARD_USE_MTK_LAYOUT] is modelled.  A stream that is
    written and closed without an error holds what was written; the argument of [fsync]
    is a pointer instead of a descriptor, so that the call has no effect. *)
From Stdlib Require Import String.
From stdpp Require Import list.
From S2P Require Import Prelude CString MtdScan Mmc.

(** One stream for reading and one for writing are open at a time: opening, the size of
    the file, reading at most a number of bytes, closing; writing gives the number of
    bytes taken.  [run] is whether a program ends with exit code 0. *)
Class CardSystem (F : Type) := {
  card_disk : F -> option (Z -> option (list Z));
  open_in : list Z -> F -> bool * F;
  size_in : F -> Z;
  read_in : nat -> F -> list Z * F;
  close_in : F -> F;
  open_out : list Z -> F -> bool * F;
  write_out : list Z -> F -> nat * F;
  close_out : F -> F;
  run : list (list Z) -> F -> bool * F;
  mount : list Z -> list Z -> list Z -> Z -> F -> Z * F
}.

Section Commands.
Context {F : Type} `{CardSystem F} (fuel : nat).

(** * Formatting *)

Definition MKE2FS_BIN : list Z := str "/sbin/mke2fs".
Definition TUNE2FS_BIN : list Z := str "/sbin/tune2fs".
Definition E2FSCK_BIN : list Z := str "/sbin/e2fsck".

Definition run_exec_process (argv : list (list Z)) (f : F) : Z * F := let '(ok, f) := run argv f in (if ok then 0 else 1, f).

(** The programs in order, up to the first that fails. *)
Fixpoint run_all (cmds : list (list (list Z))) (f : F) : Z * F :=
  match cmds with
  | [] => (0, f)
  | argv :: cmds => let '(r, f) := run_exec_process argv f in if negb (r =? 0) then (-1, f) else run_all cmds f
  end.

Definition format_ext3_device (device : list Z) (f : F) : Z * F :=
  run_all [[MKE2FS_BIN; str "-j"; str "-q"; device]; [TUNE2FS_BIN; str "-C"; str "1"; device]; [E2FSCK_BIN; str "-fy"; device]] f.
Definition format_ext2_device (device : list Z) (f : F) : Z * F :=
  run_all [[MKE2FS_BIN; device]; [TUNE2FS_BIN; str "-C"; str "1"; device]; [E2FSCK_BIN; str "-fy"; device]] f.

(** The copy of the device name has room for 127 characters. *)
Definition device_of (p : MmcPartition) : outcome (list Z) :=
  match device_index p with Some d => if (length d <? 128)%nat then Ret d else Fault | None => Fault end.

Definition mmc_format_ext3 (p : MmcPartition) (f : F) : outcome (Z * F) := let! d := device_of p in Ret (format_ext3_device d f).

Definition MS_RDONLY : Z := 1.
Definition MS_NODEV : Z := 4.
Definition MS_NOATIME : Z := 1024.
Definition MS_NODIRATIME : Z := 2048.

Definition mmc_mount_partition (p : MmcPartition) (mount_point : list Z) (read_only : bool) (f : F) : outcome (Z * F) :=
  let mount_flags := Z.lor (Z.lor MS_NOATIME MS_NODEV) MS_NODIRATIME in
  let! devname := device_of p in
  match filesystem p with
  | None => Ret (-1, f)
  | Some fs =>
      let '(rv, f) := if read_only then (-1, f) else mount devname mount_point fs mount_flags f in
      Ret (if read_only || (rv <? 0) then mount devname mount_point fs (Z.lor mount_flags MS_RDONLY) f else (rv, f))
  end.

(** * Copying *)

(** Byte by byte up to the end of the stream; whether a byte was written is not
    looked at. *)
Fixpoint copy_bytes (fuel : nat) (f : F) : option F :=
  match fuel with
  | O => None
  | S fuel =>
      let '(ch, f) := read_in 1 f in
      match ch with [] => Some f | _ => let '(_, f) := write_out ch f in copy_bytes fuel f end
  end.

(** A number of sectors: whether each was read and written. *)
Fixpoint copy_sectors (n : nat) (f : F) : bool * F :=
  match n with
  | O => (true, f)
  | S n =>
      let '(buf, f) := read_in 512 f in
      if negb (length buf =? 512)%nat then (false, f)
      else let '(k, f) := write_out buf f in if negb (k =? 512)%nat then (false, f) else copy_sectors n f
  end.

Definition copy_stream (sz : Z) (f : F) : option (bool * F) :=
  if negb (sz mod 512 =? 0) then match copy_bytes fuel f with Some f => Some (true, f) | None => None end
  else Some (copy_sectors (Z.to_nat (sz / 512)) f).

(** From a file to a file; a size of 0 stands for the size of the file. *)
Definition mmc_raw_dump_internal (in_file out_file : list Z) (sz : Z) (f : F) : option (Z * F) :=
  let '(ok, f) := open_in in_file f in
  if negb ok then Some (-1, f)
  else
    let '(ok, f) := open_out out_file f in
    if negb ok then Some (-1, close_in f)
    else
      let sz := if sz =? 0 then u32 (size_in f) else sz in
      match copy_stream sz f with
      | None => None
      | Some (ok, f) => Some (if ok then 0 else -1, close_in (close_out f))
      end.

Definition mmc_raw_dump (p : MmcPartition) (out_file : list Z) (f : F) : M (Z * F) :=
  match device_index p with
  | None => Some Fault
  | Some d => match mmc_raw_dump_internal d out_file 0 f with Some r => ret r | None => None end
  end.

(** The same from a file to a partition. *)
Definition mmc_raw_copy (p : MmcPartition) (in_file : list Z) (f : F) : M (Z * F) :=
  let '(ok, f) := open_in in_file f in
  if negb ok then ret (-1, f)
  else
    match device_index p with
    | None => Some Fault
    | Some d =>
        let '(ok, f) := open_out d f in
        if negb ok then ret (-1, close_in f)
        else match copy_stream (u32 (size_in f)) f with
             | None => None
             | Some (ok, f) => ret (if ok then 0 else -1, close_in (close_out f))
             end
    end.

(** The result does not depend on what was read or written. *)
Definition mmc_raw_read (p : MmcPartition) (data_size : nat) (f : F) : outcome (Z * list Z * F) :=
  match device_index p with
  | None => Fault
  | Some d => let '(ok, f) := open_in d f in
              if negb ok then Ret (-1, [], f) else let '(data, f) := read_in data_size f in Ret (0, data, close_in f)
  end.
Definition mmc_raw_write (p : MmcPartition) (data : list Z) (f : F) : outcome (Z * F) :=
  match device_index p with
  | None => Fault
  | Some d => let '(ok, f) := open_out d f in
              if negb ok then Ret (-1, f) else let '(_, f) := write_out data f in Ret (0, close_out f)
  end.

(** * Commands *)

Definition is_path (partition : list Z) : bool := match partition with c :: _ => c =? SLASH | [] => false end.

(** The partition of a name, after a scan. *)
Definition lookup_partition (partition : list Z) (st : MmcState) (f : F) : M (option MmcPartition * MmcState) :=
  do! r := mmc_scan_partitions fuel (card_disk f) st in
  let '(_, st) := r in ret (mmc_find_partition_by_name partition st, st).

Definition from_option {A} (m : option A) : M A := match m with Some x => ret x | None => None end.

Definition cmd_mmc_restore_raw_partition (partition filename : list Z) (st : MmcState) (f : F) : M (Z * MmcState * F) :=
  if negb (is_path partition) then
    do! r := lookup_partition partition st f in
    let '(p, st) := r in
    match p with
    | None => ret (-1, st, f)
    | Some p => do! r := mmc_raw_copy p filename f in let '(v, f) := r in ret (v, st, f)
    end
  else do! r := from_option (mmc_raw_dump_internal filename partition 0 f) in let '(v, f) := r in ret (v, st, f).

Definition cmd_mmc_backup_raw_partition (partition filename : list Z) (st : MmcState) (f : F) : M (Z * MmcState * F) :=
  if negb (is_path partition) then
    do! r := lookup_partition partition st f in
    let '(p, st) := r in
    match p with
    | None => ret (-1, st, f)
    | Some p => do! r := mmc_raw_dump p filename f in let '(v, f) := r in ret (v, st, f)
    end
  else do! r := from_option (mmc_raw_dump_internal partition filename 0 f) in let '(v, f) := r in ret (v, st, f).

Definition cmd_mmc_erase_raw_partition (partition : list Z) : Z := 0.

Definition cmd_mmc_erase_partition (partition filesystem : list Z) (st : MmcState) (f : F) : M (Z * MmcState * F) :=
  do! r := lookup_partition partition st f in
  let '(p, st) := r in
  match p with
  | None => ret (-1, st, f)
  | Some p => do! r := lift (mmc_format_ext3 p f) in let '(v, f) := r in ret (v, st, f)
  end.

Definition cmd_mmc_mount_partition (partition mount_point filesystem : list Z) (read_only : bool) (st : MmcState) (f : F) : M (Z * MmcState * F) :=
  do! r := lookup_partition partition st f in
  let '(p, st) := r in
  match p with
  | None => ret (-1, st, f)
  | Some p => do! r := lift (mmc_mount_partition p mount_point read_only f) in let '(v, f) := r in ret (v, st, f)
  end.

(** The result and the string stored. *)
Definition cmd_mmc_get_partition_device (partition : list Z) (st : MmcState) (f : F) : M (Z * option (list Z) * MmcState) :=
  do! r := lookup_partition partition st f in
  let '(p, st) := r in
  match p with
  | None => ret (-1, None, st)
  | Some p => match device_index p with Some d => ret (0, Some d, st) | None => Some Fault end
  end.
End Commands.
