(* ===== verification/MmcRoundTrip.v ===== *)
(** Restoring and backing up partitions of memory cards (src/mmcutils/mmcutils.c): what
    is restored to a partition is what a backup gives back. *)
From Stdlib Require Import String.
From stdpp Require Import list.
From S2P Require Import Prelude CString MtdScan Mmc MmcTable MmcCommands.

(** What the files promise.  [room f n] is how many bytes [n] has room for: the size of a
    device, what the file system has left for an ordinary file.  [reading f s d] says that
    the file [s] is read and [d] is left of it; [copying f d n o k r] says that [d] is left
    to be read and that [o] has been written to [n], which held [k] when it was opened
    (nothing for an ordinary file, all of its contents for a device) and has room for [r]
    bytes; a write succeeds as long as the room lasts.  The boot records of the card are
    not written. *)
Class CardLaws (F : Type) `{CardSystem F} := {
  contents : F -> list Z -> option (list Z);
  kept : F -> list Z -> list Z;
  room : F -> list Z -> nat;
  can_write : F -> list Z -> Prop;
  reading : F -> list Z -> list Z -> Prop;
  copying : F -> list Z -> list Z -> list Z -> list Z -> nat -> Prop;
  open_in_ok f s d : contents f s = Some d ->
    exists f', open_in s f = (true, f') /\ reading f' s d /\ size_in f' = Z.of_nat (length d) /\ card_disk f' = card_disk f /\
      (forall m, kept f' m = kept f m) /\ (forall m, room f' m = room f m) /\ (forall m, can_write f m -> can_write f' m);
  open_out_ok f s d n : reading f s d -> n <> s -> can_write f n ->
    exists f', open_out n f = (true, f') /\ copying f' d n [] (kept f n) (room f n) /\ size_in f' = size_in f /\ card_disk f' = card_disk f;
  read_in_ok f d n o k r j : copying f d n o k r -> exists f', read_in j f = (firstn j d, f') /\ copying f' (skipn j d) n o k r /\ card_disk f' = card_disk f;
  write_out_ok f d n o k r bs : copying f d n o k r -> (length (o ++ bs) <= r)%nat ->
    exists f', write_out bs f = (length bs, f') /\ copying f' d n (o ++ bs) k r /\ card_disk f' = card_disk f;
  close_ok f n o k r : copying f [] n o k r -> let f' := close_in (close_out f) in
    contents f' n = Some (o ++ skipn (length o) k) /\ card_disk f' = card_disk f
}.

Section Copy.
Context {F : Type} `{CardLaws F}.

Lemma copy_bytes_spec fuel : forall f d n o k r, copying f d n o k r -> (length d < fuel)%nat -> (length (o ++ d) <= r)%nat ->
  exists f', copy_bytes fuel f = Some f' /\ copying f' [] n (o ++ d) k r /\ card_disk f' = card_disk f.
Proof.
  induction fuel as [|fuel IH]; intros f d n o k r Hc Hf Hr; [lia|]. cbn [copy_bytes].
  destruct (read_in_ok f d n o k r 1 Hc) as (f1 & -> & Hc1 & Hd1). destruct d as [|b d].
  { exists f1. now rewrite app_nil_r. }
  change (firstn 1 (b :: d)) with [b]. change (skipn 1 (b :: d)) with d in Hc1. cbv iota.
  rewrite length_app in Hr. cbn [length] in Hf, Hr.
  destruct (write_out_ok f1 d n o k r [b] Hc1) as (f2 & -> & Hc2 & Hd2); [rewrite length_app; cbn; lia|].
  destruct (IH f2 d n (o ++ [b]) k r Hc2) as (f3 & -> & Hc3 & Hd3); [lia|rewrite !length_app; cbn; lia|].
  exists f3. rewrite <- app_assoc in Hc3. split; [reflexivity|]. split; [exact Hc3|congruence].
Qed.

Lemma copy_sectors_spec c : forall f d n o k r, copying f d n o k r -> length d = (512 * c)%nat -> (length (o ++ d) <= r)%nat ->
  exists f', copy_sectors c f = (true, f') /\ copying f' [] n (o ++ d) k r /\ card_disk f' = card_disk f.
Proof.
  induction c as [|c IH]; intros f d n o k r Hc Hl Hr; cbn [copy_sectors].
  { destruct d; [|rewrite Nat.mul_0_r in Hl; discriminate]. exists f. now rewrite app_nil_r. }
  destruct (read_in_ok f d n o k r 512 Hc) as (f1 & -> & Hc1 & Hd1).
  assert (Hlen : length (firstn 512 d) = 512%nat) by (rewrite length_firstn; lia). rewrite Hlen, Nat.eqb_refl. cbn [negb]. rewrite length_app in Hr.
  destruct (write_out_ok f1 _ n o k r (firstn 512 d) Hc1) as (f2 & -> & Hc2 & Hd2); [rewrite length_app; lia|]. rewrite Hlen, Nat.eqb_refl. cbn [negb].
  destruct (IH f2 (skipn 512 d) n _ k r Hc2) as (f3 & -> & Hc3 & Hd3); [rewrite length_skipn; lia|rewrite <- app_assoc, firstn_skipn, length_app; lia|].
  exists f3. rewrite <- app_assoc, firstn_skipn in Hc3. split; [reflexivity|]. split; [exact Hc3|congruence].
Qed.

(** Both ways of copying give the whole file. *)
Lemma copy_stream_spec fuel f d n k r : copying f d n [] k r -> (length d < fuel)%nat -> (length d <= r)%nat ->
  exists f', copy_stream fuel (Z.of_nat (length d)) f = Some (true, f') /\ copying f' [] n d k r /\ card_disk f' = card_disk f.
Proof.
  intros Hc Hf Hr. unfold copy_stream. destruct (Z.eqb_spec (Z.of_nat (length d) mod 512) 0) as [Hz|Hnz]; cbn [negb].
  - pose proof (Z.div_mod (Z.of_nat (length d)) 512 ltac:(lia)).
    destruct (copy_sectors_spec (Z.to_nat (Z.of_nat (length d) / 512)) f d n [] k r Hc) as (f1 & -> & Hc1 & Hd1); [lia|exact Hr|eauto].
  - destruct (copy_bytes_spec fuel f d n [] k r Hc Hf Hr) as (f1 & -> & Hc1 & Hd1). eauto.
Qed.

(** A file that can be copied to another one. *)
Record copyable (fuel : nat) (f : F) (src d dst : list Z) : Prop := {
  cp_source : contents f src = Some d;
  cp_other : dst <> src;
  cp_target : can_write f dst;
  cp_room : (length d <= room f dst)%nat;
  cp_size : Z.of_nat (length d) < 2 ^ 32;
  cp_fuel : (length d < fuel)%nat
}.

Lemma raw_copy_spec fuel f src d dst p : copyable fuel f src d dst -> device_index p = Some dst ->
  exists f', mmc_raw_copy fuel p src f = ret (0, f') /\ contents f' dst = Some (d ++ skipn (length d) (kept f dst)) /\ card_disk f' = card_disk f.
Proof.
  intros [Hc Ho Hw Hr Hlen Hf] Hp. unfold mmc_raw_copy. destruct (open_in_ok f src d Hc) as (f1 & -> & Hr1 & Hs1 & Hd1 & Hk1 & Hm1 & Hw1). cbn [negb]. rewrite Hp.
  destruct (open_out_ok f1 src d dst Hr1 Ho (Hw1 _ Hw)) as (f2 & -> & Hc2 & Hs2 & Hd2). cbn [negb]. rewrite Hs2, Hs1, u32_small by lia.
  destruct (copy_stream_spec fuel f2 d dst _ _ Hc2 Hf ltac:(now rewrite Hm1)) as (f3 & -> & Hc3 & Hd3). destruct (close_ok f3 dst d _ _ Hc3) as [E4 Hd4]. rewrite Hk1 in E4.
  eexists. split; [reflexivity|]. split; [exact E4|congruence].
Qed.

Lemma raw_dump_spec fuel f src d dst : copyable fuel f src d dst ->
  exists f', mmc_raw_dump_internal fuel src dst 0 f = Some (0, f') /\ contents f' dst = Some (d ++ skipn (length d) (kept f dst)) /\ card_disk f' = card_disk f.
Proof.
  intros [Hc Ho Hw Hr Hlen Hf]. unfold mmc_raw_dump_internal. destruct (open_in_ok f src d Hc) as (f1 & -> & Hr1 & Hs1 & Hd1 & Hk1 & Hm1 & Hw1). cbn [negb].
  destruct (open_out_ok f1 src d dst Hr1 Ho (Hw1 _ Hw)) as (f2 & -> & Hc2 & Hs2 & Hd2). cbn [negb]. change (0 =? 0) with true. cbv iota. rewrite Hs2, Hs1, u32_small by lia.
  destruct (copy_stream_spec fuel f2 d dst _ _ Hc2 Hf ltac:(now rewrite Hm1)) as (f3 & -> & Hc3 & Hd3). destruct (close_ok f3 dst d _ _ Hc3) as [E4 Hd4]. rewrite Hk1 in E4.
  eexists. split; [reflexivity|]. split; [exact E4|congruence].
Qed.

(** The card is partitioned properly and one of its partitions has the name. *)
Record has_partition (disk : Z -> option (list Z)) (wanted : list Z) (p : MmcPartition) (fuel : nat) : Prop := {
  hp_parts : exists buffer p0 p1 p2 p3 ls, disk 0 = Some buffer /\ boot_sector buffer [p0; p1; p2; p3] /\ Forall part_ok [p0; p1; p2; p3] /\ logicals disk p3 ls /\
    (4 + length ls <= MAX_PARTITIONS)%nat /\ (length ls <= fuel)%nat /\
    List.find (named name wanted) (expected MMC_DEVICENAME [] ([p0; p1; p2; p3] ++ map (absolute (first p3)) ls)) = Some p;
  hp_name : hd 0 wanted <> SLASH
}.

Lemma lookup_spec fuel f disk wanted p st : has_partition disk wanted p fuel -> card_disk f = Some disk -> state_ok st ->
  exists st', lookup_partition fuel wanted st f = ret (Some p, st') /\ state_ok st'.
Proof.
  intros [(buffer & p0 & p1 & p2 & p3 & ls & Hd & Hbs & Hok & Hls & Hmax & Hf & Hfind) Hn] Hc Hst. unfold lookup_partition. rewrite Hc.
  destruct (scan_spec fuel disk buffer st p0 p1 p2 p3 ls wanted Hst Hd Hbs Hok Hls Hmax Hf Hn) as (st' & -> & Hst' & E). cbn [bindM ret]. rewrite E, Hfind. eauto.
Qed.

(** Restoring a file to a partition of a card by its name and backing it up gives the
    file back: both commands find the device of the partition in the boot records and
    return 0, the device starts with the file afterwards, and the backup is the whole
    device; files whose size is a multiple of 512 are copied by sectors, others byte by
    byte.  The file has to fit the partition, and the backup the file system. *)
Theorem card_restore_backup fuel f disk wanted p dev st file d out :
  has_partition disk wanted p fuel -> device_index p = Some dev -> card_disk f = Some disk -> state_ok st -> copyable fuel f file d dev ->
  let held := d ++ skipn (length d) (kept f dev) in
  exists st1 f1, cmd_mmc_restore_raw_partition fuel wanted file st f = ret (0, st1, f1) /\ contents f1 dev = Some held /\
    (copyable fuel f1 dev held out -> kept f1 out = [] ->
     exists st2 f2, cmd_mmc_backup_raw_partition fuel wanted out st1 f1 = ret (0, st2, f2) /\ contents f2 out = Some held).
Proof.
  intros Hp Hdev Hc Hst Hcopy held. assert (Hnp : is_path wanted = false).
  { destruct Hp as [_ Hn]. unfold is_path. destruct wanted as [|c w]; [reflexivity|]. now apply Z.eqb_neq. }
  unfold cmd_mmc_restore_raw_partition, cmd_mmc_backup_raw_partition. rewrite Hnp. cbn [negb].
  destruct (lookup_spec fuel f disk wanted p st Hp Hc Hst) as (st1 & -> & Hst1). cbn [bindM ret].
  destruct (raw_copy_spec fuel f file d dev p Hcopy Hdev) as (f1 & -> & E1 & Hd1). cbn [bindM ret].
  exists st1, f1. split; [reflexivity|]. split; [exact E1|]. intros Hback Hk1.
  destruct (lookup_spec fuel f1 disk wanted p st1 Hp ltac:(congruence) Hst1) as (st2 & -> & Hst2). cbn [bindM ret].
  unfold mmc_raw_dump. rewrite Hdev. destruct (raw_dump_spec fuel f1 dev held out Hback) as (f2 & -> & E2 & _). cbn [bindM ret].
  exists st2, f2. split; [reflexivity|]. now rewrite Hk1, skipn_nil, app_nil_r in E2.
Qed.
End Copy.

(** * An example *)

(** Files as an association list; names that start with [/dev] are devices, which keep
    what is not overwritten and their size; a file has room for a million bytes. *)
Record card_files := mkCard { c_files : list (list Z * list Z); c_rest : list Z; c_size : Z; c_name : list Z; c_out : list Z; c_kept : list Z; c_room : nat }.
Definition file_in (f : card_files) (n : list Z) : option (list Z) :=
  match List.find (fun '(m, _) => bool_decide (m = n)) (c_files f) with Some (_, d) => Some d | None => None end.
Definition is_device (n : list Z) : bool := bool_decide (firstn 4 n = str "/dev").
Definition keeps (f : card_files) (n : list Z) : list Z := if is_device n then match file_in f n with Some d => d | None => [] end else [].

Definition room_in (f : card_files) (n : list Z) : nat := if is_device n then length (keeps f n) else Z.to_nat 1000000.

#[local] Instance card_system : CardSystem card_files := {
  card_disk _ := Some card;
  open_in n f := match file_in f n with
                 | Some d => (true, mkCard (c_files f) d (Z.of_nat (length d)) (c_name f) (c_out f) (c_kept f) (c_room f))
                 | None => (false, f)
                 end;
  size_in f := c_size f;
  read_in k f := (firstn k (c_rest f), mkCard (c_files f) (skipn k (c_rest f)) (c_size f) (c_name f) (c_out f) (c_kept f) (c_room f));
  close_in f := f;
  open_out n f := (true, mkCard (c_files f) (c_rest f) (c_size f) n [] (keeps f n) (room_in f n));
  write_out bs f :=
    let bs := firstn (c_room f - length (c_out f)) bs in
    (length bs, mkCard (c_files f) (c_rest f) (c_size f) (c_name f) (c_out f ++ bs) (c_kept f) (c_room f));
  close_out f := mkCard ((c_name f, c_out f ++ skipn (length (c_out f)) (c_kept f)) :: c_files f) (c_rest f) (c_size f) (c_name f) (c_out f) (c_kept f) (c_room f);
  run _ f := (true, f);
  mount _ _ _ _ f := (0, f)
}.

#[local] Instance card_laws : CardLaws card_files.
Proof.
  refine {| contents := file_in; kept := keeps; room := room_in; can_write _ _ := True; reading f _ d := c_rest f = d;
            copying f d n o k r := c_rest f = d /\ c_name f = n /\ c_out f = o /\ c_kept f = k /\ c_room f = r |}.
  - intros f n d Hd. cbn [open_in card_system]. rewrite Hd. eexists. repeat split; auto.
  - intros f s d n <- _ _. eexists. repeat split; reflexivity.
  - intros f d n o k r j (<- & <- & <- & <- & <-). eexists. repeat split; reflexivity.
  - intros f d n o k r bs (<- & <- & <- & <- & <-) Hr. rewrite length_app in Hr. cbn [write_out card_system]. rewrite (firstn_all2 bs) by lia. eexists. repeat split; reflexivity.
  - intros f n o k r (_ & <- & <- & <- & _). split; [|reflexivity]. unfold file_in. cbn. now rewrite bool_decide_true.
Defined.

(** The third partition of type 0x83 of the example card, with ten bytes on it. *)
Definition cache_device : list Z := str "/dev/block/mmcblk0p5".
Definition cache_part : MmcPartition := mkMmc (Some cache_device) (Some (str "ext3")) (Some (str "cache")) 0 131 51 30.
Definition card_state : card_files := mkCard [(cache_device, repeat 1 10); (str "image", [7; 8; 9])] [] 0 [] [] [] 0.

Lemma cache_listed : has_partition card (str "cache") cache_part 60.
Proof.
  split; [|discriminate]. exists (sector card_parts), (mkPart 128 72 1 9), (mkPart 0 131 10 20), (mkPart 0 131 30 20), (mkPart 0 5 50 100), card_logicals.
  split; [reflexivity|]. split; [apply sector_ok|]. split; [repeat constructor; cbn; lia|]. split; [exact card_chain|].
  split; [cbn; unfold MAX_PARTITIONS; lia|]. split; [cbn; lia|]. vm_compute. reflexivity.
Qed.

Lemma image_copyable : copyable 60 card_state (str "image") [7; 8; 9] cache_device.
Proof. split; [reflexivity|discriminate|exact I|vm_compute; lia|cbn; lia|cbn; lia]. Qed.

Lemma card_restore_backup_witness :
  exists st1 f1, cmd_mmc_restore_raw_partition 60 (str "cache") (str "image") g_mmc_state card_state = ret (0, st1, f1) /\
    contents f1 cache_device = Some [7; 8; 9; 1; 1; 1; 1; 1; 1; 1] /\
    (copyable 60 f1 cache_device [7; 8; 9; 1; 1; 1; 1; 1; 1; 1] (str "backup") -> kept f1 (str "backup") = [] ->
     exists st2 f2, cmd_mmc_backup_raw_partition 60 (str "cache") (str "backup") st1 f1 = ret (0, st2, f2) /\
       contents f2 (str "backup") = Some [7; 8; 9; 1; 1; 1; 1; 1; 1; 1]).
Proof.
  replace [7; 8; 9; 1; 1; 1; 1; 1; 1; 1] with ([7; 8; 9] ++ skipn (length [7; 8; 9]) (kept card_state cache_device)) by (vm_compute; reflexivity).
  apply (card_restore_backup 60 card_state card (str "cache") cache_part cache_device g_mmc_state (str "image") [7; 8; 9] (str "backup"));
    [exact cache_listed|reflexivity|reflexivity|exact I|exact image_copyable].
Defined.
