(* ===== verification/Bmlutils.v ===== *)
(** Partitions of Samsung's block management layer: src/bmlutils/bmlutils.c.

    Backups are copied in the way of the memory cards; a partition is restored in blocks
    of 4096 bytes to one or two devices. *)
From Stdlib Require Import String.
From stdpp Require Import list.
From S2P Require Import Prelude CString MtdScan Mmc MmcCommands.

(** The calls on the two descriptors of a restore: opening the source ([None] is the
    standard input), reading (-1 is an error), opening and unlocking the device, writing,
    closing both; and whether a command of the shell succeeds. *)
Class BmlSystem (F : Type) := {
  bml_card :: CardSystem F;
  open_src : option (list Z) -> F -> bool * F;
  read_src : nat -> F -> Z * list Z * F;
  open_dst : list Z -> F -> bool * F;
  unlock_all : F -> Z * F;
  write_dst : list Z -> F -> Z * F;
  close_both : F -> F;
  system : list Z -> F -> Z * F
}.

Section Bml.
Context {F : Type} `{BmlSystem F} (fuel : nat).

Definition BOARD_BML_BOOT : list Z := str "/dev/block/bml7".
Definition BOARD_BML_RECOVERY : list Z := str "/dev/block/bml8".

(** The loop over the blocks.  When a read fails, the memory before the buffer is
    cleared, which is a [Fault]. *)
Fixpoint restore_blocks (n : nat) (f : F) : M (Z * F) :=
  match n with
  | O => None
  | S n =>
      let '(bytes_read, bs, f) := read_src 4096 f in
      if bytes_read =? 0 then ret (0, close_both f)
      else if bytes_read <? 0 then Some Fault
      else
        let buf := firstn (Z.to_nat bytes_read) bs ++ repeat 0 (4096 - Z.to_nat bytes_read) in
        let '(written, f) := write_dst buf f in
        if written <? 4096 then ret (5, f)
        else if bytes_read =? 4096 then restore_blocks n f else ret (0, close_both f)
  end.

Definition restore_internal (bml : list Z) (filename : option (list Z)) (f : F) : M (Z * F) :=
  let '(ok, f) := open_src filename f in
  if negb ok then ret (2, f)
  else
    let '(ok, f) := open_dst bml f in
    if negb ok then ret (3, f)
    else
      let '(r, f) := unlock_all f in
      if negb (r =? 0) then ret (4, f) else restore_blocks fuel f.

Definition equal (s t : list Z) : bool := strcmp_chars s t =? 0.

Definition cmd_bml_restore_raw_partition (partition : list Z) (filename : option (list Z)) (f : F) : M (Z * F) :=
  if negb (equal partition (str "boot")) && negb (equal partition (str "recovery")) && negb (equal partition (str "recoveryonly")) && negb (is_path partition)
  then ret (6, f)
  else
    do! r := (if negb (equal partition (str "recoveryonly")) then restore_internal BOARD_BML_BOOT filename f else ret (-1, f)) in
    let '(v, f) := r in
    if negb (equal partition (str "recoveryonly")) && negb (v =? 0) then ret (v, f)
    else
      do! r := (if equal partition (str "recovery") || equal partition (str "recoveryonly")
                then restore_internal BOARD_BML_RECOVERY filename f else ret (v, f)) in
      let '(v, f) := r in
      if is_path partition then restore_internal partition filename f else ret (v, f).

Definition cmd_bml_backup_raw_partition (partition out_file : list Z) (f : F) : M (Z * F) :=
  let dump bml := from_option (mmc_raw_dump_internal fuel bml out_file 0 f) in
  if equal (str "boot") partition then dump BOARD_BML_BOOT
  else if equal (str "recovery") partition then dump BOARD_BML_RECOVERY
  else if is_path partition then dump partition
  else ret (-1, f).

Definition cmd_bml_erase_raw_partition (partition : list Z) : Z := 0.
Definition cmd_bml_erase_partition (partition filesystem : list Z) : Z := -1.
Definition cmd_bml_mount_partition (partition mount_point filesystem : list Z) (read_only : bool) : Z := -1.
Definition cmd_bml_get_partition_device (partition : list Z) : Z := -1.

(** The two commands, each in a buffer of 4096 bytes. *)
Definition command (parts : list (list Z)) : outcome (list Z) :=
  let c := concat parts in if (length c <? 4096)%nat then Ret c else Fault.

Definition format_rfs_device (device path : list Z) (f : F) : outcome (Z * F) :=
  let fatsize := if equal path (str "/datadata") || equal path (str "/cache") then str "16" else str "32" in
  let sectorsize := str "1" in
  let! cmd := command [str "/sbin/dd if=/dev/zero of="; device; str " bs=4096 count=10"] in
  let '(r, f) := system cmd f in
  if negb (r =? 0) then Ret (-1, f)
  else
    let! cmd := command [str "/sbin/fat.format -F "; fatsize; str " -S 4096 -s "; sectorsize; str " "; device] in
    let '(r, f) := system cmd f in
    if negb (r =? 0) then Ret (-1, f) else Ret (0, f).
End Bml.

(** * What is restored *)

(** [source f name] is the content of a file, [on_device f n] that of a device, whose
    size is fixed: a write that does not fit is not said to succeed.
    [restoring f d n pos] says that [d] is left to be read of the file and that [pos]
    bytes have been written to the device [n].  A read gives all that it asks for up to
    the end of the file, which holds for files and not for the standard input, of which
    nothing is said; a name other than that of the device written is unaffected. *)
Definition agree_but {F : Type} (source : F -> list Z -> option (list Z)) (on_device : F -> list Z -> list Z) (usable : F -> list Z -> Prop)
    (n : list Z) (f f' : F) : Prop :=
  (forall m, m <> n -> on_device f' m = on_device f m) /\ (forall s, s <> n -> source f' s = source f s) /\ (forall m, usable f m -> usable f' m).

Class BmlLaws (F : Type) `{BmlSystem F} := {
  source : F -> list Z -> option (list Z);
  on_device : F -> list Z -> list Z;
  usable : F -> list Z -> Prop;
  restoring : F -> list Z -> list Z -> nat -> Prop;
  start_ok f file n d : source f file = Some d -> file <> n -> usable f n ->
    exists f1 f2 f3, open_src (Some file) f = (true, f1) /\ open_dst n f1 = (true, f2) /\ unlock_all f2 = (0, f3) /\ restoring f3 d n 0 /\
      on_device f3 n = on_device f n /\ agree_but source on_device usable n f f3;
  read_src_ok f d n pos k : restoring f d n pos ->
    exists f', read_src k f = (Z.of_nat (min k (length d)), firstn k d, f') /\ restoring f' (skipn k d) n pos /\
      on_device f' n = on_device f n /\ agree_but source on_device usable n f f';
  write_dst_ok f d n pos bs : restoring f d n pos -> (pos + length bs <= length (on_device f n))%nat ->
    exists f', write_dst bs f = (Z.of_nat (length bs), f') /\ restoring f' d n (pos + length bs) /\
      on_device f' n = firstn pos (on_device f n) ++ bs ++ skipn (pos + length bs) (on_device f n) /\ agree_but source on_device usable n f f';
  finish_ok f d n pos : restoring f d n pos ->
    on_device (close_both f) n = on_device f n /\ agree_but source on_device usable n f (close_both f)
}.

Section Restore.
Context {F : Type} `{BmlLaws F}.

(** Nothing but the device [n] changes between two states of a restore. *)
Definition only (n : list Z) (f f' : F) : Prop := agree_but source on_device usable n f f'.

Lemma only_trans n f g h : only n f g -> only n g h -> only n f h.
Proof. intros (A & B & C) (A' & B' & C'). repeat split; intros; auto; [now rewrite A', A|now rewrite B', B]. Qed.

(** A device that starts with [o], and is as it was behind that. *)
Definition starts_with (o old : list Z) : list Z := o ++ skipn (length o) old.

Lemma starts_with_app o bs old : (length o + length bs <= length old)%nat ->
  firstn (length o) (starts_with o old) ++ bs ++ skipn (length o + length bs) (starts_with o old) = starts_with (o ++ bs) old.
Proof.
  intros _. unfold starts_with. rewrite firstn_app, Nat.sub_diag, firstn_all, firstn_O, app_nil_r, <- app_assoc. f_equal. f_equal.
  rewrite skipn_app, skipn_all2 by lia. cbn [app]. rewrite length_app, skipn_skipn. f_equal. lia.
Qed.

Lemma starts_with_length o old : (length o <= length old)%nat -> length (starts_with o old) = length old.
Proof. intros Hl. unfold starts_with. rewrite length_app, length_skipn. lia. Qed.

Lemma starts_with_twice o old : starts_with o (starts_with o old) = starts_with o old.
Proof. unfold starts_with at 1 2. rewrite skipn_app, skipn_all, Nat.sub_diag. reflexivity. Qed.

(** The source with zeros to the next multiple of 4096. *)
Definition padded (d : list Z) : list Z := d ++ repeat 0 (Z.to_nat ((- Z.of_nat (length d)) mod 4096)).

Lemma padded_step d : (4096 <= length d)%nat -> padded d = firstn 4096 d ++ padded (skipn 4096 d).
Proof.
  intros Hl. unfold padded. rewrite app_assoc, firstn_skipn, length_skipn. do 3 f_equal.
  rewrite Nat2Z.inj_sub by lia. rewrite <- (Z_mod_plus_full (- Z.of_nat (length d)) 1 4096). f_equal. lia.
Qed.

Lemma padded_short d : (0 < length d < 4096)%nat -> padded d = d ++ repeat 0 (4096 - length d).
Proof.
  intros Hl. unfold padded. do 2 f_equal. rewrite <- (Z_mod_plus_full (- Z.of_nat (length d)) 1 4096), Z.mod_small by lia. lia.
Qed.

Lemma padded_length d : (length d <= length (padded d))%nat.
Proof. unfold padded. rewrite length_app. lia. Qed.

Lemma restore_blocks_spec k : forall f d n o old, restoring f d n (length o) -> on_device f n = starts_with o old -> (length d < k)%nat ->
  (length (o ++ padded d) <= length old)%nat ->
  exists f' g pos, restore_blocks k f = ret (0, close_both f') /\ restoring f' g n pos /\ on_device f' n = starts_with (o ++ padded d) old /\ only n f f'.
Proof.
  induction k as [|k IH]; intros f d n o old Hr Ho Hk Hroom; [lia|]. cbn [restore_blocks].
  destruct (read_src_ok f d n _ 4096 Hr) as (f1 & -> & Hr1 & O1 & S1). destruct d as [|b d].
  { exists f1, [], (length o). change (padded []) with (@nil Z). rewrite app_nil_r, O1. auto. }
  remember (b :: d) as l eqn:El. assert (Hl : (0 < length l)%nat) by (rewrite El; cbn; lia).
  rewrite (proj2 (Z.eqb_neq _ 0)), (proj2 (Z.ltb_ge _ 0)) by lia. rewrite Nat2Z.id.
  assert (Hbuf : firstn (min 4096 (length l)) (firstn 4096 l) = firstn 4096 l) by (rewrite firstn_firstn; destruct (Nat.le_gt_cases 4096 (length l)); [f_equal; lia|rewrite !firstn_all2 by lia; reflexivity]).
  rewrite Hbuf. set (buf := firstn 4096 l ++ repeat 0 (4096 - min 4096 (length l))).
  assert (Hb : length buf = 4096%nat) by (unfold buf; rewrite length_app, length_firstn, repeat_length; lia).
  assert (Hp : exists rest, padded l = buf ++ rest).
  { destruct (Nat.le_gt_cases 4096 (length l)); [exists (padded (skipn 4096 l)); unfold buf; rewrite Nat.min_l, Nat.sub_diag, app_nil_r by lia; now apply padded_step|].
    exists []. unfold buf. rewrite Nat.min_r, firstn_all2, app_nil_r by lia. apply padded_short. lia. }
  destruct Hp as [rest Hp]. assert (Hfit : (length o + length buf <= length old)%nat) by (rewrite Hp, !length_app in Hroom; lia).
  destruct (write_dst_ok f1 _ n _ buf Hr1) as (f2 & -> & Hr2 & O2 & S2); [rewrite O1, Ho, starts_with_length; lia|].
  rewrite O1, Ho, starts_with_app in O2 by exact Hfit. rewrite <- length_app in Hr2.
  rewrite Hb, (proj2 (Z.ltb_ge _ 4096)) by lia. pose proof (only_trans _ _ _ _ S1 S2) as S12. destruct (Nat.le_gt_cases 4096 (length l)) as [Hge|Hlt].
  - rewrite Nat.min_l by lia. change (Z.of_nat 4096 =? 4096) with true. cbv iota.
    assert (Ebuf : buf = firstn 4096 l) by (unfold buf; now rewrite Nat.min_l, Nat.sub_diag, app_nil_r by lia).
    assert (Erest : (o ++ buf) ++ padded (skipn 4096 l) = o ++ padded l) by (rewrite Ebuf, (padded_step l), app_assoc by lia; reflexivity).
    destruct (IH f2 (skipn 4096 l) n (o ++ buf) old Hr2 O2) as (f3 & g & pos & E & Hr3 & O3 & S3); [rewrite length_skipn; lia|now rewrite Erest|].
    exists f3, g, pos. rewrite Erest in O3. split; [exact E|]. split; [exact Hr3|]. split; [exact O3|]. eapply only_trans; eauto.
  - rewrite Nat.min_r by lia. rewrite (proj2 (Z.eqb_neq _ 4096)) by lia.
    exists f2, (skipn 4096 l), (length (o ++ buf)). split; [reflexivity|]. split; [exact Hr2|]. split; [|exact S12]. rewrite O2. do 2 f_equal.
    unfold buf. rewrite Nat.min_r, firstn_all2 by lia. symmetry. apply padded_short. lia.
Qed.

(** Restoring a file that fits writes it, with zeros after it, to the start of the device
    and to no other device. *)
Lemma restore_internal_spec fuel f file n d :
  source f file = Some d -> file <> n -> usable f n -> (length d < fuel)%nat -> (length (padded d) <= length (on_device f n))%nat ->
  exists f', restore_internal fuel n (Some file) f = ret (0, f') /\ on_device f' n = starts_with (padded d) (on_device f n) /\ only n f f'.
Proof.
  intros Hs Hne Hu Hf Hroom. unfold restore_internal. destruct (start_ok f file n d Hs Hne Hu) as (f1 & f2 & f3 & -> & -> & -> & Hr & O3 & S3). cbn [negb Z.eqb].
  destruct (restore_blocks_spec fuel f3 d n [] (on_device f n) Hr O3 Hf Hroom) as (f4 & g & pos & -> & Hr4 & O4 & S4).
  destruct (finish_ok f4 g n pos Hr4) as (O5 & S5). exists (close_both f4). split; [reflexivity|].
  split; [now rewrite O5|]. exact (only_trans _ _ _ _ (only_trans _ _ _ _ S3 S4) S5).
Qed.

(** The devices that a command writes, in order. *)
Definition targets (partition : list Z) : list (list Z) :=
  (if equal partition (str "recoveryonly") then [] else [BOARD_BML_BOOT]) ++
  (if equal partition (str "recovery") || equal partition (str "recoveryonly") then [BOARD_BML_RECOVERY] else []) ++
  (if is_path partition then [partition] else []).

Fixpoint restore_all (fuel : nat) (ns : list (list Z)) (file : option (list Z)) (f : F) : M (Z * F) :=
  match ns with
  | [] => ret (0, f)
  | n :: ns => do! r := restore_internal fuel n file f in let '(v, f) := r in if negb (v =? 0) then ret (v, f) else restore_all fuel ns file f
  end.

Lemma path_names partition : is_path partition = true ->
  equal partition (str "boot") = false /\ equal partition (str "recovery") = false /\ equal partition (str "recoveryonly") = false.
Proof. unfold is_path. destruct partition as [|c s]; [discriminate|]. intros ->%Z.eqb_eq. repeat split; reflexivity. Qed.

Lemma restore_last fuel n file f : restore_all fuel [n] file f = restore_internal fuel n file f.
Proof.
  cbn [restore_all]. destruct (restore_internal fuel n file f) as [[|[v g]]|]; try reflexivity. cbn [bindM].
  destruct (Z.eqb_spec v 0) as [->|]; reflexivity.
Qed.

Definition known (partition : list Z) : Prop :=
  partition = str "boot" \/ partition = str "recovery" \/ partition = str "recoveryonly" \/ is_path partition = true.

(** Comparisons of names that are written out. *)
Ltac known_names :=
  repeat match goal with
         | |- context [equal (str ?a) (str ?b)] => let v := eval vm_compute in (equal (str a) (str b)) in change (equal (str a) (str b)) with v
         | |- context [is_path (str ?a)] => let v := eval vm_compute in (is_path (str a)) in change (is_path (str a)) with v
         end; cbn [negb andb orb].

Lemma restore_targets fuel partition file f : known partition ->
  cmd_bml_restore_raw_partition fuel partition file f = restore_all fuel (targets partition) file f.
Proof.
  assert (Hseq : forall n k g, (do! (v, f0) := restore_internal fuel n file g in if negb (v =? 0) then ret (v, f0) else restore_all fuel k file f0) =
    restore_all fuel (n :: k) file g) by reflexivity.
  unfold cmd_bml_restore_raw_partition. intros [->|[->|[->|Hp]]].
  - change (targets (str "boot")) with [BOARD_BML_BOOT]. rewrite <- (Hseq BOARD_BML_BOOT []). known_names.
    destruct (restore_internal fuel BOARD_BML_BOOT file f) as [[|[v g]]|]; try reflexivity. cbn [bindM]. destruct (Z.eqb_spec v 0) as [->|]; reflexivity.
  - change (targets (str "recovery")) with [BOARD_BML_BOOT; BOARD_BML_RECOVERY]. rewrite <- (Hseq BOARD_BML_BOOT [BOARD_BML_RECOVERY]). known_names.
    destruct (restore_internal fuel BOARD_BML_BOOT file f) as [[|[v g]]|]; try reflexivity. cbn [bindM].
    destruct (negb (v =? 0)); [reflexivity|]. rewrite restore_last. destruct (restore_internal fuel BOARD_BML_RECOVERY file g) as [[|[v' g']]|]; reflexivity.
  - change (targets (str "recoveryonly")) with [BOARD_BML_RECOVERY]. rewrite restore_last. known_names. cbn [bindM ret].
    destruct (restore_internal fuel BOARD_BML_RECOVERY file f) as [[|[v' g']]|]; reflexivity.
  - unfold targets. destruct (path_names partition Hp) as (-> & -> & ->). rewrite Hp. cbn [negb andb orb app]. rewrite <- (Hseq BOARD_BML_BOOT [partition]).
    destruct (restore_internal fuel BOARD_BML_BOOT file f) as [[|[v g]]|]; try reflexivity. cbn [bindM]. destruct (negb (v =? 0)); [reflexivity|].
    cbn [bindM ret]. symmetry. apply restore_last.
Qed.

Lemma restore_all_spec fuel ns : forall f file d,
  source f file = Some d -> ~ In file ns -> (length d < fuel)%nat ->
  (forall n, In n ns -> usable f n /\ (length (padded d) <= length (on_device f n))%nat) ->
  exists f', restore_all fuel ns (Some file) f = ret (0, f') /\
    (forall n, In n ns -> on_device f' n = starts_with (padded d) (on_device f n)) /\ (forall n, ~ In n ns -> on_device f' n = on_device f n).
Proof.
  induction ns as [|n ns IH]; intros f file d Hs Hfile Hf Hu; cbn [restore_all].
  { exists f. split; [reflexivity|]. split; [intros n []|]. auto. }
  destruct (Hu n ltac:(now left)) as [Hun Hroom]. assert (Hne : file <> n) by (intros ->; apply Hfile; now left).
  destruct (restore_internal_spec fuel f file n d Hs Hne Hun Hf Hroom) as (f1 & -> & D1 & O1 & S1 & U1). cbn [bindM ret Z.eqb negb].
  assert (Hfile' : ~ In file ns) by (intros Hin; apply Hfile; now right).
  assert (Hold : forall m, on_device f1 m = if decide (m = n) then starts_with (padded d) (on_device f n) else on_device f m) by (intros m; case_decide; [now subst|now apply O1]).
  destruct (IH f1 file d) as (f2 & E2 & A2 & B2); [now rewrite S1|exact Hfile'|exact Hf| |].
  { intros m Hm. destruct (Hu m ltac:(now right)) as [Hum Hrm]. split; [now apply U1|]. rewrite Hold. case_decide; [rewrite starts_with_length|]; assumption. }
  exists f2. split; [exact E2|]. split; intros m Hm; destruct (in_dec (fun a b : list Z => decide (a = b)) m ns) as [Hin|Hout].
  - rewrite (A2 m Hin), Hold. case_decide as Em; [|reflexivity]. rewrite Em. apply starts_with_twice.
  - destruct Hm as [<-|Hm]; [|contradiction]. now rewrite (B2 _ Hout).
  - exfalso. apply Hm. now right.
  - rewrite (B2 _ Hout). apply O1. intros ->. apply Hm. now left.
Qed.

(** C21: What restoring writes to which device: "boot" is written to the boot device,
    "recovery" to both devices, "recoveryonly" to the recovery device alone, and a device
    that is named by its path to the boot device and that device.  For a file that can be
    opened and is not itself one of these devices, when each of them can be opened and
    unlocked and has room for the file with its last block of 4096 bytes filled up, the
    command returns 0, each of these devices starts with the file and the zeros that fill
    its last block and is unchanged behind them, and no other device changes.  (A
    restore from the standard input, which can be read only once, is not covered.) *)
Theorem bml_restore_devices fuel f partition file d :
  source f file = Some d -> file ∉ targets partition -> (length d < fuel)%nat -> known partition ->
  (forall n, n ∈ targets partition -> usable f n /\ (length (padded d) <= length (on_device f n))%nat) ->
  exists f', cmd_bml_restore_raw_partition fuel partition (Some file) f = ret (0, f') /\
    forall n, on_device f' n = if bool_decide (n ∈ targets partition) then padded d ++ skipn (length (padded d)) (on_device f n) else on_device f n.
Proof.
  intros Hs Hfile Hf Hk Hu. rewrite (restore_targets fuel partition (Some file) f Hk). rewrite list_elem_of_In in Hfile.
  destruct (restore_all_spec fuel (targets partition) f file d Hs Hfile Hf) as (f' & E & A & B); [intros n Hn; apply Hu; now apply list_elem_of_In|].
  exists f'. split; [exact E|]. intros n. case_bool_decide as Hin; rewrite list_elem_of_In in Hin; [exact (A n Hin)|exact (B n Hin)].
Qed.

(** The device of a path is not the only one that is written. *)
Lemma path_overwrites_boot partition : is_path partition = true -> targets partition = [BOARD_BML_BOOT; partition].
Proof. intros Hp. unfold targets. destruct (path_names partition Hp) as (_ & -> & ->). now rewrite Hp. Qed.
End Restore.

(** * An example *)

(** A file named "image", devices of fixed sizes, and the place in both. *)
Record bml_state := mkBmlState { s_file : list Z; s_devs : list (list Z * list Z); s_rest : list Z; s_dst : list Z; s_pos : nat }.
Definition dev_of (f : bml_state) (n : list Z) : list Z :=
  match List.find (fun '(m, _) => bool_decide (m = n)) (s_devs f) with Some (_, d) => d | None => [] end.
Definition set_dev (n d : list Z) (f : bml_state) : bml_state := mkBmlState (s_file f) ((n, d) :: s_devs f) (s_rest f) (s_dst f) (s_pos f).

Lemma dev_of_set n d f m : dev_of (set_dev n d f) m = if decide (m = n) then d else dev_of f m.
Proof. unfold dev_of. cbn. case_bool_decide; case_decide; congruence. Qed.

#[local] Instance no_card : CardSystem bml_state := {
  card_disk _ := None; open_in _ f := (false, f); size_in _ := 0; read_in _ f := ([], f); close_in f := f;
  open_out _ f := (false, f); write_out _ f := (O, f); close_out f := f; run _ f := (false, f); mount _ _ _ _ f := (-1, f)
}.

(** The standard input is empty; a write stops where the device ends. *)
#[local] Instance bml_memory : BmlSystem bml_state := {
  open_src name f := match name with
                     | Some name => (bool_decide (name = str "image"), mkBmlState (s_file f) (s_devs f) (s_file f) (s_dst f) (s_pos f))
                     | None => (true, mkBmlState (s_file f) (s_devs f) [] (s_dst f) (s_pos f))
                     end;
  read_src k f := (Z.of_nat (min k (length (s_rest f))), firstn k (s_rest f), mkBmlState (s_file f) (s_devs f) (skipn k (s_rest f)) (s_dst f) (s_pos f));
  open_dst n f := (true, mkBmlState (s_file f) (s_devs f) (s_rest f) n 0);
  unlock_all f := (0, f);
  write_dst bs f :=
    let old := dev_of f (s_dst f) in
    let bs := firstn (length old - s_pos f) bs in
    (Z.of_nat (length bs), set_dev (s_dst f) (firstn (s_pos f) old ++ bs ++ skipn (s_pos f + length bs) old)
       (mkBmlState (s_file f) (s_devs f) (s_rest f) (s_dst f) (s_pos f + length bs)));
  close_both f := f;
  system _ f := (0, f)
}.

#[local] Instance bml_memory_laws : BmlLaws bml_state.
Proof.
  refine {| source f name := if bool_decide (name = str "image") then Some (s_file f) else None; on_device := dev_of; usable _ _ := True;
            restoring f d n pos := s_rest f = d /\ s_dst f = n /\ s_pos f = pos |}.
  - intros f file n d Hs _ _. case_bool_decide as Hn; [|discriminate]. injection Hs as <-. cbn [open_src bml_memory]. rewrite bool_decide_true by exact Hn.
    do 3 eexists. repeat split; reflexivity.
  - intros f d n pos k (<- & <- & <-). eexists. repeat split; reflexivity.
  - intros f d n pos bs (<- & <- & <-) Hroom. cbn [write_dst bml_memory]. rewrite (firstn_all2 bs) by lia. eexists. split; [reflexivity|].
    split; [repeat split; reflexivity|]. split; [rewrite dev_of_set; now case_decide|]. split; [|split; [reflexivity|auto]].
    intros m Hm. rewrite dev_of_set. now case_decide.
  - intros f d n pos _. repeat split; auto.
Defined.

Definition two_devices : bml_state := mkBmlState [1; 2; 3] [(BOARD_BML_BOOT, repeat 255 8192); (BOARD_BML_RECOVERY, repeat 255 4096)] [] [] 0.

Lemma bml_restore_devices_witness :
  exists f', cmd_bml_restore_raw_partition 4 (str "recovery") (Some (str "image")) two_devices = ret (0, f') /\
    forall n, on_device f' n = if bool_decide (n ∈ targets (str "recovery"))
      then padded [1; 2; 3] ++ skipn (length (padded [1; 2; 3])) (on_device two_devices n) else on_device two_devices n.
Proof.
  apply (bml_restore_devices 4 two_devices (str "recovery") (str "image") [1; 2; 3]).
  - reflexivity.
  - change (targets (str "recovery")) with [BOARD_BML_BOOT; BOARD_BML_RECOVERY]. rewrite !not_elem_of_cons. repeat split; [discriminate..|apply not_elem_of_nil].
  - cbn. lia.
  - right. now left.
  - change (targets (str "recovery")) with [BOARD_BML_BOOT; BOARD_BML_RECOVERY]. intros n Hn. split; [exact I|].
    rewrite !elem_of_cons, elem_of_nil in Hn. destruct Hn as [-> | [-> | []]]; vm_compute; lia.
Defined.
