(* ===== verification/Flashutils.v ===== *)
(** The front end of the three kinds of flash: src/flashutils/flashutils.c and the
    programs flash_image, dump_image and erase_image.

    Each kind implements one interface, the record [Backend] of six commands; the front
    end finds out once which kind the board has and dispatches to it. *)
From Stdlib Require Import String.
From stdpp Require Import list relations.
From S2P Require Import Prelude CString Mtd MtdScan MtdCommands Mmc MmcTable MmcCommands MmcRoundTrip Bmlutils.

(** A board: its files, which the three kinds share, and whether a node exists. *)
Class Board (F : Type) := {
  board_files :: Files F;
  board_bml :: BmlSystem F;
  access : list Z -> F -> bool
}.

Inductive flash_type := UNSUPPORTED | UNKNOWN | MTD | MMC | BML.
#[export] Instance flash_type_eq : EqDecision flash_type.
Proof. solve_decision. Defined.

Section Flash.
Context {W F : Type} `{Device W} `{Board F}.

(** What fresh memory of a size holds, the size of the stream buffer, and fuel. *)
Context (memory : Z -> list Z) (BUFSIZ : nat) (fuel : nat).

(** The global variables of the three kinds, the flash device and the files. *)
Record machine := mkMachine { mtd_state : MtdState; mmc_state : MmcState; flash_device : W; world : F }.

(** The six commands of a kind: the result, and for the last the string stored. *)
Record Backend := {
  restore_raw : list Z -> list Z -> machine -> M (Z * machine);
  backup_raw : list Z -> list Z -> machine -> M (Z * machine);
  erase_raw : list Z -> machine -> M (Z * machine);
  erase : list Z -> list Z -> machine -> M (Z * machine);
  mount_at : list Z -> list Z -> list Z -> bool -> machine -> M (Z * machine);
  get_device : list Z -> machine -> M (Z * option (list Z) * machine)
}.

(** * The three kinds *)

Definition mtd_sys (m : machine) : sys W F := mkSys (mtd_state m) (flash_device m) (world m).
Definition set_mtd (m : machine) (s : sys W F) : machine := mkMachine (state s) (mmc_state m) (device s) (files s).
Definition on_mtd (c : sys W F -> M (Z * sys W F)) (m : machine) : M (Z * machine) :=
  do! r := c (mtd_sys m) in let '(v, s) := r in ret (v, set_mtd m s).

Definition mtd_backend : Backend := {|
  restore_raw p file := on_mtd (cmd_mtd_restore_raw_partition memory BUFSIZ fuel p file);
  backup_raw p file := on_mtd (cmd_mtd_backup_raw_partition memory fuel p file);
  erase_raw p := on_mtd (cmd_mtd_erase_raw_partition memory fuel p);
  erase p fs := on_mtd (cmd_mtd_erase_partition memory fuel p fs);
  mount_at p point fs ro := on_mtd (cmd_mtd_mount_partition fuel p point fs ro);
  get_device p m := do! r := cmd_mtd_get_partition_device fuel p (mtd_sys m) in let '(v, d, s) := r in ret (v, d, set_mtd m s)
|}.

Definition set_mmc (m : machine) (st : MmcState) (f : F) : machine := mkMachine (mtd_state m) st (flash_device m) f.
Definition on_mmc (c : MmcState -> F -> M (Z * MmcState * F)) (m : machine) : M (Z * machine) :=
  do! r := c (mmc_state m) (world m) in let '(v, st, f) := r in ret (v, set_mmc m st f).

Definition mmc_backend : Backend := {|
  restore_raw p file := on_mmc (cmd_mmc_restore_raw_partition fuel p file);
  backup_raw p file := on_mmc (cmd_mmc_backup_raw_partition fuel p file);
  erase_raw p m := ret (cmd_mmc_erase_raw_partition p, m);
  erase p fs := on_mmc (cmd_mmc_erase_partition fuel p fs);
  mount_at p point fs ro := on_mmc (cmd_mmc_mount_partition fuel p point fs ro);
  get_device p m := do! r := cmd_mmc_get_partition_device fuel p (mmc_state m) (world m) in
                    let '(v, d, st) := r in ret (v, d, set_mmc m st (world m))
|}.

Definition on_bml (c : F -> M (Z * F)) (m : machine) : M (Z * machine) :=
  do! r := c (world m) in let '(v, f) := r in ret (v, set_mmc m (mmc_state m) f).

Definition bml_backend : Backend := {|
  restore_raw p file := on_bml (cmd_bml_restore_raw_partition fuel p (Some file));
  backup_raw p file := on_bml (cmd_bml_backup_raw_partition fuel p file);
  erase_raw p m := ret (cmd_bml_erase_raw_partition p, m);
  erase p fs m := ret (cmd_bml_erase_partition p fs, m);
  mount_at p point fs ro m := ret (cmd_bml_mount_partition p point fs ro, m);
  get_device p m := ret (cmd_bml_get_partition_device p, None, m)
|}.

Definition backend (t : flash_type) : option Backend :=
  match t with MTD => Some mtd_backend | MMC => Some mmc_backend | BML => Some bml_backend | _ => None end.

(** * Which kind *)

(** With the variable [the_flash_type]. *)
Definition front := (flash_type * machine)%type.
Definition the_flash_type : flash_type := UNKNOWN.

Definition probe (f : F) : flash_type :=
  if access BOARD_BML_BOOT f then BML
  else if access (str "/proc/emmc") f then MMC
  else if access (str "/proc/mtd") f then MTD
  else UNSUPPORTED.

Definition device_flash_type (s : front) : flash_type * front :=
  let t := if bool_decide (fst s = UNKNOWN) then probe (world (snd s)) else fst s in (t, (t, snd s)).

Definition get_default_filesystem (s : front) : list Z * front :=
  let '(t, s) := device_flash_type s in (if bool_decide (t = MMC) then str "ext3" else str "yaffs2", s).

Definition get_flash_type (partitionType : list Z) : flash_type :=
  if equal partitionType (str "mtd") then MTD
  else if equal partitionType (str "emmc") then MMC
  else if equal partitionType (str "bml") then BML
  else UNSUPPORTED.

Definition contains (s tag : list Z) : bool := match strstr s tag with Some _ => true | None => false end.

Definition detect_partition (partitionType : option (list Z)) (partition : list Z) (s : front) : flash_type * front :=
  let '(type, s) := device_flash_type s in
  let type := if contains partition (str "/dev/block/mtd") then MTD
              else if contains partition (str "/dev/block/mmc") then MMC
              else if contains partition (str "/dev/block/bml") then BML
              else type in
  (match partitionType with Some t => get_flash_type t | None => type end, s).

(** * The commands *)

Definition dispatch (t : flash_type) (c : Backend -> machine -> M (Z * machine)) (s : front) : M (Z * front) :=
  match backend t with
  | Some b => do! r := c b (snd s) in let '(v, m) := r in ret (v, (fst s, m))
  | None => ret (-1, s)
  end.

Definition restore_raw_partition (partitionType : option (list Z)) (partition filename : list Z) (s : front) : M (Z * front) :=
  let '(type, s) := detect_partition partitionType partition s in dispatch type (fun b => restore_raw b partition filename) s.
Definition backup_raw_partition (partitionType : option (list Z)) (partition filename : list Z) (s : front) : M (Z * front) :=
  let '(type, s) := detect_partition partitionType partition s in dispatch type (fun b => backup_raw b partition filename) s.
Definition erase_raw_partition (partitionType : option (list Z)) (partition : list Z) (s : front) : M (Z * front) :=
  let '(type, s) := detect_partition partitionType partition s in dispatch type (fun b => erase_raw b partition) s.
Definition erase_partition (partition filesystem : list Z) (s : front) : M (Z * front) :=
  let '(type, s) := detect_partition None partition s in dispatch type (fun b => erase b partition filesystem) s.
Definition mount_partition (partition mount_point filesystem : list Z) (read_only : bool) (s : front) : M (Z * front) :=
  let '(type, s) := detect_partition None partition s in dispatch type (fun b => mount_at b partition mount_point filesystem read_only) s.

(** The name of the partition is not looked at here. *)
Definition get_partition_device (partition : list Z) (s : front) : M (Z * option (list Z) * front) :=
  let '(type, s) := device_flash_type s in
  match backend type with
  | Some b => do! r := get_device b partition (snd s) in let '(v, d, m) := r in ret (v, d, (fst s, m))
  | None => ret (-1, None, s)
  end.

(** * The programs, from [argv] to the exit code *)

Definition flash_image (argv : list (list Z)) (s : front) : M (Z * front) :=
  match argv with [_; partition; file] => restore_raw_partition None partition file s | _ => ret (2, s) end.
Definition dump_image (argv : list (list Z)) (s : front) : M (Z * front) :=
  match argv with [_; partition; file] => backup_raw_partition None partition file s | _ => ret (2, s) end.
Definition erase_image (argv : list (list Z)) (s : front) : M (Z * front) :=
  match argv with [_; partition] => erase_raw_partition None partition s | _ => ret (2, s) end.
End Flash.
Arguments machine : clear implicits.
Arguments front : clear implicits.

(** * The kind of flash does not change *)

Section Stable.
Context {W F : Type} `{Device W} `{Board F}.
Context (memory : Z -> list Z) (BUFSIZ : nat) (fuel : nat).

(** A command that has returned. *)
Inductive command : front W F -> front W F -> Prop :=
| c_restore pt p file v s s' : restore_raw_partition memory BUFSIZ fuel pt p file s = ret (v, s') -> command s s'
| c_backup pt p file v s s' : backup_raw_partition memory BUFSIZ fuel pt p file s = ret (v, s') -> command s s'
| c_erase_raw pt p v s s' : erase_raw_partition memory BUFSIZ fuel pt p s = ret (v, s') -> command s s'
| c_erase p fs v s s' : erase_partition memory BUFSIZ fuel p fs s = ret (v, s') -> command s s'
| c_mount p point fs ro v s s' : mount_partition memory BUFSIZ fuel p point fs ro s = ret (v, s') -> command s s'
| c_device p v d s s' : get_partition_device memory BUFSIZ fuel p s = ret (v, d, s') -> command s s'
| c_filesystem fs s s' : get_default_filesystem s = (fs, s') -> command s s'.

(** Between commands the rest of the system changes the machine. *)
Inductive step : front W F -> front W F -> Prop :=
| s_command s s' : command s s' -> step s s'
| s_other t m m' : step (t, m) (t, m').

(** The value of the variable after a command. *)
Definition settled (s : front W F) : flash_type := if bool_decide (fst s = UNKNOWN) then probe (world (snd s)) else fst s.

Lemma probe_known f : probe f <> UNKNOWN.
Proof. unfold probe. repeat case_match; discriminate. Qed.

Lemma settled_known s : settled s <> UNKNOWN.
Proof. unfold settled. case_bool_decide; [apply probe_known|assumption]. Qed.

Lemma settled_fix s : fst s <> UNKNOWN -> settled s = fst s.
Proof. intros Hs. unfold settled. now rewrite bool_decide_false. Qed.

Lemma dispatch_type t c (s s' : front W F) v : dispatch memory BUFSIZ fuel t c s = ret (v, s') -> fst s' = fst s.
Proof.
  unfold dispatch. destruct (backend _ _ _ t) as [b|]; [|intros [= _ <-]; reflexivity].
  destruct (c b (snd s)) as [[|[w m]]|]; cbn [bindM]; try discriminate. intros [= _ <-]. reflexivity.
Qed.

Lemma command_settles s s' : command s s' -> fst s' = settled s.
Proof.
  destruct 1 as [? ? ? ? ? ? E|? ? ? ? ? ? E|? ? ? ? ? E|? ? ? ? ? E|? ? ? ? ? ? ? E|p v d s s' E|fs s s' E];
    try exact (dispatch_type _ _ _ _ _ E).
  - unfold get_partition_device in E. cbn [device_flash_type] in E. fold (settled s) in E.
    destruct (backend _ _ _ (settled s)) as [b|]; [|injection E as _ _ <-; reflexivity].
    destruct (get_device b p _) as [[|[[w e] m]]|]; cbn [bindM] in E; try discriminate. injection E as _ _ <-. reflexivity.
  - injection E as _ <-. reflexivity.
Qed.

Lemma steps_keep s s' : rtc step s s' -> fst s <> UNKNOWN -> fst s' = fst s.
Proof.
  induction 1 as [s|s s1 s' Hs _ IH]; intros Hk; [reflexivity|].
  assert (E : fst s1 = fst s) by (destruct Hs as [s s1 Hc|]; [rewrite (command_settles _ _ Hc); now apply settled_fix|reflexivity]).
  rewrite IH; congruence.
Qed.

(** The kind that a command uses, from the kind of the board, the type it is given and
    the name of the partition. *)
Definition kind_of (board : flash_type) (partitionType : option (list Z)) (partition : list Z) : flash_type :=
  match partitionType with
  | Some t => get_flash_type t
  | None => if contains partition (str "/dev/block/mtd") then MTD
            else if contains partition (str "/dev/block/mmc") then MMC
            else if contains partition (str "/dev/block/bml") then BML else board
  end.

Lemma detect_kind pt p (s : front W F) : detect_partition pt p s = (kind_of (settled s) pt p, (settled s, snd s)).
Proof. unfold detect_partition, device_flash_type. fold (settled s). now destruct pt. Qed.

(** C19: The kind of flash is decided once: the first command looks for the nodes of the
    kernel, and whatever commands follow and however the system changes meanwhile, every
    later command is given the kind that was found then, unless the type or the path of
    the partition names another.  (Which kind is found first is [probe], as the code has
    it.) *)
Theorem flash_type_stable (m : machine W F) s1 s2 pt p :
  command (UNKNOWN, m) s1 -> rtc step s1 s2 ->
  fst s2 = probe (world m) /\ detect_partition pt p s2 = (kind_of (probe (world m)) pt p, s2).
Proof.
  intros Hc Hr. pose proof (command_settles _ _ Hc) as E1. change (settled (UNKNOWN, m)) with (probe (world m)) in E1.
  pose proof (steps_keep _ _ Hr) as E2. pose proof (probe_known (world m)) as Hk.
  assert (E : fst s2 = probe (world m)) by (rewrite E2; congruence). split; [exact E|].
  rewrite detect_kind, settled_fix, E by congruence. destruct s2; cbn in *. now subst.
Qed.
End Stable.

(** * The programs *)

(** A name that does not select a kind by itself. *)
Definition plain_name (p : list Z) : bool :=
  negb (contains p (str "/dev/block/mtd")) && negb (contains p (str "/dev/block/mmc")) && negb (contains p (str "/dev/block/bml")).

Section Programs.
Context {W F : Type} `{Device W} `{Board F}.
Context (memory : Z -> list Z) (BUFSIZ : nat) (fuel : nat).

Lemma plain_kind board p : plain_name p = true -> kind_of board None p = board.
Proof.
  unfold plain_name, kind_of. intros [[H1%negb_true_iff H2%negb_true_iff]%andb_true_iff H3%negb_true_iff]%andb_true_iff. now rewrite H1, H2, H3.
Qed.

(** A program runs the command of the kind that the board has. *)
Lemma flash_image_backend a p file (s : front W F) b : plain_name p = true -> backend memory BUFSIZ fuel (settled s) = Some b ->
  flash_image memory BUFSIZ fuel [a; p; file] s = (do! r := restore_raw b p file (snd s) in let '(v, m) := r in ret (v, (settled s, m))).
Proof.
  intros Hp Hb. unfold flash_image, restore_raw_partition. rewrite detect_kind, plain_kind by exact Hp. unfold dispatch. now rewrite Hb.
Qed.
Lemma dump_image_backend a p file (s : front W F) b : plain_name p = true -> backend memory BUFSIZ fuel (settled s) = Some b ->
  dump_image memory BUFSIZ fuel [a; p; file] s = (do! r := backup_raw b p file (snd s) in let '(v, m) := r in ret (v, (settled s, m))).
Proof.
  intros Hp Hb. unfold dump_image, backup_raw_partition. rewrite detect_kind, plain_kind by exact Hp. unfold dispatch. now rewrite Hb.
Qed.
End Programs.

Section MtdPrograms.
Context {W F : Type} `{!Board F} `{!FileLaws F}.
Context (x : MtdScan.entry) `{Flash W (of_entry x)}.
Context (memory : Z -> list Z) (BUFSIZ : nat) (fuel : nat).
Context (Hmemory : forall n, 0 <= n -> length (memory n) = Z.to_nat n) (Hbuf : (0 < BUFSIZ)%nat).

(** C8: On a board with raw flash, flash_image followed by dump_image gives the image
    back: both find the kind of flash and the partition by its name and exit with 0, and
    the dump holds the file, zeros to the end of its last block and 0xff in the other good
    blocks; bad blocks are stepped over both times.  The image fits into the good blocks,
    the erase size is a multiple of 2048, good blocks can be written and verified (the laws
    of [Flash]), and dump_image runs in the state that flash_image left, with an output
    file that can be created. *)
Theorem flash_dump_image_mtd entries (m : machine W F) bs a a' n d out k :
  probe (world m) = MTD -> plain_name (e_name x) = true ->
  listed x fuel entries (mtd_sys m) -> idle (p := of_entry x) (flash_device m) bs -> MtdCommands.contents (world m) n = Some d ->
  Z.of_nat (length d) <= e_erase x * Z.of_nat (length (goods bs)) -> e_erase x = 2048 * Z.of_nat k ->
  (2 * length bs + Z.to_nat (e_erase x) * length bs + length d + 3 < fuel)%nat ->
  exists s1, flash_image memory BUFSIZ fuel [a; e_name x; n] (the_flash_type, m) = ret (0, s1) /\
    forall f', creat out (world (snd s1)) = (true, f') -> output f' out [] ->
    exists s2, dump_image memory BUFSIZ fuel [a'; e_name x; out] s1 = ret (0, s2) /\
      MtdCommands.contents (world (snd s2)) out = Some (image x (Z.to_nat (e_erase x) * length (goods bs)) d).
Proof.
  intros Hp Hn Hl Hi Hc Hfit He Hf. assert (Hs : settled (the_flash_type, m) = MTD) by exact Hp.
  destruct (restore_backup x memory BUFSIZ fuel Hmemory Hbuf entries (mtd_sys m) bs n d out k Hl Hi Hc Hfit He Hf) as (s1 & E1 & Hb).
  rewrite (flash_image_backend memory BUFSIZ fuel _ _ _ _ (mtd_backend memory BUFSIZ fuel)) by (exact Hn || now rewrite ?Hs).
  cbn [restore_raw mtd_backend snd]. unfold on_mtd. rewrite E1. cbn [bindM ret]. eexists. split; [reflexivity|]. intros f' Hcr Ho.
  destruct (Hb f' Hcr Ho) as (s2 & E2 & Hc2).
  rewrite (dump_image_backend memory BUFSIZ fuel _ _ _ _ (mtd_backend memory BUFSIZ fuel)) by (exact Hn || now rewrite ?Hs).
  cbn [backup_raw mtd_backend snd]. unfold on_mtd, mtd_sys at 1, set_mtd at 1 2 3. cbn [mtd_state flash_device world].
  replace (mkSys (state s1) (device s1) (files s1)) with s1 by now destruct s1. rewrite E2. cbn [bindM ret]. eexists. split; [reflexivity|exact Hc2].
Qed.
End MtdPrograms.

Section MmcPrograms.
Context {W F : Type} `{Device W} `{!Board F} `{!CardLaws F}.
Context (memory : Z -> list Z) (BUFSIZ : nat) (fuel : nat).

(** C17: On a board with a memory card, flash_image followed by dump_image gives the image
    back: both find the device of the partition in the boot records and exit with 0, the
    device starts with the file afterwards, and the dump is the whole device.  The card is
    one that mmc_scan_partitions reads (extended boot records below the sector 2^22, at
    most 64 partitions); the image can be read, is shorter than 4 GiB and fits the
    partition, whose device can be opened; and the dump goes to a file that can be created
    and has room for the whole device in the state that flash_image left. *)
Theorem flash_dump_image_mmc (m : machine W F) disk wanted p dev a a' file d out :
  probe (world m) = MMC -> plain_name wanted = true ->
  has_partition disk wanted p fuel -> device_index p = Some dev -> card_disk (world m) = Some disk -> MmcTable.state_ok (mmc_state m) ->
  copyable fuel (world m) file d dev ->
  let held := d ++ skipn (length d) (kept (world m) dev) in
  exists s1, flash_image memory BUFSIZ fuel [a; wanted; file] (the_flash_type, m) = ret (0, s1) /\ contents (world (snd s1)) dev = Some held /\
    (copyable fuel (world (snd s1)) dev held out -> kept (world (snd s1)) out = [] ->
     exists s2, dump_image memory BUFSIZ fuel [a'; wanted; out] s1 = ret (0, s2) /\ contents (world (snd s2)) out = Some held).
Proof.
  intros Hp Hn Hpart Hdev Hdisk Hst Hc held. assert (Hs : settled (the_flash_type, m) = MMC) by exact Hp.
  destruct (card_restore_backup fuel (world m) disk wanted p dev (mmc_state m) file d out Hpart Hdev Hdisk Hst Hc) as (st1 & f1 & E1 & Hc1 & Hb).
  rewrite (flash_image_backend memory BUFSIZ fuel _ _ _ _ (mmc_backend fuel)) by (exact Hn || now rewrite ?Hs).
  cbn [restore_raw mmc_backend snd]. unfold on_mmc. rewrite E1. cbn [bindM ret]. eexists. split; [reflexivity|]. split; [exact Hc1|]. intros Hw1 Hk1.
  destruct (Hb Hw1 Hk1) as (st2 & f2 & E2 & Hc2).
  rewrite (dump_image_backend memory BUFSIZ fuel _ _ _ _ (mmc_backend fuel)) by (exact Hn || now rewrite ?Hs).
  cbn [backup_raw mmc_backend snd]. unfold on_mmc, set_mmc at 1 2. cbn [mmc_state world]. rewrite E2. cbn [bindM ret]. eexists. split; [reflexivity|exact Hc2].
Qed.
End MmcPrograms.

(** * Examples *)

(** A board with raw flash, whose table of partitions is there when it is not empty. *)
#[local] Existing Instance mem_fs.
#[local] Existing Instance mem_file_laws.
#[local] Existing Instance recovery_laws.

#[local] Instance mem_bml : BmlSystem mem_files := {
  bml_card := {| card_disk _ := None; open_in _ f := (false, f); size_in _ := 0; read_in _ f := ([], f); close_in f := f;
                 open_out _ f := (false, f); write_out _ f := (O, f); close_out f := f; run _ f := (false, f); MmcCommands.mount _ _ _ _ f := (-1, f) |};
  open_src _ f := (false, f); read_src _ f := (0, [], f); open_dst _ f := (false, f); unlock_all f := (-1, f);
  write_dst _ f := (0, f); close_both f := f; system _ f := (-1, f)
}.

#[local] Instance mtd_board : Board mem_files := { access n f := bool_decide (n = str "/proc/mtd") && negb (bool_decide (f_proc f = [])) }.

Definition mtd_machine : machine mem_flash mem_files :=
  mkMachine (state recovery_sys) g_mmc_state (device recovery_sys) (files recovery_sys).
Definition without_table : machine mem_flash mem_files :=
  mkMachine (state recovery_sys) g_mmc_state (device recovery_sys) (mkFiles [] [] [] [] []).

Lemma flash_type_stable_witness :
  let memory n := repeat 0 (Z.to_nat n) in
  exists s1, command memory 1024 10 (UNKNOWN, mtd_machine) s1 /\ rtc (step memory 1024 10) s1 (MTD, without_table) /\
    probe (world without_table) = UNSUPPORTED /\ detect_partition None (str "boot") (MTD, without_table) = (MTD, (MTD, without_table)).
Proof.
  exists (MTD, mtd_machine). assert (Hc : command (fun n => repeat 0 (Z.to_nat n)) 1024 10 (UNKNOWN, mtd_machine) (MTD, mtd_machine)) by (eapply c_filesystem; reflexivity).
  assert (Hr : rtc (step (fun n => repeat 0 (Z.to_nat n)) 1024 10) (MTD, mtd_machine) (MTD, without_table)) by (apply rtc_once, s_other).
  split; [exact Hc|]. split; [exact Hr|]. split; [reflexivity|].
  exact (proj2 (flash_type_stable (fun n => repeat 0 (Z.to_nat n)) 1024 10 mtd_machine _ _ None (str "boot") Hc Hr)).
Defined.

Lemma flash_dump_image_mtd_witness :
  exists s1, flash_image (fun n => repeat 0 (Z.to_nat n)) 1024 (12 * 1000) [[]; [114; 101; 99]; [105]] (the_flash_type, mtd_machine) = ret (0, s1) /\
    forall f', creat [111] (world (snd s1)) = (true, f') -> output f' [111] [] ->
    exists s2, dump_image (fun n => repeat 0 (Z.to_nat n)) 1024 (12 * 1000) [[]; [114; 101; 99]; [111]] s1 = ret (0, s2) /\
      MtdCommands.contents (world (snd s2)) [111] = Some (image recovery (2048 * 3) (repeat 9 3000)).
Proof.
  refine (flash_dump_image_mtd recovery (fun n => repeat 0 (Z.to_nat n)) 1024 (12 * 1000) _ _
    [mkEntry 0 8192 2048 [98]; recovery] mtd_machine recovery_blocks [] [] [105] (repeat 9 3000) [111] 1 _ _ _ _ _ _ _ _).
  - intros n Hn. apply repeat_length.
  - lia.
  - reflexivity.
  - reflexivity.
  - apply recovery_listed. lia.
  - exact recovery_idle.
  - reflexivity.
  - vm_compute. discriminate.
  - reflexivity.
  - rewrite repeat_length. change (length recovery_blocks) with 4%nat. change (e_erase recovery) with 2048. lia.
Defined.

(** A board with a memory card. *)
#[local] Existing Instance card_system.
#[local] Existing Instance card_laws.

#[local] Instance card_mtd : Files card_files := {
  proc_text _ := None; fopen _ f := (false, f); fread _ f := ([], f); fclose f := f; open_rdonly _ f := (false, f); creat _ f := (false, f);
  put _ f := (-1, f); close_fd f := (0, f); unlink _ f := f; mount _ _ _ _ f := (-1, f); stat_mode _ _ := (-1, 0); chmod _ _ f := (-1, f)
}.

#[local] Instance card_bml : BmlSystem card_files := {
  bml_card := card_system; open_src _ f := (false, f); read_src _ f := (0, [], f); open_dst _ f := (false, f); unlock_all f := (-1, f);
  write_dst _ f := (0, f); close_both f := f; system _ f := (-1, f)
}.

#[local] Instance card_board : Board card_files := { access n _ := bool_decide (n = str "/proc/emmc") }.

Definition card_machine : machine mem_flash card_files := mkMachine g_mtd_state g_mmc_state (mkFlash 2048 [] 0 0) card_state.

Lemma flash_dump_image_mmc_witness :
  let memory n := repeat 0 (Z.to_nat n) in
  exists s1, flash_image memory 1024 60 [[]; str "cache"; str "image"] (the_flash_type, card_machine) = ret (0, s1) /\
    contents (world (snd s1)) cache_device = Some [7; 8; 9; 1; 1; 1; 1; 1; 1; 1] /\
    (copyable 60 (world (snd s1)) cache_device [7; 8; 9; 1; 1; 1; 1; 1; 1; 1] (str "out") -> kept (world (snd s1)) (str "out") = [] ->
     exists s2, dump_image memory 1024 60 [[]; str "cache"; str "out"] s1 = ret (0, s2) /\ contents (world (snd s2)) (str "out") = Some [7; 8; 9; 1; 1; 1; 1; 1; 1; 1]).
Proof.
  refine (flash_dump_image_mmc (fun n => repeat 0 (Z.to_nat n)) 1024 60 card_machine card (str "cache") cache_part cache_device [] []
    (str "image") [7; 8; 9] (str "out") _ _ _ _ _ _ _).
  - reflexivity.
  - reflexivity.
  - exact cache_listed.
  - reflexivity.
  - reflexivity.
  - exact I.
  - exact image_copyable.
Defined.
