(* ===== verification/Fb.v ===== *)
(** Saving a frame buffer as an image: src/fb2png/img_process.c and fb.c.

    Pixels are bytes in the order of the structures of img_process.h.  A read or a write
    outside a buffer is a [Fault]; memory is taken to be there, with any contents.
    libpng is a parameter: from an image to the pieces of the file that it passes to the
    write function. *)
From stdpp Require Import list.
From S2P Require Import Prelude.

(** * Pixels *)

(** A signed bit field of a little-endian word. *)
Definition bit_field (w off len : Z) : Z :=
  let v := Z.shiftr w off mod 2 ^ len in if v <? 2 ^ (len - 1) then v else v - 2 ^ len.

(** Assigning to a [char] and shifting it. *)
Definition scale (v n : Z) : Z := u8 (Z.shiftl (u8 v) n).

Definition px_rgb565 (p : list Z) : list Z :=
  let w := Z.lor (get p 0) (Z.shiftl (get p 1) 8) in
  [scale (bit_field w 11 5) 3; scale (bit_field w 5 6) 2; scale (bit_field w 0 5) 3].
Definition px_argb8888 (p : list Z) : list Z := [get p 1; get p 2; get p 3].
Definition px_abgr8888 (p : list Z) : list Z := [get p 3; get p 2; get p 1].
Definition px_bgra8888 (p : list Z) : list Z := [get p 2; get p 1; get p 0].
Definition px_rgba8888 (p : list Z) : list Z := [get p 0; get p 1; get p 2].

(** The loop of each conversion: [n] pixels of [sz] bytes to the buffer [dst]. *)
Fixpoint convert (sz : nat) (px : list Z -> list Z) (n : nat) (src dst : list Z) : outcome (list Z) :=
  match n with
  | O => Ret dst
  | S n =>
      if (length src <? sz)%nat || (length dst <? 3)%nat then Fault
      else let! rest := convert sz px n (skipn sz src) (skipn 3 dst) in Ret (px (firstn sz src) ++ rest)
  end.

(** The result and the buffer. *)
Definition converted (m : outcome (list Z)) : outcome (Z * list Z) := let! d := m in Ret (0, d).
Definition rgb565_to_rgb888 (src dst : list Z) (pixel : nat) : outcome (Z * list Z) := converted (convert 2 px_rgb565 pixel src dst).
Definition argb8888_to_rgb888 (src dst : list Z) (pixel : nat) : outcome (Z * list Z) := converted (convert 4 px_argb8888 pixel src dst).
Definition abgr8888_to_rgb888 (src dst : list Z) (pixel : nat) : outcome (Z * list Z) := converted (convert 4 px_abgr8888 pixel src dst).
Definition bgra8888_to_rgb888 (src dst : list Z) (pixel : nat) : outcome (Z * list Z) := converted (convert 4 px_bgra8888 pixel src dst).
Definition rgba8888_to_rgb888 (src dst : list Z) (pixel : nat) : outcome (Z * list Z) := converted (convert 4 px_rgba8888 pixel src dst).

(** * The frame buffer *)

Record fb := mkFb {
  bpp : Z; size : Z; width : Z; height : Z;
  red_offset : Z; red_length : Z; blue_offset : Z; blue_length : Z;
  green_offset : Z; green_length : Z; alpha_offset : Z; alpha_length : Z;
  data : list Z
}.

Inductive format := FB_FORMAT_UNKNOWN | FB_FORMAT_RGB565 | FB_FORMAT_ARGB8888 | FB_FORMAT_RGBA8888 | FB_FORMAT_ABGR8888 | FB_FORMAT_BGRA8888.
Definition FB_FORMAT_RGBX8888 : format := FB_FORMAT_RGBA8888.

Definition fb_get_format (f : fb) : format :=
  let ao := alpha_offset f in
  let ro := red_offset f in
  let go := green_offset f in
  let bo := blue_offset f in
  if bpp f =? 16 then FB_FORMAT_RGB565
  else if (ao =? 0) && (ro =? 8) then FB_FORMAT_ARGB8888
  else if (ao =? 0) && (ro =? 24) && (go =? 16) && (bo =? 8) then FB_FORMAT_RGBX8888
  else if (ao =? 0) && (bo =? 8) then FB_FORMAT_ABGR8888
  else if ro =? 0 then FB_FORMAT_RGBA8888
  else if bo =? 0 then FB_FORMAT_BGRA8888
  else FB_FORMAT_UNKNOWN.

(** * Writing the image *)

(** One stream open for writing: opening gives [errno], 0 when it is open; writing gives
    the number of bytes taken. *)
Class Stream (F : Type) := {
  fopen_w : list Z -> F -> Z * F;
  fwrite : list Z -> F -> nat * F;
  fclose_w : F -> F
}.

Section Save.
Context {F : Type} `{Stream F}.

(** What fresh memory of a size holds; whether libpng allocates its two structures; the
    pieces of the file for a width, a height and the rows, or [None] when libpng gives up,
    which ends the program. *)
Context (memory : Z -> list Z) (create_write create_info : bool) (encode : Z -> Z -> list (list Z) -> option (list (list Z))).

(** Until everything is written, whatever errors there are. *)
Fixpoint stdio_write_func (fuel : nat) (bs : list Z) (f : F) : option F :=
  match fuel with
  | O => None
  | S fuel => match bs with [] => Some f | _ => let '(k, f) := fwrite bs f in stdio_write_func fuel (skipn k bs) f end
  end.

Fixpoint write_pieces (fuel : nat) (ps : list (list Z)) (f : F) : option F :=
  match ps with
  | [] => Some f
  | p :: ps => match stdio_write_func fuel p f with None => None | Some f => write_pieces fuel ps f end
  end.

(** Row [i]; the offset is an [int]. *)
Definition row_at (d : list Z) (w i : Z) : outcome (list Z) :=
  let off := i32 (i32 (i * w) * 3) in
  if (0 <=? off) && (off + 3 * w <=? Z.of_nat (length d)) then Ret (firstn (Z.to_nat (3 * w)) (skipn (Z.to_nat off) d)) else Fault.

Fixpoint rows_from (d : list Z) (w : Z) (i n : nat) : outcome (list (list Z)) :=
  match n with
  | O => Ret []
  | S n => let! r := row_at d w (Z.of_nat i) in let! rs := rows_from d w (S i) n in Ret (r :: rs)
  end.

Definition save_png (fuel : nat) (path d : list Z) (w h : Z) (f : F) : M (Z * F) :=
  let '(errsv, f) := fopen_w path f in
  if negb (errsv =? 0) then ret (errsv, f)
  else if negb (create_write && create_info) then ret (-1, fclose_w f)
  else
    do! rows := lift (rows_from d w 0 (Z.to_nat h)) in
    match encode w h rows with
    | None => Some Fault
    | Some ps => match write_pieces fuel ps f with None => None | Some f => ret (0, fclose_w f) end
    end.

(** The products are taken modulo 2^32. *)
Definition fb_save_png (fuel : nat) (b : fb) (path : list Z) (f : F) : M (Z * F) :=
  let rgb_matrix := memory (u32 (u32 (width b * height b) * 3)) in
  let pixel := Z.to_nat (u32 (width b * height b)) in
  do! r := lift (match fb_get_format b with
                 | FB_FORMAT_RGB565 => rgb565_to_rgb888 (data b) rgb_matrix pixel
                 | FB_FORMAT_ARGB8888 => argb8888_to_rgb888 (data b) rgb_matrix pixel
                 | FB_FORMAT_ABGR8888 => abgr8888_to_rgb888 (data b) rgb_matrix pixel
                 | FB_FORMAT_BGRA8888 => bgra8888_to_rgb888 (data b) rgb_matrix pixel
                 | FB_FORMAT_RGBA8888 => rgba8888_to_rgb888 (data b) rgb_matrix pixel
                 | FB_FORMAT_UNKNOWN => Ret (-1, rgb_matrix)
                 end) in
  let '(r, rgb_matrix) := r in
  if negb (r =? 0) then ret (r, f) else save_png fuel path rgb_matrix (i32 (width b)) (i32 (height b)) f.
End Save.

(** * The image by the offsets and lengths of the colours *)

Definition pixel_value (p : list Z) : Z := foldr (fun b acc => b + 256 * acc) 0 p.

(** The bits of a colour, as the upper bits of a byte. *)
Definition channel (v off len : Z) : Z := (Z.shiftr v off mod 2 ^ len) * 2 ^ (8 - len).

Definition reference_pixel (b : fb) (p : list Z) : list Z :=
  let v := pixel_value p in
  [channel v (red_offset b) (red_length b); channel v (green_offset b) (green_length b); channel v (blue_offset b) (blue_length b)].

Fixpoint chunks (sz n : nat) (l : list Z) : list (list Z) :=
  match n with O => [] | S n => firstn sz l :: chunks sz n (skipn sz l) end.

Definition reference_image (b : fb) : list Z :=
  concat (map (reference_pixel b) (chunks (Z.to_nat (bpp b / 8)) (Z.to_nat (width b * height b)) (data b))).

(** The layouts that the kernel uses for the formats. *)
Inductive standard (b : fb) : Prop :=
| std_rgb565 : bpp b = 16 -> red_offset b = 11 -> red_length b = 5 -> green_offset b = 5 -> green_length b = 6 -> blue_offset b = 0 -> blue_length b = 5 -> standard b
| std_argb : bpp b = 32 -> alpha_offset b = 0 -> red_offset b = 8 -> red_length b = 8 -> green_offset b = 16 -> green_length b = 8 -> blue_offset b = 24 -> blue_length b = 8 -> standard b
| std_rgba : bpp b = 32 -> red_offset b = 0 -> red_length b = 8 -> green_offset b = 8 -> green_length b = 8 -> blue_offset b = 16 -> blue_length b = 8 -> standard b
| std_bgra : bpp b = 32 -> red_offset b = 16 -> red_length b = 8 -> green_offset b = 8 -> green_length b = 8 -> blue_offset b = 0 -> blue_length b = 8 -> standard b.

Lemma chunks_length sz n : forall l, length (chunks sz n l) = n.
Proof. induction n as [|n IH]; intros l; [reflexivity|]. cbn. now rewrite IH. Qed.

Lemma chunks_each sz n : forall l, (sz * n <= length l)%nat -> bytes l -> Forall (fun p => length p = sz /\ bytes p) (chunks sz n l).
Proof.
  induction n as [|n IH]; intros l Hl Hb; [constructor|]. cbn [chunks]. constructor.
  - split; [rewrite length_firstn; lia|now apply Forall_take].
  - apply IH; [rewrite length_skipn; lia|now apply Forall_drop].
Qed.

Lemma convert_spec sz px n : forall src dst, (sz * n <= length src)%nat -> length dst = (3 * n)%nat ->
  convert sz px n src dst = Ret (concat (map px (chunks sz n src))).
Proof.
  induction n as [|n IH]; intros src dst Hs Hd; cbn [convert chunks map concat].
  - now destruct dst; [|cbn in Hd; lia].
  - rewrite (proj2 (Nat.ltb_ge _ _)), (proj2 (Nat.ltb_ge _ _)) by lia. cbn [orb].
    now rewrite IH by (rewrite length_skipn; lia).
Qed.

Lemma pixel_byte p : forall i, bytes p -> (i < length p)%nat -> Z.shiftr (pixel_value p) (8 * Z.of_nat i) mod 2 ^ 8 = get p i.
Proof.
  induction p as [|a p IH]; intros [|i] Hb Hi; cbn [length] in Hi; try lia; inversion Hb as [|? ? Ha Hp]; subst; cbn [pixel_value foldr].
  - change (8 * Z.of_nat 0) with 0. rewrite Z.shiftr_0_r. change (get (a :: p) 0) with a. unfold word in Ha. fold (pixel_value p).
    rewrite Z.mul_comm. change (2 ^ 8) with 256 in *. rewrite Z.mod_add by lia. now apply Z.mod_small.
  - change (get (a :: p) (S i)) with (get p i). rewrite <- IH by (auto; lia). f_equal. fold (pixel_value p).
    replace (8 * Z.of_nat (S i)) with (8 + 8 * Z.of_nat i) by lia. rewrite <- Z.shiftr_shiftr by lia. f_equal.
    rewrite Z.shiftr_div_pow2 by lia. unfold word in Ha. change (2 ^ 8) with 256 in *. rewrite Z.mul_comm, Z.div_add by lia. rewrite Z.div_small; lia.
Qed.

Lemma channel_byte p i : bytes p -> (i < length p)%nat -> channel (pixel_value p) (8 * Z.of_nat i) 8 = get p i.
Proof. intros Hb Hi. unfold channel. rewrite pixel_byte by assumption. change (2 ^ (8 - 8)) with 1. lia. Qed.

Lemma scale_field w off len : 0 < len <= 8 -> scale (bit_field w off len) (8 - len) = channel w off len.
Proof.
  intros Hl. unfold scale, bit_field, channel. set (v := Z.shiftr w off mod 2 ^ len).
  assert (Hv : 0 <= v < 2 ^ len) by (apply Z.mod_pos_bound, Z.pow_pos_nonneg; lia).
  assert (Hp : 2 ^ len * 2 ^ (8 - len) = 2 ^ 8) by (rewrite <- Z.pow_add_r by lia; f_equal; lia).
  assert (Hk : 0 < 2 ^ (8 - len)) by (apply Z.pow_pos_nonneg; lia).
  rewrite Z.shiftl_mul_pow2 by lia. unfold u8. rewrite Zmult_mod_idemp_l.
  destruct (v <? 2 ^ (len - 1)); [apply Z.mod_small; nia|].
  replace ((v - 2 ^ len) * 2 ^ (8 - len)) with (v * 2 ^ (8 - len) + (-1) * 2 ^ 8) by (rewrite <- Hp; ring).
  rewrite Z.mod_add by lia. apply Z.mod_small. nia.
Qed.

Lemma four_bytes (p : list Z) : length p = 4%nat -> exists a b c d, p = [a; b; c; d].
Proof. intros Hl. destruct p as [|a [|b [|c [|d [|e p]]]]]; try discriminate. eauto. Qed.

(** Each conversion takes the colours from where the layout has them. *)
Lemma px_rgb565_spec b p : bpp b = 16 -> red_offset b = 11 -> red_length b = 5 -> green_offset b = 5 -> green_length b = 6 -> blue_offset b = 0 -> blue_length b = 5 ->
  length p = 2%nat /\ bytes p -> px_rgb565 p = reference_pixel b p.
Proof.
  intros _ E1 E2 E3 E4 E5 E6 [Hl Hb]. destruct p as [|a [|c [|? ?]]]; try discriminate. inversion Hb as [|? ? Ha Hb']; subst. inversion Hb' as [|? ? Hc _]; subst.
  unfold px_rgb565, reference_pixel. change (get [a; c] 0) with a. change (get [a; c] 1) with c.
  assert (E : Z.lor a (Z.shiftl c 8) = pixel_value [a; c]).
  { unfold word in *. rewrite Z.lor_comm, lor_shl_add by lia. cbn [pixel_value foldr]. lia. }
  rewrite E, E1, E2, E3, E4, E5, E6. change 3 with (8 - 5) at 1. change 2 with (8 - 6) at 1. change 3 with (8 - 5) at 1. now rewrite !scale_field by lia.
Qed.

Lemma reference_8888 b p i j k : length p = 4%nat /\ bytes p -> (i < 4)%nat -> (j < 4)%nat -> (k < 4)%nat ->
  red_offset b = 8 * Z.of_nat i -> red_length b = 8 -> green_offset b = 8 * Z.of_nat j -> green_length b = 8 -> blue_offset b = 8 * Z.of_nat k -> blue_length b = 8 ->
  reference_pixel b p = [get p i; get p j; get p k].
Proof.
  intros [Hl Hb] Hi Hj Hk E1 E2 E3 E4 E5 E6. apply four_bytes in Hl as (a & c & d & e & ->).
  unfold reference_pixel. rewrite E1, E2, E3, E4, E5, E6. now rewrite !channel_byte by (assumption || (cbn; lia)).
Qed.

(** The conversion that is chosen gives the reference image. *)
Lemma converted_reference sz px b m : (sz = Z.to_nat (bpp b / 8))%nat ->
  (forall p, length p = sz /\ bytes p -> px p = reference_pixel b p) ->
  (sz * Z.to_nat (width b * height b) <= length (data b))%nat -> bytes (data b) -> length m = (3 * Z.to_nat (width b * height b))%nat ->
  converted (convert sz px (Z.to_nat (width b * height b)) (data b) m) = Ret (0, reference_image b).
Proof.
  intros -> Hpx Hd Hb Hm. rewrite convert_spec by assumption. cbn. unfold reference_image. do 3 f_equal.
  apply map_ext_Forall. eapply Forall_impl; [apply chunks_each; eassumption|exact Hpx].
Qed.

(** * Saving *)

(** [writing f n o]: the stream is open on [n] and has taken [o].  A call of [fwrite] takes
    at least one byte, not always all of them. *)
Class StreamLaws (F : Type) `{Stream F} := {
  stored : F -> list Z -> option (list Z);
  can_create : F -> list Z -> Prop;
  writing : F -> list Z -> list Z -> Prop;
  fopen_w_ok f n : can_create f n -> exists f', fopen_w n f = (0, f') /\ writing f' n [];
  fwrite_ok f n o bs : writing f n o -> bs <> [] -> exists k f', fwrite bs f = (k, f') /\ (1 <= k <= length bs)%nat /\ writing f' n (o ++ firstn k bs);
  fclose_w_ok f n o : writing f n o -> stored (fclose_w f) n = Some o
}.

(** libpng stores the rows of an image without a loss. *)
Class Lossless (encode : Z -> Z -> list (list Z) -> option (list (list Z))) (decode : list Z -> option (Z * Z * list Z)) : Prop := {
  encode_ok w h rows : 0 < w -> 0 < h -> Z.of_nat (length rows) = h -> Forall (fun r => Z.of_nat (length r) = 3 * w) rows ->
    exists ps, encode w h rows = Some ps /\ decode (concat ps) = Some (w, h, concat rows)
}.

Section Saved.
Context {F : Type} `{StreamLaws F} (encode : Z -> Z -> list (list Z) -> option (list (list Z))) (decode : list Z -> option (Z * Z * list Z)) `{!Lossless encode decode}.
Context (memory : Z -> list Z) (Hmemory : forall n, 0 <= n -> length (memory n) = Z.to_nat n).

Lemma stdio_write_all fuel : forall bs f n o, writing f n o -> (length bs < fuel)%nat ->
  exists f', stdio_write_func fuel bs f = Some f' /\ writing f' n (o ++ bs).
Proof.
  induction fuel as [|fuel IH]; intros bs f n o Hw Hf; [lia|]. cbn [stdio_write_func].
  destruct bs as [|b bs]; [exists f; rewrite app_nil_r; auto|]. remember (b :: bs) as l eqn:El. assert (Hne : l <> []) by now subst.
  destruct (fwrite_ok f n o l Hw Hne) as (k & f1 & -> & Hk & Hw1).
  destruct (IH (skipn k l) f1 n _ Hw1) as (f2 & E & Hw2); [rewrite length_skipn; lia|].
  exists f2. split; [exact E|]. now rewrite <- app_assoc, firstn_skipn in Hw2.
Qed.

Lemma write_pieces_all ps : forall fuel f n o, writing f n o -> Forall (fun p => length p < fuel)%nat ps ->
  exists f', write_pieces fuel ps f = Some f' /\ writing f' n (o ++ concat ps).
Proof.
  induction ps as [|p ps IH]; intros fuel f n o Hw Hf; cbn [write_pieces concat]; [exists f; rewrite app_nil_r; auto|].
  inversion Hf as [|? ? Hp Hps]; subst. destruct (stdio_write_all fuel p f n o Hw Hp) as (f1 & -> & Hw1).
  destruct (IH fuel f1 n _ Hw1 Hps) as (f2 & E & Hw2). exists f2. split; [exact E|]. now rewrite <- app_assoc in Hw2.
Qed.

Lemma longest (ps : list (list Z)) : exists n, Forall (fun p => length p < n)%nat ps.
Proof.
  induction ps as [|p ps [n Hn]]; [exists O; constructor|]. exists (S (length p + n)). constructor; [lia|].
  eapply Forall_impl; [exact Hn|]. cbn. lia.
Qed.

Lemma rows_all d w n : forall i, 0 < w -> Z.of_nat (length d) < 2 ^ 31 -> (3 * Z.to_nat w * (i + n) = length d)%nat ->
  exists rows, rows_from d w i n = Ret rows /\ length rows = n /\ Forall (fun r => Z.of_nat (length r) = 3 * w) rows /\ concat rows = skipn (3 * Z.to_nat w * i) d.
Proof.
  induction n as [|n IH]; intros i Hw Hd Hl; cbn [rows_from].
  - exists []. repeat split; [constructor|]. cbn. symmetry. apply skipn_all2. lia.
  - destruct (IH (S i) Hw Hd ltac:(lia)) as (rows & E & Hn & Hr & Hc). unfold row_at.
    assert (HZ : 3 * (Z.of_nat i * w) + 3 * w * Z.of_nat (S n) = Z.of_nat (length d)) by (rewrite <- Hl, !Nat2Z.inj_mul, Nat2Z.inj_add, Z2Nat.id by lia; ring).
    assert (Hp : 0 <= Z.of_nat i * w /\ 3 * w <= 3 * w * Z.of_nat (S n)) by (split; nia).
    assert (Hi : i32 (i32 (Z.of_nat i * w) * 3) = 3 * w * Z.of_nat i) by (rewrite (i32_small (Z.of_nat i * w)), i32_small; lia).
    rewrite Hi, (proj2 (Z.leb_le 0 _)), (proj2 (Z.leb_le _ _)) by lia. cbn [andb bind]. rewrite E. cbn [bind].
    eexists. split; [reflexivity|]. split; [cbn; now rewrite Hn|]. split.
    + constructor; [|exact Hr]. rewrite length_firstn, length_skipn. lia.
    + cbn [concat]. rewrite Hc. replace (Z.to_nat (3 * w * Z.of_nat i)) with (3 * Z.to_nat w * i)%nat by nia.
      replace (3 * Z.to_nat w * S i)%nat with (Z.to_nat (3 * w) + 3 * Z.to_nat w * i)%nat by nia. rewrite <- skipn_skipn. apply firstn_skipn.
Qed.

Lemma save_png_spec path d w h f : can_create f path -> 0 < w -> 0 < h -> Z.of_nat (length d) = 3 * w * h -> 3 * w * h < 2 ^ 31 ->
  exists n, forall fuel, (n <= fuel)%nat -> exists f' file, save_png true true encode fuel path d w h f = ret (0, f') /\
    stored f' path = Some file /\ decode file = Some (w, h, d).
Proof.
  intros Hc Hw Hh Hl Hs. destruct (rows_all d w (Z.to_nat h) 0 Hw ltac:(lia) ltac:(nia)) as (rows & E & Hn & Hr & Hcat).
  destruct (encode_ok w h rows Hw Hh ltac:(lia) Hr) as (ps & Ep & Ed). destruct (longest ps) as [n Hps]. exists n. intros fuel Hf.
  unfold save_png. destruct (fopen_w_ok f path Hc) as (f1 & -> & Hw1). cbn [negb Z.eqb andb]. rewrite E. cbn [bindM lift]. rewrite Ep.
  destruct (write_pieces_all ps fuel f1 path [] Hw1) as (f2 & -> & Hw2); [eapply Forall_impl; [exact Hps|cbn; lia]|].
  exists (fclose_w f2), (concat ps). split; [reflexivity|]. split; [now apply fclose_w_ok|]. rewrite Ed, Hcat. now rewrite Nat.mul_0_r.
Qed.

Lemma format_of b : standard b ->
  (fb_get_format b = FB_FORMAT_RGB565 /\ bpp b = 16 /\ forall p, length p = 2%nat /\ bytes p -> px_rgb565 p = reference_pixel b p) \/
  bpp b = 32 /\
  ((fb_get_format b = FB_FORMAT_ARGB8888 /\ forall p, length p = 4%nat /\ bytes p -> px_argb8888 p = reference_pixel b p) \/
   (fb_get_format b = FB_FORMAT_RGBA8888 /\ forall p, length p = 4%nat /\ bytes p -> px_rgba8888 p = reference_pixel b p) \/
   (fb_get_format b = FB_FORMAT_BGRA8888 /\ forall p, length p = 4%nat /\ bytes p -> px_bgra8888 p = reference_pixel b p)).
Proof.
  unfold fb_get_format. destruct 1 as [E|E Ea Er|E Er ? Eg ? Eb|E Er ? Eg ? Eb].
  - left. rewrite E. repeat split. intros p. now apply px_rgb565_spec.
  - right. split; [exact E|]. left. rewrite E, Ea, Er. split; [reflexivity|]. intros p Hp. symmetry. now apply (reference_8888 b p 1 2 3); try lia.
  - right. split; [exact E|]. right; left. rewrite E, Er, Eg, Eb. cbn. rewrite !andb_false_r. split; [reflexivity|]. intros p Hp. symmetry. now apply (reference_8888 b p 0 1 2); try lia.
  - right. split; [exact E|]. right; right. rewrite E, Er, Eg, Eb. cbn. rewrite !andb_false_r. split; [reflexivity|]. intros p Hp. symmetry. now apply (reference_8888 b p 2 1 0); try lia.
Qed.

(** A frame buffer in a standard layout is saved as the image that its offsets and
    lengths describe. *)
Lemma fb_save_png_spec b path f : standard b -> 0 < width b -> 0 < height b -> 3 * width b * height b < 2 ^ 31 ->
  Z.of_nat (length (data b)) = bpp b / 8 * (width b * height b) -> bytes (data b) -> can_create f path ->
  exists n, forall fuel, (n <= fuel)%nat -> exists f' file, fb_save_png memory true true encode fuel b path f = ret (0, f') /\
    stored f' path = Some file /\ decode file = Some (width b, height b, reference_image b).
Proof.
  intros Hs Hw Hh Hsz Hd Hb Hc. assert (Hwh : 0 < width b * height b) by nia.
  assert (Hu : u32 (width b * height b) = width b * height b) by (apply u32_small; lia).
  set (m := memory (u32 (u32 (width b * height b) * 3))). assert (Hm : length m = (3 * Z.to_nat (width b * height b))%nat).
  { unfold m. rewrite Hu, (u32_small (_ * 3)), Hmemory by lia. lia. }
  assert (Hl : Z.of_nat (length (reference_image b)) = 3 * width b * height b).
  { unfold reference_image. transitivity (Z.of_nat (3 * Z.to_nat (width b * height b))); [|lia].
    rewrite <- (chunks_length (Z.to_nat (bpp b / 8)) (Z.to_nat (width b * height b)) (data b)) at 2. f_equal.
    induction (chunks _ _ _) as [|c cs IH]; [reflexivity|]. cbn [map concat]. rewrite length_app, IH. cbn. lia. }
  destruct (save_png_spec path (reference_image b) (width b) (height b) f Hc Hw Hh Hl Hsz) as [n Hn]. exists n. intros fuel Hf.
  destruct (Hn fuel Hf) as (f' & file & E & Hst & Hdec). exists f', file. split; [|auto]. unfold fb_save_png. fold m. rewrite Hu, !i32_small by nia.
  assert (Hcv : forall sz px, sz = Z.to_nat (bpp b / 8) -> (forall p, length p = sz /\ bytes p -> px p = reference_pixel b p) ->
    converted (convert sz px (Z.to_nat (width b * height b)) (data b) m) = Ret (0, reference_image b)).
  { intros sz px -> Hpx. apply converted_reference; auto. nia. }
  destruct (format_of b Hs) as [(-> & E16 & Hpx)|(E32 & [[-> Hpx]|[[-> Hpx]|[-> Hpx]]])].
  all: unfold rgb565_to_rgb888, argb8888_to_rgb888, rgba8888_to_rgb888, bgra8888_to_rgb888.
  all: rewrite Hcv by (exact Hpx || (first [rewrite E16|rewrite E32]; reflexivity)); exact E.
Qed.
End Saved.

(** * Buffers that do not fit *)

Lemma convert_fault sz px n : forall src dst, (0 < sz)%nat -> (length src < sz * n \/ length dst < 3 * n)%nat -> convert sz px n src dst = Fault.
Proof.
  induction n as [|n IH]; intros src dst Hsz Hl; [lia|]. cbn [convert]. destruct (Nat.ltb_spec (length src) sz), (Nat.ltb_spec (length dst) 3); try reflexivity.
  cbn [orb]. rewrite IH; [reflexivity|exact Hsz|]. rewrite !length_skipn. lia.
Qed.

Section Overruns.
Context {F : Type} `{Stream F} (memory : Z -> list Z) (Hmemory : forall n, 0 <= n -> length (memory n) = Z.to_nat n).
Context (create_write create_info : bool) (encode : Z -> Z -> list (list Z) -> option (list (list Z))).

Lemma save_fault fuel b path (f : F) : fb_get_format b <> FB_FORMAT_UNKNOWN ->
  (forall sz px, (2 <= sz)%nat -> (bpp b <> 16 -> sz = 4%nat) -> convert sz px (Z.to_nat (u32 (width b * height b))) (data b) (memory (u32 (u32 (width b * height b) * 3))) = Fault) ->
  fb_save_png memory create_write create_info encode fuel b path f = Some Fault.
Proof.
  intros Hk Hc. unfold fb_save_png, rgb565_to_rgb888, argb8888_to_rgb888, abgr8888_to_rgb888, rgba8888_to_rgb888, bgra8888_to_rgb888.
  destruct (fb_get_format b) eqn:E; try contradiction; rewrite Hc by (lia || (intros Hb; revert E; unfold fb_get_format; rewrite (proj2 (Z.eqb_neq _ _) Hb); repeat case_match; discriminate)); reflexivity.
Qed.

(** The size of the matrix is computed modulo 2^32, the number of pixels is not. *)
Lemma matrix_overflow fuel b path (f : F) : fb_get_format b <> FB_FORMAT_UNKNOWN -> 0 <= width b * height b < 2 ^ 32 -> 2 ^ 32 <= 3 * (width b * height b) ->
  fb_save_png memory create_write create_info encode fuel b path f = Some Fault.
Proof.
  intros Hk Hlt Hge. apply save_fault; [exact Hk|]. intros sz px Hsz _. apply convert_fault; [lia|]. right. rewrite (u32_small (width b * height b)) by exact Hlt.
  pose proof (u32_range (width b * height b * 3)) as Hr. unfold word in Hr. rewrite Hmemory by lia. lia.
Qed.

(** Every format but the first takes four bytes for a pixel, also where a pixel has
    three. *)
Lemma three_bytes_overread fuel b path (f : F) : fb_get_format b <> FB_FORMAT_UNKNOWN -> bpp b = 24 -> 0 < width b * height b < 2 ^ 32 ->
  Z.of_nat (length (data b)) = 3 * (width b * height b) -> fb_save_png memory create_write create_info encode fuel b path f = Some Fault.
Proof.
  intros Hk Hb Hlt Hd. apply save_fault; [exact Hk|]. intros sz px Hsz H4. specialize (H4 ltac:(lia)). subst sz.
  apply convert_fault; [lia|]. left. rewrite u32_small by lia. lia.
Qed.

(** When the file cannot take any more, the loop of the write function does not end. *)
Lemma full_disk_loops fuel : forall bs (f : F), (forall l, fwrite l f = (O, f)) -> bs <> [] -> stdio_write_func fuel bs f = None.
Proof. induction fuel as [|fuel IH]; intros [|b bs] f Hw Hne; try reflexivity; [contradiction|]. cbn [stdio_write_func]. rewrite Hw. cbn [skipn]. now apply IH. Qed.
End Overruns.

(** The layout with alpha, blue, green and red from the lowest byte up is taken for
    RGBX: the alpha byte becomes red. *)
Lemma abgr_is_rgbx b : bpp b = 32 -> alpha_offset b = 0 -> blue_offset b = 8 -> green_offset b = 16 -> red_offset b = 24 -> fb_get_format b = FB_FORMAT_RGBA8888.
Proof. intros E1 E2 E3 E4 E5. unfold fb_get_format. now rewrite E1, E2, E3, E4, E5. Qed.
