(* ===== verification/Fb2png.v ===== *)
(** Screenshots: src/fb2png/fb2png.c, fb2png_main.c and main.c.

    The frame buffer device is the interface [Screen].  Sizes are unsigned numbers of 32
    bits; a division by zero and an access outside a buffer are a [Fault].  Messages are
    not modelled. *)
From Stdlib Require Import String.
From stdpp Require Import list.
From S2P Require Import Prelude CString MtdScan Fb.

(** What the two calls of [ioctl] give. *)
Record fb_bitfield := mkField { offset : Z; field_length : Z }.
Record fb_var_screeninfo := mkVar {
  xres : Z; yres : Z; yoffset : Z; bits_per_pixel : Z; red : fb_bitfield; green : fb_bitfield; blue : fb_bitfield; transp : fb_bitfield
}.
Record fb_fix_screeninfo := mkFix { id : list Z; smem_len : Z; line_length : Z }.

(** Opening the device, the two calls of [ioctl], moving and reading, closing.  Reading
    gives its result and the bytes. *)
Class Screen (F : Type) := {
  screen_stream :: Stream F;
  open_fb : list Z -> F -> bool * F;
  get_vinfo : F -> option fb_var_screeninfo;
  get_finfo : F -> option fb_fix_screeninfo;
  lseek_fb : Z -> F -> F;
  read_fb : Z -> F -> Z * list Z * F;
  close_fb : F -> F
}.

(** The variables of the program. *)
Record globals := mkGlobals { user_set_buffers_num : Z; overlay_supported : Z }.
Definition initial_globals : globals := mkGlobals (-1) 0.

Definition MAX_ALLOWED_FB_BUFFERS : Z := 3.
Definition MDP_V4_0 : Z := 400.

(** The number at the start of a string, 0 when there is none; one that does not fit an
    [int] is undefined. *)
Definition atoi (s : list Z) : outcome Z := let! r := conv_d s in Ret (match r with Some (v, _) => v | None => 0 end).

Definition device_target_has_overlay (version : list Z) (g : globals) : outcome (Z * globals) :=
  let found := mkGlobals (user_set_buffers_num g) 1 in
  let! g := (if (8 <=? length version)%nat then
               match literal (str "msmfb") version with
               | Some rest => let! mdp_version := atoi (firstn 3 rest) in Ret (if MDP_V4_0 <=? mdp_version then found else g)
               | None => Ret (match literal (str "mdssfb") version with Some _ => found | None => g end)
               end
             else Ret g) in
  Ret (overlay_supported g, g).

(** * Reading the frame buffer *)

(** The loop that drops the padding at the end of each line: [praw] and [pdata] are
    positions in the two buffers. *)
Fixpoint copy_lines (fuel : nat) (raw : list Z) (row line raw_end data_end praw pdata : Z) (d : list Z) : M (list Z) :=
  match fuel with
  | O => None
  | S fuel =>
      if (praw <? raw_end) && (pdata <? data_end) then
        if (praw + row <=? Z.of_nat (length raw)) && (pdata + row <=? Z.of_nat (length d))
        then copy_lines fuel raw row line raw_end data_end (praw + line) (pdata + row)
               (blit d (Z.to_nat pdata) (firstn (Z.to_nat row) (skipn (Z.to_nat praw) raw)))
        else Some Fault
      else ret d
  end.

(** The buffer that is shown: set by the user, or from the offset of the screen. *)
Definition num_buffers (g : globals) (v : fb_var_screeninfo) : outcome Z :=
  let n := user_set_buffers_num g in
  if n <? 0 then
    if yres v =? 0 then Fault
    else let n := i32 (yoffset v / yres v) in Ret (if MAX_ALLOWED_FB_BUFFERS <? n then 0 else n)
  else Ret n.

Section Device.
Context {F : Type} `{Screen F} (memory : Z -> list Z).

Definition get_device_fb (path : list Z) (g : globals) (f : F) : M (Z * option fb * globals * F) :=
  let '(ok, f) := open_fb path f in
  if negb ok then ret (-1, None, g, f)
  else
    match get_vinfo f with
    | None => ret (-1, None, g, close_fb f)
    | Some vinfo =>
        match get_finfo f with
        | None => ret (-1, None, g, close_fb f)
        | Some finfo =>
            let bytespp := bits_per_pixel vinfo / 8 in
            let raw_line_length := line_length finfo in
            let raw_size := u32 (yres vinfo * raw_line_length) in
            let size := u32 (u32 (xres vinfo * yres vinfo) * bytespp) in
            let b d := mkFb (bits_per_pixel vinfo) size (xres vinfo) (yres vinfo) (offset (red vinfo)) (field_length (red vinfo))
                         (offset (blue vinfo)) (field_length (blue vinfo)) (offset (green vinfo)) (field_length (green vinfo))
                         (offset (transp vinfo)) (field_length (transp vinfo)) d in
            do! r := lift (device_target_has_overlay (id finfo) g) in
            let '(_, g) := r in
            do! num_buffers := lift (num_buffers g vinfo) in
            let active_buffer_offset := if u32 (raw_size * u32 (num_buffers + 1)) <=? smem_len finfo then u32 (raw_size * num_buffers) else 0 in
            if bytespp =? 0 then Some Fault
            else
              let f := lseek_fb active_buffer_offset f in
              let '(read_size, raw, f) := read_fb raw_size f in
              if (read_size <? 0) || negb (u32 read_size =? raw_size) then ret (-1, None, g, close_fb f)
              else
                let padding_offset := u32 (raw_line_length / bytespp - xres vinfo) in
                if negb (padding_offset =? 0) then
                  let row := u32 (bytespp * xres vinfo) in
                  do! d := copy_lines (S (Z.to_nat (yres vinfo))) raw row raw_line_length (raw_size - raw_line_length) (size - row) 0 0 (memory size) in
                  ret (0, Some (b d), g, close_fb f)
                else ret (0, Some (b raw), g, close_fb f)
        end
    end.

Context (create_write create_info : bool) (encode : Z -> Z -> list (list Z) -> option (list (list Z))) (fuel : nat).

Definition FB_PATH : list Z := str "/dev/graphics/fb0".

Definition fb2png (path : list Z) (g : globals) (f : F) : M (Z * globals * F) :=
  do! r := get_device_fb FB_PATH g f in
  let '(ret_, b, g, f) := r in
  match b with
  | Some b => if negb (ret_ =? 0) then ret (-1, g, f)
              else do! r := fb_save_png memory create_write create_info encode fuel b path f in let '(v, f) := r in ret (v, g, f)
  | None => ret (-1, g, f)
  end.

(** * The program *)

Definition DEFAULT_SAVE_PATH : list Z := str "/data/local/fbdump.png".
Definition PATH_MAX : nat := 4096.
Definition equal (s t : list Z) : bool := strcmp_chars s t =? 0.

(** 1 for an option, -1 for a wrong one or a request for help, 0 for a path. *)
Definition parse_options (option : list Z) (g : globals) : outcome (Z * globals) :=
  match literal (str "-buffer=") option with
  | Some rest =>
      let! value := atoi rest in
      Ret (if (0 <=? value) && (value <=? MAX_ALLOWED_FB_BUFFERS) then (1, mkGlobals value (overlay_supported g)) else (-1, g))
  | None => Ret (if equal option (str "-help") || equal option (str "--help") || equal option (str "-h") then -1 else 0, g)
  end.

(** The arguments up to the path: whether to print the usage, the path, the arguments
    that are left. *)
Fixpoint parse_args (args : list (list Z)) (g : globals) : outcome (bool * option (list Z) * list (list Z) * globals) :=
  match args with
  | [] => Ret (false, None, [], g)
  | a :: args =>
      let! r := parse_options a g in
      let '(v, g) := r in
      if v =? 0 then Ret (false, Some a, args, g)
      else if v <? 0 then Ret (true, None, args, g)
      else parse_args args g
  end.

Definition fb2png_main (argv : list (list Z)) (g : globals) (f : F) : M (Z * globals * F) :=
  do! r := lift (parse_args (tl argv) g) in
  let '(usage, path, rest, g) := r in
  if usage then ret (0, g, f)
  else match argv, rest with
       | _ :: _, [] =>
           let path := match path with Some p => p | None => DEFAULT_SAVE_PATH end in
           if (PATH_MAX <=? length path)%nat then ret (-1, g, f) else fb2png path g f
       | _, _ => ret (0, g, f)
       end.
End Device.

(** * Dropping the padding *)

Lemma copy_lines_spec raw row line h j : forall k d fuel, (0 < row)%nat -> (row <= line)%nat -> length raw = (h * line)%nat -> length d = (h * row)%nat ->
  (j + k + 1 = h)%nat -> (j < fuel)%nat ->
  copy_lines fuel raw (Z.of_nat row) (Z.of_nat line) (Z.of_nat ((h - 1) * line)) (Z.of_nat ((h - 1) * row)) (Z.of_nat (k * line)) (Z.of_nat (k * row)) d =
  ret (firstn (k * row) d ++ concat (map (firstn row) (chunks line j (skipn (k * line) raw))) ++ skipn ((h - 1) * row) d).
Proof.
  induction j as [|j IH]; intros k d fuel Hr Hl Hraw Hd Hk Hf; (destruct fuel as [|fuel]; [lia|]); cbn [copy_lines chunks map concat].
  - rewrite (proj2 (Z.ltb_ge _ _)) by nia. cbn [andb app]. replace (h - 1)%nat with k by lia. now rewrite firstn_skipn.
  - rewrite (proj2 (Z.ltb_lt _ _)), (proj2 (Z.ltb_lt _ _)), (proj2 (Z.leb_le _ _)), (proj2 (Z.leb_le _ _)) by nia. cbn [andb].
    rewrite !Nat2Z.id. set (piece := firstn row (skipn (k * line) raw)).
    assert (Hp : length piece = row) by (unfold piece; rewrite length_firstn, length_skipn; nia).
    replace (Z.of_nat (k * line) + Z.of_nat line) with (Z.of_nat (S k * line)) by lia.
    replace (Z.of_nat (k * row) + Z.of_nat row) with (Z.of_nat (S k * row)) by lia.
    rewrite IH; [|exact Hr|exact Hl|exact Hraw|rewrite blit_length; [exact Hd|rewrite Hp; nia]|lia|lia].
    replace (S k * row)%nat with (k * row + length piece)%nat by lia. rewrite blit_firstn, skipn_blit_after by (rewrite Hp; nia).
    rewrite skipn_skipn. replace (line + k * line)%nat with (S k * line)%nat by lia.
    replace (firstn row (firstn line (skipn (k * line) raw))) with piece by (unfold piece; rewrite firstn_firstn; f_equal; lia).
    now rewrite <- !app_assoc.
Qed.

(** * The picture of the screen *)

(** [screen f = Some (v, i, m)]: the device describes itself by [v] and [i] and its memory
    holds [m]; [opened f m p]: it is open, at the position [p]. *)
Class ScreenLaws (F : Type) `{Screen F} `{!StreamLaws F} := {
  screen : F -> option (fb_var_screeninfo * fb_fix_screeninfo * list Z);
  opened : F -> list Z -> Z -> Prop;
  open_fb_ok f v i m : screen f = Some (v, i, m) -> exists f', open_fb FB_PATH f = (true, f') /\ get_vinfo f' = Some v /\ get_finfo f' = Some i /\
    opened f' m 0 /\ (forall n, can_create f n -> can_create f' n);
  lseek_fb_ok f m p q : opened f m p -> 0 <= q < 2 ^ 31 -> opened (lseek_fb q f) m q /\ (forall n, can_create f n -> can_create (lseek_fb q f) n);
  read_fb_ok f m p n : opened f m p -> 0 <= n -> p + n <= Z.of_nat (length m) ->
    exists f', read_fb n f = (n, firstn (Z.to_nat n) (skipn (Z.to_nat p) m), f') /\ opened f' m (p + n) /\ (forall s, can_create f s -> can_create f' s);
  close_fb_ok f m p n : opened f m p -> can_create f n -> can_create (close_fb f) n
}.

(** The frame buffer with the pixels [d]. *)
Definition fb_of (v : fb_var_screeninfo) (d : list Z) : fb :=
  mkFb (bits_per_pixel v) (xres v * yres v * (bits_per_pixel v / 8)) (xres v) (yres v) (offset (red v)) (field_length (red v))
    (offset (blue v)) (field_length (blue v)) (offset (green v)) (field_length (green v)) (offset (transp v)) (field_length (transp v)) d.

(** A screen in a standard layout, with [pad] pixels after each line, whose memory has
    room for a picture. *)
Record screen_ok (v : fb_var_screeninfo) (i : fb_fix_screeninfo) (m : list Z) (pad : nat) : Prop := {
  ok_layout : standard (fb_of v []);
  ok_x : 0 < xres v;
  ok_y : 0 < yres v;
  ok_offset : 0 <= yoffset v < 2 ^ 31;
  ok_line : line_length i = bits_per_pixel v / 8 * (xres v + Z.of_nat pad);
  ok_image : 4 * (xres v * yres v) < 2 ^ 31;
  ok_raw : 4 * (yres v * line_length i) < 2 ^ 31;
  ok_memory : Z.of_nat (length m) = smem_len i;
  ok_room : yres v * line_length i <= smem_len i;
  ok_bytes : bytes m;
  ok_id : exists o, device_target_has_overlay (id i) initial_globals = Ret o
}.

(** The picture that is shown: the one set by the user or the one at the offset of the
    screen, and the first if there is no room for it. *)
Definition shown (u : Z) (v : fb_var_screeninfo) (i : fb_fix_screeninfo) : Z :=
  let n := if u <? 0 then (if 3 <? yoffset v / yres v then 0 else yoffset v / yres v) else u in
  if yres v * line_length i * (n + 1) <=? smem_len i then n else 0.

(** The lines of a picture, without the padding. *)
Definition screen_lines (v : fb_var_screeninfo) (i : fb_fix_screeninfo) (m : list Z) (n : Z) : list (list Z) :=
  map (firstn (Z.to_nat (bits_per_pixel v / 8 * xres v)))
    (chunks (Z.to_nat (line_length i)) (Z.to_nat (yres v)) (skipn (Z.to_nat (yres v * line_length i * n)) m)).

Section Shot.
Context {F : Type} `{ScreenLaws F} (encode : Z -> Z -> list (list Z) -> option (list (list Z))) (decode : list Z -> option (Z * Z * list Z)) `{!Lossless encode decode}.
Context (memory : Z -> list Z) (Hmemory : forall n, 0 <= n -> length (memory n) = Z.to_nat n) (Hbytes : forall n, bytes (memory n)).

Lemma bytespp_cases v : standard (fb_of v []) -> bits_per_pixel v / 8 = 2 \/ bits_per_pixel v / 8 = 4.
Proof. destruct 1 as [E|E|E|E]; cbn in E; rewrite E; [left|right|right|right]; reflexivity. Qed.

Lemma overlay_user version g o : device_target_has_overlay version initial_globals = Ret o ->
  exists w g', device_target_has_overlay version g = Ret (w, g') /\ user_set_buffers_num g' = user_set_buffers_num g.
Proof.
  unfold device_target_has_overlay. destruct (8 <=? length version)%nat; [|eauto].
  destruct (literal (str "msmfb") version) as [rest|].
  - destruct (atoi (firstn 3 rest)) as [|z]; [discriminate|]. intros _. cbn [bind]. destruct (MDP_V4_0 <=? z); eauto.
  - intros _. destruct (literal (str "mdssfb") version); cbn; eauto.
Qed.

(** Which part of the memory is read. *)
Lemma shown_offset g v i m pad : screen_ok v i m pad -> user_set_buffers_num g <= 3 ->
  exists n, num_buffers g v = Ret n /\ let raw_size := u32 (yres v * line_length i) in
    raw_size = yres v * line_length i /\
    (if u32 (raw_size * u32 (n + 1)) <=? smem_len i then u32 (raw_size * n) else 0) = yres v * line_length i * shown (user_set_buffers_num g) v i /\
    0 <= yres v * line_length i * shown (user_set_buffers_num g) v i < 2 ^ 31 /\
    yres v * line_length i * (shown (user_set_buffers_num g) v i + 1) <= smem_len i.
Proof.
  intros [Hlay Hx Hy Hyo Hline _ Hraw _ Hroom _ _] Hu. set (u := user_set_buffers_num g) in *.
  assert (Hl : 0 < line_length i) by (destruct (bytespp_cases v Hlay) as [E|E]; rewrite Hline, E; lia).
  assert (Hpos : 0 < yres v * line_length i) by nia. set (raw := yres v * line_length i) in *.
  assert (Hq : 0 <= yoffset v / yres v < 2 ^ 31) by (split; [apply Z.div_pos; lia|apply Z.div_lt_upper_bound; nia]).
  set (n := if u <? 0 then (if 3 <? yoffset v / yres v then 0 else yoffset v / yres v) else u).
  assert (Hn : 0 <= n <= 3) by (unfold n; destruct (Z.ltb_spec u 0), (Z.ltb_spec 3 (yoffset v / yres v)); lia).
  exists n. split.
  - unfold num_buffers, MAX_ALLOWED_FB_BUFFERS. fold u. unfold n. destruct (u <? 0); [|reflexivity].
    rewrite (proj2 (Z.eqb_neq _ 0)) by lia. now rewrite i32_small by lia.
  - unfold shown. fold u n raw. cbv zeta. rewrite (u32_small raw), (u32_small (n + 1)), (u32_small (raw * (n + 1))), (u32_small (raw * n)) by nia.
    split; [reflexivity|]. destruct (Z.leb_spec (raw * (n + 1)) (smem_len i)); (split; [nia|]); split; nia.
Qed.

Lemma chunks_take sz j : forall n l, (j <= n)%nat -> firstn j (chunks sz n l) = chunks sz j l.
Proof. induction j as [|j IH]; intros [|n] l Hj; try reflexivity; [lia|]. cbn. now rewrite IH by lia. Qed.

Lemma chunks_firstn sz n : forall k l, (sz * n <= k)%nat -> chunks sz n (firstn k l) = chunks sz n l.
Proof.
  induction n as [|n IH]; intros k l Hk; [reflexivity|]. cbn [chunks]. rewrite firstn_firstn, Nat.min_l by nia. f_equal.
  rewrite skipn_firstn_comm. apply IH. nia.
Qed.

Lemma concat_chunks sz n : forall l, (sz * n <= length l)%nat -> concat (map (firstn sz) (chunks sz n l)) = firstn (sz * n) l.
Proof.
  induction n as [|n IH]; intros l Hl; [now rewrite Nat.mul_0_r|]. cbn [chunks map concat]. rewrite IH by (rewrite length_skipn; nia).
  rewrite firstn_firstn, Nat.min_id. replace (sz * S n)%nat with (sz + sz * n)%nat by lia.
  rewrite <- (firstn_skipn sz (firstn (sz + sz * n) l)), firstn_firstn, skipn_firstn_comm. do 2 f_equal; lia.
Qed.

Lemma lines_length row sz n : forall l, (row <= sz)%nat -> (sz * n <= length l)%nat -> length (concat (map (firstn row) (chunks sz n l))) = (row * n)%nat.
Proof.
  induction n as [|n IH]; intros l Hr Hl; [now rewrite Nat.mul_0_r|]. cbn [chunks map concat].
  rewrite length_app, IH, !length_firstn by (rewrite ?length_skipn; nia). nia.
Qed.

Lemma lines_bytes row sz n : forall l, bytes l -> bytes (concat (map (firstn row) (chunks sz n l))).
Proof.
  induction n as [|n IH]; intros l Hb; [constructor|]. cbn [chunks map concat]. apply Forall_app. split; [now do 2 apply Forall_take|apply IH; now apply Forall_drop].
Qed.

(** The number of lines that are copied. *)
Definition complete (v : fb_var_screeninfo) (pad : nat) : nat := if (pad =? 0)%nat then Z.to_nat (yres v) else (Z.to_nat (yres v) - 1)%nat.

(** The pixels that are left after the padding has been dropped from [raw]. *)
Definition unpadded (v : fb_var_screeninfo) (i : fb_fix_screeninfo) (raw : list Z) (pad : nat) : list Z :=
  let row := Z.to_nat (bits_per_pixel v / 8 * xres v) in
  if (pad =? 0)%nat then raw
  else concat (map (firstn row) (chunks (Z.to_nat (line_length i)) (Z.to_nat (yres v) - 1) raw)) ++
       skipn ((Z.to_nat (yres v) - 1) * row) (memory (xres v * yres v * (bits_per_pixel v / 8))).

Lemma picture_length v i m pad n : screen_ok v i m pad -> 0 <= n -> yres v * line_length i * (n + 1) <= smem_len i ->
  length (firstn (Z.to_nat (yres v * line_length i)) (skipn (Z.to_nat (yres v * line_length i * n)) m)) = (Z.to_nat (yres v) * Z.to_nat (line_length i))%nat.
Proof.
  intros [Hlay Hx Hy _ Hline _ _ Hm _ _ _] Hn Hin. assert (Hl : 0 < line_length i) by (destruct (bytespp_cases v Hlay) as [E|E]; rewrite Hline, E; lia).
  rewrite <- Z2Nat.inj_mul, length_firstn, length_skipn by lia. assert (0 < yres v * line_length i) by now apply Z.mul_pos_pos. nia.
Qed.

Lemma unpadded_lines v i m pad n : screen_ok v i m pad -> 0 <= n -> yres v * line_length i * (n + 1) <= smem_len i ->
  let row := Z.to_nat (bits_per_pixel v / 8 * xres v) in
  let d := unpadded v i (firstn (Z.to_nat (yres v * line_length i)) (skipn (Z.to_nat (yres v * line_length i * n)) m)) pad in
  length d = (row * Z.to_nat (yres v))%nat /\ bytes d /\ firstn (row * complete v pad) d = concat (firstn (complete v pad) (screen_lines v i m n)).
Proof.
  intros [Hlay Hx Hy _ Hline _ Hraw Hm _ Hb _] Hn Hin row d. pose proof (bytespp_cases v Hlay) as Hp. set (bp := bits_per_pixel v / 8) in *.
  set (s := skipn (Z.to_nat (yres v * line_length i * n)) m). set (line := Z.to_nat (line_length i)). set (h := Z.to_nat (yres v)).
  assert (Hl : 0 <= line_length i) by (destruct Hp as [E|E]; rewrite Hline, E; lia).
  assert (Hraws : Z.to_nat (yres v * line_length i) = (line * h)%nat) by (unfold line, h; rewrite Z2Nat.inj_mul by lia; lia).
  assert (Hs : (line * h <= length s)%nat) by (unfold s; rewrite length_skipn, <- Hraws; nia).
  assert (Hrow : (row <= line)%nat) by (unfold row, line; rewrite Hline; destruct Hp as [E|E]; rewrite E; lia).
  assert (Hbs : bytes s) by now apply Forall_drop. assert (Hh : (0 < h)%nat) by (unfold h; lia).
  unfold d, unpadded, screen_lines, complete. fold bp row line h s. rewrite Hraws. destruct (Nat.eqb_spec pad 0) as [->|Hpad].
  - assert (row = line) as <- by (unfold row, line; rewrite Hline; f_equal; lia).
    rewrite firstn_firstn, Nat.min_id, length_firstn, Nat.min_l by exact Hs. split; [reflexivity|]. split; [now apply Forall_take|].
    rewrite firstn_all2 with (n := h) by (rewrite length_map, chunks_length; lia). now rewrite concat_chunks.
  - assert (Hlr : (line * (h - 1) <= length (firstn (line * h) s))%nat) by (rewrite length_firstn; nia).
    assert (Hmem : length (memory (xres v * yres v * bp)) = (row * h)%nat) by (rewrite Hmemory by nia; unfold row, h; rewrite <- Z2Nat.inj_mul by nia; f_equal; ring).
    rewrite length_app, lines_length, length_skipn, Hmem by assumption. split; [nia|]. split.
    { apply Forall_app. split; [apply lines_bytes; now apply Forall_take|apply Forall_drop, Hbytes]. }
    rewrite chunks_firstn by nia. rewrite firstn_map, chunks_take by lia.
    rewrite firstn_app, lines_length, Nat.sub_diag, firstn_O, app_nil_r by (lia || nia). apply firstn_all2. rewrite lines_length by (lia || nia). lia.
Qed.

Lemma get_device_fb_spec g f v i m pad : screen f = Some (v, i, m) -> screen_ok v i m pad -> user_set_buffers_num g <= 3 ->
  let n := shown (user_set_buffers_num g) v i in
  exists g' f', get_device_fb memory FB_PATH g f =
      ret (0, Some (fb_of v (unpadded v i (firstn (Z.to_nat (yres v * line_length i)) (skipn (Z.to_nat (yres v * line_length i * n)) m)) pad)), g', f') /\
    (forall s, can_create f s -> can_create f' s).
Proof.
  intros Hsc Hok Hu n. pose proof Hok as [Hlay Hx Hy _ Hline Himg Hraw Hm _ _ [o Ho]]. pose proof (bytespp_cases v Hlay) as Hp.
  assert (Hl : 0 < line_length i) by (destruct Hp as [E|E]; rewrite Hline, E; lia).
  destruct (overlay_user (id i) g o Ho) as (w & g' & Eg & Hg). unfold get_device_fb.
  destruct (open_fb_ok f v i m Hsc) as (f1 & -> & -> & -> & Ho1 & C1). cbn [negb]. rewrite Eg. cbn [bindM lift].
  destruct (shown_offset g' v i m pad Hok ltac:(lia)) as (k & Ek & Er & Eo & Hr & Hin). rewrite Hg in Eo, Hr, Hin. fold n in Eo, Hr, Hin.
  rewrite Ek. cbn [bindM lift]. cbv zeta in Eo. rewrite Er in *. rewrite Eo.
  assert (Hb0 : (bits_per_pixel v / 8 =? 0) = false) by (apply Z.eqb_neq; lia). rewrite Hb0.
  destruct (lseek_fb_ok f1 m 0 _ Ho1 Hr) as [Ho2 C2].
  destruct (read_fb_ok _ m _ (yres v * line_length i) Ho2) as (f3 & -> & Ho3 & C3); [nia|rewrite Hm; lia|].
  rewrite (proj2 (Z.ltb_ge _ 0)), u32_small, Z.eqb_refl by nia. cbn [negb orb].
  set (raw := firstn _ (skipn _ m)). set (bp := bits_per_pixel v / 8) in *.
  assert (Esz : u32 (u32 (xres v * yres v) * bp) = xres v * yres v * bp) by (rewrite (u32_small (xres v * yres v)), u32_small; destruct Hp as [E|E]; nia).
  assert (Hpad : line_length i / bp - xres v = Z.of_nat pad) by (rewrite Hline, Z.mul_comm, Z.div_mul by lia; lia).
  assert (Hlt : Z.of_nat pad < 2 ^ 31) by (destruct Hp as [E|E]; rewrite Hline, E in Hraw; nia).
  rewrite Hpad, u32_small, Esz by lia. assert (Hclose : forall s, can_create f s -> can_create (close_fb f3) s) by (intros s Hs; eapply close_fb_ok; eauto).
  exists g', (close_fb f3). split; [|exact Hclose]. destruct (Z.eqb_spec (Z.of_nat pad) 0) as [E0|E0]; cbn [negb].
  - unfold unpadded. rewrite (proj2 (Nat.eqb_eq pad 0)) by lia. reflexivity.
  - assert (Hrow : u32 (bp * xres v) = bp * xres v) by (apply u32_small; destruct Hp as [E|E]; rewrite E; nia). rewrite Hrow.
    set (row := Z.to_nat (bp * xres v)). set (line := Z.to_nat (line_length i)). set (h := Z.to_nat (yres v)).
    assert (Hzr : Z.of_nat row = bp * xres v) by (unfold row; rewrite Z2Nat.id; lia).
    assert (Hzl : Z.of_nat line = line_length i) by (unfold line; rewrite Z2Nat.id; lia).
    assert (Hzh : Z.of_nat h = yres v) by (unfold h; rewrite Z2Nat.id; lia).
    assert (Hraws : length raw = (h * line)%nat).
    { unfold raw. rewrite length_firstn, length_skipn. rewrite Z2Nat.inj_mul by lia. fold h line. lia. }
    pose proof (copy_lines_spec raw row line h (h - 1) 0 (memory (xres v * yres v * bp)) (S h)) as Hloop.
    cbn [Nat.mul] in Hloop. change (Z.of_nat 0) with 0 in Hloop. rewrite !Nat2Z.inj_mul, !Nat2Z.inj_sub, Hzr, Hzl, Hzh in Hloop by lia.
    replace ((yres v - Z.of_nat 1) * line_length i) with (yres v * line_length i - line_length i) in Hloop by lia.
    replace ((yres v - Z.of_nat 1) * (bp * xres v)) with (xres v * yres v * bp - bp * xres v) in Hloop by lia.
    rewrite Hloop; [|lia|apply Nat2Z.inj_le; rewrite Hzr, Hzl, Hline; apply Z.mul_le_mono_nonneg_l; lia|exact Hraws| |lia|lia].
    + cbn [bindM ret firstn app skipn]. unfold unpadded. rewrite (proj2 (Nat.eqb_neq pad 0)) by lia. reflexivity.
    + rewrite Hmemory by nia. apply Nat2Z.inj. rewrite Nat2Z.inj_mul, Hzr, Hzh, Z2Nat.id by nia. ring.
Qed.

Lemma parse_args_user args : forall g usage path rest g', parse_args args g = Ret (usage, path, rest, g') ->
  user_set_buffers_num g <= 3 -> user_set_buffers_num g' <= 3.
Proof.
  induction args as [|a args IH]; intros g usage path rest g' E Hg; cbn [parse_args] in E; [injection E as _ _ _ <-; exact Hg|].
  destruct (parse_options a g) as [|[v g1]] eqn:Ep; [discriminate|]. cbn [bind] in E.
  assert (Hg1 : user_set_buffers_num g1 <= 3).
  { revert Ep. unfold parse_options, MAX_ALLOWED_FB_BUFFERS. destruct (literal _ a) as [s|]; [|intros [= _ <-]; exact Hg].
    destruct (atoi s) as [|z]; [discriminate|]. cbn [bind]. destruct (Z.leb_spec 0 z), (Z.leb_spec z 3); cbn [andb]; intros [= _ <-]; cbn; lia. }
  destruct (v =? 0); [injection E as _ _ _ <-; exact Hg1|]. destruct (v <? 0); [injection E as _ _ _ <-; exact Hg1|]. eapply IH; eauto.
Qed.

(** C23: A screenshot shows the screen: for every way to give the options and the path, on
    a screen in one of the layouts RGB565, ARGB, RGBA and BGRA the program returns 0 and the file
    decodes to a picture of the size of the screen whose colours are the bits that the
    offsets and lengths of the device name, taken from the picture that is shown (or that
    the user asked for) line by line without the padding; when there is padding, this
    holds for every line but the last.  libpng encodes a picture of any positive size
    without a loss and the file can be written.  (The layout with red at 24 is not covered;
    its conversion takes the wrong bytes, [abgr_is_rgbx].) *)
Theorem screenshot_correct a args path g f v i m pad :
  parse_args args initial_globals = Ret (false, Some path, [], g) -> (length path < PATH_MAX)%nat ->
  screen f = Some (v, i, m) -> screen_ok v i m pad -> can_create f path ->
  exists n, forall fuel, (n <= fuel)%nat -> exists g' f' file d,
    fb2png_main memory true true encode fuel (a :: args) initial_globals f = ret (0, g', f') /\ stored f' path = Some file /\
    decode file = Some (xres v, yres v, reference_image (fb_of v d)) /\
    firstn (Z.to_nat (bits_per_pixel v / 8 * xres v) * complete v pad) d = concat (firstn (complete v pad) (screen_lines v i m (shown (user_set_buffers_num g) v i))).
Proof.
  intros Ea Hlen Hsc Hok Hc. assert (Hu : user_set_buffers_num g <= 3) by (apply (parse_args_user _ _ _ _ _ _ Ea); cbn; lia).
  destruct (get_device_fb_spec g f v i m pad Hsc Hok Hu) as (g' & f1 & Ed & C1).
  destruct (shown_offset g v i m pad Hok Hu) as (_ & _ & _ & _ & Hr & Hin). set (k := shown (user_set_buffers_num g) v i) in *.
  pose proof Hok as [Hlay Hx Hy _ Hline Himg Hraw _ _ _ _]. pose proof (bytespp_cases v Hlay) as Hp.
  assert (Hl : 0 < yres v * line_length i) by (apply Z.mul_pos_pos; [exact Hy|]; destruct Hp as [E|E]; rewrite Hline, E; lia).
  destruct (unpadded_lines v i m pad k Hok ltac:(nia) Hin) as (Hd & Hb & Hlines). set (d := unpadded _ _ _ _) in *.
  destruct (fb_save_png_spec encode decode memory Hmemory (fb_of v d) path f1) as [n Hn]; auto.
  { destruct Hlay; [now apply std_rgb565|now apply std_argb|now apply std_rgba|now apply std_bgra]. }
  { cbn. lia. }
  { cbn [data fb_of width height bpp]. rewrite Hd. destruct Hp as [E|E]; rewrite E; lia. }
  exists n. intros fuel Hf. destruct (Hn fuel Hf) as (f2 & file & Es & Hst & Hdec). exists g', f2, file, d. split; [|auto].
  unfold fb2png_main. cbn [tl]. rewrite Ea. cbn [bindM lift]. rewrite (proj2 (Nat.leb_gt _ _)) by exact Hlen. unfold fb2png. rewrite Ed. cbn [bindM ret Z.eqb negb].
  rewrite Es. reflexivity.
Qed.

(** With padding, the last line is whatever the memory held before. *)
Lemma last_line_missing g f v i m pad : screen f = Some (v, i, m) -> screen_ok v i m pad -> user_set_buffers_num g <= 3 -> pad <> O ->
  exists g' f' d, get_device_fb memory FB_PATH g f = ret (0, Some (fb_of v d), g', f') /\
    let last := (Z.to_nat (bits_per_pixel v / 8 * xres v) * (Z.to_nat (yres v) - 1))%nat in
    skipn last d = skipn last (memory (xres v * yres v * (bits_per_pixel v / 8))).
Proof.
  intros Hsc Hok Hu Hpad. destruct (get_device_fb_spec g f v i m pad Hsc Hok Hu) as (g' & f1 & Ed & _). exists g', f1. eexists. split; [exact Ed|].
  destruct (shown_offset g v i m pad Hok Hu) as (_ & _ & _ & _ & Hr & Hin). set (k := shown _ v i) in *.
  pose proof Hok as [Hlay Hx Hy _ Hline _ Hraw Hm _ _ _]. pose proof (bytespp_cases v Hlay) as Hp. set (bp := bits_per_pixel v / 8) in *.
  cbv zeta. unfold unpadded. fold bp. rewrite (proj2 (Nat.eqb_neq pad 0)) by exact Hpad. set (line := Z.to_nat (line_length i)). set (h := Z.to_nat (yres v)).
  assert (Hl : 0 < line_length i) by (destruct Hp as [E|E]; rewrite Hline, E; lia).
  set (raw := firstn _ (skipn _ m)). assert (Hraws : length raw = (h * line)%nat).
  { apply (picture_length v i m pad k Hok); [|exact Hin]. assert (0 < yres v * line_length i) by now apply Z.mul_pos_pos. nia. }
  assert (Hrow : (Z.to_nat (bp * xres v) <= line)%nat) by (unfold line; rewrite Hline; destruct Hp as [E|E]; rewrite E; lia).
  assert (HL : length (concat (map (firstn (Z.to_nat (bp * xres v))) (chunks line (h - 1) raw))) = (Z.to_nat (bp * xres v) * (h - 1))%nat)
    by (apply lines_length; [exact Hrow|rewrite Hraws, Nat.mul_comm; apply Nat.mul_le_mono_r; lia]).
  rewrite skipn_app, HL, skipn_all2, Nat.sub_diag by (rewrite HL; lia). cbn [app]. rewrite drop_0, Nat.mul_comm. reflexivity.
Qed.
End Shot.

(** * An example *)

(** A small screen with two pictures, and a stream that takes at most two bytes at a
    time. *)
Record shot := mkShot { s_info : fb_var_screeninfo * fb_fix_screeninfo; s_memory : list Z; s_pos : Z; s_path : list Z; s_out : list Z; s_files : list (list Z * list Z) }.
Definition file_named (f : shot) (n : list Z) : option (list Z) :=
  match List.find (fun '(m, _) => bool_decide (m = n)) (s_files f) with Some (_, d) => Some d | None => None end.

#[local] Instance shot_stream : Stream shot := {
  fopen_w n f := (0, mkShot (s_info f) (s_memory f) (s_pos f) n [] (s_files f));
  fwrite bs f := (min 2 (length bs), mkShot (s_info f) (s_memory f) (s_pos f) (s_path f) (s_out f ++ firstn 2 bs) (s_files f));
  fclose_w f := mkShot (s_info f) (s_memory f) (s_pos f) [] [] ((s_path f, s_out f) :: s_files f)
}.

#[local] Instance shot_screen : Screen shot := {
  open_fb _ f := (true, mkShot (s_info f) (s_memory f) 0 (s_path f) (s_out f) (s_files f));
  get_vinfo f := Some (fst (s_info f));
  get_finfo f := Some (snd (s_info f));
  lseek_fb p f := mkShot (s_info f) (s_memory f) p (s_path f) (s_out f) (s_files f);
  read_fb n f := let bs := firstn (Z.to_nat n) (skipn (Z.to_nat (s_pos f)) (s_memory f)) in
                 (Z.of_nat (length bs), bs, mkShot (s_info f) (s_memory f) (s_pos f + n) (s_path f) (s_out f) (s_files f));
  close_fb f := f
}.

#[local] Instance shot_stream_laws : StreamLaws shot.
Proof.
  refine {| stored := file_named; can_create _ _ := True; writing f n o := s_path f = n /\ s_out f = o |}.
  - intros f n _. eexists. repeat split.
  - intros f n o bs [<- <-] Hne. exists (min 2 (length bs)). eexists. split; [reflexivity|]. split; [assert (0 < length bs)%nat by (destruct bs; [contradiction|cbn; lia]); lia|].
    split; [reflexivity|]. cbn [fwrite s_out]. f_equal. destruct bs as [|a [|b [|c bs]]]; reflexivity.
  - intros f n o [<- <-]. unfold file_named. cbn. now rewrite bool_decide_true.
Defined.

#[local] Instance shot_screen_laws : ScreenLaws shot.
Proof.
  refine {| screen f := Some (fst (s_info f), snd (s_info f), s_memory f); opened f m p := s_memory f = m /\ s_pos f = p /\ 0 <= p |}.
  - intros f v i m [= <- <- <-]. eexists. split; [reflexivity|]. split; [reflexivity|]. split; [reflexivity|]. split; [split; [reflexivity|split; [reflexivity|lia]]|auto].
  - intros f m p q (<- & <- & _) Hq. split; [split; [reflexivity|split; [reflexivity|lia]]|auto].
  - intros f m p n (<- & <- & Hp) Hn Hl. cbn [read_fb shot_screen]. rewrite length_firstn, length_skipn.
    replace (Z.of_nat (min _ _)) with n by lia. eexists. split; [reflexivity|]. split; [split; [reflexivity|split; [reflexivity|lia]]|auto].
  - intros. exact I.
Defined.

Definition plain_encode (w h : Z) (rows : list (list Z)) : option (list (list Z)) := Some [[w; h]; concat rows].
Definition plain_decode (file : list Z) : option (Z * Z * list Z) := match file with w :: h :: d => Some (w, h, d) | _ => None end.

#[local] Instance plain_lossless : Lossless plain_encode plain_decode.
Proof. constructor. intros w h rows _ _ _ _. eexists. split; [reflexivity|]. cbn. now rewrite app_nil_r. Qed.

Definition small_var : fb_var_screeninfo := mkVar 2 2 2 16 (mkField 11 5) (mkField 5 6) (mkField 0 5) (mkField 0 0).
Definition small_fix : fb_fix_screeninfo := mkFix (str "msmfb42_90000") 24 6.
Definition small_memory : list Z := repeat 0 12 ++ [31; 0; 0; 248; 9; 9; 224; 7; 255; 255; 9; 9].
Definition small_shot : shot := mkShot (small_var, small_fix) small_memory 0 [] [] [].

Lemma small_ok : screen_ok small_var small_fix small_memory 1.
Proof.
  split; try reflexivity; try (cbn; lia).
  - now apply std_rgb565.
  - unfold bytes, words, word. repeat constructor; lia.
  - eexists. vm_compute. reflexivity.
Qed.

Lemma screenshot_correct_witness :
  exists n, forall fuel, (n <= fuel)%nat -> exists g' f' file d,
    fb2png_main (fun n => repeat 0 (Z.to_nat n)) true true plain_encode fuel [str "fb2png"; str "shot.png"] initial_globals small_shot = ret (0, g', f') /\
    stored f' (str "shot.png") = Some file /\ plain_decode file = Some (2, 2, reference_image (fb_of small_var d)) /\ firstn 4 d = [31; 0; 0; 248].
Proof.
  refine (screenshot_correct plain_encode plain_decode (fun n => repeat 0 (Z.to_nat n)) _ _ (str "fb2png") [str "shot.png"] (str "shot.png") initial_globals small_shot
    small_var small_fix small_memory 1 _ _ _ _ _).
  - intros n Hn. apply repeat_length.
  - intros n. induction (Z.to_nat n) as [|k IH]; cbn [repeat]; constructor; [unfold word; lia|exact IH].
  - vm_compute. reflexivity.
  - vm_compute. lia.
  - reflexivity.
  - exact small_ok.
  - exact I.
Defined.
