(* ===== verification/AdbScreenshot.v ===== *)
(** Screenshots over adb: src/fb2png/adb_screenshoot.c.

    The socket is the interface [AdbSystem].  Reading from it stores a terminator after
    the bytes; outside the buffer that is a [Fault].  Messages are not modelled: the
    function [E] only prints, so the program goes on after an error. *)
From Stdlib Require Import String.
From stdpp Require Import list.
From S2P Require Import Prelude CString MtdScan Fb.

(** Connecting to the server (the descriptor is negative on an error), writing, and
    reading at most a number of bytes, which gives the result and the bytes. *)
Class AdbSystem (F : Type) := {
  adb_stream :: Stream F;
  remote_socket : list Z -> Z -> F -> Z * F;
  write_fd : Z -> list Z -> F -> F;
  read_fd : Z -> Z -> F -> Z * list Z * F
}.

Definition DDMS_RAWIMAGE_VERSION : Z := 1.
Definition FBINFO_SIZE : Z := 52.
Definition DEFAULT_SAVE_PATH : list Z := str "fbdump.png".

Section Adb.
Context {F : Type} `{AdbSystem F} (memory : Z -> list Z).

(** [%04x%s] *)
Definition adb_message (cmd : list Z) : list Z := printed 16 4 (Z.of_nat (length cmd)) ++ cmd.
Definition adb_write (adb_fd : Z) (cmd : list Z) (f : F) : outcome (Z * F) :=
  let buf := adb_message cmd in
  if (length buf <? 1024)%nat then Ret (Z.of_nat (length buf), write_fd adb_fd buf f) else Fault.

(** Into the buffer [buf] from the position [off] on. *)
Definition adb_read (adb_fd : Z) (buf : list Z) (off sz : Z) (f : F) : outcome (Z * list Z * F) :=
  let '(sz, bs, f) := read_fd adb_fd sz f in
  let at_ := off + sz in
  if (0 <=? sz) && (0 <=? at_) && (at_ <? Z.of_nat (length buf))
  then Ret (sz, blit buf (Z.to_nat off) (firstn (Z.to_nat sz) bs ++ [0]), f) else Fault.

Definition word_at (buf : list Z) (i : nat) : Z := pixel_value (firstn 4 (skipn (4 * i) buf)).

(** The header after its version number. *)
Definition header_fb (buf d : list Z) : fb :=
  mkFb (word_at buf 1) (word_at buf 2) (word_at buf 3) (word_at buf 4) (word_at buf 5) (word_at buf 6) (word_at buf 7) (word_at buf 8)
    (word_at buf 9) (word_at buf 10) (word_at buf 11) (word_at buf 12) d.

(** The whole frame buffer. *)
Fixpoint read_frame (fuel : nat) (adb_fd size : Z) (d : list Z) (bytes_read : Z) (f : F) : M (list Z * F) :=
  match fuel with
  | O => None
  | S fuel =>
      if u32 bytes_read <? size then
        do! r := lift (adb_read adb_fd d bytes_read (i32 (u32 (size - bytes_read))) f) in
        let '(n, d, f) := r in read_frame fuel adb_fd size d (bytes_read + n) f
      else ret (d, f)
  end.

Definition get_fb_from_adb (fuel : nat) (f : F) : M (Z * fb * F) :=
  let '(adb_fd, f) := remote_socket (str "localhost") 5037 f in
  let buf := memory 1024 in
  do! r := lift (adb_write adb_fd (str "host:transport-") f) in
  let '(_, f) := r in
  do! r := lift (adb_read adb_fd buf 0 1024 f) in
  let '(_, buf, f) := r in
  do! r := lift (adb_write adb_fd (str "framebuffer:") f) in
  let '(_, f) := r in
  do! r := lift (adb_read adb_fd buf 0 1024 f) in
  let '(_, buf, f) := r in
  do! r := lift (adb_read adb_fd buf 0 FBINFO_SIZE f) in
  let '(_, buf, f) := r in
  let size := size (header_fb buf []) in
  do! r := read_frame fuel adb_fd size (memory size) 0 f in
  let '(d, f) := r in ret (0, header_fb buf d, f).

Context (create_write create_info : bool) (encode : Z -> Z -> list (list Z) -> option (list (list Z))).

Definition fb2png (fuel : nat) (path : list Z) (f : F) : M (Z * F) :=
  do! r := get_fb_from_adb fuel f in
  let '(v, b, f) := r in
  if negb (v =? 0) then ret (-1, f) else fb_save_png memory create_write create_info encode fuel b path f.

(** The name of the file has room for 127 characters. *)
Definition adb_main (fuel : nat) (argv : list (list Z)) (f : F) : M (Z * F) :=
  match argv with
  | [_; a] => if hd 0 a =? 45 then ret (0, f) else if (length a <? 128)%nat then fb2png fuel a f else Some Fault
  | _ => fb2png fuel DEFAULT_SAVE_PATH f
  end.

(** * The terminator *)

(** Every read that fits leaves a byte of the buffer free, so the loop never reaches the
    end of a buffer of the size of the frame. *)
Lemma read_frame_never_returns size adb_fd fuel : forall d n f, 0 < size < 2 ^ 32 -> Z.of_nat (length d) = size -> 0 <= n < size -> forall r, read_frame fuel adb_fd size d n f <> ret r.
Proof.
  induction fuel as [|fuel IH]; intros d n f Hs Hd Hn r; cbn [read_frame]; [discriminate|].
  rewrite u32_small, (proj2 (Z.ltb_lt _ _)) by lia. unfold adb_read. destruct (read_fd adb_fd _ f) as [[sz bs] f1].
  destruct (Z.leb_spec 0 sz), (Z.leb_spec 0 (n + sz)), (Z.ltb_spec (n + sz) (Z.of_nat (length d))); cbn [andb lift bindM]; try discriminate.
  apply IH; [exact Hs| |lia]. rewrite blit_length; [exact Hd|]. rewrite length_app, length_firstn. cbn [length]. lia.
Qed.

(** The frame buffer is never read completely: what the server sends is stored, and then
    a zero after the end of the buffer. *)
Lemma adb_overruns fuel f : (forall n, 0 <= n -> length (memory n) = Z.to_nat n) -> forall v b f', get_fb_from_adb fuel f = ret (v, b, f') -> ~ 0 < size b < 2 ^ 32.
Proof.
  intros Hm v b f'. unfold get_fb_from_adb. destruct (remote_socket _ _ f) as [fd f0].
  destruct (adb_write fd _ f0) as [|[? f1]]; cbn [lift bindM]; [discriminate|].
  destruct (adb_read fd _ 0 1024 f1) as [|[[? buf1] f2]]; cbn [lift bindM]; [discriminate|].
  destruct (adb_write fd _ f2) as [|[? f3]]; cbn [lift bindM]; [discriminate|].
  destruct (adb_read fd _ 0 1024 f3) as [|[[? buf2] f4]]; cbn [lift bindM]; [discriminate|].
  destruct (adb_read fd _ 0 FBINFO_SIZE f4) as [|[[? buf] f5]]; cbn [lift bindM]; [discriminate|].
  destruct (read_frame fuel fd _ _ 0 f5) as [[|[d f6]]|] eqn:E; cbn [lift bindM]; [discriminate| |discriminate].
  intros [= _ <- _] Hs. change (size (header_fb buf d)) with (size (header_fb buf [])) in Hs.
  apply (read_frame_never_returns (size (header_fb buf [])) fd fuel (memory (size (header_fb buf []))) 0 f5 Hs) in E; [exact E| |lia]. rewrite Hm; lia.
Qed.
End Adb.
