(* ===== verification/Dumwolf.v ===== *)
(** Boot images: src/libcrecovery/dumwolf.c and dumwolf.h.

    [dumwolf_extract_header] takes a boot image apart into the files of a directory, and
    [dumwolf_create_header] builds an image from such a directory.  The file system is a
    finite map from paths to contents.  What the system decides is in the record [env]:
    which calls of [open], [fopen] and [malloc] succeed, what new memory and local
    variables hold before they are written, how many bytes a write stores.  A write to
    a stream that could not be opened, a write past the end of an array and a string
    that is not terminated are a [Fault].  An image that is read is taken not to change
    while it is read.  The messages, and [total_read], which is only printed, are left
    out. *)
From Stdlib Require Import String.
From stdpp Require Import gmap list.
From S2P Require Import Prelude CString Hash Sha1 Sha256 MtdScan.

Abbreviation path := (list Z).
Abbreviation files := (gmap path (list Z)).

Record env := mkEnv {
  sizeof_ptr : Z;                          (* of a pointer and of a long *)
  malloc : path -> Z -> option (list Z);   (* NULL, or what the new memory holds *)
  can_open : path -> bool;                 (* an existing file, for reading *)
  can_seek : path -> bool;
  can_create : path -> bool;               (* for writing *)
  can_unlink : path -> bool;
  read_n : path -> Z -> Z;                 (* the result of read *)
  fwrite_n : path -> nat -> nat;           (* the bytes that reach the file *)
  write_n : nat -> nat -> Z;               (* the result of write at a position *)
  stack_tmp : list Z;
  stack_hdr : list Z;
  stack_ctx : HASH_CTX
}.

(** * The header *)

Definition BOOT_MAGIC : list Z := str "ANDROID!".
Definition BOOT_MAGIC_SIZE : nat := 8.
Definition BOOT_NAME_SIZE : nat := 16.
Definition BOOT_ARGS_SIZE : nat := 512.
Definition BOOT_EXTRA_ARGS_SIZE : nat := 1024.

Record dumwolf := mkDumwolf {
  magic : list Z;
  kernel_size : Z; kernel_addr : Z;
  ramdisk_size : Z; ramdisk_addr : Z;
  second_size : Z; second_addr : Z;
  tags_addr : Z; page_size : Z; dt_size : Z; os_version : Z;
  name : list Z; cmdline : list Z; id : list Z; extra_cmdline : list Z
}.

Definition HDR_SIZE : nat := 1632.

(** The bytes of the structure, which is packed; [id] is kept as its 32 bytes. *)
Definition encode (h : dumwolf) : list Z :=
  magic h ++ le_bytes 4 (kernel_size h) ++ le_bytes 4 (kernel_addr h) ++ le_bytes 4 (ramdisk_size h) ++ le_bytes 4 (ramdisk_addr h)
  ++ le_bytes 4 (second_size h) ++ le_bytes 4 (second_addr h) ++ le_bytes 4 (tags_addr h) ++ le_bytes 4 (page_size h)
  ++ le_bytes 4 (dt_size h) ++ le_bytes 4 (os_version h) ++ name h ++ cmdline h ++ id h ++ extra_cmdline h.

Definition slice (b : list Z) (o n : nat) : list Z := firstn n (skipn o b).
Definition dword_at (b : list Z) (o : nat) : Z := le32 (get b o) (get b (o + 1)) (get b (o + 2)) (get b (o + 3)).
Definition decode (b : list Z) : dumwolf :=
  mkDumwolf (slice b 0 8) (dword_at b 8) (dword_at b 12) (dword_at b 16) (dword_at b 20) (dword_at b 24) (dword_at b 28)
    (dword_at b 32) (dword_at b 36) (dword_at b 40) (dword_at b 44) (slice b 48 16) (slice b 64 512) (slice b 576 32) (slice b 608 1024).

Definition with_id (h : dumwolf) (i : list Z) : dumwolf :=
  mkDumwolf (magic h) (kernel_size h) (kernel_addr h) (ramdisk_size h) (ramdisk_addr h) (second_size h) (second_addr h)
    (tags_addr h) (page_size h) (dt_size h) (os_version h) (name h) (cmdline h) i (extra_cmdline h).
Definition with_sizes (h : dumwolf) (k r s d : Z) : dumwolf :=
  mkDumwolf (magic h) k (kernel_addr h) r (ramdisk_addr h) s (second_addr h)
    (tags_addr h) (page_size h) d (os_version h) (name h) (cmdline h) (id h) (extra_cmdline h).
Definition with_os_version (h : dumwolf) (v : Z) : dumwolf :=
  mkDumwolf (magic h) (kernel_size h) (kernel_addr h) (ramdisk_size h) (ramdisk_addr h) (second_size h) (second_addr h)
    (tags_addr h) (page_size h) (dt_size h) v (name h) (cmdline h) (id h) (extra_cmdline h).

(** * Versions *)

(** The tokens [strtok] gives, one call after the other: [cur] is the token being
    collected. *)
Fixpoint strtok_all (delim : Z) (cur s : list Z) : list (list Z) :=
  let emit := match cur with [] => [] | _ => [cur] end in
  match s with
  | [] => emit
  | c :: s => if c =? delim then emit ++ strtok_all delim [] s else strtok_all delim (cur ++ [c]) s
  end.

(** [sscanf(token, "%d", &arr[i])] for each token. *)
Fixpoint scan_tokens (toks : list (list Z)) (i : nat) (arr : list Z) : outcome (list Z) :=
  match toks with
  | [] => Ret arr
  | token :: toks =>
      let! r := conv_d token in
      match r with
      | None => scan_tokens toks (S i) arr
      | Some (v, _) => if (i <? length arr)%nat then scan_tokens toks (S i) (set arr i v) else Fault
      end
  end.

Definition parse_os_version (ver : list Z) : outcome Z :=
  let! verArray := scan_tokens (strtok_all 46 [] ver) 0 [0; 0; 0] in
  let a := get verArray 0 in let b := get verArray 1 in let c := get verArray 2 in
  Ret (if (a <? 128) && (b <? 128) && (c <? 128) then i32 (a << 14) .| i32 (b << 7) .| c else 0).

Definition parse_os_patch_level (lvl : list Z) : outcome Z :=
  let! lvlArray := scan_tokens (strtok_all 45 [] lvl) 0 [0; 0] in
  let y := i32 (get lvlArray 0 - 2000) in let m := get lvlArray 1 in
  Ret (if (0 <=? y) && (y <? 128) && (0 <? m) && (m <=? 12) then (y << 4) .| m else 0).

(** * Files *)

(** The files of a directory. *)
Inductive entry := Ecmdline | Eboard | Ebase | Epagesize | Ekerneloff | Eramdiskoff | Esecondoff | Etagsoff | Eosversion | Eoslevel
  | Ehash | EzImage | Eramdisk | Eramdisk_new | Esecond | Edtb.
#[export] Instance entry_eq_dec : EqDecision entry. Proof. solve_decision. Defined.

Definition entry_name (e : entry) : list Z :=
  str match e with
      | Ecmdline => "cmdline" | Eboard => "board" | Ebase => "base" | Epagesize => "pagesize" | Ekerneloff => "kerneloff"
      | Eramdiskoff => "ramdiskoff" | Esecondoff => "secondoff" | Etagsoff => "tagsoff" | Eosversion => "osversion" | Eoslevel => "oslevel"
      | Ehash => "hash" | EzImage => "zImage" | Eramdisk => "ramdisk.gz" | Eramdisk_new => "ramdisk-new" | Esecond => "second" | Edtb => "dtb"
      end%string.

Definition in_dir (directory : path) (e : entry) : path := directory ++ SLASH :: entry_name e.

(** [sprintf(tmp, "%s/name", directory)] into an array of [cap] characters. *)
Definition sprintf_path (cap : nat) (directory : path) (e : entry) : outcome path :=
  if (length (in_dir directory e) <? cap)%nat then Ret (in_dir directory e) else Fault.

Definition PATH_MAX : nat := 4096.

(** The first [n] bytes, or all there are. *)
Definition take_bytes (n : Z) (l : list Z) : list Z := firstn (Z.to_nat (Z.min n (Z.of_nat (length l)))) l.

(** [fread(buf, size, 1, f)]: the buffer and what is left of the file. *)
Definition fread (buf : list Z) (size : Z) (rest : list Z) : outcome (list Z * list Z) :=
  let got := take_bytes size rest in
  if (length got <=? length buf)%nat then Ret (blit buf 0 got, skipn (length got) rest) else Fault.

(** [fwrite] of [data] to a stream just opened for writing. *)
Definition fwrite (E : env) (file : path) (data : list Z) (fs : files) : files := <[file := firstn (fwrite_n E file (length data)) data]> fs.

Definition extract_to_memory (E : env) (fs : files) (fn : path) : option (list Z) :=
  match fs !! fn with
  | None => None
  | Some c =>
      if negb (can_open E fn) then None else
      let sz := if can_seek E fn then i32 (Z.of_nat (length c)) else -1 in
      if sz <? 0 then None else
      match malloc E fn sz with
      | None => None
      | Some _ => if read_n E fn sz =? sz then Some (take_bytes sz c) else None
      end
  end.

(** What [fgets] stores of a file, at most [n] characters. *)
Fixpoint first_line (n : nat) (s : list Z) : list Z :=
  match n, s with
  | S n, c :: s => if c =? 10 then [c] else c :: first_line n s
  | _, _ => []
  end.

(** The first line of a file; the memory stays as it was when there is none. *)
Definition load_file (E : env) (fs : files) (file : path) : outcome (option (list Z)) :=
  match fs !! file with
  | None => Ret None
  | Some c =>
      if negb (can_open E file) then Ret None else
      match malloc E file (Z.of_nat (BOOT_EXTRA_ARGS_SIZE + BOOT_EXTRA_ARGS_SIZE) * sizeof_ptr E) with
      | None => Ret None
      | Some line =>
          let line := match c with [] => line | _ => blit line 0 (first_line (BOOT_EXTRA_ARGS_SIZE + BOOT_EXTRA_ARGS_SIZE - 1) c ++ [0]) end in
          let! s := c_string line in Ret (Some s)
      end
  end.

Definition write_file (E : env) (file : path) (string : list Z) (fs : files) : outcome files :=
  if can_create E file then Ret (fwrite E file string fs) else Fault.

(** * The identification of an image *)

Inductive hash_alg := HASH_UNKNOWN | HASH_SHA1 | HASH_SHA256.
#[export] Instance hash_alg_eq_dec : EqDecision hash_alg. Proof. solve_decision. Defined.

Definition hash_names : list (list Z * hash_alg) := [(str "sha1", HASH_SHA1); (str "sha256", HASH_SHA256)].

Fixpoint lookup_hash (ptr : list (list Z * hash_alg)) (name : list Z) : hash_alg :=
  match ptr with
  | (n, alg) :: ptr => if strcmp_chars n name =? 0 then alg else lookup_hash ptr name
  | [] => HASH_UNKNOWN
  end.
Definition get_hash_algorithm (name : list Z) : hash_alg := lookup_hash hash_names name.

(** What is hashed, piece by piece. *)
Definition id_chunks (hdr : dumwolf) (kernel_data ramdisk_data second_data : list Z) (dt_data : option (list Z)) : list (list Z) :=
  [take_bytes (kernel_size hdr) kernel_data; le_bytes 4 (kernel_size hdr);
   take_bytes (ramdisk_size hdr) ramdisk_data; le_bytes 4 (ramdisk_size hdr);
   take_bytes (second_size hdr) second_data; le_bytes 4 (second_size hdr)]
  ++ match dt_data with Some d => [take_bytes (dt_size hdr) d; le_bytes 4 (dt_size hdr)] | None => [] end.

Definition generate_id_sha1 (ctx : HASH_CTX) (hdr : dumwolf) (kernel_data ramdisk_data second_data : list Z) (dt_data : option (list Z)) : dumwolf :=
  let ctx := fold_left SHA_update (id_chunks hdr kernel_data ramdisk_data second_data dt_data) (SHA_init ctx) in
  with_id hdr (blit (id hdr) 0 (firstn SHA_DIGEST_SIZE (buf (SHA_final ctx)))).

Definition generate_id_sha256 (ctx : HASH_CTX) (hdr : dumwolf) (kernel_data ramdisk_data second_data : list Z) (dt_data : option (list Z)) : dumwolf :=
  let ctx := fold_left SHA256_update (id_chunks hdr kernel_data ramdisk_data second_data dt_data) (SHA256_init ctx) in
  with_id hdr (blit (id hdr) 0 (firstn SHA256_DIGEST_SIZE (buf (SHA256_final ctx)))).

Definition generate_id (ctx : HASH_CTX) (alg : hash_alg) (hdr : dumwolf) (kernel_data ramdisk_data second_data : list Z) (dt_data : option (list Z)) : dumwolf :=
  match alg with
  | HASH_SHA1 => generate_id_sha1 ctx hdr kernel_data ramdisk_data second_data dt_data
  | HASH_SHA256 => generate_id_sha256 ctx hdr kernel_data ramdisk_data second_data dt_data
  | HASH_UNKNOWN => hdr
  end.

Definition detect_hash_type (hdr : dumwolf) : list Z :=
  let set i := negb (dword_at (id hdr) (4 * i) =? 0) in
  if forallb set (seq 0 8) then str "sha256"
  else if forallb set (seq 0 5) && forallb (fun i => negb (set i)) (seq 5 3) then str "sha1"
  else str "unknown".

(** * Taking an image apart *)

(** The loop over the positions at which the image may start: [rest] is the file from
    position [i] on, [n] the number of positions left. *)
Fixpoint seek_magic (n i : nat) (rest tmp : list Z) : option nat :=
  match n with
  | O => None
  | S n =>
      let tmp := blit tmp 0 (firstn BOOT_MAGIC_SIZE rest) in
      if decide (tmp = BOOT_MAGIC) then Some i else seek_magic n (S i) (tl rest) tmp
  end.
Definition seeklimit : nat := Z.to_nat 65536.

Definition read_padding (E : env) (site : path) (itemsize pagesize : Z) (rest : list Z) : outcome (list Z) :=
  let buf := malloc E site (i32 pagesize mod 2 ^ (8 * sizeof_ptr E)) in
  let pagemask := u32 (i32 pagesize - 1) in
  if itemsize .& pagemask =? 0 then Ret rest
  else
    let! r := fread (default [] buf) (u32 (i32 pagesize - (itemsize .& pagemask))) rest in
    Ret r.2.

(** The conversions [%d] and [%08x] of [printf]. *)
Fixpoint ndigits (fuel : nat) (z : Z) : nat :=
  match fuel with O => 1%nat | S fuel => if z <? 10 then 1%nat else S (ndigits fuel (z / 10)) end.
Definition print_nat (z : Z) : list Z := printed 10 (ndigits 9 z) z.
Definition print_d (z : Z) : list Z := if z <? 0 then 45 :: print_nat (- z) else print_nat z.
Definition print_08x (z : Z) : list Z := printed 16 8 (u32 z).

(** One file per text. *)
Fixpoint write_files (E : env) (directory : path) (texts : list (entry * list Z)) (fs : files) : outcome files :=
  match texts with
  | [] => Ret fs
  | (e, s) :: texts =>
      let! tmp := sprintf_path PATH_MAX directory e in
      let! fs := write_file E tmp s fs in
      write_files E directory texts fs
  end.

(** [a], [b], [c], [y] and [m] of a version. *)
Definition version_fields (v : Z) : Z * Z * Z * Z * Z :=
  let ver := v >> 11 in let level := v .& 0x7ff in
  ((ver >> 14) .& 0x7f, (ver >> 7) .& 0x7f, ver .& 0x7f, (level >> 4) + 2000, level .& 0xf).
Definition check_version (header : dumwolf) : dumwolf :=
  if os_version header =? 0 then header
  else
    let '(a, b, c, y, m) := version_fields (os_version header) in
    if (a <? 128) && (b <? 128) && (c <? 128) && (2000 <=? y) && (y <? 2128) && (0 <? m) && (m <=? 12) then header
    else with_os_version header 0.

(** The texts that describe a header.  The name is read up to a zero, past its array when
    the array has none. *)
Definition header_texts (header : dumwolf) : outcome (list (entry * list Z)) :=
  let base := i32 (kernel_addr header - 0x8000) in
  let! board := c_string (name header ++ cmdline header ++ id header ++ extra_cmdline header) in
  let '(a, b, c, y, m) := version_fields (os_version header) in
  Ret ([(Ecmdline, c_string_n BOOT_ARGS_SIZE (cmdline header) ++ c_string_n BOOT_EXTRA_ARGS_SIZE (extra_cmdline header));
        (Eboard, board);
        (Ebase, print_08x base);
        (Epagesize, print_d (i32 (page_size header)));
        (Ekerneloff, print_08x (kernel_addr header - base));
        (Eramdiskoff, print_08x (ramdisk_addr header - base));
        (Esecondoff, print_08x (second_addr header - base));
        (Etagsoff, print_08x (tags_addr header - base))]
       ++ (if os_version header =? 0 then []
           else [(Eosversion, print_d a ++ [46] ++ print_d b ++ [46] ++ print_d c); (Eoslevel, print_d y ++ [45] ++ printed 10 2 m)])
       ++ [(Ehash, detect_hash_type header)]).

(** A part of the image is copied to its file.  [None] is the return with 1 when there is
    no memory. *)
Definition extract_part (E : env) (directory : path) (e : entry) (size : Z) (rest : list Z) (fs : files) : outcome (option (list Z) * files) :=
  let! tmp := sprintf_path PATH_MAX directory e in
  let opened := can_create E tmp in
  let fs := if opened then <[tmp := []]> fs else fs in
  match malloc E tmp size with
  | None => Ret (None, fs)
  | Some buf =>
      let! (buf, rest) := fread buf size rest in
      if opened then Ret (Some rest, fwrite E tmp buf fs) else Fault
  end.
Definition then_part (m : outcome (option (list Z) * files)) (k : list Z -> files -> outcome (Z * files)) : outcome (Z * files) :=
  let! (r, fs) := m in match r with None => Ret (1, fs) | Some rest => k rest fs end.
Notation "'part!' rest fs := m 'in' k" := (then_part m (fun rest fs => k)) (at level 10, rest name, fs name, m at level 100, k at level 200).

(** The part that is only there when its size is not 0. *)
Definition optional_part (E : env) (directory : path) (e : entry) (size : Z) (rest : list Z) (fs : files) : outcome (option (list Z) * files) :=
  if size =? 0 then Ret (Some rest, fs) else extract_part E directory e size rest fs.

Definition dumwolf_extract_header (E : env) (image directory : path) (fs : files) : outcome (Z * files) :=
  match fs !! image with
  | None => Ret (1, fs)
  | Some f =>
      if negb (can_open E image) then Ret (1, fs) else
      match seek_magic (S seeklimit) 0 f (stack_tmp E) with
      | None => Ret (1, fs)
      | Some i =>
          let! (hdr, rest) := fread (stack_hdr E) (Z.of_nat HDR_SIZE) (skipn i f) in
          let header := check_version (decode hdr) in
          let! texts := header_texts header in
          let! fs := write_files E directory texts fs in
          let! rest := read_padding E [] (Z.of_nat HDR_SIZE) (page_size header) rest in
          part! rest fs := extract_part E directory EzImage (kernel_size header) rest fs in
          let! rest := read_padding E (in_dir directory EzImage) (kernel_size header) (page_size header) rest in
          part! rest fs := extract_part E directory Eramdisk (ramdisk_size header) rest fs in
          let! rest := read_padding E (in_dir directory Eramdisk) (ramdisk_size header) (page_size header) rest in
          part! rest fs := optional_part E directory Esecond (second_size header) rest fs in
          let! rest := read_padding E (in_dir directory Esecond) (second_size header) (page_size header) rest in
          part! _ fs := optional_part E directory Edtb (dt_size header) rest fs in
          Ret (0, fs)
      end
  end.

(** * Building an image *)

(** [None] is a return with 1. *)
Definition try {A B : Type} (m : outcome (option A)) (k : A -> outcome (option B)) : outcome (option B) :=
  let! r := m in match r with None => Ret None | Some x => k x end.
Notation "'try!' x := m 'in' k" := (try m (fun x => k)) (at level 10, x pattern, m at level 100, k at level 200).

(** [strtoul], stored in a [dword]. *)
Definition strtoul (E : env) (base : Z) (s : list Z) : Z :=
  let m := 2 ^ (8 * sizeof_ptr E) in
  match number base s with
  | None => 0
  | Some (v, _) => u32 (if Z.abs v <? m then v mod m else m - 1)
  end.

(** A file of the directory, when it is there. *)
Definition setting {A : Type} (E : env) (directory : path) (fs : files) (e : entry) (dflt : A) (conv : list Z -> outcome (option A)) : outcome (option A) :=
  let! p := sprintf_path 256 directory e in
  match fs !! p with
  | None => Ret (Some dflt)
  | Some _ => try! val := load_file E fs p in conv val
  end.
Definition number_setting (E : env) (directory : path) (fs : files) (e : entry) (dflt : Z) : outcome (option Z) :=
  setting E directory fs e dflt (fun val => Ret (Some (strtoul E 16 val))).

Definition supported_page (p : Z) : bool := existsb (Z.eqb p) [2048; 4096; 8192; 16384; 32768; 65536; 131072].

Record boot_settings := mkSettings {
  s_cmdline : list Z; s_base : Z; s_pagesize : Z; s_kernel : Z; s_ramdisk : Z; s_second : Z; s_tags : Z;
  s_board : list Z; s_version : Z; s_level : Z; s_alg : hash_alg
}.

Definition choose_hash (val : list Z) : outcome (option hash_alg) :=
  match get_hash_algorithm (if strcmp_chars val (str "unknown") =? 0 then str "sha1" else val) with
  | HASH_UNKNOWN => Ret None
  | alg => Ret (Some alg)
  end.

Definition read_settings (E : env) (directory : path) (fs : files) : outcome (option boot_settings) :=
  try! cmd := setting E directory fs Ecmdline [] (fun val => Ret (Some val)) in
  try! base := number_setting E directory fs Ebase 0x10000000 in
  try! pagesize := setting E directory fs Epagesize 2048
                     (fun val => let p := strtoul E 10 val in if supported_page p then Ret (Some p) else Ret None) in
  try! kernel_offset := number_setting E directory fs Ekerneloff 0x00008000 in
  try! ramdisk_offset := number_setting E directory fs Eramdiskoff 0x01000000 in
  try! second_offset := number_setting E directory fs Esecondoff 0x00f00000 in
  try! tags_offset := number_setting E directory fs Etagsoff 0x00000100 in
  try! board := setting E directory fs Eboard [] (fun val => Ret (Some val)) in
  try! version := setting E directory fs Eosversion 0 (fun val => let! v := parse_os_version val in Ret (Some v)) in
  try! level := setting E directory fs Eoslevel 0 (fun val => let! v := parse_os_patch_level val in Ret (Some v)) in
  try! alg := setting E directory fs Ehash HASH_SHA1 choose_hash in
  Ret (Some (mkSettings cmd base pagesize kernel_offset ramdisk_offset second_offset tags_offset board version level alg)).

(** The header before the sizes and the identification are known.  The terminator of a
    command line of exactly 512 characters falls on [id]; that of one of 1536 falls
    behind the structure. *)
Definition make_header (st : boot_settings) : outcome (option dumwolf) :=
  if (BOOT_NAME_SIZE <=? length (s_board st))%nat then Ret None else
  let name := blit (repeat 0 BOOT_NAME_SIZE) 0 (s_board st ++ [0]) in
  let hdr := mkDumwolf BOOT_MAGIC 0 (s_base st [+] s_kernel st) 0 (s_base st [+] s_ramdisk st) 0 (s_base st [+] s_second st)
               (s_base st [+] s_tags st) (s_pagesize st) 0 (u32 (i32 (s_version st << 11) .| s_level st)) name in
  let cmd := s_cmdline st in
  if (length cmd <=? BOOT_ARGS_SIZE)%nat then
    let b := blit (repeat 0 (BOOT_ARGS_SIZE + 32)) 0 (cmd ++ [0]) in
    Ret (Some (hdr (firstn BOOT_ARGS_SIZE b) (skipn BOOT_ARGS_SIZE b) (repeat 0 BOOT_EXTRA_ARGS_SIZE)))
  else if (length cmd <=? BOOT_ARGS_SIZE + BOOT_EXTRA_ARGS_SIZE)%nat then
    let extra := skipn BOOT_ARGS_SIZE cmd ++ [0] in
    if (length extra <=? BOOT_EXTRA_ARGS_SIZE)%nat
    then Ret (Some (hdr (firstn BOOT_ARGS_SIZE cmd) (repeat 0 32) (blit (repeat 0 BOOT_EXTRA_ARGS_SIZE) 0 extra)))
    else Fault
  else Ret None.

(** [extract_to_memory] of a part that must be there, and of one that may be. *)
Definition load_part (E : env) (fs : files) (p : path) : outcome (option (list Z)) := Ret (extract_to_memory E fs p).
Definition load_optional (E : env) (directory : path) (fs : files) (e : entry) : outcome (option (option (list Z))) :=
  let! p := sprintf_path 256 directory e in
  match fs !! p with
  | None => Ret (Some None)
  | Some _ => try! data := load_part E fs p in Ret (Some (Some data))
  end.

(** The file of the ramdisk. *)
Definition ramdisk_path (directory : path) (fs : files) : outcome path :=
  let! p := sprintf_path 256 directory Eramdisk_new in
  match fs !! p with Some _ => Ret p | None => sprintf_path 256 directory Eramdisk end.

(** The complete header, and the parts to write after it. *)
Definition prepare_image (E : env) (directory : path) (fs : files) : outcome (option (dumwolf * list (list Z))) :=
  try! st := read_settings E directory fs in
  let! p := sprintf_path 256 directory EzImage in
  match fs !! p with
  | None => Ret None
  | Some _ =>
      try! hdr := make_header st in
      try! kernel_data := load_part E fs p in
      let! p := ramdisk_path directory fs in
      try! ramdisk_data := load_part E fs p in
      try! second_data := load_optional E directory fs Esecond in
      try! dt_data := load_optional E directory fs Edtb in
      let size d := Z.of_nat (length d) in
      let hdr := with_sizes hdr (size kernel_data) (size ramdisk_data) (size (default [] second_data)) (size (default [] dt_data)) in
      let hdr := generate_id (stack_ctx E) (s_alg st) hdr kernel_data ramdisk_data (default [] second_data) dt_data in
      Ret (Some (hdr, [encode hdr; kernel_data; ramdisk_data] ++ option_list second_data ++ option_list dt_data))
  end.

(** [write] at the end of the file, and whether everything was written. *)
Definition write_fd (E : env) (bootimg : path) (data : list Z) (fs : files) : bool * files :=
  let old := default [] (fs !! bootimg) in
  let n := write_n E (length old) (length data) in
  (n =? Z.of_nat (length data), <[bootimg := old ++ firstn (Z.to_nat n) data]> fs).

Definition write_padding (E : env) (bootimg : path) (pagesize itemsize : Z) (fs : files) : bool * files :=
  let pagemask := u32 (pagesize - 1) in
  if itemsize .& pagemask =? 0 then (true, fs)
  else write_fd E bootimg (repeat 0 (Z.to_nat (u32 (pagesize - (itemsize .& pagemask))))) fs.

(** The parts, each followed by its padding, until a write fails. *)
Fixpoint write_parts (E : env) (bootimg : path) (pagesize : Z) (parts : list (list Z)) (fs : files) : bool * files :=
  match parts with
  | [] => (true, fs)
  | data :: parts =>
      let '(ok, fs) := write_fd E bootimg data fs in
      if negb ok then (false, fs) else
      let '(ok, fs) := write_padding E bootimg pagesize (Z.of_nat (length data)) fs in
      if negb ok then (false, fs) else write_parts E bootimg pagesize parts fs
  end.

Definition dumwolf_create_header (E : env) (bootimg directory : path) (fs : files) : outcome (Z * files) :=
  let! r := prepare_image E directory fs in
  match r with
  | None => Ret (1, fs)
  | Some (hdr, parts) =>
      let fs := if can_unlink E bootimg then delete bootimg fs else fs in
      if negb (can_create E bootimg) then Ret (1, fs) else
      let '(ok, fs) := write_parts E bootimg (page_size hdr) parts (<[bootimg := []]> fs) in
      Ret (if ok then 0 else 1, fs)
  end.
