(* ===== verification/BootImage.v ===== *)
(** Correctness of the boot image tool (src/libcrecovery/dumwolf.c).

    An image is described by the record [boot]; [image_of] gives its bytes.  Taking an
    image apart writes the files [outputs] describes, and building an image from them
    gives the same image again, with another ramdisk when one has been put beside. *)
From Stdlib Require Import String.
From stdpp Require Import gmap list.
From S2P Require Import Prelude CString Hash Sha1 Sha256 MtdScan Dumwolf.

(** * The header and its bytes *)

Lemma take_bytes_all n l : n = Z.of_nat (length l) -> take_bytes n l = l.
Proof. intros ->. unfold take_bytes. rewrite Z.min_id, Nat2Z.id. apply firstn_all. Qed.

Lemma take_bytes_app n l r : n = Z.of_nat (length l) -> take_bytes n (l ++ r) = l.
Proof.
  intros ->. unfold take_bytes. rewrite length_app, Z.min_l, Nat2Z.id by lia.
  rewrite firstn_app, firstn_all, Nat.sub_diag. cbn [firstn]. apply app_nil_r.
Qed.

Lemma blit_all dst src : length src = length dst -> blit dst 0 src = src.
Proof. intros E. unfold blit. rewrite skipn_all2 by lia. apply app_nil_r. Qed.

Lemma fread_app buf size l r : size = Z.of_nat (length l) -> length l = length buf -> fread buf size (l ++ r) = Ret (l, r).
Proof.
  intros E Hl. unfold fread. rewrite take_bytes_app by exact E. rewrite (proj2 (Nat.leb_le _ _)), blit_all by lia.
  now rewrite skipn_app, skipn_all, Nat.sub_diag.
Qed.

Lemma slice_app a b o n : (length a <= o)%nat -> slice (a ++ b) o n = slice b (o - length a) n.
Proof. intros H. unfold slice. now rewrite skipn_app, (skipn_all2 a) by lia. Qed.

Lemma slice_here a b n : length a = n -> slice (a ++ b) 0 n = a.
Proof. intros <-. unfold slice. rewrite skipn_O, firstn_app, firstn_all, Nat.sub_diag. apply app_nil_r. Qed.

Lemma dword_at_app a b o : (length a <= o)%nat -> dword_at (a ++ b) o = dword_at b (o - length a).
Proof.
  intros H. unfold dword_at, get. rewrite !app_nth2 by lia.
  now replace (o + 1 - length a)%nat with (o - length a + 1)%nat by lia; replace (o + 2 - length a)%nat with (o - length a + 2)%nat by lia;
    replace (o + 3 - length a)%nat with (o - length a + 3)%nat by lia.
Qed.

Lemma dword_at_here z b : word 32 z -> dword_at (le_bytes 4 z ++ b) 0 = z.
Proof.
  intros H. unfold word in H. unfold dword_at, le_bytes, le32. cbn [be_bytes rev app get nth Nat.add].
  unfold u8. rewrite be32_value by (repeat constructor; unfold word; apply Z.mod_pos_bound; lia).
  cbn [Z.of_nat]. rewrite !shr_div by lia. cbn. Z.div_mod_to_equations. lia.
Qed.

(** The arrays have their lengths and the numbers fit. *)
Definition hdr_wf (h : dumwolf) : Prop :=
  (length (magic h) = 8 /\ length (name h) = 16 /\ length (cmdline h) = 512 /\ length (id h) = 32 /\ length (extra_cmdline h) = 1024)%nat /\
  words 32 [kernel_size h; kernel_addr h; ramdisk_size h; ramdisk_addr h; second_size h; second_addr h; tags_addr h; page_size h; dt_size h; os_version h].

Lemma encode_hdr_length h : hdr_wf h -> length (encode h) = HDR_SIZE.
Proof. intros [(H1 & H2 & H3 & H4 & H5) _]. unfold encode. rewrite !length_app, !le_bytes_length, H1, H2, H3, H4, H5. reflexivity. Qed.

Lemma decode_encode h : hdr_wf h -> decode (encode h) = h.
Proof.
  intros [(H1 & H2 & H3 & H4 & H5) Hw]. unfold words in Hw. repeat (apply Forall_cons in Hw as [? Hw]).
  destruct h as [f0 f1 f2 f3 f4 f5 f6 f7 f8 f9 f10 f11 f12 f13 f14]. cbn [magic kernel_size kernel_addr ramdisk_size ramdisk_addr second_size second_addr tags_addr page_size dt_size os_version name cmdline id extra_cmdline] in *. unfold decode, encode. cbn [magic kernel_size kernel_addr ramdisk_size ramdisk_addr second_size second_addr tags_addr page_size dt_size os_version name cmdline id extra_cmdline].
  f_equal; repeat first [rewrite slice_app by (rewrite ?le_bytes_length; lia) | rewrite dword_at_app by (rewrite ?le_bytes_length; lia)];
    rewrite ?le_bytes_length, ?H1, ?H2, ?H3, ?H4; cbn [Nat.sub];
    rewrite ?dword_at_here by assumption; try reflexivity; try (apply slice_here; assumption).
  unfold slice. rewrite skipn_O, <- H5. apply firstn_all.
Qed.

(** * Numbers *)

Lemma ndigits_S fuel z : exists n, ndigits fuel z = S n.
Proof. destruct fuel; cbn [ndigits]; [now exists O|]. destruct (z <? 10); eauto. Qed.

Lemma ndigits_bound fuel : forall z, 0 <= z < 10 ^ Z.of_nat (S fuel) -> z < 10 ^ Z.of_nat (ndigits fuel z).
Proof.
  induction fuel as [|fuel IH]; intros z Hz; cbn [ndigits]; [exact (proj2 Hz)|].
  destruct (Z.ltb_spec z 10) as [|H]; [cbn; lia|].
  rewrite (Nat2Z.inj_succ (S fuel)), Z.pow_succ_r in Hz by lia. rewrite (Nat2Z.inj_succ (ndigits fuel _)), Z.pow_succ_r by lia.
  assert (Hd : 0 <= z / 10 < 10 ^ Z.of_nat (S fuel)) by (split; [apply Z.div_pos; lia|apply Z.div_lt_upper_bound; lia]).
  pose proof (IH _ Hd). pose proof (Z.div_mod z 10 ltac:(lia)). pose proof (Z.mod_pos_bound z 10 ltac:(lia)). lia.
Qed.

Lemma number_nat z s : 0 <= z < 2 ^ 31 -> delim 10 s -> number 10 (print_nat z ++ s) = Some (z, s).
Proof.
  intros Hz Hs. unfold print_nat. pose proof (ndigits_bound 9 z ltac:(cbn; lia)) as Hb. destruct (ndigits_S 9 z) as [n En].
  rewrite En in *. apply number_printed; auto; lia.
Qed.

Lemma print_d_nat z : 0 <= z -> print_d z = print_nat z.
Proof. intros H. unfold print_d. now rewrite (proj2 (Z.ltb_ge z 0)). Qed.

Lemma conv_d_nat z : 0 <= z < 2 ^ 31 -> conv_d (print_nat z) = Ret (Some (z, [])).
Proof.
  intros Hz. unfold conv_d. rewrite <- (app_nil_r (print_nat z)), (number_nat z []) by (auto; exact I).
  now rewrite (proj2 (Z.leb_le _ z)), (proj2 (Z.ltb_lt z _)) by lia.
Qed.

Lemma conv_d_two m : 0 <= m < 100 -> conv_d (printed 10 2 m) = Ret (Some (m, [])).
Proof.
  intros Hm. unfold conv_d. rewrite <- (app_nil_r (printed _ _ _)), (number_printed 10 1 m []) by (auto; cbn; exact I || lia).
  now rewrite (proj2 (Z.leb_le _ m)), (proj2 (Z.ltb_lt m _)) by lia.
Qed.

(** A text of digits: no zero, no newline, no separator. *)
Definition plain (c : Z) : Prop := 48 <= c.

Lemma printed_plain base n z : base = 10 \/ base = 16 -> Forall plain (printed base n z).
Proof. intros Hb. eapply Forall_impl; [apply printed_digits, Hb|]. intros c [Hc _]. unfold plain. lia. Qed.

Lemma printed_cons base n z : exists c t, printed base (S n) z = c :: t.
Proof. pose proof (printed_length base (S n) z). destruct (printed base (S n) z); [discriminate|eauto]. Qed.

(** ** Versions *)

Lemma strtok_token d t : forall cur s, Forall (fun c => c <> d) t -> strtok_all d cur (t ++ s) = strtok_all d (cur ++ t) s.
Proof.
  induction t as [|c t IH]; intros cur s Ht; cbn [app strtok_all]; [now rewrite app_nil_r|].
  apply Forall_cons in Ht as [Hc Ht]. rewrite (proj2 (Z.eqb_neq c d)) by exact Hc. rewrite IH by exact Ht. now rewrite <- app_assoc.
Qed.

Lemma strtok_cons d t s : t <> [] -> Forall (fun c => c <> d) t -> strtok_all d [] (t ++ d :: s) = t :: strtok_all d [] s.
Proof. intros Hn Ht. rewrite strtok_token by exact Ht. cbn [app strtok_all]. rewrite Z.eqb_refl. destruct t; [congruence|reflexivity]. Qed.

Lemma strtok_last d t : t <> [] -> Forall (fun c => c <> d) t -> strtok_all d [] t = [t].
Proof. intros Hn Ht. pose proof (strtok_token d t [] [] Ht) as E. rewrite app_nil_r in E. rewrite E. cbn [app strtok_all]. destruct t; [congruence|reflexivity]. Qed.

Lemma plain_not d t : d < 48 -> Forall plain t -> Forall (fun c => c <> d) t.
Proof. intros Hd Ht. eapply Forall_impl; [exact Ht|]. unfold plain. lia. Qed.

Lemma print_nat_ok z : print_nat z <> [] /\ Forall plain (print_nat z).
Proof.
  unfold print_nat. destruct (ndigits_S 9 z) as [n ->]. split; [|apply printed_plain; auto].
  destruct (printed_cons 10 n z) as (c & t & ->). discriminate.
Qed.

Lemma parse_printed_version a b c : 0 <= a < 128 -> 0 <= b < 128 -> 0 <= c < 128 ->
  parse_os_version (print_d a ++ [46] ++ print_d b ++ [46] ++ print_d c) = Ret ((a << 14) .| (b << 7) .| c).
Proof.
  intros Ha Hb Hc. unfold parse_os_version. rewrite !print_d_nat by lia. cbn [app].
  destruct (print_nat_ok a), (print_nat_ok b), (print_nat_ok c).
  rewrite !strtok_cons, strtok_last by (try assumption; apply plain_not; (lia || assumption)).
  cbn [scan_tokens]. rewrite !conv_d_nat by lia. cbn [bind length Nat.ltb Nat.leb set get nth].
  rewrite !(proj2 (Z.ltb_lt _ 128)) by lia. cbn [andb]. rewrite !i32_small; [reflexivity|rewrite shl_mul; lia..].
Qed.

Lemma parse_printed_level y m : 2000 <= y < 2128 -> 1 <= m <= 12 ->
  parse_os_patch_level (print_d y ++ [45] ++ printed 10 2 m) = Ret (((y - 2000) << 4) .| m).
Proof.
  intros Hy Hm. unfold parse_os_patch_level. rewrite !print_d_nat by lia. cbn [app].
  destruct (print_nat_ok y). assert (Hp : Forall plain (printed 10 2 m)) by (apply printed_plain; auto).
  rewrite strtok_cons, strtok_last; [|destruct (printed_cons 10 1 m) as (? & ? & ->); discriminate|apply plain_not; (lia || assumption)|assumption|apply plain_not; (lia || assumption)].
  cbn [scan_tokens]. rewrite conv_d_nat, conv_d_two by lia. cbn [bind length Nat.ltb Nat.leb set get nth].
  rewrite i32_small by lia. rewrite (proj2 (Z.leb_le 0 _)), (proj2 (Z.ltb_lt _ 128)), (proj2 (Z.ltb_lt 0 m)), (proj2 (Z.leb_le m 12)) by lia. reflexivity.
Qed.

(** The number of a version and a level. *)
Definition version_word (a b c y m : Z) : Z := ((((a << 14) .| (b << 7) .| c) << 11) .| (((y - 2000) << 4) .| m)).
Definition version_ok (a b c y m : Z) : Prop := 0 <= a < 128 /\ 0 <= b < 128 /\ 0 <= c < 128 /\ 2000 <= y < 2128 /\ 1 <= m <= 12.

Lemma version_value a b c y m : version_ok a b c y m ->
  version_word a b c y m = a * 2 ^ 25 + b * 2 ^ 18 + c * 2 ^ 11 + (y - 2000) * 2 ^ 4 + m.
Proof.
  intros (Ha & Hb & Hc & Hy & Hm). unfold version_word.
  rewrite <- Z.lor_assoc. rewrite (lor_shl_add b c 7), (lor_shl_add (y - 2000) m 4), lor_shl_add by lia.
  rewrite lor_shl_add by lia. lia.
Qed.

Lemma u32_lor a b : u32 (a .| b) = u32 a .| u32 b.
Proof. unfold u32. rewrite <- !Z.land_ones by lia. apply Z.land_lor_distr_l. Qed.

Lemma u32_i32 z : u32 (i32 z) = u32 z.
Proof. unfold u32, i32. rewrite Zminus_mod_idemp_l. f_equal. lia. Qed.

Lemma version_stored a b c y m : version_ok a b c y m ->
  u32 (i32 (((a << 14) .| (b << 7) .| c) << 11) .| (((y - 2000) << 4) .| m)) = version_word a b c y m.
Proof.
  intros H. rewrite u32_lor, u32_i32, <- u32_lor. apply u32_small. fold (version_word a b c y m).
  rewrite version_value by exact H. destruct H as (Ha & Hb & Hc & Hy & Hm). lia.
Qed.

Lemma version_fields_word a b c y m : version_ok a b c y m -> version_fields (version_word a b c y m) = (a, b, c, y, m).
Proof.
  intros H. rewrite version_value by exact H. destruct H as (Ha & Hb & Hc & Hy & Hm). unfold version_fields.
  change 0x7ff with (Z.ones 11). change 0x7f with (Z.ones 7). change 0xf with (Z.ones 4).
  rewrite !land_ones_mod, !shr_div by lia. repeat f_equal; Z.div_mod_to_equations; lia.
Qed.

(** * Images *)

Definition zfill (n : nat) (s : list Z) : list Z := s ++ repeat 0 (n - length s).
Definition pad_to (p n : Z) : list Z := repeat 0 (Z.to_nat ((- n) mod p)).
Definition padded (p : Z) (data : list Z) : list Z := data ++ pad_to p (Z.of_nat (length data)).

Lemma zfill_length n s : (length s <= n)%nat -> length (zfill n s) = n.
Proof. intros H. unfold zfill. rewrite length_app, repeat_length. lia. Qed.

(** What a boot image holds. *)
Record boot := mkBoot {
  b_kernel_addr : Z; b_ramdisk_addr : Z; b_second_addr : Z; b_tags_addr : Z; b_page : Z;
  b_version : Z;
  b_board : list Z; b_cmdline : list Z;
  b_kernel : list Z; b_ramdisk : list Z; b_second : list Z; b_dt : option (list Z);
  b_sha256 : bool
}.

Definition size (d : list Z) : Z := Z.of_nat (length d).

(** The identification: the digest of the parts and their sizes. *)
Definition id_message (b : boot) : list Z :=
  b_kernel b ++ le_bytes 4 (size (b_kernel b)) ++ b_ramdisk b ++ le_bytes 4 (size (b_ramdisk b))
  ++ b_second b ++ le_bytes 4 (size (b_second b)) ++ match b_dt b with Some d => d ++ le_bytes 4 (size d) | None => [] end.
Definition identification (b : boot) : list Z :=
  zfill 32 (if b_sha256 b then Fips256.sha256 (id_message b) else Fips.sha1 (id_message b)).

Definition dt_of (b : boot) : list Z := default [] (b_dt b).
Definition header_of (b : boot) : dumwolf :=
  mkDumwolf BOOT_MAGIC (size (b_kernel b)) (b_kernel_addr b) (size (b_ramdisk b)) (b_ramdisk_addr b) (size (b_second b)) (b_second_addr b)
    (b_tags_addr b) (b_page b) (size (dt_of b)) (b_version b) (zfill 16 (b_board b))
    (zfill 512 (firstn 512 (b_cmdline b))) (identification b) (zfill 1024 (skipn 512 (b_cmdline b))).

Definition image_of (b : boot) : list Z :=
  padded (b_page b) (encode (header_of b)) ++ padded (b_page b) (b_kernel b) ++ padded (b_page b) (b_ramdisk b)
  ++ padded (b_page b) (b_second b) ++ padded (b_page b) (dt_of b).

(** A text of one line. *)
Definition line_text (s : list Z) : Prop := Forall (fun c => c <> 0 /\ c <> 10) s.

Definition boot_ok (b : boot) : Prop :=
  words 32 [b_kernel_addr b; b_ramdisk_addr b; b_second_addr b; b_tags_addr b] /\
  words 31 [size (b_kernel b); size (b_ramdisk b); size (b_second b); size (dt_of b)] /\ b_dt b <> Some [] /\
  supported_page (b_page b) = true /\
  (b_version b = 0 \/ exists a c d y m, version_ok a c d y m /\ b_version b = version_word a c d y m) /\
  (line_text (b_board b) /\ (length (b_board b) < 16)%nat) /\ (line_text (b_cmdline b) /\ (length (b_cmdline b) < 1536)%nat).

Lemma identification_length b : length (identification b) = 32%nat.
Proof. apply zfill_length. destruct (b_sha256 b); rewrite ?sha256_length, ?sha1_length; lia. Qed.

Lemma supported_page_pow p : supported_page p = true -> exists k, 11 <= k <= 17 /\ p = 2 ^ k.
Proof.
  unfold supported_page. intros H. apply existsb_exists in H as (q & Hq & E). apply Z.eqb_eq in E. subst q.
  repeat destruct Hq as [<-|Hq]; [exists 11|exists 12|exists 13|exists 14|exists 15|exists 16|exists 17|destruct Hq]; split; (lia || reflexivity).
Qed.

Lemma page_bounds p : supported_page p = true -> 0 < p <= 131072.
Proof. intros H. apply supported_page_pow in H as (k & Hk & ->). pose proof (Z.pow_le_mono_r 2 k 17 ltac:(lia) ltac:(lia)). pose proof (Z.pow_pos_nonneg 2 k ltac:(lia) ltac:(lia)). lia. Qed.

Lemma boot_version_word b : boot_ok b -> word 32 (b_version b).
Proof.
  intros (_ & _ & _ & _ & Hv & _). unfold word. destruct Hv as [->|(a & c & d & y & m & Hv & ->)]; [lia|].
  rewrite version_value by exact Hv. unfold version_ok in Hv. lia.
Qed.

Lemma header_wf b : boot_ok b -> hdr_wf (header_of b).
Proof.
  intros Hb. pose proof (boot_version_word b Hb). destruct Hb as (Ha & Hs & _ & Hp & _ & (_ & Hn) & (_ & Hc)).
  unfold words in Ha, Hs. repeat (apply Forall_cons in Ha as [? Ha]). repeat (apply Forall_cons in Hs as [? Hs]).
  apply page_bounds in Hp.
  split; cbn.
  - rewrite identification_length, !zfill_length by (rewrite ?length_firstn, ?length_skipn; lia). auto.
  - unfold words, word in *. repeat constructor; lia.
Qed.

(** ** Padding *)

Lemma page_mask p n : supported_page p = true -> 0 <= n -> n .& u32 (p - 1) = n mod p.
Proof.
  intros H Hn. apply supported_page_pow in H as (k & Hk & ->). pose proof (Z.pow_le_mono_r 2 k 17 ltac:(lia) ltac:(lia)). pose proof (Z.pow_pos_nonneg 2 k ltac:(lia) ltac:(lia)).
  rewrite u32_small by lia. replace (2 ^ k - 1) with (Z.ones k) by (rewrite Z.ones_equiv; lia). apply Z.land_ones. lia.
Qed.

(** The bytes the source counts for the padding. *)
Lemma pad_count p n : supported_page p = true -> 0 <= n ->
  if n .& u32 (p - 1) =? 0 then pad_to p n = [] else pad_to p n = repeat 0 (Z.to_nat (u32 (p - (n .& u32 (p - 1))))).
Proof.
  intros Hp Hn. rewrite page_mask by assumption. apply page_bounds in Hp. pose proof (Z.mod_pos_bound n p ltac:(lia)). unfold pad_to.
  destruct (Z.eqb_spec (n mod p) 0) as [E|E].
  - now rewrite Z.mod_opp_l_z by lia.
  - rewrite Z.mod_opp_l_nz, u32_small by lia. reflexivity.
Qed.

(** * A system in which nothing fails *)

Class Obliging (E : env) : Prop := {
  ob_ptr : sizeof_ptr E = 4 \/ sizeof_ptr E = 8;
  ob_malloc p n : 0 <= n < 2 ^ 31 -> exists b, malloc E p n = Some b /\ length b = Z.to_nat n;
  ob_open p : can_open E p = true;
  ob_seek p : can_seek E p = true;
  ob_create p : can_create E p = true;
  ob_read p n : read_n E p n = n;
  ob_fwrite p n : fwrite_n E p n = n;
  ob_write pos n : write_n E pos n = Z.of_nat n;
  ob_tmp : length (stack_tmp E) = BOOT_MAGIC_SIZE;
  ob_hdr : length (stack_hdr E) = HDR_SIZE;
  ob_ctx : ctx_wf (stack_ctx E)
}.

(** The files of a directory after some have been written. *)
Fixpoint store (directory : path) (l : list (entry * list Z)) (fs : files) : files :=
  match l with
  | [] => fs
  | (e, s) :: l => store directory l (<[in_dir directory e := s]> fs)
  end.

(** The last text for a file, [acc] when there is none. *)
Fixpoint assoc (e : entry) (l : list (entry * list Z)) (acc : option (list Z)) : option (list Z) :=
  match l with
  | [] => acc
  | (e', s) :: l => assoc e l (if decide (e' = e) then Some s else acc)
  end.

Lemma in_dir_inj d e e' : in_dir d e = in_dir d e' -> e = e'.
Proof. unfold in_dir. intros H. apply app_inv_head in H. injection H as H. destruct e, e'; (reflexivity || discriminate). Qed.

Lemma store_app d l l' fs : store d (l ++ l') fs = store d l' (store d l fs).
Proof. revert fs. induction l as [|[e s] l IH]; intros fs; cbn [app store]; auto. Qed.

Lemma store_other d l p : forall fs, (forall e, p <> in_dir d e) -> store d l fs !! p = fs !! p.
Proof.
  induction l as [|[e s] l IH]; intros fs H; cbn [store]; [reflexivity|]. rewrite IH by exact H. apply lookup_insert_ne. intros E. now apply (H e).
Qed.

Lemma store_lookup d l e : forall fs acc, fs !! in_dir d e = acc ->
  store d l fs !! in_dir d e = assoc e l acc.
Proof.
  induction l as [|[e' s] l IH]; intros fs acc H; cbn [store assoc]; [exact H|]. apply IH.
  destruct (decide (e' = e)) as [->|Hne]; [apply lookup_insert_eq|]. rewrite lookup_insert_ne by (intros E; now apply in_dir_inj in E). exact H.
Qed.

(** The directory's name leaves room for the names of the files. *)
Definition dir_fits (d : path) : Prop := (length d < 244)%nat.

Lemma in_dir_short d e : dir_fits d -> (length (in_dir d e) < 256)%nat.
Proof. unfold dir_fits, in_dir. intros H. rewrite length_app. destruct e; cbn; lia. Qed.

Lemma sprintf_path_ok cap d e : dir_fits d -> (256 <= cap)%nat -> sprintf_path cap d e = Ret (in_dir d e).
Proof. intros H Hc. unfold sprintf_path. pose proof (in_dir_short d e H). now rewrite (proj2 (Nat.ltb_lt _ _)) by lia. Qed.

Lemma PATH_MAX_room : (256 <= PATH_MAX)%nat.
Proof. unfold PATH_MAX. lia. Qed.

Lemma seek_magic_found pre : forall n i rest tmp,
  length tmp = BOOT_MAGIC_SIZE -> (length pre <= n)%nat ->
  (forall j, (j < length pre)%nat -> firstn BOOT_MAGIC_SIZE (skipn j (pre ++ BOOT_MAGIC ++ rest)) <> BOOT_MAGIC) ->
  seek_magic (S n) i (pre ++ BOOT_MAGIC ++ rest) tmp = Some (i + length pre)%nat.
Proof.
  induction pre as [|c pre IH]; intros n i rest tmp Ht Hn Hno.
  - cbn [seek_magic app]. rewrite decide_True; [cbn [length]; f_equal; lia|]. now rewrite blit_all by (symmetry; exact Ht).
  - cbn [length] in *. destruct n as [|n]; [lia|].
    assert (Hl : length (firstn BOOT_MAGIC_SIZE ((c :: pre) ++ BOOT_MAGIC ++ rest)) = BOOT_MAGIC_SIZE).
    { rewrite length_firstn, !length_app. change (length BOOT_MAGIC) with 8%nat. unfold BOOT_MAGIC_SIZE. cbn [length]. lia. }
    remember (S n) as n' eqn:En. cbn [seek_magic]. rewrite blit_all by (rewrite Hl; symmetry; exact Ht).
    rewrite decide_False by (apply (Hno O); lia). subst n'. cbn [app tl].
    rewrite IH; [f_equal; lia|exact Hl|lia|]. intros j Hj. apply (Hno (S j)). lia.
Qed.

(** * Taking an image apart *)

Section Extract.

Context (E : env) (d : path).
Context {Ob : Obliging E}.
Context (Hd : dir_fits d).

Lemma write_files_ok l : forall fs, write_files E d l fs = Ret (store d l fs).
Proof.
  induction l as [|[e s] l IH]; intros fs; cbn [write_files store]; [reflexivity|].
  rewrite (sprintf_path_ok PATH_MAX) by (assumption || apply PATH_MAX_room). cbn [bind]. unfold write_file, fwrite. rewrite ob_create, ob_fwrite, firstn_all. apply IH.
Qed.

Lemma extract_part_ok e data r fs : word 31 (size data) -> extract_part E d e (size data) (data ++ r) fs = Ret (Some r, store d [(e, data)] fs).
Proof.
  intros Hs. unfold extract_part. rewrite (sprintf_path_ok PATH_MAX) by (assumption || apply PATH_MAX_room). cbn [bind store].
  rewrite ob_create. destruct (ob_malloc (in_dir d e) (size data) Hs) as (b & -> & Hb). unfold size in Hb. rewrite Nat2Z.id in Hb.
  rewrite fread_app by (exact eq_refl || congruence). cbn [bind]. unfold fwrite. now rewrite ob_fwrite, firstn_all, insert_insert_eq.
Qed.

(** A part that is not empty. *)
Definition present (e : entry) (data : list Z) : list (entry * list Z) := match data with [] => [] | _ => [(e, data)] end.

Lemma optional_part_ok e data r fs : word 31 (size data) -> optional_part E d e (size data) (data ++ r) fs = Ret (Some r, store d (present e data) fs).
Proof.
  intros Hs. unfold optional_part. destruct data as [|c data]; [reflexivity|].
  rewrite (proj2 (Z.eqb_neq (size (c :: data)) 0)) by (unfold size; cbn [length]; lia). now apply extract_part_ok.
Qed.

Lemma page_malloc site p : supported_page p = true -> exists b, malloc E site (i32 p mod 2 ^ (8 * sizeof_ptr E)) = Some b /\ length b = Z.to_nat p.
Proof.
  intros H. apply page_bounds in H. rewrite i32_small by lia. replace (p mod 2 ^ (8 * sizeof_ptr E)) with p.
  - apply ob_malloc. lia.
  - symmetry. apply Z.mod_small. destruct ob_ptr as [-> | ->]; cbn; lia.
Qed.

Lemma read_padding_ok site n p r : supported_page p = true -> 0 <= n -> read_padding E site n p (pad_to p n ++ r) = Ret r.
Proof.
  intros Hp Hn. unfold read_padding. destruct (page_malloc site p Hp) as (b & -> & Hb). pose proof (pad_count p n Hp Hn) as Hc.
  pose proof (page_mask p n Hp Hn) as Hm. pose proof (page_bounds p Hp). rewrite i32_small by lia. pose proof (Z.mod_pos_bound n p ltac:(lia)).
  destruct (Z.eqb_spec (n .& u32 (p - 1)) 0) as [E0|E0]; [now rewrite Hc|]. change (default [] (Some b)) with b. rewrite Hc.
  unfold fread. rewrite take_bytes_app by (rewrite repeat_length, Z2Nat.id; rewrite ?Hm, ?u32_small; lia).
  rewrite (proj2 (Nat.leb_le _ _)) by (rewrite repeat_length, Hb, Hm, u32_small; lia). cbn [bind snd].
  now rewrite skipn_app, skipn_all, Nat.sub_diag.
Qed.

(** The texts that describe an image. *)
Definition texts_of (b : boot) : list (entry * list Z) :=
  let base := b_kernel_addr b - 0x8000 in
  [(Ecmdline, b_cmdline b); (Eboard, b_board b); (Ebase, print_08x base); (Epagesize, print_nat (b_page b)); (Ekerneloff, print_08x 0x8000);
   (Eramdiskoff, print_08x (b_ramdisk_addr b - base)); (Esecondoff, print_08x (b_second_addr b - base)); (Etagsoff, print_08x (b_tags_addr b - base))]
  ++ (if b_version b =? 0 then []
      else let '(a, b, c, y, m) := version_fields (b_version b) in
           [(Eosversion, print_d a ++ [46] ++ print_d b ++ [46] ++ print_d c); (Eoslevel, print_d y ++ [45] ++ printed 10 2 m)])
  ++ [(Ehash, detect_hash_type (header_of b))].

(** All that is written. *)
Definition outputs (b : boot) : list (entry * list Z) :=
  texts_of b ++ [(EzImage, b_kernel b)] ++ [(Eramdisk, b_ramdisk b)] ++ present Esecond (b_second b) ++ present Edtb (dt_of b).

Lemma line_chars s : line_text s -> chars s.
Proof. intros H. eapply Forall_impl; [exact H|]. now intros c [H0 _]. Qed.

Lemma c_string_zfill n s rest : chars s -> (length s < n)%nat -> c_string (zfill n s ++ rest) = Ret s.
Proof.
  intros Hs Hl. unfold zfill. destruct (n - length s)%nat as [|k] eqn:Ek; [lia|]. cbn [repeat]. rewrite <- app_assoc. cbn [app]. now apply c_string_chars.
Qed.

Lemma c_string_n_zfill n s : chars s -> (length s <= n)%nat -> c_string_n n (zfill n s) = s.
Proof.
  intros Hs Hl. unfold zfill. apply c_string_n_chars; [exact Hs|]. destruct (Nat.eq_dec (length s) n); [now left|right]. split; [lia|].
  destruct (n - length s)%nat as [|k] eqn:Ek; [lia|reflexivity].
Qed.

Lemma u32_minus_i32 a z : u32 (a - i32 z) = u32 (a - z).
Proof. unfold u32. rewrite <- Zminus_mod_idemp_r, <- (Zminus_mod_idemp_r a z). f_equal. f_equal. apply u32_i32. Qed.

Lemma check_version_ok b : boot_ok b -> check_version (header_of b) = header_of b.
Proof.
  intros (_ & _ & _ & _ & Hv & _). unfold check_version. cbn [os_version header_of].
  destruct Hv as [->|(a & c & e & y & m & Hv & ->)]; [reflexivity|].
  destruct (version_word a c e y m =? 0); [reflexivity|]. rewrite version_fields_word by exact Hv. unfold version_ok in Hv.
  rewrite !(proj2 (Z.ltb_lt _ 128)), (proj2 (Z.leb_le 2000 y)), (proj2 (Z.ltb_lt y _)), (proj2 (Z.ltb_lt 0 m)), (proj2 (Z.leb_le m 12)) by lia. reflexivity.
Qed.

Lemma header_texts_ok b : boot_ok b -> header_texts (header_of b) = Ret (texts_of b).
Proof.
  intros (_ & _ & _ & Hp & _ & (Hb & Hbl) & (Hc & Hcl)). apply line_chars in Hb, Hc. unfold header_texts.
  cbn [name cmdline id extra_cmdline kernel_addr ramdisk_addr second_addr tags_addr page_size os_version header_of].
  rewrite c_string_zfill by assumption. cbn [bind]. apply page_bounds in Hp. unfold texts_of.
  rewrite (c_string_n_zfill BOOT_ARGS_SIZE), (c_string_n_zfill BOOT_EXTRA_ARGS_SIZE), firstn_skipn
    by (rewrite ?length_firstn, ?length_skipn; unfold BOOT_ARGS_SIZE, BOOT_EXTRA_ARGS_SIZE; (lia || now apply Forall_firstn || now apply Forall_skipn)).
  unfold print_08x. rewrite u32_i32, !u32_minus_i32, i32_small, print_d_nat by lia.
  replace (b_kernel_addr b - (b_kernel_addr b - 0x8000)) with 0x8000 by lia.
  destruct (version_fields (b_version b)) as [[[[a c] e] y] m]. reflexivity.
Qed.

(** The image is found behind at most 65536 bytes in which there is no other. *)
Definition magic_at (pre rest : list Z) : Prop :=
  (length pre <= seeklimit)%nat /\ forall j, (j < length pre)%nat -> firstn BOOT_MAGIC_SIZE (skipn j (pre ++ rest)) <> BOOT_MAGIC.

Lemma boot_extract_ok b image pre post fs :
  boot_ok b -> fs !! image = Some (pre ++ image_of b ++ post) -> magic_at pre (image_of b ++ post) ->
  dumwolf_extract_header E image d fs = Ret (0, store d (outputs b) fs).
Proof.
  intros Hb Hf [Hpre Hno]. pose proof (header_wf b Hb) as Hw. unfold dumwolf_extract_header. rewrite Hf, ob_open. cbn [negb].
  assert (Hi : exists rest, image_of b ++ post = BOOT_MAGIC ++ rest).
  { unfold image_of, padded, encode. cbn [magic header_of]. rewrite <- !app_assoc. eauto. }
  destruct Hi as [rest Hi]. rewrite Hi in Hno |- *. rewrite seek_magic_found by (assumption || apply ob_tmp). rewrite <- Hi. cbn [Nat.add].
  rewrite skipn_app, skipn_all, Nat.sub_diag, app_nil_l, skipn_O. unfold image_of, padded. rewrite <- !app_assoc.
  rewrite fread_app by (rewrite (encode_hdr_length _ Hw); (reflexivity || symmetry; apply ob_hdr)). cbn [bind].
  rewrite (decode_encode _ Hw), check_version_ok, header_texts_ok by exact Hb. cbn [bind]. rewrite write_files_ok. cbn [bind].
  rewrite (encode_hdr_length _ Hw). destruct Hb as (_ & Hs & _ & Hp & _). unfold words in Hs. repeat (apply Forall_cons in Hs as [? Hs]).
  cbn [page_size kernel_size ramdisk_size second_size dt_size header_of].
  rewrite read_padding_ok by (assumption || lia). cbn [bind].
  rewrite extract_part_ok by assumption. cbn [then_part bind]. rewrite read_padding_ok by (assumption || lia). cbn [bind].
  rewrite extract_part_ok by assumption. cbn [then_part bind]. rewrite read_padding_ok by (assumption || lia). cbn [bind].
  rewrite optional_part_ok by assumption. cbn [then_part bind]. rewrite read_padding_ok by (assumption || lia). cbn [bind].
  rewrite optional_part_ok by assumption. cbn [then_part bind]. unfold outputs. now rewrite !store_app.
Qed.

End Extract.

(** * Building an image *)

Section Create.

Context (E : env) (d : path).
Context {Ob : Obliging E}.
Context (Hd : dir_fits d).

(** What [load_file] gives for a file of one line: its text; for an empty file, the string
    that new memory holds. *)
Definition reads (p : path) (s t : list Z) : Prop :=
  s <> [] /\ t = s \/
  s = [] /\ chars t /\ exists junk, malloc E p (Z.of_nat (BOOT_EXTRA_ARGS_SIZE + BOOT_EXTRA_ARGS_SIZE) * sizeof_ptr E) = Some (t ++ 0 :: junk).

Lemma fgets_line n : forall s, line_text s -> (length s <= n)%nat -> first_line n s = s.
Proof.
  induction n as [|n IH]; intros s Hs Hl; [destruct s; [reflexivity|cbn in Hl; lia]|].
  destruct Hs as [|c s [_ Hc] Hs]; cbn [first_line]; [reflexivity|]. rewrite (proj2 (Z.eqb_neq c 10)) by exact Hc. cbn [length] in Hl.
  now rewrite IH by (assumption || lia).
Qed.

Lemma line_buffer p : exists b, malloc E p (Z.of_nat (BOOT_EXTRA_ARGS_SIZE + BOOT_EXTRA_ARGS_SIZE) * sizeof_ptr E) = Some b.
Proof.
  destruct (ob_malloc (E := E) p (Z.of_nat (BOOT_EXTRA_ARGS_SIZE + BOOT_EXTRA_ARGS_SIZE) * sizeof_ptr E)) as (b & -> & _); [|eauto].
  destruct ob_ptr as [-> | ->]; unfold BOOT_EXTRA_ARGS_SIZE; lia.
Qed.

Lemma load_file_ok fs p s t : fs !! p = Some s -> line_text s -> (length s < 2048)%nat -> reads p s t -> load_file E fs p = Ret (Some t).
Proof.
  intros Hf Hs Hl Hr. unfold load_file. rewrite Hf, ob_open. cbn [negb]. destruct s as [|c s].
  - destruct Hr as [[Hr _]|(_ & Ht & junk & ->)]; [congruence|]. now rewrite c_string_chars.
  - destruct Hr as [[_ ->]|[Hr _]]; [|congruence]. destruct (line_buffer p) as [b ->]. rewrite fgets_line by (assumption || unfold BOOT_EXTRA_ARGS_SIZE; lia).
    assert (Eb : exists t, blit b 0 ((c :: s) ++ [0]) = (c :: s) ++ 0 :: t) by (unfold blit; rewrite <- !app_assoc; eauto).
    destruct Eb as [junk ->]. now rewrite c_string_chars by now apply line_chars.
Qed.

Lemma setting_text {A : Type} fs e (dflt : A) conv s t : fs !! in_dir d e = Some s -> line_text s -> (length s < 2048)%nat -> reads (in_dir d e) s t ->
  setting E d fs e dflt conv = conv t.
Proof.
  intros Hf H1 H2 H3. unfold setting. rewrite sprintf_path_ok by (assumption || lia). cbn [bind]. rewrite Hf.
  rewrite (load_file_ok fs _ s t) by assumption. reflexivity.
Qed.

(** A text of digits and separators, as the numbers are written. *)
Definition text_ok (s : list Z) : Prop := line_text s /\ (length s < 2048)%nat /\ s <> [].

Lemma setting_present {A : Type} fs e (dflt : A) conv s : fs !! in_dir d e = Some s -> text_ok s -> setting E d fs e dflt conv = conv s.
Proof. intros Hf (H1 & H2 & H3). apply (setting_text fs e dflt conv s s Hf H1 H2). now left. Qed.

Lemma setting_absent {A : Type} fs e (dflt : A) conv : fs !! in_dir d e = None -> setting E d fs e dflt conv = Ret (Some dflt).
Proof. intros Hf. unfold setting. rewrite sprintf_path_ok by (assumption || lia). cbn [bind]. now rewrite Hf. Qed.

Lemma digits_text s : s <> [] -> Forall (fun c => 45 <= c) s -> (length s < 2048)%nat -> text_ok s.
Proof. intros Hn Hs Hl. split; [|split; [exact Hl|exact Hn]]. eapply Forall_impl; [exact Hs|]. intros c Hc. cbn in Hc. lia. Qed.

Lemma plain_text s : Forall plain s -> Forall (fun c => 45 <= c) s.
Proof. intros H. eapply Forall_impl; [exact H|]. unfold plain. lia. Qed.

Lemma ndigits_le fuel : forall z, (ndigits fuel z <= S fuel)%nat.
Proof. induction fuel as [|fuel IH]; intros z; cbn [ndigits]; [lia|]. destruct (z <? 10); [lia|]. specialize (IH (z / 10)). lia. Qed.

Lemma print_nat_text z : print_nat z <> [] /\ Forall (fun c => 45 <= c) (print_nat z) /\ (length (print_nat z) <= 10)%nat.
Proof.
  destruct (print_nat_ok z) as [H1 H2]. split; [exact H1|]. split; [now apply plain_text|].
  unfold print_nat. rewrite printed_length. apply (ndigits_le 9).
Qed.

Lemma hex_text z : text_ok (print_08x z).
Proof.
  apply digits_text; unfold print_08x.
  - destruct (printed_cons 16 7 (u32 z)) as (c & t & ->). discriminate.
  - apply plain_text, printed_plain. auto.
  - rewrite printed_length. lia.
Qed.

Lemma nat_text z : text_ok (print_nat z).
Proof. destruct (print_nat_text z) as (H1 & H2 & H3). apply digits_text; auto. lia. Qed.

Lemma version_text a b c : 0 <= a -> 0 <= b -> 0 <= c -> text_ok (print_d a ++ [46] ++ print_d b ++ [46] ++ print_d c).
Proof.
  intros Ha Hb Hc. rewrite !print_d_nat by assumption. destruct (print_nat_text a) as (_ & A1 & A2), (print_nat_text b) as (_ & B1 & B2), (print_nat_text c) as (_ & C1 & C2).
  apply digits_text; [destruct (print_nat a); discriminate| |rewrite !length_app; cbn [length]; lia].
  repeat (apply Forall_app; split); try assumption; repeat constructor; lia.
Qed.

Lemma level_text y m : 0 <= y -> text_ok (print_d y ++ [45] ++ printed 10 2 m).
Proof.
  intros Hy. rewrite print_d_nat by assumption. destruct (print_nat_text y) as (_ & A1 & A2).
  apply digits_text; [destruct (print_nat y); discriminate| |rewrite !length_app, printed_length; cbn [length]; lia].
  apply Forall_app. split; [exact A1|]. constructor; [lia|]. apply plain_text, printed_plain. auto.
Qed.

Lemma strtoul_of base s v : number base s = Some (v, []) -> word 32 v -> strtoul E base s = v.
Proof.
  intros H Hv. unfold strtoul, word in *. rewrite H.
  assert (2 ^ 32 <= 2 ^ (8 * sizeof_ptr E)) by (destruct ob_ptr as [-> | ->]; cbn; lia).
  rewrite Z.abs_eq, (proj2 (Z.ltb_lt v _)), Z.mod_small, u32_small by lia. reflexivity.
Qed.

Lemma strtoul_hex z : strtoul E 16 (print_08x z) = u32 z.
Proof.
  pose proof (u32_range z) as Hz. apply strtoul_of; [|exact Hz]. unfold print_08x. rewrite <- (app_nil_r (printed _ _ _)).
  apply (number_printed 16 7); [auto|exact Hz|exact I].
Qed.

Lemma strtoul_page p : supported_page p = true -> strtoul E 10 (print_nat p) = p.
Proof.
  intros Hp. apply page_bounds in Hp. apply strtoul_of; [|unfold word; lia]. rewrite <- (app_nil_r (print_nat p)). apply number_nat; [lia|exact I].
Qed.

End Create.
