(* ===== verification/BootRoundTrip.v ===== *)
(** Taking a boot image apart and building it again (src/libcrecovery/dumwolf.c): the
    header, the identification and the bytes that [dumwolf_create_header] writes, and the
    round trip. *)
From Stdlib Require Import String.
From stdpp Require Import gmap list.
From S2P Require Import Prelude CString Hash Sha1 Sha256 MtdScan Dumwolf BootImage.

(** * The identification *)

Lemma boot_sha1 ctx chunks : ctx_wf ctx ->
  firstn SHA_DIGEST_SIZE (buf (SHA_final (fold_left SHA_update chunks (SHA_init ctx)))) = Fips.sha1 (concat chunks).
Proof. intros Hc. apply SHA_final_absorbed, (absorbed_chunks (Alg := SHA_VTAB) chunks _ []). exact (absorbed_init (Alg := SHA_VTAB) ctx Hc). Qed.

Lemma boot_sha256 ctx chunks : ctx_wf ctx ->
  firstn SHA256_DIGEST_SIZE (buf (SHA256_final (fold_left SHA256_update chunks (SHA256_init ctx)))) = Fips256.sha256 (concat chunks).
Proof. intros Hc. apply SHA256_final_absorbed, (absorbed_chunks (Alg := SHA256_VTAB) chunks _ []). now apply SHA256_init_absorbed. Qed.

Lemma blit_zfill n s : (length s <= n)%nat -> blit (repeat 0 n) 0 s = zfill n s.
Proof. intros H. unfold blit, zfill. cbn [firstn Nat.add]. now rewrite skipn_repeat. Qed.

Lemma blit_terminated n s : (length s < n)%nat -> blit (repeat 0 n) 0 (s ++ [0]) = zfill n s.
Proof.
  intros H. rewrite blit_zfill by (rewrite length_app; cbn [length]; lia). unfold zfill. rewrite <- app_assoc, length_app. cbn [app length].
  destruct (n - length s)%nat as [|k] eqn:E; [lia|]. cbn [repeat]. do 3 f_equal. lia.
Qed.

Lemma id_chunks_message b h : kernel_size h = size (b_kernel b) -> ramdisk_size h = size (b_ramdisk b) -> second_size h = size (b_second b) ->
  dt_size h = size (dt_of b) -> concat (id_chunks h (b_kernel b) (b_ramdisk b) (b_second b) (b_dt b)) = id_message b.
Proof.
  intros Hk Hr Hs Ht. unfold id_chunks, id_message, dt_of in *. rewrite Hk, Hr, Hs, Ht. unfold size. rewrite !take_bytes_all by reflexivity.
  destruct (b_dt b) as [t|]; cbn [app concat]; [|now rewrite ?app_nil_r]. rewrite take_bytes_all by reflexivity. now rewrite app_nil_r.
Qed.

Definition alg_for (sha256 : bool) : hash_alg := if sha256 then HASH_SHA256 else HASH_SHA1.

Lemma generate_id_ok ctx b h : ctx_wf ctx -> id h = repeat 0 32 -> kernel_size h = size (b_kernel b) -> ramdisk_size h = size (b_ramdisk b) ->
  second_size h = size (b_second b) -> dt_size h = size (dt_of b) ->
  generate_id ctx (alg_for (b_sha256 b)) h (b_kernel b) (b_ramdisk b) (b_second b) (b_dt b) = with_id h (identification b).
Proof.
  intros Hc Hi Hk Hr Hs Ht. pose proof (id_chunks_message b h Hk Hr Hs Ht) as Hm. unfold alg_for, identification. destruct (b_sha256 b); cbn [generate_id].
  - unfold generate_id_sha256. rewrite boot_sha256, Hm, Hi, blit_zfill by (assumption || rewrite sha256_length; lia). reflexivity.
  - unfold generate_id_sha1. rewrite boot_sha1, Hm, Hi, blit_zfill by (assumption || rewrite sha1_length; lia). reflexivity.
Qed.

(** A SHA-256 identification is recognised when none of its words is zero. *)
Definition recognised (b : boot) : bool := b_sha256 b && forallb (fun i => negb (dword_at (identification b) (4 * i) =? 0)) (seq 0 8).

Lemma sha1_never_sha256 b : b_sha256 b = false -> dword_at (identification b) (4 * 5) = 0.
Proof.
  intros Hb. unfold identification, zfill. rewrite Hb. pose proof (sha1_length (id_message b)) as Hl.
  rewrite dword_at_app by (rewrite Hl; lia). rewrite Hl. reflexivity.
Qed.

Lemma detected b : choose_hash (detect_hash_type (header_of b)) = Ret (Some (alg_for (recognised b))).
Proof.
  unfold detect_hash_type, recognised. cbn [id header_of]. set (words := forallb _ (seq 0 8)). destruct (b_sha256 b) eqn:Hb; cbn [andb].
  - destruct words; [reflexivity|]. destruct (_ && _); reflexivity.
  - replace words with false; [destruct (_ && _); reflexivity|]. symmetry. apply not_true_iff_false. intros H. unfold words in H.
    rewrite forallb_forall in H. specialize (H 5%nat ltac:(cbn; tauto)). apply negb_true_iff, Z.eqb_neq in H. now apply H, sha1_never_sha256.
Qed.

(** * The header *)

(** The image that is described by settings and parts. *)
Definition is_sha256 (alg : hash_alg) : bool := match alg with HASH_SHA256 => true | _ => false end.
Definition boot_of (st : boot_settings) (kernel ramdisk second : list Z) (dt : option (list Z)) : boot :=
  mkBoot (s_base st [+] s_kernel st) (s_base st [+] s_ramdisk st) (s_base st [+] s_second st) (s_base st [+] s_tags st) (s_pagesize st)
    (u32 (i32 (s_version st << 11) .| s_level st)) (s_board st) (s_cmdline st) kernel ramdisk second dt (is_sha256 (s_alg st)).

Lemma zfill_split n k s : (length s <= n)%nat -> firstn n (zfill (n + k) s) = zfill n s /\ skipn n (zfill (n + k) s) = repeat 0 k.
Proof.
  intros H. unfold zfill. replace (n + k - length s)%nat with ((n - length s) + k)%nat by lia. rewrite repeat_app, app_assoc.
  assert (Hl : length (s ++ repeat 0 (n - length s)) = n) by (rewrite length_app, repeat_length; lia).
  split; [rewrite firstn_app, firstn_all2 by lia|rewrite skipn_app, skipn_all2 by lia]; rewrite Hl, Nat.sub_diag; [apply app_nil_r|reflexivity].
Qed.

Lemma make_header_ok st k r s t : (length (s_board st) < 16)%nat -> (length (s_cmdline st) < 1536)%nat ->
  make_header st = Ret (Some (with_id (with_sizes (header_of (boot_of st k r s t)) 0 0 0 0) (repeat 0 32))).
Proof.
  intros Hn Hc. unfold make_header, with_id, with_sizes.
  cbn [magic kernel_size kernel_addr ramdisk_size ramdisk_addr second_size second_addr tags_addr page_size dt_size os_version name cmdline id extra_cmdline header_of
       boot_of b_kernel_addr b_ramdisk_addr b_second_addr b_tags_addr b_page b_version b_board b_cmdline].
  rewrite (proj2 (Nat.leb_gt BOOT_NAME_SIZE _)) by exact Hn. rewrite (blit_terminated BOOT_NAME_SIZE) by exact Hn.
  destruct (Nat.leb_spec (length (s_cmdline st)) BOOT_ARGS_SIZE) as [Hle|Hgt]; unfold BOOT_ARGS_SIZE, BOOT_EXTRA_ARGS_SIZE in *.
  - rewrite blit_terminated by lia. destruct (zfill_split 512 32 _ Hle) as [-> ->].
    rewrite (firstn_all2 (s_cmdline st)), (skipn_all2 (s_cmdline st)) by lia. reflexivity.
  - rewrite (proj2 (Nat.leb_le _ (512 + 1024))), (proj2 (Nat.leb_le (length (skipn 512 _ ++ [0])) 1024)) by (rewrite ?length_app, ?length_skipn; cbn [length]; lia).
    rewrite blit_terminated by (rewrite length_skipn; lia).
    assert (Hz : zfill 512 (firstn 512 (s_cmdline st)) = firstn 512 (s_cmdline st)) by (unfold zfill; rewrite length_firstn, Nat.min_l, Nat.sub_diag by lia; apply app_nil_r).
    now rewrite Hz.
Qed.


(** The header with the sizes and the identification. *)
Lemma complete_header ctx st k r s t : ctx_wf ctx -> s_alg st <> HASH_UNKNOWN ->
  let b := boot_of st k r s t in
  generate_id ctx (s_alg st) (with_sizes (with_id (with_sizes (header_of b) 0 0 0 0) (repeat 0 32)) (size k) (size r) (size s) (size (default [] t))) k r s t = header_of b.
Proof.
  intros Hc Ha b. replace (s_alg st) with (alg_for (b_sha256 b)) by (cbn [b b_sha256 boot_of]; destruct (s_alg st); [congruence|reflexivity..]).
  pose proof (generate_id_ok ctx b (with_sizes (with_id (with_sizes (header_of b) 0 0 0 0) (repeat 0 32)) (size k) (size r) (size s) (size (default [] t)))
                Hc eq_refl eq_refl eq_refl eq_refl eq_refl) as Hid.
  cbn [b_kernel b_ramdisk b_second b_dt boot_of b] in Hid. now rewrite Hid.
Qed.

(** ** After an image has been taken apart *)

(** The settings that are read back: [cm] and [bo] are what is read for the command line and
    the name of the board. *)
Definition settings_of (b : boot) (cm bo : list Z) : boot_settings :=
  let base := b_kernel_addr b - 0x8000 in
  let '(a, c, e, y, m) := version_fields (b_version b) in
  mkSettings cm (u32 base) (b_page b) 0x8000 (u32 (b_ramdisk_addr b - base)) (u32 (b_second_addr b - base)) (u32 (b_tags_addr b - base)) bo
    (if b_version b =? 0 then 0 else (a << 14) .| (c << 7) .| e)
    (if b_version b =? 0 then 0 else ((y - 2000) << 4) .| m)
    (alg_for (recognised b)).

(** The image that is built. *)
Definition rebuilt (b : boot) (cm bo ramdisk : list Z) : boot :=
  mkBoot (b_kernel_addr b) (b_ramdisk_addr b) (b_second_addr b) (b_tags_addr b) (b_page b) (b_version b) bo cm
    (b_kernel b) ramdisk (b_second b) (b_dt b) (recognised b).

Lemma u32_readd base a : word 32 a -> u32 base [+] u32 (a - base) = a.
Proof. intros Ha. unfold u32. rewrite <- Zplus_mod. replace (base + (a - base)) with a by lia. now apply Z.mod_small. Qed.

Lemma version_reread b : boot_ok b -> b_version b <> 0 ->
  exists a c e y m, version_fields (b_version b) = (a, c, e, y, m) /\ version_ok a c e y m /\
    u32 (i32 (((a << 14) .| (c << 7) .| e) << 11) .| (((y - 2000) << 4) .| m)) = b_version b.
Proof.
  intros (_ & _ & _ & _ & Hv & _) H0. destruct Hv as [?|(a & c & e & y & m & Hv & ->)]; [congruence|].
  exists a, c, e, y, m. split; [now apply version_fields_word|]. split; [exact Hv|now apply version_stored].
Qed.

Lemma boot_of_settings b cm bo r : boot_ok b -> boot_of (settings_of b cm bo) (b_kernel b) r (b_second b) (b_dt b) = rebuilt b cm bo r.
Proof.
  intros Hb. pose proof (version_reread b Hb) as Hv. destruct Hb as (Ha & _). unfold words in Ha. repeat (apply Forall_cons in Ha as [? Ha]).
  unfold boot_of, rebuilt, settings_of. destruct (version_fields (b_version b)) as [[[[a c] e] y] m].
  cbn [s_board s_cmdline s_base s_pagesize s_kernel s_ramdisk s_second s_tags s_version s_level s_alg]. rewrite !u32_readd by assumption.
  replace (u32 (b_kernel_addr b - 32768) [+] 32768) with (b_kernel_addr b)
    by (unfold u32; rewrite Zplus_mod_idemp_l; replace (b_kernel_addr b - 32768 + 32768) with (b_kernel_addr b) by lia; symmetry; now apply Z.mod_small).
  f_equal; [|now destruct (recognised b)]. destruct (Z.eqb_spec (b_version b) 0) as [->|Hv0]; [reflexivity|].
  destruct (Hv Hv0) as (a' & c' & e' & y' & m' & E & _ & Hs). injection E as <- <- <- <- <-. exact Hs.
Qed.

(** * The files *)

Section RoundTrip.

Context (E : env) (d : path).
Context {Ob : Obliging E}.
Context (Hd : dir_fits d).

(** The directory has no files of an earlier image that this one does not write again. *)
Definition clean (b : boot) (fs : files) : Prop :=
  (b_version b = 0 -> fs !! in_dir d Eosversion = None /\ fs !! in_dir d Eoslevel = None) /\
  (b_second b = [] -> fs !! in_dir d Esecond = None) /\
  (b_dt b = None -> fs !! in_dir d Edtb = None).

(** What is read for the command line and the name of the board, short enough for the header. *)
Definition reread (b : boot) (cm bo : list Z) : Prop :=
  (reads E (in_dir d Ecmdline) (b_cmdline b) cm /\ (length cm < 1536)%nat) /\ (reads E (in_dir d Eboard) (b_board b) bo /\ (length bo < 16)%nat).

Lemma assoc_app e l l' : forall acc, assoc e (l ++ l') acc = assoc e l' (assoc e l acc).
Proof. induction l as [|[e' s] l IH]; intros acc; cbn [app assoc]; auto. Qed.

Lemma looked_up b fs e : store d (outputs b) fs !! in_dir d e = assoc e (outputs b) (fs !! in_dir d e).
Proof. now apply store_lookup. Qed.

(** What the files hold afterwards. *)
Definition text_for (b : boot) (e : entry) (acc : option (list Z)) : option (list Z) :=
  let base := b_kernel_addr b - 0x8000 in
  match e with
  | Ecmdline => Some (b_cmdline b) | Eboard => Some (b_board b) | Ebase => Some (print_08x base) | Epagesize => Some (print_nat (b_page b))
  | Ekerneloff => Some (print_08x 0x8000) | Eramdiskoff => Some (print_08x (b_ramdisk_addr b - base))
  | Esecondoff => Some (print_08x (b_second_addr b - base)) | Etagsoff => Some (print_08x (b_tags_addr b - base))
  | Eosversion => if b_version b =? 0 then acc else let '(a, b, c, _, _) := version_fields (b_version b) in Some (print_d a ++ [46] ++ print_d b ++ [46] ++ print_d c)
  | Eoslevel => if b_version b =? 0 then acc else let '(_, _, _, y, m) := version_fields (b_version b) in Some (print_d y ++ [45] ++ printed 10 2 m)
  | Ehash => Some (detect_hash_type (header_of b)) | EzImage => Some (b_kernel b) | Eramdisk => Some (b_ramdisk b) | Eramdisk_new => acc
  | Esecond => match b_second b with [] => acc | s => Some s end
  | Edtb => match dt_of b with [] => acc | s => Some s end
  end.

Lemma assoc_outputs b e acc : assoc e (outputs b) acc = text_for b e acc.
Proof.
  unfold outputs, texts_of, text_for. rewrite !assoc_app. destruct (version_fields (b_version b)) as [[[[v1 v2] v3] v4] v5].
  destruct e, (b_version b =? 0), (b_second b), (dt_of b); cbn [assoc present]; reflexivity.
Qed.

Lemma hash_text h : text_ok (detect_hash_type h).
Proof.
  assert (H : In (detect_hash_type h) [str "sha256"; str "sha1"; str "unknown"]).
  { unfold detect_hash_type. destruct (forallb _ _); [|destruct (_ && _)]; cbn [In]; auto. }
  apply digits_text; repeat destruct H as [<-|H]; try destruct H; try discriminate; try (cbn; lia); repeat (constructor; [vm_compute; discriminate|]); constructor.
Qed.

Lemma number_setting_ok fs e dflt z : fs !! in_dir d e = Some (print_08x z) -> number_setting E d fs e dflt = Ret (Some (u32 z)).
Proof. intros H. unfold number_setting. rewrite (setting_present E d Hd fs e _ _ _ H) by apply hex_text. now rewrite strtoul_hex. Qed.

Lemma read_settings_ok b fs cm bo : boot_ok b -> reread b cm bo -> clean b fs ->
  read_settings E d (store d (outputs b) fs) = Ret (Some (settings_of b cm bo)).
Proof.
  intros Hok ((Hc & _) & (Hn & _)) (Hv & _). pose proof (version_reread b Hok) as Hver. destruct Hok as (_ & _ & _ & Hp & _ & (Hb1 & Hb2) & (Hc1 & Hc2)). unfold read_settings.
  assert (Hl : forall e, store d (outputs b) fs !! in_dir d e = text_for b e (fs !! in_dir d e)) by (intros e; now rewrite looked_up, assoc_outputs).
  rewrite (setting_text E d Hd _ Ecmdline _ _ _ cm (Hl Ecmdline)) by (assumption || lia). unfold try at 1. cbn [bind].
  rewrite (number_setting_ok _ Ebase _ _ (Hl Ebase)). unfold try at 1. cbn [bind].
  rewrite (setting_present E d Hd _ Epagesize _ _ _ (Hl Epagesize)) by apply nat_text. rewrite strtoul_page, Hp by assumption. unfold try at 1. cbn [bind].
  rewrite (number_setting_ok _ Ekerneloff _ _ (Hl Ekerneloff)). unfold try at 1. cbn [bind].
  rewrite (number_setting_ok _ Eramdiskoff _ _ (Hl Eramdiskoff)). unfold try at 1. cbn [bind].
  rewrite (number_setting_ok _ Esecondoff _ _ (Hl Esecondoff)). unfold try at 1. cbn [bind].
  rewrite (number_setting_ok _ Etagsoff _ _ (Hl Etagsoff)). unfold try at 1. cbn [bind].
  rewrite (setting_text E d Hd _ Eboard _ _ _ bo (Hl Eboard)) by (assumption || lia). unfold try at 1. cbn [bind].
  pose proof (Hl Eosversion) as Ho. pose proof (Hl Eoslevel) as Hlev. unfold settings_of. cbn [text_for] in Ho, Hlev.
  destruct (version_fields (b_version b)) as [[[[v1 v2] v3] v4] v5]. destruct (Z.eqb_spec (b_version b) 0) as [H0|H0].
  - destruct (Hv H0) as [Hv1 Hv2]. rewrite setting_absent by (assumption || congruence). unfold try at 1. cbn [bind].
    rewrite setting_absent by (assumption || congruence). unfold try at 1. cbn [bind].
    rewrite (setting_present E d Hd _ Ehash _ _ _ (Hl Ehash)), detected by apply hash_text. reflexivity.
  - destruct (Hver H0) as (a & c & e & y & m & Ef & Hvo & _). injection Ef as <- <- <- <- <-. unfold version_ok in Hvo.
    rewrite (setting_present E d Hd _ Eosversion _ _ _ Ho), parse_printed_version by (lia || apply version_text; lia). unfold try at 1. cbn [bind].
    rewrite (setting_present E d Hd _ Eoslevel _ _ _ Hlev), parse_printed_level by (lia || apply level_text; lia). unfold try at 1. cbn [bind].
    rewrite (setting_present E d Hd _ Ehash _ _ _ (Hl Ehash)), detected by apply hash_text. reflexivity.
Qed.

(** ** The parts *)

(** The ramdisk that is packed: a new one when there is one. *)
Definition new_ramdisk (b : boot) (fs : files) : list Z := default (b_ramdisk b) (fs !! in_dir d Eramdisk_new).

Lemma extract_to_memory_ok fs p c : fs !! p = Some c -> word 31 (size c) -> extract_to_memory E fs p = Some c.
Proof.
  intros Hf Hs. unfold extract_to_memory, size, word in *. rewrite Hf, ob_open, ob_seek. cbn [negb]. rewrite i32_small by lia.
  rewrite (proj2 (Z.ltb_ge _ 0)) by lia. destruct (ob_malloc p (Z.of_nat (length c)) Hs) as (b & -> & _).
  now rewrite ob_read, Z.eqb_refl, take_bytes_all.
Qed.

Lemma load_optional_ok fs e o : fs !! in_dir d e = o -> word 31 (size (default [] o)) -> load_optional E d fs e = Ret (Some o).
Proof.
  intros Hf Hs. unfold load_optional. rewrite sprintf_path_ok by (assumption || lia). cbn [bind]. rewrite Hf. destruct o as [c|]; [|reflexivity].
  unfold load_part. now rewrite (extract_to_memory_ok _ _ _ Hf Hs).
Qed.

Lemma ramdisk_loaded b fs fs' : fs' = store d (outputs b) fs -> word 31 (size (new_ramdisk b fs)) ->
  exists p, ramdisk_path d fs' = Ret p /\ extract_to_memory E fs' p = Some (new_ramdisk b fs).
Proof.
  intros -> Hs. unfold ramdisk_path, new_ramdisk in *. rewrite !sprintf_path_ok by (assumption || lia). cbn [bind].
  pose proof (looked_up b fs Eramdisk_new) as H1. pose proof (looked_up b fs Eramdisk) as H2. rewrite assoc_outputs in H1, H2. cbn [text_for] in H1, H2.
  rewrite H1. destruct (fs !! in_dir d Eramdisk_new) as [r|]; cbn [default] in *; eexists; (split; [reflexivity|]); now apply extract_to_memory_ok.
Qed.

(** The part as a file that is only there when it is not empty. *)
Definition part_of (s : list Z) : option (list Z) := match s with [] => None | _ => Some s end.
Lemma part_of_default s : default [] (part_of s) = s.
Proof. now destruct s. Qed.

Lemma prepare_ok b fs cm bo : boot_ok b -> reread b cm bo -> clean b fs -> word 31 (size (new_ramdisk b fs)) ->
  let b' := rebuilt b cm bo (new_ramdisk b fs) in
  prepare_image E d (store d (outputs b) fs)
  = Ret (Some (header_of b', [encode (header_of b'); b_kernel b; new_ramdisk b fs] ++ option_list (part_of (b_second b)) ++ option_list (b_dt b))).
Proof.
  intros Hb Ht Hcl Hn b'. unfold prepare_image. rewrite (read_settings_ok b fs cm bo) by assumption. unfold try at 1. cbn [bind].
  rewrite sprintf_path_ok by (assumption || lia). cbn [bind].
  assert (Hl : forall e, store d (outputs b) fs !! in_dir d e = text_for b e (fs !! in_dir d e)) by (intros e; now rewrite looked_up, assoc_outputs).
  rewrite (Hl EzImage). cbn [text_for]. pose proof Ht as ((_ & Hcm) & (_ & Hbo)).
  assert (Hst : s_board (settings_of b cm bo) = bo /\ s_cmdline (settings_of b cm bo) = cm /\ s_alg (settings_of b cm bo) <> HASH_UNKNOWN).
  { unfold settings_of. destruct (version_fields (b_version b)) as [[[[v1 v2] v3] v4] v5]. cbn. split; [reflexivity|]. split; [reflexivity|]. now destruct (recognised b). }
  destruct Hst as (S1 & S2 & S3).
  rewrite (make_header_ok _ (b_kernel b) (new_ramdisk b fs) (b_second b) (b_dt b)) by (rewrite ?S1, ?S2; assumption). unfold try at 1. cbn [bind].
  pose proof Hb as (_ & Hs & Hd0 & _). unfold words in Hs. repeat (apply Forall_cons in Hs as [? Hs]).
  unfold load_part. rewrite (extract_to_memory_ok _ _ _ (Hl EzImage)) by assumption. unfold try at 1. cbn [bind].
  destruct (ramdisk_loaded b fs _ eq_refl Hn) as (p & -> & Hp). cbn [bind]. rewrite Hp. unfold try at 1. cbn [bind].
  destruct Hcl as (_ & Hsec & Hdt).
  rewrite (load_optional_ok _ Esecond (part_of (b_second b))) by
    (rewrite ?part_of_default; assumption || (rewrite Hl; cbn [text_for]; destruct (b_second b); [now apply Hsec|reflexivity])).
  rewrite (load_optional_ok _ Edtb (b_dt b)) by
    (assumption || (rewrite Hl; cbn [text_for]; unfold dt_of; destruct (b_dt b) as [[|c t]|]; [congruence|reflexivity|now apply Hdt])).
  unfold try. cbn [bind]. rewrite part_of_default.
  pose proof (complete_header (stack_ctx E) (settings_of b cm bo) (b_kernel b) (new_ramdisk b fs) (b_second b) (b_dt b) ob_ctx S3) as Hh.
  cbn beta zeta in Hh. unfold size in Hh. rewrite Hh, boot_of_settings by exact Hb. reflexivity.
Qed.

(** ** Writing *)

Lemma write_fd_ok img data fs old : fs !! img = Some old -> write_fd E img data fs = (true, <[img := old ++ data]> fs).
Proof. intros H. unfold write_fd. rewrite H. cbn [default]. now rewrite ob_write, Z.eqb_refl, Nat2Z.id, firstn_all. Qed.

Lemma write_padding_ok img p n fs old : supported_page p = true -> 0 <= n -> fs !! img = Some old ->
  write_padding E img p n fs = (true, <[img := old ++ pad_to p n]> fs).
Proof.
  intros Hp Hn Hf. unfold write_padding. pose proof (pad_count p n Hp Hn) as Hc. destruct (_ =? 0).
  - rewrite Hc, app_nil_r. now rewrite insert_id.
  - rewrite Hc. now apply write_fd_ok.
Qed.

Lemma write_parts_ok img p parts : supported_page p = true -> forall fs old, fs !! img = Some old ->
  write_parts E img p parts fs = (true, <[img := old ++ concat (map (padded p) parts)]> fs).
Proof.
  intros Hp. induction parts as [|data parts IH]; intros fs old Hf; cbn [write_parts map concat]; [now rewrite app_nil_r, insert_id|].
  rewrite (write_fd_ok img data fs old Hf). cbn [negb].
  rewrite (write_padding_ok img p _ _ (old ++ data)) by (assumption || lia || apply lookup_insert_eq). cbn [negb].
  rewrite (IH _ ((old ++ data) ++ pad_to p (Z.of_nat (length data)))) by apply lookup_insert_eq. rewrite !insert_insert_eq. unfold padded. now rewrite !app_assoc.
Qed.

Lemma padded_option p o : supported_page p = true -> concat (map (padded p) (option_list o)) = padded p (default [] o).
Proof.
  intros Hp. apply page_bounds in Hp. destruct o as [s|]; cbn [option_list map concat default]; [apply app_nil_r|].
  unfold padded, pad_to. cbn [length app]. now rewrite Z.mod_0_l by lia.
Qed.

Lemma image_parts b second : supported_page (b_page b) = true -> default [] second = b_second b ->
  concat (map (padded (b_page b)) ([encode (header_of b); b_kernel b; b_ramdisk b] ++ option_list second ++ option_list (b_dt b))) = image_of b.
Proof. intros Hp Hs. rewrite !map_app, !concat_app, !padded_option by exact Hp. rewrite Hs. unfold image_of, dt_of. cbn [map concat app]. now rewrite app_nil_r, <- !app_assoc. Qed.

Lemma boot_create_ok b fs out cm bo : boot_ok b -> reread b cm bo -> clean b fs -> word 31 (size (new_ramdisk b fs)) ->
  exists fs', dumwolf_create_header E out d (store d (outputs b) fs) = Ret (0, fs') /\ fs' !! out = Some (image_of (rebuilt b cm bo (new_ramdisk b fs))).
Proof.
  intros Hb Ht Hcl Hn. unfold dumwolf_create_header. rewrite (prepare_ok b fs cm bo) by assumption. cbn [bind]. rewrite ob_create. cbn [negb page_size header_of rebuilt b_page].
  pose proof Hb as (_ & _ & _ & Hp & _). erewrite write_parts_ok by (exact Hp || apply lookup_insert_eq). eexists. split; [reflexivity|].
  rewrite lookup_insert_eq. f_equal. cbn [app]. exact (image_parts (rebuilt b cm bo (new_ramdisk b fs)) _ Hp (part_of_default _)).
Qed.

End RoundTrip.

(** C9: On a system in which nothing fails, an image with a supported page size, texts of
    one line that are shorter than their fields, parts below 2 GB, no device tree of no
    bytes, and no version or one with a month from 1 to 12 is taken apart with the result
    0, also behind at most 65536 and before any number of other bytes; only files of the
    directory change.  When the directory (with a name below 244 characters) had no second
    stage, device tree or version that this image lacks, building an image from it gives
    0 and the same image with these changes: a new ramdisk that was put in the directory
    replaces the old one; an empty command line or board name is replaced by the string
    ([cm], [bo]) that newly allocated memory holds, if it fits; and a SHA-256
    identification with a word that is zero becomes one of SHA-1.  So without a new
    ramdisk, with texts that are not empty and no such word the bytes are the same. *)
Theorem boot_roundtrip E d image out b cm bo pre post fs :
  Obliging E -> dir_fits d -> boot_ok b -> reread E d b cm bo -> clean d b fs ->
  word 31 (size (new_ramdisk d b fs)) ->
  fs !! image = Some (pre ++ image_of b ++ post) -> magic_at pre (image_of b ++ post) ->
  exists fs1 fs2,
    dumwolf_extract_header E image d fs = Ret (0, fs1) /\
    (forall p, (forall e, p <> in_dir d e) -> fs1 !! p = fs !! p) /\
    dumwolf_create_header E out d fs1 = Ret (0, fs2) /\
    fs2 !! out = Some (image_of (rebuilt b cm bo (new_ramdisk d b fs))) /\
    (b_cmdline b <> [] -> b_board b <> [] -> recognised b = b_sha256 b -> fs !! in_dir d Eramdisk_new = None ->
     fs2 !! out = Some (image_of b)).
Proof.
  intros Ob Hd Hb Ht Hc Hn Hf Hm. destruct (boot_create_ok E d Hd b fs out cm bo Hb Ht Hc Hn) as (fs' & H1 & H2).
  exists (store d (outputs b) fs), fs'. split; [eapply boot_extract_ok; eassumption|]. split; [intros p Hp; now apply store_other|].
  split; [exact H1|]. split; [exact H2|]. intros C1 C2 C3 C4. rewrite H2. do 2 f_equal. unfold rebuilt, new_ramdisk. rewrite C3, C4. cbn [default].
  destruct Ht as (([[_ ->]|[? _]] & _) & ([[_ ->]|[? _]] & _)); try congruence. now destruct b.
Qed.

(** A system in which nothing fails, with memory that is not cleared. *)
Definition sample_env : env :=
  mkEnv 4 (fun _ n => Some (repeat 170 (Z.to_nat n))) (fun _ => true) (fun _ => true) (fun _ => true) (fun _ => true)
    (fun _ n => n) (fun _ n => n) (fun _ n => Z.of_nat n) (repeat 1 BOOT_MAGIC_SIZE) (repeat 7 HDR_SIZE) blank_ctx.
#[export] Instance sample_obliging : Obliging sample_env.
Proof.
  split; cbn; auto.
  - intros _ n Hn. eexists. split; [reflexivity|apply repeat_length].
  - split; reflexivity.
Qed.

Definition sample_boot : boot :=
  mkBoot 0x10008000 0x11000000 0x10f00000 0x10000100 2048 (version_word 7 1 2 2017 5) (str "grouper") (str "console=ttyS0")
    [1; 2; 3] [4; 5] [] (Some [9]) true.
Definition sample_files : files := {[ str "/boot" := [0; 255] ++ image_of sample_boot ++ []; str "/unpacked/ramdisk-new" := [6; 6; 6] ]}.

Lemma sample_boot_ok : boot_ok sample_boot.
Proof.
  do 2 (split; [repeat (constructor; [vm_compute; split; [discriminate|reflexivity]|]); constructor|]). split; [discriminate|]. split; [reflexivity|].
  split; [right; exists 7, 1, 2, 2017, 5; split; [unfold version_ok; lia|reflexivity]|].
  split; (split; [|cbn; lia]); repeat (constructor; [split; vm_compute; discriminate|]); constructor.
Qed.

Lemma sample_image : sample_files !! str "/boot" = Some ([0; 255] ++ image_of sample_boot ++ []).
Proof. apply lookup_insert_eq. Qed.

Lemma sample_ramdisk : sample_files !! in_dir (str "/unpacked") Eramdisk_new = Some [6; 6; 6].
Proof. unfold sample_files. rewrite lookup_insert_ne by discriminate. apply lookup_singleton_eq. Qed.

Lemma sample_clean : clean (str "/unpacked") sample_boot sample_files.
Proof.
  split; [discriminate|]. split; [intros _|discriminate]. unfold sample_files. rewrite lookup_insert_ne by discriminate.
  apply lookup_singleton_ne. discriminate.
Qed.

Lemma sample_magic : magic_at [0; 255] (image_of sample_boot ++ []).
Proof.
  split; [unfold seeklimit; cbn [length]; lia|]. intros j Hj H. apply (f_equal (fun l => get l 0)) in H. cbn [length] in Hj.
  destruct j as [|[|j]]; [discriminate H|discriminate H|lia].
Qed.

Lemma boot_roundtrip_witness :
  exists fs1 fs2,
    dumwolf_extract_header sample_env (str "/boot") (str "/unpacked") sample_files = Ret (0, fs1) /\
    (forall p, (forall e, p <> in_dir (str "/unpacked") e) -> fs1 !! p = sample_files !! p) /\
    dumwolf_create_header sample_env (str "/new") (str "/unpacked") fs1 = Ret (0, fs2) /\
    fs2 !! str "/new" = Some (image_of (rebuilt sample_boot (b_cmdline sample_boot) (b_board sample_boot) (new_ramdisk (str "/unpacked") sample_boot sample_files))) /\
    (b_cmdline sample_boot <> [] -> b_board sample_boot <> [] -> recognised sample_boot = b_sha256 sample_boot ->
     sample_files !! in_dir (str "/unpacked") Eramdisk_new = None -> fs2 !! str "/new" = Some (image_of sample_boot)).
Proof.
  apply (boot_roundtrip sample_env (str "/unpacked") (str "/boot") (str "/new") sample_boot (b_cmdline sample_boot) (b_board sample_boot) [0; 255] []).
  - exact sample_obliging.
  - unfold dir_fits. cbn. lia.
  - exact sample_boot_ok.
  - split; (split; [left; split; [discriminate|reflexivity]|cbn; lia]).
  - exact sample_clean.
  - unfold new_ramdisk. rewrite sample_ramdisk. split; [discriminate|reflexivity].
  - exact sample_image.
  - exact sample_magic.
Defined.

(** * On any system *)














(** ** What the image is made of *)
























(** * What goes wrong *)

(** An empty file is read as what the memory held: an image without a board name is built
    again with other bytes in its place. *)
Lemma empty_file_reads_memory E fs p s t :
  fs !! p = Some [] -> can_open E p = true -> chars s ->
  malloc E p (Z.of_nat (BOOT_EXTRA_ARGS_SIZE + BOOT_EXTRA_ARGS_SIZE) * sizeof_ptr E) = Some (s ++ 0 :: t) ->
  load_file E fs p = Ret (Some s).
Proof. intros Hf Ho Hs Hm. unfold load_file. rewrite Hf, Ho, Hm. cbn [negb]. now rewrite c_string_chars. Qed.

(** The longest command line that is accepted overruns the header by one byte. *)
Lemma longest_cmdline_overruns st : length (s_cmdline st) = 1536%nat -> (length (s_board st) < 16)%nat -> make_header st = Fault.
Proof.
  intros Hc Hb. unfold make_header, BOOT_NAME_SIZE. rewrite (proj2 (Nat.leb_gt 16 _)) by lia. rewrite Hc. cbn [Nat.leb BOOT_ARGS_SIZE BOOT_EXTRA_ARGS_SIZE Nat.add].
  now rewrite length_app, length_skipn, Hc.
Qed.

(** A SHA-256 identification with a word that is zero is not recognised, and the image is
    built again with SHA-1. *)
Lemma zero_word_changes_hash h i : (i < 5)%nat -> dword_at (id h) (4 * i) = 0 -> choose_hash (detect_hash_type h) = Ret (Some HASH_SHA1).
Proof.
  intros Hi Hz. unfold detect_hash_type.
  assert (Hf : forall n, (5 <= n)%nat -> forallb (fun i => negb (dword_at (id h) (4 * i) =? 0)) (seq 0 n) = false).
  { intros n Hn. apply not_true_iff_false. intros H. rewrite forallb_forall in H. specialize (H i ltac:(apply in_seq; lia)). now rewrite Hz in H. }
  rewrite !Hf by lia. reflexivity.
Qed.

(** A month outside 1 to 12 loses the version, too. *)
Lemma bad_month_loses_version h : os_version h .& 0xf = 0 -> os_version (check_version h) = 0.
Proof.
  intros Hm. unfold check_version. destruct (Z.eqb_spec (os_version h) 0) as [|_]; [assumption|]. unfold version_fields.
  rewrite <- Z.land_assoc. change (0x7ff .& 0xf) with 0xf. rewrite Hm. cbn [Z.ltb Z.compare]. now rewrite andb_false_r.
Qed.

(** A fourth number of a version is stored behind the array. *)
Lemma four_numbers_overrun : parse_os_version (str "1.2.3.4") = Fault.
Proof. reflexivity. Qed.

(** A page size of 0 makes the padding as long as the rest of the file, into a buffer of
    no bytes. *)
Lemma zero_page_overruns E site b c rest : malloc E site 0 = Some b -> b = [] -> read_padding E site 1632 0 (c :: rest) = Fault.
Proof.
  intros Hm ->. unfold read_padding. replace (i32 0 mod 2 ^ (8 * sizeof_ptr E)) with 0 by reflexivity. rewrite Hm. cbn [default from_option].
  unfold fread, take_bytes. destruct (Z.to_nat _) as [|k] eqn:Ek; [cbn [length] in Ek; vm_compute (u32 _) in Ek; lia|reflexivity].
Qed.

(** Without the directory the first text is written to a null stream. *)
Lemma no_directory_faults E d e s l fs : can_create E (in_dir d e) = false -> write_files E d ((e, s) :: l) fs = Fault.
Proof. intros H. cbn [write_files]. unfold sprintf_path. destruct (_ <? _)%nat; [|reflexivity]. cbn [bind]. unfold write_file. now rewrite H. Qed.

(** A part that the image does not hold completely is completed, without an error, with
    what the memory held. *)
Lemma short_part_accepted E d e n rest b fs :
  sprintf_path PATH_MAX d e = Ret (in_dir d e) -> can_create E (in_dir d e) = true -> fwrite_n E (in_dir d e) (length b) = length b ->
  malloc E (in_dir d e) n = Some b -> n = size b -> (length rest < length b)%nat ->
  exists fs', extract_part E d e n rest fs = Ret (Some [], fs') /\ fs' !! in_dir d e = Some (rest ++ skipn (length rest) b).
Proof.
  intros Hp Hc Hw Hm -> Hl. unfold extract_part. rewrite Hp. cbn [bind]. rewrite Hc, Hm. unfold fread.
  assert (Ht : take_bytes (size b) rest = rest) by (unfold take_bytes, size; rewrite Z.min_r, Nat2Z.id by lia; apply firstn_all).
  rewrite Ht, (proj2 (Nat.leb_le _ _)), skipn_all by lia. cbn [bind]. eexists. split; [reflexivity|]. unfold fwrite.
  rewrite lookup_insert_eq, blit_length, Hw by (cbn [Nat.add]; lia). rewrite firstn_all2; [reflexivity|]. rewrite blit_length by (cbn [Nat.add]; lia). lia.
Qed.
