(* ===== verification/Process.v ===== *)
(** Running commands: src/libcrecovery/popen.c and system.c.

    The state of the process is its table of descriptors, the streams that [fdopen] made
    and [pidlist].  What the system answers to the calls of one function is the record
    [answers].  The child of [fork] is a function of its own, from the descriptors it
    inherits to what it passes to [execve]. *)
From Stdlib Require Import String.
From stdpp Require Import gmap list relations.
From S2P Require Import Prelude CString.

Definition _PATH_BSHELL : list Z := str "/sbin/sh".
Definition argp (program : list Z) : list (list Z) := [str "sh"; str "-c"; program].

Record proc := mkProc { fds : gmap Z Z; streams : gmap Z Z; pidlist : list (Z * Z) }.

Definition with_fds (st : proc) (f : gmap Z Z) : proc := mkProc f (streams st) (pidlist st).
Definition close (fd : Z) (st : proc) : proc := with_fds st (delete fd (fds st)).

(** The answers to [malloc], [pipe] (two descriptors, and what they stand for), [fork] in
    the parent and [fdopen]. *)
Record answers := mkAnswers {
  a_malloc : bool; a_pipe : option (Z * Z); a_files : Z * Z; a_fork : Z; a_fdopen : option Z
}.

(** The results of [waitpid]: the status of the process, an error with [EINTR], another
    error. *)
Inductive waited := Status (pstat : Z) | Interrupted | Failed.

(** * popen.c *)

Definition type_ok (type : list Z) : bool := match type with [c] => (c =? 114) || (c =? 119) | _ => false end.
Definition reading (type : list Z) : bool := match type with c :: _ => c =? 114 | [] => false end.

(** The parent.  The result is the stream, [None] for a null pointer. *)
Definition __popen (a : answers) (type : list Z) (st : proc) : option Z * proc :=
  if negb (type_ok type) then (None, st) else
  if negb (a_malloc a) then (None, st) else
  match a_pipe a with
  | None => (None, st)
  | Some (p0, p1) =>
      let st := with_fds st (<[p1 := (a_files a).2]> (<[p0 := (a_files a).1]> (fds st))) in
      if a_fork a =? -1 then (None, close p1 (close p0 st))
      else
        let '(mine, other) := if reading type then (p0, p1) else (p1, p0) in
        let st := match a_fdopen a with Some s => mkProc (fds st) (<[s := mine]> (streams st)) (pidlist st) | None => st end in
        let st := close other st in
        let iop := default 0 (a_fdopen a) in
        (a_fdopen a, mkProc (fds st) (streams st) ((iop, a_fork a) :: pidlist st))
  end.

(** The child: [fileno] of a stream that is not open is a fault. *)
Fixpoint close_others (pcur : list (Z * Z)) (st : proc) : outcome proc :=
  match pcur with
  | [] => Ret st
  | (fp, _) :: pcur => match streams st !! fp with Some fd => close_others pcur (close fd st) | None => Fault end
  end.
Definition dup2 (old new : Z) (st : proc) : proc :=
  match fds st !! old with Some f => with_fds st (<[new := f]> (fds st)) | None => st end.
Definition redirect (from to : Z) (st : proc) : proc := if from =? to then st else close from (dup2 from to st).
Definition popen_child (type program : list Z) (p0 p1 : Z) (st : proc) : outcome (list Z * list (list Z) * proc) :=
  let! st := close_others (pidlist st) st in
  let st := if reading type then redirect p1 1 (close p0 st) else redirect p0 0 (close p1 st) in
  Ret (_PATH_BSHELL, argp program, st).

(** The loop over [waitpid]; [None] when the answers run out. *)
Fixpoint wait_for (ws : list waited) : option Z :=
  match ws with
  | [] => None
  | Interrupted :: ws => wait_for ws
  | Status s :: _ => Some s
  | Failed :: _ => Some (-1)
  end.

(** Closing a null pointer, or a stream that is not open, is a fault. *)
Definition fclose (iop : Z) (st : proc) : outcome proc :=
  match streams st !! iop with
  | Some fd => Ret (mkProc (delete fd (fds st)) (delete iop (streams st)) (pidlist st))
  | None => Fault
  end.

(** The entry of a stream and the list without it. *)
Fixpoint unlink_pid (iop : Z) (l : list (Z * Z)) : option (Z * list (Z * Z)) :=
  match l with
  | [] => None
  | (fp, pid) :: l => if fp =? iop then Some (pid, l) else match unlink_pid iop l with Some (p, l') => Some (p, (fp, pid) :: l') | None => None end
  end.

(** [ws] are the answers to [waitpid] on the process of the entry. *)
Definition __pclose (ws : Z -> list waited) (iop : Z) (st : proc) : M (Z * proc) :=
  match unlink_pid iop (pidlist st) with
  | None => ret (-1, st)
  | Some (pid, rest) =>
      do! st := lift (fclose iop st) in
      match wait_for (ws pid) with
      | None => None
      | Some r => ret (r, mkProc (fds st) (streams st) rest)
      end
  end.

(** * system.c *)

Record signals := mkSignals { mask : gset Z; on_int : Z; on_quit : Z }.
Definition SIGCHLD : Z := 17.
Definition SIG_IGN : Z := 1.

(** [fork] is the answer to [vfork]; the child runs with the signals of the second
    component of the result. *)
Definition __system (command : option (list Z)) (fork : Z) (w : waited) (s : signals) : Z * option (list Z * list (list Z) * signals) * signals :=
  match command with
  | None => (1, None, s)
  | Some command =>
      let omask := mask s in
      let s := mkSignals ({[SIGCHLD]} ∪ mask s) (on_int s) (on_quit s) in
      if fork =? -1 then (-1, None, mkSignals omask (on_int s) (on_quit s))
      else
        let child := (_PATH_BSHELL, argp command, mkSignals omask (on_int s) (on_quit s)) in
        let intsave := on_int s in let s := mkSignals (mask s) SIG_IGN (on_quit s) in
        let quitsave := on_quit s in let s := mkSignals (mask s) (on_int s) SIG_IGN in
        let s := mkSignals omask (on_int s) (on_quit s) in
        let s := mkSignals (mask s) intsave (on_quit s) in
        let s := mkSignals (mask s) (on_int s) quitsave in
        (match w with Status p => p | _ => -1 end, Some child, s)
  end.

(** * Correctness *)

(** One call.  The system gives two descriptors that are not in use and a stream that is
    not open; every call may fail, [fdopen] too. *)
Definition answers_ok (a : answers) (st : proc) : Prop :=
  (forall p0 p1, a_pipe a = Some (p0, p1) -> p0 <> p1 /\ fds st !! p0 = None /\ fds st !! p1 = None) /\
  (forall s, a_fdopen a = Some s -> s <> 0 /\ streams st !! s = None).
Inductive call : proc -> proc -> Prop :=
  | call_popen a type st : answers_ok a st -> call st (__popen a type st).2
  | call_pclose ws iop st r st' : __pclose ws iop st = ret (r, st') -> call st st'.

(** The entries of [pidlist] with a stream, and those of calls in which [fdopen] failed. *)
Definition named (l : list (Z * Z)) : list Z := map fst (List.filter (fun e => negb (e.1 =? 0)) l).
Definition nulls (l : list (Z * Z)) : nat := length (List.filter (fun e => e.1 =? 0) l).

(** The streams of [pidlist] are the open ones, and the process has its first descriptors,
    one for each of them, and the [leaked] ones: one for each failure of [fdopen]. *)
Definition accounted (d0 : gmap Z Z) (leaked : list Z) (st : proc) : Prop :=
  (NoDup (named (pidlist st)) /\ (forall s, s ∈ named (pidlist st) <-> is_Some (streams st !! s))) /\
  (streams st !! 0 = None /\ forall s s' fd, streams st !! s = Some fd -> streams st !! s' = Some fd -> s = s') /\
  (forall fd, is_Some (fds st !! fd) <-> is_Some (d0 !! fd) \/ (exists s, streams st !! s = Some fd) \/ fd ∈ leaked) /\
  (forall s fd, streams st !! s = Some fd -> d0 !! fd = None /\ fd ∉ leaked) /\
  (NoDup leaked /\ (forall fd, fd ∈ leaked -> d0 !! fd = None) /\ length leaked = nulls (pidlist st)).

Lemma named_cons s p l : named ((s, p) :: l) = if s =? 0 then named l else s :: named l.
Proof. unfold named. cbn [List.filter fst]. now destruct (s =? 0). Qed.
Lemma nulls_cons s p l : nulls ((s, p) :: l) = if s =? 0 then S (nulls l) else nulls l.
Proof. unfold nulls. cbn [List.filter fst]. now destruct (s =? 0). Qed.

Lemma unlink_pid_spec iop l pid l' : unlink_pid iop l = Some (pid, l') -> iop <> 0 -> NoDup (named l) ->
  NoDup (named l') /\ (forall s, s ∈ named l' <-> s ∈ named l /\ s <> iop) /\ iop ∈ named l /\ nulls l' = nulls l.
Proof.
  revert l'. induction l as [|[fp p] l IH]; intros l' H H0 Hn; [discriminate|]. cbn [unlink_pid] in H. rewrite named_cons in Hn |- *. rewrite nulls_cons.
  destruct (Z.eqb_spec fp iop) as [->|Hne].
  - injection H as <- <-. rewrite (proj2 (Z.eqb_neq iop 0)) in * by exact H0. apply NoDup_cons in Hn as [Hi Hn]. split; [exact Hn|].
    split; [|split; [left|reflexivity]]. intros s. rewrite elem_of_cons. split; [|tauto]. intros Hs. split; [auto|congruence].
  - destruct (unlink_pid iop l) as [[q l0]|]; [|discriminate]. injection H as <- <-. rewrite named_cons, nulls_cons. destruct (fp =? 0).
    + destruct (IH l0 eq_refl H0 Hn) as (H1 & H2 & H3 & ->). auto.
    + apply NoDup_cons in Hn as [Hi Hn]. destruct (IH l0 eq_refl H0 Hn) as (H1 & H2 & H3 & H4).
      split; [apply NoDup_cons; split; [|exact H1]; rewrite H2; tauto|]. split; [|split; [now right|exact H4]].
      intros s. rewrite !elem_of_cons, H2. split; [intros [->|?]; tauto|tauto].
Qed.

(** No open descriptor is that of a stream or one of [leaked] when it is new. *)
Lemma fresh_fd d0 leaked st fd : accounted d0 leaked st -> fds st !! fd = None ->
  d0 !! fd = None /\ (forall s, streams st !! s <> Some fd) /\ fd ∉ leaked.
Proof.
  intros (_ & _ & H4 & _) Hf. specialize (H4 fd). rewrite Hf in H4. split; [|split].
  - destruct (d0 !! fd); [|reflexivity]. now destruct (proj2 H4 ltac:(eauto)).
  - intros s Hs. now destruct (proj2 H4 ltac:(eauto)).
  - intros Hl. now destruct (proj2 H4 ltac:(auto)).
Qed.

Lemma accounted_add d0 leaked st s pid mine x : accounted d0 leaked st -> fds st !! mine = None -> s <> 0 -> streams st !! s = None ->
  accounted d0 leaked (mkProc (<[mine := x]> (fds st)) (<[s := mine]> (streams st)) ((s, pid) :: pidlist st)).
Proof.
  intros Ha Hm H0 Hs. destruct (fresh_fd _ _ _ _ Ha Hm) as (Hd & Hno & Hl). destruct Ha as ((H1 & H2) & (Hz & H3) & H4 & H5 & H6 & H7 & H8).
  unfold accounted. cbn [fds streams pidlist]. rewrite named_cons, nulls_cons, (proj2 (Z.eqb_neq s 0)) by exact H0.
  split; [split|split; [split|split; [|split; [|auto]]]].
  - apply NoDup_cons. split; [|exact H1]. rewrite H2, Hs. now intros [? ?].
  - intros t. rewrite elem_of_cons, H2. destruct (decide (t = s)) as [->|Hne]; [rewrite lookup_insert_eq|rewrite lookup_insert_ne by congruence].
    + split; [eauto|now left].
    + split; [intros [?|?]; [congruence|assumption]|auto].
  - now rewrite lookup_insert_ne by congruence.
  - intros t t' fd. rewrite !lookup_insert_Some. intros [[<- <-]|[Ht Ht']] [[<- E]|[Hu Hu']]; subst; try congruence; (now destruct (Hno t')) || (now destruct (Hno t)) || eauto.
  - intros fd. destruct (decide (fd = mine)) as [->|Hne].
    + rewrite lookup_insert_eq. split; [intros _; right; left; exists s; apply lookup_insert_eq|eauto].
    + rewrite lookup_insert_ne, H4 by congruence. split; (intros [H|[[t Ht]|H]]; [now left|right; left; exists t|right; now right]).
      * rewrite lookup_insert_ne; [exact Ht|]. intros ->. congruence.
      * apply lookup_insert_Some in Ht as [[_ ?]|[_ ?]]; [congruence|assumption].
  - intros t fd. rewrite lookup_insert_Some. intros [[<- <-]|[_ Ht]]; eauto.
Qed.

Lemma accounted_leak d0 leaked st pid mine x : accounted d0 leaked st -> fds st !! mine = None ->
  accounted d0 (mine :: leaked) (mkProc (<[mine := x]> (fds st)) (streams st) ((0, pid) :: pidlist st)).
Proof.
  intros Ha Hm. destruct (fresh_fd _ _ _ _ Ha Hm) as (Hd & Hno & Hl). destruct Ha as ((H1 & H2) & (Hz & H3) & H4 & H5 & H6 & H7 & H8).
  unfold accounted. cbn [fds streams pidlist]. rewrite named_cons, nulls_cons. cbn [Z.eqb length].
  split; [auto|]. split; [auto|]. split; [|split; [|split; [|split]]].
  - intros fd. rewrite elem_of_cons. destruct (decide (fd = mine)) as [->|Hne]; [rewrite lookup_insert_eq; split; eauto|].
    rewrite lookup_insert_ne, H4 by congruence. split; [tauto|]. intros [?|[?|[?|?]]]; tauto.
  - intros s fd Hs. destruct (H5 s fd Hs) as [? ?]. split; [assumption|]. rewrite elem_of_cons. intros [->|?]; [now apply (Hno s)|tauto].
  - now apply NoDup_cons.
  - intros fd. rewrite elem_of_cons. intros [->|?]; auto.
  - now rewrite H8.
Qed.

Lemma popen_accounted d0 leaked a type st : accounted d0 leaked st -> answers_ok a st -> exists l, accounted d0 l (__popen a type st).2.
Proof.
  intros H [Hp Hs]. unfold __popen, close, with_fds. destruct (type_ok type); [|eauto]. destruct (a_malloc a); [|eauto]. cbn [negb].
  destruct (a_pipe a) as [[p0 p1]|]; [|eauto]. destruct (Hp p0 p1 eq_refl) as (Hne & H0 & H1). destruct (a_fork a =? -1).
  - exists leaked. cbn [snd fds streams pidlist]. rewrite delete_insert_ne, !delete_insert_eq, (delete_id _ p0), delete_id by congruence. now destruct st.
  - assert (Hf : forall mine other x y, mine <> other -> delete other (<[other := y]> (<[mine := x]> (fds st))) = <[mine := x]> (delete other (fds st)) /\
                  delete other (<[mine := x]> (<[other := y]> (fds st))) = <[mine := x]> (delete other (fds st))).
    { intros mine other x y Hn. rewrite (delete_insert_ne _ other mine), !delete_insert_eq by congruence. split; [|reflexivity]. now rewrite delete_insert_ne by congruence. }
    destruct (reading type); [destruct (Hf p0 p1 (a_files a).1 (a_files a).2 Hne) as [E _]|destruct (Hf p1 p0 (a_files a).2 (a_files a).1 ltac:(congruence)) as [_ E]].
    all: destruct (a_fdopen a) as [s|]; [destruct (Hs s eq_refl) as [Hs0 Hfr]; exists leaked|eexists]; cbn [snd fds streams pidlist]; rewrite E, delete_id by assumption.
    1, 3: now apply accounted_add.
    all: eapply accounted_leak; eassumption.
Qed.

Lemma pclose_accounted d0 leaked ws iop st r st' : accounted d0 leaked st -> __pclose ws iop st = ret (r, st') -> accounted d0 leaked st'.
Proof.
  intros Ha. pose proof Ha as ((H1 & H2) & (Hz & H3) & H4 & H5 & H6 & H7 & H8). unfold __pclose, ret.
  destruct (unlink_pid iop (pidlist st)) as [[pid rest]|] eqn:Hu; [|intros H; now injection H as <- <-].
  unfold fclose. destruct (streams st !! iop) as [fd|] eqn:Hfd; cbn [lift bindM]; [|discriminate].
  destruct (wait_for (ws pid)); [|discriminate]. unfold ret. intros H. injection H as <- <-.
  assert (Hi : iop <> 0) by (intros ->; congruence). destruct (unlink_pid_spec _ _ _ _ Hu Hi H1) as (U1 & U2 & U3 & U4).
  unfold accounted. cbn [fds streams pidlist]. rewrite U4. split; [split|split; [split|split; [|split; [|auto]]]].
  - exact U1.
  - intros t. rewrite U2, H2. destruct (decide (t = iop)) as [->|Hne]; [rewrite lookup_delete_eq|rewrite lookup_delete_ne by congruence; tauto].
    split; [tauto|now intros [? ?]].
  - now apply lookup_delete_None; right.
  - intros t t' f. rewrite !lookup_delete_Some. intros [_ ?] [_ ?]. eauto.
  - intros f. destruct (decide (f = fd)) as [->|Hne].
    + rewrite lookup_delete_eq. destruct (H5 _ _ Hfd) as [Hd Hl]. split; [now intros [? ?]|]. intros [[? E]|[[t Ht]|?]]; [congruence| |tauto].
      apply lookup_delete_Some in Ht as [Hne Ht]. now destruct Hne; apply (H3 _ _ fd).
    + rewrite lookup_delete_ne, H4 by congruence. split; (intros [H|[[t Ht]|H]]; [now left|right; left; exists t|right; now right]).
      * apply lookup_delete_Some. split; [|exact Ht]. intros <-. congruence.
      * now apply lookup_delete_Some in Ht as [_ ?].
  - intros t f. rewrite lookup_delete_Some. intros [_ ?]. eauto.
Qed.

(** C25: Whatever calls of [__popen] and [__pclose] a program makes and however they fail
    (memory, pipe, fork, fdopen, waitpid), as long as none of them faults, it has the
    descriptors it started with, one for each stream that is still open, and exactly one
    more for each call in which [fdopen] failed, which stays open; the entries of
    [pidlist] with a stream are the open streams. *)
Theorem descriptors_accounted d0 st : rtc call (mkProc d0 ∅ []) st -> exists leaked, accounted d0 leaked st.
Proof.
  intros H. assert (H0 : exists l, accounted d0 l (mkProc d0 ∅ [])).
  { exists []. unfold accounted. cbn [fds streams pidlist named nulls List.filter map length]. split; [|split; [|split; [|split]]].
    - split; [constructor|]. intros s. rewrite lookup_empty. split; [now intros ?%not_elem_of_nil|now intros [? ?]].
    - split; [apply lookup_empty|]. intros s s' fd E. now apply lookup_empty_Some in E.
    - intros fd. split; [auto|]. intros [?|[[s E]|E]]; [assumption|now apply lookup_empty_Some in E|now apply not_elem_of_nil in E].
    - intros s fd E. now apply lookup_empty_Some in E.
    - split; [constructor|]. split; [now intros fd ?%not_elem_of_nil|reflexivity]. }
  revert H0. induction H as [|st1 st2 st3 H _ IH]; [auto|]. intros [l H0]. apply IH. destruct H as [a type st Ha|ws iop st r st' Hc].
  - now apply (popen_accounted d0 l).
  - exists l. now apply (pclose_accounted d0 l ws iop st r).
Qed.

(** In the child. *)
Lemma close_others_closed l : forall st st' fd, close_others l st = Ret st' -> fds st !! fd = None -> fds st' !! fd = None.
Proof.
  induction l as [|[fp q] l IH]; intros st st' fd H Hn; cbn [close_others] in H; [now injection H as <-|].
  destruct (streams st !! fp) as [fd0|]; [|discriminate]. apply (IH _ _ fd H). unfold close, with_fds. cbn [fds]. apply lookup_delete_None. auto.
Qed.

Lemma close_others_kept l : forall st st' fd, close_others l st = Ret st' -> (forall s p, (s, p) ∈ l -> streams st !! s <> Some fd) ->
  fds st' !! fd = fds st !! fd.
Proof.
  induction l as [|[fp q] l IH]; intros st st' fd H Hn; cbn [close_others] in H; [now injection H as <-|].
  destruct (streams st !! fp) as [fd0|] eqn:Hf; [|discriminate]. rewrite (IH _ _ fd H) by (intros s p Hs; apply (Hn s p); now right).
  apply lookup_delete_ne. intros ->. apply (Hn fp q); [left|exact Hf].
Qed.

Lemma close_others_all l : forall st st' s p fd, close_others l st = Ret st' -> (s, p) ∈ l -> streams st !! s = Some fd -> fds st' !! fd = None.
Proof.
  induction l as [|[fp q] l IH]; intros st st' s p fd H Hi Hs; [now apply not_elem_of_nil in Hi|]. cbn [close_others] in H.
  destruct (streams st !! fp) as [fd0|] eqn:Hf; [|discriminate]. apply elem_of_cons in Hi as [Hi|Hi]; [|now apply (IH _ _ s p fd H)].
  injection Hi as -> ->. apply (close_others_closed _ _ _ _ H). assert (fd = fd0) as -> by congruence. apply lookup_delete_eq.
Qed.

Lemma close_others_total l : forall st, (forall s, s ∈ map fst l -> is_Some (streams st !! s)) -> exists st', close_others l st = Ret st'.
Proof.
  induction l as [|[fp q] l IH]; intros st Hl; cbn [close_others]; [eauto|]. destruct (Hl fp ltac:(left)) as [fd ->]. apply IH. intros s Hs. apply Hl. now right.
Qed.

Lemma nulls_none l : nulls l = O -> named l = map fst l.
Proof.
  induction l as [|[s p] l IH]; [reflexivity|]. rewrite nulls_cons, named_cons. cbn [map fst]. destruct (s =? 0); [discriminate|]. intros H. now rewrite IH.
Qed.

(** Closing one end and moving the other. *)
Lemma redirect_spec mine other target f st : mine <> other -> fds st !! mine = Some f ->
  let st' := redirect mine target (close other st) in
  fds st' !! target = Some f /\ (mine <> target -> fds st' !! mine = None) /\ (other <> target -> fds st' !! other = None) /\
  (forall fd, fd <> target -> fds st !! fd = None -> fds st' !! fd = None).
Proof.
  intros Hne Hf. unfold redirect, dup2, close, with_fds. cbn [fds streams pidlist]. rewrite lookup_delete_ne, Hf by congruence.
  destruct (Z.eqb_spec mine target) as [->|Hm]; cbn [fds].
  - split; [now rewrite lookup_delete_ne by congruence|]. split; [congruence|]. split; [intros _; apply lookup_delete_eq|].
    intros fd _ H. apply lookup_delete_None. auto.
  - split; [now rewrite lookup_delete_ne, lookup_insert_eq by congruence|]. split; [intros _; apply lookup_delete_eq|]. split.
    + intros Ho. now rewrite lookup_delete_ne, lookup_insert_ne, lookup_delete_eq by congruence.
    + intros fd Hfd H. apply lookup_delete_None. right. rewrite lookup_insert_ne by congruence. apply lookup_delete_None. auto.
Qed.

(** The child of [__popen] finds its end of the pipe as its output when the program reads
    and as its input when it writes, and neither another descriptor of the pipe nor one
    of a stream of an earlier call, as long as [fdopen] has not failed before. *)
Theorem child_redirected d0 st type p0 p1 f0 f1 program :
  accounted d0 [] st -> p0 <> p1 -> fds st !! p0 = None -> fds st !! p1 = None ->
  let '(mine, other, f, target) := if reading type then (p1, p0, f1, 1) else (p0, p1, f0, 0) in
  exists st', popen_child type program p0 p1 (with_fds st (<[p1 := f1]> (<[p0 := f0]> (fds st)))) = Ret (_PATH_BSHELL, argp program, st') /\
    fds st' !! target = Some f /\ (mine <> target -> fds st' !! mine = None) /\ (other <> target -> fds st' !! other = None) /\
    (forall s p fd, (s, p) ∈ pidlist st -> streams st !! s = Some fd -> fd <> target -> fds st' !! fd = None).
Proof.
  intros Ha Hne H0 H1. set (st1 := with_fds st _). pose proof Ha as ((_ & H2) & _ & _ & _ & _ & _ & Hn). symmetry in Hn. apply nulls_none in Hn.
  destruct (close_others_total (pidlist st1) st1) as [st2 Hst]. { intros s Hs. apply H2. now rewrite Hn. }
  assert (Hkeep : forall fd, fds st !! fd = None -> fds st2 !! fd = fds st1 !! fd).
  { intros fd Hf. apply (close_others_kept _ _ _ fd Hst). intros s p _ Hs. now apply (proj1 (proj2 (fresh_fd _ _ _ _ Ha Hf)) s). }
  assert (E1 : fds st2 !! p1 = Some f1) by (rewrite Hkeep by exact H1; apply lookup_insert_eq).
  assert (E0 : fds st2 !! p0 = Some f0) by (rewrite Hkeep by exact H0; cbn [st1 with_fds fds]; rewrite lookup_insert_ne, lookup_insert_eq by congruence; reflexivity).
  unfold popen_child. destruct (reading type).
  all: eexists; (split; [rewrite Hst; reflexivity|]).
  - destruct (redirect_spec p1 p0 1 f1 st2 ltac:(congruence) E1) as (A & B & C & D). split; [exact A|]. split; [exact B|]. split; [exact C|].
    intros s p fd Hi Hs Hf. apply D; [exact Hf|]. exact (close_others_all _ _ _ s p fd Hst Hi Hs).
  - destruct (redirect_spec p0 p1 0 f0 st2 Hne E0) as (A & B & C & D). split; [exact A|]. split; [exact B|]. split; [exact C|].
    intros s p fd Hi Hs Hf. apply D; [exact Hf|]. exact (close_others_all _ _ _ s p fd Hst Hi Hs).
Qed.

(** Two streams are opened, [fdopen] fails once, and one stream is closed again. *)
Definition sample_start : proc := mkProc {[ 0 := 100; 1 := 101; 2 := 102 ]} ∅ [].
Definition sample_second : proc := (__popen (mkAnswers true (Some (3, 4)) (200, 201) 500 (Some 9000)) (str "r") sample_start).2.
Definition sample_third : proc := (__popen (mkAnswers true (Some (4, 5)) (202, 203) 501 (Some 9100)) (str "w") sample_second).2.

Definition sample_failed : proc := (__popen (mkAnswers true (Some (6, 7)) (204, 205) 502 None) (str "r") sample_third).2.

Lemma descriptors_accounted_witness :
  exists st, __pclose (fun _ => [Interrupted; Status 0]) 9000 sample_failed = ret (0, st) /\ fds st = {[ 0 := 100; 1 := 101; 2 := 102; 5 := 203; 6 := 204 ]} /\
             pidlist st = [(0, 502); (9100, 501)] /\ exists leaked, accounted (fds sample_start) leaked st.
Proof.
  eexists. split; [reflexivity|]. split; [vm_compute; reflexivity|]. split; [reflexivity|].
  apply (descriptors_accounted (fds sample_start)).
  apply rtc_l with sample_second; [|apply rtc_l with sample_third; [|apply rtc_l with sample_failed; [|apply rtc_once]]].
  - apply call_popen. split; [intros p0 p1 H; injection H as <- <-; repeat split; (discriminate || reflexivity)|intros s H; injection H as <-; split; [discriminate|reflexivity]].
  - apply call_popen. split; [intros p0 p1 H; injection H as <- <-; repeat split; (discriminate || reflexivity)|intros s H; injection H as <-; split; [discriminate|reflexivity]].
  - apply call_popen. split; [intros p0 p1 H; injection H as <- <-; repeat split; (discriminate || reflexivity)|discriminate].
  - eapply (call_pclose (fun _ => [Interrupted; Status 0]) 9000). reflexivity.
Defined.

Lemma named_in s p l : s <> 0 -> (s, p) ∈ l -> s ∈ named l.
Proof.
  intros H0. induction l as [|[t q] l IH]; [now intros ?%not_elem_of_nil|]. rewrite named_cons, elem_of_cons. intros [E|Hi].
  - injection E as <- <-. rewrite (proj2 (Z.eqb_neq s 0)) by exact H0. left.
  - destruct (t =? 0); [auto|right; auto].
Qed.

Lemma unlink_pid_found s pid l : s <> 0 -> NoDup (named l) -> (s, pid) ∈ l ->
  exists l', unlink_pid s l = Some (pid, l') /\ forall t q, (t, q) ∈ l' <-> (t, q) ∈ l /\ t <> s.
Proof.
  intros H0. induction l as [|[fp q] l IH]; intros Hn Hl; [now apply not_elem_of_nil in Hl|]. cbn [unlink_pid]. rewrite named_cons in Hn.
  destruct (Z.eqb_spec fp s) as [->|Hne].
  - rewrite (proj2 (Z.eqb_neq s 0)) in Hn by exact H0. apply NoDup_cons in Hn as [Hf Hn].
    apply elem_of_cons in Hl as [Hl|Hl]; [|now destruct Hf; apply (named_in s pid)]. injection Hl as <-. eexists. split; [reflexivity|].
    intros t r. rewrite elem_of_cons. split; [|intros [[E|E] Ht]; [congruence|exact E]]. intros E. split; [auto|]. intros ->. now apply Hf, (named_in s r).
  - apply elem_of_cons in Hl as [Hl|Hl]; [congruence|]. assert (Hn' : NoDup (named l)) by (destruct (fp =? 0); [exact Hn|now apply NoDup_cons in Hn as [_ ?]]).
    destruct (IH Hn' Hl) as (l' & -> & Hl'). eexists. split; [reflexivity|].
    intros t r. rewrite !elem_of_cons, Hl'. split; [intros [E|?]; [split; [auto|congruence]|tauto]|tauto].
Qed.

(** [__pclose] gives the status of the process that belongs to the stream, however often
    the call is interrupted, and forgets this stream only. *)
Theorem pclose_status d0 leaked st ws s pid n p rest :
  accounted d0 leaked st -> s <> 0 -> (s, pid) ∈ pidlist st -> ws pid = repeat Interrupted n ++ Status p :: rest ->
  exists st', __pclose ws s st = ret (p, st') /\ forall t q, (t, q) ∈ pidlist st' <-> (t, q) ∈ pidlist st /\ t <> s.
Proof.
  intros ((H1 & H2) & _) H0 Hi Hw. destruct (unlink_pid_found s pid _ H0 H1 Hi) as (l' & Hu & Hl). unfold __pclose. rewrite Hu.
  destruct (proj1 (H2 s) (named_in s pid _ H0 Hi)) as [fd Hfd]. unfold fclose. rewrite Hfd, Hw. cbn [lift bindM].
  assert (Hp : wait_for (repeat Interrupted n ++ Status p :: rest) = Some p) by (clear Hw; induction n as [|n IH]; [reflexivity|exact IH]).
  rewrite Hp. eexists. split; [reflexivity|exact Hl].
Qed.

(** [__system] leaves the signals of the process as they were, on every path, and the
    command runs with them. *)
Theorem system_restores command fork w s :
  let '(r, child, s') := __system command fork w s in
  s' = s /\ match child with Some (sh, args, sc) => sh = _PATH_BSHELL /\ sc = s | None => True end.
Proof. destruct s. unfold __system. destruct command; [destruct (fork =? -1)|]; auto. Qed.

(** * What goes wrong *)

(** [__system] does not call [waitpid] again after a signal: the result is -1 and the
    command is still running. *)
Lemma system_interrupted command fork s : fork <> -1 -> (__system (Some command) fork Interrupted s).1.1 = -1.
Proof. intros H. unfold __system. now rewrite (proj2 (Z.eqb_neq fork (-1))). Qed.

(** When [fdopen] fails the end of the pipe stays open, and the next child reads the
    descriptor of a null stream. *)
Lemma fdopen_failure_leaks p0 p1 f pid st :
  p0 <> p1 -> pid <> -1 -> streams st !! 0 = None ->
  let st' := (__popen (mkAnswers true (Some (p0, p1)) f pid None) (str "r") st).2 in
  fds st' !! p0 = Some f.1 /\ close_others (pidlist st') st' = Fault.
Proof.
  intros Hne Hp Hs. unfold __popen. cbn [a_malloc a_pipe a_fork a_fdopen a_files negb]. change (type_ok (str "r")) with true. change (reading (str "r")) with true. cbn [negb].
  rewrite (proj2 (Z.eqb_neq pid (-1))) by exact Hp. unfold close, with_fds. cbn [snd fds streams pidlist close_others default].
  rewrite lookup_delete_ne, lookup_insert_ne, lookup_insert_eq by congruence. cbn [default from_option]. now rewrite Hs.
Qed.
